(* ===== verification/_CoqProject ===== *)
-Q . S2P
Prelude.v
IntMath.v
PageTable.v
PageTableRun.v
PfInterface.v
Dcpt.v
Packet.v
CacheBlk.v
Lru.v
FaLru.v
FaLruOrder.v
FaLruRun.v
Mshr.v
MshrQueue.v
PfQueue.v
Proxy.v
PfEngines.v
PhysMem.v
Blob.v
VirtPort.v
VirtRun.v
TPort.v
CacheCtl.v
CacheInv.v
CacheRefine.v
CacheTiming.v
MshrOwed.v
TimingInv.v
TimingSteps.v
TimingRun.v
PrefetchDeadlock.v
Hierarchy.v
RangeMap.v
Bridge.v
BridgeRun.v
Bus.v
BusRanges.v
BusTiming.v
Coherence.v
Multicore.v
Machine.v
EventQueue.v
EventRefine.v
Simulate.v
BranchPred.v
BranchTargets.v
BPredUnit.v
BPredRun.v
StoreSet.v
