(* ===== verification/Prelude.v ===== *)
(** * A verification of the TDT4260 prefetchers and of the memory hierarchy they run in

    The repository holds a hardware prefetcher for a computer-architecture contest
    (src/prefetcher) and the M5 simulator it is plugged into (src/m5).  On every
    access to the second-level cache the simulator notifies its prefetch queue,
    which asks a prefetch engine for candidate addresses; the engine of the contest
    is a proxy that calls the group's C functions.  A queued prefetch becomes a
    miss status holding register (MSHR), is sent as a packet to the memory, and
    fills a block of the cache.  This library models those parts, from the
    prefetchers down to the physical memory.

    ** The parts and their files

    - [Prelude]: fixed-width integers, masks and the tactics and lemmas shared by
      all files.
    - [IntMath] (src/m5/src/base/intmath.hh, intmath.cc): powers of two, logarithms,
      rounding, primes.
    - [PfInterface] (src/prefetcher/interface.hh): the callbacks of a user
      prefetcher as the class [UserPrefetcher], the calls it may make as [SimCall]
      and what it sees as [View]; [SafePrefetcher] is the promise not to leave the
      physical memory.
    - [Dcpt] (src/prefetcher/prefetcher.cc): delta-correlating prediction tables;
      the state is [Dcpt], one definition per function of the file, and
      [DcptPrefetcher] the instance of the interface.
    - [Packet] (src/m5/src/mem/packet.hh, packet.cc, request.hh, base/flags.hh):
      commands, requests and packets.
    - [CacheBlk] (src/m5/src/mem/cache/blk.hh, tags/cacheset.cc) and [Lru]
      (tags/lru.hh, lru.cc): blocks, recency lists and the tag store.  A pointer to a
      block is an index into [blks].
    - [FaLru] (src/m5/src/mem/cache/tags/fa_lru.hh, fa_lru.cc): the fully associative
      tag store, a doubly linked list of blocks that tracks caches of several sizes at
      once; [FaLruOrder]: that the list, the boundaries and the bits describe one
      order; [FaLruRun]: its runs.
    - [Mshr] (src/m5/src/mem/cache/mshr.hh, mshr.cc) and [MshrQueue] (mshr_queue.hh,
      mshr_queue.cc): registers live in a [Heap], since registers of different
      caches point at each other.
    - [PfQueue] (src/m5/src/mem/cache/prefetch/base.hh, base.cc): the prefetch queue
      against the class [PfEngine]; [BlockEngine] states what the queue needs of an
      engine.
    - [Proxy] (prefetch/proxy.cc, src/prefetcher/ts_54.cc) and [PfEngines]
      (prefetch/tagged.cc, sequential.cc, ghb.cc, stride.cc, cppinterface.cc,
      outer_impl.cc): the engines.  [ProxyEngine] turns any [UserPrefetcher] into
      an engine.
    - [PhysMem] (src/m5/src/mem/physical.hh, physical.cc): the memory; [AtomicPort]
      is whatever answers atomic requests and [ByteMemory] the promise that it is
      a memory, which the physical memory keeps.
    - [CacheCtl] (src/m5/src/mem/cache/cache_impl.hh, cache.hh, base.hh): the cache
      controller in atomic mode, over any [AtomicPort], and its snoops; [CacheInv]:
      the invariant of its blocks, kept by every operation; [CacheRefine]: that it
      is transparent.
    - [TPort] (src/m5/src/mem/tport.hh, tport.cc): a port with a list of delayed
      packets and the event that sends them, and a device behind such a port.
    - [CacheTiming] (src/m5/src/mem/cache/cache_impl.hh, base.hh, base.cc): the same
      controller in timing mode, with the write buffer, the prefetcher, being
      blocked and two ports; [TimingPeers] is what is connected to them.  [MshrOwed],
      [TimingInv] and [TimingSteps] state and prove its invariant operation by
      operation, [TimingRun] draws the conclusions for runs, and [PrefetchDeadlock]
      is a run in which the cache stops.
    - [Hierarchy]: the cpu side port of a cache as an [AtomicPort], that a cache
      keeps the promise of [ByteMemory], and stacks of caches.
    - [RangeMap] (src/m5/src/base/range.hh, range_map.hh): address ranges and maps
      keyed by them; [Bus] (src/m5/src/mem/bus.hh, bus.cc): address decoding,
      atomic and functional accesses; [BusRanges]: how ports are connected and their
      address ranges registered; [BusTiming]: timing transactions, the retry list and
      the event that frees the bus, with the [Bus] as the field [decoder].
    - [Coherence] and [Multicore]: any number of caches on a bus, what snoops and
      transactions do to them, and that the system is coherent; [Machine]: the system
      as it is assembled from a new bus.
    - [EventQueue] (src/m5/src/sim/eventq.hh, eventq.cc): the event queue, a list of
      bins of linked events in a store; the actions of events are the class
      [EventActions].  [EventRefine]: its comparison with a sorted list.
    - [Simulate] (src/m5/src/sim/simulate.cc, sim_events.cc): the main loop.
    - [Bridge] (src/m5/src/mem/bridge.hh, bridge.cc, base/range_ops.hh): the bridge
      between two buses, [BridgeRun]: its runs.  [BridgedPort] is a memory seen
      through a bridge in atomic mode.
    - The branch prediction of the out-of-order processor: [BranchPred]
      (src/m5/src/cpu/o3/sat_counter.hh, cpu/pred/2bit_local.cc, tournament.cc), the
      direction predictors with the class [DirectionPredictor] that states what the
      unit relies on; [BranchTargets] (cpu/pred/btb.cc, ras.cc), the branch target
      buffer and the return address stack; [BPredUnit] (cpu/o3/bpred_unit.hh,
      bpred_unit_impl.hh), the unit that puts them together, and [BPredRun], its runs.
    - [StoreSet] (src/m5/src/cpu/o3/store_set.hh, store_set.cc): the memory dependence
      predictor of the same processor.
    - [PageTable] (src/m5/src/mem/page_table.hh, page_table.cc, with the entries of
      arch/alpha/pagetable.hh and [new_page] of sim/system.cc): the page table of a
      process and its cache; [PageTableRun]: several processes on one system.
    - [Blob] (src/m5/src/base/chunk_generator.hh, mem/port.cc): accesses of any length
      in pieces, with the class [FunctionalMemory] that states what they rely on and
      its instance for the physical memory; [VirtPort] (mem/translating_port.cc,
      [checkAndAllocNextPage] of sim/process.cc): the memory of a process by virtual
      addresses, over a page table and such a memory; [VirtRun]: reads, strings and
      the stack.

    ** Conventions

    An integer of the code is a [Z] that is wrapped where the code stores it
    ([u32], [u64], [s32], [s64]); an overflow of a signed type, which is undefined,
    is checked where it can happen ([int_chk]).  A failed assertion, a panic, a
    fatal error, an access outside of a buffer and undefined behaviour are [None],
    so a theorem that an operation returns [Some] also says that none of these
    happens.  Pointers between objects are indices or heap keys; mutation is
    explicit state.  The time ([curTick]), unspecified initial contents and random
    numbers are arguments.

    ** What the theorems show

    - The prefetchers: the invariant of every reachable DCPT state ([dcpt_invariant]),
      what it issues and when ([dcpt_issues_safely]), that it learns a constant stride
      that fits in 12 bits ([dcpt_learns_stride]), and three ways in which it falls
      short of its design ([dcpt_in_flight_leak], blocks that are recorded as in flight
      for ever, [dcpt_never_forgets], [delta_correlation_backwards]); the sequential
      prefetcher ([ts_prefetches]).
    - The prefetch queue for every engine that proposes whole blocks
      ([pf_queue_invariant], [pf_notify_spec]), the engines ([stride_branches],
      [degree_run_spec], [interface_duplicates]), and that a safe user prefetcher
      never stops the simulation ([proxy_never_fatal]).
    - The cache: [cache_transparent], a refinement theorem, says that a cache over any
      byte memory answers sequences of requests to parts of blocks as a flat array of
      bytes - conditional writes only when the memory always gives exclusive copies -
      and [hierarchy_transparent] that any number of caches below each other do;
      [machine_coherent] says that caches next to each other on a bus, with any such
      memory below and assembled through the bus's own registration, answer the
      interleaved requests of their processors as one array of bytes, and
      [single_writer] how the copies of a block are related after such requests. They
      leave conditional writes out for a reason: a store-conditional that fails on a
      dirty block without write permission resets the dirty bit and the block is
      replaced without a writeback ([failed_store_conditional_loses_data]);
      [prefetch_bits] covers the bits the prefetchers use. Below it, the tag store
      ([lru_fill], [lru_access_invalidate], [lru_replacement_order],
      [lru_address_roundtrip]) and load-locked accesses in a block and in the memory
      ([store_conditional_spec], [memory_store_conditional]).
    - The fully associative store keeps its links, boundaries and bits in the order of
      last use ([falru_check_holds])
      and counts the hits of all sizes ([falru_counts_all_sizes]), but the cache
      cannot use it ([falru_fill_fails]).
    - The cache in timing mode: every request that was taken is answered exactly once
      ([cache_answers_once]), what waits is remembered and the events for it are due
      ([cache_loses_no_wakeup]), and a cache without a prefetcher that is blocked has a
      reason and something in progress ([blocked_cache_progress]); with a prefetcher it
      can stay blocked for ever ([prefetch_bailout_deadlock]). They hold for all devices
      on both sides, with snoops and retries in any order. A device behind a timing port
      answers every request exactly once ([device_answers]) and delivers what is on its
      list ([delayed_packets_delivered]).
    - The bus decodes addresses as its range map says ([port_cache_transparent],
      [range_map_insert_find], [range_map_accepts_overlap]), registers and reports
      address ranges ([status_change_routes], [addressRanges_spec],
      [default_subset_rejected]) and completes functional accesses
      ([functional_first_responder]).  In timing mode, after [startup], it loses no
      wakeup ([bus_arbitration]), takes the time of header and data
      ([bus_transaction_spec]) and serves each waiting device within a bound
      ([waiters_served]); the exception is a run that resumes at a later tick and uses
      the bus before the next edge of its clock ([startup_strands_waiters]).
    - The bridge forwards every request and every response once and in order
      ([bridge_delivers_once]) and fails only on a request that needs no response
      and finds no room ([bridge_handles_packets]); functional reads miss queued
      writes ([bridge_functional_misses_write]).
    - Branch prediction: no call of the processor fails with at most 16 return
      addresses and a history that fits its table ([bpred_never_fails]), and a
      squash takes speculation back ([speculation_undone]); the parts are a bounded
      stack ([ras_refines_stack]), a table of last updates ([btb_last_update]) and
      counters that learn ([local_predictor_learns]).  Three theorems show where the
      unit does not do what it means to ([tournament_parameters_swapped],
      [btb_miss_trains_taken], [mispredict_keeps_wrong_history]).
    - The store sets return for stores in order ([store_sets_return]) and learn from
      a violation ([store_set_learns]); out of order a squash may not end
      ([squash_stuck]).
    - Page tables keep processes apart ([process_isolation]), map what is allocated as
      long as nothing is released or moved ([allocate_translates]) and translate or
      fault requests ([request_translation]); released and moved pages still translate
      ([released_page_translates]). Over them the memory of a process is a memory of
      bytes ([virtual_blob_roundtrip], [string_roundtrip]) and its stack grows on
      access, up to the smaller of its two limits ([stack_growth]).
    - The MSHRs: the invariant of every reachable register, with the rule by which
      targets are deferred, and of every queue ([mshr_invariant],
      [mshr_queue_invariant]), that assertions hold ([mshr_assertions]), that requests
      are accepted and served in order ([mshr_queue_capacity], [mshr_queue_next]) and
      that the walk through upstream registers ends
      ([clearDownstreamPending_terminates]).
    - The event queue: it behaves as a list sorted by time and priority
      ([event_queue_equivalence]), holds every scheduled event once
      ([event_queue_invariant]), and what checkpoints and the self-check do
      ([checkpoint_order], [debugVerify_spec]).  The main loop never meets an event
      of the past ([simulation_time]) and ends ([simulation_ends]).
    - Packets: the command table, responses, splitting, functional accesses and
      block transfers; integers: logarithms, rounding and primes.

    ** Fuel

    [clearDP] recurses through registers and takes as many steps as there are
    registers, which is enough because each call clears a flag; [degree_loop] takes
    [degree] steps, the number of iterations of its loop; the searches of
    [IntMath] take as many steps as their argument allows and their theorems show
    that this is enough.  The walks over the event queue ([bin_walk], [item_walk],
    [queue_events]) take as many steps as there are events in the store, which is
    enough because a walk does not meet an event twice; the main loop [sim_loop]
    has a fuel that [simulation_ends] shows to exist.  The loop [catch_up] of the bus
    adds a positive clock period and so ends within the number of ticks it catches up.
    In timing mode [respond_loop] takes as many turns as the register has targets,
    each of which takes one off, and [next_prefetch] as many as there are queued
    prefetches.  The self-check [check_loop] of the fully associative store takes as
    many steps as there are blocks, and [falru_check_holds] shows that it ends.  The
    loops over pages take one step more than there are whole pages in the size, and
    [allocate_translates] shows that this is enough.  The stack grows by
    as many steps as there are pages down to the address, and one more
    ([stack_growth]).  A loop over the pieces of an
    access takes as many steps as there are bytes, since a piece has at least one
    ([chunk_loop_ok]).

    ** What is not modelled

    In timing mode the theorems are about when and how often requests are answered; that
    the bytes of the answers are those of a memory is proved for the atomic mode only.
    Runs in which the 64-bit number of requests or the 16-bit number of targets of a
    register wraps, or in which the tick reaches 2^62, are left out. A system of timing
    caches on a bus is not modelled. The flags that signal handlers of the host set for
    the main loop are not modelled. The indirect tag store, the DRAM model, the CPU
    models beyond branch and memory dependence prediction, Ruby, devices, printing,
    statistics formulas, checkpoints and the Python side are left out: the contest
    configuration does not use them, or they do not influence what is prefetched. *)

From stdpp Require Export base list gmap sorting strings.
From Stdlib Require Export ZArith Lia.

#[global] Open Scope Z_scope.

(** [lia] sees through [/] and [mod] everywhere in the development. *)
Ltac Zify.zify_post_hook ::= Z.div_mod_to_equations.

(** ** Machine integers

    A C++ integer of width [w] is a [Z] together with the wrap-around that the
    language performs when a value is stored into it. *)

Definition wrapU (w x : Z) : Z := x mod 2 ^ w.
Definition wrapS (w x : Z) : Z := (x + 2 ^ (w - 1)) mod 2 ^ w - 2 ^ (w - 1).

(** [uint8_t], [unsigned short], [unsigned], [uint64_t] ([Addr]), [int] and
    [int64_t] ([Tick]). *)
Definition u8 (x : Z) : Z := wrapU 8 x.
Definition u16 (x : Z) : Z := wrapU 16 x.
Definition u32 (x : Z) : Z := wrapU 32 x.
Definition u64 (x : Z) : Z := wrapU 64 x.
Definition s32 (x : Z) : Z := wrapS 32 x.
Definition s64 (x : Z) : Z := wrapS 64 x.

(** The last [Tick] ([src/m5/src/base/types.hh]). *)
Definition MaxTick : Z := 0x7fffffffffffffff.

(** Complement of a [w]-bit unsigned value ([~x]). *)
Definition notU (w x : Z) : Z := 2 ^ w - 1 - x.

(** C++ truth value of an integer. *)
Definition truthy (x : Z) : bool := negb (x =? 0).

Definition is_u32 (x : Z) : Prop := 0 <= x < 2 ^ 32.
Definition is_u64 (x : Z) : Prop := 0 <= x < 2 ^ 64.
Definition is_s32 (x : Z) : Prop := - 2 ^ 31 <= x < 2 ^ 31.
Definition is_s64 (x : Z) : Prop := - 2 ^ 63 <= x < 2 ^ 63.

Ltac unfold_int :=
  unfold u8, u16, u32, u64, s32, s64, wrapU, wrapS, is_u32, is_u64, is_s32, is_s64 in *;
  change (2 ^ (32 - 1)) with (2 ^ 31) in *; change (2 ^ (64 - 1)) with (2 ^ 63) in *.

(** Arithmetic on fixed-width values. *)
Ltac ilia := unfold_int; lia.

(** Reflect the boolean integer tests of the code into propositions. *)
Ltac zbool :=
  repeat match goal with
  | H : (_ && _)%bool = true |- _ => apply andb_true_iff in H; destruct H
  | H : (_ || _)%bool = false |- _ => apply orb_false_iff in H; destruct H
  | H : negb _ = true |- _ => apply negb_true_iff in H
  | H : negb _ = false |- _ => apply negb_false_iff in H
  | H : (_ =? _) = true |- _ => apply Z.eqb_eq in H
  | H : (_ =? _) = false |- _ => apply Z.eqb_neq in H
  | H : (_ <? _) = true |- _ => apply Z.ltb_lt in H
  | H : (_ <? _) = false |- _ => apply Z.ltb_ge in H
  | H : (_ <=? _) = true |- _ => apply Z.leb_le in H
  | H : (_ <=? _) = false |- _ => apply Z.leb_gt in H
  end.

(** Case analysis on an integer test of the goal. *)
Ltac zcase :=
  match goal with
  | |- context [?x =? ?y] => destruct (Z.eqb_spec x y)
  | |- context [?x <? ?y] => destruct (Z.ltb_spec x y)
  | |- context [?x <=? ?y] => destruct (Z.leb_spec x y)
  end.

(** The first action of a computation has not failed. *)
Tactic Notation "obind" simple_intropattern(pat) ident(E) :=
  match goal with |- mbind _ ?o = _ → _ => destruct o as pat eqn:E; [cbn [mbind option_bind]|done] end.
Tactic Notation "obind" simple_intropattern(pat) :=
  match goal with |- mbind _ ?o = _ → _ => destruct o as pat; [cbn [mbind option_bind]|done] end.

Create HintDb m5.

Section MachineIntegers.

Lemma u64_range x : is_u64 (u64 x).
Proof. ilia. Qed.

Lemma u32_range x : is_u32 (u32 x).
Proof. ilia. Qed.

Lemma s32_range x : is_s32 (s32 x).
Proof. ilia. Qed.

Lemma s64_range x : is_s64 (s64 x).
Proof. ilia. Qed.

Lemma u64_small x : is_u64 x → u64 x = x.
Proof. ilia. Qed.

Lemma u32_small x : is_u32 x → u32 x = x.
Proof. ilia. Qed.

Lemma s32_small x : is_s32 x → s32 x = x.
Proof. ilia. Qed.

Lemma s64_small x : is_s64 x → s64 x = x.
Proof. ilia. Qed.

Lemma u64_add_l x y : u64 (u64 x + y) = u64 (x + y).
Proof. unfold u64, wrapU. by rewrite Zplus_mod_idemp_l. Qed.

Lemma u16_succ x : u16 (u16 x + 1) = u16 (x + 1).
Proof. unfold u16, wrapU. by rewrite Zplus_mod_idemp_l. Qed.

Lemma u16_pred x : u16 (u16 x - 1) = u16 (x - 1).
Proof. unfold u16, wrapU. by rewrite Zminus_mod_idemp_l. Qed.

Lemma u64_sub_add x y : is_u64 y → u64 (x + u64 (y - x)) = y.
Proof. ilia. Qed.

End MachineIntegers.

#[export] Hint Resolve u64_range u32_range s32_range s64_range : m5.

(** ** Bit masks *)

Section Masks.

Lemma land_ones_mod x n : 0 <= n → Z.land x (2 ^ n - 1) = x mod 2 ^ n.
Proof.
  intros Hn. rewrite <- Z.land_ones by done. f_equal.
  rewrite Z.ones_equiv. lia.
Qed.

(** [x & ~(2^k - 1)] on a [w]-bit value clears the low [k] bits. *)
Lemma land_notU_align w k x :
  0 <= k <= w → 0 <= x < 2 ^ w →
  Z.land x (notU w (2 ^ k - 1)) = x - x mod 2 ^ k.
Proof.
  intros Hk Hx. rewrite <- land_ones_mod by lia.
  assert (Z.land x (notU w (2 ^ k - 1)) = Z.ldiff x (2 ^ k - 1)) as ->.
  { apply Z.bits_inj'. intros i Hi.
    rewrite Z.land_spec, Z.ldiff_spec.
    replace (notU w (2 ^ k - 1)) with (Z.lnot (Z.ones k) + 1 * 2 ^ w)
      by (unfold notU, Z.lnot; rewrite Z.ones_equiv; lia).
    destruct (Z_lt_le_dec i w) as [Hlt|Hge].
    - replace (2 ^ k - 1) with (Z.ones k) by (rewrite Z.ones_equiv; lia).
      f_equal. rewrite <- (Z.mod_pow2_bits_low _ w) by done.
      rewrite Z.mod_add by lia.
      by rewrite Z.mod_pow2_bits_low, Z.lnot_spec by done.
    - destruct (Z.eq_dec x 0) as [->|]; [by rewrite Z.bits_0|].
      rewrite (Z.bits_above_log2 x i); [done|lia|].
      assert (Z.log2 x < w) by (apply Z.log2_lt_pow2; lia). lia. }
  pose proof (Z.sub_nocarry_ldiff x (Z.land x (2 ^ k - 1))) as Hs.
  rewrite Hs.
  - apply Z.bits_inj'. intros i Hi.
    rewrite !Z.ldiff_spec, Z.land_spec. by destruct (Z.testbit x i), (Z.testbit _ i).
  - apply Z.bits_inj'. intros i Hi.
    rewrite Z.ldiff_spec, Z.land_spec, Z.bits_0.
    by destruct (Z.testbit x i), (Z.testbit _ i).
Qed.

Lemma mod_pow2_pow2_align x j k :
  0 <= j <= k → (x - x mod 2 ^ k) mod 2 ^ j = 0.
Proof.
  intros Hj.
  assert (x - x mod 2 ^ k = 2 ^ j * (2 ^ (k - j) * (x / 2 ^ k))) as ->.
  { rewrite Z.mul_assoc, <- Z.pow_add_r by lia.
    replace (j + (k - j)) with k by lia.
    pose proof (Z.div_mod x (2 ^ k)). lia. }
  rewrite Z.mul_comm. apply Z.mod_mul. lia.
Qed.

(** [lor] of a multiple of [2^n] and a value below [2^n] is their sum. *)
Lemma lor_shifted_add x y n :
  0 <= n → 0 <= y < 2 ^ n → Z.lor (x * 2 ^ n) y = x * 2 ^ n + y.
Proof.
  intros Hn Hy. rewrite <- Z.lxor_lor, <- Z.add_nocarry_lxor; [done| |];
    rewrite <- Z.shiftl_mul_pow2 by done; apply Z.bits_inj'; intros i Hi;
    rewrite Z.land_spec, Z.shiftl_spec, Z.bits_0 by done;
    (destruct (decide (i < n));
     [by rewrite Z.testbit_neg_r by lia|
      destruct (Z.eq_dec y 0) as [->|]; [by rewrite Z.bits_0, andb_false_r|];
      rewrite (Z.bits_above_log2 y i); [apply andb_false_r|lia|];
      assert (Z.log2 y < n) by (apply Z.log2_lt_pow2; lia); lia]).
Qed.

End Masks.

(** ** Lists *)

Section Lists.
Context {A B : Type}.

Lemma Forall2_elem_r (P : A → B → Prop) l k y :
  Forall2 P l k → y ∈ k → ∃ x, x ∈ l ∧ P x y.
Proof.
  intros Hf Hy. apply list_elem_of_lookup in Hy as [i Hi].
  destruct (Forall2_lookup_r _ _ _ _ _ Hf Hi) as (x & Hx & HP).
  exists x. split; [by eapply list_elem_of_lookup_2|done].
Qed.

Lemma StronglySorted_sublist (R : relation A) l k :
  l `sublist_of` k → StronglySorted R k → StronglySorted R l.
Proof.
  induction 1 as [|x l k Hs IH|x l k Hs IH]; intros Hk; [done| |];
    apply StronglySorted_inv in Hk as [Hk Hx]; [|by apply IH].
  constructor; [by apply IH|]. rewrite Forall_forall in *. intros y Hy.
  apply Hx. by eapply elem_of_sublist.
Qed.

Lemma StronglySorted_lookup (R : relation A) l i j x y :
  StronglySorted R l → l !! i = Some x → l !! j = Some y → (i < j)%nat → R x y.
Proof.
  intros Hs Hi Hj Hij. rewrite <- (take_drop j l) in Hs.
  apply (StronglySorted_app_1_elem_of R _ _ _ _ Hs).
  - apply elem_of_take. by exists i.
  - apply list_elem_of_lookup. exists 0%nat. by rewrite lookup_drop, Nat.add_0_r.
Qed.

End Lists.

Lemma fmap_sublist {A B} (f : A → B) (l k : list A) : l `sublist_of` k → f <$> l `sublist_of` f <$> k.
Proof. induction 1; cbn; by constructor. Qed.

Lemma fmap_delete {A B} (f : A → B) (l : list A) i : f <$> delete i l = delete i (f <$> l).
Proof. revert i. induction l as [|x l IH]; intros [|i]; cbn; [done..|]. by f_equal. Qed.

(** [list::erase] through an iterator to the element [x]. *)
Fixpoint list_erase {A} `{EqDecision A} (x : A) (l : list A) : option (list A) :=
  match l with
  | [] => None
  | y :: l => if decide (y = x) then Some l else l' ← list_erase x l; Some (y :: l')
  end.

Section Erase.
Context {A : Type} `{EqDecision A}.
Implicit Types (x y : A) (l : list A).

Lemma list_erase_perm x l l' : list_erase x l = Some l' → l ≡ₚ x :: l'.
Proof.
  revert l'. induction l as [|y l IH]; intros l' E; cbn in E; [done|].
  destruct (decide (y = x)) as [->|]; [by injection E as <-|].
  destruct (list_erase x l) as [l1|]; [|done]. injection E as <-.
  rewrite (IH l1 eq_refl). apply Permutation_swap.
Qed.

Lemma list_erase_Some x l : x ∈ l → is_Some (list_erase x l).
Proof.
  induction l as [|y l IH]; intros Hx; cbn; [by apply elem_of_nil in Hx|].
  destruct (decide (y = x)); [done|].
  apply elem_of_cons in Hx as [->|Hx]; [done|]. destruct (IH Hx) as [l' ->]. by eexists.
Qed.

Lemma list_erase_sorted (R : relation A) x l l' :
  StronglySorted R l → list_erase x l = Some l' → StronglySorted R l'.
Proof.
  revert l'. induction l as [|y l IH]; intros l' Hs E; cbn in E; [done|].
  apply StronglySorted_inv in Hs as [Hs Hy].
  destruct (decide (y = x)); [by injection E as <-|].
  destruct (list_erase x l) as [l1|] eqn:E1; [|done]. injection E as <-.
  constructor; [by apply IH|]. apply list_erase_perm in E1.
  rewrite E1 in Hy. by apply Forall_cons in Hy as [_ ?].
Qed.

End Erase.
