(* ===== verification/IntMath.v ===== *)
(** Integer helpers of [src/m5/src/base/intmath.hh] and [intmath.cc]: powers of
    two, logarithms, rounding, and the prime search used to size hash tables.
    Template functions are modelled at the width the callers instantiate them
    with, given as the argument [w]; an [assert] or an overflow of a signed
    [int] (undefined in C++) is [None]. *)

From Stdlib Require Import Znumtheory.
From S2P Require Import Prelude.

(** ** Powers of two and logarithms *)

(** [n & ~(n - 1)] *)
Definition leastSigBit (w n : Z) : Z := Z.land n (notU w (wrapU w (n - 1))).

Definition isPowerOf2 (w n : Z) : bool := negb (n =? 0) && (leastSigBit w n =? n).

(** One line [if (x & mask) { y += sh; x >>= sh; }] of [floorLog2]. *)
Definition log_step (mask sh : Z) (xy : Z * Z) : Z * Z :=
  let '(x, y) := xy in
  if truthy (Z.land x mask) then (Z.shiftr x sh, y + sh) else (x, y).

(** [floorLog2(unsigned)] *)
Definition floorLog2 (x : Z) : option Z :=
  if x >? 0 then
    let xy := (x, 0) in
    let xy := log_step 0xffff0000 16 xy in
    let xy := log_step 0x0000ff00 8 xy in
    let xy := log_step 0x000000f0 4 xy in
    let xy := log_step 0x0000000c 2 xy in
    Some (if truthy (Z.land xy.1 0x00000002) then xy.2 + 1 else xy.2)
  else None.

(** [floorLog2(unsigned long long)] *)
Definition floorLog2_64 (x : Z) : option Z :=
  if x >? 0 then
    let xy := (x, 0) in
    let xy := log_step 0xffffffff00000000 32 xy in
    let xy := log_step 0x00000000ffff0000 16 xy in
    let xy := log_step 0x000000000000ff00 8 xy in
    let xy := log_step 0x00000000000000f0 4 xy in
    let xy := log_step 0x000000000000000c 2 xy in
    Some (if truthy (Z.land xy.1 0x0000000000000002) then xy.2 + 1 else xy.2)
  else None.

(** [floorLog2(unsigned long)] where [long] has 64 bits ([__LP64__]); the two
    masks that the code writes without a suffix have the same value. *)
Definition floorLog2_ul (x : Z) : option Z :=
  if x >? 0 then
    let xy := (x, 0) in
    let xy := log_step 0xffffffff00000000 32 xy in
    let xy := log_step 0xffff0000 16 xy in
    let xy := log_step 0x0000ff00 8 xy in
    let xy := log_step 0x000000f0 4 xy in
    let xy := log_step 0x0000000c 2 xy in
    Some (if truthy (Z.land xy.1 0x00000002) then xy.2 + 1 else xy.2)
  else None.

(** The overloads at [int], [long] and [long long] assert before they convert. *)
Definition floorLog2_int (x : Z) : option Z := if x >? 0 then floorLog2 (u32 x) else None.
Definition floorLog2_long (x : Z) : option Z := if x >? 0 then floorLog2_ul (u64 x) else None.
Definition floorLog2_longlong (x : Z) : option Z := if x >? 0 then floorLog2_64 (u64 x) else None.

(** [ceilLog2] at [unsigned long long] *)
Definition ceilLog2 (n : Z) : option Z :=
  if n =? 1 then Some 0 else (λ l, l + 1) <$> floorLog2_64 (u64 (n - 1)).

Definition floorPow2 (n : Z) : option Z := (λ l, u64 (Z.shiftl 1 l)) <$> floorLog2_64 n.
Definition ceilPow2 (n : Z) : option Z := (λ l, u64 (Z.shiftl 1 l)) <$> ceilLog2 n.

(** ** Rounding *)

(** [divCeil], [roundUp] and [roundDown] at [Addr]. *)
Definition divCeil (a b : Z) : Z := u64 (u64 (a + b) - 1) / b.

Definition roundUp (val align : Z) : Z :=
  let mask := u64 (align - 1) in Z.land (u64 (val + mask)) (notU 64 mask).

Definition roundDown (val align : Z) : Z :=
  let mask := u64 (align - 1) in Z.land val (notU 64 mask).

(** ** Digits

    A character is its code. *)

Definition isHex (c : Z) : bool :=
  ((48 <=? c) && (c <=? 57)) || ((65 <=? c) && (c <=? 70)) || ((97 <=? c) && (c <=? 102)).

Definition isOct (c : Z) : bool := (48 <=? c) && (c <=? 55).

Definition isDec (c : Z) : bool := (48 <=? c) && (c <=? 57).

Definition hex2Int (c : Z) : Z :=
  if (48 <=? c) && (c <=? 57) then c - 48
  else if (65 <=? c) && (c <=? 70) then c - 65 + 10
  else if (97 <=? c) && (c <=? 102) then c - 97 + 10
  else 0.

(** ** Prime search *)

(** An [int] result: [None] when it leaves the range of the type. *)
Definition int_chk (x : Z) : option Z :=
  if (- 2 ^ 31 <=? x) && (x <? 2 ^ 31) then Some x else None.

(** The loop of [isPrime] at [int]; [i * i] overflows at [i = 46343] at the
    latest, so 7800 iterations are never exceeded. *)
Fixpoint isPrime_loop (fuel : nat) (i n : Z) : option bool :=
  match fuel with
  | O => None
  | S fuel =>
      ii ← int_chk (i * i);
      if ii <=? n then
        if (Z.rem n i =? 0) || (Z.rem n (i + 2) =? 0) then Some false
        else isPrime_loop fuel (i + 6) n
      else Some true
  end.

Definition isPrime_fuel : nat := 7800%nat.

Definition isPrime (n : Z) : option bool :=
  if (n =? 2) || (n =? 3) then Some true else isPrime_loop isPrime_fuel 5 n.

(** The endless loop of [prevPrime]; it stops below 25 at the latest. *)
Fixpoint prevPrime_loop (fuel : nat) (n decr : Z) : option Z :=
  match fuel with
  | O => None
  | S fuel =>
      p ← isPrime n;
      if (p : bool) then Some n else prevPrime_loop fuel (n - decr) (6 - decr)
  end.

Definition prevPrime (n : Z) : option Z :=
  n ← (if Z.land n 1 =? 0 then int_chk (n - 1) else Some n);
  let decr := Z.rem n 3 in
  '(n, decr) ← (if decr =? 0 then n ← int_chk (n - 2); Some (n, 2)
                else Some (n, if decr =? 1 then 4 else decr));
  prevPrime_loop (S (Z.to_nat n)) n decr.

(** ** Proofs *)

Section Logarithm.

(** The mask of the bits [s .. 2s-1] tests [2^s <= x] below [2^(2s)]. *)
Lemma high_mask_test x s :
  0 < s → 0 <= x < 2 ^ (2 * s) →
  truthy (Z.land x (2 ^ (2 * s) - 2 ^ s)) = (2 ^ s <=? x).
Proof.
  intros Hs Hx. unfold truthy.
  assert (2 ^ (2 * s) - 2 ^ s = Z.shiftl (Z.ones s) s) as ->.
  { rewrite Z.shiftl_mul_pow2, Z.ones_equiv by lia.
    replace (2 * s) with (s + s) by lia. rewrite Z.pow_add_r by lia. nia. }
  assert (Z.land x (Z.shiftl (Z.ones s) s) = Z.shiftl (x / 2 ^ s) s) as ->.
  { apply Z.bits_inj'. intros i Hi.
    rewrite Z.land_spec, !Z.shiftl_spec by lia.
    destruct (decide (i < s)).
    { rewrite !(Z.testbit_neg_r _ (i - s)) by lia. apply andb_false_r. }
    rewrite <- Z.shiftr_div_pow2, Z.shiftr_spec by lia.
    replace (i - s + s) with i by lia.
    destruct (decide (i < 2 * s)).
    { rewrite Z.ones_spec_low by lia. apply andb_true_r. }
    rewrite (Z.bits_above_log2 x i); [done|lia|].
    destruct (Z.eq_dec x 0) as [->|]; [change (Z.log2 0) with 0; lia|].
    assert (Z.log2 x < 2 * s) by (apply Z.log2_lt_pow2; lia). lia. }
  rewrite Z.shiftl_mul_pow2 by lia.
  assert (0 < 2 ^ s) by lia.
  destruct (Z.leb_spec (2 ^ s) x).
  - assert (1 <= x / 2 ^ s) by (apply Z.div_le_lower_bound; lia).
    destruct (Z.eqb_spec (x / 2 ^ s * 2 ^ s) 0); [nia|done].
  - rewrite Z.div_small by lia. done.
Qed.

Lemma log_step_spec s x y :
  0 < s → 0 < x < 2 ^ (2 * s) →
  let '(x', y') := log_step (2 ^ (2 * s) - 2 ^ s) s (x, y) in
  0 < x' < 2 ^ s ∧ y' + Z.log2 x' = y + Z.log2 x.
Proof.
  intros Hs Hx. unfold log_step. rewrite high_mask_test by lia.
  destruct (Z.leb_spec (2 ^ s) x); [|lia].
  assert (0 < 2 ^ s) by lia.
  assert (1 <= x / 2 ^ s) by (apply Z.div_le_lower_bound; lia).
  assert (x / 2 ^ s < 2 ^ s).
  { apply Z.div_lt_upper_bound; [lia|]. rewrite <- Z.pow_add_r by lia.
    replace (s + s) with (2 * s) by lia. lia. }
  rewrite Z.shiftr_div_pow2 by lia. split; [lia|].
  rewrite <- Z.shiftr_div_pow2, Z.log2_shiftr by lia.
  assert (s <= Z.log2 x) by (apply Z.log2_le_pow2; lia). lia.
Qed.

Lemma log_last x y :
  0 < x < 2 ^ 2 → (if truthy (Z.land x 2) then y + 1 else y) = y + Z.log2 x.
Proof.
  intros Hx. assert (x = 1 ∨ x = 2 ∨ x = 3) as [->|[->| ->]] by lia;
    vm_compute Z.land; vm_compute Z.log2; simpl; lia.
Qed.

End Logarithm.

Lemma floorLog2_64_spec x : 0 < x < 2 ^ 64 → floorLog2_64 x = Some (Z.log2 x).
Proof.
  intros Hx. unfold floorLog2_64. rewrite (proj2 (Z.gtb_lt x 0)) by lia.
  pose proof (log_step_spec 32 x 0 ltac:(done) Hx) as H1.
  change (2 ^ (2 * 32) - 2 ^ 32) with 0xffffffff00000000 in H1.
  destruct (log_step 0xffffffff00000000 32 (x, 0)) as [x1 y1], H1 as [B1 E1].
  pose proof (log_step_spec 16 x1 y1 ltac:(done) B1) as H2.
  change (2 ^ (2 * 16) - 2 ^ 16) with 0xffff0000 in H2.
  destruct (log_step 0xffff0000 16 (x1, y1)) as [x2 y2], H2 as [B2 E2].
  pose proof (log_step_spec 8 x2 y2 ltac:(done) B2) as H3.
  change (2 ^ (2 * 8) - 2 ^ 8) with 0xff00 in H3.
  destruct (log_step 0xff00 8 (x2, y2)) as [x3 y3], H3 as [B3 E3].
  pose proof (log_step_spec 4 x3 y3 ltac:(done) B3) as H4.
  change (2 ^ (2 * 4) - 2 ^ 4) with 0xf0 in H4.
  destruct (log_step 0xf0 4 (x3, y3)) as [x4 y4], H4 as [B4 E4].
  pose proof (log_step_spec 2 x4 y4 ltac:(done) B4) as H5.
  change (2 ^ (2 * 2) - 2 ^ 2) with 0xc in H5.
  destruct (log_step 0xc 2 (x4, y4)) as [x5 y5], H5 as [B5 E5].
  simpl. rewrite log_last by done. f_equal. lia.
Qed.

(** The 32-bit version is the 64-bit one without its first line, which does
    nothing below [2^32]. *)
Lemma floorLog2_64_32 x : x < 2 ^ 32 → floorLog2 x = floorLog2_64 x.
Proof.
  intros Hx. unfold floorLog2, floorLog2_64.
  destruct (Z.gtb_spec x 0) as [Hp|Hp]; [|done].
  assert (log_step 0xffffffff00000000 32 (x, 0) = (x, 0)) as ->; [|done].
  unfold log_step.
  change 0xffffffff00000000 with (2 ^ (2 * 32) - 2 ^ 32).
  rewrite high_mask_test by lia. by rewrite (proj2 (Z.leb_gt _ _)) by lia.
Qed.

Lemma floorLog2_spec x : 0 < x < 2 ^ 32 → floorLog2 x = Some (Z.log2 x).
Proof. intros Hx. rewrite floorLog2_64_32 by lia. apply floorLog2_64_spec. lia. Qed.

Section PowerOfTwo.

Lemma land_notU_ldiff w x y :
  0 <= w → 0 <= x < 2 ^ w → 0 <= y < 2 ^ w → Z.land x (notU w y) = Z.ldiff x y.
Proof.
  intros Hw Hx Hy. apply Z.bits_inj'. intros i Hi.
  rewrite Z.land_spec, Z.ldiff_spec.
  replace (notU w y) with (Z.lnot y + 1 * 2 ^ w) by (unfold notU, Z.lnot; lia).
  destruct (decide (i < w)).
  - f_equal. rewrite <- (Z.mod_pow2_bits_low _ w) by done.
    rewrite Z.mod_add by lia.
    by rewrite Z.mod_pow2_bits_low, Z.lnot_spec by done.
  - destruct (Z.eq_dec x 0) as [->|]; [by rewrite Z.bits_0|].
    rewrite (Z.bits_above_log2 x i); [done|lia|].
    assert (Z.log2 x < w) by (apply Z.log2_lt_pow2; lia). lia.
Qed.

Lemma isPowerOf2_spec w n :
  0 < w → 0 <= n < 2 ^ w →
  isPowerOf2 w n = true ↔ ∃ k, 0 <= k < w ∧ n = 2 ^ k.
Proof.
  intros Hw Hn. unfold isPowerOf2, leastSigBit, wrapU.
  destruct (Z.eq_dec n 0) as [->|Hn0].
  { split; [done|]. intros (k & Hk & E). lia. }
  rewrite (proj2 (Z.eqb_neq n 0)) by done. simpl.
  rewrite Z.mod_small, land_notU_ldiff by lia. rewrite Z.eqb_eq.
  pose proof (Z.log2_nonneg n). pose proof (Z.log2_spec n ltac:(lia)) as [Hl Hh].
  split.
  - intros E. exists (Z.log2 n).
    split; [split; [done|]; apply Z.log2_lt_pow2; lia|].
    destruct (Z.eq_dec n (2 ^ Z.log2 n)) as [|Hne]; [done|]. exfalso.
    assert (Z.testbit (Z.ldiff n (n - 1)) (Z.log2 n) = true) as Hb
      by (rewrite E; apply Z.bit_log2; lia).
    rewrite Z.ldiff_spec in Hb.
    assert (Z.log2 (n - 1) = Z.log2 n) as Hlog by (apply Z.log2_unique; lia).
    assert (Z.testbit (n - 1) (Z.log2 (n - 1)) = true) as Hb'
      by (apply Z.bit_log2; lia).
    rewrite Hlog in Hb'. rewrite Hb' in Hb. by rewrite andb_false_r in Hb.
  - intros (k & Hk & ->). apply Z.bits_inj'. intros i Hi.
    rewrite Z.ldiff_spec, Z.pow2_bits_eqb by lia.
    destruct (Z.eqb_spec k i) as [<-|]; [|done].
    replace (2 ^ k - 1) with (Z.ones k) by (rewrite Z.ones_equiv; lia).
    by rewrite Z.ones_spec_high by lia.
Qed.

End PowerOfTwo.

Lemma roundDown_spec v k :
  0 <= k < 64 → is_u64 v → roundDown v (2 ^ k) = v - v mod 2 ^ k.
Proof.
  intros Hk Hv. unfold roundDown.
  assert (2 ^ k < 2 ^ 64) by (apply Z.pow_lt_mono_r; lia).
  rewrite u64_small by (unfold is_u64; lia).
  apply land_notU_align; [lia|done].
Qed.

Lemma roundUp_spec v k :
  0 <= k < 64 → is_u64 v → v + 2 ^ k - 1 < 2 ^ 64 →
  roundUp v (2 ^ k) = v + (- v) mod 2 ^ k.
Proof.
  intros Hk Hv Ho. unfold roundUp.
  assert (0 < 2 ^ k) by lia.
  rewrite (u64_small (2 ^ k - 1)) by (unfold is_u64 in *; lia).
  rewrite u64_small by (unfold is_u64 in *; lia).
  rewrite land_notU_align by (unfold is_u64 in *; lia).
  destruct (Z.eq_dec (v mod 2 ^ k) 0) as [E|E].
  - rewrite Z.mod_opp_l_z by lia.
    replace ((v + (2 ^ k - 1)) mod 2 ^ k) with (2 ^ k - 1); [lia|].
    rewrite Z.add_mod, E, Z.add_0_l, Z.mod_mod by lia.
    symmetry. apply Z.mod_small. lia.
  - rewrite Z.mod_opp_l_nz by lia.
    pose proof (Z.mod_pos_bound v (2 ^ k) ltac:(lia)).
    replace ((v + (2 ^ k - 1)) mod 2 ^ k) with (v mod 2 ^ k - 1); [lia|].
    replace (v + (2 ^ k - 1)) with (v - 1 + 1 * 2 ^ k) by lia.
    rewrite Z.mod_add by lia.
    rewrite (Z.div_mod v (2 ^ k)) at 2 by lia.
    replace (2 ^ k * (v / 2 ^ k) + v mod 2 ^ k - 1)
      with (v mod 2 ^ k - 1 + v / 2 ^ k * 2 ^ k) by lia.
    rewrite Z.mod_add by lia. symmetry. apply Z.mod_small. lia.
Qed.

Section Primes.

Lemma int_chk_Some x : - 2 ^ 31 <= x < 2 ^ 31 → int_chk x = Some x.
Proof.
  intros Hx. unfold int_chk.
  by rewrite (proj2 (Z.leb_le _ _)), (proj2 (Z.ltb_lt _ _)) by lia.
Qed.

(** The loop finds a divisor [k] or [k + 2] with [k] in its progression. *)
Definition wheel_hit (i n : Z) : Prop :=
  ∃ j, 0 <= j ∧ (i + 6 * j) * (i + 6 * j) <= n ∧
    ((i + 6 * j | n) ∨ (i + 6 * j + 2 | n)).

Lemma isPrime_loop_spec fuel i n :
  5 <= i <= 46337 → 46337 - i < 6 * Z.of_nat fuel →
  (i - 5) mod 6 = 0 →
  0 <= n < 46337 * 46337 →
  ∃ b, isPrime_loop fuel i n = Some b ∧ (b = false ↔ wheel_hit i n).
Proof.
  revert i. induction fuel as [|fuel IH]; intros i Hi Hf Hm Hn; [lia|].
  assert (i * i <= 46337 * 46337) by nia.
  simpl. rewrite int_chk_Some by lia. simpl.
  destruct (Z.leb_spec (i * i) n) as [Hii|Hii].
  - rewrite !Z.rem_mod_nonneg by lia.
    destruct (Z.eqb_spec (n mod i) 0) as [E|E]; simpl.
    { exists false. split; [done|]. split; [intros _|done].
      exists 0. split; [lia|]. rewrite Z.mul_0_r, Z.add_0_r. split; [done|].
      left. by apply Z.mod_divide; lia. }
    destruct (Z.eqb_spec (n mod (i + 2)) 0) as [E'|E'].
    { exists false. split; [done|]. split; [intros _|done].
      exists 0. split; [lia|]. rewrite Z.mul_0_r, Z.add_0_r. split; [done|].
      right. by apply Z.mod_divide; lia. }
    assert (i < 46337) by nia.
    destruct (IH (i + 6)) as (b & Hb & Hw); [lia..|].
    exists b. split; [done|]. rewrite Hw. split.
    + intros (j & Hj & Hsq & Hd). exists (j + 1).
      replace (i + 6 * (j + 1)) with (i + 6 + 6 * j) by lia. split; [lia|done].
    + intros (j & Hj & Hsq & Hd).
      destruct (Z.eq_dec j 0) as [->|].
      { exfalso. rewrite Z.mul_0_r, Z.add_0_r in Hd.
        destruct Hd as [Hd|Hd]; apply Z.mod_divide in Hd; lia. }
      exists (j - 1).
      replace (i + 6 + 6 * (j - 1)) with (i + 6 * j) by lia. split; [lia|done].
  - exists true. split; [done|]. split; [done|].
    intros (j & Hj & Hsq & _). exfalso. nia.
Qed.

Lemma isPrime_total n :
  0 <= n < 46337 * 46337 →
  ∃ b, isPrime n = Some b ∧ (b = false ↔ n ≠ 2 ∧ n ≠ 3 ∧ wheel_hit 5 n).
Proof.
  intros Hn. unfold isPrime.
  destruct (Z.eqb_spec n 2) as [->|].
  { exists true. split; [done|]. split; [done|]. by intros (? & _). }
  destruct (Z.eqb_spec n 3) as [->|].
  { exists true. split; [done|]. split; [done|]. by intros (_ & ? & _). }
  destruct (isPrime_loop_spec isPrime_fuel 5 n) as (b & Hb & Hw);
    [lia|vm_compute; reflexivity|done|done|].
  exists b. split; [done|]. rewrite Hw. tauto.
Qed.

Lemma wheel_hit_ge i n : 5 <= i → wheel_hit i n → 25 <= n.
Proof. intros Hi (j & Hj & Hsq & _). nia. Qed.

Lemma wheel_hit_composite n : wheel_hit 5 n → ¬ prime n.
Proof.
  intros (j & Hj & Hsq & Hd) Hp.
  destruct Hd as [Hd|Hd]; apply (prime_divisors n Hp) in Hd; nia.
Qed.

(** A composite number has a divisor not above its square root. *)
Lemma small_divisor n :
  1 < n → ¬ prime n → ∃ s, 1 < s ∧ s * s <= n ∧ (s | n).
Proof.
  intros Hn Hp. destruct (not_prime_divide n Hn Hp) as (d & Hd & e & He).
  destruct (Z.le_gt_cases (d * d) n).
  - exists d. split_and!; [lia|done|by exists e].
  - exists e. split_and!; [nia|nia|]. exists d. lia.
Qed.

Lemma composite_wheel_hit n :
  1 < n → n mod 2 ≠ 0 → n mod 3 ≠ 0 → ¬ prime n → wheel_hit 5 n.
Proof.
  intros Hn H2 H3 Hp. destruct (small_divisor n Hn Hp) as (s & Hs & Hss & Hd).
  assert (s mod 2 ≠ 0).
  { intros E. apply H2. apply Z.mod_divide in E; [|done].
    apply Z.mod_divide; [done|]. by etrans. }
  assert (s mod 3 ≠ 0).
  { intros E. apply H3. apply Z.mod_divide in E; [|done].
    apply Z.mod_divide; [done|]. by etrans. }
  assert (s mod 6 = 1 ∨ s mod 6 = 5) as [E|E] by lia.
  - exists ((s - 7) / 6). replace (5 + 6 * ((s - 7) / 6)) with (s - 2) by lia.
    split_and!; [lia|nia|]. right. by replace (s - 2 + 2) with s by lia.
  - exists ((s - 5) / 6). replace (5 + 6 * ((s - 5) / 6)) with s by lia.
    split_and!; [lia|done|]. by left.
Qed.

(** [isPrime] decides primality of the numbers divisible neither by 2 nor by 3. *)
Lemma isPrime_coprime6 n :
  5 <= n < 46337 * 46337 → n mod 2 ≠ 0 → n mod 3 ≠ 0 →
  ∃ b, isPrime n = Some b ∧ (b = true ↔ prime n).
Proof.
  intros Hn H2 H3. destruct (isPrime_total n) as (b & Hb & Hw); [lia|].
  exists b. split; [done|]. destruct b.
  - split; [intros _|done]. destruct (prime_dec n) as [|Hp]; [done|].
    assert (true = false) by (apply Hw; split_and!; [lia|lia|];
      apply composite_wheel_hit; auto; lia). done.
  - split; [done|]. intros Hp. exfalso.
    destruct Hw as [Hw _]. destruct (Hw eq_refl) as (_ & _ & Hhit).
    by apply (wheel_hit_composite n).
Qed.

Definition greatest_prime_upto (n p : Z) : Prop :=
  prime p ∧ p <= n ∧ ∀ q, p < q <= n → ¬ prime q.

Lemma not_prime_mod q m : 1 < m < q → q mod m = 0 → ¬ prime q.
Proof.
  intros Hm E Hq. apply Z.mod_divide in E; [|lia].
  apply (prime_divisors q Hq) in E. lia.
Qed.

Lemma prevPrime_loop_good fuel n decr :
  5 <= n < 46337 * 46337 → n <= 2 * Z.of_nat fuel →
  (n mod 6 = 1 ∧ decr = 2 ∨ n mod 6 = 5 ∧ decr = 4) →
  ∃ p, prevPrime_loop fuel n decr = Some p ∧ greatest_prime_upto n p.
Proof.
  revert n decr. induction fuel as [|fuel IH]; intros n decr Hn Hf Hd; [lia|].
  destruct (isPrime_coprime6 n) as (b & Hb & Hp); [lia..|].
  simpl. rewrite Hb. simpl. destruct b.
  { exists n. split; [done|]. split_and!; [by apply Hp|lia|lia]. }
  assert (25 <= n).
  { destruct (isPrime_total n) as (b & Hb' & Hw); [lia|].
    assert (b = false) as -> by congruence.
    destruct (proj1 Hw eq_refl) as (_ & _ & Hh). by apply (wheel_hit_ge 5). }
  destruct (IH (n - decr) (6 - decr)) as (p & Hr & Hpp & Hle & Hgap); [lia..|].
  exists p. split; [done|]. split_and!; [done|lia|].
  intros q Hq. destruct (decide (q <= n - decr)); [apply Hgap; lia|].
  destruct (decide (q = n)) as [->|].
  { intros E. by apply Hp in E. }
  destruct (decide (q mod 2 = 0)).
  + apply (not_prime_mod q 2); lia.
  + apply (not_prime_mod q 3); lia.
Qed.

Lemma prevPrime_loop_total fuel n decr :
  1 <= n < 46337 * 46337 → n <= 2 * Z.of_nat fuel → decr = 2 ∨ decr = 4 →
  ∃ p, prevPrime_loop fuel n decr = Some p ∧ p <= n ∧ isPrime p = Some true.
Proof.
  revert n decr. induction fuel as [|fuel IH]; intros n decr Hn Hf Hd; [lia|].
  destruct (isPrime_total n) as (b & Hb & Hw); [lia|].
  simpl. rewrite Hb. simpl. destruct b.
  { exists n. split; [done|]. split; [lia|done]. }
  destruct (proj1 Hw eq_refl) as (_ & _ & Hh). apply wheel_hit_ge in Hh; [|done].
  destruct (IH (n - decr) (6 - decr)) as (p & Hr & Hle & Hp); [lia..|].
  exists p. split_and!; [done|lia|done].
Qed.

End Primes.

(** ** Properties *)

(** [isPrime] on an [int] [n] divisible neither by 2 nor by 3 (the numbers
    its wheel is meant for) returns, without overflow, and its answer is true
    exactly when [n] is prime. *)
Theorem isPrime_correct n :
  5 <= n < 46337 * 46337 → n mod 2 ≠ 0 → n mod 3 ≠ 0 →
  ∃ b, isPrime n = Some b ∧ (b = true ↔ prime n).
Proof. apply isPrime_coprime6. Qed.

Lemma isPrime_correct_witness : ∃ b, isPrime 1001 = Some b ∧ (b = true ↔ prime 1001).
Proof. apply isPrime_correct; lia. Defined.

Lemma prevPrime_start n :
  5 <= n < 46337 * 46337 →
  ∃ m decr, prevPrime n = prevPrime_loop (S (Z.to_nat m)) m decr ∧
    n - 3 <= m <= n ∧ (decr = 2 ∨ decr = 4) ∧
    (n mod 6 = 3 ∨ n mod 6 = 4 → m mod 6 = 1 ∧ decr = 2).
Proof.
  intros Hn. unfold prevPrime.
  assert (Z.land n 1 = n mod 2) as -> by (apply (land_ones_mod n 1); done).
  assert (∃ o, (if n mod 2 =? 0 then int_chk (n - 1) else Some n) = Some o ∧
               o = if n mod 2 =? 0 then n - 1 else n) as (o & Ho & Eo).
  { destruct (Z.eqb_spec (n mod 2) 0); eauto. rewrite int_chk_Some by lia. eauto. }
  rewrite Ho. simpl.
  assert (n - 1 <= o <= n ∧ o mod 2 = 1 ∧ (n mod 6 = 3 ∨ n mod 6 = 4 → o mod 3 = 0))
    as (Hob & Hodd & H34) by (subst o; zcase; lia).
  rewrite Z.rem_mod_nonneg by lia.
  destruct (Z.eqb_spec (o mod 3) 0).
  - rewrite int_chk_Some by lia. simpl. exists (o - 2), 2. split_and!; lia || done || auto.
  - simpl. exists o. eexists. split; [reflexivity|]. split; [lia|].
    destruct (Z.eqb_spec (o mod 3) 1); split; lia.
Qed.

(** [prevPrime] on an [int] of at least 5 always returns: the result is not
    above the argument and passes [isPrime].  When the search starts on the
    wheel (the argument, rounded down to an odd number, is a multiple of 3) the
    result is the greatest prime not above the argument. *)
Theorem prevPrime_search n :
  5 <= n < 46337 * 46337 →
  (∃ p, prevPrime n = Some p ∧ p <= n ∧ isPrime p = Some true) ∧
  (n mod 6 = 3 ∨ n mod 6 = 4 → ∃ p, prevPrime n = Some p ∧ greatest_prime_upto n p).
Proof.
  intros Hn. destruct (prevPrime_start n Hn) as (m & decr & E & Hm & Hd & H34).
  rewrite E. split.
  - destruct (prevPrime_loop_total (S (Z.to_nat m)) m decr) as (p & Hp & Hle & Hpr);
      [lia..|]. exists p. split_and!; [done|lia|done].
  - intros H. specialize (H34 H) as [Hm1 ->].
    destruct (prevPrime_loop_good (S (Z.to_nat m)) m 2) as (p & Hp & Hpr & Hle & Hgap);
      [lia..|].
    exists p. split; [done|]. split_and!; [done|lia|].
    intros q Hq. destruct (decide (q <= m)); [apply Hgap; lia|].
    destruct (decide (q mod 2 = 0)).
    + apply (not_prime_mod q 2); lia.
    + apply (not_prime_mod q 3); lia.
Qed.

Lemma prevPrime_search_witness : ∃ p, prevPrime 99 = Some p ∧ greatest_prime_upto 99 p.
Proof. apply (prevPrime_search 99); [lia|left; reflexivity]. Defined.

(** From an argument that is not a multiple of 3 the step pattern of
    [prevPrime] is off by one phase and visits multiples of 3, which [isPrime]
    accepts: the "previous prime" of 25 is the composite 21. *)
Theorem prevPrime_composite : prevPrime 25 = Some 21 ∧ ¬ prime 21.
Proof. split; [vm_compute; reflexivity|]. by apply (not_prime_mod 21 3). Qed.

(** The logarithm helpers compute base-2 logarithms exactly on their whole
    domain: [floorLog2] at 32 and 64 bits is the floor logarithm and asserts on
    0 only, [ceilLog2] is the ceiling logarithm, and [isPowerOf2] holds exactly
    of the powers of two. *)
Theorem log2_helpers x :
  0 <= x < 2 ^ 64 →
  floorLog2_64 x = (if x =? 0 then None else Some (Z.log2 x)) ∧
  (x < 2 ^ 32 → floorLog2 x = floorLog2_64 x) ∧
  (1 <= x → ceilLog2 x = Some (Z.log2_up x)) ∧
  (isPowerOf2 64 x = true ↔ ∃ k, 0 <= k < 64 ∧ x = 2 ^ k).
Proof.
  intros Hx. split_and!.
  - destruct (Z.eqb_spec x 0) as [->|]; [done|]. apply floorLog2_64_spec. lia.
  - apply floorLog2_64_32.
  - intros H1. unfold ceilLog2. destruct (Z.eqb_spec x 1) as [->|]; [done|].
    rewrite u64_small, floorLog2_64_spec by ilia. simpl. f_equal.
    rewrite Z.log2_up_eqn by lia. rewrite <- Z.sub_1_r. lia.
  - by apply isPowerOf2_spec.
Qed.

Lemma log2_helpers_witness : floorLog2_64 (2 ^ 40 + 5) = Some 40.
Proof. apply (log2_helpers (2 ^ 40 + 5)). lia. Defined.

(** Rounding to a power-of-two alignment [2^k]: [roundDown] is the greatest
    multiple not above the value, [roundUp] the least multiple not below it as
    long as it does not wrap, and [divCeil] counts the units covering the value. *)
Theorem rounding_helpers v k :
  0 <= k < 64 → is_u64 v →
  (roundDown v (2 ^ k) mod 2 ^ k = 0 ∧ roundDown v (2 ^ k) <= v < roundDown v (2 ^ k) + 2 ^ k) ∧
  (v + 2 ^ k - 1 < 2 ^ 64 →
   roundUp v (2 ^ k) mod 2 ^ k = 0 ∧ v <= roundUp v (2 ^ k) < v + 2 ^ k ∧
   roundUp v (2 ^ k) = divCeil v (2 ^ k) * 2 ^ k).
Proof.
  intros Hk Hv. assert (0 < 2 ^ k) by lia.
  pose proof (Z.mod_pos_bound v (2 ^ k) ltac:(lia)).
  split.
  - rewrite roundDown_spec by done.
    split; [apply mod_pow2_pow2_align; lia|lia].
  - intros Ho. rewrite roundUp_spec by done.
    pose proof (Z.mod_pos_bound (- v) (2 ^ k) ltac:(lia)).
    assert ((v + (- v) mod 2 ^ k) mod 2 ^ k = 0) as Hal.
    { rewrite Zplus_mod_idemp_r. replace (v + - v) with 0 by lia. done. }
    split_and!; [done|lia|lia|].
    unfold divCeil, Z.sub at 1. rewrite u64_add_l.
    rewrite u64_small by (unfold is_u64 in *; lia). rewrite Z.add_opp_r.
    set (q := v + (- v) mod 2 ^ k) in *.
    assert (v + 2 ^ k - 1 = q + (2 ^ k - 1 - (- v) mod 2 ^ k)) as -> by lia.
    apply Z.mod_divide in Hal as [c Hc]; [|lia]. rewrite Hc.
    rewrite Z.div_add_l by lia. rewrite Z.div_small by lia. lia.
Qed.

Lemma rounding_helpers_witness : roundUp 4097 (2 ^ 12) = divCeil 4097 (2 ^ 12) * 2 ^ 12.
Proof. apply (rounding_helpers 4097 12); unfold is_u64; lia. Defined.

(** A hexadecimal digit is the letter or figure of its value, in either case;
    decimal and octal digits are hexadecimal digits of smaller value. *)
Definition hex_digit (upper : bool) (d : Z) : Z := if d <? 10 then 48 + d else if upper then 55 + d else 87 + d.

Lemma hex2Int_digit upper d : 0 <= d < 16 →
  isHex (hex_digit upper d) = true ∧ hex2Int (hex_digit upper d) = d.
Proof.
  intros Hd. unfold isHex, hex2Int, hex_digit. destruct upper; repeat (zcase; cbn; try lia); split; (done || lia).
Qed.

Lemma isHex_digit c : isHex c = true → 0 <= hex2Int c < 16 ∧ ∃ upper, c = hex_digit upper (hex2Int c).
Proof.
  unfold isHex, hex2Int. intros H.
  destruct ((48 <=? c) && (c <=? 57)) eqn:E1; [|destruct ((65 <=? c) && (c <=? 70)) eqn:E2];
    [| |destruct ((97 <=? c) && (c <=? 102)) eqn:E3; [|done]]; zbool; (split; [lia|]);
    [exists true|exists true|exists false]; unfold hex_digit; zcase; lia.
Qed.

Lemma isDec_isOct_digit c : (isDec c = true ↔ isHex c = true ∧ hex2Int c < 10) ∧
  (isOct c = true ↔ isHex c = true ∧ hex2Int c < 8).
Proof.
  unfold isDec, isOct, isHex, hex2Int. repeat (zcase; cbn; try lia); split; (split; [intros ?|intros [? ?]]);
    repeat split; (done || lia).
Qed.

Lemma floorLog2_overloads x : 0 < x →
  (x < 2 ^ 31 → floorLog2_int x = Some (Z.log2 x)) ∧
  (x < 2 ^ 63 → floorLog2_long x = Some (Z.log2 x) ∧ floorLog2_longlong x = Some (Z.log2 x)).
Proof.
  intros Hx. unfold floorLog2_int, floorLog2_long, floorLog2_longlong. rewrite (proj2 (Z.gtb_lt x 0)) by done.
  change floorLog2_ul with floorLog2_64. split.
  - intros Hlt. rewrite u32_small by (unfold is_u32; lia). apply floorLog2_spec. lia.
  - intros Hlt. rewrite u64_small by (unfold is_u64; lia). split; apply floorLog2_64_spec; lia.
Qed.
