(* ===== verification/PageTable.v ===== *)
(** The page table of a process, [src/m5/src/mem/page_table.hh] and
    [page_table.cc], with the entries of the Alpha instruction set
    ([src/m5/src/arch/alpha/pagetable.hh]), which [src/compile.sh] builds, and
    the allocation of physical pages ([src/m5/src/sim/system.cc]).  A failed
    [assert], [fatal] and [panic] are [None]. *)

From S2P Require Import Prelude IntMath.

(** ** Entries *)

(** [PageShift] of [isa_traits.hh] and [VAddr::ImplMask] *)
Definition PageShift : Z := 13.
Definition ImplMask : Z := 2 ^ 43 - 1.

Definition vpn (addr : Z) : Z := Z.shiftr (Z.land addr ImplMask) PageShift.

Record TlbEntry := mkTlbEntry {
  te_tag : Z; te_ppn : Z; te_xre : Z; te_xwe : Z; te_asn : Z;
  te_asma : bool; te_fonr : bool; te_fonw : bool; te_valid : bool
}.

Definition TlbEntry_new (asn vaddr paddr : Z) : TlbEntry :=
  mkTlbEntry (vpn vaddr) (vpn paddr) 15 15 (u8 asn) false false false true.

Definition updateVaddr (e : TlbEntry) (new_vaddr : Z) : TlbEntry :=
  mkTlbEntry (vpn new_vaddr) (te_ppn e) (te_xre e) (te_xwe e) (te_asn e) (te_asma e) (te_fonr e) (te_fonw e) (te_valid e).

Definition pageStart (e : TlbEntry) : Z := u64 (Z.shiftl (te_ppn e) PageShift).

(** ** Physical pages *)

(** The next free page, an [int], and the size of the memory. *)
Record System := mkSystem { page_ptr : Z; mem_size : Z }.

(** The shift is one of [int]. *)
Definition new_page (sys : System) : option (Z * System) :=
  return_addr ← int_chk (Z.shiftl (page_ptr sys) 13);
  if mem_size sys <=? u64 return_addr then None
  else Some (u64 return_addr, mkSystem (page_ptr sys + 1) (mem_size sys)).

(** ** The table *)

Record PageTable := mkPageTable {
  pTable : gmap Z TlbEntry;
  pTableCache : list (Z * TlbEntry);
  pageSize : Z;
  offsetMask : Z;
  M5_pid : Z
}.

Definition with_table (pt : PageTable) (m : gmap Z TlbEntry) : PageTable :=
  mkPageTable m (pTableCache pt) (pageSize pt) (offsetMask pt) (M5_pid pt).

(** [mask(nbits)] of [bitfield.hh] *)
Definition mask (nbits : Z) : Z := if nbits =? 64 then 2 ^ 64 - 1 else u64 (u64 (Z.shiftl 1 nbits) - 1).

(** The cache starts with three elements for the address 0; [found] is what
    their entries hold. *)
Definition PageTable_new (found : TlbEntry) (pid page_size : Z) : option PageTable :=
  l ← floorLog2_ul page_size;
  if isPowerOf2 64 page_size then
    Some (mkPageTable ∅ [(0, found); (0, found); (0, found)] page_size (mask l) pid)
  else None.

Definition pageAlign (pt : PageTable) (a : Z) : Z := Z.land a (notU 64 (offsetMask pt)).
Definition pageOffset (pt : PageTable) (a : Z) : Z := Z.land a (offsetMask pt).

Definition updateCache (pt : PageTable) (vaddr : Z) (e : TlbEntry) : PageTable :=
  mkPageTable (pTable pt) (take 3 ((vaddr, e) :: pTableCache pt)) (pageSize pt) (offsetMask pt) (M5_pid pt).

(** The loops run while [size] is positive, so as often as it has pages; the
    fuel is at least that. *)
Definition loop_fuel (pt : PageTable) (size : Z) : nat := Z.to_nat (size / pageSize pt + 1).

Fixpoint allocate_loop (fuel : nat) (sys : System) (pt : PageTable) (vaddr size : Z) : option (System * PageTable) :=
  if size >? 0 then
    match fuel with
    | O => None
    | S fuel =>
        match pTable pt !! vaddr with
        | Some _ => None
        | None =>
            '(page, sys) ← new_page sys;
            let e := TlbEntry_new (M5_pid pt) vaddr page in
            let pt := updateCache (with_table pt (<[vaddr := e]> (pTable pt))) vaddr e in
            allocate_loop fuel sys pt (u64 (vaddr + pageSize pt)) (s64 (size - pageSize pt))
        end
    end
  else Some (sys, pt).

Definition allocate (sys : System) (pt : PageTable) (vaddr size : Z) : option (System * PageTable) :=
  if pageOffset pt vaddr =? 0 then allocate_loop (loop_fuel pt size) sys pt vaddr size else None.

(** [pTable[new_vaddr]] is read again after [vaddr] was erased: it is what was
    stored, unless both are the same address and a new entry is made, which
    holds what [found] does. *)
Fixpoint remap_loop (found : TlbEntry) (fuel : nat) (pt : PageTable) (vaddr size new_vaddr : Z) : option PageTable :=
  if size >? 0 then
    match fuel with
    | O => None
    | S fuel =>
        e ← pTable pt !! vaddr;
        let m := delete vaddr (<[new_vaddr := e]> (pTable pt)) in
        let e := updateVaddr (default found (m !! new_vaddr)) new_vaddr in
        let pt := updateCache (with_table pt (<[new_vaddr := e]> m)) new_vaddr e in
        remap_loop found fuel pt (u64 (vaddr + pageSize pt)) (s64 (size - pageSize pt)) (u64 (new_vaddr + pageSize pt))
    end
  else Some pt.

Definition remap (found : TlbEntry) (pt : PageTable) (vaddr size new_vaddr : Z) : option PageTable :=
  if (pageOffset pt vaddr =? 0) && (pageOffset pt new_vaddr =? 0)
  then remap_loop found (loop_fuel pt size) pt vaddr size new_vaddr else None.

Fixpoint deallocate_loop (fuel : nat) (pt : PageTable) (vaddr size : Z) : option PageTable :=
  if size >? 0 then
    match fuel with
    | O => None
    | S fuel =>
        _ ← pTable pt !! vaddr;
        deallocate_loop fuel (with_table pt (delete vaddr (pTable pt))) (u64 (vaddr + pageSize pt)) (s64 (size - pageSize pt))
    end
  else Some pt.

Definition deallocate (pt : PageTable) (vaddr size : Z) : option PageTable :=
  if pageOffset pt vaddr =? 0 then deallocate_loop (loop_fuel pt size) pt vaddr size else None.

(** The first of the three cached elements with this address. *)
Fixpoint cache_find (c : list (Z * TlbEntry)) (page_addr : Z) : option TlbEntry :=
  match c with
  | [] => None
  | (v, e) :: c => if v =? page_addr then Some e else cache_find c page_addr
  end.

Definition lookup (pt : PageTable) (vaddr : Z) : option TlbEntry * PageTable :=
  let page_addr := pageAlign pt vaddr in
  match cache_find (pTableCache pt) page_addr with
  | Some e => (Some e, pt)
  | None =>
      match pTable pt !! page_addr with
      | None => (None, pt)
      | Some e => (Some e, updateCache pt page_addr e)
      end
  end.

Definition translate (pt : PageTable) (vaddr : Z) : option Z * PageTable :=
  let '(r, pt) := lookup pt vaddr in
  (match r with Some e => Some (u64 (pageOffset pt vaddr + pageStart e)) | None => None end, pt).

(** The translation of a request: a fault or its physical address. *)
Inductive translation := PageTableFault (vaddr : Z) | Translated (paddr : Z).

Definition translate_request (pt : PageTable) (vaddr size : Z) : option (translation * PageTable) :=
  if pageAlign pt (u64 (u64 (vaddr + size) - 1)) =? pageAlign pt vaddr then
    match translate pt vaddr with
    | (None, pt) => Some (PageTableFault vaddr, pt)
    | (Some paddr, pt) =>
        if pageSize pt <? u64 (Z.land paddr (u64 (pageSize pt - 1)) + size) then None
        else Some (Translated paddr, pt)
    end
  else None.

(** A checkpoint is the list of entries in the order of the hash table; reading
    it back replaces the table and leaves the cache. *)
Definition serialize (pt : PageTable) : list (Z * TlbEntry) := map_to_list (pTable pt).

Definition unserialize (pt : PageTable) (l : list (Z * TlbEntry)) : PageTable :=
  with_table pt (foldl (λ m x, <[x.1 := x.2]> m) ∅ l).

(** ** Proofs *)

(** The pages of a range, as the loops visit them. *)
Definition page_at (vaddr : Z) (i : nat) : Z := u64 (vaddr + Z.of_nat i * 2 ^ 13).
Definition pages (size : Z) : nat := Z.to_nat ((size + 2 ^ 13 - 1) / 2 ^ 13).

(** A table for pages of 8K and the system it takes pages from: every page has
    a physical page of its own among those handed out, and the cache agrees
    with the table except for the address 0. *)
Record pt_ok (sys : System) (pt : PageTable) : Prop := {
  pk_size : pageSize pt = 2 ^ 13;
  pk_mask : offsetMask pt = 2 ^ 13 - 1;
  pk_ptr : 0 <= page_ptr sys <= 2 ^ 18;
  pk_key : ∀ v e, pTable pt !! v = Some e → is_u64 v ∧ v mod 2 ^ 13 = 0;
  pk_ppn : ∀ v e, pTable pt !! v = Some e → 0 <= te_ppn e < page_ptr sys ∧ te_ppn e * 2 ^ 13 < mem_size sys;
  pk_inj : ∀ v w e f, pTable pt !! v = Some e → pTable pt !! w = Some f → te_ppn e = te_ppn f → v = w;
  pk_cache : ∀ v e, (v, e) ∈ pTableCache pt → v ≠ 0 → pTable pt !! v = Some e
}.

Section Pages.

Lemma align_spec pt a : offsetMask pt = 2 ^ 13 - 1 → is_u64 a → pageAlign pt a = a - a mod 2 ^ 13.
Proof. intros Hm Ha. unfold pageAlign. rewrite Hm. apply land_notU_align; [lia|exact Ha]. Qed.

Lemma offset_spec pt a : offsetMask pt = 2 ^ 13 - 1 → pageOffset pt a = a mod 2 ^ 13.
Proof. intros Hm. unfold pageOffset. rewrite Hm. apply land_ones_mod. lia. Qed.

Lemma vpn_page p : 0 <= p < 2 ^ 30 → vpn (p * 2 ^ 13) = p.
Proof.
  intros Hp. unfold vpn, ImplMask, PageShift. rewrite land_ones_mod by lia. rewrite Z.mod_small by lia.
  rewrite Z.shiftr_div_pow2 by lia. apply Z.div_mul. lia.
Qed.

Lemma pageStart_ppn e : 0 <= te_ppn e < 2 ^ 30 → pageStart e = te_ppn e * 2 ^ 13.
Proof.
  intros He. unfold pageStart, PageShift. rewrite Z.shiftl_mul_pow2 by lia. apply u64_small. unfold is_u64. lia.
Qed.

Lemma cache_find_elem c v e : cache_find c v = Some e → (v, e) ∈ c.
Proof.
  induction c as [|[w f] c IH]; [done|]. cbn. zcase; [intros [= ->]; subst; left|]. intros H. right. by apply IH.
Qed.

(** A lookup answers from the table, and keeps the invariant. *)
Lemma lookup_ok sys pt vaddr : pt_ok sys pt → ∃ pt',
  lookup pt vaddr = ((lookup pt vaddr).1, pt') ∧ pt_ok sys pt' ∧ pTable pt' = pTable pt ∧
  (pageAlign pt vaddr ≠ 0 → (lookup pt vaddr).1 = pTable pt !! pageAlign pt vaddr).
Proof.
  intros Hok. unfold lookup. destruct (cache_find _ _) as [e|] eqn:Ec.
  - exists pt. split_and!; try done. intros Hne. symmetry. apply (pk_cache _ _ Hok); [by apply cache_find_elem|done].
  - destruct (pTable pt !! pageAlign pt vaddr) as [e|] eqn:Et; [|by exists pt].
    eexists. split_and!; try done. destruct Hok. split; try done. cbn [pTableCache updateCache pTable].
    intros v f Hin Hv. apply elem_of_take in Hin as (i & Hi & _).
    destruct i as [|i]; cbn in Hi; [by injection Hi as <- <-|]. apply pk_cache0; [by eapply list_elem_of_lookup_2|done].
Qed.

Lemma new_page_spec sys : 0 <= page_ptr sys <= 2 ^ 18 →
  new_page sys = if (page_ptr sys <? 2 ^ 18) && (page_ptr sys * 2 ^ 13 <? mem_size sys)
                 then Some (page_ptr sys * 2 ^ 13, mkSystem (page_ptr sys + 1) (mem_size sys)) else None.
Proof.
  intros Hp. unfold new_page, int_chk. rewrite Z.shiftl_mul_pow2 by lia.
  destruct (Z.ltb_spec (page_ptr sys) (2 ^ 18)); cbn [andb].
  - rewrite (proj2 (Z.leb_le _ _)), (proj2 (Z.ltb_lt _ _)) by lia. cbn [andb mbind option_bind].
    rewrite u64_small by (unfold is_u64; lia). rewrite Z.leb_antisym. by destruct (_ <? mem_size sys).
  - rewrite (proj2 (Z.ltb_ge (page_ptr sys * 2 ^ 13) _)), andb_false_r by lia. done.
Qed.

Lemma new_page_ok sys : 0 <= page_ptr sys < 2 ^ 18 → page_ptr sys * 2 ^ 13 < mem_size sys →
  new_page sys = Some (page_ptr sys * 2 ^ 13, mkSystem (page_ptr sys + 1) (mem_size sys)).
Proof. intros Hp Hm. rewrite new_page_spec, !(proj2 (Z.ltb_lt _ _)) by lia. done. Qed.

Lemma new_page_inv sys page sys1 : 0 <= page_ptr sys <= 2 ^ 18 → new_page sys = Some (page, sys1) →
  page = page_ptr sys * 2 ^ 13 ∧ sys1 = mkSystem (page_ptr sys + 1) (mem_size sys) ∧
  page_ptr sys < 2 ^ 18 ∧ page_ptr sys * 2 ^ 13 < mem_size sys.
Proof. intros Hp. rewrite new_page_spec by done. case_match eqn:E; [|done]. intros [= <- <-]. split_and!; try done; lia. Qed.

(** The shift overflows once 2G are handed out, so memory beyond them is never
    used, however large it is. *)
Lemma new_page_2G mem : new_page (mkSystem (2 ^ 18) mem) = None.
Proof. rewrite new_page_spec by (cbn; lia). done. Qed.

(** Mapping one new page. *)
Definition map_page (sys : System) (pt : PageTable) (vaddr : Z) : PageTable :=
  let e := TlbEntry_new (M5_pid pt) vaddr (page_ptr sys * 2 ^ 13) in
  updateCache (with_table pt (<[vaddr := e]> (pTable pt))) vaddr e.

Lemma map_page_ok sys pt vaddr :
  pt_ok sys pt → is_u64 vaddr → vaddr mod 2 ^ 13 = 0 → pTable pt !! vaddr = None →
  page_ptr sys < 2 ^ 18 → page_ptr sys * 2 ^ 13 < mem_size sys →
  pt_ok (mkSystem (page_ptr sys + 1) (mem_size sys)) (map_page sys pt vaddr).
Proof.
  intros [Hs Hm Hptr Hkey Hppn Hinj Hc] Hv Ha Hnone Hlt Hfit.
  assert (te_ppn (TlbEntry_new (M5_pid pt) vaddr (page_ptr sys * 2 ^ 13)) = page_ptr sys) as Hnew
    by (cbn; apply vpn_page; lia).
  split; cbn [map_page updateCache with_table pTable pTableCache page_ptr mem_size pageSize offsetMask]; try done; try lia.
  - intros v e. rewrite lookup_insert_Some. intros [[<- _]|[_ H]]; [done|by eapply Hkey].
  - intros v e. rewrite lookup_insert_Some. intros [[<- <-]|[_ H]]; [rewrite Hnew; lia|]. destruct (Hppn v e H). lia.
  - intros v w e f. rewrite !lookup_insert_Some. intros [[<- <-]|[Hne H]] [[<- <-]|[Hne' H']]; try done.
    + rewrite Hnew. intros E. destruct (Hppn w f H'). lia.
    + rewrite Hnew. intros E. destruct (Hppn v e H). lia.
    + by apply Hinj.
  - intros v e Hin Hv0. apply elem_of_take in Hin as (i & Hi & _).
    destruct i as [|i]; cbn in Hi; [injection Hi as <- <-; apply lookup_insert_eq|].
    rewrite lookup_insert_ne; [apply Hc; [by eapply list_elem_of_lookup_2|done]|].
    intros <-. rewrite (Hc vaddr e) in Hnone; [done|by eapply list_elem_of_lookup_2|done].
Qed.

(** One turn of the loop of [allocate]. *)
Lemma allocate_turn fuel sys pt vaddr size page sys1 :
  0 < size → pTable pt !! vaddr = None → new_page sys = Some (page, sys1) → page = page_ptr sys * 2 ^ 13 →
  allocate_loop (S fuel) sys pt vaddr size =
  allocate_loop fuel sys1 (map_page sys pt vaddr) (u64 (vaddr + pageSize pt)) (s64 (size - pageSize pt)).
Proof.
  intros Hs Hn E ->. cbn [allocate_loop]. rewrite (proj2 (Z.gtb_lt size 0)) by done. by rewrite Hn, E.
Qed.

(** What an allocation that returns has done. *)
Definition extended (sys : System) (pt : PageTable) (sys' : System) (pt' : PageTable) : Prop :=
  pt_ok sys' pt' ∧ page_ptr sys <= page_ptr sys' ∧ mem_size sys' = mem_size sys ∧
  ∀ v e, pTable pt' !! v = Some e → pTable pt !! v = Some e ∨ page_ptr sys <= te_ppn e.

Lemma next_page_aligned v : is_u64 v → v mod 2 ^ 13 = 0 → is_u64 (u64 (v + 2 ^ 13)) ∧ u64 (v + 2 ^ 13) mod 2 ^ 13 = 0.
Proof.
  intros Hv Ha. split; [apply u64_range|]. unfold u64, wrapU. Z.to_euclidean_division_equations. lia.
Qed.

Lemma allocate_loop_inv fuel sys pt vaddr size sys' pt' :
  pt_ok sys pt → is_u64 vaddr → vaddr mod 2 ^ 13 = 0 →
  allocate_loop fuel sys pt vaddr size = Some (sys', pt') → extended sys pt sys' pt'.
Proof.
  revert sys pt vaddr size. induction fuel as [|fuel IH]; intros sys pt vaddr size Hok Hv Ha E; cbn [allocate_loop] in E.
  { destruct (size >? 0); [done|]. injection E as <- <-. split_and!; try done. by left. }
  destruct (size >? 0); [|injection E as <- <-; split_and!; try done; by left].
  destruct (pTable pt !! vaddr) eqn:Hn; [done|]. destruct (new_page sys) as [[page sys1]|] eqn:En; [|done].
  destruct (new_page_inv _ _ _ (pk_ptr _ _ Hok) En) as (-> & -> & Hlt & Hfit).
  pose proof (map_page_ok sys pt vaddr Hok Hv Ha Hn Hlt Hfit) as Hok1.
  assert (allocate_loop fuel (mkSystem (page_ptr sys + 1) (mem_size sys)) (map_page sys pt vaddr)
            (u64 (vaddr + pageSize pt)) (s64 (size - pageSize pt)) = Some (sys', pt')) as E1 by exact E.
  clear E. rename E1 into E. rewrite (pk_size _ _ Hok) in E.
  destruct (next_page_aligned vaddr Hv Ha) as [Hv1 Ha1].
  destruct (IH _ _ _ _ Hok1 Hv1 Ha1 E) as (Hok2 & Hp2 & Hm2 & Hnew). cbn [page_ptr mem_size] in *.
  split_and!; [done|lia|done|]. intros v e He. destruct (Hnew v e He) as [H|H]; [|right; lia].
  cbn [map_page updateCache with_table pTable] in H. apply lookup_insert_Some in H as [[<- <-]|[_ H]]; [|by left].
  right. cbn [te_ppn TlbEntry_new]. rewrite vpn_page by (pose proof (pk_ptr _ _ Hok); lia). lia.
Qed.

(** An allocation of pages that are not mapped, when there are enough, returns
    and maps them to consecutive physical pages. *)
Lemma allocate_loop_ok n fuel sys pt vaddr size :
  pt_ok sys pt → is_u64 vaddr → vaddr mod 2 ^ 13 = 0 → size < 2 ^ 62 → pages size = n → (n <= fuel)%nat →
  (∀ i, (i < n)%nat → pTable pt !! page_at vaddr i = None) → Z.of_nat n * 2 ^ 13 <= 2 ^ 64 →
  page_ptr sys + Z.of_nat n <= 2 ^ 18 → (page_ptr sys + Z.of_nat n - 1) * 2 ^ 13 < mem_size sys →
  ∃ sys' pt', allocate_loop fuel sys pt vaddr size = Some (sys', pt') ∧ page_ptr sys' = page_ptr sys + Z.of_nat n ∧
    (∀ i, (i < n)%nat → ∃ e, pTable pt' !! page_at vaddr i = Some e ∧ te_ppn e = page_ptr sys + Z.of_nat i) ∧
    (∀ v, (∀ i, (i < n)%nat → v ≠ page_at vaddr i) → pTable pt' !! v = pTable pt !! v).
Proof.
  revert fuel sys pt vaddr size. induction n as [|n IH]; intros fuel sys pt vaddr size Hok Hv Ha Hs Hp Hf Hno Hw Hptr Hmem.
  { assert (size <= 0) as Hz by (unfold pages in Hp; lia). exists sys, pt. split_and!; [|lia|lia|done].
    destruct fuel; cbn [allocate_loop]; rewrite Z.gtb_ltb; (zcase; [lia|done]). }
  destruct fuel as [|fuel]; [lia|]. assert (0 < size) as Hpos by (unfold pages in Hp; lia).
  assert (page_at vaddr 0 = vaddr) as H0 by (unfold page_at; rewrite Z.add_0_r; by apply u64_small).
  assert (∀ i, page_at (u64 (vaddr + 2 ^ 13)) i = page_at vaddr (S i)) as Hat.
  { intros i. unfold page_at. rewrite u64_add_l. f_equal. lia. }
  assert (∀ i, (i < n)%nat → page_at vaddr (S i) ≠ vaddr) as Hne.
  { intros i Hi E. unfold page_at, u64, wrapU in E. unfold is_u64 in Hv. lia. }
  pose proof (pk_ptr _ _ Hok) as Hptr0. assert (pTable pt !! vaddr = None) as Hn by (rewrite <- H0; apply Hno; lia).
  rewrite (allocate_turn fuel sys pt vaddr size _ _ Hpos Hn (new_page_ok sys ltac:(lia) ltac:(lia)) eq_refl).
  rewrite (pk_size _ _ Hok). pose proof (map_page_ok sys pt vaddr Hok Hv Ha Hn ltac:(lia) ltac:(lia)) as Hok1.
  destruct (next_page_aligned vaddr Hv Ha) as [Hv1 Ha1].
  assert (s64 (size - 2 ^ 13) = size - 2 ^ 13) as Hs64 by (apply s64_small; unfold is_s64; lia). rewrite Hs64.
  destruct (IH fuel _ _ (u64 (vaddr + 2 ^ 13)) (size - 2 ^ 13) Hok1 Hv1 Ha1) as (sys' & pt' & E & Hp' & Hnew & Hold);
    cbn [page_ptr mem_size]; try lia.
  { unfold pages in *. lia. }
  { intros i Hi. rewrite Hat. cbn [map_page updateCache with_table pTable]. rewrite lookup_insert_ne by (by apply not_eq_sym, Hne).
    apply Hno. lia. }
  exists sys', pt'. cbn [page_ptr] in *. split_and!; [done|lia|..].
  - intros i Hi. destruct i as [|i].
    + rewrite H0, Hold; [|intros i Hi'; rewrite Hat; by apply not_eq_sym, Hne].
      cbn [map_page updateCache with_table pTable]. rewrite lookup_insert_eq. eexists. split; [done|].
      cbn [te_ppn TlbEntry_new]. rewrite vpn_page by lia. lia.
    + rewrite <- Hat. destruct (Hnew i) as (e & He & Hpe); [lia|]. exists e. split; [done|]. lia.
  - intros v Hvn. rewrite Hold by (intros i Hi; rewrite Hat; apply Hvn; lia).
    cbn [map_page updateCache with_table pTable]. apply lookup_insert_ne. intros <-. apply (Hvn 0%nat); [lia|done].
Qed.

(** A checkpoint read back gives the table again, in whatever order the hash
    table was written; the cache of the table that reads it stays. *)
Lemma unserialize_serialize pt pt' l : l ≡ₚ serialize pt →
  pTable (unserialize pt' l) = pTable pt ∧ pTableCache (unserialize pt' l) = pTableCache pt'.
Proof.
  intros Hl. split; [|done]. cbn [unserialize with_table pTable].
  assert (∀ (k : list (Z * TlbEntry)) (m0 : gmap Z TlbEntry), foldl (λ m x, <[x.1 := x.2]> m) m0 k = list_to_map (reverse k) ∪ m0) as Hf.
  { induction k as [|[v e] k IH]; intros m0; cbn [foldl fst snd]; [symmetry; apply (left_id_L ∅ (∪))|].
    rewrite IH, reverse_cons, list_to_map_app, <- (assoc_L (∪)). f_equal.
    by rewrite insert_union_singleton_l, list_to_map_cons, list_to_map_nil, insert_empty. }
  rewrite Hf, (right_id_L ∅ (∪)). rewrite <- (list_to_map_to_list (pTable pt)). apply list_to_map_proper.
  - rewrite reverse_Permutation, Hl. apply NoDup_fst_map_to_list.
  - by rewrite reverse_Permutation, Hl.
Qed.

End Pages.
