(* ===== verification/PageTableRun.v ===== *)
(** The page tables of several processes on one system: the operations the
    system calls and the processes make, one after the other, over the pages
    that [System::new_page] hands out. *)

From S2P Require Import Prelude IntMath PageTable.

(** ** Runs *)

Record Machine := mkMachine { m_sys : System; m_tables : list PageTable }.

(** What is done to the table of a process. *)
Inductive op :=
  | NewProcess (pid : Z)
  | Allocate (i : nat) (vaddr size : Z)
  | Remap (i : nat) (vaddr size new_vaddr : Z)
  | Deallocate (i : nat) (vaddr size : Z)
  | Translate (i : nat) (vaddr : Z).

(** Whether it leaves every mapped page mapped. *)
Definition keeps_pages (o : op) : bool :=
  match o with Remap _ _ _ _ | Deallocate _ _ _ => false | _ => true end.

(** Addresses are unsigned 64-bit numbers, and pages move to another place. *)
Definition op_valid (o : op) : bool :=
  let addr a := (0 <=? a) && (a <? 2 ^ 64) in
  match o with
  | NewProcess _ => true
  | Allocate _ v _ | Deallocate _ v _ | Translate _ v => addr v
  | Remap _ v _ w => addr v && addr w && negb (v =? w)
  end.

Definition boot (mem : Z) : Machine := mkMachine (mkSystem 0 mem) [].

Section Runs.

(** What an entry holds that nothing was written to. *)
Variable found : TlbEntry.

Definition set_table (m : Machine) (i : nat) (sys : System) (pt : PageTable) : Machine :=
  mkMachine sys (<[i := pt]> (m_tables m)).

Definition step (m : Machine) (o : op) : option Machine :=
  match o with
  | NewProcess pid => pt ← PageTable_new found pid (2 ^ 13); Some (mkMachine (m_sys m) (m_tables m ++ [pt]))
  | Allocate i v size => pt ← m_tables m !! i; '(sys, pt) ← allocate (m_sys m) pt v size; Some (set_table m i sys pt)
  | Remap i v size w => pt ← m_tables m !! i; pt ← remap found pt v size w; Some (set_table m i (m_sys m) pt)
  | Deallocate i v size => pt ← m_tables m !! i; pt ← deallocate pt v size; Some (set_table m i (m_sys m) pt)
  | Translate i v => pt ← m_tables m !! i; Some (set_table m i (m_sys m) (translate pt v).2)
  end.

Fixpoint run (ops : list op) (m : Machine) : option Machine :=
  match ops with
  | [] => Some m
  | o :: ops => if op_valid o then m ← step m o; run ops m else None
  end.

(** ** Which physical pages a process can reach *)

Definition holds (pt : PageTable) (p : Z) : Prop :=
  ∃ v e, te_ppn e = p ∧ (pTable pt !! v = Some e ∨ (v, e) ∈ pTableCache pt ∧ v ≠ 0).

Definition sys_ok (sys : System) : Prop := 0 <= page_ptr sys <= 2 ^ 18.

(** One operation on a table: it reaches what it did and pages handed out
    meanwhile. *)
Record grows (sys : System) (pt : PageTable) (sys' : System) (pt' : PageTable) : Prop := {
  g_holds : ∀ p, holds pt' p → holds pt p ∨ page_ptr sys <= p < page_ptr sys';
  g_ptr : page_ptr sys <= page_ptr sys';
  g_sys : sys_ok sys';
  g_mask : offsetMask pt' = offsetMask pt
}.

Lemma table_grows_refl sys pt : sys_ok sys → grows sys pt sys pt.
Proof. intros H. split; try done. by left. Qed.

Lemma table_grows_trans sys1 pt1 sys2 pt2 sys3 pt3 :
  grows sys1 pt1 sys2 pt2 → grows sys2 pt2 sys3 pt3 → grows sys1 pt1 sys3 pt3.
Proof.
  intros [H1 P1 _ M1] [H2 P2 S2' M2]. split; [|lia|done|congruence].
  intros p Hp. destruct (H2 p Hp) as [H|H]; [destruct (H1 p H) as [H'|H']; [by left|right; lia]|right; lia].
Qed.

Lemma holds_cached pt v e p : holds (updateCache pt v e) p → p = te_ppn e ∨ holds pt p.
Proof.
  intros (w & f & <- & [H|[H Hw]]); [right; exists w, f; auto|].
  apply elem_of_take in H as (k & Hk & _). destruct k as [|k]; cbn in Hk; [left; by injection Hk as <- <-|].
  right. exists w, f. split; [done|]. right. split; [by eapply list_elem_of_lookup_2|done].
Qed.

Lemma holds_sub pt m p : (∀ v e, m !! v = Some e → ∃ w f, pTable pt !! w = Some f ∧ te_ppn f = te_ppn e) →
  holds (with_table pt m) p → holds pt p.
Proof.
  intros Hm (v & e & <- & [H|H]); [|exists v, e; auto].
  destruct (Hm v e H) as (w & f & Hw & E). exists w, f. auto.
Qed.

Lemma new_page_grows sys page sys1 : sys_ok sys → new_page sys = Some (page, sys1) →
  vpn page = page_ptr sys ∧ page_ptr sys1 = page_ptr sys + 1 ∧ sys_ok sys1.
Proof.
  intros Hs E. destruct (new_page_inv _ _ _ Hs E) as (-> & -> & Hlt & _). unfold sys_ok in *.
  rewrite vpn_page by lia. cbn. lia.
Qed.

Lemma allocate_loop_grows fuel sys pt v size sys' pt' : sys_ok sys →
  allocate_loop fuel sys pt v size = Some (sys', pt') → grows sys pt sys' pt'.
Proof.
  revert sys pt v size. induction fuel as [|fuel IH]; intros sys pt v size Hs E; cbn [allocate_loop] in E;
    (destruct (size >? 0); [|injection E as <- <-; by apply table_grows_refl]); [done|].
  destruct (pTable pt !! v) eqn:Hn; [done|]. destruct (new_page sys) as [[page sys1]|] eqn:En; [|done].
  destruct (new_page_grows _ _ _ Hs En) as (Hv & Hp & Hs1). eapply table_grows_trans; [|exact (IH _ _ _ _ Hs1 E)].
  split; [|lia|done|done]. intros p [->|Hh]%holds_cached; [right; cbn [te_ppn TlbEntry_new]; lia|].
  destruct Hh as (w & f & <- & [H|H]); [|left; exists w, f; auto].
  cbn [with_table pTable] in H. apply lookup_insert_Some in H as [[<- <-]|[_ H]]; [right; cbn [te_ppn TlbEntry_new]; lia|].
  left. exists w, f. auto.
Qed.

Lemma u64_step_ne v w : is_u64 v → is_u64 w → v ≠ w → u64 (v + 2 ^ 13) ≠ u64 (w + 2 ^ 13).
Proof. unfold is_u64, u64, wrapU. intros Hv Hw Hne E. Z.to_euclidean_division_equations. lia. Qed.

Lemma remap_loop_holds fuel pt v size w pt' : pageSize pt = 2 ^ 13 → is_u64 v → is_u64 w → v ≠ w →
  remap_loop found fuel pt v size w = Some pt' →
  (∀ p, holds pt' p → holds pt p) ∧ offsetMask pt' = offsetMask pt ∧ pageSize pt' = 2 ^ 13.
Proof.
  revert pt v size w. induction fuel as [|fuel IH]; intros pt v size w Hsz Hv Hw Hne E; cbn [remap_loop] in E;
    (destruct (size >? 0); [|by injection E as <-]); [done|].
  destruct (pTable pt !! v) as [e|] eqn:Hn; [|done]. cbn [mbind option_bind] in E.
  rewrite lookup_delete_ne, lookup_insert_eq in E by done. cbn [default] in E.
  apply IH in E as (Hh & Hm & Hp); [|done|apply u64_range|apply u64_range|].
  - split_and!; [|done|done]. intros p Hpp. apply Hh in Hpp. apply holds_cached in Hpp as [->|Hpp].
    + exists v, e. auto.
    + revert Hpp. apply holds_sub. intros x f [[<- <-]|[_ H]]%lookup_insert_Some; [exists v, e; auto|].
      apply lookup_delete_Some in H as [_ [[<- <-]|[_ H]]%lookup_insert_Some]; [exists v, e; auto|exists x, f; auto].
  - cbn [updateCache with_table pageSize]. rewrite Hsz. by apply u64_step_ne.
Qed.

Lemma deallocate_loop_holds fuel pt v size pt' : deallocate_loop fuel pt v size = Some pt' →
  (∀ p, holds pt' p → holds pt p) ∧ offsetMask pt' = offsetMask pt ∧ pageSize pt' = pageSize pt.
Proof.
  revert pt v size. induction fuel as [|fuel IH]; intros pt v size E; cbn [deallocate_loop] in E;
    (destruct (size >? 0); [|by injection E as <-]); [done|].
  destruct (pTable pt !! v) as [e|] eqn:Hn; [|done]. cbn [mbind option_bind] in E.
  apply IH in E as (Hh & Hm & Hp). split_and!; [|done|done]. intros p Hpp. apply Hh in Hpp. revert Hpp.
  apply holds_sub. intros x f [_ H]%lookup_delete_Some. exists x, f. auto.
Qed.

Lemma lookup_holds pt v : (∀ p, holds (lookup pt v).2 p → holds pt p) ∧
  offsetMask (lookup pt v).2 = offsetMask pt ∧ pageSize (lookup pt v).2 = pageSize pt.
Proof.
  unfold lookup. destruct (cache_find _ _); [done|]. destruct (pTable pt !! _) as [e|] eqn:H; [|done].
  cbn. split_and!; try done. intros p [->|Hp]%holds_cached; [|done]. exists (pageAlign pt v), e. auto.
Qed.

(** ** The invariant of a run *)

(** Every table is for pages of 8K, reaches pages that were handed out, and no
    page is reached from two tables. *)
Record minv (m : Machine) : Prop := {
  mi_sys : sys_ok (m_sys m);
  mi_page : ∀ i pt, m_tables m !! i = Some pt → offsetMask pt = 2 ^ 13 - 1 ∧ pageSize pt = 2 ^ 13;
  mi_owned : ∀ i pt p, m_tables m !! i = Some pt → holds pt p → 0 <= p < page_ptr (m_sys m);
  mi_disjoint : ∀ i j pt pt' p, m_tables m !! i = Some pt → m_tables m !! j = Some pt' → holds pt p → holds pt' p → i = j
}.

Lemma grows_minv m i pt sys' pt' : minv m → m_tables m !! i = Some pt → pageSize pt' = pageSize pt →
  grows (m_sys m) pt sys' pt' → minv (set_table m i sys' pt').
Proof.
  intros [Hs Hpg Hown Hdis] Hi Hsz [Hh Hp Hs' Hm]. destruct (Hpg i pt Hi) as [Hm0 Hp0]. destruct Hs as [Hs0 _].
  split; cbn [set_table m_sys m_tables]; [done|..].
  - intros j q [(-> & <- & _)|[_ H]]%list_lookup_insert_Some; [split; congruence|by eapply Hpg].
  - intros j q p [(-> & <- & _)|[_ H]]%list_lookup_insert_Some Hq.
    + destruct (Hh p Hq) as [H|H]; [|lia]. destruct (Hown j pt p Hi H). lia.
    + destruct (Hown j q p H Hq). lia.
  - intros j k q r p [(-> & <- & _)|[Hj H]]%list_lookup_insert_Some [(E & <- & _)|[Hk H']]%list_lookup_insert_Some Hq Hr;
      [done|..|by eapply Hdis].
    + destruct (Hh p Hq) as [Hq'|Hq']; [by eapply Hdis|]. destruct (Hown k r p H' Hr). lia.
    + subst. destruct (Hh p Hr) as [Hr'|Hr']; [by eapply Hdis|]. destruct (Hown j q p H Hq). lia.
Qed.

Lemma same_pages_minv m i pt pt' : minv m → m_tables m !! i = Some pt →
  (∀ p, holds pt' p → holds pt p) ∧ offsetMask pt' = offsetMask pt ∧ pageSize pt' = pageSize pt →
  minv (set_table m i (m_sys m) pt').
Proof.
  intros Hm Hi (Hh & Ho & Hz). eapply grows_minv; [done|done|done|]. split; [by left; apply Hh|lia|apply Hm|done].
Qed.

Lemma PageTable_new_8K pid :
  PageTable_new found pid (2 ^ 13) = Some (mkPageTable ∅ [(0, found); (0, found); (0, found)] (2 ^ 13) (2 ^ 13 - 1) pid).
Proof. reflexivity. Qed.

Lemma new_process_minv m pid : minv m →
  minv (mkMachine (m_sys m) (m_tables m ++ [mkPageTable ∅ [(0, found); (0, found); (0, found)] (2 ^ 13) (2 ^ 13 - 1) pid])).
Proof.
  set (t := mkPageTable _ _ _ _ _). intros [Hs Hpg Hown Hdis].
  assert (∀ p, ¬ holds t p) as Hno.
  { intros p (v & e & _ & [H|[H Hv]]); [done|]. apply Hv. cbn in H. set_solver. }
  assert (∀ i pt, (m_tables m ++ [t]) !! i = Some pt → m_tables m !! i = Some pt ∨ pt = t) as Hin.
  { intros i pt [H|[_ H]]%lookup_app_Some; [by left|right]. by apply list_lookup_singleton_Some in H as [_ <-]. }
  split; cbn [m_sys m_tables]; [done|..].
  - intros i pt [H| ->]%Hin; [by eapply Hpg|done].
  - intros i pt p [H| ->]%Hin Hp; [by eapply Hown|by apply Hno in Hp].
  - intros i j pt pt' p [H| ->]%Hin [H'| ->]%Hin Hp Hp'; [by eapply Hdis|by destruct (Hno p)..].
Qed.

Lemma allocate_loop_size fuel sys pt v size sys' pt' :
  allocate_loop fuel sys pt v size = Some (sys', pt') → pageSize pt' = pageSize pt.
Proof.
  revert sys pt v size. induction fuel as [|fuel IH]; intros sys pt v size E; cbn [allocate_loop] in E;
    (destruct (size >? 0); [|by injection E as <- <-]); [done|].
  destruct (pTable pt !! v); [done|]. destruct (new_page sys) as [[page sys1]|]; [|done]. by apply IH in E.
Qed.

Lemma translate_table pt v : (translate pt v).2 = (lookup pt v).2.
Proof. unfold translate. by destruct (lookup pt v). Qed.

Lemma step_minv m o m' : minv m → op_valid o = true → step m o = Some m' → minv m'.
Proof.
  intros Hm Hv. destruct o as [pid|i v size|i v size w|i v size|i v]; unfold step.
  { rewrite PageTable_new_8K. intros [= <-]. by apply new_process_minv. }
  all: destruct (m_tables m !! i) as [pt|] eqn:Hi; [|done]; cbn [mbind option_bind].
  - unfold allocate. destruct (_ =? 0); [|done]. destruct (allocate_loop _ _ _ _ _) as [[sys' pt']|] eqn:E; [|done].
    intros [= <-]. eapply grows_minv; [done|done|by eapply allocate_loop_size|].
    eapply allocate_loop_grows; [apply Hm|exact E].
  - cbn in Hv. unfold remap. destruct ((pageOffset pt v =? 0) && _); [|done]. destruct (remap_loop _ _ _ _ _ _) as [pt'|] eqn:E; [|done].
    intros [= <-]. destruct (mi_page _ Hm _ _ Hi) as [Hk Hz]. eapply same_pages_minv; [done|done|].
    rewrite Hz. eapply remap_loop_holds; [done|..|exact E]; unfold is_u64; lia.
  - unfold deallocate. destruct (_ =? 0); [|done]. destruct (deallocate_loop _ _ _ _) as [pt'|] eqn:E; [|done].
    intros [= <-]. eapply same_pages_minv; [done|done|]. by eapply deallocate_loop_holds.
  - intros [= <-]. eapply same_pages_minv; [done|done|]. rewrite translate_table. apply lookup_holds.
Qed.

Lemma run_minv ops m m' : minv m → run ops m = Some m' → minv m'.
Proof.
  revert m. induction ops as [|o ops IH]; intros m Hm E; cbn [run] in E; [by injection E as <-|].
  destruct (op_valid o) eqn:Hv; [|done]. destruct (step m o) as [m1|] eqn:E1; [|done].
  apply (IH m1); [|done]. eapply step_minv; [exact Hm|exact Hv|exact E1].
Qed.

Lemma boot_minv mem : minv (boot mem).
Proof. split; cbn; [unfold sys_ok; cbn; lia|done..]. Qed.

(** What a translation beyond the first page answers. *)
Lemma translate_holds pt v a : offsetMask pt = 2 ^ 13 - 1 → is_u64 v → 2 ^ 13 <= v →
  (∀ p, holds pt p → 0 <= p < 2 ^ 30) → (translate pt v).1 = Some a →
  holds pt (a / 2 ^ 13) ∧ a mod 2 ^ 13 = v mod 2 ^ 13.
Proof.
  intros Hm Hv Hlo Hh. unfold translate. pose proof (align_spec pt v Hm Hv) as Hal.
  assert (∀ e, (lookup pt v).1 = Some e → holds pt (te_ppn e)) as Hl.
  { intros e. unfold lookup. destruct (cache_find _ _) as [f|] eqn:Ec.
    - intros [= ->]. exists (pageAlign pt v), e. split; [done|]. right. split; [by apply cache_find_elem|].
      rewrite Hal. unfold is_u64 in Hv. Z.to_euclidean_division_equations. lia.
    - destruct (pTable pt !! _) as [f|] eqn:Et; [|done]. intros [= ->]. exists (pageAlign pt v), e. auto. }
  destruct (lookup_holds pt v) as (_ & Ho & _). destruct (lookup pt v) as [[e|] pt']; [|done]. cbn [fst snd] in *.
  specialize (Hl e eq_refl). pose proof (Hh _ Hl) as Hr. rewrite offset_spec by congruence.
  rewrite pageStart_ppn by lia. pose proof (Z.mod_pos_bound v (2 ^ 13) ltac:(lia)).
  rewrite u64_small by (unfold is_u64; lia). intros [= <-].
  rewrite Z.div_add, Z.mod_add, Z.div_small, Z.mod_mod by lia. done.
Qed.

(** ** Isolation *)

(** C23. The tables of the processes keep them apart. Whatever the processes
    allocate, move, release and translate, in any order, a physical address
    that is the translation of an address beyond the first page in two
    processes is that of one process; it lies in a page that was handed out. *)
Theorem process_isolation mem ops m i j pi pj v w a :
  run ops (boot mem) = Some m → m_tables m !! i = Some pi → m_tables m !! j = Some pj →
  is_u64 v → is_u64 w → 2 ^ 13 <= v → 2 ^ 13 <= w →
  (translate pi v).1 = Some a → (translate pj w).1 = Some a →
  i = j ∧ 0 <= a / 2 ^ 13 < page_ptr (m_sys m) ∧ v mod 2 ^ 13 = w mod 2 ^ 13.
Proof.
  intros Hrun Hi Hj Hv Hw Hlv Hlw Ha Hb. pose proof (run_minv _ _ _ (boot_minv mem) Hrun) as Hm.
  pose proof (mi_sys _ Hm) as Hptr. unfold sys_ok in Hptr.
  destruct (translate_holds pi v a) as [Hhi Hmi]; [by eapply mi_page|done|done| |done|].
  { intros p Hp. pose proof (mi_owned _ Hm i pi p Hi Hp). lia. }
  destruct (translate_holds pj w a) as [Hhj Hmj]; [by eapply mi_page|done|done| |done|].
  { intros p Hp. pose proof (mi_owned _ Hm j pj p Hj Hp). lia. }
  split_and!; [by eapply mi_disjoint|by eapply mi_owned..|congruence].
Qed.

(** ** Allocation *)

Lemma pt_ok_mono sys sys' pt : pt_ok sys pt → page_ptr sys <= page_ptr sys' <= 2 ^ 18 → mem_size sys' = mem_size sys →
  pt_ok sys' pt.
Proof.
  intros [Hs Hm Hptr Hkey Hppn Hinj Hc] Hp He. split; try done; [lia|].
  intros v e H. destruct (Hppn v e H). lia.
Qed.

(** While no page is released or moved, the cache of a table agrees with it. *)
Definition mok (m : Machine) : Prop :=
  sys_ok (m_sys m) ∧ ∀ i pt, m_tables m !! i = Some pt → pt_ok (m_sys m) pt.

Lemma set_table_mok m i sys' pt' : mok m → pt_ok sys' pt' → page_ptr (m_sys m) <= page_ptr sys' →
  mem_size sys' = mem_size (m_sys m) → mok (set_table m i sys' pt').
Proof.
  intros [Hs Hall] Hok Hp He. pose proof (pk_ptr _ _ Hok).
  split; [by unfold sys_ok; cbn|]. cbn. intros j pt [(-> & <- & _)|[_ Hj]]%list_lookup_insert_Some; [done|].
  eapply pt_ok_mono; [by eapply Hall|lia|done].
Qed.

Lemma offset_aligned pt v : offsetMask pt = 2 ^ 13 - 1 → (pageOffset pt v =? 0) = (v mod 2 ^ 13 =? 0).
Proof. intros Hm. by rewrite offset_spec. Qed.

Lemma step_mok m o m' : mok m → op_valid o = true → keeps_pages o = true → step m o = Some m' → mok m'.
Proof.
  intros Hm Hv Hk. destruct o as [pid|i v size|i v size w|i v size|i v]; try done; unfold step.
  { rewrite PageTable_new_8K. intros [= <-]. destruct Hm as [Hs Hall]. split; [done|].
    cbn. intros i pt [H|[_ [_ <-]%list_lookup_singleton_Some]]%lookup_app_Some; [by eapply Hall|].
    destruct Hs. split; cbn; try done. intros x e Hin Hne. set_solver. }
  all: destruct (m_tables m !! i) as [pt|] eqn:Hi; [|done]; cbn [mbind option_bind];
       pose proof (proj2 Hm i pt Hi) as Hok.
  - unfold allocate. rewrite offset_aligned by apply Hok. zcase; [|done].
    destruct (allocate_loop _ _ _ _ _) as [[sys' pt']|] eqn:E; [|done]. intros [= <-]. cbn in Hv.
    assert (is_u64 v) as Hu by (unfold is_u64; lia).
    destruct (allocate_loop_inv _ _ _ _ _ _ _ Hok Hu ltac:(done) E) as (Hok' & Hp & He & _).
    by apply set_table_mok.
  - intros [= <-]. destruct (lookup_ok _ _ v Hok) as (pt' & El & Hok' & _). rewrite translate_table, El.
    by apply set_table_mok; [..|lia|].
Qed.

Lemma run_mok ops m m' : mok m → forallb keeps_pages ops = true → run ops m = Some m' → mok m'.
Proof.
  revert m. induction ops as [|o ops IH]; intros m Hm Hk E; cbn [run] in E; [by injection E as <-|].
  cbn in Hk. apply andb_true_iff in Hk as [Hk1 Hk2].
  destruct (op_valid o) eqn:Hv; [|done]. destruct (step m o) as [m1|] eqn:E1; [|done].
  apply (IH m1); [|done|done]. by eapply step_mok.
Qed.

Lemma boot_mok mem : mok (boot mem).
Proof. split; cbn; [unfold sys_ok; cbn; lia|done]. Qed.

(** The translation of an address beyond the first page, by the table. *)
Lemma translate_ok sys pt v : pt_ok sys pt → is_u64 v → 2 ^ 13 <= v →
  (translate pt v).1 = (λ e, te_ppn e * 2 ^ 13 + v mod 2 ^ 13) <$> pTable pt !! (v - v mod 2 ^ 13).
Proof.
  intros Hok Hv Hlo. destruct (lookup_ok sys pt v Hok) as (pt' & El & Hok' & Ht & Hl).
  rewrite align_spec in Hl by (done || apply Hok). unfold translate. rewrite El.
  rewrite Hl by (unfold is_u64 in Hv; Z.to_euclidean_division_equations; lia).
  destruct (pTable pt !! _) as [e|] eqn:E; [|done]. cbn [fmap option_fmap option_map fst]. f_equal.
  destruct (pk_ppn _ _ Hok _ _ E). pose proof (pk_ptr _ _ Hok).
  rewrite offset_spec by apply Hok'. rewrite pageStart_ppn by lia.
  pose proof (Z.mod_pos_bound v (2 ^ 13) ltac:(lia)). rewrite u64_small by (unfold is_u64; lia). lia.
Qed.

(** What [allocate_loop_ok] says of an allocation as the system calls make it. *)
Lemma allocate_step m i pt v size : mok m → m_tables m !! i = Some pt →
  is_u64 v → v mod 2 ^ 13 = 0 → 0 < size < 2 ^ 62 → v + size <= 2 ^ 64 →
  (∀ k, (k < pages size)%nat → pTable pt !! page_at v k = None) →
  page_ptr (m_sys m) + Z.of_nat (pages size) <= 2 ^ 18 →
  (page_ptr (m_sys m) + Z.of_nat (pages size) - 1) * 2 ^ 13 < mem_size (m_sys m) →
  ∃ sys' pt', step m (Allocate i v size) = Some (set_table m i sys' pt') ∧ pt_ok sys' pt' ∧
    (∀ k, (k < pages size)%nat → ∃ e, pTable pt' !! page_at v k = Some e ∧ te_ppn e = page_ptr (m_sys m) + Z.of_nat k) ∧
    (∀ w, (∀ k, (k < pages size)%nat → w ≠ page_at v k) → pTable pt' !! w = pTable pt !! w).
Proof.
  intros [Hs Hall] Hi Hv Ha Hsz Hend Hno H2G Hmem. pose proof (Hall i pt Hi) as Hok. unfold sys_ok in Hs.
  assert (Z.of_nat (pages size) = (size + 2 ^ 13 - 1) / 2 ^ 13) as Hpg
    by (unfold pages; rewrite Z2Nat.id by (Z.to_euclidean_division_equations; lia); done).
  destruct (allocate_loop_ok (pages size) (loop_fuel pt size) (m_sys m) pt v size) as (sys' & pt' & E & Hp' & Hnew & Hold);
    try done; [lia| | |].
  - unfold loop_fuel. rewrite (pk_size _ _ Hok). apply Nat2Z.inj_le. rewrite Hpg, Z2Nat.id;
      Z.to_euclidean_division_equations; lia.
  - unfold is_u64 in Hv. Z.to_euclidean_division_equations. lia.
  - exists sys', pt'. split_and!; [| |done|done].
    + unfold step, allocate. rewrite Hi. cbn [mbind option_bind]. rewrite offset_aligned, Ha by apply Hok. cbn [Z.eqb].
      by rewrite E.
    + by eapply allocate_loop_inv.
Qed.

(** The pages of a range do not wrap. *)
Lemma page_at_plain v size k : is_u64 v → v mod 2 ^ 13 = 0 → v + size <= 2 ^ 64 → (k < pages size)%nat →
  page_at v k = v + Z.of_nat k * 2 ^ 13.
Proof.
  intros Hv Ha He Hk. unfold page_at. apply u64_small. unfold is_u64 in *. unfold pages in Hk.
  apply Nat2Z.inj_lt in Hk. rewrite Z2Nat.id in Hk by lia. Z.to_euclidean_division_equations. lia.
Qed.

(** The page of an address of a range. *)
Lemma range_page o size : 0 <= o < size → (Z.to_nat (o / 2 ^ 13) < pages size)%nat.
Proof.
  intros Ho. unfold pages. apply Z2Nat.inj_lt; Z.to_euclidean_division_equations; lia.
Qed.

(** C24. Allocation maps what it is asked to. While no process has released or
    moved a page, allocating a range of pages that are not mapped, beyond the first
    page and with memory left below 2G, returns; from then on the addresses of the
    range translate to one run of physical memory that starts at the first
    page not handed out before, and every other address beyond the first page
    translates as it did. *)
Theorem allocate_translates mem ops m i pt v size :
  forallb keeps_pages ops = true → run ops (boot mem) = Some m → m_tables m !! i = Some pt →
  is_u64 v → v mod 2 ^ 13 = 0 → 2 ^ 13 <= v → 0 < size < 2 ^ 62 → v + size <= 2 ^ 64 →
  (∀ k, (k < pages size)%nat → pTable pt !! page_at v k = None) →
  page_ptr (m_sys m) + Z.of_nat (pages size) <= 2 ^ 18 →
  (page_ptr (m_sys m) + Z.of_nat (pages size) - 1) * 2 ^ 13 < mem_size (m_sys m) →
  ∃ sys' pt', step m (Allocate i v size) = Some (set_table m i sys' pt') ∧
    (∀ o, 0 <= o < size → (translate pt' (v + o)).1 = Some (page_ptr (m_sys m) * 2 ^ 13 + o)) ∧
    (∀ w, is_u64 w → 2 ^ 13 <= w → w < v ∨ v + Z.of_nat (pages size) * 2 ^ 13 <= w →
       (translate pt' w).1 = (translate pt w).1).
Proof.
  intros Hk Hrun Hi Hv Ha Hlo Hsz Hend Hno H2G Hfit.
  pose proof (run_mok _ _ _ (boot_mok mem) Hk Hrun) as Hm. pose proof (proj2 Hm i pt Hi) as Hok.
  destruct (allocate_step m i pt v size Hm Hi Hv Ha Hsz Hend Hno H2G Hfit) as (sys' & pt' & E & Hok' & Hnew & Hold).
  exists sys', pt'. split; [done|]. split.
  - intros o Ho. rewrite (translate_ok sys') by (done || (unfold is_u64 in *; lia)).
    destruct (Hnew (Z.to_nat (o / 2 ^ 13))) as (e & He & Hpe); [apply range_page; lia|].
    rewrite (page_at_plain v size) in He by (done || (apply range_page; lia)).
    rewrite Z2Nat.id in He, Hpe by (apply Z.div_pos; lia).
    replace (v + o - (v + o) mod 2 ^ 13) with (v + o / 2 ^ 13 * 2 ^ 13)
      by (Z.to_euclidean_division_equations; lia).
    rewrite He. cbn. f_equal. rewrite Hpe. Z.to_euclidean_division_equations. lia.
  - intros w Hw Hw0 Hout. rewrite (translate_ok sys') by done. rewrite (translate_ok (m_sys m) pt) by done.
    f_equal. apply Hold. intros k Hk1. rewrite (page_at_plain v size) by done.
    unfold is_u64 in *. Z.to_euclidean_division_equations. lia.
Qed.

(** ** Requests *)

Lemma same_page v size : is_u64 v → 0 < size → v + size <= 2 ^ 64 →
  (v + size - 1 - (v + size - 1) mod 2 ^ 13 =? v - v mod 2 ^ 13) = (v mod 2 ^ 13 + size <=? 2 ^ 13).
Proof.
  intros Hv Hs He. unfold is_u64 in Hv. apply eq_true_iff_eq. rewrite Z.eqb_eq, Z.leb_le.
  Z.to_euclidean_division_equations. lia.
Qed.

Lemma u64_pred_end v size : is_u64 v → 0 < size → v + size <= 2 ^ 64 → u64 (u64 (v + size) - 1) = v + size - 1.
Proof. intros Hv Hs He. unfold is_u64 in Hv. unfold u64, wrapU. Z.to_euclidean_division_equations. lia. Qed.

(** The translation of a request. While no page was released or moved, a
    request beyond the first page that stays within a page gets the physical
    address its page is mapped to, or the fault that names its address when
    the page is not mapped, and never the panic about page boundaries; a
    request that crosses into the next page fails the assertion. *)
Theorem request_translation mem ops m i pt v size :
  forallb keeps_pages ops = true → run ops (boot mem) = Some m → m_tables m !! i = Some pt →
  is_u64 v → 2 ^ 13 <= v → 0 < size → v + size <= 2 ^ 64 →
  fst <$> translate_request pt v size =
    if v mod 2 ^ 13 + size <=? 2 ^ 13 then
      Some (match pTable pt !! (v - v mod 2 ^ 13) with
            | Some e => Translated (te_ppn e * 2 ^ 13 + v mod 2 ^ 13)
            | None => PageTableFault v
            end)
    else None.
Proof.
  intros Hk Hrun Hi Hv Hlo Hsz Hend.
  pose proof (proj2 (run_mok _ _ _ (boot_mok mem) Hk Hrun) i pt Hi) as Hok. clear Hrun Hi.
  unfold translate_request. rewrite u64_pred_end by done.
  rewrite !align_spec by (apply Hok || done || (unfold is_u64 in *; lia)). rewrite same_page by done.
  zcase; [|done]. pose proof (translate_ok _ pt v Hok Hv Hlo) as Ht.
  destruct (lookup_holds pt v) as (_ & _ & Hz). rewrite <- translate_table in Hz.
  destruct (translate pt v) as [r pt']. cbn [fst snd] in *. subst r. rewrite (pk_size _ _ Hok) in Hz.
  destruct (pTable pt !! _) as [e|] eqn:E; [|done]. cbn [fmap option_fmap option_map].
  destruct (pk_ppn _ _ Hok _ _ E). pose proof (pk_ptr _ _ Hok). pose proof (Z.mod_pos_bound v (2 ^ 13) ltac:(lia)).
  rewrite Hz, (u64_small (2 ^ 13 - 1)) by (unfold is_u64; lia).
  rewrite (land_ones_mod _ 13), (Z.add_comm (te_ppn e * _)), Z.mod_add, Z.mod_mod by lia.
  rewrite u64_small by (unfold is_u64; lia). zcase; [lia|done].
Qed.

(** ** What the cache keeps *)

(** One page is allocated, released and moved. *)
Lemma allocate_one sys pt v : pt_ok sys pt → v mod 2 ^ 13 = 0 → pTable pt !! v = None →
  page_ptr sys < 2 ^ 18 → page_ptr sys * 2 ^ 13 < mem_size sys →
  allocate sys pt v (2 ^ 13) = Some (mkSystem (page_ptr sys + 1) (mem_size sys), map_page sys pt v).
Proof.
  intros Hok Ha Hn H2G Hfit. pose proof (pk_ptr _ _ Hok).
  unfold allocate. rewrite offset_aligned, Ha by apply Hok. unfold loop_fuel. rewrite (pk_size _ _ Hok).
  cbn [Z.eqb]. change (Z.to_nat (2 ^ 13 / 2 ^ 13 + 1)) with 2%nat.
  erewrite allocate_turn; [|done|done|apply new_page_ok; lia|done]. by rewrite (pk_size _ _ Hok).
Qed.

Section OnePage.
Context (pt : PageTable) (v : Z) (e : TlbEntry).
Hypothesis (Hmask : offsetMask pt = 2 ^ 13 - 1) (Hsize : pageSize pt = 2 ^ 13).
Hypothesis (Hal : v mod 2 ^ 13 = 0) (Hmap : pTable pt !! v = Some e).

Lemma deallocate_one : deallocate pt v (2 ^ 13) = Some (with_table pt (delete v (pTable pt))).
Proof.
  unfold deallocate. rewrite offset_aligned, Hal by done. unfold loop_fuel. rewrite Hsize. cbn [Z.eqb].
  change (Z.to_nat (2 ^ 13 / 2 ^ 13 + 1)) with 2%nat. cbn [deallocate_loop]. rewrite Hmap, Hsize. done.
Qed.

Lemma remap_one w : w mod 2 ^ 13 = 0 → w ≠ v →
  remap found pt v (2 ^ 13) w =
  Some (updateCache (with_table pt (<[w := updateVaddr e w]> (delete v (<[w := e]> (pTable pt))))) w (updateVaddr e w)).
Proof.
  intros Hw Hne. unfold remap. rewrite !offset_aligned, Hal, Hw by done. unfold loop_fuel. rewrite Hsize. cbn [Z.eqb andb].
  change (Z.to_nat (2 ^ 13 / 2 ^ 13 + 1)) with 2%nat. cbn [remap_loop]. rewrite Hmap. cbn [mbind option_bind].
  rewrite lookup_delete_ne, lookup_insert_eq by done. cbn [updateCache with_table pageSize]. by rewrite Hsize.
Qed.

End OnePage.

(** What is in the cache is answered from there. *)
Lemma cached_translation pt v e o : offsetMask pt = 2 ^ 13 - 1 → is_u64 v → v mod 2 ^ 13 = 0 → 0 <= o < 2 ^ 13 →
  cache_find (pTableCache pt) v = Some e → 0 <= te_ppn e < 2 ^ 30 →
  (translate pt (v + o)).1 = Some (te_ppn e * 2 ^ 13 + o).
Proof.
  intros Hm Hv Ha Ho Hc He. unfold translate, lookup.
  assert (is_u64 (v + o)) as Hvo by (unfold is_u64 in *; Z.to_euclidean_division_equations; lia).
  assert ((v + o) mod 2 ^ 13 = o) as Hmod by (Z.to_euclidean_division_equations; lia).
  rewrite align_spec, Hmod, Z.add_simpl_r, Hc by done. cbn [fst]. rewrite offset_spec, Hmod, pageStart_ppn by done.
  rewrite u64_small by (unfold is_u64; lia). f_equal. lia.
Qed.


(** A new process translates the addresses of the first page, by what the
    entries of the cache were left with, although it has no pages. *)
Lemma null_page_translates pid pt v : PageTable_new found pid (2 ^ 13) = Some pt → 0 <= te_ppn found < 2 ^ 30 →
  0 <= v < 2 ^ 13 → pTable pt = ∅ ∧ (translate pt v).1 = Some (te_ppn found * 2 ^ 13 + v).
Proof.
  rewrite PageTable_new_8K. intros [= <-] Hf Hv. split; [done|].
  apply (cached_translation _ 0); try done.
Qed.

End Runs.

(** ** Witnesses *)

Ltac witness_side :=
  lazymatch goal with
  | |- is_u64 _ => unfold is_u64; lia
  | |- _ <= _ < _ => lia
  | |- _ < _ < _ => lia
  | |- _ ≠ _ => lia
  | |- _ <= _ => apply Z.leb_le; vm_compute; reflexivity
  | |- _ < _ => apply Z.ltb_lt; vm_compute; reflexivity
  | |- ∀ _, _ => idtac
  | |- _ = _ => vm_compute; reflexivity
  end.

(** Two processes of 128M of memory, with a mapping each at the same address. *)
Definition demo_found : TlbEntry := TlbEntry_new 0 0 0.
Definition demo_ops : list op :=
  [NewProcess 1; NewProcess 2; Allocate 0 (2 ^ 16) (2 ^ 14); Allocate 1 (2 ^ 16) 100; Translate 0 (2 ^ 16 + 5)].
Definition demo : Machine := default (boot 0) (run demo_found demo_ops (boot (2 ^ 27))).
Definition demo_pt (i : nat) : PageTable := default (mkPageTable ∅ [] 0 0 0) (m_tables demo !! i).

Lemma process_isolation_witness :
  (translate (demo_pt 0) (2 ^ 16 + 5)).1 = Some 5 ∧ (translate (demo_pt 1) (2 ^ 16 + 5)).1 = Some (2 ^ 14 + 5) ∧
  0%nat = 0%nat ∧ 0 <= 5 / 2 ^ 13 < page_ptr (m_sys demo) ∧ (2 ^ 16 + 5) mod 2 ^ 13 = (2 ^ 16 + 5) mod 2 ^ 13.
Proof.
  split; [vm_compute; reflexivity|]. split; [vm_compute; reflexivity|].
  apply (process_isolation demo_found (2 ^ 27) demo_ops demo 0 0 (demo_pt 0) (demo_pt 0) (2 ^ 16 + 5) (2 ^ 16 + 5) 5);
    witness_side.
Defined.

Lemma allocate_translates_witness : ∃ sys' pt',
  step demo_found demo (Allocate 0 (2 ^ 20) 10000) = Some (set_table demo 0 sys' pt') ∧
  (∀ o, 0 <= o < 10000 → (translate pt' (2 ^ 20 + o)).1 = Some (page_ptr (m_sys demo) * 2 ^ 13 + o)) ∧
  (∀ w, is_u64 w → 2 ^ 13 <= w → w < 2 ^ 20 ∨ 2 ^ 20 + Z.of_nat (pages 10000) * 2 ^ 13 <= w →
     (translate pt' w).1 = (translate (demo_pt 0) w).1).
Proof.
  apply (allocate_translates demo_found (2 ^ 27) demo_ops demo 0 (demo_pt 0) (2 ^ 20) 10000);
    witness_side.
  assert (pages 10000 = 2%nat) as -> by (vm_compute; reflexivity).
  intros [|[|k]] Hk; [vm_compute; reflexivity..|lia].
Defined.

Lemma request_translation_witness :
  fst <$> translate_request (demo_pt 0) (2 ^ 16 + 2 ^ 13 + 8) 8 = Some (Translated (2 ^ 13 + 8)) ∧
  fst <$> translate_request (demo_pt 0) (2 ^ 20) 8 = Some (PageTableFault (2 ^ 20)).
Proof.
  split.
  - rewrite (request_translation demo_found (2 ^ 27) demo_ops demo 0 (demo_pt 0));
      witness_side.
  - rewrite (request_translation demo_found (2 ^ 27) demo_ops demo 0 (demo_pt 0));
      witness_side.
Defined.

