(* ===== verification/PfInterface.v ===== *)
(** The C interface between the simulator and a user prefetcher:
    [src/prefetcher/interface.hh] (identical to
    [src/m5/src/mem/cache/prefetch/interface.hh]).

    The prefetcher reads the simulator through [in_cache], [in_mshr_queue],
    [get_prefetch_bit] and [current_queue_size] ([View]) and acts on it through
    [issue_prefetch], [set_prefetch_bit] and [clear_prefetch_bit] ([SimCall]).
    None of these calls changes what a query of the same callback answers, with
    the exception of the prefetch bits, which no callback reads after writing;
    a callback is therefore a function of the view that returns its calls in
    order. *)

From S2P Require Import Prelude.

Definition BLOCK_SIZE : Z := 64.
Definition MAX_QUEUE_SIZE : Z := 100.
Definition MAX_PHYS_MEM_ADDR : Z := 256 * 1024 * 1024 - 1.

Record AccessStat := mkAccessStat {
  pc : Z;
  mem_addr : Z;
  time : Z;
  miss : bool
}.

Record View := mkView {
  in_cache : Z → bool;
  in_mshr_queue : Z → bool;
  get_prefetch_bit : Z → bool;
  current_queue_size : Z
}.

Inductive SimCall :=
  | IssuePrefetch (addr : Z)
  | SetPrefetchBit (addr : Z)
  | ClearPrefetchBit (addr : Z).

(** What a user prefetcher provides. *)
Class UserPrefetcher := {
  upstate : Type;
  prefetch_init : upstate;
  prefetch_access : View → upstate → AccessStat → upstate * list SimCall;
  prefetch_complete : upstate → Z → upstate * list SimCall
}.

(** Addresses of the [issue_prefetch] calls, in order. *)
Definition issued (cs : list SimCall) : list Z :=
  omap (λ c, match c with IssuePrefetch a => Some a | _ => None end) cs.

Lemma issued_cons a cs : issued (IssuePrefetch a :: cs) = a :: issued cs.
Proof. done. Qed.

(** The types of the fields of [AccessStat]. *)
Definition stat_ok (st : AccessStat) : Prop := is_u64 (pc st) ∧ is_u64 (mem_addr st).

(** What the simulator demands of a user prefetcher: a prefetch outside of the
    physical memory is fatal to the simulation.  [up_ok] is an invariant of the
    prefetcher's own state that makes every access safe. *)
Class SafePrefetcher (P : UserPrefetcher) := {
  up_ok : upstate → Prop;
  up_ok_init : up_ok prefetch_init;
  up_ok_access v s st : stat_ok st → up_ok s → up_ok (prefetch_access v s st).1;
  up_ok_complete s a : up_ok s → up_ok (prefetch_complete s a).1;
  up_ok_safe v s st : stat_ok st → up_ok s →
    Forall (λ a, 0 <= a <= MAX_PHYS_MEM_ADDR) (issued (prefetch_access v s st).2)
}.

(** [addr / BLOCK_SIZE * BLOCK_SIZE] *)
Definition block_aligned (a : Z) : Prop := a mod BLOCK_SIZE = 0.

#[export] Instance SimCall_eq_dec : EqDecision SimCall.
Proof. solve_decision. Defined.
