(* ===== verification/Dcpt.v ===== *)
(** The DCPT prefetcher of the repository, [src/prefetcher/prefetcher.cc]. *)

From S2P Require Import Prelude PfInterface.

Definition NUM_DELTAS : Z := 19.
Definition TABLE_SIZE : Z := 98.
Definition DELTA_BITS : Z := 12.
Definition MAX_DEGREE : Z := NUM_DELTAS.
Definition DELTA_MIN : Z := - Z.shiftl 1 (DELTA_BITS - 1).
Definition DELTA_MAX : Z := Z.shiftl 1 (DELTA_BITS - 1) - 1.

(** A row of the table; [e_deltas] is the deque from front (oldest) to back. *)
Record Entry := mkEntry {
  e_pc : Z;
  e_last_address : Z;
  e_last_prefetch : Z;
  e_deltas : list Z
}.

(** [Entry(Addr pc = 0, Addr addr = 0)] *)
Definition Entry_new (pc addr : Z) : Entry := mkEntry pc addr 0 [].

Definition insert_delta (e : Entry) (delta : Z) : Entry :=
  if (delta <? DELTA_MIN) || (DELTA_MAX <? delta) then e
  else
    let ds := e_deltas e ++ [delta] in
    let ds := if NUM_DELTAS <? Z.of_nat (length ds) then tail ds else ds in
    mkEntry (e_pc e) (e_last_address e) (e_last_prefetch e) ds.

Definition set_last_address (e : Entry) (a : Z) : Entry :=
  mkEntry (e_pc e) a (e_last_prefetch e) (e_deltas e).

(** The two globals of the file. *)
Record Dcpt := mkDcpt {
  table : list Entry;
  in_flight : gset Z
}.

Definition Dcpt_globals : Dcpt := mkDcpt (replicate (Z.to_nat TABLE_SIZE) (Entry_new 0 0)) ∅.

Definition to_block (addr : Z) : Z := u64 (addr / BLOCK_SIZE * BLOCK_SIZE).

(** [table_lookup] returns a reference: here, the index of the row. *)
Definition table_index (pc : Z) : nat := Z.to_nat (pc mod TABLE_SIZE).

(** Innermost loop of [delta_correlation]: walk [w] from [v] to [rend]. *)
Fixpoint walk (ws : list Z) (address : Z) (candidates : list Z) : Z * list Z :=
  match ws with
  | [] => (address, candidates)
  | w :: ws => let address := u64 (address + w) in walk ws address (candidates ++ [address])
  end.

(** Outer loop; the list is the reversed deque from the position of [u] on. *)
Fixpoint corr_loop (d1 d2 : Z) (us : list Z) (address : Z) (candidates : list Z) : list Z :=
  match us with
  | u :: ((v :: _) as vs) =>
      if (u =? d1) && (v =? d2) then
        let '(address, candidates) := walk vs address candidates in
        corr_loop d1 d2 vs address candidates
      else corr_loop d1 d2 vs address candidates
  | _ => candidates
  end.

Definition delta_correlation (e : Entry) : list Z :=
  match rev (e_deltas e) with
  | d1 :: ((d2 :: _) as us) => corr_loop d1 d2 us (e_last_address e) []
  | _ => []
  end.

Definition prefetch_wanted (v : View) (inf : gset Z) (a : Z) : bool :=
  (a <=? MAX_PHYS_MEM_ADDR) && negb (bool_decide (to_block a ∈ inf)) &&
  negb (in_mshr_queue v a) && negb (in_cache v a).

(** Body of the loop of [prefetch_filter]. *)
Definition filter_step (v : View) (last_prefetch : Z) (acc : gset Z * list Z) (a : Z)
    : gset Z * list Z :=
  let '(inf, prefetches) := acc in
  let '(inf, prefetches) :=
    if prefetch_wanted v inf a then
      if Z.of_nat (size inf) <? MAX_QUEUE_SIZE
      then ({[to_block a]} ∪ inf, prefetches ++ [a])
      else (inf, prefetches)
    else (inf, prefetches) in
  (inf, if a =? last_prefetch then [] else prefetches).

Definition prefetch_filter (v : View) (inf : gset Z) (e : Entry) (cands : list Z)
    : gset Z * list Z := foldl (filter_step v (e_last_prefetch e)) (inf, []) cands.

Fixpoint issue_loop (v : View) (issued_prefetches : Z) (prefetches : list Z) : list SimCall :=
  match prefetches with
  | [] => []
  | a :: prefetches =>
      if (MAX_QUEUE_SIZE <=? current_queue_size v) || (MAX_DEGREE <=? issued_prefetches)
      then []
      else IssuePrefetch a :: issue_loop v (issued_prefetches + 1) prefetches
  end.

Definition issue_prefetches (v : View) (prefetches : list Z) : list SimCall :=
  issue_loop v 0 prefetches.

Definition dcpt_complete (s : Dcpt) (addr : Z) : Dcpt * list SimCall :=
  (mkDcpt (table s) (in_flight s ∖ {[to_block addr]}), []).

Definition dcpt_access (v : View) (s : Dcpt) (stat : AccessStat) : Dcpt * list SimCall :=
  let i := table_index (pc stat) in
  let addr := mem_addr stat in
  let e := default (Entry_new 0 0) (table s !! i) in
  if negb (e_pc e =? pc stat) then
    (mkDcpt (<[i := Entry_new (pc stat) addr]> (table s)) (in_flight s), [])
  else if negb (mem_addr stat =? e_last_address e) then
    let e := insert_delta e (s32 (u64 (addr - e_last_address e))) in
    let e := set_last_address e addr in
    let candidates := delta_correlation e in
    let '(inf, prefetches) := prefetch_filter v (in_flight s) e candidates in
    (mkDcpt (<[i := e]> (table s)) inf, issue_prefetches v prefetches)
  else (s, []).

#[export] Instance DcptPrefetcher : UserPrefetcher := {|
  upstate := Dcpt;
  prefetch_init := Dcpt_globals;
  prefetch_access := dcpt_access;
  prefetch_complete := dcpt_complete
|}.

(** ** Candidate generation *)

Section Correlation.

(** [n] addresses of stride [s] after [a]. *)
Definition stride_addrs (a s n : Z) : list Z := (λ j, u64 (a + s * j)) <$> seqZ 1 n.

Lemma walk_u64 ws a cs :
  is_u64 a → Forall is_u64 cs →
  is_u64 (walk ws a cs).1 ∧ Forall is_u64 (walk ws a cs).2.
Proof.
  revert a cs. induction ws as [|w ws IH]; intros a cs Ha Hcs; [done|].
  simpl. apply IH; [apply u64_range|].
  apply Forall_app; split; [done|]. repeat constructor; apply u64_range.
Qed.

Lemma corr_loop_u64 d1 d2 us a cs :
  is_u64 a → Forall is_u64 cs → Forall is_u64 (corr_loop d1 d2 us a cs).
Proof.
  revert a cs. induction us as [|u us IH]; intros a cs Ha Hcs; [done|].
  simpl. destruct us as [|v us]; [done|].
  destruct (_ && _); [|by apply IH].
  pose proof (walk_u64 (v :: us) a cs Ha Hcs) as [Ha' Hcs'].
  destruct (walk (v :: us) a cs) as [a' cs']. by apply IH.
Qed.

Lemma delta_correlation_u64 e :
  is_u64 (e_last_address e) → Forall is_u64 (delta_correlation e).
Proof.
  intros H. unfold delta_correlation.
  destruct (rev (e_deltas e)) as [|d1 [|d2 us]]; try constructor.
  by apply corr_loop_u64.
Qed.

Lemma stride_addrs_app a s n m :
  0 <= n → 0 <= m →
  stride_addrs a s n ++ stride_addrs (a + s * n) s m = stride_addrs a s (n + m).
Proof.
  intros Hn Hm. unfold stride_addrs. rewrite seqZ_app, fmap_app by done.
  f_equal. rewrite (Z.add_comm 1 n), <- (fmap_add_seqZ n 1 m), <- list_fmap_compose.
  apply list_fmap_ext. intros i x _. simpl. f_equal. lia.
Qed.

Lemma stride_addrs_u64 a s n : stride_addrs (u64 a) s n = stride_addrs a s n.
Proof. apply list_fmap_ext. intros i x _. apply u64_add_l. Qed.

Lemma walk_stride s m a cs :
  walk (replicate m s) (u64 a) cs =
  (u64 (a + s * Z.of_nat m), cs ++ stride_addrs a s (Z.of_nat m)).
Proof.
  revert a cs. induction m as [|m IH]; intros a cs.
  - simpl. rewrite Z.mul_0_r, Z.add_0_r. by rewrite app_nil_r.
  - simpl replicate. simpl walk. rewrite u64_add_l, IH. f_equal.
    + f_equal. lia.
    + rewrite <- app_assoc. f_equal.
      replace (Z.of_nat (S m)) with (1 + Z.of_nat m) by lia.
      rewrite <- (stride_addrs_app a s 1) by lia.
      change (stride_addrs a s 1) with [u64 (a + s * 1)].
      by rewrite !Z.mul_1_r.
Qed.

(** Number of candidates of [m + 1] equal deltas before the last one. *)
Definition triangle (m : nat) : Z := Z.of_nat m * (Z.of_nat m + 1) / 2.

Lemma triangle_S m : triangle (S m) = Z.of_nat (S m) + triangle m.
Proof.
  unfold triangle. rewrite Nat2Z.inj_succ. unfold Z.succ.
  replace ((Z.of_nat m + 1) * (Z.of_nat m + 1 + 1))
    with (Z.of_nat m * (Z.of_nat m + 1) + (Z.of_nat m + 1) * 2) by lia.
  rewrite Z.div_add by done. lia.
Qed.

Lemma triangle_nonneg m : 0 <= triangle m.
Proof. unfold triangle. apply Z.div_pos; lia. Qed.

Lemma corr_loop_cons2 d1 d2 u v vs a cs :
  corr_loop d1 d2 (u :: v :: vs) a cs =
  if (u =? d1) && (v =? d2)
  then corr_loop d1 d2 (v :: vs) (walk (v :: vs) a cs).1 (walk (v :: vs) a cs).2
  else corr_loop d1 d2 (v :: vs) a cs.
Proof. by simpl; destruct (walk vs _ _). Qed.

Lemma corr_loop_stride s m a cs :
  corr_loop s s (replicate (S m) s) (u64 a) cs = cs ++ stride_addrs a s (triangle m).
Proof.
  revert a cs. induction m as [|m IH]; intros a cs.
  { simpl. by rewrite app_nil_r. }
  simpl replicate. rewrite corr_loop_cons2, Z.eqb_refl. simpl andb. cbv iota.
  change (s :: replicate m s) with (replicate (S m) s).
  rewrite walk_stride. simpl fst. simpl snd.
  rewrite IH, <- app_assoc, triangle_S. f_equal.
  apply stride_addrs_app; [lia|apply triangle_nonneg].
Qed.

Lemma delta_correlation_stride p a s n :
  (2 <= n)%nat → is_u64 a →
  delta_correlation (mkEntry p a 0 (replicate n s)) = stride_addrs a s (triangle (n - 2)).
Proof.
  intros Hn Ha. unfold delta_correlation. simpl.
  rewrite <- (reverse_involutive (replicate n s)), reverse_replicate. 
  unfold reverse. rewrite <- rev_alt, rev_involutive.
  destruct n as [|[|n]]; [lia..|]. simpl replicate. cbv iota.
  change (s :: replicate n s) with (replicate (S n) s).
  rewrite <- (u64_small a) at 1 by done. rewrite corr_loop_stride. simpl.
  by rewrite Nat.sub_0_r.
Qed.

End Correlation.

(** ** Filtering and issuing *)

Section Filtering.
Context (v : View).

Lemma to_block_eq a : is_u64 a → to_block a = a / 64 * 64.
Proof. intros Ha. unfold to_block, BLOCK_SIZE. apply u64_small. ilia. Qed.

Lemma to_block_aligned a : is_u64 a → block_aligned (to_block a).
Proof. intros Ha. rewrite to_block_eq by done. unfold block_aligned, BLOCK_SIZE. lia. Qed.

Definition in_flight_ok (inf : gset Z) : Prop :=
  Z.of_nat (size inf) <= MAX_QUEUE_SIZE ∧
  ∀ b, b ∈ inf → block_aligned b ∧ 0 <= b <= MAX_PHYS_MEM_ADDR.

(** What the filter promises of an address it lets through, relative to the
    in-flight set [inf0] it started from. *)
Definition accepted (inf0 inf : gset Z) (a : Z) : Prop :=
  0 <= a <= MAX_PHYS_MEM_ADDR ∧ in_mshr_queue v a = false ∧ in_cache v a = false ∧
  to_block a ∉ inf0 ∧ to_block a ∈ inf.

Definition filter_inv (inf0 : gset Z) (acc : gset Z * list Z) : Prop :=
  inf0 ⊆ acc.1 ∧ in_flight_ok acc.1 ∧
  Forall (accepted inf0 acc.1) acc.2 ∧ NoDup (to_block <$> acc.2).

Lemma prefetch_wanted_spec inf a :
  prefetch_wanted v inf a = true ↔
  a <= MAX_PHYS_MEM_ADDR ∧ to_block a ∉ inf ∧ in_mshr_queue v a = false ∧ in_cache v a = false.
Proof.
  unfold prefetch_wanted.
  rewrite !andb_true_iff, !negb_true_iff, bool_decide_eq_false, Z.leb_le. tauto.
Qed.

Lemma filter_inv_nil inf0 inf ps : filter_inv inf0 (inf, ps) → filter_inv inf0 (inf, []).
Proof. intros (H1 & H2 & _). split_and!; simpl in *; try done; constructor. Qed.

Lemma filter_inv_push inf0 inf ps a :
  is_u64 a → prefetch_wanted v inf a = true → Z.of_nat (size inf) < MAX_QUEUE_SIZE →
  filter_inv inf0 (inf, ps) → filter_inv inf0 ({[to_block a]} ∪ inf, ps ++ [a]).
Proof.
  intros Ha (Hle & Hni & Hm & Hc)%prefetch_wanted_spec Hsz (Hsub & [Hmax Hal] & Hacc & Hnd).
  simpl in *. assert (0 <= a) by (unfold is_u64 in Ha; lia).
  split_and!; simpl.
  - set_solver.
  - split; [rewrite size_union, size_singleton by set_solver; lia|].
    intros b [->%elem_of_singleton|Hb]%elem_of_union; [|by apply Hal].
    split; [by apply to_block_aligned|]. rewrite to_block_eq by done. lia.
  - apply Forall_app; split.
    + eapply Forall_impl; [exact Hacc|]. intros x ([??]&?&?&?&?). split_and!; try done. set_solver.
    + constructor; [|constructor]. split_and!; try done; set_solver.
  - rewrite fmap_app. apply NoDup_app. split_and!; [done| |apply NoDup_singleton].
    intros x Hx Hx'. simpl in Hx'. apply list_elem_of_singleton in Hx' as ->.
    apply list_elem_of_fmap in Hx as (y & E & Hy).
    rewrite Forall_forall in Hacc. apply Hacc in Hy as (_&_&_&_&Hy). congruence.
Qed.

Lemma filter_step_inv lp inf0 acc a :
  is_u64 a → filter_inv inf0 acc → filter_inv inf0 (filter_step v lp acc a).
Proof.
  intros Ha Hinv. destruct acc as [inf ps]. unfold filter_step.
  destruct (prefetch_wanted v inf a) eqn:Hw;
    [destruct (Z.ltb_spec (Z.of_nat (size inf)) MAX_QUEUE_SIZE)|];
    destruct (a =? lp); eauto using filter_inv_push, filter_inv_nil.
Qed.

Lemma prefetch_filter_inv inf e cs :
  Forall is_u64 cs → in_flight_ok inf → filter_inv inf (prefetch_filter v inf e cs).
Proof.
  intros Hcs Hok. unfold prefetch_filter.
  assert (filter_inv inf (inf, [])) as Hi by (split_and!; try done; constructor).
  revert Hi. generalize (inf, @nil Z). induction Hcs; intros acc Hi; [done|].
  simpl. auto using filter_step_inv.
Qed.

(** With a full in-flight set the filter is inert. *)
Lemma prefetch_filter_full inf e cs :
  MAX_QUEUE_SIZE <= Z.of_nat (size inf) → prefetch_filter v inf e cs = (inf, []).
Proof.
  intros Hsz. unfold prefetch_filter. induction cs as [|a cs IH]; [done|].
  simpl. destruct (prefetch_wanted v inf a); rewrite ?(proj2 (Z.ltb_ge _ _)) by done;
    by destruct (a =? _).
Qed.

Lemma issue_loop_spec k ps :
  issued (issue_loop v k ps) =
  if MAX_QUEUE_SIZE <=? current_queue_size v then [] else take (Z.to_nat (MAX_DEGREE - k)) ps.
Proof.
  destruct (MAX_QUEUE_SIZE <=? current_queue_size v) eqn:Hq.
  { destruct ps; [done|]. cbn [issue_loop]. by rewrite Hq. }
  revert k. induction ps as [|a ps IH]; intros k.
  { by rewrite take_nil. }
  cbn [issue_loop]. rewrite Hq. simpl orb. destruct (Z.leb_spec MAX_DEGREE k).
  - by replace (Z.to_nat (MAX_DEGREE - k)) with 0%nat by lia.
  - rewrite issued_cons, IH.
    by replace (Z.to_nat (MAX_DEGREE - k)) with (S (Z.to_nat (MAX_DEGREE - (k + 1)))) by lia.
Qed.

End Filtering.

(** ** The state invariant *)

Definition entry_ok (i : nat) (e : Entry) : Prop :=
  is_u64 (e_pc e) ∧ is_u64 (e_last_address e) ∧ e_last_prefetch e = 0 ∧
  Z.of_nat (length (e_deltas e)) <= NUM_DELTAS ∧
  Forall (λ d, DELTA_MIN <= d <= DELTA_MAX) (e_deltas e) ∧
  (e_pc e = 0 ∨ table_index (e_pc e) = i).

Definition dcpt_ok (s : Dcpt) : Prop :=
  Z.of_nat (length (table s)) = TABLE_SIZE ∧
  (∀ i e, table s !! i = Some e → entry_ok i e) ∧
  in_flight_ok (in_flight s).

(** Every state the callbacks can reach, whatever the simulator answers. *)
Inductive dcpt_reach : Dcpt → Prop :=
  | reach_init : dcpt_reach Dcpt_globals
  | reach_access v s st : dcpt_reach s → stat_ok st → dcpt_reach (dcpt_access v s st).1
  | reach_complete s a : dcpt_reach s → is_u64 a → dcpt_reach (dcpt_complete s a).1.

Section Invariant.

Lemma entry_new_ok p a : is_u64 p → is_u64 a → entry_ok (table_index p) (Entry_new p a).
Proof. intros Hp Ha. split_and!; simpl; try done; by right || constructor. Qed.

Lemma insert_delta_ok i e d : entry_ok i e → entry_ok i (insert_delta e d).
Proof.
  intros (Hp & Ha & Hl & Hlen & Hr & Hi). unfold insert_delta.
  destruct (_ || _) eqn:E; [by split_and!|]. zbool.
  assert (Forall (λ d, DELTA_MIN <= d <= DELTA_MAX) (e_deltas e ++ [d])) as Hr'.
  { apply Forall_app; split; [done|]. repeat constructor; lia. }
  destruct (Z.ltb_spec NUM_DELTAS (Z.of_nat (length (e_deltas e ++ [d])))) as [Hlt|Hge];
    split_and!; simpl; try done.
  - destruct (e_deltas e ++ [d]) as [|x l] eqn:El; [simpl in *; lia|].
    simpl in *.
    assert (length (x :: l) = S (length (e_deltas e))) as Hx
      by (rewrite <- El, length_app; simpl; lia). simpl in Hx. lia.
  - by destruct (e_deltas e ++ [d]); [|inversion Hr'].
Qed.

Lemma set_last_address_ok i e a :
  is_u64 a → entry_ok i e → entry_ok i (set_last_address e a).
Proof. intros Ha (Hp & _ & Hl & Hlen & Hr & Hi). by split_and!. Qed.

Lemma insert_ok (tbl : list Entry) i e :
  (∀ j e, tbl !! j = Some e → entry_ok j e) → entry_ok i e →
  ∀ j e', <[i := e]> tbl !! j = Some e' → entry_ok j e'.
Proof. intros Ht He j e' [(<-&<-&_)|(_&?)]%list_lookup_insert_Some; eauto. Qed.

Lemma table_index_lookup s p :
  dcpt_ok s → is_u64 p → ∃ e, table s !! table_index p = Some e ∧ entry_ok (table_index p) e.
Proof.
  intros (Hlen & He & _) Hp.
  destruct (lookup_lt_is_Some_2 (table s) (table_index p)) as [e Hl]; [|eauto].
  unfold table_index, TABLE_SIZE in *. lia.
Qed.

(** The whole of [prefetch_access], by its three branches. *)
Lemma dcpt_access_cases v s st e :
  table s !! table_index (pc st) = Some e →
  dcpt_access v s st =
  if decide (e_pc e = pc st) then
    if decide (mem_addr st = e_last_address e) then (s, [])
    else
      let e' := set_last_address
                  (insert_delta e (s32 (u64 (mem_addr st - e_last_address e)))) (mem_addr st) in
      let f := prefetch_filter v (in_flight s) e' (delta_correlation e') in
      (mkDcpt (<[table_index (pc st) := e']> (table s)) f.1, issue_prefetches v f.2)
  else (mkDcpt (<[table_index (pc st) := Entry_new (pc st) (mem_addr st)]> (table s))
          (in_flight s), []).
Proof.
  intros He. unfold dcpt_access. rewrite He. simpl.
  destruct (Z.eqb_spec (e_pc e) (pc st)), (decide (e_pc e = pc st)); try done.
  destruct (Z.eqb_spec (mem_addr st) (e_last_address e)),
    (decide (mem_addr st = e_last_address e)); try done.
  simpl. by destruct (prefetch_filter _ _ _ _).
Qed.

Lemma dcpt_access_ok v s st : stat_ok st → dcpt_ok s → dcpt_ok (dcpt_access v s st).1.
Proof.
  intros [Hp Ha] Hok. destruct (table_index_lookup s (pc st) Hok Hp) as (e & Hl & He).
  rewrite (dcpt_access_cases v s st e Hl). destruct Hok as (Hlen & Hes & Hf).
  destruct (decide _) as [E|]; [destruct (decide _); [by split_and!|]|].
  - set (e' := set_last_address _ _).
    assert (entry_ok (table_index (pc st)) e') as He'
      by (apply set_last_address_ok, insert_delta_ok; done).
    split_and!; simpl; [by rewrite length_insert|by apply insert_ok|].
    apply prefetch_filter_inv; [|done].
    apply delta_correlation_u64. apply He'.
  - split_and!; simpl; [by rewrite length_insert| |done].
    apply insert_ok; [done|]. by apply entry_new_ok.
Qed.

Lemma in_flight_ok_remove inf X : in_flight_ok inf → in_flight_ok (inf ∖ X).
Proof.
  intros [Hs Hb]. split; [|set_solver].
  assert (size (inf ∖ X) ≤ size inf)%nat by (apply subseteq_size; set_solver). lia.
Qed.

Lemma dcpt_globals_ok : dcpt_ok Dcpt_globals.
Proof.
  split_and!.
  - done.
  - intros i e [-> _]%lookup_replicate. split_and!; simpl; try done; by left || constructor.
  - split; [done|]. intros b Hb. by apply not_elem_of_empty in Hb.
Qed.

End Invariant.

#[export] Hint Resolve dcpt_access_ok dcpt_globals_ok in_flight_ok_remove : m5.

(** ** Properties *)

Lemma dcpt_reach_ok s : dcpt_reach s → dcpt_ok s.
Proof.
  induction 1 as [|v s st _ IH Hst|s a _ [? [??]] _]; eauto with m5.
  split_and!; simpl; try done. by apply in_flight_ok_remove.
Qed.

(** C1. In every state the callbacks of the DCPT prefetcher can reach, whatever
    the simulator answers: the table has 98 rows, a row holds at most 19 deltas
    of 12 signed bits and belongs to the program counter it is indexed by,
    [last_prefetch] is 0, and the in-flight set holds at most 100 block-aligned
    physical addresses. *)
Theorem dcpt_invariant s : dcpt_reach s → dcpt_ok s.
Proof. apply dcpt_reach_ok. Qed.

Definition demo_view : View := mkView (λ _, false) (λ _, false) (λ _, false) 0.
Definition demo_stat (p a : Z) : AccessStat := mkAccessStat p a 0 true.

Lemma dcpt_invariant_witness :
  dcpt_ok (dcpt_access demo_view Dcpt_globals (demo_stat 4096 640)).1.
Proof. apply dcpt_invariant, reach_access; [apply reach_init|done]. Defined.

(** What a call of [prefetch_access] may ask of the simulator. *)
Definition issue_safe (v : View) (inf inf' : gset Z) (addrs : list Z) : Prop :=
  Forall (accepted v inf inf') addrs ∧ NoDup (to_block <$> addrs) ∧
  Z.of_nat (length addrs) <= MAX_DEGREE ∧
  (MAX_QUEUE_SIZE <= current_queue_size v → addrs = []).

Lemma issue_prefetches_safe v inf inf' ps :
  filter_inv v inf (inf', ps) → issue_safe v inf inf' (issued (issue_prefetches v ps)).
Proof.
  intros (_ & _ & Hacc & Hnd). unfold issue_prefetches. rewrite issue_loop_spec.
  destruct (Z.leb_spec MAX_QUEUE_SIZE (current_queue_size v)).
  { split_and!; try done; constructor. }
  split_and!.
  - by apply Forall_take.
  - rewrite fmap_take. eapply sublist_NoDup; [exact Hnd|]. apply sublist_take.
  - rewrite length_take. unfold MAX_DEGREE, NUM_DELTAS. lia.
  - lia.
Qed.

Lemma dcpt_access_safe v s st :
  dcpt_ok s → stat_ok st →
  issue_safe v (in_flight s) (in_flight (dcpt_access v s st).1) (issued (dcpt_access v s st).2).
Proof.
  intros Hok [Hp Ha]. destruct (table_index_lookup s (pc st) Hok Hp) as (e & Hl & He).
  rewrite (dcpt_access_cases v s st e Hl). destruct Hok as (_ & _ & Hf).
  assert (∀ inf, issue_safe v inf inf (issued [])) by (intros; split_and!; try done; constructor).
  destruct (decide _); [destruct (decide _); [done|]|done].
  cbv zeta. destruct (prefetch_filter _ _ _ _) as [inf' ps] eqn:Ef. simpl.
  apply issue_prefetches_safe. rewrite <- Ef. apply prefetch_filter_inv; [|done].
  by apply delta_correlation_u64, (set_last_address_ok (table_index (pc st))), insert_delta_ok.
Qed.

(** C2. Every prefetch an access issues is for a physical address whose block is
    neither in the cache nor in the MSHR queue nor already in flight, and is
    recorded in flight; no block is issued twice; at most 19 prefetches are
    issued per access and none while the prefetch queue is full. *)
Theorem dcpt_issues_safely v s st :
  dcpt_reach s → stat_ok st →
  issue_safe v (in_flight s) (in_flight (dcpt_access v s st).1) (issued (dcpt_access v s st).2).
Proof. intros Hs Hst. apply dcpt_access_safe; [by apply dcpt_reach_ok|done]. Qed.

Lemma dcpt_issues_safely_witness :
  issue_safe demo_view ∅ (in_flight (dcpt_access demo_view Dcpt_globals (demo_stat 0 64)).1)
    (issued (dcpt_access demo_view Dcpt_globals (demo_stat 0 64)).2).
Proof. apply (dcpt_issues_safely demo_view Dcpt_globals); [apply reach_init|done]. Defined.

(** A sequence of accesses. *)
Definition dcpt_run (v : View) (s : Dcpt) (sts : list AccessStat) : Dcpt :=
  foldl (λ s st, (dcpt_access v s st).1) s sts.

Lemma dcpt_reach_run v s sts :
  dcpt_reach s → Forall stat_ok sts → dcpt_reach (dcpt_run v s sts).
Proof.
  intros Hs Hst. revert s Hs. induction Hst; intros s Hs; [done|].
  apply (IHHst (dcpt_access v s x).1). by apply reach_access.
Qed.

Section Training.
Context (v : View) (p stride : Z).
Hypothesis Hp : is_u64 p.
Hypothesis Hstride : stride ≠ 0 ∧ DELTA_MIN <= stride <= DELTA_MAX.

(** The row of an instruction that has seen [m] strides up to address [a]. *)
Definition trained (m : nat) (a : Z) : Entry :=
  mkEntry p a 0 (replicate (m `min` Z.to_nat NUM_DELTAS) stride).

Lemma insert_delta_trained m a :
  set_last_address (insert_delta (trained m a) stride) (a + stride) =
  trained (S m) (a + stride).
Proof.
  unfold insert_delta, trained, set_last_address.
  rewrite (proj2 (Z.ltb_ge _ _)), (proj2 (Z.ltb_ge _ _)) by lia.
  cbn [orb e_pc e_last_address e_last_prefetch e_deltas].
  rewrite <- replicate_cons_app, length_cons, length_replicate.
  f_equal. destruct (Z.ltb_spec NUM_DELTAS (Z.of_nat (S (m `min` Z.to_nat NUM_DELTAS)))).
  - cbn [tail]. f_equal. unfold NUM_DELTAS in *. lia.
  - change (stride :: replicate ?n stride) with (replicate (S n) stride).
    f_equal. unfold NUM_DELTAS in *. lia.
Qed.

Lemma train_step s st m a :
  dcpt_ok s → is_u64 a → is_u64 (a + stride) →
  pc st = p → mem_addr st = a + stride →
  table s !! table_index p = Some (trained m a) →
  table (dcpt_access v s st).1 !! table_index p = Some (trained (S m) (a + stride)).
Proof.
  intros Hok Ha Ha' Hpc Hm Hl.
  rewrite (dcpt_access_cases v s st (trained m a)) by (by rewrite Hpc).
  destruct (decide _) as [_|Hne]; [|by rewrite Hpc in Hne].
  destruct (decide _) as [Heq|_]; [simpl in Heq; lia|]. simpl.
  rewrite Hpc, Hm, list_lookup_insert_eq by (by eapply lookup_lt_Some).
  f_equal. rewrite <- insert_delta_trained. do 2 f_equal.
  unfold DELTA_MIN, DELTA_MAX, DELTA_BITS in Hstride.
  change (Z.shiftl 1 (12 - 1)) with 2048 in Hstride. simpl. ilia.
Qed.

Lemma train_run sts : ∀ s m a,
  dcpt_ok s → table s !! table_index p = Some (trained m a) → is_u64 a →
  (∀ k st, sts !! k = Some st →
     pc st = p ∧ mem_addr st = a + stride * (Z.of_nat k + 1) ∧ is_u64 (mem_addr st)) →
  table (dcpt_run v s sts) !! table_index p =
  Some (trained (m + length sts) (a + stride * Z.of_nat (length sts))).
Proof.
  induction sts as [|st sts IH]; intros s m a Hok Hl Ha Hst; simpl.
  { by rewrite Nat.add_0_r, Z.mul_0_r, Z.add_0_r. }
  destruct (Hst 0%nat st eq_refl) as (Hpc & Hm & Hu).
  replace (a + stride * (Z.of_nat 0 + 1)) with (a + stride) in Hm by lia.
  assert (is_u64 (a + stride)) by (by rewrite <- Hm).
  rewrite (IH _ (S m) (a + stride)).
  - do 2 f_equal; lia.
  - apply dcpt_access_ok; [|done]. split; [by rewrite Hpc|done].
  - by apply train_step.
  - done.
  - intros k st' Hk. destruct (Hst (S k) st' Hk) as (? & E & ?).
    split_and!; [done| |done]. rewrite E. lia.
Qed.

End Training.

(** C3. A load instruction that walks memory with a constant non-zero stride of
    at most 12 bits is learned exactly: after its first access (to [a]) and [n]
    further ones its row holds the stride [min n 19] times and, for [n >= 2],
    delta correlation predicts precisely the addresses [stride] apart that
    follow the last access, in order. *)
Theorem dcpt_learns_stride v s p a stride st0 sts :
  dcpt_reach s → is_u64 p → is_u64 a →
  stride ≠ 0 ∧ DELTA_MIN <= stride <= DELTA_MAX →
  (∀ e, table s !! table_index p = Some e → e_pc e ≠ p) →
  pc st0 = p → mem_addr st0 = a →
  (∀ k st, sts !! k = Some st →
     pc st = p ∧ mem_addr st = a + stride * (Z.of_nat k + 1) ∧ is_u64 (mem_addr st)) →
  (2 ≤ length sts)%nat →
  let last := a + stride * Z.of_nat (length sts) in
  let cnt := (length sts `min` Z.to_nat NUM_DELTAS)%nat in
  ∃ e, table (dcpt_run v s (st0 :: sts)) !! table_index p = Some e ∧
    e_last_address e = last ∧ e_deltas e = replicate cnt stride ∧
    delta_correlation e = stride_addrs last stride (triangle (cnt - 2)).
Proof.
  intros Hr Hp Ha Hs Hnew Hpc Hm Hst Hlen last cnt.
  apply dcpt_reach_ok in Hr.
  destruct (table_index_lookup s p Hr Hp) as (e0 & Hl0 & _).
  assert (is_u64 last) as Hlast.
  { destruct (lookup_lt_is_Some_2 sts (length sts - 1)) as [st Hk]; [lia|].
    destruct (Hst _ _ Hk) as (_ & E & Hu). unfold last. rewrite E in Hu.
    by replace (Z.of_nat (length sts - 1) + 1) with (Z.of_nat (length sts)) in Hu by lia. }
  exists (trained p stride (length sts) last).
  split_and!; [|done|done|].
  - unfold dcpt_run. simpl.
    apply (train_run v p stride Hp Hs sts _ 0); [| |done|done].
    + apply dcpt_access_ok; [by split; rewrite ?Hpc, ?Hm|done].
    + rewrite (dcpt_access_cases v s st0 e0) by (by rewrite Hpc).
      destruct (decide _) as [E|_]; [exfalso; apply (Hnew e0); congruence|]. simpl.
      rewrite Hpc, Hm, list_lookup_insert_eq by (by eapply lookup_lt_Some). done.
  - apply delta_correlation_stride; [|done]. unfold cnt, NUM_DELTAS. lia.
Qed.

Lemma dcpt_learns_stride_witness :
  ∃ e, table (dcpt_run demo_view Dcpt_globals
               (demo_stat 4096 640 :: [demo_stat 4096 704; demo_stat 4096 768;
                                       demo_stat 4096 832; demo_stat 4096 896]))
         !! table_index 4096 = Some e ∧
    e_last_address e = 896 ∧ e_deltas e = [64; 64; 64; 64] ∧
    delta_correlation e = [960; 1024; 1088].
Proof.
  apply (dcpt_learns_stride demo_view Dcpt_globals 4096 640 64); try done.
  - apply reach_init.
  - intros e He. vm_compute in He. injection He as <-. done.
  - intros k st Hk. do 4 (destruct k as [|k]; [injection Hk as <-; done|]). done.
  - simpl. lia.
Defined.

(** ** Blocks that are never released

    The simulator reports the completion of a prefetch only after it has been issued:
    the state with the blocks of the prefetches that are outstanding. *)
Definition blocks_of (l : list Z) : gset Z := list_to_set (to_block <$> l).

Inductive sim_run : gset Z * Dcpt → list Z → gset Z * Dcpt → Prop :=
  | run_done x : sim_run x [] x
  | run_access v O s st l y :
      stat_ok st → sim_run (blocks_of (issued (dcpt_access v s st).2) ∪ O, (dcpt_access v s st).1) l y →
      sim_run (O, s) (issued (dcpt_access v s st).2 ++ l) y
  | run_complete a O s l y :
      is_u64 a → to_block a ∈ O → sim_run (O ∖ {[to_block a]}, (dcpt_complete s a).1) l y → sim_run (O, s) l y.

Section Leak.

Lemma dcpt_access_keeps v s st : dcpt_ok s → stat_ok st → in_flight s ⊆ in_flight (dcpt_access v s st).1.
Proof.
  intros Hok [Hp Ha]. destruct (table_index_lookup s (pc st) Hok Hp) as (e & Hl & He).
  rewrite (dcpt_access_cases v s st e Hl). destruct Hok as (_ & _ & Hf).
  destruct (decide _); [destruct (decide _); [done|]|done]. cbv zeta.
  apply (prefetch_filter_inv v (in_flight s)); [|done].
  by apply delta_correlation_u64, (set_last_address_ok (table_index (pc st))), insert_delta_ok.
Qed.

Lemma dcpt_complete_ok s a : dcpt_ok s → dcpt_ok (dcpt_complete s a).1.
Proof. intros (Hl & He & Hf). split_and!; [done|done|]. by apply in_flight_ok_remove. Qed.

Lemma dcpt_access_full v s st :
  dcpt_ok s → stat_ok st → MAX_QUEUE_SIZE <= Z.of_nat (size (in_flight s)) → (dcpt_access v s st).2 = [].
Proof.
  intros Hok [Hp _] Hfull. destruct (table_index_lookup s (pc st) Hok Hp) as (e & Hl & _).
  rewrite (dcpt_access_cases v s st e Hl). destruct (decide _); [destruct (decide _); [done|]|done].
  cbv zeta. by rewrite prefetch_filter_full.
Qed.

Lemma elem_of_blocks b l : b ∈ blocks_of l ↔ ∃ a, a ∈ l ∧ to_block a = b.
Proof.
  unfold blocks_of. rewrite elem_of_list_to_set, list_elem_of_fmap. split; intros (a & H1 & H2); exists a; by split.
Qed.

(** Outstanding blocks are in flight. *)
Lemma sim_run_ok x l y : sim_run x l y → dcpt_ok x.2 → x.1 ⊆ in_flight x.2 → dcpt_ok y.2 ∧ y.1 ⊆ in_flight y.2.
Proof.
  induction 1 as [|v O s st l y Hst _ IH|a O s l y Ha HO _ IH]; [done|..]; cbn [fst snd] in *; intros Hok Hin; apply IH.
  - by apply dcpt_access_ok.
  - destruct (dcpt_access_safe v s st Hok Hst) as (Hacc & _). rewrite Forall_forall in Hacc.
    intros b [(a & Ha & <-)%elem_of_blocks|Hb]%elem_of_union; [by apply Hacc|]. apply dcpt_access_keeps; auto.
  - by apply dcpt_complete_ok.
  - cbn. set_solver.
Qed.

(** Blocks in flight that are not outstanding stay, and are not issued. *)
Lemma stuck_stays x l y X :
  sim_run x l y → dcpt_ok x.2 → X ⊆ in_flight x.2 → X ## x.1 →
  X ⊆ in_flight y.2 ∧ X ## y.1 ∧ ∀ a, a ∈ l → to_block a ∉ X.
Proof.
  induction 1 as [|v O s st l y Hst _ IH|a O s l y Ha HO _ IH]; cbn [fst snd] in *; intros Hok Hin Hd.
  - split_and!; [done|done|]. intros a Ha. by apply elem_of_nil in Ha.
  - destruct (dcpt_access_safe v s st Hok Hst) as (Hacc & _). rewrite Forall_forall in Hacc.
    assert (∀ a, a ∈ issued (dcpt_access v s st).2 → to_block a ∉ X) as Hno.
    { intros a Ha Hx. destruct (Hacc a Ha) as (_ & _ & _ & Hn & _). set_solver. }
    destruct IH as (H1 & H2 & H3); [by apply dcpt_access_ok| | |].
    + etransitivity; [exact Hin|by apply dcpt_access_keeps].
    + intros b Hb [(a & Ha & <-)%elem_of_blocks|HO]%elem_of_union; [by apply (Hno a)|set_solver].
    + split_and!; [done|done|]. intros a [Ha|Ha]%elem_of_app; [by apply Hno|by apply H3].
  - apply IH; [by apply dcpt_complete_ok|cbn; set_solver|set_solver].
Qed.

(** Full of such blocks, the set lets nothing through. *)
Lemma full_silent x l y :
  sim_run x l y → dcpt_ok x.2 → MAX_QUEUE_SIZE <= Z.of_nat (size (in_flight x.2 ∖ x.1)) → l = [].
Proof.
  assert (∀ X Y : gset Z, X ⊆ Y → MAX_QUEUE_SIZE <= Z.of_nat (size X) → MAX_QUEUE_SIZE <= Z.of_nat (size Y)) as Hle.
  { intros X Y H%subseteq_size. lia. }
  induction 1 as [|v O s st l y Hst _ IH|a O s l y Ha HO _ IH]; cbn [fst snd] in *; intros Hok Hfull; [done|..].
  - pose proof (dcpt_access_keeps v s st Hok Hst) as Hkeep.
    rewrite (dcpt_access_full v s st Hok Hst) in * by (eapply Hle; [|exact Hfull]; set_solver).
    cbn [issued omap list_omap app] in *. apply IH; [by apply dcpt_access_ok|]. eapply Hle; [|exact Hfull].
    unfold blocks_of. set_solver.
  - apply IH; [by apply dcpt_complete_ok|]. eapply Hle; [|exact Hfull]. cbn. set_solver.
Qed.

End Leak.

(** C40. The in-flight set leaks.  In any run of the simulator, in which only prefetches
    that were issued complete: a block that an access puts into the in-flight set without
    issuing it - all blocks it puts there when the prefetch queue is full, since it issues
    nothing then - stays in the set through every later access and completion, and no
    later access issues a prefetch of that block.  Once 100 such blocks are in the set
    nothing is issued any more. *)
Theorem dcpt_in_flight_leak l0 O s :
  sim_run (∅, Dcpt_globals) l0 (O, s) →
  (∀ v st b, stat_ok st → let r := dcpt_access v s st in
     b ∈ in_flight r.1 → b ∉ in_flight s → b ∉ blocks_of (issued r.2) →
     ∀ l y, sim_run (blocks_of (issued r.2) ∪ O, r.1) l y → b ∈ in_flight y.2 ∧ ∀ a, a ∈ l → to_block a ≠ b) ∧
  (∀ v st, stat_ok st → MAX_QUEUE_SIZE <= current_queue_size v → issued (dcpt_access v s st).2 = []) ∧
  (MAX_QUEUE_SIZE <= Z.of_nat (size (in_flight s ∖ O)) → ∀ l y, sim_run (O, s) l y → l = []).
Proof.
  intros H0. destruct (sim_run_ok _ _ _ H0 dcpt_globals_ok) as [Hok Hin]; [set_solver|]. cbn [fst snd] in *.
  split_and!.
  - intros v st b Hst Hb Hn Hi l y Hrun.
    destruct (stuck_stays _ _ _ {[b]} Hrun) as (H1 & _ & H3); cbn [fst snd]; [by apply dcpt_access_ok|set_solver|set_solver|].
    split; [set_solver|]. intros a Ha E. apply (H3 a Ha). set_solver.
  - intros v st Hst Hq. destruct (dcpt_access_safe v s st Hok Hst) as (_ & _ & _ & H). auto.
  - intros Hfull l y Hrun. by apply (full_silent _ _ _ Hrun).
Qed.

(** A view of the simulator with a full prefetch queue: the fourth access of a stream
    puts the block at 896 into the set and issues nothing. *)
Definition full_view : View := mkView (λ _, false) (λ _, false) (λ _, false) 100.
Definition demo_stream : list AccessStat := [demo_stat 4096 640; demo_stat 4096 704; demo_stat 4096 768].

Lemma demo_stream_run : sim_run (∅, Dcpt_globals) [] (∅, dcpt_run full_view Dcpt_globals demo_stream).
Proof.
  assert (∀ sts s, Forall stat_ok sts → Forall (λ n, issued (dcpt_access full_view (dcpt_run full_view s (take n sts))
    (nth n sts (demo_stat 0 0))).2 = []) (seq 0 (length sts)) → sim_run (∅, s) [] (∅, dcpt_run full_view s sts)) as H.
  { induction sts as [|st sts IH]; intros s Hst Hi; [apply run_done|]. apply Forall_cons in Hst as [H1 H2].
    cbn [length seq] in Hi. apply Forall_cons in Hi as [Hi Hr]. cbn [take nth dcpt_run foldl] in Hi.
    rewrite <- (app_nil_l []), <- Hi at 1. apply run_access; [done|]. rewrite Hi. unfold blocks_of. cbn [fmap list_fmap list_to_set].
    replace (∅ ∪ ∅ : gset Z) with (∅ : gset Z) by set_solver. apply IH; [done|].
    rewrite <- seq_shift, Forall_map in Hr. eapply Forall_impl; [exact Hr|]. intros n Hn. exact Hn. }
  apply H; [by repeat constructor|]. repeat constructor; vm_compute; reflexivity.
Qed.

(** The block is still there after another access, for which the queue has room. *)
Lemma dcpt_in_flight_leak_witness :
  let s := dcpt_run full_view Dcpt_globals demo_stream in
  let r := dcpt_access full_view s (demo_stat 4096 832) in
  let r2 := dcpt_access demo_view r.1 (demo_stat 4096 896) in
  issued r.2 = [] ∧ 896 ∈ in_flight r2.1 ∧ ∀ a, a ∈ issued r2.2 → to_block a ≠ 896.
Proof.
  cbv zeta. assert (stat_ok (demo_stat 4096 832) ∧ stat_ok (demo_stat 4096 896)) as [H1 H2] by done.
  assert (bool_decide (896 ∈ in_flight (dcpt_access full_view (dcpt_run full_view Dcpt_globals demo_stream) (demo_stat 4096 832)).1) = true ∧
    bool_decide (896 ∈ in_flight (dcpt_run full_view Dcpt_globals demo_stream)) = false) as [Hin Hn] by (split; vm_compute; reflexivity).
  apply bool_decide_eq_true in Hin. apply bool_decide_eq_false in Hn. pose proof demo_stream_run as Hrun.
  revert Hin Hn Hrun. generalize (dcpt_run full_view Dcpt_globals demo_stream). intros s Hin Hn Hrun.
  destruct (dcpt_in_flight_leak [] ∅ s Hrun) as (Hstay & Hq & _). pose proof (Hq full_view _ H1 (Z.le_refl _)) as Hi.
  split; [exact Hi|]. specialize (Hstay full_view _ 896 H1 Hin Hn). cbv zeta in Hstay. rewrite Hi in Hstay.
  set (s1 := (dcpt_access full_view s (demo_stat 4096 832)).1) in *.
  destruct (Hstay (not_elem_of_empty 896) (issued (dcpt_access demo_view s1 (demo_stat 4096 896)).2 ++ [])
    (blocks_of (issued (dcpt_access demo_view s1 (demo_stat 4096 896)).2) ∪ (blocks_of [] ∪ ∅), (dcpt_access demo_view s1 (demo_stat 4096 896)).1))
    as [H3 H4]; [by apply run_access; [|apply run_done]|].
  split; [exact H3|]. intros a Ha. apply H4. by rewrite app_nil_r.
Defined.

(** After a match, the walk replays the deltas older than the matched pair,
    newest first, and not the ones that followed it: on the periodic delta
    sequence 1, 2, 3 (last access at 1000, next deltas 3, 1, 2) the first
    candidate is 1001 although the pattern continues at 1003. *)
Theorem delta_correlation_backwards :
  delta_correlation (mkEntry 0 1000 0 [1; 2; 3; 1; 2; 3; 1; 2]) = [1001; 1004; 1006; 1007; 1008].
Proof. vm_compute. reflexivity. Qed.

(** The contract of the simulator is met. *)
#[export] Instance DcptSafe : SafePrefetcher DcptPrefetcher.
Proof.
  refine {| up_ok := dcpt_ok : @upstate DcptPrefetcher → Prop |}.
  - apply dcpt_globals_ok.
  - intros v s st. apply dcpt_access_ok.
  - intros s a (Hl & He & Hf). split_and!; [done|done|]. by apply in_flight_ok_remove.
  - intros v s st Hst Hok. destruct (dcpt_access_safe v s st Hok Hst) as (Hacc & _).
    eapply Forall_impl; [exact Hacc|]. by intros a (Ha & _).
Qed.
