(* ===== verification/Packet.v ===== *)
(** Memory commands, requests and packets: [src/m5/src/mem/packet.hh],
    [packet.cc], [request.hh] and the flag words of [src/m5/src/base/flags.hh].

    A failed [assert], a [panic] and an access outside of a buffer are [None].
    Packets and requests are values; the data pointer of a packet is the buffer
    it points to ([None] for NULL). *)

From S2P Require Import Prelude.

(** ** Flag words ([Flags<T>]) *)
Module Flags.

Definition isSet (w f : Z) : bool := truthy (Z.land w f).
Definition allSet (w f : Z) : bool := Z.land w f =? f.
Definition noneSet (w f : Z) : bool := Z.land w f =? 0.
Definition set (w f : Z) : Z := Z.lor w f.
Definition clear (w f : Z) : Z := Z.ldiff w f.
Definition set_val (w f : Z) (v : bool) : Z := Z.lor (Z.ldiff w f) (if v then f else 0).
Definition update (w f mask : Z) : Z := Z.lor (Z.ldiff w mask) (Z.land f mask).

End Flags.

(** ** Commands *)
Inductive Command :=
  | InvalidCmd | ReadReq | ReadResp | ReadRespWithInvalidate
  | WriteReq | WriteResp | Writeback
  | SoftPFReq | HardPFReq | SoftPFResp | HardPFResp
  | WriteInvalidateReq | WriteInvalidateResp
  | UpgradeReq | SCUpgradeReq | UpgradeResp | SCUpgradeFailReq | UpgradeFailResp
  | ReadExReq | ReadExResp
  | LoadLockedReq | StoreCondReq | StoreCondResp
  | SwapReq | SwapResp | MessageReq | MessageResp
  | NetworkNackError | InvalidDestError | BadAddressError | PrintReq.

#[export] Instance Command_eq_dec : EqDecision Command.
Proof. solve_decision. Defined.

Inductive Attribute :=
  | IsRead | IsWrite | IsUpgrade | IsPrefetch | IsInvalidate | NeedsExclusive
  | IsRequest | IsResponse | NeedsResponse | IsSWPrefetch | IsHWPrefetch
  | IsLlsc | HasData | IsError | IsPrint.

#[export] Instance Attribute_eq_dec : EqDecision Attribute.
Proof. solve_decision. Defined.

Record CommandInfo := mkInfo {
  attributes : list Attribute;
  response : Command;
  str : string
}.

Definition commandInfo (c : Command) : CommandInfo :=
  match c with
  | InvalidCmd => mkInfo [] InvalidCmd "InvalidCmd"
  | ReadReq => mkInfo [IsRead; IsRequest; NeedsResponse] ReadResp "ReadReq"
  | ReadResp => mkInfo [IsRead; IsResponse; HasData] InvalidCmd "ReadResp"
  | ReadRespWithInvalidate =>
      mkInfo [IsRead; IsResponse; HasData; IsInvalidate] InvalidCmd "ReadRespWithInvalidate"
  | WriteReq =>
      mkInfo [IsWrite; NeedsExclusive; IsRequest; NeedsResponse; HasData] WriteResp "WriteReq"
  | WriteResp => mkInfo [IsWrite; NeedsExclusive; IsResponse] InvalidCmd "WriteResp"
  | Writeback => mkInfo [IsWrite; NeedsExclusive; IsRequest; HasData] InvalidCmd "Writeback"
  | SoftPFReq =>
      mkInfo [IsRead; IsRequest; IsSWPrefetch; NeedsResponse] SoftPFResp "SoftPFReq"
  | HardPFReq =>
      mkInfo [IsRead; IsRequest; IsHWPrefetch; NeedsResponse] HardPFResp "HardPFReq"
  | SoftPFResp => mkInfo [IsRead; IsResponse; IsSWPrefetch; HasData] InvalidCmd "SoftPFResp"
  | HardPFResp => mkInfo [IsRead; IsResponse; IsHWPrefetch; HasData] InvalidCmd "HardPFResp"
  | WriteInvalidateReq =>
      mkInfo [IsWrite; NeedsExclusive; IsInvalidate; IsRequest; HasData; NeedsResponse]
        WriteInvalidateResp "WriteInvalidateReq"
  | WriteInvalidateResp =>
      mkInfo [IsWrite; NeedsExclusive; IsResponse] InvalidCmd "WriteInvalidateResp"
  | UpgradeReq =>
      mkInfo [IsInvalidate; NeedsExclusive; IsUpgrade; IsRequest; NeedsResponse]
        UpgradeResp "UpgradeReq"
  | SCUpgradeReq =>
      mkInfo [IsInvalidate; NeedsExclusive; IsUpgrade; IsLlsc; IsRequest; NeedsResponse]
        UpgradeResp "SCUpgradeReq"
  | UpgradeResp => mkInfo [NeedsExclusive; IsUpgrade; IsResponse] InvalidCmd "UpgradeResp"
  | SCUpgradeFailReq =>
      mkInfo [IsInvalidate; NeedsExclusive; IsLlsc; IsRequest; NeedsResponse]
        UpgradeFailResp "SCUpgradeFailReq"
  | UpgradeFailResp => mkInfo [NeedsExclusive; IsResponse] InvalidCmd "UpgradeFailResp"
  | ReadExReq =>
      mkInfo [IsRead; NeedsExclusive; IsInvalidate; IsRequest; NeedsResponse]
        ReadExResp "ReadExReq"
  | ReadExResp => mkInfo [IsRead; NeedsExclusive; IsResponse; HasData] InvalidCmd "ReadExResp"
  | LoadLockedReq =>
      mkInfo [IsRead; IsLlsc; IsRequest; NeedsResponse] ReadResp "LoadLockedReq"
  | StoreCondReq =>
      mkInfo [IsWrite; NeedsExclusive; IsLlsc; IsRequest; NeedsResponse; HasData]
        StoreCondResp "StoreCondReq"
  | StoreCondResp =>
      mkInfo [IsWrite; NeedsExclusive; IsLlsc; IsResponse] InvalidCmd "StoreCondResp"
  | SwapReq =>
      mkInfo [IsRead; IsWrite; NeedsExclusive; IsRequest; HasData; NeedsResponse]
        SwapResp "SwapReq"
  | SwapResp =>
      mkInfo [IsRead; IsWrite; NeedsExclusive; IsResponse; HasData] InvalidCmd "SwapResp"
  | MessageReq =>
      mkInfo [IsWrite; IsRequest; NeedsResponse; HasData] MessageResp "MessageReq"
  | MessageResp => mkInfo [IsWrite; IsResponse] InvalidCmd "MessageResp"
  | NetworkNackError => mkInfo [IsResponse; IsError] InvalidCmd "NetworkNackError"
  | InvalidDestError => mkInfo [IsResponse; IsError] InvalidCmd "InvalidDestError"
  | BadAddressError => mkInfo [IsResponse; IsError] InvalidCmd "BadAddressError"
  | PrintReq => mkInfo [IsRequest; IsPrint] InvalidCmd "PrintReq"
  end.

Module MemCmd.

Definition testCmdAttrib (c : Command) (a : Attribute) : bool :=
  bool_decide (a ∈ attributes (commandInfo c)).

Definition isRead c := testCmdAttrib c IsRead.
Definition isWrite c := testCmdAttrib c IsWrite.
Definition isUpgrade c := testCmdAttrib c IsUpgrade.
Definition isRequest c := testCmdAttrib c IsRequest.
Definition isResponse c := testCmdAttrib c IsResponse.
Definition needsExclusive c := testCmdAttrib c NeedsExclusive.
Definition needsResponse c := testCmdAttrib c NeedsResponse.
Definition isInvalidate c := testCmdAttrib c IsInvalidate.
Definition hasData c := testCmdAttrib c HasData.
Definition isReadWrite c := isRead c && isWrite c.
Definition isLLSC c := testCmdAttrib c IsLlsc.
Definition isError c := testCmdAttrib c IsError.
Definition isPrint c := testCmdAttrib c IsPrint.
Definition responseCommand (c : Command) : Command := response (commandInfo c).

End MemCmd.

(** ** Requests *)
Module Request.

Definition INST_FETCH : Z := 0x00000100.
Definition UNCACHEABLE : Z := 0x00001000.
Definition MMAPED_IPR : Z := 0x00002000.
Definition NO_ALIGN_FAULT : Z := 0x00020000.
Definition NO_HALF_WORD_ALIGN_FAULT : Z := 0x00040000.
Definition LOCKED : Z := 0x00100000.
Definition LLSC : Z := 0x00200000.
Definition MEM_SWAP : Z := 0x00400000.
Definition MEM_SWAP_COND : Z := 0x00800000.
Definition PREFETCH : Z := 0x01000000.
Definition STICKY_FLAGS : Z := INST_FETCH.

(** A field guarded by a validity flag of [privateFlags] is an option (the
    address space id shares the flag of the virtual address, the thread id
    always has the validity of the context id). *)
Record t := mk {
  paddr : option Z;
  vaddr : option (Z * Z);
  size : option Z;
  flags : Z;
  rtime : Z;
  extraData : option Z;
  context : option (Z * Z);
  pc : option Z
}.

(** [Request()] *)
Definition fresh : t := mk None None None 0 0 None None None.

(** [setPhys]: every validity flag but those of the thread context is cleared. *)
Definition setPhys (r : t) (addr sz fl tm : Z) : option t :=
  if 0 <=? sz
  then Some (mk (Some addr) None (Some sz) (Z.lor (Z.land (flags r) STICKY_FLAGS) fl) tm
               None (context r) None)
  else None.

(** [setVirt]; [vaddr] pairs the address with the address space id. *)
Definition setVirt (r : t) (curTick asid addr sz fl p : Z) : option t :=
  if 0 <=? sz
  then Some (mk None (Some (addr, asid)) (Some sz) (Z.lor (Z.land (flags r) STICKY_FLAGS) fl)
               curTick None (context r) (Some p))
  else None.

Definition setPaddr (r : t) (addr : Z) : option t :=
  match vaddr r with
  | Some _ => Some (mk (Some addr) (vaddr r) (size r) (flags r) (rtime r) (extraData r)
                      (context r) (pc r))
  | None => None
  end.

Definition setThreadContext (r : t) (cid tid : Z) : t :=
  mk (paddr r) (vaddr r) (size r) (flags r) (rtime r) (extraData r) (Some (cid, tid)) (pc r).

Definition setExtraData (r : t) (d : Z) : t :=
  mk (paddr r) (vaddr r) (size r) (flags r) (rtime r) (Some d) (context r) (pc r).

(** The constructors of physical and of virtual requests. *)
Definition new_phys (curTick addr sz fl : Z) : option t := setPhys fresh addr sz fl curTick.

Definition new_phys_pc (addr sz fl tm p : Z) : option t :=
  r ← setPhys fresh addr sz fl tm;
  Some (mk (paddr r) (vaddr r) (size r) (flags r) (rtime r) (extraData r) (context r) (Some p)).

Definition new_virt (curTick asid addr sz fl p cid tid : Z) : option t :=
  (λ r, setThreadContext r cid tid) <$> setVirt fresh curTick asid addr sz fl p.

Definition set_vaddr_size (r : t) (va asid sz : Z) : t :=
  mk (paddr r) (Some (va, asid)) (Some sz) (flags r) (rtime r) (extraData r) (context r) (pc r).

(** [splitOnVaddr]; [None] when one of its assertions fails. *)
Definition splitOnVaddr (r : t) (split_addr : Z) : option (t * t) :=
  '(va, asid) ← vaddr r;
  sz ← size r;
  match paddr r with
  | Some _ => None
  | None =>
      if (va <? split_addr) && (split_addr <? u64 (va + sz)) then
        let sz1 := s32 (u64 (split_addr - va)) in
        Some (set_vaddr_size r va asid sz1, set_vaddr_size r split_addr asid (s32 (sz - sz1)))
      else None
  end.

Definition hasPaddr (r : t) : bool := bool_decide (is_Some (paddr r)).
Definition hasSize (r : t) : bool := bool_decide (is_Some (size r)).
Definition hasContextId (r : t) : bool := bool_decide (is_Some (context r)).
Definition hasPC (r : t) : bool := bool_decide (is_Some (pc r)).
Definition extraDataValid (r : t) : bool := bool_decide (is_Some (extraData r)).
Definition contextId (r : t) : option Z := fst <$> context r.
Definition threadId (r : t) : option Z := snd <$> context r.

(** [time()], [getFlags()] and [setFlags()] assert a valid address. *)
Definition addr_valid (r : t) : bool :=
  bool_decide (is_Some (paddr r)) || bool_decide (is_Some (vaddr r)).
Definition time (r : t) : option Z := if addr_valid r then Some (rtime r) else None.
Definition getFlags (r : t) : option Z := if addr_valid r then Some (flags r) else None.
Definition setFlags (r : t) (fl : Z) : option t :=
  if addr_valid r
  then Some (mk (paddr r) (vaddr r) (size r) (Z.lor (flags r) fl) (rtime r) (extraData r)
               (context r) (pc r))
  else None.

Definition isUncacheable (r : t) : bool := Flags.isSet (flags r) UNCACHEABLE.
Definition isInstFetch (r : t) : bool := Flags.isSet (flags r) INST_FETCH.
Definition isPrefetch (r : t) : bool := Flags.isSet (flags r) PREFETCH.
Definition isLLSC (r : t) : bool := Flags.isSet (flags r) LLSC.
Definition isLocked (r : t) : bool := Flags.isSet (flags r) LOCKED.
Definition isSwap (r : t) : bool := Flags.isSet (flags r) (Z.lor MEM_SWAP MEM_SWAP_COND).
Definition isCondSwap (r : t) : bool := Flags.isSet (flags r) MEM_SWAP_COND.
Definition isMmapedIpr (r : t) : bool := Flags.isSet (flags r) MMAPED_IPR.

(** [isMisaligned] of a virtual address. *)
Definition isMisaligned (fl va : Z) : bool :=
  if Flags.isSet fl NO_ALIGN_FAULT then false
  else if truthy (Z.land va 0x1) then true
  else if Flags.isSet fl NO_HALF_WORD_ALIGN_FAULT then false
  else truthy (Z.land va 0x2).

End Request.

(** ** Packets *)
Module Packet.

Definition SHARED : Z := 0x1.
Definition EXPRESS_SNOOP : Z := 0x2.
Definition SUPPLY_EXCLUSIVE : Z := 0x4.
Definition MEM_INHIBIT : Z := 0x8.
Definition COPY_FLAGS : Z := 0xF.
Definition VALID_ADDR : Z := 0x100.
Definition VALID_SIZE : Z := 0x200.
Definition VALID_SRC : Z := 0x400.
Definition VALID_DST : Z := 0x800.
Definition STATIC_DATA : Z := 0x1000.
Definition DYNAMIC_DATA : Z := 0x2000.
Definition ARRAY_DATA : Z := 0x4000.
Definition Broadcast : Z := -1.

(** [sender] is the MSHR of an upper-level cache found in [senderState], if any. *)
Record t := mk {
  flags : Z;
  cmd : Command;
  req : Request.t;
  data : option (list Z);
  addr : Z;
  size : Z;
  src : Z;
  dest : Z;
  origCmd : Command;
  time : Z;
  sender : option nat
}.

Definition set_flags (p : t) (fl : Z) : t :=
  mk fl (cmd p) (req p) (data p) (addr p) (size p) (src p) (dest p) (origCmd p) (time p) (sender p).
Definition set_cmd (p : t) (c : Command) : t :=
  mk (flags p) c (req p) (data p) (addr p) (size p) (src p) (dest p) (origCmd p) (time p) (sender p).
Definition set_req (p : t) (r : Request.t) : t :=
  mk (flags p) (cmd p) r (data p) (addr p) (size p) (src p) (dest p) (origCmd p) (time p) (sender p).
Definition set_data (p : t) (fl : Z) (d : option (list Z)) : t :=
  mk fl (cmd p) (req p) d (addr p) (size p) (src p) (dest p) (origCmd p) (time p) (sender p).
Definition set_time (p : t) (tm : Z) : t :=
  mk (flags p) (cmd p) (req p) (data p) (addr p) (size p) (src p) (dest p) (origCmd p) tm (sender p).
Definition set_sender (p : t) (s : option nat) : t :=
  mk (flags p) (cmd p) (req p) (data p) (addr p) (size p) (src p) (dest p) (origCmd p) (time p) s.

(** [Packet(Request*, MemCmd, NodeID)] for a request with address and size. *)
Definition new (curTick : Z) (r : Request.t) (c : Command) (dst : Z) : t :=
  let fl := VALID_DST in
  let '(fl, a) := match Request.paddr r with
                  | Some a => (Flags.set fl VALID_ADDR, a) | None => (fl, 0) end in
  let '(fl, sz) := match Request.size r with
                   | Some sz => (Flags.set fl VALID_SIZE, sz) | None => (fl, 0) end in
  mk fl c r None a sz 0 dst InvalidCmd curTick None.

(** The constructor that rounds to a block of [blkSize] bytes. *)
Definition new_blk (curTick : Z) (r : Request.t) (c : Command) (dst blkSize : Z) : t :=
  let fl := VALID_DST in
  let '(fl, a) := match Request.paddr r with
                  | Some a => (Flags.set fl VALID_ADDR, Z.land a (u64 (Z.lnot (blkSize - 1))))
                  | None => (fl, 0) end in
  mk (Flags.set fl VALID_SIZE) c r None a blkSize 0 dst InvalidCmd curTick None.

(** [Packet(Packet *pkt, bool clearFlags)] *)
Definition copy (curTick : Z) (p : t) (clearFlags : bool) : t :=
  let fl := if clearFlags then 0 else Z.land (flags p) COPY_FLAGS in
  let fl := Flags.set fl (Z.land (flags p)
              (Z.lor VALID_ADDR (Z.lor VALID_SIZE (Z.lor VALID_SRC VALID_DST)))) in
  let fl := Flags.set fl (Z.land (flags p) STATIC_DATA) in
  mk fl (cmd p) (req p) (if Flags.isSet (flags p) STATIC_DATA then data p else None)
    (addr p) (size p) (src p) (dest p) InvalidCmd curTick (sender p).

Definition isRead p := MemCmd.isRead (cmd p).
Definition isWrite p := MemCmd.isWrite (cmd p).
Definition isUpgrade p := MemCmd.isUpgrade (cmd p).
Definition isRequest p := MemCmd.isRequest (cmd p).
Definition isResponse p := MemCmd.isResponse (cmd p).
Definition needsExclusive p := MemCmd.needsExclusive (cmd p).
Definition needsResponse p := MemCmd.needsResponse (cmd p).
Definition isInvalidate p := MemCmd.isInvalidate (cmd p).
Definition hasData p := MemCmd.hasData (cmd p).
Definition isLLSC p := MemCmd.isLLSC (cmd p).
Definition isError p := MemCmd.isError (cmd p).
Definition isPrint p := MemCmd.isPrint (cmd p).

Definition assertMemInhibit (p : t) : t := set_flags p (Flags.set (flags p) MEM_INHIBIT).
Definition memInhibitAsserted (p : t) : bool := Flags.isSet (flags p) MEM_INHIBIT.
Definition assertShared (p : t) : t := set_flags p (Flags.set (flags p) SHARED).
Definition sharedAsserted (p : t) : bool := Flags.isSet (flags p) SHARED.
Definition setExpressSnoop (p : t) : t := set_flags p (Flags.set (flags p) EXPRESS_SNOOP).
Definition isExpressSnoop (p : t) : bool := Flags.isSet (flags p) EXPRESS_SNOOP.
Definition setSupplyExclusive (p : t) : t := set_flags p (Flags.set (flags p) SUPPLY_EXCLUSIVE).
Definition isSupplyExclusive (p : t) : bool := Flags.isSet (flags p) SUPPLY_EXCLUSIVE.

Definition setNacked (p : t) : option t :=
  if isResponse p then Some (set_cmd p NetworkNackError) else None.
Definition setBadAddress (p : t) : option t :=
  if isResponse p then Some (set_cmd p BadAddressError) else None.
Definition wasNacked (p : t) : bool := bool_decide (cmd p = NetworkNackError).
Definition hadBadAddress (p : t) : bool := bool_decide (cmd p = BadAddressError).
Definition copyError (p other : t) : option t :=
  if isError other then Some (set_cmd p (cmd other)) else None.

Definition isSrcValid (p : t) : bool := Flags.isSet (flags p) VALID_SRC.
Definition clearSrc (p : t) : t := set_flags p (Flags.clear (flags p) VALID_SRC).
Definition isDestValid (p : t) : bool := Flags.isSet (flags p) VALID_DST.

Definition setSrc (p : t) (s : Z) : t :=
  mk (Flags.set (flags p) VALID_SRC) (cmd p) (req p) (data p) (addr p) (size p) s (dest p)
     (origCmd p) (time p) (sender p).
Definition setDest (p : t) (d : Z) : t :=
  mk (Flags.set (flags p) VALID_DST) (cmd p) (req p) (data p) (addr p) (size p) (src p) d
     (origCmd p) (time p) (sender p).
Definition getSrc (p : t) : option Z :=
  if Flags.isSet (flags p) VALID_SRC then Some (src p) else None.
Definition getDest (p : t) : option Z :=
  if Flags.isSet (flags p) VALID_DST then Some (dest p) else None.

Definition makeResponse (p : t) : option t :=
  if needsResponse p && isRequest p then
    let fl := Flags.clear (flags p) EXPRESS_SNOOP in
    let fl := Flags.set_val fl VALID_DST (Flags.isSet fl VALID_SRC) in
    let fl := Flags.clear fl VALID_SRC in
    Some (mk fl (MemCmd.responseCommand (cmd p)) (req p) (data p) (addr p) (size p)
            (src p) (src p) (cmd p) (time p) (sender p))
  else None.

Definition reinitNacked (p : t) : option t :=
  if wasNacked p then
    let p := set_cmd p (origCmd p) in
    if needsResponse p then Some (setDest p Broadcast) else None
  else None.

Definition getAddr (p : t) : option Z :=
  if Flags.isSet (flags p) VALID_ADDR then Some (addr p) else None.
Definition getSize (p : t) : option Z :=
  if Flags.isSet (flags p) VALID_SIZE then Some (size p) else None.
(** [getPtr]; a NULL pointer cannot be dereferenced either. *)
Definition getPtr (p : t) : option (list Z) :=
  if Flags.isSet (flags p) (Z.lor STATIC_DATA DYNAMIC_DATA) then data p else None.

(** [setSize] *)
Definition setSize (p : t) (sz : Z) : option t :=
  if Flags.isSet (flags p) VALID_SIZE then None
  else Some (mk (Flags.set (flags p) VALID_SIZE) (cmd p) (req p) (data p) (addr p) sz (src p)
               (dest p) (origCmd p) (time p) (sender p)).

Definition DATA_FLAGS : Z := Z.lor STATIC_DATA (Z.lor DYNAMIC_DATA ARRAY_DATA).

(** [dataStatic], [dataDynamicArray] and [dataDynamic] install a buffer. *)
Definition install_data (p : t) (fl : Z) (d : list Z) : option t :=
  if Flags.noneSet (flags p) DATA_FLAGS
  then Some (set_data p (Flags.set (flags p) fl) (Some d))
  else None.
Definition dataStatic (p : t) (d : list Z) : option t := install_data p STATIC_DATA d.
Definition dataDynamicArray (p : t) (d : list Z) : option t :=
  install_data p (Z.lor DYNAMIC_DATA ARRAY_DATA) d.
Definition dataDynamic (p : t) (d : list Z) : option t := install_data p DYNAMIC_DATA d.

(** [deleteData]; the memory that is freed is not modelled. *)
Definition deleteData (p : t) : t := set_data p (Flags.clear (flags p) DATA_FLAGS) None.

Definition reinitFromRequest (p : t) : option t :=
  a ← Request.paddr (req p);
  sz ← Request.size (req p);
  tm ← Request.time (req p);
  Some (deleteData
          (mk (Flags.set 0 (Z.lor VALID_ADDR VALID_SIZE)) (cmd p) (req p) (data p) a sz (src p)
             (dest p) (origCmd p) tm (sender p))).

(** [allocate]: a fresh buffer has unspecified contents, given by [fresh]. *)
Definition allocate (fresh : list Z) (p : t) : option t :=
  match data p with
  | Some _ =>
      if Flags.isSet (flags p) (Z.lor STATIC_DATA DYNAMIC_DATA) then Some p else None
  | None =>
      if Flags.noneSet (flags p) (Z.lor STATIC_DATA DYNAMIC_DATA)
      then sz ← getSize p;
           Some (set_data p (Flags.set (flags p) (Z.lor DYNAMIC_DATA ARRAY_DATA))
                   (Some (take (Z.to_nat sz) fresh)))
      else None
  end.

Definition getOffset (p : t) (blkSize : Z) : option Z :=
  a ← getAddr p; Some (Z.land a (u64 (blkSize - 1))).

(** [memcpy(dst + off, src + soff, n)]; [None] when a range is out of bounds. *)
Definition memcpy (dst : list Z) (off : Z) (srcb : list Z) (soff n : Z) : option (list Z) :=
  if (0 <=? off) && (0 <=? soff) && (0 <=? n) &&
     (off + n <=? Z.of_nat (length dst)) && (soff + n <=? Z.of_nat (length srcb))
  then Some (take (Z.to_nat off) dst
             ++ take (Z.to_nat n) (drop (Z.to_nat soff) srcb)
             ++ drop (Z.to_nat (off + n)) dst)
  else None.

(** [setData(p)] and [writeData(p)] with [p] at offset [off] of a buffer. *)
Definition setData (p : t) (b : list Z) (off : Z) : option t :=
  d ← getPtr p;
  sz ← getSize p;
  d' ← memcpy d 0 b off sz;
  Some (set_data p (flags p) (Some d')).

Definition writeData (p : t) (b : list Z) (off : Z) : option (list Z) :=
  d ← getPtr p;
  sz ← getSize p;
  memcpy b off d 0 sz.

Definition setDataFromBlock (p : t) (blk : list Z) (blkSize : Z) : option t :=
  off ← getOffset p blkSize; setData p blk off.

Definition writeDataToBlock (p : t) (blk : list Z) (blkSize : Z) : option (list Z) :=
  off ← getOffset p blkSize; writeData p blk off.

(** [checkFunctional(obj, addr, size, data)]: whether the request is satisfied,
    the packet and the buffer after the call.  Printing has no effect here. *)
Definition checkFunctional (p : t) (vaddr vsize : Z) (vdata : option (list Z))
    : option (bool * t * option (list Z)) :=
  func_start ← getAddr p;
  sz ← getSize p;
  let func_end := u64 (func_start + sz - 1) in
  let val_start := vaddr in
  let val_end := u64 (val_start + vsize - 1) in
  if (val_end <? func_start) || (func_end <? val_start) then Some (false, p, vdata)
  else if isPrint p then Some (false, p, vdata)
  else match vdata with
  | None => Some (false, p, vdata)
  | Some d =>
      let offset := s32 (u64 (func_start - val_start)) in
      if isRead p then
        if (val_start <=? func_start) && (func_end <=? val_end) then
          p ← allocate (replicate (Z.to_nat sz) 0) p;
          pd ← getPtr p;
          pd' ← memcpy pd 0 d offset sz;
          p ← makeResponse (set_data p (flags p) (Some pd'));
          Some (true, p, vdata)
        else None
      else if isWrite p then
        pd ← getPtr p;
        d' ← (if 0 <=? offset
              then memcpy d offset pd 0 (Z.min func_end val_end - func_start + 1)
              else memcpy d 0 pd (- offset) (Z.min func_end val_end - val_start + 1));
        Some (false, p, Some d')
      else None
  end.

(** [checkFunctional(PacketPtr other)] *)
Definition checkFunctional_pkt (p other : t) : option (bool * t * option (list Z)) :=
  vdata ← (if hasData other then Some <$> getPtr other else Some None);
  a ← getAddr other;
  sz ← getSize other;
  checkFunctional p a sz vdata.

End Packet.

(** ** Command table *)

(** What the coherence protocol relies on in the table of commands. *)
Definition command_consistent (c : Command) : Prop :=
  (MemCmd.isRequest c && MemCmd.isResponse c = false) ∧
  (c ≠ InvalidCmd → MemCmd.isRequest c || MemCmd.isResponse c = true) ∧
  (MemCmd.needsResponse c = true →
     MemCmd.isRequest c = true ∧
     MemCmd.isResponse (MemCmd.responseCommand c) = true ∧
     MemCmd.needsExclusive (MemCmd.responseCommand c) = MemCmd.needsExclusive c ∧
     MemCmd.hasData (MemCmd.responseCommand c) = MemCmd.isRead c) ∧
  (MemCmd.needsResponse c = false → MemCmd.responseCommand c = InvalidCmd) ∧
  (MemCmd.isRequest c = true → MemCmd.isInvalidate c = true → MemCmd.needsExclusive c = true) ∧
  (MemCmd.isRequest c = true → MemCmd.hasData c = MemCmd.isWrite c).

(** The command table is consistent: no command is both a request and a
    response and all but the invalid one are one of the two; exactly the
    requests that need a response name one, which is a response that needs the
    same exclusivity and carries data exactly when the request reads; an
    invalidating request needs exclusivity; a request carries data exactly when
    it writes. *)
Theorem command_table_consistent c : command_consistent c.
Proof. destruct c; vm_compute; repeat split; intros; congruence. Qed.

(** ** Responses and nacks *)

Section Responses.
Import Packet.

Lemma response_entry c :
  MemCmd.needsResponse c = true →
  MemCmd.isRequest c = true ∧ MemCmd.isResponse (MemCmd.responseCommand c) = true.
Proof. destruct c; vm_compute; intros; split; congruence. Qed.

Lemma testbit_flag (w k : Z) : 0 <= k → Flags.isSet w (2 ^ k) = Z.testbit w k.
Proof.
  intros Hk. unfold Flags.isSet, truthy.
  destruct (Z.testbit w k) eqn:E.
  - destruct (Z.eqb_spec (Z.land w (2 ^ k)) 0) as [H0|]; [|done]. exfalso.
    assert (Z.testbit (Z.land w (2 ^ k)) k = true) as Hb
      by (rewrite Z.land_spec, E, Z.pow2_bits_true; done).
    by rewrite H0, Z.bits_0 in Hb.
  - replace (Z.land w (2 ^ k)) with 0; [done|].
    symmetry. apply Z.bits_inj'. intros i Hi.
    rewrite Z.land_spec, Z.pow2_bits_eqb, Z.bits_0 by done.
    destruct (Z.eqb_spec k i) as [<-|]; [by rewrite E|apply andb_false_r].
Qed.

Lemma isSet_set w j k :
  0 <= j → 0 <= k → Flags.isSet (Flags.set w (2 ^ j)) (2 ^ k) = (j =? k) || Flags.isSet w (2 ^ k).
Proof.
  intros Hj Hk. rewrite !testbit_flag by done. unfold Flags.set.
  rewrite Z.lor_spec, Z.pow2_bits_eqb by done. apply orb_comm.
Qed.

Lemma isSet_clear w j k :
  0 <= j → 0 <= k →
  Flags.isSet (Flags.clear w (2 ^ j)) (2 ^ k) = negb (j =? k) && Flags.isSet w (2 ^ k).
Proof.
  intros Hj Hk. rewrite !testbit_flag by done. unfold Flags.clear.
  rewrite Z.ldiff_spec, Z.pow2_bits_eqb by done. apply andb_comm.
Qed.

Lemma isSet_set_val w j k v :
  0 <= j → 0 <= k →
  Flags.isSet (Flags.set_val w (2 ^ j) v) (2 ^ k) =
  if j =? k then v else Flags.isSet w (2 ^ k).
Proof.
  intros Hj Hk. rewrite !testbit_flag by done. unfold Flags.set_val.
  rewrite Z.lor_spec, Z.ldiff_spec, Z.pow2_bits_eqb by done.
  destruct v, (Z.eqb_spec j k) as [<-|]; simpl;
    rewrite ?Z.bits_0, ?Z.pow2_bits_true, ?Z.pow2_bits_false, ?andb_true_r, ?andb_false_r,
      ?orb_false_r by done; done.
Qed.

End Responses.

(** Bit tests after flag updates, for flags written as powers of two. *)
Ltac flag_pow :=
  change Packet.SHARED with (2 ^ 0) in *; change Packet.EXPRESS_SNOOP with (2 ^ 1) in *;
  change Packet.SUPPLY_EXCLUSIVE with (2 ^ 2) in *; change Packet.MEM_INHIBIT with (2 ^ 3) in *;
  change Packet.VALID_SRC with (2 ^ 10) in *; change Packet.VALID_DST with (2 ^ 11) in *.
Ltac flag_solve :=
  flag_pow; rewrite ?isSet_set, ?isSet_clear, ?isSet_set_val by done;
  rewrite ?isSet_set, ?isSet_clear, ?isSet_set_val by done; simpl.

(** [makeResponse] succeeds exactly on requests that need a response; the
    response has the command the table names, is addressed to the requester, is
    not express, and cannot be turned into a response again; a nacked response
    can be turned back into the original request, to be broadcast. *)
Theorem makeResponse_spec p :
  (Packet.makeResponse p = None ↔ Packet.needsResponse p = false) ∧
  ∀ r, Packet.makeResponse p = Some r →
    Packet.isResponse r = true ∧ Packet.cmd r = MemCmd.responseCommand (Packet.cmd p) ∧
    Packet.getDest r = Packet.getSrc p ∧ Packet.getSrc r = None ∧
    Packet.isExpressSnoop r = false ∧ Packet.makeResponse r = None ∧
    ∃ n, Packet.setNacked r = Some n ∧
      ∃ q, Packet.reinitNacked n = Some q ∧ Packet.cmd q = Packet.cmd p ∧
        Packet.getDest q = Some Packet.Broadcast ∧ Packet.data q = Packet.data p.
Proof.
  pose proof (response_entry (Packet.cmd p)) as Hresp.
  unfold Packet.makeResponse at 1. 
  assert (Packet.needsResponse p && Packet.isRequest p = Packet.needsResponse p) as Hand.
  { unfold Packet.needsResponse, Packet.isRequest in *.
    destruct (MemCmd.needsResponse _); [|done]. by destruct (Hresp eq_refl) as [-> _]. }
  rewrite Hand. split; [destruct (Packet.needsResponse p); naive_solver|].
  intros r Hr. unfold Packet.makeResponse in Hr. rewrite Hand in Hr.
  destruct (Packet.needsResponse p) eqn:Hn; [|done].
  destruct (Hresp Hn) as (_ & Hisr). injection Hr as <-.
  assert (MemCmd.needsResponse (MemCmd.responseCommand (Packet.cmd p)) = false) as Hnr
    by (destruct (Packet.cmd p); vm_compute; congruence).
  split_and!; try done.
  - unfold Packet.getDest, Packet.getSrc. cbn [Packet.flags Packet.dest]. by flag_solve.
  - unfold Packet.getSrc. cbn [Packet.flags]. by flag_solve.
  - unfold Packet.isExpressSnoop. cbn [Packet.flags]. by flag_solve.
  - unfold Packet.makeResponse, Packet.needsResponse. cbn [Packet.cmd]. by rewrite Hnr.
  - eexists. split.
    { unfold Packet.setNacked, Packet.isResponse. cbn [Packet.cmd]. by rewrite Hisr. }
    eexists. split.
    { unfold Packet.reinitNacked, Packet.wasNacked. cbn [Packet.cmd Packet.set_cmd].
      rewrite bool_decide_eq_true_2 by done.
      unfold Packet.needsResponse. cbn [Packet.cmd Packet.set_cmd Packet.origCmd].
      unfold Packet.needsResponse in Hn. rewrite Hn. done. }
    split_and!; try done.
    unfold Packet.getDest, Packet.setDest. cbn [Packet.flags Packet.dest].
    by flag_solve.
Qed.

Section ResponseFrame.
Import Packet.

Lemma isSet_lor w f g : Flags.isSet w (Z.lor f g) = Flags.isSet w f || Flags.isSet w g.
Proof.
  unfold Flags.isSet, truthy. rewrite Z.land_lor_distr_r.
  destruct (Z.eqb_spec (Z.land w f) 0) as [->|H]; [done|]. simpl.
  destruct (Z.eqb_spec (Z.lor (Z.land w f) (Z.land w g)) 0) as [E|]; [|done].
  by apply Z.lor_eq_0_iff in E as [? _].
Qed.

(** A response keeps the address, the size, the buffer, the request and the
    coherence flags of the request. *)
Lemma makeResponse_keeps p r :
  makeResponse p = Some r →
  getAddr r = getAddr p ∧ getSize r = getSize p ∧ getPtr r = getPtr p ∧ req r = req p ∧
  data r = data p ∧ cmd r = MemCmd.responseCommand (cmd p) ∧
  sharedAsserted r = sharedAsserted p ∧ memInhibitAsserted r = memInhibitAsserted p.
Proof.
  unfold makeResponse. destruct (_ && _); [|done]. intros [= <-].
  unfold getAddr, getSize, getPtr, sharedAsserted, memInhibitAsserted. cbn [flags addr size data req cmd].
  rewrite !isSet_lor.
  change VALID_ADDR with (2 ^ 8). change VALID_SIZE with (2 ^ 9).
  change STATIC_DATA with (2 ^ 12). change DYNAMIC_DATA with (2 ^ 13). by flag_solve.
Qed.

(** What a packet is about, the coherence lines and the route. *)
Definition frame (p : t) := (getAddr p, getSize p, getPtr p, req p).
Definition lines (p : t) : bool * bool := (sharedAsserted p, memInhibitAsserted p).
Definition route (p : t) : option Z * option Z := (getSrc p, getDest p).

Ltac frame_solve :=
  unfold frame, lines, route, getAddr, getSize, getPtr, getSrc, getDest, sharedAsserted, memInhibitAsserted;
  cbn [flags addr size data req cmd src dest assertShared assertMemInhibit setSupplyExclusive set_flags
       setSrc setDest set_cmd];
  rewrite ?isSet_lor;
  change VALID_ADDR with (2 ^ 8); change VALID_SIZE with (2 ^ 9);
  change STATIC_DATA with (2 ^ 12); change DYNAMIC_DATA with (2 ^ 13); by flag_solve.

(** Asserting a line changes nothing else. *)
Lemma assertShared_frame p :
  frame (assertShared p) = frame p ∧ route (assertShared p) = route p ∧
  lines (assertShared p) = (true, memInhibitAsserted p).
Proof. split_and!; frame_solve. Qed.

Lemma assertMemInhibit_frame p :
  frame (assertMemInhibit p) = frame p ∧ route (assertMemInhibit p) = route p ∧
  lines (assertMemInhibit p) = (sharedAsserted p, true).
Proof. split_and!; frame_solve. Qed.

Lemma setSupplyExclusive_frame p :
  frame (setSupplyExclusive p) = frame p ∧ route (setSupplyExclusive p) = route p ∧
  lines (setSupplyExclusive p) = lines p.
Proof. split_and!; frame_solve. Qed.

Lemma setSrc_express p n : isExpressSnoop (setSrc p n) = isExpressSnoop p.
Proof.
  unfold isExpressSnoop, setSrc. cbn [flags]. rewrite ?isSet_lor. change EXPRESS_SNOOP with (2 ^ 1). by flag_solve.
Qed.

Lemma flags_set_id w k : 0 <= k → Flags.isSet w (2 ^ k) = true → Flags.set w (2 ^ k) = w.
Proof.
  intros Hk Hw. rewrite testbit_flag in Hw by done. unfold Flags.set. apply Z.bits_inj'. intros i Hi.
  rewrite Z.lor_spec, Z.pow2_bits_eqb by done. destruct (Z.eqb_spec k i) as [<-|]; [by rewrite Hw|by rewrite orb_false_r].
Qed.

(** Setting the source that a packet already has changes nothing. *)
Lemma setSrc_same p n : getSrc p = Some n → setSrc p n = p.
Proof.
  unfold getSrc. destruct (Flags.isSet _ _) eqn:E; [|done]. intros [= <-]. unfold setSrc.
  change VALID_SRC with (2 ^ 10) in *. rewrite flags_set_id by done.
  by destruct p.
Qed.

(** Routing a packet changes nothing else. *)
Lemma setSrc_frame p n :
  frame (setSrc p n) = frame p ∧ route (setSrc p n) = (Some n, getDest p) ∧ lines (setSrc p n) = lines p.
Proof. split_and!; frame_solve. Qed.

Lemma setDest_frame p n :
  frame (setDest p n) = frame p ∧ route (setDest p n) = (getSrc p, Some n) ∧ lines (setDest p n) = lines p.
Proof. split_and!; frame_solve. Qed.

Lemma makeResponse_total p :
  needsResponse p = true → ∃ r, makeResponse p = Some r.
Proof.
  intros Hn. unfold makeResponse. rewrite Hn.
  destruct (response_entry (cmd p) Hn) as [Hq _]. unfold isRequest. rewrite Hq. cbn. by eexists.
Qed.

(** A packet just built and given a buffer of its own. *)
Definition fresh_transfer (p : t) (r : Request.t) (c : Command) (a bs dst : Z) : Prop :=
  cmd p = c ∧ req p = r ∧ getAddr p = Some a ∧ getSize p = Some bs ∧
  getPtr p = Some (replicate (Z.to_nat bs) 0) ∧ sharedAsserted p = false ∧
  memInhibitAsserted p = false ∧
  getDest p = Some dst ∧ ∀ d, getPtr (set_data p (flags p) (Some d)) = Some d.

Lemma allocate_fresh r c a bs dst tm :
  ∃ q, allocate (replicate (Z.to_nat bs) 0)
         (mk (Flags.set (Flags.set VALID_DST VALID_ADDR) VALID_SIZE) c r None a bs 0 dst InvalidCmd tm None)
       = Some q ∧ fresh_transfer q r c a bs dst.
Proof.
  unfold allocate. cbn [data flags].
  change (Flags.noneSet _ _) with true. cbn iota. unfold getSize at 1. cbn [flags size].
  change (Flags.isSet _ VALID_SIZE) with true. cbn [mbind option_bind].
  eexists. split; [reflexivity|]. rewrite take_ge by (rewrite length_replicate; lia).
  split_and!; done.
Qed.

Lemma allocate_new tm r c dst a bs :
  Request.paddr r = Some a → Request.size r = Some bs →
  ∃ q, allocate (replicate (Z.to_nat bs) 0) (new tm r c dst) = Some q ∧ fresh_transfer q r c a bs dst.
Proof. intros Ha Hs. unfold new. rewrite Ha, Hs. apply allocate_fresh. Qed.

Lemma allocate_new_blk tm r c dst a bs :
  Request.paddr r = Some a →
  ∃ q, allocate (replicate (Z.to_nat bs) 0) (new_blk tm r c dst bs) = Some q ∧
    fresh_transfer q r c (Z.land a (u64 (Z.lnot (bs - 1)))) bs dst.
Proof. intros Ha. unfold new_blk. rewrite Ha. apply allocate_fresh. Qed.

End ResponseFrame.

Definition demo_req : Request.t :=
  Request.mk (Some 0x1000) None (Some 4) 0 0 None (Some (0, 0)) (Some 0x400).
Definition demo_pkt (c : Command) (a sz : Z) (d : option (list Z)) : Packet.t :=
  Packet.mk (match d with None => 0xf00 | Some _ => 0x1f00 end)
    c demo_req d a sz 3 (-1) InvalidCmd 0 None.

Lemma makeResponse_spec_witness : ∃ r,
  Packet.makeResponse (demo_pkt ReadReq 64 4 None) = Some r ∧ Packet.getDest r = Some 3.
Proof.
  eexists. split; [reflexivity|].
  apply (makeResponse_spec (demo_pkt ReadReq 64 4 None)). reflexivity.
Defined.

(** ** Functional accesses *)

Section Memcpy.
Import Packet.

Lemma memcpy_Some dst off srcb soff n :
  0 <= off → 0 <= soff → 0 <= n →
  off + n <= Z.of_nat (length dst) → soff + n <= Z.of_nat (length srcb) →
  ∃ r, memcpy dst off srcb soff n = Some r ∧ length r = length dst ∧
    ∀ i : nat, r !! i =
      if decide (off <= Z.of_nat i < off + n)
      then srcb !! (i - Z.to_nat off + Z.to_nat soff)%nat else dst !! i.
Proof.
  intros Ho Hs Hn Hd Hsb. unfold memcpy.
  rewrite !(proj2 (Z.leb_le _ _)) by lia. simpl. eexists. split; [reflexivity|].
  assert (length (take (Z.to_nat n) (drop (Z.to_nat soff) srcb)) = Z.to_nat n) as Hl
    by (rewrite length_take, length_drop; lia).
  split; [rewrite !length_app, Hl, length_take, length_drop; lia|].
  intros i. destruct (decide _) as [Hi|Hi].
  - rewrite lookup_app_r; rewrite length_take; [|lia].
    rewrite lookup_app_l by lia. rewrite lookup_take_lt, lookup_drop by lia. f_equal. lia.
  - destruct (decide (Z.of_nat i < off)).
    + rewrite lookup_app_l, lookup_take_lt by (rewrite ?length_take; lia). done.
    + rewrite lookup_app_r; rewrite length_take; [|lia].
      rewrite lookup_app_r by lia. rewrite Hl, lookup_drop. f_equal. lia.
Qed.

(** Copying into and out of the buffer of a packet. *)
Lemma setData_ok p b off d n :
  getPtr p = Some d → getSize p = Some n → Z.of_nat (length d) = n →
  0 <= off → off + n <= Z.of_nat (length b) →
  ∃ d', setData p b off = Some (set_data p (flags p) (Some d')) ∧ Z.of_nat (length d') = n ∧
    ∀ k : nat, Z.of_nat k < n → d' !! k = b !! (Z.to_nat off + k)%nat.
Proof.
  intros Hp Hs Hl Ho Hb. unfold setData. rewrite Hp, Hs. cbn [mbind option_bind].
  destruct (memcpy_Some d 0 b off n) as (d' & -> & Hl' & Hd'); [lia..|].
  exists d'. split_and!; [done|lia|]. intros k Hk.
  rewrite Hd', decide_True by lia. f_equal. lia.
Qed.

Lemma writeData_ok p b off d n :
  getPtr p = Some d → getSize p = Some n → Z.of_nat (length d) = n →
  0 <= off → off + n <= Z.of_nat (length b) →
  ∃ b', writeData p b off = Some b' ∧ length b' = length b ∧
    ∀ i : nat, b' !! i = if decide (off <= Z.of_nat i < off + n)
                         then d !! (i - Z.to_nat off)%nat else b !! i.
Proof.
  intros Hp Hs Hl Ho Hb. unfold writeData. rewrite Hp, Hs. cbn [mbind option_bind].
  destruct (memcpy_Some b off d 0 n) as (b' & -> & Hl' & Hb'); [lia..|].
  exists b'. split_and!; [done|lia|]. intros i. rewrite Hb'.
  destruct (decide _); [f_equal; lia|done].
Qed.

End Memcpy.

(** The address range [\[a, a + n)] lies in the address space and has a length a
    transfer can have. *)
Definition range_ok (a n : Z) : Prop := 0 <= a ∧ 0 < n < 2 ^ 31 ∧ a + n <= 2 ^ 64.

(** A packet ready for a functional access: a read has no buffer yet. *)
Definition func_ready (p : Packet.t) : Prop :=
  range_ok (Packet.addr p) (Packet.size p) ∧ Packet.isPrint p = false ∧
  Flags.isSet (Packet.flags p) Packet.VALID_ADDR = true ∧
  Flags.isSet (Packet.flags p) Packet.VALID_SIZE = true ∧
  match Packet.data p with
  | None => Flags.noneSet (Packet.flags p) 0x3000 = true ∧ Packet.isWrite p = false
  | Some d => Flags.isSet (Packet.flags p) 0x3000 = true ∧
              Z.of_nat (length d) = Packet.size p
  end.

Section CheckFunctional.
Import Packet.
Context (p : t) (va vn : Z) (d : list Z).
Hypothesis Hp : func_ready p.
Hypothesis Hv : range_ok va vn.
Hypothesis Hd : Z.of_nat (length d) = vn.

Lemma func_get : getAddr p = Some (addr p) ∧ getSize p = Some (size p).
Proof. destruct Hp as (_ & _ & Ha & Hs & _). unfold getAddr, getSize. by rewrite Ha, Hs. Qed.

Lemma func_bounds :
  u64 (addr p + size p - 1) = addr p + size p - 1 ∧ u64 (va + vn - 1) = va + vn - 1.
Proof. destruct Hp as ((?&?&?)&_), Hv as (?&?&?). split; apply u64_small; ilia. Qed.

Lemma func_offset :
  ¬ (va + vn <= addr p ∨ addr p + size p <= va) →
  s32 (u64 (addr p - va)) = addr p - va.
Proof. intros. destruct Hp as ((?&?&?)&_), Hv as (?&?&?). ilia. Qed.

Lemma checkFunctional_disjoint :
  va + vn <= addr p ∨ addr p + size p <= va →
  checkFunctional p va vn (Some d) = Some (false, p, Some d).
Proof.
  intros Hdis. unfold checkFunctional. destruct func_get as [-> ->]. cbn [mbind option_bind].
  destruct func_bounds as [-> ->].
  replace ((va + vn - 1 <? addr p) || (addr p + size p - 1 <? va)) with true; [done|].
  symmetry. apply orb_true_iff. rewrite !Z.ltb_lt. lia.
Qed.

Lemma overlap_tests :
  ¬ (va + vn <= addr p ∨ addr p + size p <= va) →
  (va + vn - 1 <? addr p) || (addr p + size p - 1 <? va) = false.
Proof. intros. apply orb_false_iff. rewrite !Z.ltb_ge. lia. Qed.

(** Allocation gives a read a buffer of its size. *)
Lemma allocate_ready fresh :
  Z.of_nat (length fresh) = size p →
  ∃ q b, allocate fresh p = Some q ∧ data q = Some b ∧ Z.of_nat (length b) = size p ∧
    getPtr q = Some b ∧ cmd q = cmd p ∧ size q = size p ∧ addr q = addr p.
Proof.
  intros Hf. destruct Hp as (_ & _ & _ & Hsz & Hm). unfold allocate.
  destruct (data p) as [b|] eqn:E; destruct Hm as [Hfl Hl].
  - change (Z.lor STATIC_DATA DYNAMIC_DATA) with 0x3000. rewrite Hfl.
    exists p, b. unfold getPtr. change (Z.lor STATIC_DATA DYNAMIC_DATA) with 0x3000.
    by rewrite Hfl.
  - change (Z.lor STATIC_DATA DYNAMIC_DATA) with 0x3000. rewrite Hfl.
    unfold getSize. rewrite Hsz. cbn [mbind option_bind]. do 2 eexists.
    split; [reflexivity|]. split; [reflexivity|].
    rewrite length_take. split; [lia|]. split; [|done].
    unfold getPtr. cbn [flags set_data data].
    enough (Flags.isSet (Flags.set (flags p) (Z.lor DYNAMIC_DATA ARRAY_DATA))
              (Z.lor STATIC_DATA DYNAMIC_DATA) = true) as -> by done.
    unfold Flags.isSet, truthy. apply negb_true_iff, Z.eqb_neq. intros E0.
    apply (f_equal (λ z, Z.testbit z 13)) in E0. revert E0. unfold Flags.set.
    rewrite Z.land_spec, Z.lor_spec, Z.bits_0.
    change (Z.testbit (Z.lor DYNAMIC_DATA ARRAY_DATA) 13) with true.
    change (Z.testbit (Z.lor STATIC_DATA DYNAMIC_DATA) 13) with true.
    by rewrite orb_true_r.
Qed.

Lemma checkFunctional_read :
  isRead p = true → needsResponse p = true → isRequest p = true →
  va <= addr p → addr p + size p <= va + vn →
  ∃ q b, checkFunctional p va vn (Some d) = Some (true, q, Some d) ∧
    cmd q = MemCmd.responseCommand (cmd p) ∧ data q = Some b ∧
    Z.of_nat (length b) = size p ∧
    ∀ i : nat, (i < length b)%nat → b !! i = d !! (i + Z.to_nat (addr p - va))%nat.
Proof.
  intros Hr Hn Hq Hlo Hhi. unfold checkFunctional. destruct func_get as [-> ->]. cbn [mbind option_bind].
  destruct func_bounds as [-> ->].
  pose proof Hp as (Hrg & Hpr & _). destruct Hrg as (? & ? & ?), Hv as (? & ? & ?).
  rewrite overlap_tests, Hpr, Hr, func_offset by lia.
  rewrite (proj2 (Z.leb_le _ _)), (proj2 (Z.leb_le _ _)) by lia. simpl.
  destruct (allocate_ready (replicate (Z.to_nat (size p)) 0))
    as (q & b & -> & Hb & Hlb & Hpt & Hc & Hs & Ha); [rewrite length_replicate; lia|].
  cbn [mbind option_bind]. rewrite Hpt. cbn [mbind option_bind].
  destruct (memcpy_Some b 0 d (addr p - va) (size p)) as (r & -> & Hlr & Hlk); [lia..|].
  simpl. unfold makeResponse, needsResponse, isRequest.
  unfold needsResponse, isRequest in *. cbn [cmd set_data]. rewrite Hc, Hn, Hq. simpl.
  do 2 eexists. split; [reflexivity|]. split_and!; try done; [lia|].
  intros i Hi. rewrite Hlk. destruct (decide _); [|lia].
  by rewrite Z2Nat.inj_0, Nat.sub_0_r.
Qed.

Lemma checkFunctional_partial_read :
  isRead p = true → ¬ (va + vn <= addr p ∨ addr p + size p <= va) →
  ¬ (va <= addr p ∧ addr p + size p <= va + vn) →
  checkFunctional p va vn (Some d) = None.
Proof.
  intros Hr Hov Hpart. unfold checkFunctional. destruct func_get as [-> ->]. cbn [mbind option_bind].
  destruct func_bounds as [-> ->].
  pose proof Hp as (_ & Hpr & _). rewrite overlap_tests, Hpr, Hr by done.
  destruct ((va <=? addr p) && (addr p + size p - 1 <=? va + vn - 1)) eqn:E; [|done].
  zbool. lia.
Qed.

Lemma checkFunctional_write pd :
  isRead p = false → isWrite p = true → data p = Some pd →
  ¬ (va + vn <= addr p ∨ addr p + size p <= va) →
  ∃ d', checkFunctional p va vn (Some d) = Some (false, p, Some d') ∧
    length d' = length d ∧
    ∀ i : nat, d' !! i =
      if decide (addr p <= va + Z.of_nat i < addr p + size p ∧ Z.of_nat i < vn)
      then pd !! Z.to_nat (va + Z.of_nat i - addr p) else d !! i.
Proof.
  intros Hr Hw Hpd Hov. unfold checkFunctional. destruct func_get as [-> ->]. cbn [mbind option_bind].
  destruct func_bounds as [-> ->].
  pose proof Hp as (Hrg & Hpr & _ & _ & Hm). rewrite Hpd in Hm. destruct Hm as [Hfl Hl].
  assert (getPtr p = Some pd) as Hpt
    by (unfold getPtr; change (Z.lor STATIC_DATA DYNAMIC_DATA) with 0x3000; by rewrite Hfl).
  destruct Hrg as (? & ? & ?), Hv as (? & ? & ?).
  rewrite overlap_tests, Hpr, Hr, Hw, func_offset, Hpt by lia. cbn [mbind option_bind].
  destruct (Z.leb_spec 0 (addr p - va)).
  - destruct (memcpy_Some d (addr p - va) pd 0
      (Z.min (addr p + size p - 1) (va + vn - 1) - addr p + 1)) as (r & -> & Hlr & Hlk); [lia..|].
    simpl. eexists. split; [reflexivity|]. split; [done|].
    intros i. rewrite Hlk. destruct (decide _), (decide _); try lia; [|done]. f_equal. lia.
  - destruct (memcpy_Some d 0 pd (- (addr p - va))
      (Z.min (addr p + size p - 1) (va + vn - 1) - va + 1)) as (r & -> & Hlr & Hlk); [lia..|].
    simpl. eexists. split; [reflexivity|]. split; [done|].
    intros i. rewrite Hlk. destruct (decide _), (decide _); try lia; [|done]. f_equal. lia.
Qed.

End CheckFunctional.

(** A functional access against a buffered value of [vn] bytes at [va]: a
    disjoint access changes nothing; a read inside the value becomes a response
    holding exactly the bytes at its addresses; a read that overlaps the value
    without being contained panics; a write replaces exactly the bytes of the
    value that lie in its address range and goes on. *)
Theorem checkFunctional_bytes p va vn d :
  func_ready p → range_ok va vn → Z.of_nat (length d) = vn →
  let a := Packet.addr p in let n := Packet.size p in
  let disjoint := va + vn <= a ∨ a + n <= va in
  (disjoint → Packet.checkFunctional p va vn (Some d) = Some (false, p, Some d)) ∧
  (Packet.isRead p = true → Packet.needsResponse p = true → Packet.isRequest p = true →
   va <= a → a + n <= va + vn →
   ∃ q b, Packet.checkFunctional p va vn (Some d) = Some (true, q, Some d) ∧
     Packet.cmd q = MemCmd.responseCommand (Packet.cmd p) ∧ Packet.data q = Some b ∧
     Z.of_nat (length b) = n ∧
     ∀ i : nat, (i < length b)%nat → b !! i = d !! (i + Z.to_nat (a - va))%nat) ∧
  (Packet.isRead p = true → ¬ disjoint → ¬ (va <= a ∧ a + n <= va + vn) →
   Packet.checkFunctional p va vn (Some d) = None) ∧
  (∀ pd, Packet.isRead p = false → Packet.isWrite p = true → Packet.data p = Some pd →
   ¬ disjoint →
   ∃ d', Packet.checkFunctional p va vn (Some d) = Some (false, p, Some d') ∧
     length d' = length d ∧
     ∀ i : nat, d' !! i =
       if decide (a <= va + Z.of_nat i < a + n ∧ Z.of_nat i < vn)
       then pd !! Z.to_nat (va + Z.of_nat i - a) else d !! i).
Proof.
  intros Hp Hv Hd. split_and!.
  - by apply checkFunctional_disjoint.
  - by apply checkFunctional_read.
  - by apply checkFunctional_partial_read.
  - intros pd. by apply checkFunctional_write.
Qed.

Lemma checkFunctional_bytes_witness :
  Packet.checkFunctional (demo_pkt WriteReq 68 2 (Some [7; 8])) 64 4 (Some [1; 2; 3; 4])
  = Some (false, demo_pkt WriteReq 68 2 (Some [7; 8]), Some [1; 2; 3; 4]).
Proof.
  apply (checkFunctional_bytes (demo_pkt WriteReq 68 2 (Some [7; 8])) 64 4 [1; 2; 3; 4]);
    [done|done|done|simpl; lia].
Defined.

(** ** Transfers between a packet and a cache block *)

(** The packet carries a buffer of its size, inside one block of [2^k] bytes. *)
Definition in_block (p : Packet.t) (k : Z) : Prop :=
  0 <= k < 31 ∧ is_u64 (Packet.addr p) ∧ 0 <= Packet.size p ∧
  Packet.addr p mod 2 ^ k + Packet.size p <= 2 ^ k ∧
  Flags.isSet (Packet.flags p) Packet.VALID_ADDR = true ∧
  Flags.isSet (Packet.flags p) Packet.VALID_SIZE = true ∧
  Flags.isSet (Packet.flags p) (Z.lor Packet.STATIC_DATA Packet.DYNAMIC_DATA) = true.

Section BlockTransfer.
Import Packet.

Lemma pow2_pos_lt k n : 0 <= k < n → 0 < 2 ^ k < 2 ^ n.
Proof. intros. split; [lia|]. apply Z.pow_lt_mono_r; lia. Qed.

Lemma getOffset_in_block p k : in_block p k → getOffset p (2 ^ k) = Some (addr p mod 2 ^ k).
Proof.
  intros (Hk & _ & _ & _ & Ha & _). unfold getOffset, getAddr. rewrite Ha. simpl. f_equal.
  pose proof (pow2_pos_lt k 64). rewrite u64_small by ilia. apply land_ones_mod; lia.
Qed.

Lemma in_block_get p k d :
  in_block p k → data p = Some d → getPtr p = Some d ∧ getSize p = Some (size p).
Proof.
  intros (_ & _ & _ & _ & _ & Hs & Hf) Hd. unfold getPtr, getSize. by rewrite Hf, Hs.
Qed.

End BlockTransfer.

(** Writing a packet into its block and reading the block back through a
    packet of the same address and size returns the data that was written; the
    write changes no byte of the block outside the packet's range. *)
Theorem block_transfer_roundtrip p q k blk pd qd :
  in_block p k → in_block q k →
  Packet.addr q = Packet.addr p → Packet.size q = Packet.size p →
  Packet.data p = Some pd → Packet.data q = Some qd →
  Z.of_nat (length pd) = Packet.size p → length qd = length pd →
  Z.of_nat (length blk) = 2 ^ k →
  ∃ blk', Packet.writeDataToBlock p blk (2 ^ k) = Some blk' ∧ length blk' = length blk ∧
    (∀ i : nat, ¬ (Packet.addr p mod 2 ^ k <= Z.of_nat i
                   < Packet.addr p mod 2 ^ k + Packet.size p) → blk' !! i = blk !! i) ∧
    ∃ q', Packet.setDataFromBlock q blk' (2 ^ k) = Some q' ∧ Packet.data q' = Some pd.
Proof.
  intros Hp Hq Ea Es Hpd Hqd Hlp Hlq Hb.
  destruct (in_block_get p k pd Hp Hpd) as [Hpp Hps].
  destruct (in_block_get q k qd Hq Hqd) as [Hqp Hqs].
  unfold Packet.writeDataToBlock, Packet.setDataFromBlock, Packet.writeData, Packet.setData.
  rewrite (getOffset_in_block p k Hp), (getOffset_in_block q k Hq). cbn [mbind option_bind].
  rewrite Hpp, Hps, Hqp, Hqs, Ea, Es. cbn [mbind option_bind].
  destruct Hp as (Hk & _ & Hs0 & Hin & _). pose proof (pow2_pos_lt k 31 Hk).
  assert (0 <= Packet.addr p mod 2 ^ k) by (apply Z.mod_pos_bound; lia).
  generalize dependent (Packet.addr p mod 2 ^ k). intros off Hin Hoff.
  destruct (memcpy_Some blk off pd 0 (Packet.size p)) as (blk' & -> & Hlb & Hlk); [lia..|].
  exists blk'. split_and!; [done|done| |].
  - intros i Hi. rewrite Hlk. by destruct (decide _).
  - destruct (memcpy_Some qd 0 blk' off (Packet.size p)) as (r & -> & Hlr & Hrk); [lia..|].
    eexists. split; [reflexivity|]. cbn [Packet.data Packet.set_data]. f_equal.
    apply list_eq. intros i. rewrite Hrk. destruct (decide (0 <= Z.of_nat i < _)).
    + rewrite Hlk. destruct (decide _); [f_equal; lia|lia].
    + rewrite !lookup_ge_None_2 by lia. done.
Qed.

Lemma block_transfer_roundtrip_witness :
  ∃ blk', Packet.writeDataToBlock (demo_pkt WriteReq 70 2 (Some [7; 9])) [1; 2; 3; 4; 5; 6; 7; 8] (2 ^ 3)
    = Some blk' ∧ length blk' = 8%nat.
Proof.
  destruct (block_transfer_roundtrip (demo_pkt WriteReq 70 2 (Some [7; 9]))
    (demo_pkt ReadReq 70 2 (Some [0; 0])) 3 [1; 2; 3; 4; 5; 6; 7; 8] [7; 9] [0; 0])
    as (b & H & Hl & _); [by vm_compute; intuition congruence.. | ].
  exists b. split; [exact H|exact Hl].
Defined.

(** [splitOnVaddr] cuts a virtual request in two requests that tile its
    address range and agree with it on everything else; it asserts that the cut
    is strictly inside the range and that the request is not yet translated. *)
Theorem splitOnVaddr_tiles r va asid sz split :
  Request.vaddr r = Some (va, asid) → Request.size r = Some sz → Request.paddr r = None →
  range_ok va sz → va + sz < 2 ^ 64 → is_u64 split →
  (split <= va ∨ va + sz <= split → Request.splitOnVaddr r split = None) ∧
  (va < split < va + sz →
   ∃ r1 r2, Request.splitOnVaddr r split = Some (r1, r2) ∧
     Request.vaddr r1 = Some (va, asid) ∧ Request.vaddr r2 = Some (split, asid) ∧
     (∃ n1 n2, Request.size r1 = Some n1 ∧ Request.size r2 = Some n2 ∧
        0 < n1 ∧ 0 < n2 ∧ va + n1 = split ∧ split + n2 = va + sz) ∧
     Request.flags r1 = Request.flags r ∧ Request.flags r2 = Request.flags r ∧
     Request.context r1 = Request.context r ∧ Request.context r2 = Request.context r ∧
     Request.pc r1 = Request.pc r ∧ Request.pc r2 = Request.pc r).
Proof.
  intros Hv Hs Hp (Hva & Hsz & _) Hend Hsp. unfold Request.splitOnVaddr.
  rewrite Hv, Hs, Hp. cbn [mbind option_bind]. rewrite (u64_small (va + sz)) by ilia.
  split.
  - intros Hout. destruct (_ && _) eqn:E; [zbool; lia|done].
  - intros Hin. rewrite !(proj2 (Z.ltb_lt _ _)) by lia. cbn [andb].
    do 2 eexists. split; [reflexivity|]. cbn. split_and!; try done.
    do 2 eexists. split; [reflexivity|]. split; [reflexivity|].
    assert (s32 (u64 (split - va)) = split - va) as -> by ilia.
    rewrite s32_small by ilia. lia.
Qed.

Lemma splitOnVaddr_tiles_witness :
  ∃ r1 r2, Request.splitOnVaddr
    (Request.mk None (Some (4094, 0)) (Some 8) 0 0 None None None) 4096 = Some (r1, r2) ∧
    Request.vaddr r2 = Some (4096, 0).
Proof.
  destruct (splitOnVaddr_tiles (Request.mk None (Some (4094, 0)) (Some 8) 0 0 None None None)
    4094 0 8 4096) as [_ H]; [done|done|done|done|done|done|].
  destruct H as (r1 & r2 & H & _ & H2 & _); [lia|]. by exists r1, r2.
Defined.
