(* ===== verification/CacheBlk.v ===== *)
(** Cache blocks and their status bits ([src/m5/src/mem/cache/blk.hh]) and the
    LRU-ordered sets of blocks ([src/m5/src/mem/cache/tags/cacheset.cc]). *)

From S2P Require Import Prelude Packet.

(** ** Blocks *)

Definition BlkValid : Z := 0x01.
Definition BlkWritable : Z := 0x02.
Definition BlkReadable : Z := 0x04.
Definition BlkDirty : Z := 0x08.
Definition BlkReferenced : Z := 0x10.
Definition BlkHWPrefetched : Z := 0x20.
Definition BlkHWPrefetchFlag : Z := 0x40.

(** [lockList] holds the context ids of the load-locked accesses, latest first. *)
Record CacheBlk := mkBlk {
  asid : Z;
  tag : Z;
  data : list Z;
  size : Z;
  status : Z;
  whenReady : Z;
  set : Z;
  isTouched : bool;
  refCount : Z;
  contextSrc : Z;
  lockList : list Z
}.

(** [CacheBlk()] *)
Definition CacheBlk_new : CacheBlk := mkBlk (-1) 0 [] 0 0 0 (-1) false 0 (-1) [].

Definition blk_set_status (b : CacheBlk) (st : Z) : CacheBlk :=
  mkBlk (asid b) (tag b) (data b) (size b) st (whenReady b) (set b) (isTouched b)
    (refCount b) (contextSrc b) (lockList b).
Definition blk_set_data (b : CacheBlk) (d : list Z) : CacheBlk :=
  mkBlk (asid b) (tag b) d (size b) (status b) (whenReady b) (set b) (isTouched b)
    (refCount b) (contextSrc b) (lockList b).
Definition blk_set_locks (b : CacheBlk) (l : list Z) : CacheBlk :=
  mkBlk (asid b) (tag b) (data b) (size b) (status b) (whenReady b) (set b) (isTouched b)
    (refCount b) (contextSrc b) l.
Definition blk_set_tag (b : CacheBlk) (t : Z) : CacheBlk :=
  mkBlk (asid b) t (data b) (size b) (status b) (whenReady b) (set b) (isTouched b)
    (refCount b) (contextSrc b) (lockList b).
Definition blk_set_touched (b : CacheBlk) (t : bool) : CacheBlk :=
  mkBlk (asid b) (tag b) (data b) (size b) (status b) (whenReady b) (set b) t
    (refCount b) (contextSrc b) (lockList b).
Definition blk_set_refCount (b : CacheBlk) (r : Z) : CacheBlk :=
  mkBlk (asid b) (tag b) (data b) (size b) (status b) (whenReady b) (set b) (isTouched b)
    r (contextSrc b) (lockList b).
Definition blk_set_contextSrc (b : CacheBlk) (c : Z) : CacheBlk :=
  mkBlk (asid b) (tag b) (data b) (size b) (status b) (whenReady b) (set b) (isTouched b)
    (refCount b) c (lockList b).
Definition blk_set_whenReady (b : CacheBlk) (t : Z) : CacheBlk :=
  mkBlk (asid b) (tag b) (data b) (size b) (status b) t (set b) (isTouched b)
    (refCount b) (contextSrc b) (lockList b).

(** [operator=] leaves [isTouched], [contextSrc] and the lock list of the target. *)
Definition blk_assign (b rhs : CacheBlk) : CacheBlk :=
  mkBlk (asid rhs) (tag rhs) (data rhs) (size rhs) (status rhs) (whenReady rhs) (set rhs)
    (isTouched b) (refCount rhs) (contextSrc b) (lockList b).

Definition isWritable (b : CacheBlk) : bool :=
  let needed_bits := Z.lor BlkWritable BlkValid in Z.land (status b) needed_bits =? needed_bits.
Definition isReadable (b : CacheBlk) : bool :=
  let needed_bits := Z.lor BlkReadable BlkValid in Z.land (status b) needed_bits =? needed_bits.
Definition isValid (b : CacheBlk) : bool := negb (Z.land (status b) BlkValid =? 0).
Definition isDirty (b : CacheBlk) : bool := negb (Z.land (status b) BlkDirty =? 0).
Definition isReferenced (b : CacheBlk) : bool := negb (Z.land (status b) BlkReferenced =? 0).
Definition wasPrefetched (b : CacheBlk) : bool := negb (Z.land (status b) BlkHWPrefetched =? 0).

(** [trackLoadLocked]: asserts an LL/SC packet, whose request names its context. *)
Definition trackLoadLocked (b : CacheBlk) (p : Packet.t) : option CacheBlk :=
  if Packet.isLLSC p then
    ctx ← Request.context (Packet.req p);
    Some (blk_set_locks b (ctx.1 :: lockList b))
  else None.

Definition clearLoadLocks (b : CacheBlk) : CacheBlk := blk_set_locks b [].

(** [checkWrite]: whether the write proceeds, the block, and the packet with the
    store-conditional result in its request. *)
Definition checkWrite (b : CacheBlk) (p : Packet.t) : option (bool * CacheBlk * Packet.t) :=
  if Packet.isLLSC p then
    ctx ← (match lockList b with [] => Some (0, 0) | _ => Request.context (Packet.req p) end);
    let success := existsb (λ c, c =? ctx.1) (lockList b) in
    let r := Request.setExtraData (Packet.req p) (if success then 1 else 0) in
    Some (success, clearLoadLocks b, Packet.set_req p r)
  else Some (true, clearLoadLocks b, p).

(** ** Sets of blocks

    [blks\[0..assoc-1\]] as a list of block names, most recently used first. *)

Module CacheSet.

(** The first block of the set that is valid and has the tag. *)
Fixpoint findBlk (store : list CacheBlk) (blks : list nat) (tg : Z) : option nat :=
  match blks with
  | [] => None
  | i :: blks' =>
      match store !! i with
      | Some b => if (tag b =? tg) && isValid b then Some i else findBlk store blks' tg
      | None => findBlk store blks' tg
      end
  end.

(** The [do ... while (next != blk)] loop: [next] is written over the head of
    the remaining list; running off the end fails the assertion. *)
Fixpoint rotate (blk next : nat) (blks : list nat) : option (list nat) :=
  match blks with
  | [] => None
  | tmp :: blks' =>
      if decide (tmp = blk) then Some (next :: blks')
      else r ← rotate blk tmp blks'; Some (next :: r)
  end.

Definition moveToHead (blks : list nat) (blk : nat) : option (list nat) :=
  match blks with
  | [] => None
  | b0 :: _ => if decide (b0 = blk) then Some blks else rotate blk blk blks
  end.

(** *** Proofs *)

Lemma findBlk_Some store blks tg i :
  findBlk store blks tg = Some i →
  i ∈ blks ∧ ∃ b, store !! i = Some b ∧ tag b = tg ∧ isValid b = true.
Proof.
  induction blks as [|j blks IH]; [done|]. simpl. intros H.
  destruct (store !! j) as [b|] eqn:Hj; [|destruct (IH H); set_solver].
  destruct ((tag b =? tg) && isValid b) eqn:E; [|destruct (IH H); set_solver].
  injection H as <-. zbool. split; [set_solver|eauto].
Qed.

Lemma findBlk_None store blks tg i b :
  findBlk store blks tg = None → i ∈ blks → store !! i = Some b →
  tag b = tg → isValid b = false.
Proof.
  induction blks as [|j blks IH]; [set_solver|]. simpl. intros H Hi Hb Ht.
  apply elem_of_cons in Hi as [->|Hi].
  - rewrite Hb, (proj2 (Z.eqb_eq _ _)) in H by done. by destruct (isValid b).
  - destruct (store !! j) as [b'|]; [|auto]. destruct (_ && _); [done|auto].
Qed.

Lemma rotate_spec blk next blks :
  blk ∈ blks →
  ∃ l1 l2, blks = l1 ++ blk :: l2 ∧ blk ∉ l1 ∧ rotate blk next blks = Some (next :: l1 ++ l2).
Proof.
  revert next. induction blks as [|x blks IH]; intros next Hin; [set_solver|].
  simpl. destruct (decide (x = blk)) as [->|Hne].
  - exists [], blks. split_and!; [done|set_solver|done].
  - destruct (IH x) as (l1 & l2 & -> & Hn & ->); [set_solver|].
    exists (x :: l1), l2. split_and!; [done|set_solver|done].
Qed.

(** [moveToHead] moves the block to the front and keeps the order of the rest. *)
Lemma moveToHead_spec blks blk :
  blk ∈ blks →
  ∃ l1 l2, blks = l1 ++ blk :: l2 ∧ blk ∉ l1 ∧ moveToHead blks blk = Some (blk :: l1 ++ l2).
Proof.
  intros Hin. destruct blks as [|b0 blks]; [set_solver|]. unfold moveToHead.
  destruct (decide (b0 = blk)) as [->|].
  - exists [], blks. split_and!; [done|set_solver|done].
  - by apply rotate_spec.
Qed.

Lemma moveToHead_perm blks blk blks' :
  moveToHead blks blk = Some blks' → blk ∈ blks → blks' ≡ₚ blks ∧ head blks' = Some blk.
Proof.
  intros Hm Hin. destruct (moveToHead_spec blks blk Hin) as (l1 & l2 & -> & _ & E).
  rewrite E in Hm. injection Hm as <-. split; [by rewrite Permutation_middle|done].
Qed.

End CacheSet.

(** ** Load-locked / store-conditional *)

(** Accesses to one block: a load-locked, or a write of any kind. *)
Inductive LockOp :=
  | OpLoadLocked (p : Packet.t)
  | OpWrite (p : Packet.t).

Definition lock_step (b : CacheBlk) (op : LockOp) : option CacheBlk :=
  match op with
  | OpLoadLocked p => trackLoadLocked b p
  | OpWrite p => '(_, b, _) ← checkWrite b p; Some b
  end.

Definition lock_run (b : CacheBlk) (ops : list LockOp) : option CacheBlk :=
  foldl (λ o op, b ← o; lock_step b op) (Some b) ops.

(** The context of an access, when it has one. *)
Definition pkt_ctx (p : Packet.t) : option Z := fst <$> Request.context (Packet.req p).

(** Every access names its context, and load-locked accesses are LL/SC packets. *)
Definition lock_op_ok (op : LockOp) : Prop :=
  match op with
  | OpLoadLocked p => Packet.isLLSC p = true ∧ is_Some (pkt_ctx p)
  | OpWrite p => is_Some (pkt_ctx p)
  end.

(** The last access of [ops] that is either a write or a load-locked of [c] is
    a load-locked. *)
Definition linked (c : Z) (ops : list LockOp) : Prop :=
  ∃ ops1 p ops2, ops = ops1 ++ OpLoadLocked p :: ops2 ∧ pkt_ctx p = Some c ∧
    Forall (λ op, match op with OpWrite _ => False | _ => True end) ops2.

Section LoadLocked.

Lemma linked_snoc_ll c ops p :
  linked c (ops ++ [OpLoadLocked p]) ↔ pkt_ctx p = Some c ∨ linked c ops.
Proof.
  split.
  - intros (o1 & q & o2 & E & Hq & Hf). destruct o2 as [|x o2 _] using rev_ind.
    + apply app_inj_tail in E as [_ [= ->]]. by left.
    + rewrite app_comm_cons, app_assoc in E. apply app_inj_tail in E as [-> _].
      apply Forall_app in Hf as [Hf _]. right. by exists o1, q, o2.
  - intros [Hc|(o1 & q & o2 & -> & Hq & Hf)].
    + exists ops, p, []. split_and!; [done|done|constructor].
    + exists o1, q, (o2 ++ [OpLoadLocked p]). rewrite <- app_assoc. split_and!; [done|done|].
      apply Forall_app; split; [done|by repeat constructor].
Qed.

Lemma linked_snoc_write c ops p : ¬ linked c (ops ++ [OpWrite p]).
Proof.
  intros (o1 & q & o2 & E & _ & Hf). destruct o2 as [|x o2 _] using rev_ind.
  - by apply app_inj_tail in E as [_ ?].
  - rewrite app_comm_cons, app_assoc in E. apply app_inj_tail in E as [_ <-].
    apply Forall_app in Hf as [_ Hf]. by inversion Hf.
Qed.

Lemma checkWrite_spec b p c :
  pkt_ctx p = Some c →
  ∃ q, checkWrite b p =
    Some (if Packet.isLLSC p then existsb (λ x, x =? c) (lockList b) else true,
          clearLoadLocks b, q) ∧
    (Packet.isLLSC p = true → Request.extraData (Packet.req q) =
       Some (if existsb (λ x, x =? c) (lockList b) then 1 else 0)).
Proof.
  unfold pkt_ctx, checkWrite. intros Hc.
  destruct (Packet.isLLSC p); [|by exists p].
  destruct (Request.context (Packet.req p)) as [[c' t]|]; [|done]. injection Hc as ->.
  destruct (lockList b); simpl; eexists; (split; [done|]); done.
Qed.

Lemma lock_run_spec b ops :
  lockList b = [] → Forall lock_op_ok ops →
  ∃ b', lock_run b ops = Some b' ∧ ∀ c, c ∈ lockList b' ↔ linked c ops.
Proof.
  intros Hb. induction ops as [|op ops IH] using rev_ind; intros Hok.
  { exists b. split; [done|]. intros c. rewrite Hb. split; [set_solver|].
    intros (o1 & p & o2 & E & _). by destruct o1. }
  apply Forall_app in Hok as [Hops Hop]. apply Forall_cons in Hop as [Hop _].
  destruct (IH Hops) as (b1 & Hr & Hl).
  unfold lock_run in *. rewrite foldl_app, Hr. simpl. destruct op as [p|p]; simpl in *.
  - destruct Hop as [Hll [c0 Hc0]]. unfold trackLoadLocked. rewrite Hll.
    unfold pkt_ctx in Hc0. destruct (Request.context _) as [[c1 t]|] eqn:Ec; [|done].
    injection Hc0 as ->. simpl. eexists. split; [done|]. intros c. simpl.
    rewrite elem_of_cons, linked_snoc_ll, Hl. unfold pkt_ctx. rewrite Ec. simpl.
    naive_solver.
  - destruct Hop as [c0 Hc0]. destruct (checkWrite_spec b1 p c0 Hc0) as (q & -> & _).
    simpl. eexists. split; [done|]. intros c. simpl.
    split; [set_solver|]. by intros ?%linked_snoc_write.
Qed.

End LoadLocked.

(** Load-locked and store-conditional on a block: after any sequence of
    accesses to a freshly invalidated or filled block, a store-conditional of
    context [c] succeeds exactly when some load-locked of [c] happened with no
    write in between; the result is reported in the request (1 or 0) and every
    write, successful or not, clears all locks. *)
Theorem store_conditional_spec b ops p c :
  lockList b = [] → Forall lock_op_ok ops → pkt_ctx p = Some c → Packet.isLLSC p = true →
  ∃ b' ok q, lock_run b ops = Some b' ∧ checkWrite b' p = Some (ok, clearLoadLocks b', q) ∧
    (ok = true ↔ linked c ops) ∧
    Request.extraData (Packet.req q) = Some (if ok then 1 else 0) ∧
    lockList (clearLoadLocks b') = [].
Proof.
  intros Hb Hops Hc Hll. destruct (lock_run_spec b ops Hb Hops) as (b' & Hr & Hl).
  destruct (checkWrite_spec b' p c Hc) as (q & Hw & He). rewrite Hll in Hw.
  exists b', (existsb (λ x, x =? c) (lockList b')), q. split_and!; try done; [|by apply He].
  rewrite <- Hl, existsb_exists. split.
  - intros (x & Hx & ->%Z.eqb_eq). by apply list_elem_of_In.
  - intros Hin. exists c. split; [by apply list_elem_of_In|apply Z.eqb_refl].
Qed.

Lemma store_conditional_spec_witness :
  ∃ b' ok q, lock_run CacheBlk_new [OpLoadLocked (demo_pkt LoadLockedReq 64 4 None)] = Some b' ∧
    checkWrite b' (demo_pkt StoreCondReq 64 4 None) = Some (ok, clearLoadLocks b', q) ∧
    (ok = true ↔ linked 0 [OpLoadLocked (demo_pkt LoadLockedReq 64 4 None)]) ∧
    Request.extraData (Packet.req q) = Some (if ok then 1 else 0) ∧
    lockList (clearLoadLocks b') = [].
Proof.
  apply store_conditional_spec; [done| |done|done].
  repeat constructor. eauto.
Defined.
