(* ===== verification/Lru.v ===== *)
(** The set-associative LRU tag store, [src/m5/src/mem/cache/tags/lru.hh] and
    [lru.cc].  Pointers to blocks are indices into [blks]; a set is the list of
    its block indices, most recently used first. *)

From S2P Require Import Prelude IntMath Packet CacheBlk.

(** Parameters and the shifts and masks derived from them by the constructor. *)
Record Geometry := mkGeometry {
  numSets : Z;
  blkSize : Z;
  assoc : Z;
  hitLatency : Z;
  blkMask : Z;
  setShift : Z;
  setMask : Z;
  tagShift : Z;
  warmupBound : Z
}.

Record LRU := mkLRU {
  geo : Geometry;
  numCpus : Z;
  blks : list CacheBlk;
  sets : list (list nat);
  tagsInUse : Z;
  warmedUp : bool;
  warmupCycle : Z;
  replacements : Z;
  totalRefs : Z;
  sampledRefs : Z;
  occupancies : gmap Z Z
}.

(** The parameter checks ([fatal]) and derived fields of [LRU::LRU]. *)
Definition make_geometry (nsets bsize asc lat : Z) : option Geometry :=
  if (bsize <? 4) || negb (isPowerOf2 32 bsize) then None
  else if (nsets <=? 0) || negb (isPowerOf2 32 nsets) then None
  else if asc <=? 0 then None
  else if lat <=? 0 then None
  else
    setShift ← floorLog2 bsize;
    setLog ← floorLog2 nsets;
    Some (mkGeometry nsets bsize asc lat (bsize - 1) setShift (nsets - 1)
            (setShift + setLog) (u32 (nsets * asc))).

(** The block the constructor links in as the [j]-th of set [i]; [datum] is the
    unspecified contents of its slice of [dataBlks]. *)
Definition initial_blk (g : Geometry) (datum : list Z) (i j : Z) : CacheBlk :=
  mkBlk (-1) j datum (blkSize g) 0 0 i false 0 (-1) [].

Definition LRU_new (g : Geometry) (ncpus : Z) (datum : list Z) : LRU :=
  mkLRU g ncpus
    (i ← seqZ 0 (numSets g); j ← seqZ 0 (assoc g); [initial_blk g datum i j])
    ((λ i, seq (i * Z.to_nat (assoc g)) (Z.to_nat (assoc g))) <$> seq 0 (Z.to_nat (numSets g)))
    0 false 0 0 0 0 ∅.

Definition extractTag (g : Geometry) (addr : Z) : Z := Z.shiftr addr (tagShift g).
Definition extractSet (g : Geometry) (addr : Z) : Z :=
  Z.land (Z.shiftr addr (setShift g)) (setMask g).
Definition extractBlkOffset (g : Geometry) (addr : Z) : Z := Z.land addr (blkMask g).
Definition blkAlign (g : Geometry) (addr : Z) : Z := Z.land addr (notU 64 (blkMask g)).
Definition regenerateBlkAddr (g : Geometry) (tg st : Z) : Z :=
  Z.lor (u64 (Z.shiftl tg (tagShift g))) (u64 (Z.shiftl st (setShift g))).

Definition set_index (s : LRU) (addr : Z) : nat := Z.to_nat (extractSet (geo s) addr).

(** Field updates. *)
Definition with_blks (s : LRU) (bs : list CacheBlk) : LRU :=
  mkLRU (geo s) (numCpus s) bs (sets s) (tagsInUse s) (warmedUp s) (warmupCycle s)
    (replacements s) (totalRefs s) (sampledRefs s) (occupancies s).
Definition with_sets (s : LRU) (ss : list (list nat)) : LRU :=
  mkLRU (geo s) (numCpus s) (blks s) ss (tagsInUse s) (warmedUp s) (warmupCycle s)
    (replacements s) (totalRefs s) (sampledRefs s) (occupancies s).
Definition with_occ (s : LRU) (o : gmap Z Z) : LRU :=
  mkLRU (geo s) (numCpus s) (blks s) (sets s) (tagsInUse s) (warmedUp s) (warmupCycle s)
    (replacements s) (totalRefs s) (sampledRefs s) o.
Definition with_warmup (s : LRU) (n : Z) (w : bool) (c : Z) : LRU :=
  mkLRU (geo s) (numCpus s) (blks s) (sets s) n w c
    (replacements s) (totalRefs s) (sampledRefs s) (occupancies s).
Definition with_refs (s : LRU) (r t n : Z) : LRU :=
  mkLRU (geo s) (numCpus s) (blks s) (sets s) (tagsInUse s) (warmedUp s) (warmupCycle s)
    r t n (occupancies s).
Definition upd_blk (s : LRU) (i : nat) (f : CacheBlk → CacheBlk) : LRU :=
  with_blks s (alter f i (blks s)).

(** The occupancy counter of a context: its cpu, or the one after the last cpu. *)
Definition occ_slot (s : LRU) (ctx : Z) : Z :=
  if ctx =? -1 then numCpus s else Z.rem ctx (numCpus s).
Definition add_occ (s : LRU) (ctx d : Z) : LRU :=
  let k := occ_slot s ctx in
  with_occ s (<[k := default 0 (occupancies s !! k) + d]> (occupancies s)).

Definition findBlock (s : LRU) (addr : Z) : option nat :=
  st ← sets s !! set_index s addr;
  CacheSet.findBlk (blks s) st (extractTag (geo s) addr).

(** [accessBlock]: the block, the latency and the new state. *)
Definition accessBlock (s : LRU) (curTick addr : Z) : option (option nat * Z * LRU) :=
  let k := set_index s addr in
  st ← sets s !! k;
  match CacheSet.findBlk (blks s) st (extractTag (geo s) addr) with
  | None => Some (None, hitLatency (geo s), s)
  | Some i =>
      st' ← CacheSet.moveToHead st i;
      b ← blks s !! i;
      let lat := if (curTick <? whenReady b) && (hitLatency (geo s) <? whenReady b - curTick)
                 then s32 (whenReady b - curTick) else hitLatency (geo s) in
      let s := with_sets s (<[k := st']> (sets s)) in
      Some (Some i, lat, upd_blk s i (λ b, blk_set_refCount b (refCount b + 1)))
  end.

(** [findVictim]: the least recently used block of the set. *)
Definition findVictim (s : LRU) (addr : Z) : option (nat * LRU) :=
  st ← sets s !! set_index s addr;
  i ← st !! Z.to_nat (assoc (geo s) - 1);
  b ← blks s !! i;
  if isValid b then
    let s := with_refs s (replacements s + 1) (totalRefs s + refCount b) (sampledRefs s + 1) in
    let s := upd_blk s i (λ b, blk_set_refCount b 0) in
    let s := add_occ s (contextSrc b) (-1) in
    Some (i, upd_blk s i (λ b, blk_set_contextSrc b (-1)))
  else Some (i, s).

(** [insertBlock]; the caller sets the status of the block. *)
Definition insertBlock (s : LRU) (curTick addr : Z) (i : nat) (context_src : Z) : option LRU :=
  b ← blks s !! i;
  let s :=
    if isTouched b then s
    else
      let n := tagsInUse s + 1 in
      let s := if negb (warmedUp s) && (warmupBound (geo s) <=? n)
               then with_warmup s n true curTick
               else with_warmup s n (warmedUp s) (warmupCycle s) in
      upd_blk s i (λ b, blk_set_touched b true) in
  let s := upd_blk s i (λ b, blk_set_tag b (extractTag (geo s) addr)) in
  let s := add_occ s context_src 1 in
  let s := upd_blk s i (λ b, blk_set_contextSrc b context_src) in
  let k := set_index s addr in
  st ← sets s !! k;
  st' ← CacheSet.moveToHead st i;
  Some (with_sets s (<[k := st']> (sets s))).

Definition invalidateBlk (s : LRU) (i : nat) : option LRU :=
  b ← blks s !! i;
  let s := upd_blk s i (λ b, clearLoadLocks (blk_set_touched (blk_set_status b 0) false)) in
  let s := with_warmup s (tagsInUse s - 1) (warmedUp s) (warmupCycle s) in
  let s := add_occ s (contextSrc b) (-1) in
  Some (upd_blk s i (λ b, blk_set_contextSrc b (-1))).

(** [cleanupRefs]: reference statistics of the blocks still valid. *)
Definition cleanupRefs (s : LRU) : LRU :=
  foldl (λ s b, if isValid b
                then with_refs s (replacements s) (totalRefs s + refCount b) (sampledRefs s + 1)
                else s) s (blks s).

(** ** Address decomposition *)

Section Geometry_facts.
Context (g : Geometry).

(** A geometry the constructor accepts. *)
Definition geometry_ok : Prop :=
  ∃ kb ks, 2 <= kb < 32 ∧ 0 <= ks < 32 ∧ 0 < assoc g ∧ 0 < hitLatency g ∧
    blkSize g = 2 ^ kb ∧ numSets g = 2 ^ ks ∧
    blkMask g = 2 ^ kb - 1 ∧ setShift g = kb ∧ setMask g = 2 ^ ks - 1 ∧
    tagShift g = kb + ks.

Lemma make_geometry_ok nsets bsize asc lat :
  is_u32 nsets → is_u32 bsize → make_geometry nsets bsize asc lat = Some g → geometry_ok.
Proof.
  intros Hn Hb. unfold make_geometry, is_u32 in *.
  destruct (Z.ltb_spec bsize 4); [done|]. simpl.
  destruct (isPowerOf2 32 bsize) eqn:Eb; [simpl|done].
  destruct (Z.leb_spec nsets 0); [done|]. simpl.
  destruct (isPowerOf2 32 nsets) eqn:En; [simpl|done].
  destruct (Z.leb_spec asc 0); [done|]. destruct (Z.leb_spec lat 0); [done|].
  apply isPowerOf2_spec in Eb as (kb & Hkb & Eb); [|lia..].
  apply isPowerOf2_spec in En as (ks & Hks & En); [|lia..].
  rewrite !floorLog2_spec by lia. simpl. unfold geometry_ok. intros [= <-]. simpl.
  assert (2 <= kb).
  { destruct (decide (kb <= 1)); [|lia]. assert (kb = 0 ∨ kb = 1) as [->| ->] by lia; lia. }
  rewrite Eb, En, !Z.log2_pow2 by lia.
  exists kb, ks. split_and!; simpl; try lia.
Qed.

Hypothesis Hg : geometry_ok.

Lemma extract_arith a :
  is_u64 a → ∃ kb ks, 2 <= kb < 32 ∧ 0 <= ks < 32 ∧ numSets g = 2 ^ ks ∧ tagShift g = kb + ks ∧
    setShift g = kb ∧ extractTag g a = a / 2 ^ (kb + ks) ∧
    extractSet g a = (a / 2 ^ kb) mod 2 ^ ks ∧
    extractBlkOffset g a = a mod 2 ^ kb ∧ blkAlign g a = a - a mod 2 ^ kb.
Proof.
  intros Ha. destruct Hg as (kb & ks & Hkb & Hks & _ & _ & _ & Hns & Hbm & Hss & Hsm & Hts).
  exists kb, ks. unfold extractTag, extractSet, extractBlkOffset, blkAlign.
  rewrite Hbm, Hss, Hsm, Hts. split_and!; try lia.
  - by rewrite Z.shiftr_div_pow2 by lia.
  - rewrite Z.shiftr_div_pow2 by lia. apply land_ones_mod. lia.
  - apply land_ones_mod. lia.
  - apply land_notU_align; [lia|done].
Qed.

Lemma extractSet_range a : is_u64 a → 0 <= extractSet g a < numSets g.
Proof.
  intros Ha. destruct (extract_arith a Ha) as (kb & ks & ? & ? & -> & _ & _ & _ & -> & _).
  apply Z.mod_pos_bound. lia.
Qed.

(** Tag and set index determine the block address. *)
Lemma regenerate_extract a :
  is_u64 a → regenerateBlkAddr g (extractTag g a) (extractSet g a) = blkAlign g a.
Proof.
  intros Ha. destruct (extract_arith a Ha) as
    (kb & ks & Hkb & Hks & _ & Hts & Hss & Et & Es & _ & Eal).
  unfold regenerateBlkAddr. rewrite Et, Es, Eal, Hts, Hss, !Z.shiftl_mul_pow2 by lia.
  set (q := a / 2 ^ kb).
  assert (a / 2 ^ (kb + ks) = q / 2 ^ ks) as ->
    by (unfold q; rewrite Z.pow_add_r, Z.div_div by lia; done).
  assert (0 < 2 ^ kb ∧ 0 < 2 ^ ks) as [? ?] by lia.
  assert (0 <= q mod 2 ^ ks < 2 ^ ks) by (apply Z.mod_pos_bound; lia).
  assert (q = 2 ^ ks * (q / 2 ^ ks) + q mod 2 ^ ks) as Eq by (apply Z.div_mod; lia).
  assert (a = 2 ^ kb * q + a mod 2 ^ kb) as Ea by (apply Z.div_mod; lia).
  assert (0 <= a mod 2 ^ kb) by (apply Z.mod_pos_bound; lia).
  assert (0 <= q / 2 ^ ks) by (apply Z.div_pos; [apply Z.div_pos; ilia|lia]).
  assert (q / 2 ^ ks * 2 ^ (kb + ks) = q / 2 ^ ks * 2 ^ ks * 2 ^ kb) as Em
    by (rewrite Z.pow_add_r by lia; ring).
  assert (a - a mod 2 ^ kb = q / 2 ^ ks * 2 ^ (kb + ks) + q mod 2 ^ ks * 2 ^ kb) as Esum
    by (rewrite Em; nia).
  unfold is_u64 in Ha.
  rewrite !u64_small by (unfold is_u64; nia).
  rewrite lor_shifted_add; [lia|lia|]. rewrite Z.pow_add_r by lia. nia.
Qed.

Lemma same_block_iff a b :
  is_u64 a → is_u64 b →
  extractTag g a = extractTag g b ∧ extractSet g a = extractSet g b ↔ blkAlign g a = blkAlign g b.
Proof.
  intros Ha Hb. split.
  - intros [Et Es]. by rewrite <- !regenerate_extract, Et, Es by done.
  - intros E. destruct (extract_arith a Ha) as (kb & ks & Hkb & Hks & _ & Hts & Hss & Et & Es & _ & Eal).
    destruct (extract_arith b Hb) as (kb' & ks' & Hkb' & Hks' & _ & Hts' & Hss' & Et' & Es' & _ & Eal').
    assert (kb' = kb) as -> by congruence.
    assert (ks' = ks) as -> by (clear - Hts Hts'; lia).
    assert (a / 2 ^ kb = b / 2 ^ kb) as Eq.
    { rewrite Eal, Eal' in E. assert (0 < 2 ^ kb) as Hk by (clear - Hkb; lia).
      clear - E Hk. apply (Z.mul_reg_l _ _ (2 ^ kb)); [lia|].
      pose proof (Z.div_mod a (2 ^ kb)). pose proof (Z.div_mod b (2 ^ kb)). lia. }
    rewrite Et, Et', Es, Es', Z.pow_add_r, <- !Z.div_div by lia. by rewrite Eq.
Qed.

End Geometry_facts.

(** With the shifts and masks the constructor derives from accepted
    parameters, an address splits into tag, set index and offset without loss:
    the block address is regenerated from tag and set, the set index is in
    range, and two addresses agree on tag and set exactly when they are in the
    same block. *)
Theorem lru_address_roundtrip nsets bsize asc lat g a b :
  is_u32 nsets → is_u32 bsize → make_geometry nsets bsize asc lat = Some g →
  is_u64 a → is_u64 b →
  regenerateBlkAddr g (extractTag g a) (extractSet g a) = blkAlign g a ∧
  a = blkAlign g a + extractBlkOffset g a ∧
  0 <= extractSet g a < numSets g ∧
  (extractTag g a = extractTag g b ∧ extractSet g a = extractSet g b ↔ blkAlign g a = blkAlign g b).
Proof.
  intros Hn Hb Hg Ha Hb'. apply make_geometry_ok in Hg; [|done..]. split_and!.
  - by apply regenerate_extract.
  - destruct (extract_arith g Hg a Ha) as (kb & ks & _ & _ & _ & _ & _ & _ & _ & -> & ->). lia.
  - by apply extractSet_range.
  - by apply extractSet_range.
  - apply same_block_iff; done.
Qed.

(** The L2 cache of the simulated system: 1 MiB, 64-byte blocks, 8 ways. *)
Definition l2_geometry : Geometry := mkGeometry 2048 64 8 30 63 6 2047 17 16384.

Lemma lru_address_roundtrip_witness :
  regenerateBlkAddr l2_geometry (extractTag l2_geometry 0x1234567) (extractSet l2_geometry 0x1234567)
  = blkAlign l2_geometry 0x1234567.
Proof. apply (lru_address_roundtrip 2048 64 8 30 l2_geometry 0x1234567 0); done. Defined.

(** ** Well-formed tag stores *)

Definition ways (s : LRU) : nat := Z.to_nat (assoc (geo s)).

(** Every set is an ordering of its own [assoc] blocks. *)
Definition lru_wf (s : LRU) : Prop :=
  geometry_ok (geo s) ∧
  length (sets s) = Z.to_nat (numSets (geo s)) ∧
  length (blks s) = (Z.to_nat (numSets (geo s)) * ways s)%nat ∧
  ∀ k st, sets s !! k = Some st → st ≡ₚ seq (k * ways s) (ways s).

(** What identifies a block: its tag and whether it is valid. *)
Definition blk_key (s : LRU) (i : nat) : option (Z * bool) :=
  (λ b, (tag b, isValid b)) <$> blks s !! i.

(** What a block holds. *)
Definition blk_core (b : CacheBlk) : Z * Z * list Z * Z := (tag b, status b, data b, CacheBlk.set b).
Definition cores (s : LRU) (i : nat) : option (Z * Z * list Z * Z) := blk_core <$> blks s !! i.

(** Within a set, no two valid blocks carry the same tag. *)
Definition lru_unique (s : LRU) : Prop :=
  ∀ k st i j tg, sets s !! k = Some st → i ∈ st → j ∈ st →
    blk_key s i = Some (tg, true) → blk_key s j = Some (tg, true) → i = j.

(** The address-to-block map the tag store implements. *)
Definition holds (s : LRU) (addr : Z) (i : nat) : Prop :=
  ∃ st, sets s !! set_index s addr = Some st ∧ i ∈ st ∧
    blk_key s i = Some (extractTag (geo s) addr, true).

(** The caller of [insertBlock] sets the status bits of the filled block. *)
Definition set_status (s : LRU) (i : nat) (st : Z) : LRU :=
  upd_blk s i (λ b, blk_set_status b st).

Section WellFormed.
Context (s : LRU).
Hypothesis Hwf : lru_wf s.

Lemma ways_pos : (0 < ways s)%nat.
Proof.
  destruct Hwf as ((kb & ks & _ & _ & Ha & _) & _). unfold ways. lia.
Qed.

Lemma set_lookup addr : is_u64 addr → ∃ st, sets s !! set_index s addr = Some st.
Proof.
  intros Ha. destruct Hwf as (Hg & Hl & _).
  pose proof (extractSet_range (geo s) Hg addr Ha).
  apply lookup_lt_is_Some_2. unfold set_index. lia.
Qed.

Lemma set_length k st : sets s !! k = Some st → length st = ways s.
Proof.
  intros Hk. destruct Hwf as (_ & _ & _ & Hp).
  rewrite (Permutation_length (Hp k st Hk)). apply length_seq.
Qed.

Lemma set_member k st i : sets s !! k = Some st → i ∈ st → ∃ b, blks s !! i = Some b.
Proof.
  intros Hk Hi. destruct Hwf as (_ & Hl & Hb & Hp).
  rewrite (Hp k st Hk) in Hi. apply elem_of_seq in Hi.
  apply lookup_lt_Some in Hk. apply lookup_lt_is_Some_2. rewrite Hb. nia.
Qed.

(** A block belongs to one set only. *)
Lemma set_disjoint k k' st st' i :
  sets s !! k = Some st → sets s !! k' = Some st' → i ∈ st → i ∈ st' → k = k'.
Proof.
  intros Hk Hk' Hi Hi'. destruct Hwf as (_ & _ & _ & Hp).
  rewrite (Hp _ _ Hk) in Hi. rewrite (Hp _ _ Hk') in Hi'.
  apply elem_of_seq in Hi, Hi'. pose proof ways_pos. nia.
Qed.

Lemma findBlock_holds addr i : findBlock s addr = Some i → holds s addr i.
Proof.
  unfold findBlock. destruct (sets s !! _) as [st|] eqn:Hs; [|done]. simpl.
  intros (Hi & b & Hb & Ht & Hv)%CacheSet.findBlk_Some. exists st. split_and!; try done.
  unfold blk_key. rewrite Hb. simpl. by rewrite Ht, Hv.
Qed.

Lemma findBlock_None addr i : findBlock s addr = None → ¬ holds s addr i.
Proof.
  unfold findBlock, blk_key. intros Hf (st & Hs & Hi & Hk).
  rewrite Hs in Hf. simpl in Hf. unfold blk_key in Hk.
  destruct (blks s !! i) as [b|] eqn:Hb; [|done]. injection Hk as Ht Hv.
  pose proof (CacheSet.findBlk_None _ _ _ _ _ Hf Hi Hb Ht). congruence.
Qed.

Lemma findBlock_unique addr i : lru_unique s → holds s addr i → findBlock s addr = Some i.
Proof.
  intros Hu Hh. destruct (findBlock s addr) as [j|] eqn:E.
  - apply findBlock_holds in E as (st & Hs & Hj & Hkj). destruct Hh as (st' & Hs' & Hi & Hki).
    rewrite Hs' in Hs. injection Hs as ->. f_equal. eapply (Hu _ st j i); eauto.
  - by apply (findBlock_None addr i) in E.
Qed.

(** Reordering a set keeps the store well formed. *)
Lemma wf_reorder k st st' :
  sets s !! k = Some st → st' ≡ₚ st → lru_wf (with_sets s (<[k := st']> (sets s))).
Proof.
  intros Hk Hperm. destruct Hwf as (Hg & Hl & Hb & Hp).
  split_and!; simpl; try done; [by rewrite length_insert|].
  intros k' st'' [(<-&<-&_)|(_&H)]%list_lookup_insert_Some; [|by apply Hp].
  etrans; [exact Hperm|]. by apply Hp.
Qed.

(** Well-formedness depends on the sets and the number of blocks only. *)
Lemma wf_ext s' :
  geo s' = geo s → sets s' = sets s → length (blks s') = length (blks s) → lru_wf s'.
Proof.
  unfold lru_wf, ways. intros -> -> ->. exact Hwf.
Qed.

Lemma wf_upd_blk i f : lru_wf (upd_blk s i f).
Proof.
  destruct Hwf as (Hg & Hl & Hb & Hp). split_and!; simpl; try done.
  by rewrite length_alter.
Qed.

End WellFormed.

#[export] Hint Resolve wf_upd_blk : m5.

(** The LRU stack: touching blocks one after the other. *)
Definition touch_all (st : list nat) (ts : list nat) : option (list nat) :=
  foldl (λ o i, st ← o; CacheSet.moveToHead st i) (Some st) ts.

(** First occurrences only. *)
Fixpoint dedup (l : list nat) : list nat :=
  match l with
  | [] => []
  | x :: l => x :: filter (λ y, y ≠ x) (dedup l)
  end.

Section LruStack.

Lemma filter_id (P : nat → Prop) `{∀ x, Decision (P x)} l : Forall P l → filter P l = l.
Proof.
  induction 1 as [|x l Hx Hl IH]; [done|]. by rewrite filter_cons_True, IH.
Qed.

Lemma dedup_filter P `{∀ x, Decision (P x)} l :
  dedup (filter P l) = filter P (dedup l).
Proof.
  induction l as [|x l IH]; [done|]. simpl. rewrite filter_cons.
  destruct (decide (P x)) as [Hx|Hx].
  - simpl. rewrite filter_cons_True by done. f_equal. rewrite IH.
    rewrite !list_filter_filter. apply list_filter_iff. tauto.
  - rewrite filter_cons_False, IH by done. rewrite list_filter_filter.
    apply list_filter_iff. intros y. split; [|tauto]. intros Hy. split; [done|].
    by intros ->.
Qed.

Lemma dedup_NoDup l : NoDup l → dedup l = l.
Proof.
  induction 1 as [|x l Hx Hl IH]; [done|]. simpl. rewrite IH. f_equal.
  apply filter_id, Forall_forall. intros y Hy ->. done.
Qed.

Lemma dedup_absorb l x m : dedup (l ++ x :: filter (λ y, y ≠ x) m) = dedup (l ++ x :: m).
Proof.
  induction l as [|y l IH]; simpl; [|by rewrite IH].
  f_equal. rewrite dedup_filter. apply list_filter_filter_l. done.
Qed.

Lemma moveToHead_filter st i :
  NoDup st → i ∈ st → CacheSet.moveToHead st i = Some (i :: filter (λ y, y ≠ i) st).
Proof.
  intros Hnd Hi. destruct (CacheSet.moveToHead_spec st i Hi) as (l1 & l2 & -> & Hn & ->).
  do 2 f_equal. apply NoDup_app in Hnd as (Hnd1 & Hnd2 & Hnd).
  rewrite filter_app, filter_cons_False by tauto.
  apply NoDup_cons in Hnd as [Hn2 _].
  f_equal; symmetry; apply filter_id, Forall_forall; intros y Hy ->; done.
Qed.

Lemma touch_all_spec st ts :
  NoDup st → Forall (λ i, i ∈ st) ts → touch_all st ts = Some (dedup (reverse ts ++ st)).
Proof.
  intros Hnd Hts. revert st Hnd Hts. induction ts as [|t ts IH]; intros st Hnd Hts.
  { unfold touch_all. simpl. by rewrite dedup_NoDup. }
  apply Forall_cons in Hts as [Ht Hts].
  change (touch_all st (t :: ts)) with
    (foldl (λ o i, st ← o; CacheSet.moveToHead st i) (CacheSet.moveToHead st t) ts).
  rewrite moveToHead_filter by done.
  change (foldl _ (Some ?x) ts) with (touch_all x ts).
  rewrite IH.
  - by rewrite dedup_absorb, reverse_cons, <- app_assoc.
  - constructor; [rewrite list_elem_of_filter; tauto|by apply NoDup_filter].
  - eapply Forall_impl; [exact Hts|]. intros j Hj.
    destruct (decide (j = t)) as [->|]; [set_solver|].
    apply elem_of_cons. right. by apply list_elem_of_filter.
Qed.

Lemma touch_all_perm st ts st' :
  Forall (λ i, i ∈ st) ts → touch_all st ts = Some st' → st' ≡ₚ st.
Proof.
  revert st. induction ts as [|t ts IH]; intros st Hts E; [by injection E as ->|].
  apply Forall_cons in Hts as [Ht Hts].
  destruct (CacheSet.moveToHead_spec st t Ht) as (l1 & l2 & Est & _ & Em).
  change (touch_all st (t :: ts)) with
    (foldl (λ o i, st ← o; CacheSet.moveToHead st i) (CacheSet.moveToHead st t) ts) in E.
  rewrite Em in E.
  assert (t :: l1 ++ l2 ≡ₚ st) as Hp by (rewrite Est; by rewrite Permutation_middle).
  rewrite <- Hp. apply IH; [|done].
  eapply Forall_impl; [exact Hts|]. intros j. by rewrite Hp.
Qed.

End LruStack.

(** ** Operations *)

Section Operations.
Context (s : LRU).
Hypothesis Hwf : lru_wf s.

Lemma moveToHead_total k st i :
  sets s !! k = Some st → i ∈ st →
  ∃ st', CacheSet.moveToHead st i = Some st' ∧ st' ≡ₚ st ∧ head st' = Some i.
Proof.
  intros Hk Hi. destruct (CacheSet.moveToHead_spec st i Hi) as (l1 & l2 & E & _ & Hm).
  eexists. split; [exact Hm|]. by eapply CacheSet.moveToHead_perm.
Qed.

(** [findVictim] returns the last block of the set and touches only that block. *)
Lemma findVictim_frame addr :
  is_u64 addr →
  ∃ st i s', sets s !! set_index s addr = Some st ∧ findVictim s addr = Some (i, s') ∧
    last st = Some i ∧ i ∈ st ∧ geo s' = geo s ∧ sets s' = sets s ∧ lru_wf s' ∧
    (∀ j, j ≠ i → blks s' !! j = blks s !! j) ∧
    ∃ b b', blks s !! i = Some b ∧ blks s' !! i = Some b' ∧ tag b' = tag b ∧ status b' = status b ∧
      data b' = data b ∧ CacheBlk.set b' = CacheBlk.set b.
Proof.
  intros Ha. destruct (set_lookup s Hwf addr Ha) as [st Hst].
  pose proof (set_length s Hwf _ _ Hst) as Hlen. pose proof (ways_pos s Hwf) as Hpos.
  assert (∃ i, last st = Some i) as [i Hi].
  { destruct st as [|x st]; [simpl in Hlen; lia|]. rewrite last_cons. by destruct (last st); eauto. }
  assert (st !! Z.to_nat (assoc (geo s) - 1) = Some i) as Hix.
  { rewrite last_lookup, Hlen in Hi. rewrite <- Hi. f_equal. unfold ways. lia. }
  assert (i ∈ st) as Hin by (by eapply list_elem_of_lookup_2).
  destruct (set_member s Hwf _ _ _ Hst Hin) as [b Hb].
  unfold findVictim. rewrite Hst. simpl. rewrite Hix. simpl. rewrite Hb. simpl.
  destruct (isValid b).
  - exists st, i. eexists. split_and!; try done.
    + apply (wf_ext s); simpl; by rewrite ?length_alter.
    + intros j Hj. simpl. by rewrite !list_lookup_alter_ne by done.
    + simpl. rewrite !list_lookup_alter_eq, Hb. simpl. eauto 12.
  - exists st, i, s. split_and!; eauto 12.
Qed.

(** [insertBlock] succeeds on a block of the set, retags it and makes it the
    most recently used. *)
Lemma insertBlock_frame t addr st i c :
  is_u64 addr → sets s !! set_index s addr = Some st → i ∈ st →
  ∃ st' s', insertBlock s t addr i c = Some s' ∧ CacheSet.moveToHead st i = Some st' ∧
    geo s' = geo s ∧ sets s' = <[set_index s addr := st']> (sets s) ∧ lru_wf s' ∧
    (∀ j, j ≠ i → blks s' !! j = blks s !! j) ∧
    ∃ b b', blks s !! i = Some b ∧ blks s' !! i = Some b' ∧
      tag b' = extractTag (geo s) addr ∧ status b' = status b ∧
      data b' = data b ∧ CacheBlk.set b' = CacheBlk.set b.
Proof.
  intros Ha Hst Hin. destruct (moveToHead_total _ _ _ Hst Hin) as (st' & Hm & Hperm & _).
  destruct (set_member s Hwf _ _ _ Hst Hin) as [b Hb].
  exists st'. unfold insertBlock. rewrite Hb. simpl.
  set (s1 := if isTouched b then s else _).
  assert (geo s1 = geo s ∧ sets s1 = sets s ∧ lru_wf s1 ∧
          (∀ j, j ≠ i → blks s1 !! j = blks s !! j) ∧
          ∃ b1, blks s1 !! i = Some b1 ∧ status b1 = status b ∧ data b1 = data b ∧
            CacheBlk.set b1 = CacheBlk.set b)
    as (Hg1 & Hs1 & Hwf1 & Hf1 & b1 & Hb1 & Hst1 & Hd1 & Hset1).
  { subst s1. destruct (isTouched b); [by eauto 12|].
    destruct (_ && _); (split_and!; [done|done|by apply (wf_ext s); simpl; rewrite ?length_alter| |]);
      simpl; [intros; by rewrite list_lookup_alter_ne| |
              intros; by rewrite list_lookup_alter_ne|];
      rewrite list_lookup_alter_eq, Hb; simpl; eauto. }
  match goal with |- context [set_index ?x addr] =>
    assert (set_index x addr = set_index s addr) as -> by (unfold set_index; simpl; by rewrite Hg1)
  end.
  cbn [sets upd_blk with_blks add_occ with_occ]. rewrite Hs1, Hst. simpl.
  rewrite Hm. simpl. eexists. split_and!; try done.
  - rewrite <- Hs1. match goal with |- lru_wf (with_sets ?x _) =>
      apply (wf_reorder x) with (st := st); [|simpl|done] end.
    + apply (wf_ext s1); simpl; by rewrite ?length_alter.
    + by rewrite Hs1.
  - intros j Hj. simpl. rewrite !list_lookup_alter_ne by done. by apply Hf1.
  - exists b. simpl. rewrite !list_lookup_alter_eq, Hb1. simpl. eexists.
    split_and!; try done. simpl. by rewrite Hg1.
Qed.

End Operations.

(** ** The address map implemented by the store *)

Section AddressMap.

(** Membership in a set does not depend on its order. *)
Lemma in_set s k st i :
  lru_wf s → sets s !! k = Some st → i ∈ st ↔ i ∈ seq (k * ways s) (ways s).
Proof. intros (_ & _ & _ & Hp) Hk. by rewrite (Hp k st Hk). Qed.

(** Between two well-formed stores of one geometry, a block that kept its key
    is found under the same addresses. *)
Lemma holds_transfer s s' a j :
  lru_wf s → lru_wf s' → geo s' = geo s → is_u64 a →
  blk_key s' j = blk_key s j → holds s a j → holds s' a j.
Proof.
  intros Hw Hw' Hg Ha Hj (st & Hs & Hi & Hk).
  destruct (set_lookup s' Hw' a Ha) as [st' Hs'].
  exists st'. rewrite Hg, Hj. split_and!; try done.
  rewrite (in_set s' _ st' j Hw' Hs'). rewrite (in_set s _ st j Hw Hs) in Hi.
  unfold set_index, ways in *. by rewrite Hg.
Qed.

Lemma holds_transfer_iff s s' a j :
  lru_wf s → lru_wf s' → geo s' = geo s → is_u64 a →
  blk_key s' j = blk_key s j → holds s' a j ↔ holds s a j.
Proof. intros Hw Hw' Hg Ha Hj. split; apply holds_transfer; done. Qed.

Lemma unique_transfer s s' i :
  lru_wf s → lru_wf s' → geo s' = geo s → lru_unique s →
  (∀ j, j ≠ i → blk_key s' j = blk_key s j) →
  (∀ k st j tg, sets s !! k = Some st → i ∈ st → j ∈ st → j ≠ i →
     blk_key s' i = Some (tg, true) → blk_key s j ≠ Some (tg, true)) →
  lru_unique s'.
Proof.
  intros Hw Hw' Hg Hu Hf Hnew k st' x y tg Hk Hx Hy Hbx Hby.
  destruct (decide (x = y)) as [|Hxy]; [done|]. exfalso.
  assert (∃ st, sets s !! k = Some st) as [st Hst].
  { apply lookup_lt_is_Some_2. apply lookup_lt_Some in Hk.
    destruct Hw as (_ & Hl & _), Hw' as (_ & Hl' & _). rewrite Hg in Hl'. lia. }
  rewrite (in_set s' k st' x Hw' Hk) in Hx. rewrite (in_set s' k st' y Hw' Hk) in Hy.
  unfold ways in Hx, Hy. rewrite Hg in Hx, Hy.
  rewrite <- (in_set s k st x Hw Hst) in Hx. rewrite <- (in_set s k st y Hw Hst) in Hy.
  destruct (decide (x = i)) as [->|Hxi]; [|destruct (decide (y = i)) as [->|Hyi]].
  - rewrite (Hf y) in Hby by done. by apply (Hnew k st y tg).
  - rewrite (Hf x) in Hbx by done. by apply (Hnew k st x tg).
  - rewrite Hf in Hbx, Hby by done. apply Hxy. eapply (Hu k st); eauto.
Qed.

(** The set of an address holds the same blocks in both stores. *)
Lemma own_set s s' a w i :
  lru_wf s → lru_wf s' → geo s' = geo s → is_u64 a →
  sets s !! set_index s a = Some w → i ∈ w →
  ∃ w', sets s' !! set_index s' a = Some w' ∧ i ∈ w'.
Proof.
  intros Hw Hw' Hg Ha Hs Hi. destruct (set_lookup s' Hw' a Ha) as [w' Hs'].
  exists w'. split; [done|]. rewrite (in_set s' _ w' i Hw' Hs').
  rewrite (in_set s _ w i Hw Hs) in Hi. unfold set_index, ways in *. by rewrite Hg.
Qed.

(** Two addresses held by one block are in the same block of memory. *)
Lemma holds_same_block s a a' i :
  lru_wf s → is_u64 a → is_u64 a' → holds s a i → holds s a' i →
  blkAlign (geo s) a' = blkAlign (geo s) a.
Proof.
  intros Hw Ha Ha' (w & Hs & Hi & Ht) (w' & Hs' & Hi' & Ht').
  pose proof (set_disjoint s Hw _ _ _ _ _ Hs Hs' Hi Hi') as E.
  pose proof Hw as (Hg & _). apply same_block_iff; [done..|]. split; [congruence|].
  pose proof (extractSet_range (geo s) Hg a Ha). pose proof (extractSet_range (geo s) Hg a' Ha').
  unfold set_index in E. lia.
Qed.

Lemma holds_not_None s a i : lru_wf s → holds s a i → findBlock s a ≠ None.
Proof. intros Hw Hh E. by apply (findBlock_None s a i) in E. Qed.

(** [findBlock] in a changed store, from the change of its map. *)
Lemma findBlock_transfer s s' i a :
  lru_wf s → lru_wf s' → geo s' = geo s → lru_unique s → lru_unique s' → is_u64 a →
  (∀ j, j ≠ i → blk_key s' j = blk_key s j) → ¬ holds s' a i →
  findBlock s' a = if decide (findBlock s a = Some i) then None else findBlock s a.
Proof.
  intros Hw Hw' Hg Hu Hu' Ha Hf Hni.
  destruct (findBlock s' a) as [j|] eqn:E'.
  - apply findBlock_holds in E'. assert (j ≠ i) as Hj by congruence.
    rewrite (holds_transfer_iff s s' a j) in E' by auto.
    apply (findBlock_unique s) in E'; [|done]. rewrite E'. destruct (decide _); congruence.
  - destruct (decide _) as [|Hne]; [done|].
    destruct (findBlock s a) as [j|] eqn:E; [|done]. exfalso.
    apply findBlock_holds in E. assert (j ≠ i) by congruence.
    rewrite <- (holds_transfer_iff s s' a j) in E by auto.
    by apply (holds_not_None s' a j).
Qed.

End AddressMap.

(** Two stores with the same keys implement the same map. *)
Lemma findBlock_same_keys s s' a :
  lru_wf s → lru_wf s' → geo s' = geo s → lru_unique s → is_u64 a →
  (∀ j, blk_key s' j = blk_key s j) → findBlock s' a = findBlock s a.
Proof.
  intros Hw Hw' Hg Hu Ha Hk.
  assert (lru_unique s') as Hu'.
  { apply (unique_transfer s s' 0); auto. intros k st j tg Hst H0 Hj Hne H1 H2.
    rewrite Hk in H1. apply Hne. symmetry. by eapply Hu. }
  destruct (findBlock s a) as [j|] eqn:E.
  - apply findBlock_unique; [done|]. apply findBlock_holds in E.
    by rewrite (holds_transfer_iff s s').
  - destruct (findBlock s' a) as [j|] eqn:E'; [|done]. apply findBlock_holds in E'.
    rewrite (holds_transfer_iff s s') in E' by auto. by apply (findBlock_None s a j) in E.
Qed.

Lemma accessBlock_spec s t addr :
  lru_wf s → lru_unique s → is_u64 addr →
  ∃ lat s', accessBlock s t addr = Some (findBlock s addr, lat, s') ∧
    lru_wf s' ∧ (∀ a, is_u64 a → findBlock s' a = findBlock s a) ∧
    match findBlock s addr with
    | None => s' = s ∧ lat = hitLatency (geo s)
    | Some i => ∃ st, sets s' !! set_index s addr = Some (i :: st)
    end ∧ geo s' = geo s ∧ ∀ j, cores s' j = cores s j.
Proof.
  intros Hw Hu Ha. destruct (set_lookup s Hw addr Ha) as [st Hst].
  unfold accessBlock. rewrite Hst. simpl.
  assert (findBlock s addr = CacheSet.findBlk (blks s) st (extractTag (geo s) addr)) as ->
    by (unfold findBlock; by rewrite Hst).
  destruct (CacheSet.findBlk _ st _) as [i|] eqn:E; [|by eauto 10].
  apply CacheSet.findBlk_Some in E as (Hi & b & Hb & _).
  destruct (moveToHead_total s _ st i Hst Hi) as (st' & -> & Hp & Hh). simpl. rewrite Hb. simpl.
  do 2 eexists. split; [done|].
  match goal with |- lru_wf ?x ∧ _ => set (s' := x) end.
  assert (lru_wf s') as Hw' by (apply wf_upd_blk, (wf_reorder s Hw _ st); done).
  split_and!; [done| | |done|].
  - intros a Ha'. apply findBlock_same_keys; try done. intros j. unfold blk_key. simpl.
    destruct (decide (i = j)) as [<-|];
      [rewrite list_lookup_alter_eq|by rewrite list_lookup_alter_ne].
    by rewrite Hb.
  - destruct st' as [|x st']; [done|]. injection Hh as ->. exists st'. simpl.
    apply list_lookup_insert_eq. by apply lookup_lt_Some in Hst.
  - intros j. unfold cores. simpl.
    destruct (decide (i = j)) as [<-|];
      [rewrite list_lookup_alter_eq|by rewrite list_lookup_alter_ne].
    by rewrite Hb.
Qed.

Lemma invalidateBlk_spec s addr i :
  lru_wf s → lru_unique s → is_u64 addr → findBlock s addr = Some i →
  ∃ s', invalidateBlk s i = Some s' ∧ lru_wf s' ∧
    (lockList <$> blks s' !! i) = Some [] ∧
    ∀ a, is_u64 a →
      findBlock s' a = if decide (findBlock s a = Some i) then None else findBlock s a.
Proof.
  intros Hw Hu Ha Hf. apply findBlock_holds in Hf as (st & Hst & Hi & _).
  destruct (set_member s Hw _ _ _ Hst Hi) as [b Hb].
  unfold invalidateBlk. rewrite Hb. simpl. eexists. split; [done|].
  match goal with |- lru_wf ?x ∧ _ => set (s' := x) end.
  assert (lru_wf s') as Hw' by (apply (wf_ext s); simpl; by rewrite ?length_alter).
  assert (∀ tg, blk_key s' i ≠ Some (tg, true)) as Hki.
  { intros tg. unfold blk_key. simpl. by rewrite !list_lookup_alter_eq, Hb. }
  assert (∀ j, j ≠ i → blk_key s' j = blk_key s j) as Hk.
  { intros j Hj. unfold blk_key. simpl. by rewrite !list_lookup_alter_ne. }
  split_and!; [done|simpl; by rewrite !list_lookup_alter_eq, Hb|].
  intros a Ha'. apply findBlock_transfer; try done.
  - apply (unique_transfer s s' i); try done. intros k st' j tg _ _ _ _ H. by apply Hki in H.
  - intros (w & _ & _ & H). by apply Hki in H.
Qed.

(** What [invalidateBlk] leaves of the blocks. *)
Lemma invalidateBlk_frame s i b :
  lru_wf s → lru_unique s → blks s !! i = Some b →
  ∃ s' b', invalidateBlk s i = Some s' ∧ lru_wf s' ∧ lru_unique s' ∧ geo s' = geo s ∧
    (∀ j, j ≠ i → cores s' j = cores s j) ∧ blks s' !! i = Some b' ∧
    status b' = 0 ∧ data b' = data b ∧ CacheBlk.set b' = CacheBlk.set b.
Proof.
  intros Hw Hu Hb. unfold invalidateBlk. rewrite Hb. simpl. eexists _, _. split; [done|].
  match goal with |- lru_wf ?x ∧ _ => set (s' := x) end.
  assert (lru_wf s') as Hw' by (apply (wf_ext s); simpl; by rewrite ?length_alter).
  assert (blks s' !! i = Some (blk_set_contextSrc (clearLoadLocks (blk_set_touched (blk_set_status b 0) false)) (-1)))
    as Hb' by (simpl; by rewrite !list_lookup_alter_eq, Hb).
  assert (∀ j, j ≠ i → blks s' !! j = blks s !! j) as Hf by (intros j Hj; simpl; by rewrite !list_lookup_alter_ne).
  split_and!; try done.
  - apply (unique_transfer s s' i); try done.
    + intros j Hj. unfold blk_key. by rewrite Hf.
    + intros k st j tg _ _ _ _ H. unfold blk_key in H. by rewrite Hb' in H.
  - intros j Hj. unfold cores. by rewrite Hf.
Qed.

(** A block of the set of an absent address is made to hold it. *)
Lemma replace_spec s s' i w addr :
  lru_wf s → lru_wf s' → geo s' = geo s → lru_unique s → is_u64 addr → findBlock s addr = None →
  sets s !! set_index s addr = Some w → i ∈ w →
  (∀ j, j ≠ i → blk_key s' j = blk_key s j) →
  blk_key s' i = Some (extractTag (geo s) addr, true) →
  lru_unique s' ∧ findBlock s' addr = Some i ∧
  ∀ a, is_u64 a → blkAlign (geo s) a ≠ blkAlign (geo s) addr →
    findBlock s' a = if decide (findBlock s a = Some i) then None else findBlock s a.
Proof.
  intros Hw Hw' Hg Hu Ha Hmiss Hs Hi Hf Hk.
  assert (lru_unique s') as Hu'.
  { apply (unique_transfer s s' i); try done.
    intros k st' j tg Hsk Hik Hjk Hj Hki Hkj.
    assert (k = set_index s addr) as -> by (by apply (set_disjoint s Hw k _ st' w i)).
    apply (findBlock_None s addr j Hmiss). exists st'. split_and!; try done. congruence. }
  assert (holds s' addr i) as Hh.
  { destruct (own_set s s' addr w i) as (w3 & Hs3 & Hi3); [done..|].
    exists w3. split_and!; try done. by rewrite Hg. }
  split_and!; [done|by apply findBlock_unique|].
  intros a Ha' Hne. apply (findBlock_transfer s s' i); try done.
  intros Hh'. apply Hne. rewrite <- Hg. by apply (holds_same_block s' addr a i).
Qed.

(** C29. A fill: when the address is not present, taking the victim, inserting
    the block and giving it a valid status never fails.  The victim is the last
    block of the set of the address, its least recently used one, and moves to
    the front of that set, while the other sets keep their order; the store
    stays well formed with unique tags, the address hits on the victim, and
    exactly the block that it held is dropped from the map. *)
Theorem lru_fill s t addr c st :
  lru_wf s → lru_unique s → is_u64 addr → findBlock s addr = None → Z.land st BlkValid ≠ 0 →
  ∃ w i s1 s2, sets s !! set_index s addr = Some w ∧ last w = Some i ∧
    findVictim s addr = Some (i, s1) ∧ insertBlock s1 t addr i c = Some s2 ∧
    let s3 := set_status s2 i st in
    sets s3 = <[set_index s addr := i :: filter (λ j, j ≠ i) w]> (sets s) ∧
    lru_wf s3 ∧ lru_unique s3 ∧ findBlock s3 addr = Some i ∧
    ∀ a, is_u64 a → blkAlign (geo s) a ≠ blkAlign (geo s) addr →
      findBlock s3 a = if decide (findBlock s a = Some i) then None else findBlock s a.
Proof.
  intros Hw Hu Ha Hmiss Hst.
  destruct (findVictim_frame s Hw addr Ha) as
    (w & i & s1 & Hs & Hv & Hlast & Hi & Hg1 & Hs1 & Hw1 & Hf1 & b & b1 & Hb & Hb1 & Ht1 & Hst1 & _).
  assert (set_index s1 addr = set_index s addr) as Hix by (unfold set_index; by rewrite Hg1).
  destruct (insertBlock_frame s1 Hw1 t addr w i c Ha) as
    (w' & s2 & Hins & Hmv & Hg2 & Hset2 & Hw2 & Hf2 & b1' & b2 & Hb1' & Hb2 & Ht2 & _);
    [by rewrite Hix, Hs1|done|].
  rewrite moveToHead_filter in Hmv by (done || (destruct Hw as (_ & _ & _ & Hp); rewrite (Hp _ _ Hs); apply NoDup_seq)).
  injection Hmv as <-. exists w, i, s1, s2. split_and!; [done|done|done|done|]. set (s3 := set_status s2 i st).
  split; [cbn; by rewrite Hset2, Hix, Hs1|].
  assert (geo s3 = geo s) as Hg3 by (simpl; congruence).
  assert (lru_wf s3) as Hw3 by (by apply wf_upd_blk).
  assert (∀ j, j ≠ i → blk_key s3 j = blk_key s j) as Hf3.
  { intros j Hj. unfold blk_key. simpl. by rewrite list_lookup_alter_ne, Hf2, Hf1. }
  assert (blk_key s3 i = Some (extractTag (geo s) addr, true)) as Hk3.
  { unfold blk_key. simpl. rewrite list_lookup_alter_eq, Hb2. simpl. unfold isValid. simpl.
    rewrite (proj2 (Z.eqb_neq _ _)) by done. by rewrite Ht2, Hg1. }
  split; [done|]. by apply (replace_spec s s3 i w).
Qed.

(** A small store: 4 sets of 2 ways of 64-byte blocks. *)
Definition demo_geometry : Geometry := mkGeometry 4 64 2 3 63 6 3 8 8.
Definition demo_lru : LRU := LRU_new demo_geometry 1 (replicate 64 0).

Lemma demo_geometry_made : make_geometry 4 64 2 3 = Some demo_geometry.
Proof. reflexivity. Qed.

Lemma demo_lru_wf : lru_wf demo_lru.
Proof.
  split_and!; try reflexivity.
  - eapply (make_geometry_ok _ 4 64 2 3); done.
  - intros k st Hk. do 4 (destruct k as [|k]; [injection Hk as <-; reflexivity|]). done.
Qed.

(** The constructor leaves every block invalid. *)
Lemma LRU_new_unique g n d : lru_unique (LRU_new g n d).
Proof.
  intros k st i j tg _ _ _ Hi _. exfalso. unfold blk_key in Hi.
  destruct (blks _ !! i) as [b|] eqn:Hb; [|done].
  apply list_elem_of_lookup_2 in Hb. simpl in Hb.
  apply list_elem_of_bind in Hb as (x & Hb & _).
  apply list_elem_of_bind in Hb as (y & ->%list_elem_of_singleton & _). done.
Qed.

(** Concatenation of lists of one length. *)
Lemma bind_uniform {A B} (f : A → list B) (n : nat) (l : list A) :
  (∀ x, x ∈ l → length (f x) = n) →
  length (l ≫= f) = (length l * n)%nat ∧
  ∀ k j x, l !! k = Some x → (j < n)%nat → (l ≫= f) !! (k * n + j)%nat = f x !! j.
Proof.
  induction l as [|y l IH]; intros Hl; [done|]. destruct IH as [IH1 IH2]; [set_solver|].
  cbn. rewrite length_app, IH1, Hl by set_solver. split; [lia|].
  intros [|k] j x Hk Hj; cbn in Hk.
  - injection Hk as ->. rewrite lookup_app_l; [done|]. rewrite Hl; [lia|set_solver].
  - rewrite lookup_app_r by (rewrite Hl by set_solver; lia). rewrite Hl by set_solver.
    rewrite <- (IH2 k j x Hk Hj). f_equal. lia.
Qed.

(** The tag store of the constructor: the sets in order, every block invalid, in
    its own set and with the initial contents. *)
Lemma LRU_new_ok g n d :
  geometry_ok g →
  lru_wf (LRU_new g n d) ∧
  (∀ i b, blks (LRU_new g n d) !! i = Some b → isValid b = false ∧ data b = d) ∧
  (∀ k st i b, sets (LRU_new g n d) !! k = Some st → i ∈ st →
     blks (LRU_new g n d) !! i = Some b → CacheBlk.set b = Z.of_nat k).
Proof.
  intros Hg. set (f := λ i, j ← seqZ 0 (assoc g); [initial_blk g d i j]).
  assert (∀ i, length (f i) = Z.to_nat (assoc g) ∧
            ∀ j x, f i !! j = Some x → CacheBlk.set x = i ∧ isValid x = false ∧ data x = d) as Hf.
  { intros i. destruct (bind_uniform (λ j, [initial_blk g d i j]) 1 (seqZ 0 (assoc g))) as [H1 _]; [done|].
    split; [unfold f; rewrite H1, length_seqZ; lia|].
    intros j x (y & ->%list_elem_of_singleton & _)%list_elem_of_lookup_2%list_elem_of_bind. done. }
  destruct (bind_uniform f (Z.to_nat (assoc g)) (seqZ 0 (numSets g))) as [Hlen Hlk];
    [intros; apply Hf|].
  assert (blks (LRU_new g n d) = seqZ 0 (numSets g) ≫= f) as Hbl by done.
  assert (∀ k st, sets (LRU_new g n d) !! k = Some st →
            st = seq (k * Z.to_nat (assoc g)) (Z.to_nat (assoc g)) ∧ (k < Z.to_nat (numSets g))%nat) as Hset.
  { intros k st (x & -> & [-> Hx]%lookup_seq)%list_lookup_fmap_Some. done. }
  split; [|split].
  - split_and!; [done|etransitivity; [apply length_fmap|apply length_seq]| |].
    + rewrite Hbl, Hlen, length_seqZ. done.
    + intros k st Hk. apply Hset in Hk as [-> _]. done.
  - intros i b Hb. rewrite Hbl in Hb.
    apply list_elem_of_lookup_2, list_elem_of_bind in Hb as (x & Hb & _).
    apply list_elem_of_lookup_1 in Hb as [j Hj]. by destruct (proj2 (Hf x) j b Hj) as (_ & ? & ?).
  - intros k st i b Hk Hi Hb. apply Hset in Hk as [-> Hk]. apply elem_of_seq in Hi.
    rewrite Hbl in Hb. replace i with (k * Z.to_nat (assoc g) + (i - k * Z.to_nat (assoc g)))%nat in Hb by lia.
    rewrite (Hlk k _ (Z.of_nat k)) in Hb by (apply lookup_seqZ || idtac; lia).
    by destruct (proj2 (Hf _) _ b Hb).
Qed.

Lemma lru_fill_witness :
  ∃ w i s1 s2, sets demo_lru !! set_index demo_lru 0x140 = Some w ∧ last w = Some i ∧
    findVictim demo_lru 0x140 = Some (i, s1) ∧ insertBlock s1 7 0x140 i 0 = Some s2 ∧
    let s3 := set_status s2 i 5 in
    sets s3 = <[set_index demo_lru 0x140 := i :: filter (λ j, j ≠ i) w]> (sets demo_lru) ∧
    lru_wf s3 ∧ lru_unique s3 ∧ findBlock s3 0x140 = Some i ∧
    ∀ a, is_u64 a → blkAlign demo_geometry a ≠ blkAlign demo_geometry 0x140 →
      findBlock s3 a = if decide (findBlock demo_lru a = Some i) then None else findBlock demo_lru a.
Proof.
  apply (lru_fill demo_lru 7 0x140 0 5); [apply demo_lru_wf|apply LRU_new_unique|done..].
Defined.

(** [accessBlock] and [invalidateBlk] against the address map: an access
    never fails, hits exactly when [findBlock] does, leaves the map unchanged
    and puts the block first in its set; invalidation removes exactly that block
    from the map and drops its load locks. *)
Theorem lru_access_invalidate s t addr :
  lru_wf s → lru_unique s → is_u64 addr →
  (∃ lat s', accessBlock s t addr = Some (findBlock s addr, lat, s') ∧
     lru_wf s' ∧ (∀ a, is_u64 a → findBlock s' a = findBlock s a) ∧
     match findBlock s addr with
     | None => s' = s ∧ lat = hitLatency (geo s)
     | Some i => ∃ st, sets s' !! set_index s addr = Some (i :: st)
     end) ∧
  (∀ i, findBlock s addr = Some i →
     ∃ s', invalidateBlk s i = Some s' ∧ lru_wf s' ∧
       (lockList <$> blks s' !! i) = Some [] ∧
       ∀ a, is_u64 a →
         findBlock s' a = if decide (findBlock s a = Some i) then None else findBlock s a).
Proof.
  intros Hw Hu Ha. split.
  { destruct (accessBlock_spec s t addr Hw Hu Ha) as (lat & s' & H1 & H2 & H3 & H4 & _). eauto 10. }
  intros i Hi. by apply (invalidateBlk_spec s addr).
Qed.

Lemma lru_access_invalidate_witness :
  ∃ lat s', accessBlock demo_lru 9 0x2a7 = Some (findBlock demo_lru 0x2a7, lat, s') ∧
    lru_wf s' ∧ (∀ a, is_u64 a → findBlock s' a = findBlock demo_lru a) ∧
    match findBlock demo_lru 0x2a7 with
    | None => s' = demo_lru ∧ lat = 3
    | Some i => ∃ st, sets s' !! set_index demo_lru 0x2a7 = Some (i :: st)
    end.
Proof.
  apply (proj1 (lru_access_invalidate demo_lru 9 0x2a7 demo_lru_wf
                  (LRU_new_unique _ _ _) ltac:(done))).
Defined.

(** C30. Replacement is least-recently-used: after any sequence of moves of
    blocks of a set to its head, as an access makes, the set lists the moved
    blocks by decreasing time of their last move, followed by the others in
    their old order, and [findVictim] takes the last of that list. *)
Theorem lru_replacement_order s addr ts st :
  lru_wf s → is_u64 addr → sets s !! set_index s addr = Some st →
  Forall (λ i, i ∈ st) ts →
  ∃ order, touch_all st ts = Some order ∧ order = dedup (reverse ts ++ st) ∧
    let s' := with_sets s (<[set_index s addr := order]> (sets s)) in
    lru_wf s' ∧ ∃ i s'', findVictim s' addr = Some (i, s'') ∧ last order = Some i.
Proof.
  intros Hw Ha Hst Hts. exists (dedup (reverse ts ++ st)).
  assert (NoDup st) as Hnd.
  { destruct Hw as (_ & _ & _ & Hp). rewrite (Hp _ _ Hst). apply NoDup_seq. }
  assert (touch_all st ts = Some (dedup (reverse ts ++ st))) as Ht by (by apply touch_all_spec).
  assert (dedup (reverse ts ++ st) ≡ₚ st) as Hperm by (by eapply touch_all_perm).
  split_and!; [done|done|]. intros s'.
  assert (lru_wf s') as Hw' by (by apply (wf_reorder s Hw _ st)). split; [done|].
  destruct (findVictim_frame s' Hw' addr Ha) as (st' & i & s'' & Hst' & Hv & Hl & _).
  exists i, s''. split; [done|]. rewrite <- Hl. f_equal.
  assert (sets s' !! set_index s addr = Some (dedup (reverse ts ++ st))) as E
    by (apply list_lookup_insert_eq; by apply lookup_lt_Some in Hst).
  change (set_index s' addr) with (set_index s addr) in Hst'. congruence.
Qed.

Lemma lru_replacement_order_witness :
  ∃ order, touch_all [2; 3]%nat [3; 2; 3]%nat = Some order ∧ order = [3; 2]%nat ∧
    let s' := with_sets demo_lru (<[1%nat := order]> (sets demo_lru)) in
    lru_wf s' ∧ ∃ i s'', findVictim s' 0x40 = Some (i, s'') ∧ last order = Some i.
Proof.
  apply (lru_replacement_order demo_lru 0x40 [3; 2; 3]%nat [2; 3]%nat);
    [apply demo_lru_wf|done..|repeat constructor; set_solver].
Defined.
