(* ===== verification/FaLru.v ===== *)
(** The fully associative tag store, [src/m5/src/mem/cache/tags/fa_lru.hh] and
    [fa_lru.cc].  Blocks form a doubly linked list in the order of their last
    use; a pointer to a block is its index in [f_blks], [None] the null pointer.
    A bit of [inCache] tells whether the block would also be in a smaller cache,
    of [2 ^ 17 * 2 ^ i] bytes, and [cacheBoundaries] points at the last block of
    each smaller cache, so that one run counts the hits of all sizes. *)

From S2P Require Import Prelude IntMath Packet CacheBlk.

(** [prev], [next], the [isTouched] that hides that of [CacheBlk], [inCache] *)
Record FALRUBlk := mkFALRUBlk {
  base : CacheBlk;
  prev : option nat;
  next : option nat;
  fa_isTouched : bool;
  inCache : Z
}.

Definition set_base (c : CacheBlk) (b : FALRUBlk) : FALRUBlk := mkFALRUBlk c (prev b) (next b) (fa_isTouched b) (inCache b).
Definition set_prev (p : option nat) (b : FALRUBlk) : FALRUBlk := mkFALRUBlk (base b) p (next b) (fa_isTouched b) (inCache b).
Definition set_next (n : option nat) (b : FALRUBlk) : FALRUBlk := mkFALRUBlk (base b) (prev b) n (fa_isTouched b) (inCache b).
Definition set_touched (t : bool) (b : FALRUBlk) : FALRUBlk := mkFALRUBlk (base b) (prev b) (next b) t (inCache b).
Definition set_inCache (m : Z) (b : FALRUBlk) : FALRUBlk := mkFALRUBlk (base b) (prev b) (next b) (fa_isTouched b) m.

Record FALRU := mkFALRU {
  fa_blkSize : Z;
  fa_size : Z;
  fa_hitLatency : Z;
  cacheBoundaries : list (option nat);
  cacheMask : Z;
  numCaches : nat;
  f_blks : list FALRUBlk;
  f_head : nat;
  f_tail : nat;
  tagHash : gmap Z nat;
  numBlocks : Z;
  fa_warmupBound : Z;
  fa_warmedUp : bool;
  fa_warmupCycle : Z;
  fa_tagsInUse : Z;
  fa_replacements : Z;
  hits : list Z;
  misses : list Z;
  accesses : Z
}.

Definition with_order (s : FALRU) (bs : list FALRUBlk) (cb : list (option nat)) (hd tl : nat) : FALRU :=
  mkFALRU (fa_blkSize s) (fa_size s) (fa_hitLatency s) cb (cacheMask s) (numCaches s) bs hd tl (tagHash s)
    (numBlocks s) (fa_warmupBound s) (fa_warmedUp s) (fa_warmupCycle s) (fa_tagsInUse s) (fa_replacements s)
    (hits s) (misses s) (accesses s).

Definition with_hash (s : FALRU) (h : gmap Z nat) : FALRU :=
  mkFALRU (fa_blkSize s) (fa_size s) (fa_hitLatency s) (cacheBoundaries s) (cacheMask s) (numCaches s) (f_blks s)
    (f_head s) (f_tail s) h (numBlocks s) (fa_warmupBound s) (fa_warmedUp s) (fa_warmupCycle s) (fa_tagsInUse s)
    (fa_replacements s) (hits s) (misses s) (accesses s).

Definition with_use (s : FALRU) (warm : bool) (cycle inuse repl : Z) : FALRU :=
  mkFALRU (fa_blkSize s) (fa_size s) (fa_hitLatency s) (cacheBoundaries s) (cacheMask s) (numCaches s) (f_blks s)
    (f_head s) (f_tail s) (tagHash s) (numBlocks s) (fa_warmupBound s) warm cycle inuse
    repl (hits s) (misses s) (accesses s).

Definition with_counts (s : FALRU) (h m : list Z) (a : Z) : FALRU :=
  mkFALRU (fa_blkSize s) (fa_size s) (fa_hitLatency s) (cacheBoundaries s) (cacheMask s) (numCaches s) (f_blks s)
    (f_head s) (f_tail s) (tagHash s) (numBlocks s) (fa_warmupBound s) (fa_warmedUp s) (fa_warmupCycle s)
    (fa_tagsInUse s) (fa_replacements s) h m a.

(** A store through a pointer to a block. *)
Definition upd_blk (f : FALRUBlk → FALRUBlk) (i : nat) (bs : list FALRUBlk) : option (list FALRUBlk) :=
  b ← bs !! i; Some (<[i := f b]> bs).

(** ** The constructor *)

(** The loop over the blocks between the first and the last. *)
Fixpoint link_loop (todo : list nat) (bs : list FALRUBlk) (cb : list (option nat)) (index : Z) (j : nat) (flags : Z) :
    option (list FALRUBlk * list (option nat) * Z * nat) :=
  match todo with
  | [] => Some (bs, cb, index, j)
  | i :: todo =>
      bs ← upd_blk (set_inCache flags) i bs;
      '(cb, flags, j, index) ←
        (if Z.of_nat i =? u32 (index - 1) then
           if decide (j < length cb)%nat then
             Some (<[j := Some i]> cb, Z.land flags (Z.lnot (Z.shiftl 1 (Z.of_nat j))), S j, u32 (Z.shiftl index 1))
           else None
         else Some (cb, flags, j, index));
      bs ← upd_blk (λ b, set_touched false (set_next (Some (S i)) (set_prev (Some (i - 1)%nat) b))) i bs;
      link_loop todo bs cb index j flags
  end.

(** [FALRU::FALRU]; [found] is what the uninitialised fields hold.  A size of
    less than 2^17 makes [numCaches] wrap, fewer than two blocks make pointers
    outside of the array. *)
Definition FALRU_new (found : FALRUBlk) (blkSize size hit_latency : Z) : option FALRU :=
  if negb (isPowerOf2 32 blkSize) then None
  else if negb (hit_latency >? 0) then None
  else if negb (isPowerOf2 32 size) then None
  else
    l ← floorLog2 size;
    let numCaches := u32 (l - 17) in
    if 31 <=? numCaches then None
    else
      let nc := Z.to_nat numCaches in
      let mask := if numCaches >? 0 then Z.shiftl 1 numCaches - 1 else 0 in
      let numBlocks := size / blkSize in
      if numBlocks <? 2 then None
      else
        let n := Z.to_nat numBlocks in
        let blk0 := set_base CacheBlk_new found in
        let bs := replicate n blk0 in
        bs ← upd_blk (λ b, set_inCache mask (set_next (Some 1%nat) (set_prev None b))) 0 bs;
        bs ← upd_blk (λ b, set_inCache 0 (set_next None (set_prev (Some (n - 2)%nat) b))) (n - 1) bs;
        let index := 2 ^ 17 / blkSize in
        '(bs, cb, index, j) ← link_loop (seq 1 (n - 2)) bs (replicate nc (prev found)) index 0 mask;
        if decide (j = nc) then
          if index =? numBlocks then
            Some (mkFALRU blkSize size hit_latency cb mask nc bs 0 (n - 1) ∅ numBlocks numBlocks false 0 0 0
                    (replicate (S nc) 0) (replicate (S nc) 0) 0)
          else None
        else None.

(** ** Addresses *)

Definition blkAlign (s : FALRU) (addr : Z) : Z := Z.land addr (notU 64 (u32 (fa_blkSize s - 1))).
Definition extractTag (s : FALRU) (addr : Z) : Z := blkAlign s addr.
Definition extractSet (s : FALRU) (addr : Z) : Z := 0.
Definition extractBlkOffset (s : FALRU) (addr : Z) : Z := s32 (Z.land addr (u32 (fa_blkSize s - 1))).
Definition regenerateBlkAddr (s : FALRU) (tag set : Z) : Z := tag.
Definition getHitLatency (s : FALRU) : Z := s32 (fa_hitLatency s).
Definition getBlockSize (s : FALRU) : Z := fa_blkSize s.
Definition getSubBlockSize (s : FALRU) : Z := fa_blkSize s.

(** ** The order of blocks *)

(** One turn of the loop of [moveToHead]. *)
Definition boundary_step (updateMask : Z) (blk i : nat) (st : list FALRUBlk * list (option nat)) :
    option (list FALRUBlk * list (option nat)) :=
  let '(bs, cb) := st in
  c ← cb !! i;
  if truthy (Z.land (Z.shiftl 1 (Z.of_nat i)) updateMask) then
    c ← c;
    b ← bs !! c;
    Some (<[c := set_inCache (Z.land (inCache b) (Z.lnot (Z.shiftl 1 (Z.of_nat i)))) b]> bs, <[i := prev b]> cb)
  else if decide (c = Some blk) then b ← bs !! blk; Some (bs, <[i := prev b]> cb)
  else Some (bs, cb).

Fixpoint boundary_loop (updateMask : Z) (blk : nat) (turns : list nat) (st : list FALRUBlk * list (option nat)) :
    option (list FALRUBlk * list (option nat)) :=
  match turns with
  | [] => Some st
  | i :: turns => st ← boundary_step updateMask blk i st; boundary_loop updateMask blk turns st
  end.

(** Taking a block that is not the first out of the list; returns the tail. *)
Definition unlink (bs : list FALRUBlk) (blk tl : nat) : option (list FALRUBlk * nat) :=
  b ← bs !! blk;
  if decide (blk = tl) then
    if decide (next b = None) then
      t ← prev b; bs ← upd_blk (set_next None) t bs; Some (bs, t)
    else None
  else
    p ← prev b; bs ← upd_blk (set_next (next b)) p bs;
    b ← bs !! blk;
    n ← next b; bs ← upd_blk (set_prev (prev b)) n bs; Some (bs, tl).

(** Moving it in front of the head. *)
Definition relink (bs : list FALRUBlk) (blk hd tl : nat) : option (list FALRUBlk * nat) :=
  '(bs, tl) ← unlink bs blk tl;
  bs ← upd_blk (set_next (Some hd)) blk bs;
  bs ← upd_blk (set_prev None) blk bs;
  bs ← upd_blk (set_prev (Some blk)) hd bs;
  Some (bs, tl).

Definition moveToHead (s : FALRU) (blk : nat) : option FALRU :=
  b ← f_blks s !! blk;
  '(bs, cb) ← boundary_loop (Z.lxor (inCache b) (cacheMask s)) blk (seq 0 (numCaches s)) (f_blks s, cacheBoundaries s);
  bs ← upd_blk (set_inCache (cacheMask s)) blk bs;
  if decide (blk = f_head s) then Some (with_order s bs cb (f_head s) (f_tail s))
  else
    '(bs, tl) ← relink bs blk (f_head s) (f_tail s);
    Some (with_order s bs cb blk tl).

(** ** The operations of a tag store *)

Definition hashLookup (s : FALRU) (addr : Z) : option nat := tagHash s !! addr.

Definition invalidateBlk (s : FALRU) (blk : option nat) : option FALRU :=
  match blk with
  | None => Some s
  | Some i =>
      bs ← upd_blk (λ b, set_touched false (set_base (blk_set_status (base b) 0) b)) i (f_blks s);
      let s := with_order s bs (cacheBoundaries s) (f_head s) (f_tail s) in
      Some (with_use s (fa_warmedUp s) (fa_warmupCycle s) (fa_tagsInUse s - 1) (fa_replacements s))
  end.

(** The hit counts of a hit in a block with these [inCache] bits, and the
    misses. *)
Definition in_size (inc : Z) (i : nat) : bool := truthy (Z.land (Z.shiftl 1 (Z.of_nat i)) inc).

Definition count_hit (s : FALRU) (inc : Z) : FALRU :=
  with_counts s
    (imap (λ i h, if decide (i = numCaches s) then h + 1 else if in_size inc i then h + 1 else h) (hits s))
    (imap (λ i m, if decide (i = numCaches s) then m else if in_size inc i then m else m + 1) (misses s))
    (accesses s).

Definition count_miss (s : FALRU) : FALRU := with_counts s (hits s) ((λ m, m + 1) <$> misses s) (accesses s).

(** [accessBlock]: the block, the latency and the [inCache] bits. *)
Definition accessBlock (s : FALRU) (addr : Z) : option (option nat * Z * Z * FALRU) :=
  let s := with_counts s (hits s) (misses s) (accesses s + 1) in
  let blkAddr := blkAlign s addr in
  let miss := Some (None, fa_hitLatency s, 0, count_miss s) in
  match hashLookup s blkAddr with
  | None => miss
  | Some i =>
      b ← f_blks s !! i;
      if isValid (base b) then
        if tag (base b) =? blkAddr then
          let s := count_hit s (inCache b) in
          s ← (if decide (i = f_head s) then Some s else moveToHead s i);
          Some (Some i, fa_hitLatency s, inCache b, s)
        else None
      else miss
  end.

Definition findBlock (s : FALRU) (addr : Z) : option (option nat) :=
  let blkAddr := blkAlign s addr in
  match hashLookup s blkAddr with
  | None => Some None
  | Some i =>
      b ← f_blks s !! i;
      if isValid (base b) then if tag (base b) =? blkAddr then Some (Some i) else None
      else Some None
  end.

Definition findVictim (s : FALRU) (curTick addr : Z) : option (nat * FALRU) :=
  let blk := f_tail s in
  b ← f_blks s !! blk;
  if inCache b =? 0 then
    s ← moveToHead s blk;
    let s := with_hash s (<[blkAlign s addr := blk]> (delete (tag (base b)) (tagHash s))) in
    if isValid (base b) then Some (blk, with_use s (fa_warmedUp s) (fa_warmupCycle s) (fa_tagsInUse s) (fa_replacements s + 1))
    else
      bs ← upd_blk (set_touched true) blk (f_blks s);
      let s := with_order s bs (cacheBoundaries s) (f_head s) (f_tail s) in
      let n := fa_tagsInUse s + 1 in
      if negb (fa_warmedUp s) && (fa_warmupBound s <=? n)
      then Some (blk, with_use s true curTick n (fa_replacements s))
      else Some (blk, with_use s (fa_warmedUp s) (fa_warmupCycle s) n (fa_replacements s))
  else None.

Definition insertBlock (s : FALRU) (addr : Z) (blk : nat) (context_src : Z) : FALRU := s.

(** [check]: the walk from the head, [None] when an [int] overflows or a
    boundary is outside of its array. *)
Fixpoint check_loop (fuel : nat) (s : FALRU) (blk : option nat) (size boundary : Z) (j : nat) (flags : Z) : option bool :=
  match blk with
  | None => Some true
  | Some i =>
      match fuel with
      | O => None
      | S fuel =>
          b ← f_blks s !! i;
          let size := size + fa_blkSize s in
          if 2 ^ 31 <=? size then None
          else if negb (inCache b =? flags) then Some false
          else if (size =? boundary) && negb (bool_decide (i = f_tail s)) then
            c ← cacheBoundaries s !! j;
            if decide (c = Some i) then
              if 2 ^ 30 <=? boundary then None
              else check_loop fuel s (next b) size (Z.shiftl boundary 1) (S j) (Z.land flags (Z.lnot (Z.shiftl 1 (Z.of_nat j))))
            else Some false
          else check_loop fuel s (next b) size boundary j flags
      end
  end.

Definition check (s : FALRU) : option bool :=
  check_loop (length (f_blks s)) s (Some (f_head s)) 0 (2 ^ 17) 0 (cacheMask s).
