(* ===== verification/FaLruOrder.v ===== *)
(** The order of the blocks of the fully associative tag store: that its linked
    list, its boundaries and the [inCache] bits always describe one list of
    blocks, most recently used first, on which [moveToHead] acts as it says. *)

From S2P Require Import Prelude IntMath Packet CacheBlk FaLru.

(** ** Bits and stores *)

Section Bits.

Lemma truthy_bit i x : truthy (Z.land (Z.shiftl 1 (Z.of_nat i)) x) = Z.testbit x (Z.of_nat i).
Proof.
  unfold truthy. rewrite Z.shiftl_1_l. destruct (Z.testbit x (Z.of_nat i)) eqn:E.
  - zcase; [|done]. assert (Z.testbit (Z.land (2 ^ Z.of_nat i) x) (Z.of_nat i) = true) as Ht.
    { by rewrite Z.land_spec, Z.pow2_bits_true, E by lia. }
    rewrite e in Ht. by rewrite Z.bits_0 in Ht.
  - zcase; [done|]. destruct n. apply Z.bits_inj'. intros k Hk.
    rewrite Z.land_spec, Z.bits_0, Z.pow2_bits_eqb by lia.
    destruct (Z.eqb_spec (Z.of_nat i) k) as [<-|]; [by rewrite E|done].
Qed.

Lemma clear_bit x i k : 0 <= k →
  Z.testbit (Z.land x (Z.lnot (Z.shiftl 1 (Z.of_nat i)))) k = Z.testbit x k && negb (k =? Z.of_nat i).
Proof.
  intros Hk. rewrite Z.land_spec, Z.lnot_spec, Z.shiftl_1_l, Z.pow2_bits_eqb by lia. f_equal. f_equal.
  apply Z.eqb_sym.
Qed.

Lemma mask_bit n k : 0 <= n → 0 <= k → Z.testbit (2 ^ n - 1) k = (k <? n).
Proof.
  intros Hn Hk. replace (2 ^ n - 1) with (Z.ones n) by (rewrite Z.ones_equiv; lia).
  zcase; [by apply Z.ones_spec_low|by apply Z.ones_spec_high].
Qed.

End Bits.

Lemma upd_blk_alter f i bs b : bs !! i = Some b → upd_blk f i bs = Some (alter f i bs).
Proof.
  intros Hb. unfold upd_blk. rewrite Hb. cbn [mbind option_bind]. f_equal. apply list_eq. intros j.
  destruct (decide (i = j)) as [<-|Hne].
  - rewrite list_lookup_alter_eq, Hb, list_lookup_insert_eq; [done|by eapply lookup_lt_Some].
  - by rewrite list_lookup_alter_ne, list_lookup_insert_ne.
Qed.

(** ** The invariant of the order *)

(** The blocks of the cache of size number [i], when the smallest has [c0]. *)
Definition capacity (c0 : Z) (i : nat) : Z := c0 * 2 ^ Z.of_nat i.

(** The [inCache] bits of the block at position [p]. *)
Definition bits_at (c0 : Z) (nc : nat) (p : nat) (x : Z) : Prop :=
  ∀ i : nat, Z.testbit x (Z.of_nat i) = bool_decide (i < nc)%nat && (Z.of_nat p <? capacity c0 i).

Record ordered (c0 : Z) (nc : nat) (l : list nat) (bs : list FALRUBlk) (cb : list (option nat)) : Prop := {
  or_c0 : 2 <= c0;
  or_nodup : NoDup l;
  or_len : length l = length bs;
  or_in : Forall (λ i, i < length bs)%nat l;
  or_fit : ∀ i, (i < nc)%nat → capacity c0 i < Z.of_nat (length l);
  or_prev : ∀ p i b, l !! p = Some i → bs !! i = Some b → prev b = match p with O => None | S q => l !! q end;
  or_next : ∀ p i b, l !! p = Some i → bs !! i = Some b → next b = l !! S p;
  or_bits : ∀ p i b, l !! p = Some i → bs !! i = Some b → 0 <= inCache b ∧ bits_at c0 nc p (inCache b);
  or_ncb : length cb = nc;
  or_cb : ∀ i, (i < nc)%nat → cb !! i = Some (l !! Z.to_nat (capacity c0 i - 1))
}.

Section Order.
Context (c0 : Z) (nc : nat).

Lemma capacity_pos i : 2 <= c0 → 2 <= capacity c0 i.
Proof. intros H. unfold capacity. pose proof (Z.pow_pos_nonneg 2 (Z.of_nat i)). nia. Qed.

Lemma bits_unique p x y : 0 <= x → 0 <= y → bits_at c0 nc p x → bits_at c0 nc p y → x = y.
Proof.
  intros Hx Hy Bx By. apply Z.bits_inj'. intros k Hk. specialize (Bx (Z.to_nat k)). specialize (By (Z.to_nat k)).
  rewrite Z2Nat.id in Bx, By by done. congruence.
Qed.

(** Every block is in the order once. *)
Lemma ordered_perm l bs cb : ordered c0 nc l bs cb → l ≡ₚ seq 0 (length bs).
Proof.
  intros Ho. symmetry. apply submseteq_length_Permutation; [|rewrite length_seq, (or_len _ _ _ _ _ Ho); lia].
  assert (seq 0 (length bs) ⊆ l) as Hsub; [|by apply NoDup_submseteq; [apply NoDup_seq|]].
  intros x Hx. apply elem_of_seq in Hx. destruct (decide (x ∈ l)) as [|Hn]; [done|exfalso].
  assert (x :: l ⊆+ seq 0 (length bs)) as Hs.
  { apply NoDup_submseteq; [constructor; [done|apply Ho]|]. intros y Hy. apply elem_of_seq.
    apply elem_of_cons in Hy as [->|Hy]; [lia|]. pose proof (or_in _ _ _ _ _ Ho) as HF.
    rewrite Forall_forall in HF. apply HF in Hy. lia. }
  apply submseteq_length in Hs. rewrite length_seq in Hs. cbn in Hs. rewrite (or_len _ _ _ _ _ Ho) in Hs. lia.
Qed.

(** The position of a block. *)
Lemma ordered_position l bs cb i : ordered c0 nc l bs cb → (i < length bs)%nat → ∃ p, l !! p = Some i.
Proof.
  intros Ho Hi. apply list_elem_of_lookup. rewrite (ordered_perm l bs cb Ho). apply elem_of_seq. lia.
Qed.

(** *** The loop over the boundaries *)

Section Loop.
Context (bs : list FALRUBlk) (cb : list (option nat)) (um : Z) (blk : nat).

(** The new boundary number [i]. *)
Definition new_boundary (i : nat) : option (option nat) :=
  c ← cb !! i;
  if Z.testbit um (Z.of_nat i) then c ← c; b ← bs !! c; Some (prev b)
  else if decide (c = Some blk) then b ← bs !! blk; Some (prev b)
  else Some c.

(** After the turns before [k] only bits of boundary blocks have been cleared. *)
Definition loop_state (k : nat) (st : list FALRUBlk * list (option nat)) : Prop :=
  length st.1 = length bs ∧ length st.2 = length cb ∧
  (∀ x b, bs !! x = Some b → ∃ m, st.1 !! x = Some (set_inCache m b) ∧ (0 <= inCache b → 0 <= m) ∧
     ∀ i : nat, Z.testbit m (Z.of_nat i) = Z.testbit (inCache b) (Z.of_nat i) &&
       negb (bool_decide (i < k)%nat && Z.testbit um (Z.of_nat i) && bool_decide (cb !! i = Some (Some x)))) ∧
  (∀ i, st.2 !! i = if decide (i < k)%nat then new_boundary i else cb !! i).

(** The bits of a block that turn [k] does not touch. *)
Lemma bits_untouched k c m b x : cb !! k = Some c →
  (∀ i : nat, Z.testbit m (Z.of_nat i) = Z.testbit (inCache b) (Z.of_nat i) &&
     negb (bool_decide (i < k)%nat && Z.testbit um (Z.of_nat i) && bool_decide (cb !! i = Some (Some x)))) →
  Z.testbit um (Z.of_nat k) = false ∨ c ≠ Some x →
  ∀ i : nat, Z.testbit m (Z.of_nat i) = Z.testbit (inCache b) (Z.of_nat i) &&
    negb (bool_decide (i < S k)%nat && Z.testbit um (Z.of_nat i) && bool_decide (cb !! i = Some (Some x))).
Proof.
  intros Ec Hm Hor i. rewrite Hm. f_equal. f_equal. destruct (decide (i = k)) as [->|Hne].
  - rewrite (bool_decide_false (k < k)%nat), (bool_decide_true (k < S k)%nat) by lia. cbn. symmetry.
    apply andb_false_iff. destruct Hor as [->|Hor]; [by left|right]. apply bool_decide_eq_false. congruence.
  - do 2 f_equal. apply bool_decide_ext. lia.
Qed.

(** The bits of the boundary that turn [k] takes out of size [k]. *)
Lemma bits_cleared k m b c : cb !! k = Some (Some c) → Z.testbit um (Z.of_nat k) = true →
  (∀ i : nat, Z.testbit m (Z.of_nat i) = Z.testbit (inCache b) (Z.of_nat i) &&
     negb (bool_decide (i < k)%nat && Z.testbit um (Z.of_nat i) && bool_decide (cb !! i = Some (Some c)))) →
  ∀ i : nat, Z.testbit (Z.land m (Z.lnot (Z.shiftl 1 (Z.of_nat k)))) (Z.of_nat i) = Z.testbit (inCache b) (Z.of_nat i) &&
    negb (bool_decide (i < S k)%nat && Z.testbit um (Z.of_nat i) && bool_decide (cb !! i = Some (Some c))).
Proof.
  intros Ec Eu Hm i. rewrite clear_bit, Hm by lia. rewrite <- andb_assoc. f_equal. rewrite <- negb_orb. f_equal.
  destruct (decide (i = k)) as [->|Hi].
  - rewrite Z.eqb_refl, orb_true_r, Eu, Ec. rewrite !bool_decide_true by (done || lia). done.
  - rewrite (proj2 (Z.eqb_neq _ _)) by lia. rewrite orb_false_r. do 2 f_equal. apply bool_decide_ext. lia.
Qed.

(** The boundaries after turn [k] has stored [v]. *)
Lemma boundary_stored k v cb1 : (k < length cb1)%nat →
  (∀ i, cb1 !! i = if decide (i < k)%nat then new_boundary i else cb !! i) → new_boundary k = Some v →
  ∀ i, (<[k := v]> cb1) !! i = if decide (i < S k)%nat then new_boundary i else cb !! i.
Proof.
  intros Hlt Hcb Hv i. destruct (decide (i = k)) as [->|Hne].
  - rewrite list_lookup_insert_eq by done. by rewrite decide_True by lia.
  - rewrite list_lookup_insert_ne, Hcb by done. repeat case_decide; (done || lia).
Qed.

Lemma loop_step k st : (∃ nb, new_boundary k = Some nb) → loop_state k st →
  ∃ st', boundary_step um blk k st = Some st' ∧ loop_state (S k) st'.
Proof.
  destruct st as [bs1 cb1]. intros [nb Hnb] (Hl1 & Hl2 & Hbs & Hcb). cbn [fst snd] in *. unfold boundary_step.
  pose proof (Hcb k) as Hk. rewrite decide_False in Hk by lia. rewrite Hk.
  pose proof Hnb as Hnb'. unfold new_boundary in Hnb'. destruct (cb !! k) as [c|] eqn:Ec; [|done].
  cbn [mbind option_bind] in *. rewrite truthy_bit.
  assert (k < length cb1)%nat as Hlt by (rewrite Hl2; by eapply lookup_lt_Some).
  destruct (Z.testbit um (Z.of_nat k)) eqn:Eu.
  - destruct c as [c|]; [|done]. cbn [mbind option_bind] in *.
    destruct (bs !! c) as [b|] eqn:Eb; [|done]. destruct (Hbs c b Eb) as (m & Em & Hm0 & Hm). rewrite Em. cbn [mbind option_bind].
    eexists. split; [done|]. cbn [prev set_inCache inCache]. split_and!; cbn [fst snd]; rewrite ?length_insert; try done.
    + intros x bx Hx. destruct (decide (c = x)) as [<-|Hne].
      * rewrite Eb in Hx. injection Hx as <-.
        rewrite list_lookup_insert_eq by (rewrite Hl1; by eapply lookup_lt_Some). eexists. split; [done|]. split.
        { intros H0. apply Z.land_nonneg. left. by apply Hm0. }
        by apply bits_cleared.
      * destruct (Hbs x bx Hx) as (mx & Ex & Hx0 & Hmx). exists mx. rewrite list_lookup_insert_ne by done.
        split_and!; [done..|]. eapply bits_untouched; [done..|right; congruence].
    + apply boundary_stored; [done..|]. by rewrite Hnb, <- Hnb'.
  - case_decide as Hc.
    + subst c. destruct (bs !! blk) as [b|] eqn:Eb; [|done]. destruct (Hbs blk b Eb) as (m & Em & _). rewrite Em.
      eexists. split; [done|]. split_and!; cbn [fst snd]; rewrite ?length_insert; try done.
      * intros x bx Hx. destruct (Hbs x bx Hx) as (mx & Ex & Hx0 & Hmx). exists mx. split_and!; [done..|]. eapply bits_untouched; [done..|by left].
      * apply boundary_stored; [done..|]. by rewrite Hnb, <- Hnb'.
    + eexists. split; [done|]. split_and!; cbn [fst snd]; try done.
      * intros x bx Hx. destruct (Hbs x bx Hx) as (mx & Ex & Hx0 & Hmx). exists mx. split_and!; [done..|]. eapply bits_untouched; [done..|by left].
      * intros i. rewrite Hcb. destruct (decide (i = k)) as [->|Hne]; [|by repeat case_decide; (done || lia)].
        rewrite decide_False, decide_True by lia. rewrite Hnb, Ec. by injection Hnb' as ->.
Qed.

Lemma loop_all k n st : (∀ i, (k <= i < k + n)%nat → ∃ nb, new_boundary i = Some nb) → loop_state k st →
  ∃ st', boundary_loop um blk (seq k n) st = Some st' ∧ loop_state (k + n) st'.
Proof.
  revert k st. induction n as [|n IH]; intros k st Hnb Hst; cbn [seq boundary_loop].
  - exists st. by rewrite Nat.add_0_r.
  - destruct (loop_step k st) as (st1 & -> & Hst1); [apply Hnb; lia|done|]. cbn [mbind option_bind].
    destruct (IH (S k) st1) as (st2 & -> & Hst2); [intros i Hi; apply Hnb; lia|done|].
    exists st2. split; [done|]. by replace (k + S n)%nat with (S k + n)%nat by lia.
Qed.

Lemma loop_start : loop_state 0 (bs, cb).
Proof.
  split_and!; try done. intros x b Hx. exists (inCache b). split_and!; [by destruct b|done|].
  intros i. rewrite (bool_decide_false (i < 0)%nat) by lia. cbn. by rewrite andb_true_r.
Qed.

End Loop.
(** *** Relinking *)

Lemma lookup_alter_if (f : FALRUBlk → FALRUBlk) (i j : nat) (bs : list FALRUBlk) :
  alter f i bs !! j = (λ b, if decide (i = j) then f b else b) <$> bs !! j.
Proof.
  destruct (decide (i = j)) as [<-|Hne].
  - by rewrite list_lookup_alter_eq.
  - rewrite list_lookup_alter_ne by done. by destruct (bs !! j).
Qed.

(** The links after [blk] has been moved from behind [pr] and before [nx] to the
    front of [hd]. *)
Definition relinked (blk hd pr : nat) (nx : option nat) (x : nat) (b b' : FALRUBlk) : Prop :=
  base b' = base b ∧ inCache b' = inCache b ∧
  next b' = (if decide (x = blk) then Some hd else if decide (x = pr) then nx else next b) ∧
  prev b' = (if decide (x = blk) then None else if decide (x = hd) then Some blk
             else if decide (Some x = nx) then Some pr else prev b).

Lemma relink_spec bs blk hd tl pr nx b0 bp bh :
  bs !! blk = Some b0 → bs !! pr = Some bp → bs !! hd = Some bh →
  (∀ n, nx = Some n → is_Some (bs !! n)) →
  prev b0 = Some pr → next b0 = nx → (nx = None ↔ blk = tl) →
  blk ≠ pr → blk ≠ hd → nx ≠ Some blk → nx ≠ Some hd →
  ∃ bs', relink bs blk hd tl = Some (bs', if decide (blk = tl) then pr else tl) ∧ length bs' = length bs ∧
    ∀ x b, bs !! x = Some b → ∃ b', bs' !! x = Some b' ∧ relinked blk hd pr nx x b b'.
Proof.
  intros H0 Hp Hh Hn Ep En Htl N1 N2 N3 N4. unfold relink, unlink. rewrite H0. cbn [mbind option_bind].
  rewrite Ep, En. unfold relinked. destruct nx as [n|].
  - rewrite decide_False by (intros Ht; apply Htl in Ht; done). cbn [mbind option_bind].
    destruct (Hn n eq_refl) as [bn Hbn].
    erewrite (upd_blk_alter _ pr) by done. cbn [mbind option_bind].
    rewrite lookup_alter_if, H0. destruct (decide (pr = blk)) as [->|_]; [done|].
    cbn [fmap option_fmap option_map mbind option_bind].
    rewrite Ep, En. cbn [mbind option_bind].
    erewrite (upd_blk_alter _ n) by (rewrite lookup_alter_if, Hbn; done). cbn [mbind option_bind].
    do 2 (erewrite (upd_blk_alter _ blk) by (rewrite !lookup_alter_if, H0; done); cbn [mbind option_bind]).
    erewrite (upd_blk_alter _ hd) by (rewrite !lookup_alter_if, Hh; done). cbn [mbind option_bind].
    rewrite decide_False by (intros Ht; apply Htl in Ht; done).
    eexists. split; [done|]. split; [by rewrite !length_alter|]. intros x b Hx.
    rewrite !lookup_alter_if, Hx. eexists. split; [done|].
    repeat case_decide; simplify_eq; cbn; try done.
  - rewrite !decide_True by (done || by apply Htl). cbn [mbind option_bind].
    erewrite (upd_blk_alter _ pr) by done. cbn [mbind option_bind].
    do 2 (erewrite (upd_blk_alter _ blk) by (rewrite !lookup_alter_if, H0; done); cbn [mbind option_bind]).
    erewrite (upd_blk_alter _ hd) by (rewrite !lookup_alter_if, Hh; done). cbn [mbind option_bind].
    eexists. split; [done|]. split; [by rewrite !length_alter|]. intros x b Hx.
    rewrite !lookup_alter_if, Hx. eexists. split; [done|].
    repeat case_decide; simplify_eq; cbn; try done.
Qed.

(** *** Moving a block to the front *)

(** The order after the block at position [p] has been used. *)
Definition to_front (p : nat) (l : list nat) : list nat :=
  match l !! p with Some x => x :: delete p l | None => l end.

Lemma to_front_lookup p l x r : l !! p = Some x →
  to_front p l !! r = match r with
                      | O => Some x
                      | S q => if decide (q < p)%nat then l !! q else l !! S q
                      end.
Proof.
  intros Hx. unfold to_front. rewrite Hx. destruct r as [|q]; [done|].
  change ((x :: delete p l) !! S q) with (delete p l !! q).
  case_decide; [by rewrite list_lookup_delete_lt|rewrite list_lookup_delete_ge; [done|lia]].
Qed.

Lemma to_front_perm p l : to_front p l ≡ₚ l.
Proof.
  unfold to_front. destruct (l !! p) as [x|] eqn:E; [|done]. symmetry. by apply delete_Permutation.
Qed.

Lemma to_front_head l : to_front 0 l = l.
Proof. by destruct l. Qed.

(** The bits after the loop are those of the new positions, except in [blk]. *)
Lemma moved_bits p q x m um old :
  0 <= c0 → bits_at c0 nc p um → bits_at c0 nc q old → q ≠ p →
  (∀ i : nat, Z.testbit m (Z.of_nat i) = Z.testbit old (Z.of_nat i) &&
     negb (bool_decide (i < nc)%nat && negb (Z.testbit um (Z.of_nat i)) && x i)) →
  (∀ i, (i < nc)%nat → x i = (Z.of_nat q =? capacity c0 i - 1)) →
  bits_at c0 nc (if decide (q < p)%nat then S q else q) m.
Proof.
  intros Hc Hum Hold Hne Hm Hx i. rewrite Hm, Hum, Hold. case_bool_decide as Hi; cbn; [|done].
  rewrite Hx by done. destruct (decide (q < p)%nat); repeat (zcase; cbn; try done; try lia).
Qed.

(** The new boundaries are the last blocks of the smaller caches again. *)
Lemma moved_boundary l bs cb um p blk b0 i :
  ordered c0 nc l bs cb → l !! p = Some blk → bs !! blk = Some b0 → (i < nc)%nat →
  Z.testbit um (Z.of_nat i) = negb (Z.of_nat p <? capacity c0 i) →
  new_boundary bs cb um blk i = Some (to_front p l !! Z.to_nat (capacity c0 i - 1)).
Proof.
  intros Ho Hp Hb Hi Hum. pose proof (capacity_pos i (or_c0 _ _ _ _ _ Ho)) as Hc.
  pose proof (or_fit _ _ _ _ _ Ho i Hi) as Hfit.
  unfold new_boundary. rewrite (or_cb _ _ _ _ _ Ho i Hi). cbn [mbind option_bind]. rewrite Hum.
  destruct (lookup_lt_is_Some_2 l (Z.to_nat (capacity c0 i - 1))) as [c Ec]; [lia|]. rewrite Ec.
  assert (∃ bc, bs !! c = Some bc) as [bc Hbc].
  { apply lookup_lt_is_Some_2. pose proof (or_in _ _ _ _ _ Ho) as HF.
    apply (Forall_lookup_1 _ _ _ _ HF Ec). }
  rewrite (to_front_lookup p l blk) by done.
  assert (∃ q, Z.to_nat (capacity c0 i - 1) = S q ∧ Z.of_nat q = capacity c0 i - 2) as (q & Eq & Hq).
  { exists (Z.to_nat (capacity c0 i - 2)). lia. }
  rewrite Eq in *. zcase; cbn [negb].
  - destruct (decide (Some c = Some blk)) as [[= ->]|Hne].
    + rewrite Hbc. cbn [mbind option_bind]. f_equal. rewrite (or_prev _ _ _ _ _ Ho _ _ _ Ec Hbc).
      assert (p = S q) as -> by by eapply NoDup_lookup; [apply Ho|..]. by rewrite decide_True by lia.
    + f_equal. rewrite decide_False; [done|]. intros Hlt. assert (S q = p) as <-; [lia|]. congruence.
  - cbn [mbind option_bind]. rewrite Hbc. cbn [mbind option_bind]. f_equal. rewrite (or_prev _ _ _ _ _ Ho _ _ _ Ec Hbc).
    by rewrite decide_True by lia.
Qed.

(** The links after relinking are those of the new order. *)
Lemma moved_links l blk hd pr p x b b' r :
  NoDup l → l !! S p = Some blk → l !! p = Some pr → l !! 0%nat = Some hd →
  (∀ q, l !! q = Some x → prev b = match q with O => None | S k => l !! k end ∧ next b = l !! S q) →
  relinked blk hd pr (l !! S (S p)) x b b' → to_front (S p) l !! r = Some x →
  prev b' = match r with O => None | S k => to_front (S p) l !! k end ∧ next b' = to_front (S p) l !! S r.
Proof.
  intros Hnd Hblk Hpr Hhd Hlink (_ & _ & Hn & Hp) Hr. rewrite Hn, Hp.
  assert (∀ i j y z, l !! i = Some y → l !! j = Some z → y = z → i = j) as Hinj.
  { intros i j y z Hi Hj ->. by eapply NoDup_lookup. }
  rewrite (to_front_lookup (S p) l blk) in Hr by done.
  rewrite !(to_front_lookup (S p) l blk _ Hblk). destruct r as [|q].
  { injection Hr as <-. rewrite !decide_True by done. rewrite decide_True by lia. by rewrite Hhd. }
  assert (∃ k, l !! k = Some x ∧ (k = q ∧ (q < S p)%nat ∨ k = S q ∧ (S p <= q)%nat)) as (k & Hk & Ek)
    by (case_decide; [exists q|exists (S q)]; (split; [done|lia])).
  rewrite !(decide_False (P := x = blk)) by (intros ->; pose proof (Hinj k (S p) blk blk Hk Hblk eq_refl); lia).
  destruct (Hlink k Hk) as [Hb1 Hb2]. clear Hr Hn Hp Hlink.
  assert (∀ j y, l !! j = Some y → (x = y ↔ k = j)) as Hxy.
  { intros j y Hj. split; [by apply Hinj|]. intros ->. congruence. }
  rewrite (to_front_lookup (S p) l blk q Hblk). split.
  - destruct (decide (x = hd)) as [Hx|Hx]; rewrite (Hxy 0%nat hd Hhd) in Hx.
    { destruct q; [done|lia]. }
    destruct (decide (Some x = l !! S (S p))) as [Hx2|Hx2].
    + assert (k = S (S p)) as Hk2 by by apply (Hinj k (S (S p)) x x).
      destruct q as [|q]; [lia|]. rewrite decide_True by lia. rewrite <- Hpr. f_equal. lia.
    + assert (k ≠ S (S p)) as Hk2 by (intros ->; congruence). rewrite Hb1.
      destruct k as [|k]; [done|]. destruct q as [|q]; [lia|].
      destruct Ek as [[Ek Hq]|[Ek Hq]]; injection Ek as ->; case_decide; (done || lia).
  - destruct (decide (x = pr)) as [Hx|Hx]; rewrite (Hxy p pr Hpr) in Hx.
    + case_decide; [lia|]. f_equal. lia.
    + rewrite Hb2. case_decide; f_equal; lia.
Qed.

(** The first half of [moveToHead]: the bits and boundaries of the new order. *)
Lemma bits_phase l bs cb p blk b0 :
  ordered c0 nc l bs cb → l !! p = Some blk → bs !! blk = Some b0 →
  let mask := 2 ^ Z.of_nat nc - 1 in
  ∃ bs1 cb1 bs2, boundary_loop (Z.lxor (inCache b0) mask) blk (seq 0 nc) (bs, cb) = Some (bs1, cb1) ∧
    upd_blk (set_inCache mask) blk bs1 = Some bs2 ∧
    length bs2 = length bs ∧ length cb1 = nc ∧
    (∀ i, (i < nc)%nat → cb1 !! i = Some (to_front p l !! Z.to_nat (capacity c0 i - 1))) ∧
    (∀ r x, to_front p l !! r = Some x → ∃ b m, bs !! x = Some b ∧ bs2 !! x = Some (set_inCache m b) ∧
       0 <= m ∧ bits_at c0 nc r m).
Proof.
  intros Ho Hp Hb mask. set (um := Z.lxor (inCache b0) mask).
  destruct (or_bits _ _ _ _ _ Ho p blk b0 Hp Hb) as [_ Hb0].
  assert (∀ i : nat, Z.testbit um (Z.of_nat i) = bool_decide (i < nc)%nat && negb (Z.testbit (inCache b0) (Z.of_nat i))) as Hum.
  { intros i. unfold um, mask. rewrite Z.lxor_spec, mask_bit, Hb0 by lia.
    case_bool_decide; repeat (zcase; cbn; try done; try lia). }
  assert (∀ i, (i < nc)%nat → new_boundary bs cb um blk i = Some (to_front p l !! Z.to_nat (capacity c0 i - 1))) as Hnb.
  { intros i Hi. eapply moved_boundary; [done..|]. rewrite Hum, Hb0, bool_decide_true by done. done. }
  destruct (loop_all bs cb um blk 0 nc (bs, cb)) as ([bs1 cb1] & E & Hl1 & Hl2 & Hbits & Hcb);
    [intros i Hi; eexists; apply Hnb; lia|apply loop_start|]. cbn [fst snd] in *.
  destruct (Hbits blk b0 Hb) as (m0 & Em0 & _).
  exists bs1, cb1, (alter (set_inCache mask) blk bs1). split; [done|].
  split; [by apply (upd_blk_alter _ _ _ _ Em0)|]. rewrite length_alter. split; [done|].
  split; [by rewrite Hl2, (or_ncb _ _ _ _ _ Ho)|]. split; [intros i Hi; by rewrite Hcb, decide_True, Hnb by done|].
  intros r x Hr. rewrite (to_front_lookup p l blk) in Hr by done. destruct r as [|q].
  { injection Hr as <-. exists b0, mask. rewrite lookup_alter_if, Em0. cbn [fmap option_fmap option_map]. rewrite decide_True by done.
    split_and!; [done..|unfold mask; pose proof (Z.pow_pos_nonneg 2 (Z.of_nat nc)); lia|].
    intros i. unfold mask. rewrite mask_bit by lia. pose proof (capacity_pos i (or_c0 _ _ _ _ _ Ho)).
    case_bool_decide; repeat (zcase; cbn; try done; try lia). }
  assert (∃ k, l !! k = Some x ∧ k ≠ p ∧ S q = if decide (k < p)%nat then S k else k) as (k & Hk & Hkp & ->).
  { case_decide; [exists q|exists (S q)]; (split; [done|]; split; [lia|]); case_decide; lia. }
  assert (x ≠ blk) as Hx by (intros ->; apply Hkp; by eapply NoDup_lookup; [apply Ho|..]).
  destruct (lookup_lt_is_Some_2 bs x) as [b Hbx].
  { pose proof (or_in _ _ _ _ _ Ho) as HF. apply (Forall_lookup_1 _ _ _ _ HF Hk). }
  destruct (or_bits _ _ _ _ _ Ho k x b Hk Hbx) as [Hpos Hold]. destruct (Hbits x b Hbx) as (m & Em & Hm0 & Hm).
  exists b, m. rewrite lookup_alter_if, Em. cbn [fmap option_fmap option_map]. rewrite decide_False by done. split_and!; [done..|by apply Hm0|].
  apply (moved_bits p k (λ i, bool_decide (cb !! i = Some (Some x))) m (inCache b0) (inCache b)); try done.
  - pose proof (or_c0 _ _ _ _ _ Ho). lia.
  - intros i. rewrite Hm, Hum. change (0 + nc)%nat with nc. by destruct (bool_decide (i < nc)%nat).
  - intros i Hi. rewrite (or_cb _ _ _ _ _ Ho i Hi). pose proof (capacity_pos i (or_c0 _ _ _ _ _ Ho)).
    case_bool_decide as Hc; zcase; try done.
    + injection Hc as Hc. destruct n. assert (k = Z.to_nat (capacity c0 i - 1)); [|lia].
      by eapply NoDup_lookup; [apply Ho|..].
    + destruct Hc. replace (Z.to_nat (capacity c0 i - 1)) with k by lia. by rewrite Hk.
Qed.

(** The second half of [moveToHead]: the links of the new order. *)
Lemma relink_phase l bs p blk hd tl :
  NoDup l → l !! S p = Some blk → l !! 0%nat = Some hd → l !! (length l - 1)%nat = Some tl →
  (∀ r x, l !! r = Some x → ∃ b, bs !! x = Some b ∧
     prev b = match r with O => None | S k => l !! k end ∧ next b = l !! S r) →
  ∃ bs' tl', relink bs blk hd tl = Some (bs', tl') ∧ length bs' = length bs ∧
    to_front (S p) l !! (length l - 1)%nat = Some tl' ∧
    (∀ r x b, to_front (S p) l !! r = Some x → bs !! x = Some b → ∃ b', bs' !! x = Some b' ∧
       base b' = base b ∧ inCache b' = inCache b ∧
       prev b' = match r with O => None | S k => to_front (S p) l !! k end ∧ next b' = to_front (S p) l !! S r).
Proof.
  intros Hnd Hblk Hhd Htl Hlink.
  assert (∀ i j y, l !! i = Some y → l !! j = Some y → i = j) as Hinj by (intros; by eapply NoDup_lookup).
  pose proof (lookup_lt_Some _ _ _ Hblk) as Hlen.
  destruct (lookup_lt_is_Some_2 l p) as [pr Hpr]; [lia|].
  destruct (Hlink _ _ Hblk) as (b0 & Hb0 & Hp0 & Hn0). destruct (Hlink _ _ Hpr) as (bp & Hbp & _).
  destruct (Hlink _ _ Hhd) as (bh & Hbh & _).
  assert (l !! S (S p) = None ↔ blk = tl) as Hend.
  { rewrite lookup_ge_None. split.
    - intros Hge. replace (length l - 1)%nat with (S p) in Htl by lia. congruence.
    - intros ->. pose proof (Hinj _ _ _ Hblk Htl). lia. }
  destruct (relink_spec bs blk hd tl pr (l !! S (S p)) b0 bp bh) as (bs' & E & Hl' & Hall); try done.
  - intros n Hn. destruct (Hlink _ _ Hn) as (b & Hb & _). by exists b.
  - by rewrite Hp0.
  - intros ->. pose proof (Hinj _ _ _ Hblk Hpr). lia.
  - intros ->. by pose proof (Hinj _ _ _ Hblk Hhd).
  - intros Hx. pose proof (Hinj _ _ _ Hblk Hx). lia.
  - intros Hx. by pose proof (Hinj _ _ _ Hhd Hx).
  - exists bs', (if decide (blk = tl) then pr else tl). split; [done|]. split; [done|]. split.
    + rewrite (to_front_lookup (S p) l blk) by done. destruct (length l - 1)%nat as [|q] eqn:Eq; [lia|].
      destruct (decide (blk = tl)) as [->|Ht].
      * pose proof (Hinj _ _ _ Hblk Htl). rewrite decide_True by lia. rewrite <- Hpr. f_equal. lia.
      * rewrite decide_False; [done|]. intros Hq. apply Ht. assert (q = p) as -> by lia. congruence.
    + intros r x b Hr Hx. destruct (Hall x b Hx) as (b' & Hb' & Hrel). exists b'. split; [done|].
      split; [apply Hrel|]. split; [apply Hrel|].
      eapply (moved_links l blk hd pr p x b b' r); try done.
      intros q Hq. destruct (Hlink _ _ Hq) as (b1 & Hb1 & H1). rewrite Hx in Hb1. by injection Hb1 as <-.
Qed.

(** Putting bits, boundaries and links of the new order together. *)
Lemma ordered_moved l bs cb p bs' cb' :
  ordered c0 nc l bs cb → length bs' = length bs → length cb' = nc →
  (∀ i, (i < nc)%nat → cb' !! i = Some (to_front p l !! Z.to_nat (capacity c0 i - 1))) →
  (∀ r x, to_front p l !! r = Some x → ∃ b', bs' !! x = Some b' ∧ 0 <= inCache b' ∧ bits_at c0 nc r (inCache b') ∧
     prev b' = match r with O => None | S k => to_front p l !! k end ∧ next b' = to_front p l !! S r) →
  ordered c0 nc (to_front p l) bs' cb'.
Proof.
  intros Ho Hlb Hlc Hcb Hall. pose proof (to_front_perm p l) as Hperm.
  assert (∀ r x b, to_front p l !! r = Some x → bs' !! x = Some b →
    0 <= inCache b ∧ bits_at c0 nc r (inCache b) ∧
    prev b = match r with O => None | S k => to_front p l !! k end ∧ next b = to_front p l !! S r) as Hget.
  { intros r x b Hr Hb. destruct (Hall r x Hr) as (b' & Hb' & Hrest). rewrite Hb in Hb'. by injection Hb' as <-. }
  destruct Ho as [? Hnd Hlen Hin Hfit _ _ _ _ _]. split; try done.
  - by rewrite Hperm.
  - by rewrite (Permutation_length Hperm), Hlb.
  - by rewrite Hperm, Hlb.
  - by rewrite (Permutation_length Hperm).
  - intros r x b Hr Hb. apply (Hget r x b Hr Hb).
  - intros r x b Hr Hb. apply (Hget r x b Hr Hb).
  - intros r x b Hr Hb. destruct (Hget r x b Hr Hb) as (? & ? & _). done.
Qed.

End Order.

(** ** The tag store *)

(** The store describes the order [l] of its blocks. *)
Record store_order (s : FALRU) (l : list nat) : Prop := {
  so_order : ordered (2 ^ 17 / fa_blkSize s) (numCaches s) l (f_blks s) (cacheBoundaries s);
  so_head : l !! 0%nat = Some (f_head s);
  so_tail : l !! (length l - 1)%nat = Some (f_tail s);
  so_mask : cacheMask s = 2 ^ Z.of_nat (numCaches s) - 1;
  so_size : capacity (2 ^ 17 / fa_blkSize s) (numCaches s) = Z.of_nat (length l)
}.

(** Two stores with the same block contents. *)
Definition same_bases (bs bs' : list FALRUBlk) : Prop := ∀ x, base <$> bs' !! x = base <$> bs !! x.

Lemma same_bases_intro bs bs' : length bs' = length bs →
  (∀ x b, bs !! x = Some b → ∃ b', bs' !! x = Some b' ∧ base b' = base b) → same_bases bs bs'.
Proof.
  intros Hl H x. destruct (bs !! x) as [b|] eqn:E.
  - destruct (H x b E) as (b' & -> & Hb). cbn. by rewrite Hb.
  - apply lookup_ge_None in E. rewrite (proj2 (lookup_ge_None bs' x)) by lia. done.
Qed.

Lemma moveToHead_head s l :
  store_order s l →
  ∃ bs cb, moveToHead s (f_head s) = Some (with_order s bs cb (f_head s) (f_tail s)) ∧
    store_order (with_order s bs cb (f_head s) (f_tail s)) l ∧ same_bases (f_blks s) bs.
Proof.
  intros [Ho Hh Ht Hm Hs]. unfold moveToHead.
  destruct (lookup_lt_is_Some_2 (f_blks s) (f_head s)) as [b0 Hb].
  { pose proof (or_in _ _ _ _ _ Ho) as HF. apply (Forall_lookup_1 _ _ _ _ HF Hh). }
  rewrite Hb, Hm. cbn [mbind option_bind].
  destruct (bits_phase _ _ _ _ _ _ _ _ Ho Hh Hb) as (bs1 & cb1 & bs2 & -> & E2 & Hl2 & Hlc & Hcb & Hall).
  cbn [mbind option_bind]. rewrite E2. cbn [mbind option_bind]. rewrite decide_True by done.
  exists bs2, cb1. split; [done|]. rewrite to_front_head in *. split.
  - split; cbn; try done. rewrite <- (to_front_head l). eapply ordered_moved; try done; rewrite ?to_front_head; [done|].
    intros r x Hr. destruct (Hall r x Hr) as (b & m & Hbx & Hb2 & Hm0 & Hbits).
    exists (set_inCache m b). split_and!; try done; cbn.
    + apply (or_prev _ _ _ _ _ Ho _ _ _ Hr Hbx).
    + apply (or_next _ _ _ _ _ Ho _ _ _ Hr Hbx).
  - apply same_bases_intro; [done|]. intros x b Hx.
    destruct (ordered_position _ _ _ _ _ x Ho) as [r Hr]; [by eapply lookup_lt_Some|].
    destruct (Hall r x Hr) as (b' & m & Hb' & Hb2 & _). rewrite Hx in Hb'. injection Hb' as <-. by eexists.
Qed.

(** [moveToHead] puts the block at the front of the order and changes nothing
    else: neither blocks nor statistics nor the hash table. *)
Lemma moveToHead_order s l p blk :
  store_order s l → l !! p = Some blk →
  ∃ bs cb tl, moveToHead s blk = Some (with_order s bs cb blk tl) ∧
    store_order (with_order s bs cb blk tl) (to_front p l) ∧ same_bases (f_blks s) bs.
Proof.
  intros Hso Hp. destruct p as [|p].
  { rewrite (so_head _ _ Hso) in Hp. injection Hp as <-. rewrite to_front_head.
    destruct (moveToHead_head s l Hso) as (bs & cb & H). by exists bs, cb, (f_tail s). }
  destruct Hso as [Ho Hh Ht Hm Hs]. pose proof (or_in _ _ _ _ _ Ho) as HF.
  assert (∀ r x, l !! r = Some x → ∃ b, f_blks s !! x = Some b) as Hin.
  { intros r x Hr. apply lookup_lt_is_Some_2. apply (Forall_lookup_1 _ _ _ _ HF Hr). }
  destruct (Hin _ _ Hp) as [b0 Hb]. unfold moveToHead. rewrite Hb, Hm. cbn [mbind option_bind].
  destruct (bits_phase _ _ _ _ _ _ _ _ Ho Hp Hb) as (bs1 & cb1 & bs2 & -> & E2 & Hl2 & Hlc & Hcb & Hall).
  cbn [mbind option_bind]. rewrite E2. cbn [mbind option_bind].
  assert (∀ i j y, l !! i = Some y → l !! j = Some y → i = j) as Hinj
    by (intros i j y Hi Hj; by eapply NoDup_lookup; [apply Ho|..]).
  assert (blk ≠ f_head s) as Hne by (intros ->; by pose proof (Hinj _ _ _ Hp Hh)).
  rewrite decide_False by done.
  assert (∀ x b, f_blks s !! x = Some b → ∃ r m, to_front (S p) l !! r = Some x ∧ bs2 !! x = Some (set_inCache m b)) as Hbs2.
  { intros x b Hx. destruct (ordered_position _ _ _ _ _ x Ho) as [r Hr]; [by eapply lookup_lt_Some|].
    destruct (list_elem_of_lookup_1 (to_front (S p) l) x) as [r' Hr'].
    { rewrite to_front_perm. by eapply list_elem_of_lookup_2. }
    destruct (Hall r' x Hr') as (b' & m & Hb' & Hb2 & _). rewrite Hx in Hb'. injection Hb' as <-. by eexists _, _. }
  destruct (relink_phase l bs2 p blk (f_head s) (f_tail s)) as (bs' & tl' & -> & Hl' & Htl' & Hlinks); try done.
  { apply Ho. }
  { intros r x Hr. destruct (Hin _ _ Hr) as [b Hx]. destruct (Hbs2 x b Hx) as (_ & m & _ & Hb2).
    eexists. split; [done|]. cbn. split; [apply (or_prev _ _ _ _ _ Ho _ _ _ Hr Hx)|apply (or_next _ _ _ _ _ Ho _ _ _ Hr Hx)]. }
  cbn [mbind option_bind]. exists bs', cb1, tl'. split; [done|]. split.
  - split; cbn; rewrite ?(Permutation_length (to_front_perm (S p) l)); try done.
    + eapply ordered_moved; try done; [congruence|]. intros r x Hr.
      destruct (Hall r x Hr) as (b & m & Hbx & Hb2 & Hm0 & Hbits).
      destruct (Hlinks r x _ Hr Hb2) as (b' & Hb' & _ & Hinc & Hpv & Hnx).
      exists b'. rewrite Hinc. cbn [inCache set_inCache]. split_and!; done.
    + by rewrite (to_front_lookup (S p) l blk).
  - apply same_bases_intro; [congruence|]. intros x b Hx. destruct (Hbs2 x b Hx) as (r & m & Hr & Hb2).
    destruct (Hlinks r x _ Hr Hb2) as (b' & Hb' & Hbase & _). by exists b'.
Qed.
