(* ===== verification/FaLruRun.v ===== *)
(** Runs of the fully associative tag store: that its own check always holds,
    that one run counts the hits of caches of all sizes, and that it cannot be
    used by the cache as it is. *)

From S2P Require Import Prelude IntMath Packet CacheBlk FaLru FaLruOrder.

(** ** Capacities *)

Section Capacities.
Context (c0 : Z).

Lemma capacity_S i : capacity c0 (S i) = 2 * capacity c0 i.
Proof. unfold capacity. rewrite Nat2Z.inj_succ, Z.pow_succ_r by lia. lia. Qed.

Lemma capacity_mono i j : 0 <= c0 → (i <= j)%nat → capacity c0 i <= capacity c0 j.
Proof.
  intros Hc. induction 1 as [|j Hj IH]; [lia|]. rewrite capacity_S.
  assert (0 <= capacity c0 j); [|lia]. unfold capacity. pose proof (Z.pow_pos_nonneg 2 (Z.of_nat j)). nia.
Qed.

Lemma capacity_strict i j : 2 <= c0 → (i < j)%nat → capacity c0 i < capacity c0 j.
Proof.
  intros Hc Hij. pose proof (capacity_mono (S i) j ltac:(lia) ltac:(lia)) as H. rewrite capacity_S in H.
  pose proof (capacity_pos c0 i Hc). lia.
Qed.

Lemma capacity_lt i j : 2 <= c0 → capacity c0 i < capacity c0 j → (i < j)%nat.
Proof.
  intros Hc Hlt. destruct (decide (i < j)%nat); [done|]. pose proof (capacity_mono j i ltac:(lia) ltac:(lia)). lia.
Qed.

(** The bits of the next position, when it is not a boundary. *)
Lemma bits_next nc p x j : 2 <= c0 → Z.of_nat p < capacity c0 j → (∀ i, (i < j)%nat → capacity c0 i <= Z.of_nat p) →
  Z.of_nat p + 1 ≠ capacity c0 j → bits_at c0 nc p x → bits_at c0 nc (S p) x.
Proof.
  intros Hc Hj Hlow Hne Hx i. rewrite Hx. f_equal. destruct (decide (i < j)%nat) as [Hi|Hi].
  - specialize (Hlow i Hi). repeat (zcase; try done; try lia).
  - pose proof (capacity_mono j i ltac:(lia) ltac:(lia)). repeat (zcase; try done; try lia).
Qed.

(** And when it is. *)
Lemma bits_cross nc p x j : 2 <= c0 → Z.of_nat p + 1 = capacity c0 j → 0 <= x → bits_at c0 nc p x →
  0 <= Z.land x (Z.lnot (Z.shiftl 1 (Z.of_nat j))) ∧ bits_at c0 nc (S p) (Z.land x (Z.lnot (Z.shiftl 1 (Z.of_nat j)))).
Proof.
  intros Hc Hp H0 Hx. split; [apply Z.land_nonneg; by left|]. intros i. rewrite clear_bit, Hx by lia.
  rewrite <- andb_assoc. f_equal. destruct (decide (i = j)) as [->|Hij].
  - rewrite Z.eqb_refl, andb_false_r. zcase; [lia|done].
  - rewrite (proj2 (Z.eqb_neq _ _)), andb_true_r by lia.
    destruct (decide (i < j)%nat) as [Hi|Hi].
    + pose proof (capacity_strict i j Hc Hi). repeat (zcase; try done; try lia).
    + pose proof (capacity_strict j i Hc ltac:(lia)). repeat (zcase; try done; try lia).
Qed.

End Capacities.

(** ** The constructor *)

Section Construct.
Context (c0 : Z) (nc n : nat) (Hc0 : 2 <= c0) (Hn : capacity c0 nc = Z.of_nat n) (Hmax : Z.of_nat n <= 2 ^ 31).

(** The block at index [q] is what a store in the initial order has there. *)
Definition placed (q : nat) (b : FALRUBlk) : Prop :=
  base b = CacheBlk_new ∧ 0 <= inCache b ∧ bits_at c0 nc q (inCache b) ∧
  prev b = match q with O => None | S k => Some k end ∧
  next b = if decide (S q < n)%nat then Some (S q) else None.

Record link_state (i : nat) (bs : list FALRUBlk) (cb : list (option nat)) (index : Z) (j : nat) (flags : Z) : Prop := {
  ls_len : length bs = n;
  ls_base : Forall (λ b, base b = CacheBlk_new) bs;
  ls_done : ∀ q b, (q < i ∨ q = n - 1)%nat → bs !! q = Some b → placed q b;
  ls_cb : length cb = nc ∧ ∀ k, (k < j)%nat → cb !! k = Some (Some (Z.to_nat (capacity c0 k - 1)));
  ls_index : index = capacity c0 j ∧ (j <= nc)%nat ∧ Z.of_nat i < capacity c0 j;
  ls_low : ∀ k, (k < j)%nat → capacity c0 k <= Z.of_nat i;
  ls_flags : 0 <= flags ∧ bits_at c0 nc i flags
}.

Lemma link_step i bs cb index j flags : (1 <= i)%nat → (S i < n)%nat → link_state i bs cb index j flags →
  ∃ bs' cb' index' j' flags', link_state (S i) bs' cb' index' j' flags' ∧
    ∀ todo, link_loop (i :: todo) bs cb index j flags = link_loop todo bs' cb' index' j' flags'.
Proof.
  intros Hi Hlt [Hl Hb Hd [Hcl Hcb] (-> & Hj & Hij) Hlow [Hf0 Hf]]. cbn [link_loop].
  destruct (lookup_lt_is_Some_2 bs i) as [b Hbi]; [lia|].
  rewrite (upd_blk_alter _ i bs b) by done. cbn [mbind option_bind].
  pose proof (capacity_mono c0 j nc ltac:(lia) Hj) as Hjn. pose proof (capacity_pos c0 j Hc0).
  rewrite u32_small by (unfold is_u32; lia).
  set (bs1 := alter (set_inCache flags) i bs).
  assert (bs1 !! i = Some (set_inCache flags b)) as Hb1 by (unfold bs1; by rewrite list_lookup_alter_eq, Hbi).
  set (f := λ b, set_touched false (set_next (Some (S i)) (set_prev (Some (i - 1)%nat) b))).
  assert (∀ cb' index' j' flags', length cb' = nc → (∀ k, (k < j')%nat → cb' !! k = Some (Some (Z.to_nat (capacity c0 k - 1)))) →
    index' = capacity c0 j' → (j' <= nc)%nat → Z.of_nat (S i) < capacity c0 j' →
    (∀ k, (k < j')%nat → capacity c0 k <= Z.of_nat (S i)) → 0 <= flags' → bits_at c0 nc (S i) flags' →
    link_state (S i) (alter f i bs1) cb' index' j' flags') as Hmk.
  { intros cb' index' j' flags' H1 H2 H3 H4 H5 H6 H7 H8. split; try done.
    - unfold bs1. by rewrite !length_alter.
    - rewrite Forall_lookup in *. intros q x Hq. rewrite lookup_alter_if in Hq. unfold bs1 in Hq. rewrite lookup_alter_if in Hq.
      destruct (bs !! q) as [y|] eqn:Ey; [|done]. apply Hb in Ey. cbn in Hq. injection Hq as <-. by repeat case_decide.
    - intros q x Hq Hx. rewrite lookup_alter_if in Hx. unfold bs1 in Hx. rewrite lookup_alter_if in Hx.
      destruct (bs !! q) as [y|] eqn:Ey; [|done]. cbn in Hx. injection Hx as <-.
      destruct (decide (i = q)) as [<-|Hne]; [|apply Hd; [lia|done]].
      rewrite Forall_lookup in Hb. specialize (Hb _ _ Ey). unfold placed, f. cbn. rewrite decide_True by done.
      destruct i as [|i]; [lia|]. split_and!; try done. f_equal. lia. }
  destruct (Z.eqb_spec (Z.of_nat i) (capacity c0 j - 1)) as [He|He].
  - assert (j < nc)%nat as Hjlt by (apply (capacity_lt c0); [done|lia]).
    rewrite decide_True by lia. cbn [mbind option_bind]. rewrite (upd_blk_alter _ i bs1 _ Hb1). cbn [mbind option_bind].
    destruct (bits_cross c0 nc i flags j) as [Hx0 Hx]; [done|lia|done..|].
    eexists _, _, _, (S j), _. split; [|done]. apply Hmk; try done.
    + by rewrite length_insert.
    + intros k Hk. destruct (decide (k = j)) as [->|Hne].
      * rewrite list_lookup_insert_eq by lia. do 2 f_equal. lia.
      * rewrite list_lookup_insert_ne by done. apply Hcb. lia.
    + rewrite capacity_S. pose proof (capacity_mono c0 (S j) nc ltac:(lia) Hjlt) as Hs. rewrite capacity_S in Hs.
      rewrite Z.shiftl_mul_pow2 by lia. rewrite u32_small by (unfold is_u32; lia). lia.
    + rewrite capacity_S. lia.
    + intros k Hk. pose proof (capacity_mono c0 k j ltac:(lia) ltac:(lia)). lia.
  - cbn [mbind option_bind]. rewrite (upd_blk_alter _ i bs1 _ Hb1). cbn [mbind option_bind].
    eexists _, _, _, j, _. split; [|done]. apply Hmk; try done; [lia| |].
    + intros k Hk. specialize (Hlow k Hk). lia.
    + eapply (bits_next c0 nc i flags j); try done. lia.
Qed.

Lemma link_all k i bs cb index j flags : (1 <= i)%nat → (i + k = n - 1)%nat → link_state i bs cb index j flags →
  ∃ bs' cb' index' j' flags', link_loop (seq i k) bs cb index j flags = Some (bs', cb', index', j') ∧
    link_state (n - 1) bs' cb' index' j' flags'.
Proof using Hc0 Hn Hmax.
  revert i bs cb index j flags. induction k as [|k IH]; intros i bs cb index j flags Hi Hk Hs; cbn [seq].
  - eexists _, _, _, _, flags. split; [done|]. by replace (n - 1)%nat with i by lia.
  - destruct (link_step i bs cb index j flags) as (bs1 & cb1 & x1 & j1 & f1 & Hs1 & E); [lia..|done|].
    rewrite E. apply IH; [lia..|done].
Qed.

(** The loop has passed all boundaries when it ends. *)
Lemma link_end bs cb index j flags : link_state (n - 1) bs cb index j flags → j = nc ∧ index = Z.of_nat n.
Proof using Hc0 Hn.
  intros [_ _ _ _ (-> & Hj & Hlt) _ _]. assert (j = nc) as ->; [|done].
  destruct (decide (j = nc)); [done|]. pose proof (capacity_mono c0 (S j) nc ltac:(lia) ltac:(lia)) as Hs.
  rewrite capacity_S in Hs. pose proof (capacity_pos c0 j Hc0).
  pose proof (capacity_mono c0 0 nc ltac:(lia) ltac:(lia)). lia.
Qed.

Lemma link_ordered bs cb index j flags : link_state (n - 1) bs cb index j flags →
  ordered c0 nc (seq 0 n) bs cb.
Proof using Hc0 Hn.
  intros Hs. destruct (link_end _ _ _ _ _ Hs) as [-> _]. destruct Hs as [Hl _ Hd [Hcl Hcb] _ _ _].
  assert (∀ p i, seq 0 n !! p = Some i → i = p ∧ (p < n)%nat) as Hseq.
  { intros p i Hp. by apply lookup_seq in Hp as [-> ?]. }
  assert (∀ p, (p < n)%nat → seq 0 n !! p = Some p) as Hseq2 by (intros p Hp; by apply lookup_seq_lt).
  assert (∀ p i b, seq 0 n !! p = Some i → bs !! i = Some b → placed p b ∧ (p < n)%nat) as Hpl.
  { intros p i b Hp Hb. apply Hseq in Hp as [-> Hlt]. split; [apply Hd; [lia|done]|done]. }
  split; try done.
  - apply NoDup_seq.
  - by rewrite length_seq.
  - apply Forall_seq. intros i Hi. lia.
  - intros i Hi. rewrite length_seq, <- Hn. by apply capacity_strict.
  - intros p i b Hp Hb. destruct (Hpl p i b Hp Hb) as [(_ & _ & _ & -> & _) Hlt]. destruct p; [done|].
    rewrite Hseq2 by lia. done.
  - intros p i b Hp Hb. destruct (Hpl p i b Hp Hb) as [(_ & _ & _ & _ & ->) Hlt]. case_decide.
    + by rewrite Hseq2.
    + symmetry. apply lookup_ge_None. rewrite length_seq. lia.
  - intros p i b Hp Hb. destruct (Hpl p i b Hp Hb) as [(_ & H0 & Hb0 & _) _]. done.
  - intros i Hi. rewrite Hcb by done. f_equal. symmetry. apply Hseq2.
    pose proof (capacity_strict c0 i nc Hc0 Hi). pose proof (capacity_pos c0 i Hc0). lia.
Qed.

End Construct.

(** The parameters of a store that can be built: blocks of at most 64K, a size
    of at least 128K. *)
Definition fa_params (k m : Z) : Prop := 0 <= k <= 16 ∧ 17 <= m <= 31.

Lemma first_blocks found n nc (c0 : Z) :
  (2 <= n)%nat → 2 <= c0 → capacity c0 nc = Z.of_nat n →
  let mask := 2 ^ Z.of_nat nc - 1 in
  ∃ bs1 bs2,
    upd_blk (λ b, set_inCache mask (set_next (Some 1%nat) (set_prev None b))) 0 (replicate n (set_base CacheBlk_new found)) = Some bs1 ∧
    upd_blk (λ b, set_inCache 0 (set_next None (set_prev (Some (n - 2)%nat) b))) (n - 1) bs1 = Some bs2 ∧
    link_state c0 nc n 1 bs2 (replicate nc (prev found)) c0 0 mask.
Proof.
  intros Hn Hc Hcap mask.
  assert (∀ i, (i < n)%nat → replicate n (set_base CacheBlk_new found) !! i = Some (set_base CacheBlk_new found)) as Hr
    by (intros; by apply lookup_replicate_2).
  assert (∀ p, Z.of_nat p < c0 → bits_at c0 nc p mask) as Hmask.
  { intros p Hp i. unfold mask. rewrite mask_bit by lia. pose proof (capacity_mono c0 0 i ltac:(lia) ltac:(lia)) as H0.
    unfold capacity in H0 at 1. cbn in H0. case_bool_decide; repeat (zcase; cbn; try done; try lia). }
  eexists _, _. split; [apply (upd_blk_alter _ 0 _ _ (Hr 0%nat ltac:(lia)))|].
  split; [apply (upd_blk_alter _ (n - 1) _ (set_base CacheBlk_new found)); rewrite list_lookup_alter_ne by lia; apply Hr; lia|].
  assert (0 <= mask) by (unfold mask; pose proof (Z.pow_pos_nonneg 2 (Z.of_nat nc)); lia).
  split.
  - by rewrite !length_alter, length_replicate.
  - rewrite Forall_lookup. intros q x Hq. rewrite !lookup_alter_if in Hq.
    destruct (_ !! q) as [y|] eqn:Ey in Hq; [|done]. apply lookup_replicate in Ey as [-> _].
    cbn in Hq. injection Hq as <-. by repeat case_decide.
  - intros q x Hq Hx. rewrite !lookup_alter_if in Hx.
    destruct (_ !! q) as [y|] eqn:Ey in Hx; [|done]. apply lookup_replicate in Ey as [-> Hqn].
    cbn in Hx. injection Hx as <-. unfold placed.
    destruct (decide ((n - 1)%nat = q)) as [E1|E1], (decide (0%nat = q)) as [E2|E2]; [lia| | |lia]; cbn.
    2:{ subst q. rewrite decide_True by lia. split_and!; try done. apply Hmask. lia. }
    { rewrite decide_False by lia. split_and!; try done.
      * intros i. rewrite Z.bits_0. symmetry. case_bool_decide as Hi; [|done]. cbn.
        pose proof (capacity_mono c0 (S i) nc ltac:(lia) Hi) as Hs. rewrite capacity_S in Hs.
        pose proof (capacity_pos c0 i Hc). zcase; lia || done.
      * destruct q; [lia|]. f_equal. lia. }
  - split; [by rewrite length_replicate|]. intros k Hk. lia.
  - unfold capacity. cbn. lia.
  - intros k Hk. lia.
  - split; [done|]. apply Hmask. lia.
Qed.

Lemma FALRU_new_ok found k m lat :
  fa_params k m → 0 < lat →
  ∃ s, FALRU_new found (2 ^ k) (2 ^ m) lat = Some s ∧
    store_order s (seq 0 (Z.to_nat (2 ^ (m - k)))) ∧
    fa_blkSize s = 2 ^ k ∧ numCaches s = Z.to_nat (m - 17) ∧ tagHash s = ∅ ∧
    Forall (λ b, base b = CacheBlk_new) (f_blks s) ∧
    hits s = replicate (S (numCaches s)) 0 ∧ misses s = replicate (S (numCaches s)) 0.
Proof.
  intros [Hk Hm] Hlat. unfold FALRU_new.
  assert (∀ j, 0 <= j <= 31 → is_u32 (2 ^ j) ∧ isPowerOf2 32 (2 ^ j) = true) as Hpow.
  { intros j Hj. assert (is_u32 (2 ^ j)) as Hu.
    { unfold is_u32. pose proof (Z.pow_pos_nonneg 2 j). pose proof (Z.pow_lt_mono_r 2 j 32). lia. }
    split; [done|]. apply isPowerOf2_spec; [lia|done|]. exists j. lia. }
  destruct (Hpow k) as [Huk ->]; [lia|]. destruct (Hpow m) as [Hum ->]; [lia|].
  rewrite (proj2 (Z.gtb_lt lat 0)) by done. cbn [negb].
  rewrite floorLog2_spec by (unfold is_u32 in *; pose proof (Z.pow_pos_nonneg 2 m); lia).
  rewrite Z.log2_pow2 by lia. cbn [mbind option_bind]. rewrite u32_small by (unfold is_u32; lia).
  rewrite (proj2 (Z.leb_gt 31 _)) by lia.
  set (nc := Z.to_nat (m - 17)). set (n := Z.to_nat (2 ^ (m - k))). set (c0 := 2 ^ (17 - k)).
  assert (2 ^ 17 / 2 ^ k = c0) as Hc0 by (rewrite <- Z.pow_sub_r by lia; done).
  assert (2 ^ m / 2 ^ k = Z.of_nat n) as Hdiv.
  { rewrite <- Z.pow_sub_r by lia. unfold n. rewrite Z2Nat.id; [done|]. apply Z.pow_nonneg. lia. }
  assert (2 <= c0) as Hc2 by (unfold c0; apply (Z.pow_le_mono_r 2 1 (17 - k)); lia).
  assert (capacity c0 nc = Z.of_nat n) as Hcap.
  { unfold capacity, c0, nc, n. rewrite <- Z.pow_add_r by lia.
    rewrite !Z2Nat.id; [f_equal; lia|apply Z.pow_nonneg; lia|lia]. }
  assert (2 <= Z.of_nat n <= 2 ^ 31) as Hn.
  { pose proof (capacity_pos c0 nc Hc2). split; [lia|]. rewrite <- Hdiv, <- Z.pow_sub_r by lia. apply Z.pow_le_mono_r; lia. }
  rewrite Hdiv, Hc0. rewrite (proj2 (Z.ltb_ge _ 2)) by lia. rewrite Nat2Z.id.
  assert ((if m - 17 >? 0 then Z.shiftl 1 (m - 17) - 1 else 0) = 2 ^ Z.of_nat nc - 1) as ->.
  { unfold nc. rewrite Z2Nat.id by lia. rewrite Z.gtb_ltb. zcase; [by rewrite Z.shiftl_1_l|]. by replace (m - 17) with 0 by lia. }
  destruct (first_blocks found n nc c0) as (bs1 & bs2 & -> & E2 & Hls); [lia..|done|].
  cbn [mbind option_bind]. rewrite E2. cbn [mbind option_bind]. fold nc.
  destruct (link_all c0 nc n Hc2 Hcap ltac:(lia) (n - 2) 1 bs2 _ _ _ _ ltac:(lia) ltac:(lia) Hls)
    as (bs' & cb' & ix & j & fl & -> & Hend). cbn [mbind option_bind].
  destruct (link_end c0 nc n Hc2 Hcap _ _ _ _ _ Hend) as [-> ->].
  rewrite decide_True, Z.eqb_refl by done. eexists. split; [done|]. split.
  - split; cbn; rewrite ?length_seq, ?Hc0; try done.
    + by apply (link_ordered c0 nc n Hc2 Hcap _ _ _ _ _ Hend).
    + apply lookup_seq_lt. lia.
    + apply lookup_seq_lt. lia.
  - cbn. split_and!; try done. apply Hend.
Qed.

(** ** The check of the store *)

Lemma check_loop_ok s l k p fuel j flags :
  store_order s l → fa_blkSize s = 2 ^ k → 0 <= k <= 16 → Z.of_nat (length l) * 2 ^ k <= 2 ^ 30 →
  (length l <= p + fuel)%nat → (j <= numCaches s)%nat → Z.of_nat p < capacity (2 ^ 17 / fa_blkSize s) j →
  (∀ i, (i < j)%nat → capacity (2 ^ 17 / fa_blkSize s) i <= Z.of_nat p) →
  0 <= flags → bits_at (2 ^ 17 / fa_blkSize s) (numCaches s) p flags →
  check_loop fuel s (l !! p) (Z.of_nat p * fa_blkSize s) (2 ^ 17 * 2 ^ Z.of_nat j) j flags = Some true.
Proof.
  intros Hso Hbs Hk Hmax. pose proof (so_order _ _ Hso) as Ho. pose proof (or_c0 _ _ _ _ _ Ho) as Hc2.
  set (c0 := 2 ^ 17 / fa_blkSize s) in *.
  assert (∀ i, 2 ^ 17 * 2 ^ Z.of_nat i = capacity c0 i * fa_blkSize s) as Hbound.
  { intros i. unfold capacity, c0. rewrite Hbs, <- Z.pow_sub_r by lia.
    replace (2 ^ 17) with (2 ^ (17 - k) * 2 ^ k) by (rewrite <- Z.pow_add_r by lia; f_equal; lia). lia. }
  pose proof (Z.pow_pos_nonneg 2 k ltac:(lia) ltac:(lia)) as Hpk.
  revert p j flags. induction fuel as [|fuel IH]; intros p j flags Hfuel Hj Hlt Hlow Hf0 Hf.
  { rewrite (proj2 (lookup_ge_None l p)) by lia. done. }
  destruct (l !! p) as [i|] eqn:Ei; [|done]. pose proof (lookup_lt_Some _ _ _ Ei) as Hpl. cbn [check_loop].
  destruct (lookup_lt_is_Some_2 (f_blks s) i) as [b Hb].
  { pose proof (or_in _ _ _ _ _ Ho) as HF. apply (Forall_lookup_1 _ _ _ _ HF Ei). }
  rewrite Hb. cbn [mbind option_bind].
  replace (Z.of_nat p * fa_blkSize s + fa_blkSize s) with (Z.of_nat (S p) * fa_blkSize s) by lia.
  rewrite (proj2 (Z.leb_gt (2 ^ 31) _)) by (rewrite Hbs; nia).
  destruct (or_bits _ _ _ _ _ Ho _ _ _ Ei Hb) as [Hi0 Hib].
  rewrite (bits_unique c0 (numCaches s) p (inCache b) flags), Z.eqb_refl by done. cbn [negb].
  rewrite (or_next _ _ _ _ _ Ho _ _ _ Ei Hb).
  assert (bool_decide (i = f_tail s) = bool_decide (S p = length l)) as ->.
  { apply bool_decide_ext. pose proof (so_tail _ _ Hso) as Ht. split.
    - intros ->. assert (p = (length l - 1)%nat); [|lia]. by eapply NoDup_lookup; [apply Ho|..].
    - intros Hlen. replace (length l - 1)%nat with p in Ht by lia. congruence. }
  assert ((Z.of_nat (S p) * fa_blkSize s =? 2 ^ 17 * 2 ^ Z.of_nat j) = (Z.of_nat (S p) =? capacity c0 j)) as ->.
  { rewrite Hbound, Hbs. repeat (zcase; try done); nia. }
  destruct (decide (S p = length l)) as [Hend|Hend].
  { rewrite bool_decide_true, andb_false_r by done. rewrite (proj2 (lookup_ge_None l (S p))) by lia. by destruct fuel. }
  rewrite bool_decide_false, andb_true_r by done. destruct (Z.eqb_spec (Z.of_nat (S p)) (capacity c0 j)) as [He|He].
  - pose proof (so_size _ _ Hso) as Hsize. fold c0 in Hsize.
    assert (j < numCaches s)%nat as Hjlt by (apply (capacity_lt c0); [done|lia]).
    rewrite (or_cb _ _ _ _ _ Ho j Hjlt). cbn [mbind option_bind].
    replace (Z.to_nat (capacity c0 j - 1)) with p by lia. rewrite decide_True by done.
    rewrite (proj2 (Z.leb_gt (2 ^ 30) _)) by (rewrite Hbound, Hbs; nia).
    destruct (bits_cross c0 (numCaches s) p flags j) as [Hx0 Hx]; [done|lia|done..|].
    replace (Z.shiftl (2 ^ 17 * 2 ^ Z.of_nat j) 1) with (2 ^ 17 * 2 ^ Z.of_nat (S j))
      by (rewrite Z.shiftl_mul_pow2, Nat2Z.inj_succ, Z.pow_succ_r by lia; lia).
    apply IH; try done; [lia|rewrite capacity_S; lia|].
    intros q Hq. pose proof (capacity_mono c0 q j ltac:(lia) ltac:(lia)). lia.
  - apply IH; try done; [lia|lia| |].
    + intros q Hq. specialize (Hlow q Hq). lia.
    + apply (bits_next c0 (numCaches s) p flags j); try done. lia.
Qed.

Lemma check_ok s l k :
  store_order s l → fa_blkSize s = 2 ^ k → 0 <= k <= 16 → Z.of_nat (length l) * 2 ^ k <= 2 ^ 30 → check s = Some true.
Proof.
  intros Hso Hbs Hk Hmax. unfold check. rewrite <- (so_head _ _ Hso).
  pose proof (so_order _ _ Hso) as Ho. pose proof (or_c0 _ _ _ _ _ Ho) as Hc2.
  change 0 with (Z.of_nat 0 * fa_blkSize s) at 1. replace (2 ^ 17) with (2 ^ 17 * 2 ^ Z.of_nat 0) by lia.
  rewrite <- (or_len _ _ _ _ _ Ho). apply (check_loop_ok s l k); try done; try lia.
  - pose proof (capacity_pos (2 ^ 17 / fa_blkSize s) 0 Hc2). lia.
  - rewrite (so_mask _ _ Hso). pose proof (Z.pow_pos_nonneg 2 (Z.of_nat (numCaches s))). lia.
  - intros i. rewrite (so_mask _ _ Hso), mask_bit by lia. pose proof (capacity_pos (2 ^ 17 / fa_blkSize s) i Hc2).
    case_bool_decide; repeat (zcase; cbn; try done; try lia).
Qed.

(** ** Runs *)

(** The order after block [i] has been used. *)
Definition recent (i : nat) (l : list nat) : list nat := i :: filter (λ x, x ≠ i) l.

Lemma filter_absent i (l : list nat) : i ∉ l → filter (λ x, x ≠ i) l = l.
Proof.
  induction l as [|y l IH]; intros Hi; [done|]. apply not_elem_of_cons in Hi as [Hy Hi].
  rewrite filter_cons, decide_True by done. f_equal. by apply IH.
Qed.

Lemma to_front_recent l p i : NoDup l → l !! p = Some i → to_front p l = recent i l.
Proof.
  intros Hnd Hp. unfold to_front, recent. rewrite Hp. f_equal. revert p Hp.
  induction l as [|y l IH]; intros p Hp; [done|]. apply NoDup_cons in Hnd as [Hy Hnd]. rewrite filter_cons.
  destruct p as [|p]; cbn in Hp.
  - injection Hp as ->. rewrite decide_False by (intros H; by apply H). cbn. symmetry. by apply filter_absent.
  - rewrite decide_True by (intros ->; apply Hy; by eapply list_elem_of_lookup_2). cbn. f_equal. by apply IH.
Qed.

(** What the cache does with the store: accesses, replacements, invalidations,
    and writes to the fields of a block (not to its links). *)
Inductive fa_op :=
  | Access (addr : Z)
  | Victim (curTick addr : Z)
  | Invalidate (i : nat)
  | SetBlock (i : nat) (c : CacheBlk).

Definition set_block (s : FALRU) (i : nat) (c : CacheBlk) : option FALRU :=
  bs ← upd_blk (set_base c) i (f_blks s);
  Some (with_order s bs (cacheBoundaries s) (f_head s) (f_tail s)).

Definition fa_step (s : FALRU) (o : fa_op) : option FALRU :=
  match o with
  | Access addr => '(_, _, _, s') ← accessBlock s addr; Some s'
  | Victim curTick addr => '(_, s') ← findVictim s curTick addr; Some s'
  | Invalidate i => invalidateBlk s (Some i)
  | SetBlock i c => set_block s i c
  end.

(** The order after a step: an access that hits uses its block, a replacement
    the last one. *)
Definition fa_order (s : FALRU) (o : fa_op) (l : list nat) : list nat :=
  match o with
  | Access addr => match accessBlock s addr with Some (Some i, _, _, _) => recent i l | _ => l end
  | Victim _ _ => match last l with Some i => recent i l | None => l end
  | Invalidate _ | SetBlock _ _ => l
  end.

Inductive fa_reach (k m lat : Z) : FALRU → list nat → Prop :=
  | fa_reach_new found s : FALRU_new found (2 ^ k) (2 ^ m) lat = Some s →
      fa_reach k m lat s (seq 0 (Z.to_nat (2 ^ (m - k))))
  | fa_reach_step s l o s' : fa_reach k m lat s l → fa_step s o = Some s' → fa_reach k m lat s' (fa_order s o l).

(** What every reachable store satisfies. *)
Record fa_inv (k m : Z) (s : FALRU) (l : list nat) : Prop := {
  fi_order : store_order s l;
  fi_size : fa_blkSize s = 2 ^ k;
  fi_caches : numCaches s = Z.to_nat (m - 17);
  fi_len : length l = Z.to_nat (2 ^ (m - k));
  fi_counts : length (hits s) = S (numCaches s) ∧ length (misses s) = S (numCaches s)
}.

(** Changing fields of a block other than its links keeps the order. *)
Lemma store_order_alter s l i f bs :
  store_order s l → upd_blk f i (f_blks s) = Some bs →
  (∀ b, prev (f b) = prev b ∧ next (f b) = next b ∧ inCache (f b) = inCache b) →
  store_order (with_order s bs (cacheBoundaries s) (f_head s) (f_tail s)) l.
Proof.
  intros [Ho Hh Ht Hm Hs] E Hf. split; try done. cbn.
  destruct (f_blks s !! i) as [bi|] eqn:Ei; [|by unfold upd_blk in E; rewrite Ei in E].
  rewrite (upd_blk_alter _ _ _ _ Ei) in E. injection E as <-.
  assert (∀ x b, alter f i (f_blks s) !! x = Some b → ∃ b0, f_blks s !! x = Some b0 ∧
     prev b = prev b0 ∧ next b = next b0 ∧ inCache b = inCache b0) as Hget.
  { intros x b Hx. rewrite lookup_alter_if in Hx. destruct (f_blks s !! x) as [b0|]; [|done]. cbn in Hx.
    injection Hx as <-. exists b0. split; [done|]. case_decide; [apply Hf|done]. }
  destruct Ho as [H1 H2 H3 H4 H5 H6 H7 H8 H9 H10]. split; rewrite ?length_alter; try done.
  - intros p x b Hp Hb. destruct (Hget x b Hb) as (b0 & Hb0 & -> & _). by eapply H6.
  - intros p x b Hp Hb. destruct (Hget x b Hb) as (b0 & Hb0 & _ & -> & _). by eapply H7.
  - intros p x b Hp Hb. destruct (Hget x b Hb) as (b0 & Hb0 & _ & _ & ->). by eapply H8.
Qed.

Lemma fa_inv_new k m lat found s : fa_params k m → 0 < lat →
  FALRU_new found (2 ^ k) (2 ^ m) lat = Some s → fa_inv k m s (seq 0 (Z.to_nat (2 ^ (m - k)))).
Proof.
  intros Hp Hlat E. destruct (FALRU_new_ok found k m lat Hp Hlat) as (s1 & E1 & Hso & Hb & Hnc & _ & _ & Hh & Hm).
  rewrite E in E1. injection E1 as <-. split; try done; [by rewrite length_seq|].
  rewrite Hh, Hm. by rewrite !length_replicate.
Qed.

(** A use of the block at position [p]. *)
Lemma fa_inv_move k m s l i : fa_inv k m s l → i ∈ l →
  ∃ bs cb tl, moveToHead s i = Some (with_order s bs cb i tl) ∧
    fa_inv k m (with_order s bs cb i tl) (recent i l) ∧ same_bases (f_blks s) bs.
Proof.
  intros [Hso Hb Hnc Hlen Hcnt] Hi. apply list_elem_of_lookup in Hi as [p Hp].
  assert (NoDup l) as Hnd by apply (so_order _ _ Hso).
  destruct (moveToHead_order s l p i Hso Hp) as (bs & cb & tl & E & Hso' & Hbases).
  rewrite (to_front_recent l p i Hnd Hp) in Hso'. exists bs, cb, tl. split; [done|]. split; [|done].
  split; try done. rewrite <- Hlen, <- (to_front_recent l p i Hnd Hp). apply Permutation_length, to_front_perm.
Qed.

Lemma fa_inv_counts k m s l h ms a : fa_inv k m s l → length h = length (hits s) → length ms = length (misses s) →
  fa_inv k m (with_counts s h ms a) l.
Proof. intros [[? ? ? ? ?] ? ? ? [? ?]] Hh Hms. split; [by split|done..|]. cbn. rewrite Hh, Hms. done. Qed.

Lemma fa_in_order k m s l i b : fa_inv k m s l → f_blks s !! i = Some b → i ∈ l.
Proof.
  intros Hi Hb. destruct (ordered_position _ _ _ _ _ i (so_order _ _ (fi_order _ _ _ _ Hi))) as [p Hp];
    [by eapply lookup_lt_Some|]. by eapply list_elem_of_lookup_2.
Qed.

(** The counts of one access, in the order before it. *)
Definition counted (s s' : FALRU) (in_cache : nat → bool) : Prop :=
  accesses s' = accesses s + 1 ∧
  (∀ j h, hits s !! j = Some h → hits s' !! j = Some (if in_cache j then h + 1 else h)) ∧
  (∀ j n, misses s !! j = Some n → misses s' !! j = Some (if in_cache j then n else n + 1)).

Lemma access_ok k m s l addr r lat inc s' : fa_inv k m s l → accessBlock s addr = Some (r, lat, inc, s') →
  fa_inv k m s' (match r with Some i => recent i l | None => l end) ∧
  match r with
  | None => counted s s' (λ _, false)
  | Some i => ∃ b, f_blks s !! i = Some b ∧ inc = inCache b ∧
      counted s s' (λ j, bool_decide (j = numCaches s) || in_size (inCache b) j)
  end.
Proof.
  intros Hi. unfold accessBlock. set (s1 := with_counts s (hits s) (misses s) (accesses s + 1)).
  assert (fa_inv k m s1 l) as Hi1 by by apply fa_inv_counts.
  assert (fa_inv k m (count_miss s1) l) as Hmiss by (apply fa_inv_counts; [done..|by rewrite length_fmap]).
  assert (counted s (count_miss s1) (λ _, false)) as Hcm.
  { split_and!; [done|done|]. intros j n Hj. cbn. rewrite list_lookup_fmap, Hj. done. }
  destruct (hashLookup s1 (blkAlign s1 addr)) as [i|]; [|by intros [= <- <- <- <-]].
  change (f_blks s1) with (f_blks s). destruct (f_blks s !! i) as [b|] eqn:Hb; [|done]. cbn [mbind option_bind].
  destruct (isValid (base b)); [|by intros [= <- <- <- <-]]. destruct (tag (base b) =? blkAlign s1 addr); [|done].
  set (s2 := count_hit s1 (inCache b)).
  assert (fa_inv k m s2 l) as Hi2 by (apply fa_inv_counts; [done|by rewrite length_imap..]).
  assert (counted s s2 (λ j, bool_decide (j = numCaches s) || in_size (inCache b) j)) as Hc2.
  { split_and!; [done|..]; intros j n Hj; cbn; rewrite list_lookup_imap, Hj; cbn; f_equal;
      case_bool_decide; case_decide; by destruct (in_size (inCache b) j). }
  assert (i ∈ l) as Hil by by eapply fa_in_order.
  assert (∃ s3, (if decide (i = f_head s2) then Some s2 else moveToHead s2 i) = Some s3 ∧ fa_inv k m s3 (recent i l) ∧
     accesses s3 = accesses s2 ∧ hits s3 = hits s2 ∧ misses s3 = misses s2) as (s3 & -> & Hi3 & Ha3 & Hh3 & Hm3).
  { case_decide as Hd.
    - exists s2. split; [done|]. split; [|done]. rewrite <- (to_front_recent l 0 i), to_front_head; [done| |].
      + apply (so_order _ _ (fi_order _ _ _ _ Hi2)).
      + rewrite Hd. apply (so_head _ _ (fi_order _ _ _ _ Hi2)).
    - destruct (fa_inv_move k m s2 l i Hi2 Hil) as (bs & cb & tl & -> & Hi3 & _). by eexists. }
  cbn [mbind option_bind]. intros [= <- <- <- <-]. split; [done|]. exists b. split_and!; [done..|].
  destruct Hc2 as (H1 & H2 & H3). unfold counted. by rewrite Ha3, Hh3, Hm3.
Qed.

(** A replacement takes the last block of the order; it never fails. *)
Lemma victim_ok k m s l curTick addr : fa_inv k m s l →
  ∃ i b s', findVictim s curTick addr = Some (i, s') ∧ last l = Some i ∧ fa_inv k m s' (recent i l) ∧
    f_blks s !! i = Some b ∧ base <$> f_blks s' !! i = Some (base b) ∧
    tagHash s' = <[blkAlign s addr := i]> (delete (tag (base b)) (tagHash s)) ∧ blkAlign s' addr = blkAlign s addr.
Proof.
  intros Hi. pose proof (fi_order _ _ _ _ Hi) as Hso. pose proof (so_order _ _ Hso) as Ho.
  assert (last l = Some (f_tail s)) as Ht.
  { rewrite last_lookup, <- (so_tail _ _ Hso). f_equal. lia. }
  assert (f_tail s ∈ l) as Hin by by eapply last_Some_elem_of.
  destruct (lookup_lt_is_Some_2 (f_blks s) (f_tail s)) as [b Hb].
  { pose proof (or_in _ _ _ _ _ Ho) as HF. rewrite Forall_forall in HF. by apply HF. }
  destruct (or_bits _ _ _ _ _ Ho _ _ _ (so_tail _ _ Hso) Hb) as [H0 Hbits].
  assert (inCache b = 0) as Hz.
  { eapply (bits_unique _ _ _ _ 0); [done..|]. intros j. rewrite Z.bits_0. symmetry. case_bool_decide as Hj; [|done].
    pose proof (or_fit _ _ _ _ _ Ho j Hj). pose proof (capacity_pos _ j (or_c0 _ _ _ _ _ Ho)). zcase; [lia|done]. }
  destruct (fa_inv_move k m s l (f_tail s) Hi Hin) as (bs & cb & tl & Em & Hi' & Hbases).
  pose proof (Hbases (f_tail s)) as Hbt. rewrite Hb in Hbt. destruct (bs !! f_tail s) as [b'|] eqn:Eb'; [|done].
  injection Hbt as Hbt. unfold findVictim. rewrite Hb. cbn [mbind option_bind]. rewrite Hz, Z.eqb_refl, Em.
  cbn [mbind option_bind]. destruct (isValid (base b)).
  { eexists _, b, _. split; [done|]. split; [done|]. split; [destruct Hi' as [[? ? ? ? ?] ? ? ? ?]; by split|].
    split_and!; try done. cbn. by rewrite Eb', <- Hbt. }
  cbn [f_blks with_hash with_order]. rewrite (upd_blk_alter _ _ bs b') by done. cbn [mbind option_bind].
  assert (∀ s', fa_blkSize s' = fa_blkSize s → numCaches s' = numCaches s → hits s' = hits s → misses s' = misses s →
     store_order s' (recent (f_tail s) l) → fa_inv k m s' (recent (f_tail s) l)) as Hmk.
  { intros s' E1 E2 E3 E4 Hso'. destruct Hi' as [_ Hbs Hnc Hlen Hcnt].
    split; [done|by rewrite E1|by rewrite E2|done|by rewrite E2, E3, E4]. }
  pose proof (store_order_alter _ _ (f_tail s) (set_touched true) (alter (set_touched true) (f_tail s) bs)
    (fi_order _ _ _ _ Hi')) as Hso'. cbn [f_blks with_order] in Hso'.
  destruct Hso' as [H1 H2 H3 H4 H5]; [by apply (upd_blk_alter _ _ _ b')|done|].
  destruct (negb _ && _); eexists _, b, _; (split; [done|]); (split; [done|]);
    (split; [apply Hmk; try done; by split|]); (split; [done|]); (split; [|done]);
    cbn; rewrite list_lookup_alter_eq, Eb'; cbn; by rewrite Hbt.
Qed.

Lemma fa_inv_alter k m s l i f bs : fa_inv k m s l → upd_blk f i (f_blks s) = Some bs →
  (∀ b, prev (f b) = prev b ∧ next (f b) = next b ∧ inCache (f b) = inCache b) →
  fa_inv k m (with_order s bs (cacheBoundaries s) (f_head s) (f_tail s)) l.
Proof. intros [Hso ? ? ? ?] E Hf. split; try done. by eapply store_order_alter. Qed.

Lemma fa_step_inv k m s l o s' : fa_inv k m s l → fa_step s o = Some s' → fa_inv k m s' (fa_order s o l).
Proof.
  intros Hi. destruct o as [addr|curTick addr|i|i c]; cbn [fa_step fa_order].
  - destruct (accessBlock s addr) as [[[[r lat] inc] s1]|] eqn:E; [|done]. intros [= <-].
    by destruct (access_ok k m s l addr r lat inc s1 Hi E) as [Hi' _].
  - destruct (victim_ok k m s l curTick addr Hi) as (i & b & s1 & -> & -> & Hi' & _). by intros [= <-].
  - unfold invalidateBlk. obind [bs|] E. intros [= <-].
    pose proof (fa_inv_alter k m s l i _ bs Hi E) as [[? ? ? ? ?] ? ? ? ?]; [done|]. by split.
  - unfold set_block. obind [bs|] E. intros [= <-]. by eapply fa_inv_alter.
Qed.

Lemma fa_reach_inv k m lat s l : fa_params k m → 0 < lat → fa_reach k m lat s l → fa_inv k m s l.
Proof.
  intros Hp Hlat. induction 1 as [found s E|s l o s' _ IH E]; [by eapply fa_inv_new|by eapply fa_step_inv].
Qed.

(** The blocks of the smaller cache number [j]. *)
Definition size_blocks (k : Z) (j : nat) : Z := capacity (2 ^ 17 / 2 ^ k) j.

Lemma in_size_position k m s l p i b j : fa_inv k m s l → l !! p = Some i → f_blks s !! i = Some b → (j < numCaches s)%nat →
  in_size (inCache b) j = (Z.of_nat p <? size_blocks k j).
Proof.
  intros Hi Hp Hb Hj. destruct (or_bits _ _ _ _ _ (so_order _ _ (fi_order _ _ _ _ Hi)) _ _ _ Hp Hb) as [_ Hbits].
  unfold in_size, size_blocks. rewrite truthy_bit, Hbits, bool_decide_true, <- (fi_size _ _ _ _ Hi) by done. done.
Qed.

(** C31. The own check of the store always succeeds, and its links are intact: in
    every reachable state the blocks, each once and in the order of their last
    use from the head to the tail, are linked forwards and backwards, so that
    the links form one list of all blocks; the [inCache] bits of a block tell for
    each smaller size whether the block is among that many at the front, and the
    boundary of the size is the last of these. *)
Theorem falru_check_holds k m lat s l :
  fa_params k m → m <= 30 → 0 < lat → fa_reach k m lat s l →
  check s = Some true ∧ l ≡ₚ seq 0 (Z.to_nat (2 ^ (m - k))) ∧
  head l = Some (f_head s) ∧ last l = Some (f_tail s) ∧
  (∀ p i, l !! p = Some i → ∃ b, f_blks s !! i = Some b ∧
     next b = l !! S p ∧ prev b = match p with O => None | S q => l !! q end ∧
     ∀ j, (j < numCaches s)%nat → in_size (inCache b) j = (Z.of_nat p <? size_blocks k j)) ∧
  ∀ j, (j < numCaches s)%nat → cacheBoundaries s !! j = Some (l !! Z.to_nat (size_blocks k j - 1)).
Proof.
  intros Hp Hm Hlat Hr. pose proof (fa_reach_inv k m lat s l Hp Hlat Hr) as Hi.
  pose proof (fi_order _ _ _ _ Hi) as Hso. pose proof (so_order _ _ Hso) as Ho. destruct Hp as [Hk Hm17].
  split_and!.
  - apply (check_ok s l k); [done|apply Hi|done|]. rewrite (fi_len _ _ _ _ Hi), Z2Nat.id by (apply Z.pow_nonneg; lia).
    rewrite <- Z.pow_add_r by lia. apply Z.pow_le_mono_r; lia.
  - rewrite <- (fi_len _ _ _ _ Hi), (or_len _ _ _ _ _ Ho). by eapply ordered_perm.
  - rewrite head_lookup. apply Hso.
  - rewrite last_lookup, <- (so_tail _ _ Hso). f_equal. lia.
  - intros p i Hpi. pose proof (or_in _ _ _ _ _ Ho) as HF. rewrite Forall_forall in HF.
    destruct (lookup_lt_is_Some_2 (f_blks s) i) as [b Hb]; [apply HF; by eapply list_elem_of_lookup_2|].
    exists b. split_and!; [done|by eapply or_next|by eapply or_prev|]. intros j Hj. by eapply in_size_position.
  - intros j Hj. unfold size_blocks. rewrite <- (fi_size _ _ _ _ Hi). by apply (or_cb _ _ _ _ _ Ho).
Qed.

Definition found_blk : FALRUBlk := mkFALRUBlk CacheBlk_new None None true 5.

(** Sixteen blocks of 32K, with caches of four and eight tracked. *)
Definition fa_sample (ops : list fa_op) : option (FALRU * list nat) :=
  s ← FALRU_new found_blk (2 ^ 15) (2 ^ 19) 1;
  foldl (λ o op, '(s, l) ← o; s' ← fa_step s op; Some (s', fa_order s op l)) (Some (s, seq 0 16)) ops.

Lemma fa_sample_reach ops s l : fa_sample ops = Some (s, l) → fa_reach 15 19 1 s l.
Proof.
  unfold fa_sample. destruct (FALRU_new _ _ _ _) as [s0|] eqn:E; [|done]. cbn [mbind option_bind].
  assert (fa_reach 15 19 1 s0 (seq 0 16)) as Hr by (apply (fa_reach_new 15 19 1 found_blk s0 E)).
  clear E. revert s0 Hr. generalize (seq 0 16). induction ops as [|o ops IH]; intros l0 s0 Hr Hf; cbn [foldl] in Hf.
  - by injection Hf as <- <-.
  - cbn [mbind option_bind] in Hf. destruct (fa_step s0 o) as [s1|] eqn:E; cbn [mbind option_bind] in Hf.
    + eapply IH; [|done]. by eapply fa_reach_step.
    + exfalso. clear -Hf. induction ops as [|o ops IH]; [done|]. by apply IH.
Qed.

Definition sample_accesses : list fa_op :=
  [Victim 0 0x28000; SetBlock 15 (blk_set_status (blk_set_tag CacheBlk_new 0x28000) 7);
   Victim 5 0x30000; Victim 6 0x38000; Victim 7 0x40000; Victim 8 0x48000; Access 0x28010; Invalidate 14].

Lemma fa_sample_test (P : FALRU → list nat → bool) ops :
  match fa_sample ops with Some (s, l) => P s l | None => false end = true →
  ∃ s l, fa_reach 15 19 1 s l ∧ P s l = true.
Proof.
  destruct (fa_sample ops) as [[s l]|] eqn:E; [|done]. exists s, l. split; [by eapply fa_sample_reach|done].
Qed.

Lemma falru_check_holds_witness :
  ∃ s l, fa_reach 15 19 1 s l ∧ l = [15; 11; 12; 13; 14; 0; 1; 2; 3; 4; 5; 6; 7; 8; 9; 10]%nat ∧ check s = Some true.
Proof.
  destruct (fa_sample_test (λ _ l, bool_decide (l = [15; 11; 12; 13; 14; 0; 1; 2; 3; 4; 5; 6; 7; 8; 9; 10]%nat)) sample_accesses)
    as (s & l & Hr & Hl); [vm_compute; reflexivity|].
  apply bool_decide_eq_true in Hl. exists s, l. split; [done|]. split; [done|].
  apply (falru_check_holds 15 19 1 s l); (done || lia).
Defined.

(** C32. One run counts the hits of caches of all sizes: an access to a reachable
    store that hits block [i] counts a hit for each smaller size that has [i]
    among as many blocks at the front of the order as it can hold, which are
    the blocks of a least-recently-used cache of that size, and a miss for the
    other sizes; it moves [i] to the front.  An access that misses is a miss
    for all sizes. *)
Theorem falru_counts_all_sizes k m lat s l addr r lt inc s' :
  fa_params k m → 0 < lat → fa_reach k m lat s l → accessBlock s addr = Some (r, lt, inc, s') →
  accesses s' = accesses s + 1 ∧ ∀ j h n, (j < numCaches s)%nat → hits s !! j = Some h → misses s !! j = Some n →
  match r with
  | Some i =>
      let hit := bool_decide (i ∈ take (Z.to_nat (size_blocks k j)) l) in
      hits s' !! j = Some (if hit then h + 1 else h) ∧ misses s' !! j = Some (if hit then n else n + 1) ∧
      fa_reach k m lat s' (recent i l)
  | None => hits s' !! j = Some h ∧ misses s' !! j = Some (n + 1) ∧ fa_reach k m lat s' l
  end.
Proof.
  intros Hp Hlat Hr E. pose proof (fa_reach_inv k m lat s l Hp Hlat Hr) as Hi.
  pose proof (fa_reach_step k m lat s l (Access addr) s' Hr) as Hr'. cbn [fa_step fa_order] in Hr'. rewrite E in Hr'.
  specialize (Hr' eq_refl). destruct (access_ok k m s l addr r lt inc s' Hi E) as [_ Hc].
  destruct r as [i|]; [|destruct Hc as (Ha & Hh & Hms); split; [done|]; intros j h n Hj H1 H2; by rewrite (Hh _ _ H1), (Hms _ _ H2)].
  destruct Hc as (b & Hb & _ & Ha & Hh & Hms). split; [done|]. intros j h n Hj H1 H2.
  rewrite (Hh _ _ H1), (Hms _ _ H2), !(bool_decide_false (j = numCaches s)) by lia. cbn [orb].
  pose proof (fa_in_order k m s l i b Hi Hb) as Hil. apply list_elem_of_lookup in Hil as [p Hpi].
  rewrite (in_size_position k m s l p i b j Hi Hpi Hb Hj).
  assert ((Z.of_nat p <? size_blocks k j) = bool_decide (i ∈ take (Z.to_nat (size_blocks k j)) l)) as ->; [|done].
  pose proof (or_c0 _ _ _ _ _ (so_order _ _ (fi_order _ _ _ _ Hi))) as Hc2. rewrite (fi_size _ _ _ _ Hi) in Hc2.
  pose proof (capacity_pos _ j Hc2). fold (size_blocks k j) in *. case_bool_decide as Hin; zcase; try done.
  - apply elem_of_take in Hin as (q & Hq & Hlt).
    assert (p = q) as -> by (eapply NoDup_lookup; [apply (so_order _ _ (fi_order _ _ _ _ Hi))|done..]). lia.
  - destruct Hin. apply elem_of_take. exists p. split; [done|lia].
Qed.

(** Block 15 is at position 4: in a cache of eight blocks, not of four. *)
Lemma falru_counts_all_sizes_witness :
  ∃ s l lt inc s', fa_reach 15 19 1 s l ∧ accessBlock s 0x28010 = Some (Some 15%nat, lt, inc, s') ∧
    hits s' !! 0%nat = Some 0 ∧ hits s' !! 1%nat = Some 1.
Proof.
  destruct (fa_sample_test (λ s l, match accessBlock s 0x28010 with Some (Some 15%nat, _, _, _) => true | _ => false end &&
      bool_decide (take 8 l = [11; 12; 13; 14; 15; 0; 1; 2]%nat) && bool_decide (hits s = [0; 0; 0]) &&
      bool_decide (misses s = [0; 0; 0]) && bool_decide (numCaches s = 2%nat)) (take 6 sample_accesses))
    as (s & l & Hr & Ht); [vm_compute; reflexivity|].
  rewrite !andb_true_iff, !bool_decide_eq_true in Ht. destruct Ht as [[[[Ha Hl] Hh] Hm] Hn].
  destruct (accessBlock s 0x28010) as [[[[r lt] inc] s']|] eqn:E; [|done].
  destruct r as [i|]; [|done]. exists s, l, lt, inc, s'.
  assert (i = 15%nat) as -> by (do 16 (destruct i as [|i]; [done|]); by destruct i).
  destruct (falru_counts_all_sizes 15 19 1 s l 0x28010 (Some 15%nat) lt inc s') as [_ Hc]; [done|lia|done|done|].
  split; [done|]. split; [done|].
  destruct (Hc 0%nat 0 0) as (H0 & _ & _); [lia|by rewrite Hh|by rewrite Hm|].
  destruct (Hc 1%nat 0 0) as (H1 & _ & _); [lia|by rewrite Hh|by rewrite Hm|].
  change (Z.to_nat (size_blocks 15 0)) with 4%nat in H0. change (Z.to_nat (size_blocks 15 1)) with 8%nat in H1.
  rewrite Hl in H1. replace (take 4 l) with (take 4 (take 8 l)) in H0 by (by rewrite take_take). rewrite Hl in H0.
  split; [by rewrite H0|by rewrite H1].
Defined.

(** C38. The cache cannot use the store: [insertBlock] does nothing, so a block
    that [findVictim] has handed out keeps its old tag; once the cache has
    made it valid, the next access to its address fails the assertion on the
    tag. *)
Theorem falru_fill_fails k m lat s l curTick addr ctx :
  fa_params k m → 0 < lat → fa_reach k m lat s l →
  ∃ i s1 b, findVictim s curTick addr = Some (i, s1) ∧ f_blks s1 !! i = Some b ∧
    ∀ st s2, tag (base b) ≠ blkAlign s addr → Z.land st BlkValid ≠ 0 →
      set_block (insertBlock s1 addr i ctx) i (blk_set_status (base b) st) = Some s2 →
      accessBlock s2 addr = None ∧ findBlock s2 addr = None.
Proof.
  intros Hp Hlat Hr. pose proof (fa_reach_inv k m lat s l Hp Hlat Hr) as Hi.
  destruct (victim_ok k m s l curTick addr Hi) as (i & b & s1 & E & _ & _ & _ & Hbase & Hhash & Hal).
  destruct (f_blks s1 !! i) as [b1|] eqn:Eb1; [|done]. injection Hbase as Hbase.
  exists i, s1, b1. split; [done|]. split; [done|]. intros st s2 Htag Hst. unfold set_block, insertBlock.
  rewrite (upd_blk_alter _ _ _ _ Eb1). cbn [mbind option_bind]. intros [= <-].
  assert (isValid (blk_set_status (base b1) st) = true) as Hv by (unfold isValid; cbn; apply negb_true_iff, Z.eqb_neq; done).
  unfold accessBlock, findBlock, hashLookup, blkAlign in *. cbn [tagHash with_counts with_order fa_blkSize f_blks].
  rewrite Hal, Hhash, lookup_insert_eq, list_lookup_alter_eq, Eb1. cbn [fmap option_fmap option_map mbind option_bind base set_base].
  rewrite Hv. cbn [tag blk_set_status]. rewrite (proj2 (Z.eqb_neq _ _)) by done. done.
Qed.

Lemma falru_fill_fails_witness :
  ∃ s i s1 b s2, findVictim s 0 0x28010 = Some (i, s1) ∧ f_blks s1 !! i = Some b ∧
    set_block (insertBlock s1 0x28010 i 0) i (blk_set_status (base b) 7) = Some s2 ∧ accessBlock s2 0x28010 = None.
Proof.
  destruct (fa_sample_test (λ s _, match findVictim s 0 0x28010 with
      | Some (i, s1) => match f_blks s1 !! i with Some b => tag (base b) =? 0 | None => false end
      | None => false end && (blkAlign s 0x28010 =? 0x28000)) []) as (s & l & Hr & Ht); [vm_compute; reflexivity|].
  rewrite andb_true_iff, Z.eqb_eq in Ht. destruct Ht as [Ht Hal].
  destruct (falru_fill_fails 15 19 1 s l 0 0x28010 0) as (i & s1 & b & E & Hb & Hf); [done|lia|done|].
  rewrite E, Hb in Ht. apply Z.eqb_eq in Ht.
  destruct (set_block (insertBlock s1 0x28010 i 0) i (blk_set_status (base b) 7)) as [s2|] eqn:Es.
  - exists s, i, s1, b, s2. split; [done|]. split; [done|]. split; [done|].
    by apply (Hf 7 s2); [rewrite Ht, Hal|..].
  - exfalso. revert Es. unfold set_block, insertBlock. by rewrite (upd_blk_alter _ _ _ _ Hb).
Defined.
