(* ===== verification/Mshr.v ===== *)
(** Miss status holding registers, [src/m5/src/mem/cache/mshr.hh] and [mshr.cc].

    All the MSHRs of all the caches live in one heap: the sender state of a
    packet from an upper-level cache points to the MSHR that waits for it, and
    marking or clearing "downstream pending" goes through that pointer.  A
    failed assertion is [None].  The printing functions are left out. *)

From S2P Require Import Prelude Packet.

Inductive Source := FromCPU | FromSnoop | FromPrefetcher.

#[export] Instance Source_eq_dec : EqDecision Source.
Proof. solve_decision. Defined.

Record Target := mkTarget {
  recvTime : Z;
  t_readyTime : Z;
  t_order : Z;
  pkt : Packet.t;
  source : Source;
  markedPending : bool;
  t_needsResponse : bool
}.

Record TargetList := mkTargetList {
  items : list Target;
  tl_needsExclusive : bool;
  hasUpgrade : bool
}.

Definition TargetList_new : TargetList := mkTargetList [] false false.

Record MSHR := mkMSHR {
  readyTime : Z;
  order : Z;
  addr : Z;
  size : Z;
  inService : bool;
  isForward : bool;
  isUncacheable : bool;
  downstreamPending : bool;
  pendingInvalidate : bool;
  pendingShared : bool;
  threadNum : Z;
  ntargets : Z;
  targets : TargetList;
  deferredTargets : TargetList
}.

(** [MSHR::MSHR()]; the fields it leaves uninitialised are zero here and are
    all written by [allocate] before they are read. *)
Definition MSHR_new : MSHR :=
  mkMSHR 0 0 0 0 false false false false false false (-1) 0 TargetList_new TargetList_new.

Abbreviation Heap := (gmap nat MSHR).

(** Field updates. *)
Definition set_dp (m : MSHR) (b : bool) : MSHR :=
  mkMSHR (readyTime m) (order m) (addr m) (size m) (inService m) (isForward m) (isUncacheable m)
    b (pendingInvalidate m) (pendingShared m) (threadNum m) (ntargets m) (targets m)
    (deferredTargets m).
Definition set_inService (m : MSHR) (b : bool) : MSHR :=
  mkMSHR (readyTime m) (order m) (addr m) (size m) b (isForward m) (isUncacheable m)
    (downstreamPending m) (pendingInvalidate m) (pendingShared m) (threadNum m) (ntargets m)
    (targets m) (deferredTargets m).
Definition set_pending (m : MSHR) (inv sh : bool) : MSHR :=
  mkMSHR (readyTime m) (order m) (addr m) (size m) (inService m) (isForward m) (isUncacheable m)
    (downstreamPending m) inv sh (threadNum m) (ntargets m) (targets m) (deferredTargets m).
Definition set_lists (m : MSHR) (n : Z) (ts ds : TargetList) : MSHR :=
  mkMSHR (readyTime m) (order m) (addr m) (size m) (inService m) (isForward m) (isUncacheable m)
    (downstreamPending m) (pendingInvalidate m) (pendingShared m) (threadNum m) n ts ds.
Definition set_timing (m : MSHR) (rt o : Z) : MSHR :=
  mkMSHR rt o (addr m) (size m) (inService m) (isForward m) (isUncacheable m)
    (downstreamPending m) (pendingInvalidate m) (pendingShared m) (threadNum m) (ntargets m)
    (targets m) (deferredTargets m).

(** ** Target lists *)

Definition resetFlags (tl : TargetList) : TargetList := mkTargetList (items tl) false false.
Definition isReset (tl : TargetList) : bool := negb (tl_needsExclusive tl) && negb (hasUpgrade tl).

(** The upstream half of [TargetList::add]. *)
Definition mark_upstream (h : Heap) (p : Packet.t) : option Heap :=
  match Packet.sender p with
  | None => Some h
  | Some id =>
      m ← h !! id;
      if downstreamPending m then None else Some (<[id := set_dp m true]> h)
  end.

(** The local half. *)
Definition push_target (tl : TargetList) (curTick : Z) (p : Packet.t) (rt o : Z) (src : Source)
    (markPending : bool) : TargetList :=
  let snoop := bool_decide (src = FromSnoop) in
  mkTargetList
    (items tl ++ [mkTarget curTick rt o p src markPending (Packet.needsResponse p)])
    (tl_needsExclusive tl || (negb snoop && Packet.needsExclusive p))
    (hasUpgrade tl || (negb snoop && Packet.isUpgrade p)).

Definition tl_add (h : Heap) (tl : TargetList) (curTick : Z) (p : Packet.t) (rt o : Z)
    (src : Source) (markPending : bool) : option (Heap * TargetList) :=
  h ← (if markPending then mark_upstream h p else Some h);
  Some (h, push_target tl curTick p rt o src markPending).

Definition upgrade_cmd (c : Command) : Command :=
  match c with
  | UpgradeReq => ReadExReq
  | SCUpgradeReq => SCUpgradeFailReq
  | c => c
  end.

Definition replace_target (t : Target) : Target :=
  mkTarget (recvTime t) (t_readyTime t) (t_order t)
    (Packet.set_cmd (pkt t) (upgrade_cmd (Packet.cmd (pkt t))))
    (source t) (markedPending t) (t_needsResponse t).

Definition replaceUpgrades (tl : TargetList) : TargetList :=
  if hasUpgrade tl then mkTargetList (replace_target <$> items tl) (tl_needsExclusive tl) false
  else tl.

(** [MSHR::clearDownstreamPending] and [TargetList::clearDownstreamPending] call
    each other along the chain of upstream MSHRs; every call clears a flag that
    was set, so the number of MSHRs bounds the depth. *)
Fixpoint clearDP (fuel : nat) (h : Heap) (id : nat) : option Heap :=
  match fuel with
  | O => None
  | S fuel =>
      m ← h !! id;
      if downstreamPending m then
        foldl (λ o t, h ← o;
                 if markedPending t then
                   match Packet.sender (pkt t) with
                   | Some up => clearDP fuel h up
                   | None => Some h
                   end
                 else Some h)
          (Some (<[id := set_dp m false]> h)) (items (targets m))
      else None
  end.

Definition clearDownstreamPending (h : Heap) (id : nat) : option Heap := clearDP (S (base.size h)) h id.

Definition tl_clearDownstreamPending (h : Heap) (tl : TargetList) : option Heap :=
  foldl (λ o t, h ← o;
           if markedPending t then
             match Packet.sender (pkt t) with
             | Some up => clearDownstreamPending h up
             | None => Some h
             end
           else Some h)
    (Some h) (items tl).

(** [TargetList::checkFunctional]: the targets hold the buffers. *)
Fixpoint tl_checkFunctional (p : Packet.t) (ts : list Target)
    : option (bool * Packet.t * list Target) :=
  match ts with
  | [] => Some (false, p, [])
  | t :: ts =>
      '(done, p, d) ← Packet.checkFunctional_pkt p (pkt t);
      let t := match d with
               | Some d => mkTarget (recvTime t) (t_readyTime t) (t_order t)
                             (Packet.set_data (pkt t) (Packet.flags (pkt t)) (Some d))
                             (source t) (markedPending t) (t_needsResponse t)
               | None => t
               end in
      if (done : bool) then Some (true, p, t :: ts)
      else
        '(done, p, ts) ← tl_checkFunctional p ts;
        Some (done, p, t :: ts)
  end.

(** ** Registers *)

Definition needsExclusive (m : MSHR) : bool := tl_needsExclusive (targets m).
Definition hasTargets (m : MSHR) : bool := bool_decide (items (targets m) ≠ []).

Definition popTarget (m : MSHR) : MSHR :=
  set_lists m (u16 (ntargets m - 1))
    (mkTargetList (tail (items (targets m))) (tl_needsExclusive (targets m)) (hasUpgrade (targets m)))
    (deferredTargets m).

(** [isForwardNoResponse]; [getTarget] asserts a target. *)
Definition isForwardNoResponse (m : MSHR) : option bool :=
  if negb (ntargets m =? 1) then Some false
  else t ← head (items (targets m));
       Some (bool_decide (source t = FromCPU) && negb (t_needsResponse t)).

Definition allocate (h : Heap) (id : nat) (curTick a sz : Z) (p : Packet.t) (whenReady o : Z)
    : option Heap :=
  m ← h !! id;
  if isReset (targets m) then
    let h := <[id := mkMSHR whenReady o a sz false false (Request.isUncacheable (Packet.req p))
                      false (pendingInvalidate m) (pendingShared m) 0 1 (targets m)
                      (deferredTargets m)]> h in
    let src := if decide (Packet.cmd p = HardPFReq) then FromPrefetcher else FromCPU in
    '(h, ts) ← tl_add h (targets m) curTick p whenReady o src true;
    m ← h !! id;
    if isReset (deferredTargets m) then
      Some (<[id := set_pending (set_lists m (ntargets m) ts (deferredTargets m)) false false]> h)
    else None
  else None.

Definition markInService (h : Heap) (id : nat) : option (Heap * bool) :=
  m ← h !! id;
  if inService m then None
  else
    fwd ← isForwardNoResponse m;
    if (fwd : bool) then Some (<[id := popTarget m]> h, true)
    else
      let h := <[id := set_inService m true]> h in
      if downstreamPending m then Some (h, false)
      else h ← tl_clearDownstreamPending h (targets m); Some (h, false).

Definition deallocate (h : Heap) (id : nat) : option Heap :=
  m ← h !! id;
  if bool_decide (items (targets m) = []) && isReset (deferredTargets m) && (ntargets m =? 0)
  then Some (<[id := set_inService (set_lists m 0 (resetFlags (targets m)) (deferredTargets m)) false]> h)
  else None.

(** Whether a new target has to wait for the outstanding response. *)
Definition must_defer (m : MSHR) (p : Packet.t) : bool :=
  inService m &&
  (negb (bool_decide (items (deferredTargets m) = [])) || pendingInvalidate m ||
   (negb (tl_needsExclusive (targets m)) && Packet.needsExclusive p)).

Definition allocateTarget (h : Heap) (id : nat) (curTick : Z) (p : Packet.t) (whenReady o : Z)
    : option Heap :=
  if decide (Packet.cmd p = HardPFReq) then None
  else
    m ← h !! id;
    if must_defer m p then
      '(h, ds) ← tl_add h (deferredTargets m) curTick p whenReady o FromCPU true;
      m ← h !! id;
      Some (<[id := set_lists m (u16 (ntargets m + 1)) (targets m) ds]> h)
    else
      '(h, ts) ← tl_add h (targets m) curTick p whenReady o FromCPU (negb (inService m));
      m ← h !! id;
      Some (<[id := set_lists m (u16 (ntargets m + 1)) ts (deferredTargets m)]> h).

(** A request pointer reset to NULL: no field can be read. *)
Definition null_req : Request.t := Request.fresh.

(** [handleSnoop]: the heap, the snooping packet and the returned flag. *)
Definition handleSnoop (h : Heap) (id : nat) (curTick : Z) (p : Packet.t) (o : Z)
    : option (Heap * Packet.t * bool) :=
  m ← h !! id;
  let excl := Packet.needsExclusive p in
  if negb (inService m) || (Packet.isExpressSnoop p && downstreamPending m) then
    let m' := if excl
              then set_lists m (ntargets m) (replaceUpgrades (targets m))
                     (replaceUpgrades (deferredTargets m))
              else m in
    Some (<[id := m']> h, p, false)
  else
    let m := if excl
             then set_lists m (ntargets m) (targets m) (replaceUpgrades (deferredTargets m))
             else m in
    if pendingInvalidate m then Some (<[id := m]> h, p, true)
    else
      let own := tl_needsExclusive (targets m) in
      if own || excl then
        let cp := Packet.copy curTick p true in
        let p' := if own then Packet.setSupplyExclusive (Packet.assertMemInhibit p) else p in
        let cp := if own then cp else Packet.set_req cp null_req in
        '(h, ts) ← tl_add (<[id := m]> h) (targets m) curTick cp curTick o FromSnoop
                     (downstreamPending m && own);
        m ← h !! id;
        let m := set_lists m (u16 (ntargets m + 1)) ts (deferredTargets m) in
        let m := if excl then set_pending m true (pendingShared m) else m in
        Some (<[id := m]> h, p', true)
      else
        Some (<[id := set_pending m (pendingInvalidate m) true]> h, Packet.assertShared p, true).

(** [promoteDeferredTargets] *)
Definition promoteDeferredTargets (h : Heap) (id : nat) (curTick : Z) : option (Heap * bool) :=
  m ← h !! id;
  if bool_decide (items (targets m) = []) then
    match items (deferredTargets m) with
    | [] => Some (h, false)
    | t0 :: _ =>
        if Z.of_nat (length (items (deferredTargets m))) =? ntargets m then
          let m := set_lists m (ntargets m) (deferredTargets m) (resetFlags (targets m)) in
          let m := set_pending m false false in
          Some (<[id := set_timing m (Z.max curTick (t_readyTime t0)) (t_order t0)]> h, true)
        else None
    end
  else None.

(** [handleFill] *)
Definition handleFill (h : Heap) (id : nat) (p : Packet.t) : option (Heap * Packet.t) :=
  m ← h !! id;
  let p := if pendingShared m then Packet.assertShared p else p in
  if negb (Packet.sharedAsserted p) && negb (pendingInvalidate m) &&
     tl_needsExclusive (deferredTargets m) then
    if tl_needsExclusive (targets m) || downstreamPending m then None
    else
      h ← tl_clearDownstreamPending h (deferredTargets m);
      m ← h !! id;
      let ts := mkTargetList (items (targets m) ++ items (deferredTargets m)) true
                  (hasUpgrade (targets m)) in
      Some (<[id := set_lists m (ntargets m) ts TargetList_new]> h, p)
  else Some (h, p).

(** [MSHR::checkFunctional] *)
Definition mshr_checkFunctional (h : Heap) (id : nat) (p : Packet.t)
    : option (Heap * Packet.t * bool) :=
  m ← h !! id;
  if Packet.isPrint p then Some (h, p, false)
  else
    '(done, p, ts) ← tl_checkFunctional p (items (targets m));
    let tl := mkTargetList ts (tl_needsExclusive (targets m)) (hasUpgrade (targets m)) in
    if (done : bool) then
      Some (<[id := set_lists m (ntargets m) tl (deferredTargets m)]> h, p, true)
    else
      '(done, p, ds) ← tl_checkFunctional p (items (deferredTargets m));
      let dl := mkTargetList ds (tl_needsExclusive (deferredTargets m))
                  (hasUpgrade (deferredTargets m)) in
      Some (<[id := set_lists m (ntargets m) tl dl]> h, p, done).

(** ** Downstream-pending flags *)

Section DownstreamPending.

(** A heap up to the downstream-pending flags. *)
Definition erase_dp (h : Heap) (j : nat) : option MSHR := (λ m, set_dp m false) <$> h !! j.

Definition pending_count (h : Heap) : nat :=
  base.size (filter (λ '(_, m), downstreamPending m = true) h).

Lemma erase_set_dp h id m b j :
  h !! id = Some m → erase_dp (<[id := set_dp m b]> h) j = erase_dp h j.
Proof.
  intros Hm. unfold erase_dp. destruct (decide (id = j)) as [<-|].
  - by rewrite lookup_insert_eq, Hm.
  - by rewrite lookup_insert_ne.
Qed.

Lemma mark_upstream_erase h p h' j : mark_upstream h p = Some h' → erase_dp h' j = erase_dp h j.
Proof.
  unfold mark_upstream. destruct (Packet.sender p) as [id|]; [|by intros [= ->]].
  destruct (h !! id) as [m|] eqn:Hm; [|done]. simpl.
  destruct (downstreamPending m); [done|]. intros [= <-]. by apply erase_set_dp.
Qed.

Lemma pending_count_clear h id m :
  h !! id = Some m → downstreamPending m = true →
  (pending_count (<[id := set_dp m false]> h) < pending_count h)%nat.
Proof.
  intros Hm Hd. unfold pending_count. rewrite map_filter_insert_False by done.
  assert (filter (λ '(_, m), downstreamPending m = true) h !! id = Some m) as Hf
    by (apply map_lookup_filter_Some; done).
  rewrite map_filter_delete, map_size_delete_Some by eauto.
  assert (base.size (filter (λ '(_, m), downstreamPending m = true) h) ≠ 0%nat).
  { intros E. apply map_size_empty_inv in E. by rewrite E in Hf. }
  lia.
Qed.

(** A property of heaps kept by one recursive call is kept by the loop. *)
Lemma clear_fold_inv (f : Heap → nat → option Heap) (P : Heap → Prop) ts :
  (∀ h up h', P h → f h up = Some h' → P h') →
  ∀ h h', P h →
    foldl (λ o t, h ← o;
             if markedPending t then
               match Packet.sender (pkt t) with Some up => f h up | None => Some h end
             else Some h) (Some h) ts = Some h' → P h'.
Proof.
  intros Hf. induction ts as [|t ts IH]; intros h h' Hh E; [by injection E as <-|].
  simpl in E.
  match type of E with foldl ?g ?o ts = _ => destruct o as [h1|] eqn:E1 end.
  - apply (IH h1); [|exact E]. destruct (markedPending t); [|by injection E1 as <-].
    destruct (Packet.sender (pkt t)) as [up|]; [by eapply Hf|by injection E1 as <-].
  - exfalso. clear -E. induction ts; [done|]. by apply IHts.
Qed.

Lemma clearDP_erase fuel h id h' j : clearDP fuel h id = Some h' → erase_dp h' j = erase_dp h j.
Proof.
  revert h id h'. induction fuel as [|fuel IH]; intros h id h' E; [done|]. simpl in E.
  destruct (h !! id) as [m|] eqn:Hm; [|done]. simpl in E.
  destruct (downstreamPending m); [|done].
  rewrite <- (erase_set_dp h id m false j) by done.
  refine (clear_fold_inv (clearDP fuel) (λ x, erase_dp x j = _) _ _ _ _ _ E); [|done].
  intros h1 up h2 H1 H2. rewrite <- H1. by eapply IH.
Qed.

Lemma clearDP_count fuel h id h' :
  clearDP fuel h id = Some h' → (pending_count h' < pending_count h)%nat.
Proof.
  revert h id h'. induction fuel as [|fuel IH]; intros h id h' E; [done|]. simpl in E.
  destruct (h !! id) as [m|] eqn:Hm; [|done]. simpl in E.
  destruct (downstreamPending m) eqn:Hd; [|done].
  pose proof (pending_count_clear h id m Hm Hd) as Hlt.
  refine (clear_fold_inv (clearDP fuel) (λ x, (pending_count x < pending_count h)%nat) _ _ _ _ _ E);
    [|done].
  intros h1 up h2 H1 H2. apply IH in H2. lia.
Qed.

(** Two recursive calls that agree on the heaps the loop visits. *)
Lemma clear_fold_ext (f g : Heap → nat → option Heap) (P : Heap → Prop) ts :
  (∀ h up, P h → f h up = g h up) →
  (∀ h up h', P h → f h up = Some h' → P h') →
  ∀ h, P h →
    foldl (λ o t, h ← o;
             if markedPending t then
               match Packet.sender (pkt t) with Some up => f h up | None => Some h end
             else Some h) (Some h) ts =
    foldl (λ o t, h ← o;
             if markedPending t then
               match Packet.sender (pkt t) with Some up => g h up | None => Some h end
             else Some h) (Some h) ts.
Proof.
  intros Hfg Hf. induction ts as [|t ts IH]; intros h Hh; [done|]. simpl.
  destruct (markedPending t); [|by apply IH].
  destruct (Packet.sender (pkt t)) as [up|]; [|by apply IH].
  rewrite <- Hfg by done. destruct (f h up) as [h1|] eqn:E; [apply IH; by eapply Hf|].
  clear. induction ts; [done|]. apply IHts.
Qed.

(** More fuel than pending MSHRs changes nothing. *)
Lemma clearDP_fuel n n' h id :
  (pending_count h < n)%nat → (n ≤ n')%nat → clearDP n h id = clearDP n' h id.
Proof.
  revert n' h id. induction n as [|n IH]; intros n' h id Hc Hle; [lia|].
  destruct n' as [|n']; [lia|]. simpl.
  destruct (h !! id) as [m|] eqn:Hm; [|done]. simpl.
  destruct (downstreamPending m) eqn:Hd; [|done].
  apply clear_fold_ext with (P := λ x, (pending_count x < n)%nat).
  - intros h1 up H1. apply IH; [done|lia].
  - intros h1 up h2 H1 H2. apply clearDP_count in H2. lia.
  - pose proof (pending_count_clear h id m Hm Hd). lia.
Qed.

Lemma pending_count_size h : (pending_count h ≤ base.size h)%nat.
Proof. apply map_size_filter || (unfold pending_count; apply map_subseteq_size, map_filter_subseteq). Qed.

End DownstreamPending.

(** Clearing "downstream pending" along the chain of upstream MSHRs
    terminates: with one more unit of fuel than there are MSHRs the result no
    longer depends on the fuel (so [None] can only be a failed assertion), and a
    successful call strictly decreases the number of pending MSHRs and touches
    nothing but the flags. *)
Theorem clearDownstreamPending_terminates h id fuel :
  (S (base.size h) ≤ fuel)%nat →
  clearDP fuel h id = clearDownstreamPending h id ∧
  ∀ h', clearDownstreamPending h id = Some h' →
    (pending_count h' < pending_count h)%nat ∧ ∀ j, erase_dp h' j = erase_dp h j.
Proof.
  intros Hf. unfold clearDownstreamPending. split.
  - symmetry. apply clearDP_fuel; [|done]. pose proof (pending_count_size h). lia.
  - intros h' E. split; [by eapply clearDP_count|]. intros j. by eapply clearDP_erase.
Qed.

Definition demo_target (p : Packet.t) (o : Z) : Target := mkTarget 0 0 o p FromCPU true true.
Definition demo_mshr (p : Packet.t) (o : Z) (dp : bool) : MSHR :=
  mkMSHR 0 o 64 64 true false false dp false false 0 1
    (mkTargetList [demo_target p o] false false) TargetList_new.
Definition demo_heap : Heap :=
  <[0%nat := demo_mshr (demo_pkt ReadReq 64 64 None) 1 true]>
    {[1%nat := demo_mshr (Packet.mk 0 ReadReq demo_req None 64 64 0 0 InvalidCmd 0 (Some 0%nat)) 2 true]}.

Lemma clearDownstreamPending_terminates_witness :
  clearDP 7 demo_heap 1 = clearDownstreamPending demo_heap 1 ∧
  ∀ h', clearDownstreamPending demo_heap 1 = Some h' →
    (pending_count h' < pending_count demo_heap)%nat ∧ ∀ j, erase_dp h' j = erase_dp demo_heap j.
Proof. apply clearDownstreamPending_terminates. vm_compute. lia. Defined.

(** ** The invariant of a register *)

Section Invariant.

(** The flags of a list cover its own (non-snoop) targets. *)
Definition excl_ok (tl : TargetList) : Prop :=
  ∀ t, t ∈ items tl → source t ≠ FromSnoop → Packet.needsExclusive (pkt t) = true →
    tl_needsExclusive tl = true.
Definition upg_ok (tl : TargetList) : Prop :=
  ∀ t, t ∈ items tl → source t ≠ FromSnoop → Packet.isRequest (pkt t) = true →
    Packet.isUpgrade (pkt t) = true → hasUpgrade tl = true.

Definition by_order (ts : list Target) : Prop := StronglySorted Z.le (t_order <$> ts).
Definition orders_below (cnt : Z) (ts : list Target) : Prop := Forall (λ t, t_order t < cnt) ts.

Definition num_targets (m : MSHR) : Z :=
  Z.of_nat (length (items (targets m)) + length (items (deferredTargets m))).

(** [cnt] is the next value of the cache's order counter. *)
Record mshr_ok (cnt : Z) (m : MSHR) : Prop := {
  ok_count : ntargets m = num_targets m ∧ num_targets m < 2 ^ 16;
  ok_excl : excl_ok (targets m) ∧ excl_ok (deferredTargets m);
  ok_upg : upg_ok (deferredTargets m) ∧ (inService m = false → upg_ok (targets m));
  ok_idle : inService m = false → items (deferredTargets m) = [];
  ok_reset : items (deferredTargets m) = [] → isReset (deferredTargets m) = true;
  ok_order : by_order (items (targets m)) ∧ by_order (items (deferredTargets m));
  ok_all : pendingInvalidate m = false →
    by_order (items (targets m) ++ items (deferredTargets m));
  ok_defer : tl_needsExclusive (targets m) = true → pendingInvalidate m = false →
    items (deferredTargets m) = [];
  ok_below : orders_below cnt (items (targets m)) ∧ orders_below cnt (items (deferredTargets m))
}.

Definition heap_ok (cnt : Z) (h : Heap) : Prop :=
  ∀ j m, h !! j = Some m → mshr_ok cnt m.

Lemma mshr_ok_dp cnt m b : mshr_ok cnt (set_dp m b) ↔ mshr_ok cnt m.
Proof. split; intros []; by constructor. Qed.

(** The invariant does not look at the downstream-pending flags. *)
Lemma heap_ok_erase cnt h h' :
  (∀ j, erase_dp h' j = erase_dp h j) → heap_ok cnt h → heap_ok cnt h'.
Proof.
  intros He Hok j m Hm. specialize (He j). unfold erase_dp in He. rewrite Hm in He.
  destruct (h !! j) as [m0|] eqn:E; [|done]. apply (inj Some) in He.
  apply (mshr_ok_dp cnt m false). rewrite He.
  apply mshr_ok_dp. by eapply Hok.
Qed.

Lemma heap_ok_insert cnt h j m : heap_ok cnt h → mshr_ok cnt m → heap_ok cnt (<[j := m]> h).
Proof.
  intros Hh Hm k m'. destruct (decide (j = k)) as [<-|].
  - rewrite lookup_insert_eq. by intros [= <-].
  - rewrite lookup_insert_ne by done. apply Hh.
Qed.

Lemma by_order_snoc ts t :
  by_order ts → orders_below (t_order t + 1) ts → by_order (ts ++ [t]).
Proof.
  unfold by_order, orders_below. intros Hs Hb. rewrite fmap_app. cbn.
  induction ts as [|x ts IH]; cbn in *; [repeat constructor|].
  apply StronglySorted_inv in Hs as [Hs Hx]. apply Forall_cons in Hb as [Hxb Hb].
  constructor; [by apply IH|]. apply Forall_app. split; [done|].
  constructor; [lia|constructor].
Qed.

Lemma orders_below_mono c c' ts : c <= c' → orders_below c ts → orders_below c' ts.
Proof. intros Hc Hb. eapply Forall_impl; [exact Hb|]. cbn. intros t ?. lia. Qed.

Lemma orders_below_snoc c ts t :
  orders_below c ts → t_order t < c → orders_below c (ts ++ [t]).
Proof. intros Hb Ht. apply Forall_app. split; [done|by constructor]. Qed.

Lemma mshr_ok_mono c c' m : c <= c' → mshr_ok c m → mshr_ok c' m.
Proof.
  intros Hc []. constructor; try done. destruct ok_below0.
  split; by eapply orders_below_mono.
Qed.

Lemma heap_ok_mono c c' h : c <= c' → heap_ok c h → heap_ok c' h.
Proof. intros Hc Hh j m Hm. eapply mshr_ok_mono; [done|by eapply Hh]. Qed.

Lemma excl_ok_push tl ct p rt o src mp :
  excl_ok tl → excl_ok (push_target tl ct p rt o src mp).
Proof.
  intros Hok t Ht Hs He. cbn in *. apply elem_of_app in Ht as [Ht|Ht].
  - rewrite (Hok t Ht Hs He). done.
  - apply list_elem_of_singleton in Ht as ->. cbn in *. rewrite bool_decide_eq_false_2 by done.
    rewrite He. apply orb_true_r.
Qed.

Lemma upg_ok_push tl ct p rt o src mp :
  upg_ok tl → upg_ok (push_target tl ct p rt o src mp).
Proof.
  intros Hok t Ht Hs Hr He. cbn in *. apply elem_of_app in Ht as [Ht|Ht].
  - rewrite (Hok t Ht Hs Hr He). done.
  - apply list_elem_of_singleton in Ht as ->. cbn in *. rewrite bool_decide_eq_false_2 by done.
    rewrite He. apply orb_true_r.
Qed.

Lemma tl_add_spec h tl ct p rt o src mp h' tl' :
  tl_add h tl ct p rt o src mp = Some (h', tl') →
  tl' = push_target tl ct p rt o src mp ∧ ∀ j, erase_dp h' j = erase_dp h j.
Proof.
  unfold tl_add. destruct mp; [|by intros [= <- <-]].
  destruct (mark_upstream h p) as [h1|] eqn:E; [|done]. cbn. intros [= <- <-].
  split; [done|]. intros j. by eapply mark_upstream_erase.
Qed.

Lemma tl_clear_spec h tl h' j :
  tl_clearDownstreamPending h tl = Some h' → erase_dp h' j = erase_dp h j.
Proof.
  intros E. unfold tl_clearDownstreamPending in E.
  refine (clear_fold_inv clearDownstreamPending (λ x, erase_dp x j = erase_dp h j) _ _ _ _ _ E);
    [|done].
  intros h1 up h2 H1 H2. rewrite <- H1. by eapply clearDP_erase.
Qed.

Lemma erase_lookup h h' id m :
  (∀ j, erase_dp h' j = erase_dp h j) → h !! id = Some m →
  ∃ b, h' !! id = Some (set_dp m b).
Proof.
  intros He Hm. specialize (He id). unfold erase_dp in He. rewrite Hm in He.
  destruct (h' !! id) as [m'|]; [|done]. apply (inj Some) in He.
  exists (downstreamPending m'). f_equal.
  transitivity (set_dp (set_dp m' false) (downstreamPending m')); [by destruct m'|].
  by rewrite He.
Qed.

(** A new target at the end of the regular list. *)
Lemma push_targets_ok cnt m ct p rt src mp inv sh :
  mshr_ok cnt m → num_targets m < 2 ^ 16 - 1 →
  items (deferredTargets m) = [] ∨ inv = true →
  mshr_ok (cnt + 1)
    (set_pending (set_lists m (u16 (ntargets m + 1))
       (push_target (targets m) ct p rt cnt src mp) (deferredTargets m)) inv sh).
Proof.
  intros Hok Hn Hd. destruct Hok as [[Hc Hb] [He1 He2] [Hu1 Hu2] Hi Hr [Ho1 Ho2] Ha Hdf [Hb1 Hb2]].
  assert (by_order (items (targets m) ++ [mkTarget ct rt cnt p src mp (Packet.needsResponse p)]))
    as Hs by (apply by_order_snoc; [done|eapply orders_below_mono; [|done]; cbn; lia]).
  constructor; cbn.
  - unfold num_targets in *. cbn. rewrite length_app. cbn. split; [ilia|lia].
  - split; [by apply excl_ok_push|done].
  - split; [done|]. intros H. by apply upg_ok_push, Hu2.
  - done.
  - done.
  - done.
  - intros ->. destruct Hd as [->|]; [|done]. by rewrite app_nil_r.
  - intros _ ->. by destruct Hd.
  - split; [|eapply orders_below_mono; [|done]; lia].
    apply orders_below_snoc; [eapply orders_below_mono; [|done]; lia|cbn; lia].
Qed.

(** A new target at the end of the deferred list. *)
Lemma push_deferred_ok cnt m ct p rt src mp :
  mshr_ok cnt m → num_targets m < 2 ^ 16 - 1 → must_defer m p = true →
  mshr_ok (cnt + 1)
    (set_lists m (u16 (ntargets m + 1)) (targets m)
       (push_target (deferredTargets m) ct p rt cnt src mp)).
Proof.
  intros Hok Hn Hd. destruct Hok as [[Hc Hb] [He1 He2] [Hu1 Hu2] Hi Hr [Ho1 Ho2] Ha Hdf [Hb1 Hb2]].
  unfold must_defer in Hd. apply andb_true_iff in Hd as [His Hd].
  assert (∀ ts, by_order ts → orders_below cnt ts →
    by_order (ts ++ [mkTarget ct rt cnt p src mp (Packet.needsResponse p)])) as Hs
    by (intros; apply by_order_snoc; [done|eapply orders_below_mono; [|done]; cbn; lia]).
  constructor; cbn.
  - unfold num_targets in *. cbn. rewrite length_app. cbn. split; [ilia|lia].
  - split; [done|by apply excl_ok_push].
  - split; [by apply upg_ok_push|done].
  - congruence.
  - intros H. apply app_nil in H as [_ H]. done.
  - split; [done|by apply Hs].
  - intros Hpi. rewrite app_assoc. apply Hs; [by apply Ha|]. by apply Forall_app.
  - intros Hx Hpi. rewrite Hx, Hpi, (Hdf Hx Hpi) in Hd. by rewrite bool_decide_eq_true_2 in Hd.
  - split; [eapply orders_below_mono; [|done]; lia|].
    apply orders_below_snoc; [eapply orders_below_mono; [|done]; lia|cbn; lia].
Qed.

Lemma upgrade_needsExclusive c : MemCmd.needsExclusive (upgrade_cmd c) = MemCmd.needsExclusive c.
Proof. by destruct c. Qed.

Lemma upgrade_no_upgrade c :
  MemCmd.isRequest (upgrade_cmd c) = true → MemCmd.isUpgrade (upgrade_cmd c) = false.
Proof. by destruct c. Qed.

Lemma replaceUpgrades_spec tl :
  length (items (replaceUpgrades tl)) = length (items tl) ∧
  t_order <$> items (replaceUpgrades tl) = t_order <$> items tl ∧
  tl_needsExclusive (replaceUpgrades tl) = tl_needsExclusive tl ∧
  hasUpgrade (replaceUpgrades tl) = false ∧
  (excl_ok tl → excl_ok (replaceUpgrades tl)) ∧ (upg_ok tl → upg_ok (replaceUpgrades tl)).
Proof.
  unfold replaceUpgrades. destruct (hasUpgrade tl) eqn:E; [|by rewrite E].
  split_and!; cbn; try done.
  - by rewrite length_fmap.
  - rewrite <- list_fmap_compose. by apply list_fmap_ext.
  - intros Hok t Ht Hs Hx. cbn in *. apply list_elem_of_fmap in Ht as (t0 & -> & Ht0).
    apply (Hok t0); [done|done|]. unfold Packet.needsExclusive in *. cbn in Hx.
    by rewrite upgrade_needsExclusive in Hx.
  - intros Hok t Ht Hs Hr Hx. cbn in *. apply list_elem_of_fmap in Ht as (t0 & -> & Ht0).
    unfold Packet.isUpgrade, Packet.isRequest in *. cbn in *.
    by rewrite upgrade_no_upgrade in Hx.
Qed.

Lemma by_order_fmap ts ts' :
  t_order <$> ts' = t_order <$> ts → by_order ts → by_order ts'.
Proof. unfold by_order. by intros ->. Qed.

Lemma orders_below_fmap c ts ts' :
  t_order <$> ts' = t_order <$> ts → orders_below c ts → orders_below c ts'.
Proof.
  unfold orders_below. intros E H. change (Forall ((λ o, o < c) ∘ t_order) ts').
  rewrite <- Forall_fmap, E. by apply Forall_fmap.
Qed.

(** Rewriting targets in place, keeping their order numbers. *)
Lemma relist_ok cnt m ts ds :
  mshr_ok cnt m →
  t_order <$> items ts = t_order <$> items (targets m) →
  t_order <$> items ds = t_order <$> items (deferredTargets m) →
  tl_needsExclusive ts = tl_needsExclusive (targets m) →
  (isReset (deferredTargets m) = true → isReset ds = true) →
  excl_ok ts → excl_ok ds → upg_ok ds → (inService m = false → upg_ok ts) →
  mshr_ok cnt (set_lists m (ntargets m) ts ds).
Proof.
  intros [[Hc Hb] _ _ Hi Hr [Ho1 Ho2] Ha Hdf [Hb1 Hb2]] Et Ed Ex Hrs ????.
  assert (length (items ts) = length (items (targets m))) as Lt
    by (rewrite <- (length_fmap t_order (items ts)), Et; apply length_fmap).
  assert (length (items ds) = length (items (deferredTargets m))) as Ld
    by (rewrite <- (length_fmap t_order (items ds)), Ed; apply length_fmap).
  assert (items ds = [] ↔ items (deferredTargets m) = []) as Hnil
    by (rewrite <- !length_zero_iff_nil, Ld; done).
  constructor; cbn; try done.
  - unfold num_targets in *. cbn. by rewrite Lt, Ld.
  - intros Hf. apply Hnil. auto.
  - intros Hd. apply Hrs, Hr, Hnil, Hd.
  - split; by eapply by_order_fmap.
  - intros Hp. eapply by_order_fmap; [|by apply Ha]. rewrite !fmap_app. by f_equal.
  - rewrite Ex. intros. apply Hnil. auto.
  - split; by eapply orders_below_fmap.
Qed.

Lemma replace_reset tl :
  isReset tl = true → isReset (replaceUpgrades tl) = true.
Proof.
  unfold isReset. intros H. destruct (replaceUpgrades_spec tl) as (_ & _ & -> & -> & _).
  apply andb_true_iff in H as [-> _]. done.
Qed.

Lemma replace_all_ok cnt m :
  mshr_ok cnt m →
  mshr_ok cnt (set_lists m (ntargets m) (replaceUpgrades (targets m))
                 (replaceUpgrades (deferredTargets m))).
Proof.
  intros Hok. pose proof Hok as [_ [] [] _ _ _ _ _ _].
  destruct (replaceUpgrades_spec (targets m)) as (?&?&?&?&?&?).
  destruct (replaceUpgrades_spec (deferredTargets m)) as (?&?&?&?&?&?).
  apply relist_ok; auto using replace_reset.
Qed.

Lemma replace_deferred_ok cnt m :
  mshr_ok cnt m →
  mshr_ok cnt (set_lists m (ntargets m) (targets m) (replaceUpgrades (deferredTargets m))).
Proof.
  intros Hok. pose proof Hok as [_ [] [] _ _ _ _ _ _].
  destruct (replaceUpgrades_spec (deferredTargets m)) as (?&?&?&?&?&?).
  apply relist_ok; auto using replace_reset.
Qed.

Lemma popTarget_ok cnt m : hasTargets m = true → mshr_ok cnt m → mshr_ok cnt (popTarget m).
Proof.
  unfold hasTargets. intros Hne%bool_decide_eq_true.
  destruct m as [? ? ? ? ? ? ? ? ? ? ? n [ts ? ?] ds]. cbn in *.
  destruct ts as [|t ts]; [done|].
  intros [[Hc Hb] [He1 He2] [Hu1 Hu2] Hi Hr [Ho1 Ho2] Ha Hdf [Hb1 Hb2]].
  unfold num_targets in *. cbn in *.
  constructor; cbn in *; try done.
  - unfold num_targets. cbn. rewrite Hc. split; [ilia|lia].
  - split; [|done]. intros t' Ht'. apply He1. by right.
  - split; [done|]. intros H t' Ht'. apply (Hu2 H). by right.
  - split; [|done]. by apply StronglySorted_inv in Ho1 as [? _].
  - intros H. specialize (Ha H). by apply StronglySorted_inv in Ha as [? _].
  - split; [|done]. by apply Forall_cons in Hb1 as [_ ?].
Qed.

Lemma setInService_ok cnt m : mshr_ok cnt m → mshr_ok cnt (set_inService m true).
Proof. intros []. constructor; cbn; try done. split; [apply ok_upg0|done]. Qed.

Lemma promote_ok cnt m t0 ds ct :
  items (targets m) = [] → items (deferredTargets m) = t0 :: ds → mshr_ok cnt m →
  mshr_ok cnt (set_inService (set_timing (set_pending
    (set_lists m (ntargets m) (deferredTargets m) (resetFlags (targets m))) false false)
    (Z.max ct (t_readyTime t0)) (t_order t0)) false).
Proof.
  intros Ht Hds [[Hc Hb] [He1 He2] [Hu1 Hu2] Hi Hr [Ho1 Ho2] Ha Hdf [Hb1 Hb2]].
  constructor; cbn; rewrite ?Ht, ?app_nil_r; try done.
  - unfold num_targets in *. cbn. rewrite Ht in *. cbn in *. split; lia.
  - split; [done|]. intros t Hin. cbn in Hin. rewrite Ht in Hin. by apply elem_of_nil in Hin.
  - split; [|done]. intros t Hin. cbn in Hin. rewrite Ht in Hin. by apply elem_of_nil in Hin.
  - split; [done|constructor].
  - split; [done|constructor].
Qed.

Lemma splice_ok cnt m :
  mshr_ok cnt m → inService m = true → pendingInvalidate m = false →
  mshr_ok cnt (set_lists m (ntargets m)
    (mkTargetList (items (targets m) ++ items (deferredTargets m)) true (hasUpgrade (targets m)))
    TargetList_new).
Proof.
  intros [[Hc Hb] _ _ _ _ _ Ha _ [Hb1 Hb2]] His Hp.
  constructor; cbn; rewrite ?app_nil_r; try done.
  - unfold num_targets in *. cbn. rewrite length_app. split; lia.
  - split; [done|]. intros t Hin. by apply elem_of_nil in Hin.
  - split; [|congruence]. intros t Hin. by apply elem_of_nil in Hin.
  - split; [by apply Ha|constructor].
  - split; [by apply Forall_app|constructor].
Qed.

Lemma tl_checkFunctional_spec p ts d p' ts' x u :
  tl_checkFunctional p ts = Some (d, p', ts') →
  t_order <$> ts' = t_order <$> ts ∧
  (excl_ok (mkTargetList ts x u) → excl_ok (mkTargetList ts' x u)) ∧
  (upg_ok (mkTargetList ts x u) → upg_ok (mkTargetList ts' x u)).
Proof.
  intros E.
  enough (Forall2 (λ t t', t_order t' = t_order t ∧ source t' = source t ∧
    Packet.cmd (pkt t') = Packet.cmd (pkt t)) ts ts') as Hf.
  { split_and!.
    - clear E. induction Hf as [|? ? ? ? (Ho&_&_) _ IH]; [done|]. cbn. by rewrite Ho, IH.
    - intros Hok t Hin Hs Hx. cbn in *.
      destruct (Forall2_elem_r _ _ _ _ Hf Hin) as (t0 & Hin0 & _ & Hs0 & Hc0).
      apply (Hok t0); [done|congruence|]. unfold Packet.needsExclusive in *. congruence.
    - intros Hok t Hin Hs Hr Hx. cbn in *.
      destruct (Forall2_elem_r _ _ _ _ Hf Hin) as (t0 & Hin0 & _ & Hs0 & Hc0).
      apply (Hok t0); [done|congruence| |];
        unfold Packet.isRequest, Packet.isUpgrade in *; congruence. }
  revert p d p' ts' E. induction ts as [|t ts IH]; intros p d p' ts' E; cbn in E.
  { injection E as <- <- <-. constructor. }
  destruct (Packet.checkFunctional_pkt p (pkt t)) as [[[dn p1] od]|]; [|done]. cbn in E.
  destruct dn.
  - injection E as <- <- <-. constructor; [by destruct od|]. by apply Forall_Forall2_diag, Forall_true.
  - destruct (tl_checkFunctional p1 ts) as [[[d2 p2] ts2]|] eqn:E2; [|done]. cbn in E.
    injection E as <- <- <-. constructor; [by destruct od|]. by eapply IH.
Qed.

End Invariant.

(** What a cache does to its registers; the second component is its order
    counter.  A free register has no target; a register takes a new target only
    while its 16-bit counter has room for it. *)
Inductive mshr_step : Heap * Z → Heap * Z → Prop :=
  | step_allocate h cnt id m ct a sz p rt h' :
      h !! id = Some m → items (targets m) = [] → items (deferredTargets m) = [] →
      allocate h id ct a sz p rt cnt = Some h' → mshr_step (h, cnt) (h', cnt + 1)
  | step_target h cnt id m ct p rt h' :
      h !! id = Some m → num_targets m < 2 ^ 16 - 1 →
      allocateTarget h id ct p rt cnt = Some h' → mshr_step (h, cnt) (h', cnt + 1)
  | step_snoop h cnt id m ct p h' p' b :
      h !! id = Some m → num_targets m < 2 ^ 16 - 1 →
      handleSnoop h id ct p cnt = Some (h', p', b) → mshr_step (h, cnt) (h', cnt + 1)
  | step_service h cnt id h' b :
      markInService h id = Some (h', b) → mshr_step (h, cnt) (h', cnt)
  | step_fill h cnt id m p h' p' :
      h !! id = Some m → inService m = true →
      handleFill h id p = Some (h', p') → mshr_step (h, cnt) (h', cnt)
  | step_pop h cnt id m :
      h !! id = Some m → hasTargets m = true → mshr_step (h, cnt) (<[id := popTarget m]> h, cnt)
  | step_retry h cnt id ct h' m :
      promoteDeferredTargets h id ct = Some (h', true) → h' !! id = Some m →
      mshr_step (h, cnt) (<[id := set_inService m false]> h', cnt)
  | step_free h cnt id h' : deallocate h id = Some h' → mshr_step (h, cnt) (h', cnt)
  | step_clear h cnt id h' :
      clearDownstreamPending h id = Some h' → mshr_step (h, cnt) (h', cnt)
  | step_functional h cnt id p h' p' b :
      mshr_checkFunctional h id p = Some (h', p', b) → mshr_step (h, cnt) (h', cnt).

(** Any number of fresh registers, then steps. *)
Inductive mshr_reach : Heap → Z → Prop :=
  | reach_init (h : Heap) : (∀ j m, h !! j = Some m → m = MSHR_new) → mshr_reach h 0
  | reach_step h cnt h' cnt' :
      mshr_reach h cnt → mshr_step (h, cnt) (h', cnt') → mshr_reach h' cnt'.

Section Preservation.

(** The heap after a new target: the register is unchanged but for its flag. *)
Lemma add_then_ok cnt cnt' h id m tl ct p rt o src mp h1 tl' (f : MSHR → MSHR) :
  heap_ok cnt h → cnt <= cnt' → h !! id = Some m →
  tl_add h tl ct p rt o src mp = Some (h1, tl') →
  (∀ b, mshr_ok cnt' (f (set_dp m b))) →
  ∃ m1, h1 !! id = Some m1 ∧ heap_ok cnt' (<[id := f m1]> h1).
Proof.
  intros Hh Hc Hm E Hf. apply tl_add_spec in E as [_ He].
  destruct (erase_lookup h h1 id m He Hm) as [b Hb].
  exists (set_dp m b). split; [done|]. apply heap_ok_insert; [|done].
  eapply heap_ok_mono; [done|]. by eapply heap_ok_erase.
Qed.

Lemma tl_add_list h tl ct p rt o src mp h1 tl' :
  tl_add h tl ct p rt o src mp = Some (h1, tl') → tl' = push_target tl ct p rt o src mp.
Proof. by intros [? _]%tl_add_spec. Qed.

Lemma set_pending_id m : set_pending m (pendingInvalidate m) (pendingShared m) = m.
Proof. by destruct m. Qed.

Lemma allocate_ok h cnt id m ct a sz p rt h' :
  heap_ok cnt h → h !! id = Some m → items (targets m) = [] → items (deferredTargets m) = [] →
  allocate h id ct a sz p rt cnt = Some h' → heap_ok (cnt + 1) h'.
Proof.
  intros Hh Hm Ht Hd E. unfold allocate in E. rewrite Hm in E. cbn [mbind option_bind] in E.
  destruct (isReset (targets m)); [|done].
  set (m0 := mkMSHR rt cnt a sz false false _ false _ _ 0 1 _ _) in E.
  destruct (tl_add _ _ _ _ _ _ _ _) as [[h1 ts]|] eqn:Ea; [|done]. cbn [mbind option_bind] in E.
  pose proof (tl_add_list _ _ _ _ _ _ _ _ _ _ Ea) as ->.
  pose proof (tl_add_spec _ _ _ _ _ _ _ _ _ _ Ea) as [_ He].
  destruct (erase_lookup _ h1 id m0 He) as [b Hb]; [by rewrite lookup_insert_eq|].
  rewrite Hb in E. cbn [mbind option_bind] in E. cbn [deferredTargets m0 set_dp] in E.
  destruct (isReset (deferredTargets m)) eqn:Hr; [|done]. injection E as <-.
  intros j mj Hj. destruct (decide (id = j)) as [<-|].
  - rewrite lookup_insert_eq in Hj. injection Hj as <-.
    constructor; cbn; rewrite ?Ht, ?Hd, ?app_nil_r; cbn; try done.
    + unfold num_targets. cbn. rewrite Ht, Hd. done.
    + split; [|intros t Hin; rewrite Hd in Hin; by apply elem_of_nil in Hin].
      apply excl_ok_push. intros t Hin. rewrite Ht in Hin. by apply elem_of_nil in Hin.
    + split; [intros t Hin; rewrite Hd in Hin; by apply elem_of_nil in Hin|]. intros _.
      apply upg_ok_push. intros t Hin. rewrite Ht in Hin. by apply elem_of_nil in Hin.
    + split; [|constructor]. repeat constructor.
    + repeat constructor.
    + split; [|constructor]. constructor; [cbn; lia|constructor].
  - rewrite lookup_insert_ne in Hj by done.
    specialize (He j). unfold erase_dp in He. rewrite Hj, lookup_insert_ne in He by done.
    destruct (h !! j) as [m1|] eqn:E1; [|done]. apply (inj Some) in He.
    apply (mshr_ok_dp _ mj false). rewrite He. apply mshr_ok_dp.
    eapply mshr_ok_mono; [|by eapply Hh]. lia.
Qed.

Lemma allocateTarget_ok h cnt id m ct p rt h' :
  heap_ok cnt h → h !! id = Some m → num_targets m < 2 ^ 16 - 1 →
  allocateTarget h id ct p rt cnt = Some h' → heap_ok (cnt + 1) h'.
Proof.
  intros Hh Hm Hn E. unfold allocateTarget in E. rewrite Hm in E.
  destruct (decide _); [done|]. cbn [mbind option_bind] in E.
  pose proof (Hh id m Hm) as Hok.
  destruct (must_defer m p) eqn:Hd;
    destruct (tl_add _ _ _ _ _ _ _ _) as [[h1 tl]|] eqn:Ea; try done; cbn [mbind option_bind] in E.
  - destruct (add_then_ok cnt (cnt + 1) h id m _ _ _ _ _ _ _ _ _
      (λ m, set_lists m (u16 (ntargets m + 1)) (targets m) tl) Hh ltac:(lia) Hm Ea)
      as (m1 & Hm1 & Hk); [|rewrite Hm1 in E; by injection E as <-].
    intros b. apply tl_add_list in Ea as ->. cbn.
    apply (mshr_ok_dp _ (set_lists m _ _ _) b). by apply push_deferred_ok.
  - destruct (add_then_ok cnt (cnt + 1) h id m _ _ _ _ _ _ _ _ _
      (λ m, set_lists m (u16 (ntargets m + 1)) tl (deferredTargets m)) Hh ltac:(lia) Hm Ea)
      as (m1 & Hm1 & Hk); [|rewrite Hm1 in E; by injection E as <-].
    intros b. apply tl_add_list in Ea as ->. cbn.
    apply (mshr_ok_dp _ (set_lists m _ _ _) b).
    rewrite <- (set_pending_id (set_lists m _ _ _)). apply push_targets_ok; [done..|left].
    unfold must_defer in Hd. destruct (inService m) eqn:His; [|by apply (ok_idle cnt m)].
    cbn in Hd. zbool. by apply bool_decide_eq_true in H.
Qed.

(** The register a snoop works on once buffered upgrades are replaced. *)
Lemma snoop_prepare_ok cnt m (excl : bool) :
  mshr_ok cnt m →
  mshr_ok cnt (if excl then set_lists m (ntargets m) (targets m) (replaceUpgrades (deferredTargets m))
               else m).
Proof. destruct excl; [apply replace_deferred_ok|done]. Qed.

Lemma pendingShared_ok cnt m : mshr_ok cnt m → mshr_ok cnt (set_pending m (pendingInvalidate m) true).
Proof. intros []. by constructor. Qed.

Lemma handleSnoop_ok h cnt id m ct p h' p' b :
  heap_ok cnt h → h !! id = Some m → num_targets m < 2 ^ 16 - 1 →
  handleSnoop h id ct p cnt = Some (h', p', b) → heap_ok (cnt + 1) h'.
Proof.
  intros Hh Hm Hn E. unfold handleSnoop in E. rewrite Hm in E. cbn [mbind option_bind] in E.
  pose proof (Hh id m Hm) as Hok.
  pose proof (heap_ok_mono cnt (cnt + 1) h ltac:(lia) Hh) as Hh1.
  pose proof (snoop_prepare_ok cnt m (Packet.needsExclusive p) Hok) as Hok1.
  assert (cnt <= cnt + 1) as Hle by lia.
  destruct (_ || _).
  { injection E as <- <- <-. apply heap_ok_insert; [done|]. eapply mshr_ok_mono; [exact Hle|].
    destruct (Packet.needsExclusive p); [by apply replace_all_ok|done]. }
  set (m1 := if Packet.needsExclusive p then _ else m) in *.
  assert (num_targets m1 < 2 ^ 16 - 1) as Hn1.
  { unfold num_targets, m1 in *. destruct (Packet.needsExclusive p); [|done]. cbn.
    by destruct (replaceUpgrades_spec (deferredTargets m)) as (-> & _). }
  clearbody m1. destruct (pendingInvalidate m1) eqn:Hpi.
  { injection E as <- <- <-. apply heap_ok_insert; [done|]. by eapply mshr_ok_mono. }
  destruct (tl_needsExclusive (targets m1) || Packet.needsExclusive p) eqn:Hx.
  - destruct (tl_add _ _ _ _ _ _ _ _) as [[h1 tl]|] eqn:Ea; [|done].
    cbn [mbind option_bind] in E. pose proof (tl_add_list _ _ _ _ _ _ _ _ _ _ Ea) as Htl.
    destruct (add_then_ok cnt (cnt + 1) (<[id := m1]> h) id m1 _ _ _ _ _ _ _ _ _
      (λ m, set_pending (set_lists m (u16 (ntargets m + 1)) tl (deferredTargets m))
         (Packet.needsExclusive p || pendingInvalidate m) (pendingShared m))
      (heap_ok_insert _ _ _ _ Hh Hok1) Hle (lookup_insert_eq _ _ _) Ea) as (m2 & Hm2 & Hk).
    + intros c. rewrite Htl. apply (mshr_ok_dp _ (set_pending (set_lists m1 _ _ _) _ _) c).
      apply push_targets_ok; [done..|].
      destruct (Packet.needsExclusive p); [by right|left].
      rewrite orb_false_r in Hx. by apply (ok_defer cnt m1).
    + rewrite Hm2 in E. cbn [mbind option_bind] in E.
      destruct (Packet.needsExclusive p); injection E as <- _ _; [done|].
      by rewrite <- (set_pending_id (set_lists m2 _ _ _)).
  - injection E as <- _ _. apply heap_ok_insert; [done|].
    eapply mshr_ok_mono; [exact Hle|]. rewrite <- Hpi. by apply pendingShared_ok.
Qed.

Lemma markInService_ok h cnt id h' b :
  heap_ok cnt h → markInService h id = Some (h', b) → heap_ok cnt h'.
Proof.
  intros Hh E. unfold markInService in E. destruct (h !! id) as [m|] eqn:Hm; [|done].
  cbn [mbind option_bind] in E. pose proof (Hh id m Hm) as Hok.
  destruct (inService m); [done|].
  destruct (isForwardNoResponse m) as [[]|] eqn:Hf; [| |done]; cbn [mbind option_bind] in E.
  - injection E as <- _. apply heap_ok_insert, popTarget_ok; [done| |done].
    unfold isForwardNoResponse in Hf. destruct (negb _); [done|].
    unfold hasTargets. apply bool_decide_eq_true. intros Hnil. by rewrite Hnil in Hf.
  - pose proof (heap_ok_insert cnt h id _ Hh (setInService_ok cnt m Hok)) as Hh1.
    destruct (downstreamPending m); [by injection E as <- _|].
    destruct (tl_clearDownstreamPending _ _) as [h2|] eqn:Ec; [|done]. injection E as <- _.
    eapply heap_ok_erase; [|exact Hh1]. intros j. by eapply tl_clear_spec.
Qed.

Lemma handleFill_ok h cnt id m p h' p' :
  heap_ok cnt h → h !! id = Some m → inService m = true →
  handleFill h id p = Some (h', p') → heap_ok cnt h'.
Proof.
  intros Hh Hm His E. unfold handleFill in E. rewrite Hm in E. cbn [mbind option_bind] in E.
  pose proof (Hh id m Hm) as Hok.
  destruct (_ && _) eqn:Hg; [|by injection E as <- _]. zbool.
  destruct (_ || _); [done|].
  destruct (tl_clearDownstreamPending _ _) as [h1|] eqn:Ec; [|done].
  cbn [mbind option_bind] in E.
  assert (∀ j, erase_dp h1 j = erase_dp h j) as He by (intros; by eapply tl_clear_spec).
  destruct (erase_lookup h h1 id m He Hm) as [b Hb]. rewrite Hb in E. injection E as <- _.
  apply heap_ok_insert; [by eapply heap_ok_erase|]. cbn.
  apply (mshr_ok_dp _ (set_lists m _ _ _) b). by apply splice_ok.
Qed.

Lemma retry_ok h cnt id ct h' m :
  heap_ok cnt h → promoteDeferredTargets h id ct = Some (h', true) → h' !! id = Some m →
  heap_ok cnt (<[id := set_inService m false]> h').
Proof.
  intros Hh E Hm'. unfold promoteDeferredTargets in E.
  destruct (h !! id) as [m0|] eqn:Hm; [|done]. cbn [mbind option_bind] in E.
  destruct (bool_decide _) eqn:Ht; [|done]. apply bool_decide_eq_true in Ht.
  destruct (items (deferredTargets m0)) as [|t0 ds] eqn:Hds; [done|].
  destruct (_ =? _); [|done]. injection E as <-.
  rewrite lookup_insert_eq in Hm'. injection Hm' as <-. rewrite insert_insert_eq.
  apply heap_ok_insert; [done|]. eapply promote_ok; [done..|]. by eapply Hh.
Qed.

Lemma deallocate_ok h cnt id h' :
  heap_ok cnt h → deallocate h id = Some h' → heap_ok cnt h'.
Proof.
  intros Hh E. unfold deallocate in E. destruct (h !! id) as [m|] eqn:Hm; [|done].
  cbn [mbind option_bind] in E. destruct (_ && _) eqn:Hg; [|done]. injection E as <-.
  apply andb_true_iff in Hg as [Hg Hn]. apply andb_true_iff in Hg as [Ht Hr].
  apply bool_decide_eq_true in Ht. apply Z.eqb_eq in Hn.
  destruct (Hh id m Hm) as [[Hc _] _ _ _ _ _ _ _ _].
  assert (items (deferredTargets m) = []) as Hd.
  { apply length_zero_iff_nil. unfold num_targets in Hc. rewrite Ht in Hc. cbn in Hc. lia. }
  apply heap_ok_insert; [done|].
  constructor; cbn; rewrite ?Ht, ?Hd; cbn; try done;
    try (split; intros t Hin; cbn in Hin; rewrite ?Ht, ?Hd in Hin; by apply elem_of_nil in Hin).
  - unfold num_targets. cbn. by rewrite Ht, Hd.
  - split; [intros t Hin; rewrite Hd in Hin; by apply elem_of_nil in Hin|].
    intros _ t Hin. cbn in Hin. rewrite Ht in Hin. by apply elem_of_nil in Hin.
  - repeat constructor.
  - constructor.
  - repeat constructor.
Qed.

Lemma mshr_functional_ok h cnt id p h' p' b :
  heap_ok cnt h → mshr_checkFunctional h id p = Some (h', p', b) → heap_ok cnt h'.
Proof.
  intros Hh E. unfold mshr_checkFunctional in E. destruct (h !! id) as [m|] eqn:Hm; [|done].
  cbn [mbind option_bind] in E. destruct (Packet.isPrint p); [by injection E as <- _ _|].
  pose proof (Hh id m Hm) as Hok. pose proof Hok as [_ [He1 He2] [Hu1 Hu2] _ _ _ _ _ _].
  destruct (targets m) as [ts x u] eqn:Etm, (deferredTargets m) as [ds y v] eqn:Edm.
  destruct (tl_checkFunctional p _) as [[[d1 p1] ts1]|] eqn:E1; [|done].
  cbn [mbind option_bind] in E. cbn in E1.
  destruct (tl_checkFunctional_spec _ _ _ _ _ x u E1) as (Ho1 & Hx1 & Hg1).
  destruct d1.
  - injection E as <- _ _. apply heap_ok_insert; [done|]. rewrite <- Edm.
    apply relist_ok; rewrite ?Edm, ?Etm; cbn; auto.
  - destruct (tl_checkFunctional p1 _) as [[[d2 p2] ds2]|] eqn:E2; [|done].
    cbn [mbind option_bind] in E. cbn in E2.
    destruct (tl_checkFunctional_spec _ _ _ _ _ y v E2) as (Ho2 & Hx2 & Hg2).
    injection E as <- _ _. apply heap_ok_insert; [done|].
    apply relist_ok; rewrite ?Edm, ?Etm; cbn; auto.
Qed.

Lemma mshr_step_ok h cnt h' cnt' :
  heap_ok cnt h → mshr_step (h, cnt) (h', cnt') → heap_ok cnt' h'.
Proof.
  intros Hh Hs. inversion Hs; subst.
  - by eapply allocate_ok.
  - by eapply allocateTarget_ok.
  - by eapply handleSnoop_ok.
  - by eapply markInService_ok.
  - by eapply handleFill_ok.
  - eapply heap_ok_insert, popTarget_ok; [done..|]. by eapply Hh.
  - by eapply retry_ok.
  - by eapply deallocate_ok.
  - eapply heap_ok_erase; [|done]. intros j. by eapply clearDP_erase.
  - by eapply mshr_functional_ok.
Qed.

Lemma mshr_new_ok : mshr_ok 0 MSHR_new.
Proof.
  assert (excl_ok TargetList_new ∧ upg_ok TargetList_new) as []
    by (split; intros t Hin; by apply elem_of_nil in Hin).
  assert (by_order [] ∧ orders_below 0 []) as [] by (split; constructor).
  by constructor.
Qed.

Lemma mshr_reach_ok h cnt : mshr_reach h cnt → heap_ok cnt h.
Proof.
  induction 1 as [h Hn|h cnt h' cnt' _ IH Hs]; [|by eapply mshr_step_ok].
  intros j m Hm. rewrite (Hn j m Hm). apply mshr_new_ok.
Qed.

End Preservation.

(** Where a new target goes: to the end of the deferred list exactly when it has to wait. *)
Lemma allocateTarget_rule h id m ct p rt o h' :
  h !! id = Some m → allocateTarget h id ct p rt o = Some h' →
  ∃ m' t, h' !! id = Some m' ∧ pkt t = p ∧ t_order t = o ∧ source t = FromCPU ∧
    if must_defer m p
    then items (targets m') = items (targets m) ∧ items (deferredTargets m') = items (deferredTargets m) ++ [t]
    else items (targets m') = items (targets m) ++ [t] ∧ items (deferredTargets m') = items (deferredTargets m).
Proof.
  intros Hm E. unfold allocateTarget in E. destruct (decide _); [done|]. rewrite Hm in E. cbn [mbind option_bind] in E.
  destruct (must_defer m p); destruct (tl_add _ _ _ _ _ _ _ _) as [[h1 tl]|] eqn:Ea; try done; cbn [mbind option_bind] in E;
    apply tl_add_spec in Ea as [-> He]; destruct (erase_lookup h h1 id m He Hm) as [b Hb]; rewrite Hb in E;
    injection E as <-; rewrite lookup_insert_eq; eexists; eexists (mkTarget ct rt o p FromCPU _ _); split_and!; reflexivity.
Qed.

Lemma must_defer_rule m p :
  must_defer m p = true ↔ inService m = true ∧
    (items (deferredTargets m) ≠ [] ∨ pendingInvalidate m = true ∨
     tl_needsExclusive (targets m) = false ∧ Packet.needsExclusive p = true).
Proof.
  unfold must_defer. rewrite andb_true_iff, !orb_true_iff, andb_true_iff, !negb_true_iff, bool_decide_eq_false. tauto.
Qed.


Definition demo_regs : Heap := <[0%nat := MSHR_new]> {[1%nat := MSHR_new]}.

Lemma demo_regs_new j m : demo_regs !! j = Some m → m = MSHR_new.
Proof.
  unfold demo_regs. rewrite lookup_insert_Some. intros [[_ <-]|[_ H]]; [done|].
  apply lookup_singleton_Some in H as [_ <-]. done.
Qed.

Definition demo_alloc : Heap :=
  default ∅ (allocate demo_regs 0 5 64 64 (demo_pkt ReadReq 64 64 None) 10 0).
Definition demo_service : Heap := default ∅ (fst <$> markInService demo_alloc 0).
Definition demo_deferred : Heap :=
  default ∅ (allocateTarget demo_service 0 7 (demo_pkt WriteReq 64 8 None) 12 1).

Lemma demo_service_reach : mshr_reach demo_service 1.
Proof.
  assert (mshr_reach demo_alloc 1).
  { eapply (reach_step demo_regs 0); [apply reach_init, demo_regs_new|].
    apply (step_allocate demo_regs 0 0 MSHR_new 5 64 64 (demo_pkt ReadReq 64 64 None) 10);
      reflexivity. }
  eapply (reach_step demo_alloc 1); [done|]. eapply (step_service _ _ 0 _ false). reflexivity.
Qed.

Lemma demo_deferred_reach : mshr_reach demo_deferred 2.
Proof.
  eapply (reach_step demo_service 1); [exact demo_service_reach|].
  eapply (step_target demo_service 1 0 _ 7 (demo_pkt WriteReq 64 8 None) 12); reflexivity.
Qed.


(** Two assertions of the register code cannot fail in a reachable state:
    the size check when deferred targets are promoted (so promotion of a register
    whose regular targets are all served succeeds, and makes the deferred targets
    the regular ones), and the check that a response which releases the deferred
    targets was not already exclusive. *)
Theorem mshr_assertions h cnt id m :
  mshr_reach h cnt → h !! id = Some m →
  (items (targets m) = [] → ∀ curTick, ∃ h' b,
     promoteDeferredTargets h id curTick = Some (h', b) ∧
     (b = true ↔ items (deferredTargets m) ≠ []) ∧
     ∃ m', h' !! id = Some m' ∧ items (targets m') = items (deferredTargets m) ∧
       items (deferredTargets m') = []) ∧
  (pendingInvalidate m = false → tl_needsExclusive (deferredTargets m) = true →
     tl_needsExclusive (targets m) = false).
Proof.
  intros Hr Hm. destruct (mshr_reach_ok h cnt Hr id m Hm) as [[Hc _] _ _ _ Hrs _ _ Hdf _]. split.
  - intros Ht ct. unfold promoteDeferredTargets. rewrite Hm. cbn [mbind option_bind].
    rewrite bool_decide_eq_true_2 by done.
    destruct (items (deferredTargets m)) as [|t0 ds] eqn:Hds.
    + exists h, false. split; [done|]. split; [done|]. exists m. by rewrite Ht, Hds.
    + replace (_ =? _) with true
        by (symmetry; apply Z.eqb_eq; unfold num_targets in Hc; rewrite Ht, Hds in Hc; cbn in *; lia).
      do 2 eexists. split; [reflexivity|]. split; [done|]. eexists.
      split; [apply lookup_insert_eq|]. cbn. by rewrite Ht.
  - intros Hp Hx. destruct (tl_needsExclusive (targets m)); [|done].
    specialize (Hrs (Hdf eq_refl Hp)). unfold isReset in Hrs. by rewrite Hx in Hrs.
Qed.

Lemma mshr_assertions_witness : ∃ m, demo_deferred !! 0%nat = Some m ∧
  tl_needsExclusive (deferredTargets m) = true ∧ tl_needsExclusive (targets m) = false.
Proof.
  eexists. split; [reflexivity|]. split; [reflexivity|].
  eapply (mshr_assertions demo_deferred 2 0); [exact demo_deferred_reach|reflexivity..].
Defined.
