(* ===== verification/MshrQueue.v ===== *)
(** The queue of miss status holding registers,
    [src/m5/src/mem/cache/mshr_queue.hh] and [mshr_queue.cc].

    The registers of the queue are entries of the MSHR heap; the three lists hold
    their indices.  Erasing through an iterator ([allocIter], [readyIter]) removes
    the register from the list and is undefined ([None]) when it is not there. *)

From S2P Require Import Prelude Packet Mshr.

Record MSHRQueue := mkQueue {
  registers : list nat;
  allocatedList : list nat;
  readyList : list nat;
  freeList : list nat;
  numEntries : Z;
  numReserve : Z;
  allocated : Z;
  inServiceEntries : Z
}.

(** [MSHRQueue::MSHRQueue] over the registers [base], [base + 1], ... *)
Definition MSHRQueue_new (base : nat) (num_entries reserve : Z) : MSHRQueue :=
  let n := num_entries + reserve - 1 in
  let regs := seq base (Z.to_nat n) in
  mkQueue regs [] [] regs n reserve 0 0.

Definition set_q (q : MSHRQueue) (al rl fl : list nat) (na ns : Z) : MSHRQueue :=
  mkQueue (registers q) al rl fl (numEntries q) (numReserve q) na ns.

Definition findMatch (h : Heap) (q : MSHRQueue) (a : Z) : option nat :=
  snd <$> list_find (λ id, (addr <$> h !! id) = Some a) (allocatedList q).

(** The flag and the vector of [findMatches]. *)
Definition findMatches (h : Heap) (q : MSHRQueue) (a : Z) : bool * list nat :=
  let ms := filter (λ id, (addr <$> h !! id) = Some a) (allocatedList q) in
  (bool_decide (ms ≠ []), ms).

Fixpoint functional_loop (h : Heap) (p : Packet.t) (blk_addr : Z) (l : list nat)
    : option (Heap * Packet.t * bool) :=
  match l with
  | [] => Some (h, p, false)
  | id :: l =>
      m ← h !! id;
      if addr m =? blk_addr then
        '(h, p, d) ← mshr_checkFunctional h id p;
        if (d : bool) then Some (h, p, true) else functional_loop h p blk_addr l
      else functional_loop h p blk_addr l
  end.

Definition q_checkFunctional (h : Heap) (q : MSHRQueue) (p : Packet.t) (blk_addr : Z)
    : option (Heap * Packet.t * bool) :=
  functional_loop h p blk_addr (allocatedList q).

Definition overlaps (m : MSHR) (a sz : Z) : bool :=
  if addr m <? a then a <? u64 (addr m + size m) else addr m <? u64 (a + sz).

Definition findPending (h : Heap) (q : MSHRQueue) (a sz : Z) : option nat :=
  snd <$> list_find (λ id, ((λ m, overlaps m a sz) <$> h !! id) = Some true) (readyList q).

(** The loop of [addToReadyList]; running off the end is [assert(false)]. *)
Fixpoint ready_insert (h : Heap) (t : Z) (id : nat) (l : list nat) : option (list nat) :=
  match l with
  | [] => None
  | i :: l' =>
      mi ← h !! i;
      if t <? readyTime mi then Some (id :: i :: l')
      else l'' ← ready_insert h t id l'; Some (i :: l'')
  end.

Definition addToReadyList (h : Heap) (rl : list nat) (id : nat) : option (list nat) :=
  m ← h !! id;
  match last rl with
  | None => Some [id]
  | Some b =>
      mb ← h !! b;
      if readyTime mb <=? readyTime m then Some (rl ++ [id])
      else ready_insert h (readyTime m) id rl
  end.

Definition q_allocate (h : Heap) (q : MSHRQueue) (curTick a sz : Z) (p : Packet.t) (when o : Z)
    : option (Heap * MSHRQueue * nat) :=
  match freeList q with
  | [] => None
  | id :: fl =>
      m ← h !! id;
      if ntargets m =? 0 then
        h ← Mshr.allocate h id curTick a sz p when o;
        rl ← addToReadyList h (readyList q) id;
        Some (h, set_q q (allocatedList q ++ [id]) rl fl (allocated q + 1) (inServiceEntries q), id)
      else None
  end.

(** [deallocateOne], and [deallocate] which calls it. *)
Definition deallocateOne (h : Heap) (q : MSHRQueue) (id : nat) : option (Heap * MSHRQueue) :=
  al ← list_erase id (allocatedList q);
  m ← h !! id;
  '(rl, ns) ← (if inService m then Some (readyList q, inServiceEntries q - 1)
               else rl ← list_erase id (readyList q); Some (rl, inServiceEntries q));
  h ← Mshr.deallocate h id;
  Some (h, set_q q al rl (id :: freeList q) (allocated q - 1) ns).

Definition moveToFront (h : Heap) (q : MSHRQueue) (id : nat) : option MSHRQueue :=
  m ← h !! id;
  if inService m then Some q
  else rl ← list_erase id (readyList q);
       Some (set_q q (allocatedList q) (id :: rl) (freeList q) (allocated q) (inServiceEntries q)).

Definition q_markInService (h : Heap) (q : MSHRQueue) (id : nat) : option (Heap * MSHRQueue) :=
  '(h, freed) ← Mshr.markInService h id;
  if (freed : bool) then deallocateOne h q id
  else rl ← list_erase id (readyList q);
       Some (h, set_q q (allocatedList q) rl (freeList q) (allocated q) (inServiceEntries q + 1)).

Definition markPending (h : Heap) (q : MSHRQueue) (id : nat) : option (Heap * MSHRQueue) :=
  m ← h !! id;
  if inService m then
    let h := <[id := set_inService m false]> h in
    rl ← addToReadyList h (readyList q) id;
    Some (h, set_q q (allocatedList q) rl (freeList q) (allocated q) (inServiceEntries q - 1))
  else None.

(** One turn of the loop of [squash]. *)
Definition squash_one (threadNum : Z) (hq : Heap * MSHRQueue) (id : nat)
    : option (Heap * MSHRQueue) :=
  let '(h, q) := hq in
  m ← h !! id;
  if Mshr.threadNum m =? threadNum then
    if hasTargets m && negb (threadNum =? 0) then None
    else
      let m := Nat.iter (length (items (targets m))) popTarget m in
      let h := <[id := m]> h in
      if negb (ntargets m =? 0) then None
      else if inService m then Some (h, q) else deallocateOne h q id
  else Some (h, q).

Definition squash (h : Heap) (q : MSHRQueue) (threadNum : Z) : option (Heap * MSHRQueue) :=
  foldl (λ o id, hq ← o; squash_one threadNum hq id) (Some (h, q)) (allocatedList q).

Definition havePending (q : MSHRQueue) : bool := bool_decide (readyList q ≠ []).
Definition isFull (q : MSHRQueue) : bool := numEntries q - numReserve q <? allocated q.

Definition getNextMSHR (h : Heap) (q : MSHRQueue) (curTick : Z) : option nat :=
  id ← head (readyList q);
  m ← h !! id;
  if curTick <? readyTime m then None else Some id.

Definition nextMSHRReadyTime (h : Heap) (q : MSHRQueue) : Z :=
  match readyList q with
  | [] => MaxTick
  | id :: _ => default 0 (readyTime <$> h !! id)
  end.

(** ** The invariant *)

(** What the queue looks at in a register. *)
Definition view (h : Heap) (id : nat) : option (bool * Z) :=
  (λ m, (inService m, readyTime m)) <$> h !! id.
Definition in_service (h : Heap) (id : nat) : bool := default false (fst <$> view h id).
Definition ready_at (h : Heap) (id : nat) : Z := default 0 (snd <$> view h id).
Definition ready_le (h : Heap) (i j : nat) : Prop := ready_at h i <= ready_at h j.

Definition free_reg (m : MSHR) : Prop :=
  items (targets m) = [] ∧ items (deferredTargets m) = [] ∧ isReset (targets m) = true.

Record queue_ok (cnt : Z) (h : Heap) (q : MSHRQueue) : Prop := {
  qok_heap : heap_ok cnt h;
  qok_nodup : NoDup (registers q);
  qok_regs : allocatedList q ++ freeList q ≡ₚ registers q;
  qok_dom : ∀ id, id ∈ registers q → is_Some (h !! id);
  qok_entries : numEntries q = Z.of_nat (length (registers q));
  qok_allocated : allocated q = Z.of_nat (length (allocatedList q));
  qok_service : inServiceEntries q =
    Z.of_nat (length (filter (λ id, in_service h id = true) (allocatedList q)));
  qok_ready : readyList q ≡ₚ filter (λ id, in_service h id = false) (allocatedList q);
  qok_sorted : StronglySorted (ready_le h) (readyList q);
  qok_free : ∀ id, id ∈ freeList q → ∃ m, h !! id = Some m ∧ free_reg m
}.

Section QueueLemmas.

Lemma view_Some h id m : h !! id = Some m → view h id = Some (inService m, readyTime m).
Proof. unfold view. by intros ->. Qed.

Lemma in_service_Some h id m : h !! id = Some m → in_service h id = inService m.
Proof. unfold in_service, view. by intros ->. Qed.

Lemma ready_at_Some h id m : h !! id = Some m → ready_at h id = readyTime m.
Proof. unfold ready_at, view. by intros ->. Qed.

Lemma erase_view h h' id : erase_dp h' id = erase_dp h id → view h' id = view h id.
Proof.
  unfold erase_dp, view. destruct (h' !! id) as [m'|], (h !! id) as [m|]; try done.
  intros E%(inj Some). cbn. do 2 f_equal.
  - by apply (f_equal inService) in E.
  - by apply (f_equal readyTime) in E.
Qed.

Lemma filter_service h h' b (l : list nat) :
  (∀ id, id ∈ l → in_service h' id = in_service h id) →
  filter (λ id, in_service h' id = b) l = filter (λ id, in_service h id = b) l.
Proof.
  induction l as [|x l IH]; intros Hl; [done|]. rewrite !filter_cons, (Hl x) by by left.
  rewrite IH; [done|]. intros id Hid. apply Hl. by right.
Qed.

Lemma sorted_ready h h' (l : list nat) :
  (∀ id, id ∈ l → ready_at h' id = ready_at h id) →
  StronglySorted (ready_le h) l → StronglySorted (ready_le h') l.
Proof.
  induction l as [|x l IH]; intros Hl Hs; [constructor|].
  apply StronglySorted_inv in Hs as [Hs Hx]. constructor.
  - apply IH; [|done]. intros id Hid. apply Hl. by right.
  - rewrite Forall_forall in *. intros y Hy. unfold ready_le.
    rewrite (Hl x), (Hl y); [by apply Hx|by right|by left].
Qed.

Lemma ready_insert_spec h t id (l : list nat) m :
  h !! id = Some m → readyTime m = t → (∀ i, i ∈ l → is_Some (h !! i)) →
  StronglySorted (ready_le h) l → Exists (λ i, t < ready_at h i) l →
  ∃ l', ready_insert h t id l = Some l' ∧ l' ≡ₚ id :: l ∧ StronglySorted (ready_le h) l'.
Proof.
  intros Hm Ht. induction l as [|i l IH]; intros Hdom Hs Hex; [by apply Exists_nil in Hex|].
  cbn. destruct (Hdom i) as [mi Hi]; [by left|]. rewrite Hi. cbn [mbind option_bind].
  pose proof (ready_at_Some h i mi Hi) as Ri. pose proof (ready_at_Some h id m Hm) as Rid.
  pose proof Hs as [Hs1 Hi1]%StronglySorted_inv.
  destruct (Z.ltb_spec t (readyTime mi)).
  - eexists. split; [done|]. split; [done|]. constructor; [done|]. constructor.
    + unfold ready_le. lia.
    + eapply Forall_impl; [exact Hi1|]. unfold ready_le. intros y. cbn. lia.
  - apply Exists_cons in Hex as [|Hex]; [lia|].
    destruct IH as (l' & -> & Hp & Hs'); [intros j Hj; apply Hdom; by right|done|done|].
    eexists. split; [done|]. split; [rewrite Hp; apply Permutation_swap|].
    constructor; [done|]. rewrite Hp. constructor; [unfold ready_le; lia|done].
Qed.

Lemma addToReadyList_spec h (rl : list nat) id m :
  h !! id = Some m → (∀ i, i ∈ rl → is_Some (h !! i)) → StronglySorted (ready_le h) rl →
  ∃ rl', addToReadyList h rl id = Some rl' ∧ rl' ≡ₚ id :: rl ∧ StronglySorted (ready_le h) rl'.
Proof.
  intros Hm Hdom Hs. unfold addToReadyList. rewrite Hm. cbn [mbind option_bind].
  destruct (last rl) as [b|] eqn:Hl.
  - assert (b ∈ rl) as Hb by (eapply last_Some_elem_of; eauto).
    destruct (Hdom b Hb) as [mb Hmb]. rewrite Hmb. cbn [mbind option_bind].
    pose proof (ready_at_Some h b mb Hmb) as Rb. pose proof (ready_at_Some h id m Hm) as Rid.
    destruct (Z.leb_spec (readyTime mb) (readyTime m)).
    + eexists. split; [done|]. split; [by rewrite Permutation_app_comm|].
      apply last_Some in Hl as [l0 ->]. clear Hdom Hb.
      induction l0 as [|x l0 IH]; cbn [app] in *.
      * repeat constructor. unfold ready_le. lia.
      * apply StronglySorted_inv in Hs as [Hs Hx]. constructor; [by apply IH|].
        apply Forall_app. split; [done|]. constructor; [|constructor].
        apply Forall_app in Hx as [_ Hx]. apply Forall_cons in Hx as [Hx _].
        unfold ready_le in *. lia.
    + eapply ready_insert_spec; try done. apply Exists_exists. exists b. split; [done|lia].
  - apply last_None in Hl as ->. exists [id]. repeat constructor.
Qed.

Lemma free_transfer h h' id m :
  erase_dp h' id = erase_dp h id → h !! id = Some m → free_reg m →
  ∃ m', h' !! id = Some m' ∧ free_reg m'.
Proof.
  intros He Hm Hf. unfold erase_dp in He. rewrite Hm in He.
  destruct (h' !! id) as [m'|]; [|done]. apply (inj Some) in He. exists m'. split; [done|].
  pose proof (f_equal targets He) as E1. pose proof (f_equal deferredTargets He) as E2.
  cbn in E1, E2. unfold free_reg. by rewrite E1, E2.
Qed.

Context {cnt : Z} {h : Heap} {q : MSHRQueue} (Hq : queue_ok cnt h q).

Lemma alloc_reg id : id ∈ allocatedList q → id ∈ registers q.
Proof. intros. rewrite <- (qok_regs _ _ _ Hq). apply elem_of_app. by left. Qed.

Lemma free_in_reg id : id ∈ freeList q → id ∈ registers q.
Proof. intros. rewrite <- (qok_regs _ _ _ Hq). apply elem_of_app. by right. Qed.

Lemma alloc_nodup : NoDup (allocatedList q ++ freeList q).
Proof. rewrite (qok_regs _ _ _ Hq). apply Hq. Qed.

Lemma alloc_not_free id : id ∈ allocatedList q → id ∉ freeList q.
Proof. pose proof alloc_nodup as (_ & Hd & _)%NoDup_app. auto. Qed.

Lemma ready_alloc id : id ∈ readyList q → id ∈ allocatedList q ∧ in_service h id = false.
Proof. rewrite (qok_ready _ _ _ Hq). by intros []%list_elem_of_filter. Qed.

(** The rest of the allocated registers. *)
Lemma alloc_split id :
  id ∈ allocatedList q → ∃ al, allocatedList q ≡ₚ id :: al ∧ id ∉ al.
Proof.
  intros Hid. destruct (list_erase_Some id _ Hid) as [al Hal].
  exists al. apply list_erase_perm in Hal. split; [done|].
  pose proof alloc_nodup as (Hn & _ & _)%NoDup_app. rewrite Hal in Hn.
  by apply NoDup_cons in Hn as [? _].
Qed.

(** A change of the heap the queue does not see. *)
Lemma queue_ok_frame cnt' h' :
  heap_ok cnt' h' →
  (∀ id, id ∈ registers q → is_Some (h' !! id)) →
  (∀ id, id ∈ allocatedList q → in_service h' id = in_service h id) →
  (∀ id, id ∈ readyList q → ready_at h' id = ready_at h id) →
  (∀ id, id ∈ freeList q → erase_dp h' id = erase_dp h id) →
  queue_ok cnt' h' q.
Proof.
  intros Hh Hd Hi Hr Hf. destruct Hq as [_ Hn Hp _ He Ha Hsv Hrd Hs Hfr]. constructor; try done.
  - by rewrite (filter_service h h').
  - by rewrite (filter_service h h').
  - by eapply sorted_ready.
  - intros id Hid. destruct (Hfr id Hid) as (m & Hm & Hfm).
    eapply free_transfer; [by apply Hf|done..].
Qed.

(** A change of one allocated register the queue does not see. *)
Definition touches (h h' : Heap) (id : nat) : Prop :=
  (∀ j, j ≠ id → erase_dp h' j = erase_dp h j) ∧ view h' id = view h id.

Lemma view_dom h1 h2 id : view h2 id = view h1 id → is_Some (h1 !! id) → is_Some (h2 !! id).
Proof.
  unfold view. intros E [m Hm]. rewrite Hm in E.
  destruct (h2 !! id); [by eexists|done].
Qed.

Lemma touches_view h' id j : touches h h' id → view h' j = view h j.
Proof.
  intros [He Hv]. destruct (decide (j = id)) as [->|]; [done|]. by apply erase_view, He.
Qed.

Lemma queue_ok_touch cnt' h' id :
  id ∈ allocatedList q → touches h h' id → heap_ok cnt' h' → queue_ok cnt' h' q.
Proof.
  intros Hid Ht Hh. pose proof (λ j, touches_view h' id j Ht) as Hv.
  apply queue_ok_frame; [done| | | |].
  - intros j Hj. eapply view_dom; [apply Hv|]. by apply (qok_dom _ _ _ Hq).
  - intros j _. unfold in_service. by rewrite Hv.
  - intros j _. unfold ready_at. by rewrite Hv.
  - intros j Hj. apply Ht. intros ->. by apply (alloc_not_free id).
Qed.

End QueueLemmas.

Section Touches.

Lemma erase_touches h h' id : (∀ j, erase_dp h' j = erase_dp h j) → touches h h' id.
Proof. intros He. split; [auto|]. by apply erase_view. Qed.

Lemma insert_touches h h' id m m' :
  touches h h' id → h !! id = Some m →
  inService m' = inService m → readyTime m' = readyTime m → touches h (<[id := m']> h') id.
Proof.
  intros [He _] Hm Hi Hr. split.
  - intros j Hj. unfold erase_dp in *. rewrite lookup_insert_ne by done. by apply He.
  - unfold view. rewrite lookup_insert_eq, Hm. cbn. by rewrite Hi, Hr.
Qed.

Lemma touches_refl h id : touches h h id.
Proof. by split. Qed.

(** The register found again after a change of flags. *)
Lemma relookup h h1 id m :
  (∀ j, erase_dp h1 j = erase_dp h j) → h !! id = Some m →
  ∃ m1, h1 !! id = Some m1 ∧ inService m1 = inService m ∧ readyTime m1 = readyTime m.
Proof.
  intros He Hm. destruct (erase_lookup h h1 id m He Hm) as [b Hb]. eexists. by split.
Qed.

Lemma allocateTarget_touches h id ct p rt o h' :
  allocateTarget h id ct p rt o = Some h' → touches h h' id.
Proof.
  unfold allocateTarget. destruct (decide _); [done|].
  destruct (h !! id) as [m|] eqn:Hm; [|done]. cbn [mbind option_bind].
  destruct (must_defer m p);
    destruct (tl_add _ _ _ _ _ _ _ _) as [[h1 tl]|] eqn:Ea; try done; cbn [mbind option_bind];
    apply tl_add_spec in Ea as [_ He]; destruct (relookup h h1 id m He Hm) as (m1 & -> & Hi & Hr);
    cbn [mbind option_bind]; intros [= <-]; (eapply insert_touches; [by apply erase_touches|done..]).
Qed.

Lemma handleSnoop_touches h id ct p o h' p' b :
  handleSnoop h id ct p o = Some (h', p', b) → touches h h' id.
Proof.
  unfold handleSnoop. destruct (h !! id) as [m|] eqn:Hm; [|done]. cbn [mbind option_bind].
  destruct (_ || _).
  { intros [= <- _ _]. eapply insert_touches; [apply touches_refl|done|..];
      by destruct (Packet.needsExclusive p). }
  set (m1 := if Packet.needsExclusive p then set_lists _ _ _ _ else m).
  assert (inService m1 = inService m ∧ readyTime m1 = readyTime m) as [Hi Hr]
    by (unfold m1; by destruct (Packet.needsExclusive p)).
  clearbody m1.
  assert (touches h (<[id := m1]> h) id) as Ht
    by (eapply insert_touches; [apply touches_refl|done..]).
  destruct (pendingInvalidate m1); [by intros [= <- _ _]|].
  destruct (_ || _).
  - destruct (tl_add _ _ _ _ _ _ _ _) as [[h1 tl]|] eqn:Ea; [|done]. cbn [mbind option_bind].
    apply tl_add_spec in Ea as [_ He].
    destruct (relookup _ h1 id m1 He (lookup_insert_eq _ _ _)) as (m2 & -> & Hi2 & Hr2).
    cbn [mbind option_bind]. intros [= <- _ _].
    eapply insert_touches; [|exact Hm|..].
    + destruct Ht as [Ht1 Ht2]. split; [intros j Hj; by rewrite He, Ht1|].
      rewrite <- Ht2. by apply erase_view.
    + destruct (Packet.needsExclusive p); cbn; congruence.
    + destruct (Packet.needsExclusive p); cbn; congruence.
  - intros [= <- _ _]. eapply insert_touches; [apply touches_refl|done|done|done].
Qed.

Lemma handleFill_touches h id p h' p' : handleFill h id p = Some (h', p') → touches h h' id.
Proof.
  unfold handleFill. destruct (h !! id) as [m|] eqn:Hm; [|done]. cbn [mbind option_bind].
  destruct (_ && _); [|intros [= <- _]; apply touches_refl].
  destruct (_ || _); [done|].
  destruct (tl_clearDownstreamPending _ _) as [h1|] eqn:Ec; [|done]. cbn [mbind option_bind].
  assert (∀ j, erase_dp h1 j = erase_dp h j) as He by (intros; by eapply tl_clear_spec).
  destruct (relookup h h1 id m He Hm) as (m1 & -> & Hi & Hr). cbn [mbind option_bind].
  intros [= <- _]. eapply insert_touches; [by apply erase_touches|done..].
Qed.

Lemma popTarget_touches h id m : h !! id = Some m → touches h (<[id := popTarget m]> h) id.
Proof. intros Hm. eapply insert_touches; [apply touches_refl|done..]. Qed.

Lemma mshr_functional_touches h id p h' p' b :
  mshr_checkFunctional h id p = Some (h', p', b) → touches h h' id.
Proof.
  unfold mshr_checkFunctional. destruct (h !! id) as [m|] eqn:Hm; [|done].
  cbn [mbind option_bind]. destruct (Packet.isPrint p); [intros [= <- _ _]; apply touches_refl|].
  destruct (tl_checkFunctional p _) as [[[d1 p1] ts1]|]; [|done]. cbn [mbind option_bind].
  destruct d1; [intros [= <- _ _]; eapply insert_touches; [apply touches_refl|done..]|].
  destruct (tl_checkFunctional p1 _) as [[[d2 p2] ds2]|]; [|done]. cbn [mbind option_bind].
  intros [= <- _ _]. eapply insert_touches; [apply touches_refl|done..].
Qed.

End Touches.

(** ** Every operation keeps the invariant *)

Section QueueOps.

(** A fresh allocation only touches the flags of other registers. *)
Lemma allocate_frame h id ct a sz p rt o h' :
  Mshr.allocate h id ct a sz p rt o = Some h' →
  view h' id = Some (false, rt) ∧ ∀ j, j ≠ id → erase_dp h' j = erase_dp h j.
Proof.
  unfold Mshr.allocate. destruct (h !! id) as [m|] eqn:Hm; [|done]. cbn [mbind option_bind].
  destruct (isReset (targets m)); [|done].
  destruct (tl_add _ _ _ _ _ _ _ _) as [[h1 tl]|] eqn:Ea; [|done]. cbn [mbind option_bind].
  apply tl_add_spec in Ea as [_ He].
  destruct (relookup _ h1 id _ He (lookup_insert_eq _ _ _)) as (m1 & -> & Hi & Hr).
  cbn [mbind option_bind]. destruct (isReset _); [|done]. intros [= <-]. split.
  - unfold view. rewrite lookup_insert_eq. cbn. by rewrite Hi, Hr.
  - intros j Hj. unfold erase_dp in *. rewrite lookup_insert_ne, He, lookup_insert_ne by done.
    done.
Qed.

Lemma q_allocate_ok cnt h q ct a sz p rt h' q' id :
  queue_ok cnt h q → q_allocate h q ct a sz p rt cnt = Some (h', q', id) →
  queue_ok (cnt + 1) h' q'.
Proof.
  intros Hq E. unfold q_allocate in E. destruct (freeList q) as [|i fl] eqn:Hfl; [done|].
  destruct (qok_free _ _ _ Hq i) as (m & Hm & Ht & Hd & Hrs); [rewrite Hfl; by left|].
  rewrite Hm in E. cbn [mbind option_bind] in E. destruct (_ =? _); [|done].
  destruct (Mshr.allocate _ _ _ _ _ _ _ _) as [h1|] eqn:Ea; [|done]. cbn [mbind option_bind] in E.
  destruct (allocate_frame _ _ _ _ _ _ _ _ _ Ea) as [Hv He].
  pose proof (allocate_ok h cnt i m ct a sz p rt h1 (qok_heap _ _ _ Hq) Hm Ht Hd Ea) as Hh1.
  assert (NoDup (allocatedList q ++ i :: fl)) as Hnd
    by (rewrite <- Hfl; by eapply alloc_nodup).
  assert (i ∉ allocatedList q ∧ i ∉ fl) as [Hia Hif].
  { apply NoDup_app in Hnd as (_ & Hx & Hy). apply NoDup_cons in Hy as [? _].
    split; [|done]. intros Hi. apply (Hx i Hi). by left. }
  assert (∀ j, j ≠ i → view h1 j = view h j) as Hvj by (intros; by apply erase_view, He).
  assert (∀ j, j ∈ allocatedList q → view h1 j = view h j) as Hva
    by (intros j Hj; apply Hvj; by intros ->).
  assert (∀ j, j ∈ registers q → is_Some (h1 !! j)) as Hdom.
  { intros j Hj. destruct (decide (j = i)) as [->|].
    - unfold view in Hv. by destruct (h1 !! i).
    - eapply view_dom; [by apply Hvj|]. by apply (qok_dom _ _ _ Hq). }
  assert (∀ j, j ∈ readyList q → j ∈ allocatedList q) as Hra
    by (intros j Hj; by apply (ready_alloc Hq) in Hj as [? _]).
  destruct (Hdom i) as [mi Hmi]; [apply (free_in_reg Hq); rewrite Hfl; by left|].
  destruct (addToReadyList_spec h1 (readyList q) i mi Hmi) as (rl & Hrl & Hp & Hs).
  { intros j Hj. by apply Hdom, (alloc_reg Hq), Hra. }
  { eapply sorted_ready; [|apply Hq]. intros j Hj. unfold ready_at. by rewrite Hva by auto. }
  rewrite Hrl in E. cbn [mbind option_bind] in E. injection E as <- <- <-.
  assert (in_service h1 i = false) as Hsi by (unfold in_service; by rewrite Hv).
  pose proof (λ b, filter_service h h1 b (allocatedList q)
    (λ j Hj, f_equal (λ v, default false (fst <$> v)) (Hva j Hj))) as Hfs.
  destruct Hq as [_ Hn Hpr Hdm Hen Hal Hsv Hrd Hso Hfr]. constructor; cbn; try done.
  - rewrite <- Hpr, Hfl, <- app_assoc. done.
  - rewrite length_app. cbn. lia.
  - rewrite filter_app, filter_cons_False, app_nil_r, Hfs by (rewrite ?Hsi; done). done.
  - rewrite filter_app, Hfs, filter_cons_True by done.
    rewrite Hp, Hrd, Permutation_app_comm. done.
  - intros j Hj. destruct (Hfr j) as (mj & Hmj & Hfj); [rewrite Hfl; by right|].
    eapply free_transfer; [apply He; by intros ->|done..].
Qed.

(** Registers other than [id] seen through a change at [id] only. *)
Lemma erase_other h h' id (b : bool) (l : list nat) :
  (∀ j, j ≠ id → view h' j = view h j) → id ∉ l →
  filter (λ j, in_service h' j = b) l = filter (λ j, in_service h j = b) l.
Proof.
  intros Hv Hid. apply filter_service. intros j Hj. unfold in_service.
  rewrite Hv; [done|]. by intros ->.
Qed.

(** The ready list and the count once a register has left the allocated list. *)
Lemma leave_lists cnt h q id m al rl ns :
  queue_ok cnt h q → h !! id = Some m → allocatedList q ≡ₚ id :: al →
  (if inService m then Some (readyList q, inServiceEntries q - 1)
   else rl ← list_erase id (readyList q); Some (rl, inServiceEntries q)) = Some (rl, ns) →
  rl ≡ₚ filter (λ j, in_service h j = false) al ∧
  ns = Z.of_nat (length (filter (λ j, in_service h j = true) al)) ∧
  StronglySorted (ready_le h) rl ∧ (id ∉ al → id ∉ rl).
Proof.
  intros [_ _ _ _ _ _ Hsv Hrd Hso _] Hm Hal Er. rewrite Hal in Hsv, Hrd.
  pose proof (in_service_Some h id m Hm) as Hsm. destruct (inService m) eqn:Hi.
  - injection Er as <- <-. rewrite filter_cons_False in Hrd by (by rewrite Hsm).
    rewrite filter_cons_True in Hsv by done. cbn in Hsv. split_and!; [done|lia|done|].
    intros Hna. rewrite Hrd. by intros [_ ?]%list_elem_of_filter.
  - destruct (list_erase id (readyList q)) as [r|] eqn:He; [|done]. injection Er as <- <-.
    pose proof (list_erase_perm _ _ _ He) as Hp.
    rewrite filter_cons_True in Hrd by done.
    rewrite filter_cons_False in Hsv by (by rewrite Hsm).
    assert (r ≡ₚ filter (λ j, in_service h j = false) al) as Hr
      by (apply (Permutation_cons_inv (a := id)); by rewrite <- Hp, <- Hrd).
    split_and!; [done|done|by eapply list_erase_sorted|].
    intros Hna. rewrite Hr. by intros [_ ?]%list_elem_of_filter.
Qed.

Lemma deallocateOne_ok cnt h q id h' q' :
  queue_ok cnt h q → deallocateOne h q id = Some (h', q') → queue_ok cnt h' q'.
Proof.
  intros Hq E. unfold deallocateOne in E.
  destruct (list_erase id (allocatedList q)) as [al|] eqn:Hal; [|done].
  cbn [mbind option_bind] in E. destruct (h !! id) as [m|] eqn:Hm; [|done].
  cbn [mbind option_bind] in E. apply list_erase_perm in Hal.
  match type of E with ?o ≫= _ = _ => destruct o as [[rl ns]|] eqn:Er; [|done] end.
  cbn [mbind option_bind] in E.
  destruct (Mshr.deallocate h id) as [h1|] eqn:Ed; [|done]. injection E as <- <-.
  pose proof (deallocate_ok h cnt id h1 (qok_heap _ _ _ Hq) Ed) as Hh1.
  unfold Mshr.deallocate in Ed. rewrite Hm in Ed. cbn [mbind option_bind] in Ed.
  destruct (_ && _) eqn:Hg; [|done]. injection Ed as Eh1.
  apply andb_true_iff in Hg as [[Ht Hrs]%andb_true_iff Hn0%Z.eqb_eq].
  apply bool_decide_eq_true in Ht.
  assert (items (deferredTargets m) = []) as Hd.
  { destruct (qok_heap _ _ _ Hq id m Hm) as [[Hc _] _ _ _ _ _ _ _ _].
    apply length_zero_iff_nil. unfold num_targets in Hc. rewrite Ht in Hc. cbn in Hc. lia. }
  assert (∀ j, j ≠ id → view h1 j = view h j) as Hv
    by (intros j Hj; unfold view; by rewrite <- Eh1, lookup_insert_ne).
  assert (id ∈ allocatedList q) as Hia by (rewrite Hal; by left).
  destruct (alloc_split Hq id Hia) as (al' & Hal' & Hnia).
  assert (al ≡ₚ al') as Haa by (apply (Permutation_cons_inv (a := id)); by rewrite <- Hal, <- Hal').
  assert (id ∉ al) as Hnal by (by rewrite Haa).
  destruct (leave_lists cnt h q id m al rl ns Hq Hm Hal Er) as (Hrl & Hns & Hsl & Hnrl).
  destruct Hq as [_ Hn Hpr Hdm Hen Hac _ _ _ Hfr]. rewrite Hal in Hac.
  constructor; cbn; try done.
  - rewrite <- Hpr, Hal. cbn. symmetry. apply Permutation_middle.
  - intros j Hj. rewrite <- Eh1. destruct (decide (j = id)) as [->|].
    + rewrite lookup_insert_eq. done.
    + rewrite lookup_insert_ne by done. by apply Hdm.
  - cbn in Hac. lia.
  - by rewrite (erase_other h h1 id) by done.
  - by rewrite (erase_other h h1 id) by done.
  - eapply sorted_ready; [|done]. intros j Hj. unfold ready_at. rewrite Hv; [done|].
    intros ->. by apply Hnrl.
  - intros j Hj. destruct (decide (j = id)) as [->|Hne].
    + eexists. rewrite <- Eh1, lookup_insert_eq. split; [done|]. by unfold free_reg.
    + apply elem_of_cons in Hj as [?|Hj]; [done|]. destruct (Hfr j Hj) as (mj & Hmj & Hfj).
      exists mj. by rewrite <- Eh1, lookup_insert_ne.
Qed.

Lemma markInService_frame h id h1 b :
  Mshr.markInService h id = Some (h1, b) →
  ∃ m, h !! id = Some m ∧ inService m = false ∧
    if b then touches h h1 id
    else view h1 id = Some (true, readyTime m) ∧ ∀ j, j ≠ id → erase_dp h1 j = erase_dp h j.
Proof.
  unfold Mshr.markInService. destruct (h !! id) as [m|] eqn:Hm; [|done].
  cbn [mbind option_bind]. destruct (inService m) eqn:Hi; [done|].
  destruct (isForwardNoResponse m) as [[]|] eqn:Hf; [| |done]; cbn [mbind option_bind];
    intros E; exists m; (split; [done|split; [done|]]).
  { injection E as <- <-. by apply popTarget_touches. }
  set (h0 := <[id := set_inService m true]> h) in *.
  assert (b = false ∧ ∀ j, erase_dp h1 j = erase_dp h0 j) as [-> He].
  { destruct (downstreamPending m); [by injection E as <- <-|].
    destruct (tl_clearDownstreamPending _ _) as [h2|] eqn:Ec; [|done]. injection E as <- <-.
    split; [done|]. intros j. by eapply tl_clear_spec. }
  split.
  - rewrite (erase_view h0 h1 id) by done. unfold view, h0. by rewrite lookup_insert_eq.
  - intros j Hj. rewrite He. unfold erase_dp, h0. by rewrite lookup_insert_ne.
Qed.

(** What a change at one allocated register leaves of the invariant. *)
Lemma frame_others cnt h q h' id :
  queue_ok cnt h q → id ∈ allocatedList q → is_Some (h' !! id) →
  (∀ j, j ≠ id → erase_dp h' j = erase_dp h j) →
  (∀ j, j ∈ registers q → is_Some (h' !! j)) ∧
  (∀ j, j ∈ freeList q → ∃ m, h' !! j = Some m ∧ free_reg m).
Proof.
  intros Hq Hia Hsm He. split.
  - intros j Hj. destruct (decide (j = id)) as [->|]; [done|].
    eapply view_dom; [by apply erase_view, He|]. by apply (qok_dom _ _ _ Hq).
  - intros j Hj. destruct (qok_free _ _ _ Hq j Hj) as (mj & Hmj & Hfj).
    eapply free_transfer; [apply He|done..].
    intros ->. by apply (alloc_not_free Hq id).
Qed.

Lemma q_markInService_ok cnt h q id h' q' :
  queue_ok cnt h q → id ∈ allocatedList q →
  q_markInService h q id = Some (h', q') → queue_ok cnt h' q'.
Proof.
  intros Hq Hia E. unfold q_markInService in E.
  destruct (Mshr.markInService h id) as [[h1 b]|] eqn:Em; [|done]. cbn [mbind option_bind] in E.
  pose proof (markInService_ok h cnt id h1 b (qok_heap _ _ _ Hq) Em) as Hh1.
  destruct (markInService_frame _ _ _ _ Em) as (m & Hm & Hi & Hb).
  destruct b; [eapply deallocateOne_ok; [|exact E]; by eapply (queue_ok_touch Hq)|].
  destruct Hb as [Hvi He].
  assert (∀ j, j ≠ id → view h1 j = view h j) as Hv by (intros; by apply erase_view, He).
  destruct (list_erase id (readyList q)) as [rl|] eqn:Hrl; [|done]. injection E as <- <-.
  destruct (alloc_split Hq id Hia) as (al & Hal & Hna).
  destruct (leave_lists cnt h q id m al rl (inServiceEntries q) Hq Hm Hal) as (Hr & Hns & Hsl & Hnr);
    [by rewrite Hi, Hrl|].
  assert (in_service h1 id = true) as Hs1 by (unfold in_service; by rewrite Hvi).
  destruct (frame_others cnt h q h1 id Hq Hia) as [Hd1 Hf1]; [|done|].
  { unfold view in Hvi. by destruct (h1 !! id). }
  destruct Hq as [_ Hn Hpr Hdm Hen Hac _ _ _ Hfr]. constructor; cbn; try done.
  - rewrite Hal, filter_cons_True by done. cbn. rewrite (erase_other h h1 id) by done. lia.
  - rewrite Hal, filter_cons_False by (by rewrite Hs1). by rewrite (erase_other h h1 id).
  - eapply sorted_ready; [|done]. intros j Hj. unfold ready_at. rewrite Hv; [done|].
    intros ->. by apply Hnr.
Qed.

(** Deferred targets promoted and the register queued again. *)
Lemma retry_queue_ok cnt h q id ct h1 h' q' :
  queue_ok cnt h q → id ∈ allocatedList q →
  promoteDeferredTargets h id ct = Some (h1, true) → markPending h1 q id = Some (h', q') →
  queue_ok cnt h' q'.
Proof.
  intros Hq Hia Ep E. unfold markPending in E.
  destruct (h1 !! id) as [m1|] eqn:Hm1; [|done]. cbn [mbind option_bind] in E.
  destruct (inService m1) eqn:Hi1; [|done].
  pose proof (retry_ok h cnt id ct h1 m1 (qok_heap _ _ _ Hq) Ep Hm1) as Hh2.
  set (h2 := <[id := set_inService m1 false]> h1) in *.
  assert (∃ m, h !! id = Some m ∧ inService m = true ∧
            ∀ j, j ≠ id → erase_dp h2 j = erase_dp h j) as (m & Hm & Hi & He).
  { unfold promoteDeferredTargets in Ep. destruct (h !! id) as [m|] eqn:Hm; [|done].
    cbn [mbind option_bind] in Ep. destruct (bool_decide _); [|done].
    destruct (items (deferredTargets m)); [done|]. destruct (_ =? _); [|done].
    injection Ep as <-. rewrite lookup_insert_eq in Hm1. injection Hm1 as <-.
    exists m. split; [done|]. split; [done|]. intros j Hj. unfold erase_dp, h2.
    by rewrite !lookup_insert_ne. }
  assert (∀ j, j ≠ id → view h2 j = view h j) as Hv by (intros; by apply erase_view, He).
  destruct (frame_others cnt h q h2 id Hq Hia) as [Hd1 Hf1]; [|done|];
    [unfold h2; by rewrite lookup_insert_eq|].
  assert (∀ j, j ∈ readyList q → j ≠ id ∧ j ∈ registers q) as Hnr.
  { intros j [Hj Hs]%(ready_alloc Hq). split; [|by apply (alloc_reg Hq)].
    intros ->. by rewrite (in_service_Some h id m Hm), Hi in Hs. }
  destruct (addToReadyList_spec h2 (readyList q) id (set_inService m1 false))
    as (rl & Hrl & Hp & Hs).
  { unfold h2. by rewrite lookup_insert_eq. }
  { intros j Hj. by apply Hd1, Hnr. }
  { eapply sorted_ready; [|apply Hq]. intros j Hj. unfold ready_at. by rewrite Hv by by apply Hnr. }
  rewrite Hrl in E. injection E as <- <-.
  destruct (alloc_split Hq id Hia) as (al & Hal & Hna).
  assert (in_service h2 id = false) as Hs2
    by (unfold in_service, view, h2; by rewrite lookup_insert_eq).
  destruct (leave_lists cnt h q id m al (readyList q) (inServiceEntries q - 1) Hq Hm Hal)
    as (Hr & Hns & _ & _); [by rewrite Hi|].
  destruct Hq as [_ Hn Hpr Hdm Hen Hac _ _ _ Hfr]. constructor; cbn; try done.
  - rewrite Hal, filter_cons_False by (by rewrite Hs2). by rewrite (erase_other h h2 id).
  - rewrite Hal, filter_cons_True by done. rewrite (erase_other h h2 id), Hp, Hr by done. done.
Qed.

Lemma pops_ok cnt m n :
  mshr_ok cnt m → (n ≤ length (items (targets m)))%nat →
  mshr_ok cnt (Nat.iter n popTarget m) ∧
  length (items (targets (Nat.iter n popTarget m))) = (length (items (targets m)) - n)%nat ∧
  inService (Nat.iter n popTarget m) = inService m ∧
  readyTime (Nat.iter n popTarget m) = readyTime m.
Proof.
  intros Hok. induction n as [|n IH]; intros Hn; [cbn; split_and!; [done|lia|done|done]|].
  destruct IH as (IH & Hl & Hi & Hr); [lia|].
  change (Nat.iter (S n) popTarget m) with (popTarget (Nat.iter n popTarget m)).
  set (m1 := Nat.iter n popTarget m) in *. clearbody m1.
  assert (items (targets m1) ≠ []) as Hne by (intros E; rewrite E in Hl; cbn in Hl; lia).
  split_and!; [|cbn; destruct (items (targets m1)); cbn in *; [done|lia]|done|done].
  apply popTarget_ok; [|done]. by apply bool_decide_eq_true.
Qed.

Lemma squash_one_ok cnt h q id t h' q' :
  queue_ok cnt h q → id ∈ allocatedList q → squash_one t (h, q) id = Some (h', q') →
  queue_ok cnt h' q' ∧ ∀ j, j ≠ id → j ∈ allocatedList q → j ∈ allocatedList q'.
Proof.
  intros Hq Hia E. unfold squash_one in E. destruct (h !! id) as [m|] eqn:Hm; [|done].
  cbn [mbind option_bind] in E. destruct (_ =? _); [|by injection E as <- <-].
  destruct (_ && _); [done|]. set (m1 := Nat.iter _ _ _) in E.
  destruct (negb _); [done|].
  destruct (pops_ok cnt m (length (items (targets m))) (qok_heap _ _ _ Hq id m Hm))
    as (Hok & _ & Hi & Hr); [done|]. fold m1 in Hok, Hi, Hr.
  assert (queue_ok cnt (<[id := m1]> h) q) as Hq1.
  { eapply (queue_ok_touch Hq); [done|..].
    - eapply insert_touches; [apply touches_refl|done..].
    - apply heap_ok_insert; [by apply Hq|done]. }
  destruct (inService m1); [by injection E as <- <-|].
  split; [by eapply deallocateOne_ok|]. intros j Hj Hja. unfold deallocateOne in E.
  destruct (list_erase id (allocatedList q)) as [al|] eqn:Hal; [|done].
  cbn [mbind option_bind] in E. apply list_erase_perm in Hal.
  rewrite lookup_insert_eq in E. cbn [mbind option_bind] in E.
  match type of E with ?o ≫= _ = _ => destruct o as [[rl ns]|]; [|done] end.
  cbn [mbind option_bind] in E. destruct (Mshr.deallocate _ id); [|done].
  injection E as <- <-. cbn. rewrite Hal in Hja. by apply elem_of_cons in Hja as [?|?].
Qed.

Lemma squash_ok cnt h q t h' q' :
  queue_ok cnt h q → squash h q t = Some (h', q') → queue_ok cnt h' q'.
Proof.
  intros Hq. unfold squash. pose proof (alloc_nodup Hq) as (Hn & _ & _)%NoDup_app.
  assert (∀ j, j ∈ allocatedList q → j ∈ allocatedList q) as Hin by done. revert Hn Hin.
  generalize (allocatedList q) at 1 2 4 as l. intros l. revert h q Hq.
  induction l as [|id l IH]; intros h q Hq Hn Hin E; [by injection E as <- <-|].
  apply NoDup_cons in Hn as [Hid Hn]. cbn [foldl mbind option_bind] in E.
  destruct (squash_one t (h, q) id) as [[h1 q1]|] eqn:E1.
  - destruct (squash_one_ok cnt h q id t h1 q1 Hq) as [Hq1 Hk]; [apply Hin; by left|done|].
    apply (IH h1 q1 Hq1 Hn); [|exact E]. intros j Hj. apply Hk; [by intros ->|].
    apply Hin. by right.
  - exfalso. clear -E. induction l; [done|]. by apply IHl.
Qed.

End QueueOps.

(** What a cache does to one of its queues: the queue's own operations, and the
    operations of an allocated register that the queue is not told about. *)
Inductive queue_step : Heap * MSHRQueue * Z → Heap * MSHRQueue * Z → Prop :=
  | qs_allocate h q cnt ct a sz p rt h' q' id :
      q_allocate h q ct a sz p rt cnt = Some (h', q', id) →
      queue_step (h, q, cnt) (h', q', cnt + 1)
  | qs_service h q cnt id h' q' :
      id ∈ allocatedList q → q_markInService h q id = Some (h', q') →
      queue_step (h, q, cnt) (h', q', cnt)
  | qs_retry h q cnt id ct h1 h' q' :
      id ∈ allocatedList q → promoteDeferredTargets h id ct = Some (h1, true) →
      markPending h1 q id = Some (h', q') → queue_step (h, q, cnt) (h', q', cnt)
  | qs_free h q cnt id h' q' :
      deallocateOne h q id = Some (h', q') → queue_step (h, q, cnt) (h', q', cnt)
  | qs_squash h q cnt t h' q' :
      squash h q t = Some (h', q') → queue_step (h, q, cnt) (h', q', cnt)
  | qs_target h q cnt id m ct p rt h' :
      id ∈ allocatedList q → h !! id = Some m → num_targets m < 2 ^ 16 - 1 →
      allocateTarget h id ct p rt cnt = Some h' → queue_step (h, q, cnt) (h', q, cnt + 1)
  | qs_snoop h q cnt id m ct p h' p' b :
      id ∈ allocatedList q → h !! id = Some m → num_targets m < 2 ^ 16 - 1 →
      handleSnoop h id ct p cnt = Some (h', p', b) → queue_step (h, q, cnt) (h', q, cnt + 1)
  | qs_fill h q cnt id m p h' p' :
      id ∈ allocatedList q → h !! id = Some m → inService m = true →
      handleFill h id p = Some (h', p') → queue_step (h, q, cnt) (h', q, cnt)
  | qs_pop h q cnt id m :
      id ∈ allocatedList q → h !! id = Some m → hasTargets m = true →
      queue_step (h, q, cnt) (<[id := popTarget m]> h, q, cnt)
  | qs_functional h q cnt id p h' p' b :
      id ∈ allocatedList q → mshr_checkFunctional h id p = Some (h', p', b) →
      queue_step (h, q, cnt) (h', q, cnt).

Inductive queue_reach : Heap → MSHRQueue → Z → Prop :=
  | queue_init base num_entries reserve (h : Heap) :
      0 <= num_entries + reserve - 1 →
      (∀ id, id ∈ registers (MSHRQueue_new base num_entries reserve) → h !! id = Some MSHR_new) →
      (∀ id m, h !! id = Some m → m = MSHR_new) →
      queue_reach h (MSHRQueue_new base num_entries reserve) 0
  | queue_more h q cnt h' q' cnt' :
      queue_reach h q cnt → queue_step (h, q, cnt) (h', q', cnt') → queue_reach h' q' cnt'.

Section QueueReach.

Lemma queue_step_ok h q cnt h' q' cnt' :
  queue_ok cnt h q → queue_step (h, q, cnt) (h', q', cnt') → queue_ok cnt' h' q'.
Proof.
  intros Hq Hs. pose proof (qok_heap _ _ _ Hq) as Hh. inversion Hs; subst.
  - by eapply q_allocate_ok.
  - by eapply q_markInService_ok.
  - by eapply retry_queue_ok.
  - by eapply deallocateOne_ok.
  - by eapply squash_ok.
  - eapply (queue_ok_touch Hq); [done|by eapply allocateTarget_touches|by eapply allocateTarget_ok].
  - eapply (queue_ok_touch Hq); [done|by eapply handleSnoop_touches|by eapply handleSnoop_ok].
  - eapply (queue_ok_touch Hq); [done|by eapply handleFill_touches|by eapply handleFill_ok].
  - eapply (queue_ok_touch Hq); [done|by apply popTarget_touches|].
    eapply heap_ok_insert, popTarget_ok; [done..|]. by eapply Hh.
  - eapply (queue_ok_touch Hq);
      [done|by eapply mshr_functional_touches|by eapply mshr_functional_ok].
Qed.

Lemma queue_reach_ok h q cnt : queue_reach h q cnt → queue_ok cnt h q.
Proof.
  induction 1 as [base n r h Hn Hr Hnew|h q cnt h' q' cnt' _ IH Hs]; [|by eapply queue_step_ok].
  constructor; cbn in *; try done.
  - intros j m Hm. rewrite (Hnew j m Hm). apply mshr_new_ok.
  - apply NoDup_seq.
  - intros id Hid. rewrite Hr by done. by eexists.
  - rewrite length_seq. lia.
  - constructor.
  - intros id Hid. exists MSHR_new. by rewrite Hr.
Qed.

End QueueReach.

(** C13. In every reachable state the allocated and the free list partition the
    registers of the queue, the counters count the allocated and the in-service
    registers, the ready list holds exactly the allocated registers that are not
    in service, in the order of their ready times, free registers hold no
    target, and every register satisfies its own invariant. *)
Theorem mshr_queue_invariant h q cnt : queue_reach h q cnt → queue_ok cnt h q.
Proof. apply queue_reach_ok. Qed.

Definition demo_queue : MSHRQueue := MSHRQueue_new 0 2 1.
Definition demo_q1 : Heap * MSHRQueue * nat :=
  default (∅, demo_queue, 0%nat)
    (q_allocate demo_regs demo_queue 5 64 64 (demo_pkt ReadReq 64 64 None) 30 0).
Definition demo_q2 : Heap * MSHRQueue * nat :=
  default (∅, demo_queue, 0%nat)
    (q_allocate (fst (fst demo_q1)) (snd (fst demo_q1)) 6 128 64 (demo_pkt ReadReq 128 64 None) 20 1).

Lemma demo_q1_reach : queue_reach (fst (fst demo_q1)) (snd (fst demo_q1)) 1.
Proof.
  eapply (queue_more demo_regs demo_queue 0); [apply queue_init|].
  - lia.
  - intros id Hid. change (id ∈ [0; 1]%nat) in Hid. repeat apply elem_of_cons in Hid as [->|Hid];
      [done|done|by apply elem_of_nil in Hid].
  - apply demo_regs_new.
  - apply (qs_allocate demo_regs demo_queue 0 5 64 64 (demo_pkt ReadReq 64 64 None) 30 _ _ 0).
    reflexivity.
Qed.

Lemma demo_q2_reach : queue_reach (fst (fst demo_q2)) (snd (fst demo_q2)) 2.
Proof.
  eapply (queue_more (fst (fst demo_q1)) (snd (fst demo_q1)) 1); [apply demo_q1_reach|].
  apply (qs_allocate _ _ 1 6 128 64 (demo_pkt ReadReq 128 64 None) 20 _ _ 1). reflexivity.
Qed.

Lemma mshr_queue_invariant_witness : queue_ok 2 (fst (fst demo_q2)) (snd (fst demo_q2)).
Proof. apply mshr_queue_invariant, demo_q2_reach. Defined.

Section NextMSHR.
Context {cnt : Z} {h : Heap} {q : MSHRQueue} (Hq : queue_ok cnt h q).

(** The head of the ready list is the earliest request waiting to be sent. *)
Lemma ready_head id rl :
  readyList q = id :: rl →
  id ∈ allocatedList q ∧ in_service h id = false ∧
  (∃ m, h !! id = Some m ∧ ready_at h id = readyTime m) ∧
  ∀ j, j ∈ allocatedList q → in_service h j = false → ready_at h id <= ready_at h j.
Proof.
  intros Hr. destruct (ready_alloc Hq id) as [Hia His]; [rewrite Hr; by left|].
  split_and!; try done.
  - destruct (qok_dom _ _ _ Hq id (alloc_reg Hq id Hia)) as [m Hm].
    exists m. split; [done|by apply ready_at_Some].
  - intros j Hj Hs. assert (j ∈ readyList q) as Hjr
      by (rewrite (qok_ready _ _ _ Hq); by apply list_elem_of_filter).
    pose proof (qok_sorted _ _ _ Hq) as Hso. rewrite Hr in Hso, Hjr.
    apply StronglySorted_inv in Hso as [_ Hall]. rewrite Forall_forall in Hall.
    apply elem_of_cons in Hjr as [->|Hjr]; [lia|]. by apply Hall.
Qed.

Lemma ready_empty : readyList q = [] → ∀ j, j ∈ allocatedList q → in_service h j = true.
Proof.
  intros Hr j Hj. destruct (in_service h j) eqn:Hs; [done|].
  assert (j ∈ readyList q) as Hjr
    by (rewrite (qok_ready _ _ _ Hq); by apply list_elem_of_filter).
  rewrite Hr in Hjr. by apply elem_of_nil in Hjr.
Qed.

End NextMSHR.

(** [getNextMSHR] picks, among the allocated registers not yet sent, one
    whose request is due and whose ready time is the earliest, and finds none only
    when none is due; [nextMSHRReadyTime] is that earliest ready time. *)
Theorem mshr_queue_next h q cnt curTick :
  queue_reach h q cnt →
  (∀ id, getNextMSHR h q curTick = Some id →
     id ∈ allocatedList q ∧ in_service h id = false ∧ ready_at h id <= curTick ∧
     ready_at h id = nextMSHRReadyTime h q ∧
     ∀ j, j ∈ allocatedList q → in_service h j = false → ready_at h id <= ready_at h j) ∧
  (getNextMSHR h q curTick = None →
     ∀ j, j ∈ allocatedList q → in_service h j = false → curTick < ready_at h j) ∧
  (havePending q = false → nextMSHRReadyTime h q = MaxTick ∧
     ∀ j, j ∈ allocatedList q → in_service h j = true) ∧
  (∀ j, j ∈ allocatedList q → in_service h j = false → nextMSHRReadyTime h q <= ready_at h j).
Proof.
  intros Hr. apply queue_reach_ok in Hr as Hq.
  unfold getNextMSHR, nextMSHRReadyTime, havePending.
  destruct (readyList q) as [|i rl] eqn:Erl; cbn [head mbind option_bind].
  - pose proof (ready_empty Hq Erl) as He. split_and!; [done| | |].
    + intros _ j Hj Hs. by rewrite He in Hs.
    + by intros _.
    + intros j Hj Hs. by rewrite He in Hs.
  - destruct (ready_head Hq i rl Erl) as (Hia & His & (m & Hm & Ht) & Hmin).
    rewrite Hm. cbn. rewrite Ht in Hmin. destruct (Z.ltb_spec curTick (readyTime m)); split_and!; try done.
    + intros _ j Hj Hs. specialize (Hmin j Hj Hs). lia.
    + intros id [= <-]. rewrite Ht. split_and!; [done|done|lia|done|done].
Qed.

Lemma mshr_queue_next_witness : nextMSHRReadyTime (fst (fst demo_q2)) (snd (fst demo_q2)) <= 30.
Proof.
  destruct (mshr_queue_next (fst (fst demo_q2)) (snd (fst demo_q2)) 2 25 demo_q2_reach)
    as (_ & _ & _ & H).
  apply (H 0%nat); [vm_compute; left|reflexivity].
Defined.

(** A queue that is not full has a free register, and a request whose sender
    is not another cache can always be allocated in it: the assertions of
    [allocate] and [addToReadyList] hold, and the new request is then found by
    [findMatch]. *)
Theorem mshr_queue_capacity h q cnt curTick a sz p when :
  queue_reach h q cnt → 1 <= numReserve q → isFull q = false → Packet.sender p = None →
  ∃ h' q' id, q_allocate h q curTick a sz p when cnt = Some (h', q', id) ∧
    id ∈ freeList q ∧ allocated q' = allocated q + 1 ∧
    (∃ m, h' !! id = Some m ∧ addr m = a ∧ readyTime m = when ∧ ntargets m = 1) ∧
    is_Some (findMatch h' q' a).
Proof.
  intros Hr Hres Hfull Hs. apply queue_reach_ok in Hr as Hq. unfold isFull in Hfull. zbool.
  destruct (freeList q) as [|i fl] eqn:Hfl.
  { pose proof (qok_regs _ _ _ Hq) as Hp. rewrite Hfl, app_nil_r in Hp.
    apply Permutation_length in Hp. pose proof (qok_entries _ _ _ Hq).
    pose proof (qok_allocated _ _ _ Hq). lia. }
  destruct (qok_free _ _ _ Hq i) as (m & Hm & Ht & Hd & Hrs); [rewrite Hfl; by left|].
  destruct (qok_heap _ _ _ Hq i m Hm) as [[Hc _] _ _ _ Hdr _ _ _ _].
  unfold num_targets in Hc. rewrite Ht, Hd in Hc. cbn in Hc.
  unfold q_allocate. rewrite Hfl, Hm. cbn [mbind option_bind]. rewrite Hc. cbn [Z.eqb].
  unfold Mshr.allocate. rewrite Hm. cbn [mbind option_bind]. rewrite Hrs.
  unfold tl_add, mark_upstream. rewrite Hs. cbn [mbind option_bind].
  rewrite lookup_insert_eq. cbn [mbind option_bind deferredTargets].
  rewrite (Hdr Hd), insert_insert_eq.
  set (m1 := set_pending _ _ _). set (h1 := <[i := m1]> h).
  cbn [mbind option_bind]. change (Z.of_nat 0 =? 0) with true. cbv iota.
  destruct (addToReadyList_spec h1 (readyList q) i m1) as (rl & -> & _ & _).
  { apply lookup_insert_eq. }
  { intros j Hj. apply lookup_insert_is_Some'. right.
    by apply (qok_dom _ _ _ Hq), (alloc_reg Hq), (ready_alloc Hq). }
  { eapply sorted_ready; [|apply Hq]. intros j [Hj _]%(ready_alloc Hq).
    unfold ready_at, view, h1. rewrite lookup_insert_ne; [done|]. intros <-.
    apply (alloc_not_free Hq i Hj). rewrite Hfl. by left. }
  cbn [mbind option_bind]. do 3 eexists. split; [reflexivity|]. cbn [allocated set_q].
  split_and!; [by left|done| |].
  - exists m1. split; [apply lookup_insert_eq|done].
  - unfold findMatch. cbn [allocatedList set_q].
    destruct (list_find_elem_of (λ id, (addr <$> h1 !! id) = Some a) (allocatedList q ++ [i]) i)
      as [[k x] ->]; [apply elem_of_app; right; by left|unfold h1; by rewrite lookup_insert_eq|].
    by eexists.
Qed.

Lemma mshr_queue_capacity_witness :
  ∃ h' q' id, q_allocate (fst (fst demo_q1)) (snd (fst demo_q1)) 6 128 64
    (demo_pkt ReadReq 128 64 None) 20 1 = Some (h', q', id) ∧ is_Some (findMatch h' q' 128).
Proof.
  destruct (mshr_queue_capacity (fst (fst demo_q1)) (snd (fst demo_q1)) 1 6 128 64
    (demo_pkt ReadReq 128 64 None) 20) as (h' & q' & id & H & _ & _ & _ & Hf).
  - exact demo_q1_reach.
  - vm_compute. congruence.
  - reflexivity.
  - reflexivity.
  - by exists h', q', id.
Defined.
