(* ===== verification/PfQueue.v ===== *)
(** The hardware prefetch queue, [src/m5/src/mem/cache/prefetch/base.hh] and
    [base.cc] ([BasePrefetcher]).

    A prefetcher of the simulator is this queue together with an engine, the
    class's virtual [calculatePrefetch] and [prefetchComplete]; the engines are
    instances of [PfEngine] (Proxy.v, PfEngines.v).  [cache->deassertMemSideBusRequest]
    does nothing ([src/m5/src/mem/cache/base.hh]) and is left out; so are the
    trace messages and the registration of the statistics, and [pfSquashed], which
    is only counted where the behaviour is undefined.  Failed assertions and
    undefined behaviour are [None]. *)

From S2P Require Import Prelude IntMath PfInterface Packet.

(** The parameters of the cache that a prefetcher reads.  [VMPageSize] is that of
    the Alpha instruction set, for which the simulator is built. *)
Record PfParams := mkPfParams {
  pf_size : Z;
  blkSize : Z;
  pageStop : bool;
  serialSquash : bool;
  onlyData : bool;
  latency : Z;
  degree : Z;
  useContextId : bool
}.

Definition VMPageSize : Z := Z.shiftl 1 13.

(** What an engine can ask the cache, at block-aligned addresses or not. *)
Record CacheView := mkCacheView {
  inCache : Z → bool;
  inMissQueue : Z → bool;
  getPrefetchBit : Z → bool
}.

(** The lists filled by [calculatePrefetch], its writes to the prefetch bits and
    its contribution to [pfSpanPage]. *)
Record Calc := mkCalc {
  addresses : list Z;
  delays : list Z;
  bit_calls : list SimCall;
  span_page : Z
}.

Definition no_calc : Calc := mkCalc [] [] [] 0.

Class PfEngine := {
  pstate : Type;
  pf_init : pstate;
  calculatePrefetch : PfParams → CacheView → Z → Packet.t → pstate → option (pstate * Calc);
  prefetchComplete : Packet.t → pstate → option (pstate * list SimCall)
}.

Record PfStats := mkPfStats {
  pfIdentified : Z;
  pfBufferHit : Z;
  pfRemovedFull : Z;
  pfRemovedMSHR : Z;
  pfIssued : Z;
  pfSpanPage : Z
}.

(** A [BasePrefetcher] with the state of its subclass. *)
Record PfState (S : Type) := mkPrefetcher {
  pf : list Packet.t;
  engine : S;
  stats : PfStats
}.
Arguments mkPrefetcher {S}.
Arguments pf {S}.
Arguments engine {S}.
Arguments stats {S}.

(** ** The queue *)

Section Queue.
Context (P : PfParams).

(** [a & ~(Addr)(blkSize-1)] *)
Definition block_of (a : Z) : Z := Z.land a (notU 64 (u64 (blkSize P - 1))).

Definition samePage (a b : Z) : bool := roundDown a VMPageSize =? roundDown b VMPageSize.

(** [inPrefetch]: the position of the queued prefetch for a block.  The packets
    of the queue have an address (see [queued_ok]), so the assertion of [getAddr]
    holds. *)
Definition inPrefetch (pf : list Packet.t) (address : Z) : option nat :=
  fst <$> list_find (λ p, block_of (Packet.addr p) = address) pf.

(** The squashing of later prefetches.  The code decrements the iterator it has
    just erased (and [end()] of an empty list), which is undefined: only the case
    in which nothing is squashed has a result. *)
Definition serial_squash (pf : list Packet.t) (time : Z) : option (list Packet.t) :=
  p ← last pf;
  if time <=? Packet.time p then None else Some pf.

(** The packet built for a candidate. *)
Definition prefetch_packet (curTick : Z) (pkt : Packet.t) (time addr delay : Z) : option Packet.t :=
  r ← Request.new_phys curTick addr (blkSize P) 0;
  p ← Packet.allocate (replicate (Z.to_nat (blkSize P)) 0)
        (Packet.new curTick r HardPFReq Packet.Broadcast);
  let p := match Request.context (Packet.req pkt) with
           | Some (cid, tid) => Packet.set_req p (Request.setThreadContext (Packet.req p) cid tid)
           | None => p
           end in
  Some (Packet.set_time p (s64 (time + delay))).

(** One turn of the loop over the candidates. *)
Definition insert_candidate (curTick : Z) (pkt : Packet.t) (time : Z)
    (pf : list Packet.t) (st : PfStats) (addr delay : Z) : option (list Packet.t * PfStats) :=
  match inPrefetch pf addr with
  | Some _ =>
      Some (pf, mkPfStats (pfIdentified st + 1) (pfBufferHit st + 1) (pfRemovedFull st)
                  (pfRemovedMSHR st) (pfIssued st) (pfSpanPage st))
  | None =>
      p ← prefetch_packet curTick pkt time addr delay;
      if Z.of_nat (length pf) =? pf_size P then
        match pf with
        | [] => None
        | _ :: pf =>
            Some (pf ++ [p], mkPfStats (pfIdentified st + 1) (pfBufferHit st) (pfRemovedFull st + 1)
                               (pfRemovedMSHR st) (pfIssued st) (pfSpanPage st))
        end
      else Some (pf ++ [p], mkPfStats (pfIdentified st + 1) (pfBufferHit st) (pfRemovedFull st)
                              (pfRemovedMSHR st) (pfIssued st) (pfSpanPage st))
  end.

(** The loop; [delayIter] advances with [addrIter]. *)
Fixpoint insert_candidates (curTick : Z) (pkt : Packet.t) (time : Z)
    (pf : list Packet.t) (st : PfStats) (addrs dls : list Z) : option (list Packet.t * PfStats) :=
  match addrs, dls with
  | [], _ => Some (pf, st)
  | _, [] => None
  | a :: addrs, d :: dls =>
      '(pf, st) ← insert_candidate curTick pkt time pf st a d;
      insert_candidates curTick pkt time pf st addrs dls
  end.

(** [nextPrefetchReadyTime] uses the latest tick for an empty queue, [notify] 0. *)
Definition nextPrefetchReadyTime (pf : list Packet.t) : Z :=
  match pf with [] => MaxTick | p :: _ => Packet.time p end.
Definition notify_result (pf : list Packet.t) : Z :=
  match pf with [] => 0 | p :: _ => Packet.time p end.

(** Removal of the block that is accessed. *)
Definition remove_missed (pf : list Packet.t) (st : PfStats) (blk_addr : Z)
    : list Packet.t * PfStats :=
  match inPrefetch pf blk_addr with
  | Some i => (delete i pf, mkPfStats (pfIdentified st) (pfBufferHit st) (pfRemovedFull st)
                              (pfRemovedMSHR st + 1) (pfIssued st) (pfSpanPage st))
  | None => (pf, st)
  end.

Context {E : PfEngine}.

Abbreviation Prefetcher := (PfState pstate).

Definition Prefetcher_new : Prefetcher := mkPrefetcher [] pf_init (mkPfStats 0 0 0 0 0 0).

(** [notify]: the prefetcher, the writes to the prefetch bits and the result. *)
Definition notify (cv : CacheView) (curTick : Z) (pkt : Packet.t) (time : Z) (s : Prefetcher)
    : option (Prefetcher * list SimCall * Z) :=
  if negb (Request.isUncacheable (Packet.req pkt)) &&
     negb (Request.isInstFetch (Packet.req pkt) && onlyData P) then
    a ← Packet.getAddr pkt;
    let '(q, st) := remove_missed (pf s) (stats s) (block_of a) in
    q ← (if serialSquash P then serial_squash q time else Some q);
    '(e, c) ← calculatePrefetch P cv (Z.of_nat (length q)) pkt (engine s);
    let st := mkPfStats (pfIdentified st) (pfBufferHit st) (pfRemovedFull st) (pfRemovedMSHR st)
                (pfIssued st) (pfSpanPage st + span_page c) in
    '(q, st) ← insert_candidates curTick pkt time q st (addresses c) (delays c);
    Some (mkPrefetcher q e st, bit_calls c, notify_result q)
  else Some (s, [], notify_result (pf s)).

(** [getPacket] *)
Definition getPacket (s : Prefetcher) : option Packet.t * Prefetcher :=
  match pf s with
  | [] => (None, s)
  | p :: q =>
      let st := stats s in
      (Some p, mkPrefetcher q (engine s)
                 (mkPfStats (pfIdentified st) (pfBufferHit st) (pfRemovedFull st)
                    (pfRemovedMSHR st) (pfIssued st + 1) (pfSpanPage st)))
  end.

Definition havePending (s : Prefetcher) : bool := bool_decide (pf s ≠ []).
Definition currentQueueSize (s : Prefetcher) : Z := Z.of_nat (length (pf s)).

(** The prefetch of a packet is complete. *)
Definition complete (pkt : Packet.t) (s : Prefetcher) : option (Prefetcher * list SimCall) :=
  '(e, cs) ← prefetchComplete pkt (engine s);
  Some (mkPrefetcher (pf s) e (stats s), cs).

End Queue.

Abbreviation Prefetcher := (PfState pstate).

(** ** The contract between the queue and its engine *)

(** An engine proposes whole blocks, all with the configured latency, and as many
    delays as addresses.  [engine_params] restricts the parameters of the cache and
    [engine_ok] is the invariant of the engine's own state. *)
Class BlockEngine (E : PfEngine) := {
  engine_params : PfParams → Prop;
  engine_ok : PfParams → pstate → Prop;
  engine_ok_init P : engine_params P → engine_ok P pf_init;
  engine_ok_complete P pkt e e' cs :
    engine_ok P e → prefetchComplete pkt e = Some (e', cs) → engine_ok P e';
  engine_blocks P cv n pkt e e' c :
    engine_params P → engine_ok P e → is_u64 (Packet.addr pkt) →
    calculatePrefetch P cv n pkt e = Some (e', c) →
    engine_ok P e' ∧
    Forall (λ a, is_u64 a ∧ block_of P a = a) (addresses c) ∧
    delays c = replicate (length (addresses c)) (latency P)
}.

(** A queue that can be configured: a positive size and a block size that is a
    power of two below [2^31]. *)
Definition params_ok (P : PfParams) : Prop :=
  1 <= pf_size P < 2 ^ 32 ∧ 0 <= latency P ∧ ∃ k, 0 <= k < 31 ∧ blkSize P = 2 ^ k.

(** A packet of the queue: a hardware prefetch of one whole block. *)
Definition queued_ok (P : PfParams) (p : Packet.t) : Prop :=
  Packet.cmd p = HardPFReq ∧ Packet.getAddr p = Some (Packet.addr p) ∧
  is_u64 (Packet.addr p) ∧ block_of P (Packet.addr p) = Packet.addr p ∧
  Packet.getSize p = Some (blkSize P) ∧ Packet.size p = blkSize P ∧
  is_Some (Packet.getPtr p).

(** [now] is the time of the last notification. *)
Record pfq_ok (P : PfParams) (now : Z) (q : list Packet.t) : Prop := {
  pfq_bound : Z.of_nat (length q) <= pf_size P;
  pfq_packets : Forall (queued_ok P) q;
  pfq_distinct : NoDup (Packet.addr <$> q);
  pfq_sorted : StronglySorted Z.le (Packet.time <$> q);
  pfq_times : Forall (λ p, Packet.time p <= now + latency P) q
}.

(** Every identified candidate is accounted for. *)
Definition stats_ok (q : list Packet.t) (st : PfStats) : Prop :=
  pfIdentified st =
    pfBufferHit st + pfRemovedFull st + pfRemovedMSHR st + pfIssued st + Z.of_nat (length q).

Section QueueFacts.
Context {P : PfParams} (HP : params_ok P).

Lemma block_of_arith a : is_u64 a → block_of P a = a - a mod blkSize P.
Proof.
  destruct HP as (_ & _ & k & Hk & Ek). intros Ha. unfold block_of. rewrite Ek.
  pose proof (pow2_pos_lt k 64 ltac:(lia)). rewrite u64_small by ilia.
  apply land_notU_align; [lia|exact Ha].
Qed.

Lemma block_of_idem a : is_u64 a → block_of P (block_of P a) = block_of P a ∧ is_u64 (block_of P a).
Proof.
  intros Ha. pose proof (block_of_arith a Ha) as E.
  destruct HP as (_ & _ & k & Hk & Hb). pose proof (pow2_pos_lt k 31 Hk). rewrite <- Hb in *.
  assert (0 <= a mod blkSize P <= a) by (split; [apply Z.mod_pos_bound; lia|apply Z.mod_le; ilia]).
  assert (is_u64 (block_of P a)) as Hu by (rewrite E; ilia).
  split; [|done]. rewrite (block_of_arith (block_of P a)) by done. rewrite E.
  rewrite Hb. rewrite mod_pow2_pow2_align by lia. lia.
Qed.

Lemma inPrefetch_None q a :
  inPrefetch P q a = None ↔ Forall (λ p, block_of P (Packet.addr p) ≠ a) q.
Proof.
  unfold inPrefetch. rewrite fmap_None. apply list_find_None.
Qed.

Lemma inPrefetch_Some q a i :
  inPrefetch P q a = Some i → ∃ p, q !! i = Some p ∧ block_of P (Packet.addr p) = a.
Proof.
  unfold inPrefetch. intros E. apply fmap_Some in E as ([j p] & E & ->).
  apply list_find_Some in E as (Hl & He & _). by exists p.
Qed.

(** The packet built for a whole block. *)
Lemma prefetch_packet_ok curTick pkt t a d :
  is_u64 a → block_of P a = a →
  ∃ p, prefetch_packet P curTick pkt t a d = Some p ∧ queued_ok P p ∧
    Packet.addr p = a ∧ Packet.time p = s64 (t + d).
Proof.
  intros Ha Hb. destruct HP as (_ & _ & k & Hk & Ek). pose proof (pow2_pos_lt k 31 Hk).
  unfold prefetch_packet, Request.new_phys, Request.setPhys.
  rewrite (proj2 (Z.leb_le 0 (blkSize P))) by lia. cbn -[Z.to_nat replicate take].
  eexists. split; [reflexivity|].
  destruct (Request.context (Packet.req pkt)) as [[cid tid]|];
    (split_and!; [|reflexivity|reflexivity]);
    unfold queued_ok; cbn -[Z.to_nat replicate take block_of]; split_and!; try done; by eexists.
Qed.

Lemma pfq_ok_later now t q : pfq_ok P now q → now <= t → pfq_ok P t q.
Proof.
  intros [] Ht. constructor; try done.
  eapply Forall_impl; [exact pfq_times0|]. cbn. intros. lia.
Qed.

Lemma pfq_ok_tail now p q : pfq_ok P now (p :: q) → pfq_ok P now q.
Proof.
  intros [Hb Hp Hd Hs Ht]. cbn in *. apply Forall_cons in Hp as [_ ?], Ht as [_ ?].
  apply NoDup_cons in Hd as [_ ?]. apply StronglySorted_inv in Hs as [? _].
  constructor; [lia|done..].
Qed.

(** Appending the prefetch of a block that is not queued. *)
Lemma pfq_ok_snoc now q p :
  pfq_ok P now q → Z.of_nat (length q) < pf_size P → queued_ok P p →
  Packet.time p = now + latency P → Packet.addr p ∉ Packet.addr <$> q → pfq_ok P now (q ++ [p]).
Proof.
  intros [Hb Hp Hd Hs Ht] Hl Hq Htp Hn. constructor.
  - rewrite length_app. cbn. lia.
  - by apply Forall_app_2; [|constructor].
  - rewrite fmap_app. apply NoDup_app. split_and!; [done| |apply NoDup_singleton].
    intros x Hx ->%list_elem_of_singleton. done.
  - rewrite fmap_app. cbn. clear -Hs Ht Htp. induction q as [|x q IH]; cbn in *; [repeat constructor|].
    apply Forall_cons in Ht as [Hx Ht]. apply StronglySorted_inv in Hs as [Hs Hx'].
    constructor; [by apply IH|]. apply Forall_app_2; [done|]. constructor; [lia|constructor].
  - apply Forall_app_2; [done|]. constructor; [lia|constructor].
Qed.

Lemma insert_candidate_ok curTick pkt t q st a :
  pfq_ok P t q → stats_ok q st → is_u64 a → block_of P a = a → 0 <= t → t + latency P < 2 ^ 63 →
  ∃ q' st', insert_candidate P curTick pkt t q st a (latency P) = Some (q', st') ∧
    pfq_ok P t q' ∧ stats_ok q' st' ∧ pfSpanPage st' = pfSpanPage st ∧
    ∃ p, last q' = Some p ∧ Packet.addr p = a ∨ p ∈ q ∧ q' = q ∧ Packet.addr p = a.
Proof.
  intros Hq Hst Ha Hb Ht Hlt. unfold insert_candidate. unfold stats_ok in *.
  destruct (inPrefetch P q a) as [i|] eqn:Ei.
  - do 2 eexists. split; [reflexivity|]. cbn. split_and!; [done|lia|done|].
    apply inPrefetch_Some in Ei as (p & Hp & Hpa). exists p. right.
    assert (p ∈ q) as Hin by (by eapply list_elem_of_lookup_2). split_and!; [done|done|].
    pose proof (pfq_packets _ _ _ Hq) as Hall. rewrite Forall_forall in Hall.
    destruct (Hall p Hin) as (_ & _ & _ & E & _). congruence.
  - destruct (prefetch_packet_ok curTick pkt t a (latency P) Ha Hb) as (p & -> & Hpok & Hpa & Hpt).
    cbn [mbind option_bind]. destruct HP as ([Hsz _] & Hlat & _).
    rewrite s64_small in Hpt by ilia.
    assert (∀ q0, q0 ⊆ q → Packet.addr p ∉ Packet.addr <$> q0) as Hnin.
    { intros q0 Hsub (x & Hx & Hxin)%list_elem_of_fmap. apply inPrefetch_None in Ei.
      rewrite Forall_forall in Ei. apply (Ei x (Hsub x Hxin)).
      pose proof (pfq_packets _ _ _ Hq) as Hall. rewrite Forall_forall in Hall.
      destruct (Hall x (Hsub x Hxin)) as (_ & _ & _ & E & _). congruence. }
    destruct (Z.eqb_spec (Z.of_nat (length q)) (pf_size P)) as [Hfull|Hfull].
    + destruct q as [|x q]; [cbn in Hfull; lia|]. do 2 eexists. split; [reflexivity|]. cbn in *.
      split_and!; [|rewrite length_app; cbn; lia|done|exists p; left; by rewrite last_snoc].
      apply pfq_ok_snoc; [by eapply pfq_ok_tail|lia|done|done|]. apply Hnin.
      intros y Hy. by right.
    + do 2 eexists. split; [reflexivity|]. cbn in *.
      split_and!; [|rewrite length_app; cbn; lia|done|exists p; left; by rewrite last_snoc].
      pose proof (pfq_bound _ _ _ Hq). apply pfq_ok_snoc; [done|lia|done|done|]. by apply Hnin.
Qed.

Lemma insert_candidates_ok curTick pkt t addrs q st :
  pfq_ok P t q → stats_ok q st → Forall (λ a, is_u64 a ∧ block_of P a = a) addrs →
  0 <= t → t + latency P < 2 ^ 63 →
  ∃ q' st', insert_candidates P curTick pkt t q st addrs (replicate (length addrs) (latency P))
              = Some (q', st') ∧ pfq_ok P t q' ∧ stats_ok q' st'.
Proof.
  revert q st. induction addrs as [|a addrs IH]; intros q st Hq Hst Hall Ht Hlt; cbn; [eauto|].
  apply Forall_cons in Hall as [[Ha Hb] Hall].
  destruct (insert_candidate_ok curTick pkt t q st a Hq Hst Ha Hb Ht Hlt)
    as (q1 & st1 & -> & Hq1 & Hst1 & _). cbn [mbind option_bind]. by apply IH.
Qed.

Lemma remove_missed_ok now q st b :
  pfq_ok P now q → stats_ok q st →
  pfq_ok P now (remove_missed P q st b).1 ∧
  stats_ok (remove_missed P q st b).1 (remove_missed P q st b).2 ∧
  b ∉ Packet.addr <$> (remove_missed P q st b).1.
Proof.
  intros [Hb Hp Hd Hs Ht] Hst. unfold remove_missed.
  destruct (inPrefetch P q b) as [i|] eqn:Ei; cbn.
  - apply inPrefetch_Some in Ei as (p & Hi & Hpb).
    pose proof (delete_Permutation q i p Hi) as Hperm.
    pose proof (Permutation_length Hperm) as Hlen. cbn in Hlen.
    rewrite Hperm in Hp, Hd, Ht. cbn in Hd.
    apply Forall_cons in Hp as [(_ & _ & _ & Hpa & _) Hp], Ht as [_ Ht].
    apply NoDup_cons in Hd as [Hn Hd]. split_and!.
    + constructor; [lia|done|done| |done].
      eapply StronglySorted_sublist; [|exact Hs]. rewrite fmap_delete. apply sublist_delete.
    + unfold stats_ok in *. cbn. lia.
    + congruence.
  - apply inPrefetch_None in Ei. split_and!; [done|done|].
    intros (p & -> & Hin)%list_elem_of_fmap. rewrite Forall_forall in Ei, Hp.
    destruct (Hp p Hin) as (_ & _ & _ & Hpa & _). by apply (Ei p Hin).
Qed.

End QueueFacts.

Section Members.
Context {P : PfParams} (HP : params_ok P).

Lemma insert_candidate_members curTick pkt t q st a d q' st' b :
  insert_candidate P curTick pkt t q st a d = Some (q', st') →
  b ∈ Packet.addr <$> q' → b ∈ Packet.addr <$> q ∨ b = a.
Proof.
  unfold insert_candidate. destruct (inPrefetch P q a); [intros [= <- <-]; by left|].
  destruct (prefetch_packet P curTick pkt t a d) as [p|] eqn:Ep; [|done]. cbn [mbind option_bind].
  assert (Packet.addr p = a) as Hpa.
  { unfold prefetch_packet, Request.new_phys, Request.setPhys in Ep.
    destruct (0 <=? blkSize P); [|done]. cbn -[Z.to_nat replicate take] in Ep.
    by destruct (Request.context (Packet.req pkt)) as [[]|]; injection Ep as <-. }
  destruct (_ =? _); [destruct q as [|x q]; [done|]|]; intros [= <- <-];
    rewrite fmap_app; intros [Hin|Hin]%elem_of_app; cbn in Hin.
  - left. cbn. by right.
  - right. apply list_elem_of_singleton in Hin. congruence.
  - by left.
  - right. apply list_elem_of_singleton in Hin. congruence.
Qed.

Lemma insert_candidates_members curTick pkt t addrs dls q st q' st' b :
  insert_candidates P curTick pkt t q st addrs dls = Some (q', st') →
  b ∈ Packet.addr <$> q' → b ∈ Packet.addr <$> q ∨ b ∈ addrs.
Proof.
  revert dls q st. induction addrs as [|a addrs IH]; intros dls q st E Hb; cbn in E.
  { injection E as <- <-. by left. }
  destruct dls as [|d dls]; [done|].
  destruct (insert_candidate P curTick pkt t q st a d) as [[q1 st1]|] eqn:E1; [|done].
  cbn [mbind option_bind] in E.
  destruct (IH dls q1 st1 E Hb) as [H1|H1]; [|right; by right].
  destruct (insert_candidate_members _ _ _ _ _ _ _ _ _ _ E1 H1) as [?| ->]; [by left|right; by left].
Qed.

(** The last candidate is never evicted by the others. *)
Lemma insert_candidates_last curTick pkt t addrs q st a :
  pfq_ok P t q → stats_ok q st → Forall (λ a, is_u64 a ∧ block_of P a = a) addrs →
  0 <= t → t + latency P < 2 ^ 63 → last addrs = Some a →
  ∃ q' st', insert_candidates P curTick pkt t q st addrs (replicate (length addrs) (latency P))
              = Some (q', st') ∧ a ∈ Packet.addr <$> q'.
Proof.
  revert q st. induction addrs as [|x addrs IH]; intros q st Hq Hst Hall Ht Hlt Hl; [done|].
  apply Forall_cons in Hall as [[Ha Hb] Hall]. cbn [length replicate insert_candidates].
  destruct (insert_candidate_ok HP curTick pkt t q st x Hq Hst Ha Hb Ht Hlt)
    as (q1 & st1 & -> & Hq1 & Hst1 & _ & p & Hp). cbn [mbind option_bind].
  destruct addrs as [|y addrs]; [|by apply IH].
  cbn in Hl. injection Hl as <-. do 2 eexists. split; [reflexivity|].
  destruct Hp as [[Hlast <-]|(Hin & -> & <-)].
  - apply list_elem_of_fmap_2. by eapply last_Some_elem_of.
  - by apply list_elem_of_fmap_2.
Qed.

End Members.

(** What a notification can do, whatever the engine. *)
Lemma notify_cases {E : PfEngine} P cv curTick pkt t s s' cs r :
  notify P cv curTick pkt t s = Some (s', cs, r) →
  s' = s ∧ cs = [] ∨
  ∃ q e c, calculatePrefetch P cv (Z.of_nat (length q)) pkt (engine s) = Some (e, c) ∧
    engine s' = e ∧ cs = bit_calls c ∧ q ⊆ pf s ∧
    ∀ b, b ∈ Packet.addr <$> pf s' → b ∈ Packet.addr <$> pf s ∨ b ∈ addresses c.
Proof.
  intros En. unfold notify in En. destruct (_ && _); [|left; by injection En as <- <- <-].
  right. destruct (Packet.getAddr pkt) as [a|]; [|done]. cbn [mbind option_bind] in En.
  assert ((remove_missed P (pf s) (stats s) (block_of P a)).1 ⊆ pf s) as Hsub.
  { unfold remove_missed. destruct (inPrefetch P (pf s) (block_of P a)) as [i|]; [|done].
    apply sublist_subseteq, sublist_delete. }
  destruct (remove_missed P (pf s) (stats s) (block_of P a)) as [q1 st1]. cbn in Hsub.
  destruct (if serialSquash P then serial_squash q1 t else Some q1) as [q2|] eqn:Es; [|done].
  assert (q2 = q1) as ->.
  { destruct (serialSquash P); [|by injection Es as <-]. unfold serial_squash in Es.
    destruct (last q1); [|done]. cbn in Es. destruct (_ <=? _); [done|]. by injection Es as <-. }
  cbn [mbind option_bind] in En.
  destruct (calculatePrefetch P cv _ pkt (engine s)) as [[e c]|] eqn:Ec; [|done].
  cbn [mbind option_bind] in En.
  destruct (insert_candidates _ _ _ _ _ _ _ _) as [[q3 st3]|] eqn:Ei; [|done].
  injection En as <- <- <-. exists q1, e, c. split_and!; try done.
  intros b Hb. destruct (insert_candidates_members _ _ _ _ _ _ _ _ _ _ Ei Hb) as [Hin|]; [|by right].
  left. apply list_elem_of_fmap in Hin as (x & -> & Hx). apply list_elem_of_fmap_2. by apply Hsub.
Qed.

Section Reachable.
Context {E : PfEngine} {B : BlockEngine E} (P : PfParams).

(** The cache notifies the prefetcher of accesses in time order, takes packets
    out of the queue and reports completed prefetches. *)
Inductive pf_reach : Z → PfState pstate → Prop :=
  | pf_start : pf_reach 0 Prefetcher_new
  | pf_notified now s cv curTick pkt t s' cs r :
      pf_reach now s → now <= t → t + latency P < 2 ^ 63 → is_u64 (Packet.addr pkt) →
      notify P cv curTick pkt t s = Some (s', cs, r) → pf_reach t s'
  | pf_taken now s : pf_reach now s → pf_reach now (getPacket s).2
  | pf_completed now s pkt s' cs :
      pf_reach now s → complete pkt s = Some (s', cs) → pf_reach now s'.

Hypothesis HP : params_ok P.
Hypothesis HE : engine_params P.

Lemma notify_ok now s cv curTick pkt t s' cs r :
  0 <= now → engine_ok P (engine s) → pfq_ok P now (pf s) → stats_ok (pf s) (stats s) →
  now <= t → t + latency P < 2 ^ 63 → is_u64 (Packet.addr pkt) →
  notify P cv curTick pkt t s = Some (s', cs, r) →
  engine_ok P (engine s') ∧ pfq_ok P t (pf s') ∧ stats_ok (pf s') (stats s').
Proof.
  intros H0 Heo Hq Hst Hnt Hlt Ha En. unfold notify in En.
  destruct (_ && _); [|injection En as <- <- <-; split_and!; [done|by eapply pfq_ok_later|done]].
  destruct (Packet.getAddr pkt) as [a|]; [|done]. cbn [mbind option_bind] in En.
  destruct (remove_missed_ok now (pf s) (stats s) (block_of P a) Hq Hst) as (Hq1 & Hst1 & _).
  destruct (remove_missed P (pf s) (stats s) (block_of P a)) as [q1 st1]. cbn in Hq1, Hst1.
  destruct (if serialSquash P then serial_squash q1 t else Some q1) as [q2|] eqn:Es; [|done].
  assert (q2 = q1) as ->.
  { destruct (serialSquash P); [|by injection Es as <-]. unfold serial_squash in Es.
    destruct (last q1); [|done]. cbn in Es. destruct (_ <=? _); [done|]. by injection Es as <-. }
  cbn [mbind option_bind] in En.
  destruct (calculatePrefetch P cv _ pkt (engine s)) as [[e c]|] eqn:Ec; [|done].
  cbn [mbind option_bind] in En.
  destruct (engine_blocks _ _ _ _ _ _ _ HE Heo Ha Ec) as (Heo' & Hbl & Hdl). rewrite Hdl in En.
  set (st2 := mkPfStats _ _ _ _ _ _) in En.
  destruct (insert_candidates_ok HP curTick pkt t (addresses c) q1 st2)
    as (q3 & st3 & Ei & Hq3 & Hst3); [by eapply pfq_ok_later|done|done|lia|done|].
  rewrite Ei in En. injection En as <- <- <-. done.
Qed.

Lemma pf_reach_ok now s :
  pf_reach now s →
  0 <= now ∧ engine_ok P (engine s) ∧ pfq_ok P now (pf s) ∧ stats_ok (pf s) (stats s).
Proof.
  induction 1 as [|now s cv ct pkt t s' cs r _ (IH0 & IHe & IHq & IHs) Hnt Hlt Ha En
                 |now s _ (IH0 & IHe & IHq & IHs)|now s pkt s' cs _ (IH0 & IHe & IHq & IHs) Ec].
  - destruct HP as ([] & _). split_and!; [done|by apply engine_ok_init| |done].
    constructor; cbn; [lia|constructor..].
  - split; [lia|]. by eapply notify_ok.
  - unfold getPacket. destruct (pf s) as [|p q] eqn:Eq; cbn; [by rewrite Eq|].
    split_and!; [done|done|by eapply pfq_ok_tail|]. unfold stats_ok in *. cbn in *. lia.
  - unfold complete in Ec. destruct (prefetchComplete pkt (engine s)) as [[e c]|] eqn:Ep; [|done].
    injection Ec as <- <-. split_and!; [done|by eapply engine_ok_complete|done|done].
Qed.

End Reachable.

(** C15. Whatever engine proposes the candidates, as long as it proposes whole
    blocks with the configured latency: the prefetch queue never exceeds its size,
    holds whole-block hardware prefetches with a buffer, at most one per block
    (what [inPrefetch] takes for granted), in the order of their ready times; and
    every candidate ever identified is still queued, was issued, was already
    queued, or was removed for one of the two counted reasons. *)
Theorem pf_queue_invariant {E : PfEngine} {B : BlockEngine E} P now s :
  params_ok P → engine_params P → pf_reach P now s →
  engine_ok P (engine s) ∧ pfq_ok P now (pf s) ∧ stats_ok (pf s) (stats s).
Proof. intros HP HE Hr. by destruct (pf_reach_ok P HP HE now s Hr) as (_ & ? & ? & ?). Qed.

(** A notification of a cacheable access, with serial squashing off, succeeds
    when the engine does: the engine sees the queue without the accessed block,
    the queue then holds only blocks it held before or that were proposed, the
    last proposed block is in it, the accessed block is in it only if it was
    proposed again, and the result is the ready time of the head of the queue. *)
Theorem pf_notify_spec {E : PfEngine} {B : BlockEngine E} P now s cv curTick pkt t e c :
  params_ok P → engine_params P → serialSquash P = false →
  pf_reach P now s → now <= t → t + latency P < 2 ^ 63 → is_u64 (Packet.addr pkt) →
  Packet.getAddr pkt = Some (Packet.addr pkt) →
  Request.isUncacheable (Packet.req pkt) = false → Request.isInstFetch (Packet.req pkt) = false →
  let b := block_of P (Packet.addr pkt) in
  let q := (remove_missed P (pf s) (stats s) b).1 in
  calculatePrefetch P cv (Z.of_nat (length q)) pkt (engine s) = Some (e, c) →
  ∃ s', notify P cv curTick pkt t s = Some (s', bit_calls c, notify_result (pf s')) ∧
    engine s' = e ∧
    (∀ x, x ∈ Packet.addr <$> pf s' → x ∈ Packet.addr <$> q ∨ x ∈ addresses c) ∧
    (b ∈ Packet.addr <$> pf s' → b ∈ addresses c) ∧
    (∀ a, last (addresses c) = Some a → a ∈ Packet.addr <$> pf s').
Proof.
  intros HP HE Hss Hr Hnt Hlt Ha Hga Hu Hi b q Ec.
  destruct (pf_reach_ok P HP HE now s Hr) as (H0 & Heo & Hq & Hst).
  destruct (remove_missed_ok now (pf s) (stats s) b Hq Hst) as (Hq1 & Hst1 & Hnb).
  destruct (engine_blocks _ _ _ _ _ _ _ HE Heo Ha Ec) as (_ & Hbl & Hdl).
  unfold notify. rewrite Hu, Hi, Hga, Hss. cbn [negb andb mbind option_bind].
  fold b. subst q. destruct (remove_missed P (pf s) (stats s) b) as [q st]. cbn in *.
  rewrite Ec. cbn [mbind option_bind].
  set (st2 := mkPfStats _ _ _ _ _ _).
  destruct (insert_candidates_ok HP curTick pkt t (addresses c) q st2)
    as (q3 & st3 & Ei & Hq3 & Hst3); [by eapply pfq_ok_later|done|done|lia|done|].
  rewrite Hdl, Ei. cbn [mbind option_bind].
  exists (mkPrefetcher q3 e st3). split; [reflexivity|]. cbn.
  pose proof (λ x, insert_candidates_members _ _ _ _ _ _ _ _ _ x Ei) as Hm.
  split_and!; [done| | |].
  - intros x Hx. by apply Hm.
  - intros Hb. by destruct (Hm b Hb).
  - intros a Hl. destruct (insert_candidates_last HP curTick pkt t (addresses c) q st2 a)
      as (q4 & st4 & Ei4 & Hin); [by eapply pfq_ok_later|done|done|lia|done|done|]. congruence.
Qed.
