(* ===== verification/Proxy.v ===== *)
(** The engine that runs a user prefetcher,
    [src/m5/src/mem/cache/prefetch/proxy.hh] and [proxy.cc], and the tagged
    sequential prefetcher of [src/prefetcher/ts_54.cc]. *)

From S2P Require Import Prelude IntMath PfInterface Packet PfQueue Dcpt.

(** [addr & ~(Addr)(BLOCK_SIZE - 1)] *)
Definition align_block (a : Z) : Z := Z.land a (notU 64 (BLOCK_SIZE - 1)).

(** The queries of interface.hh as the proxy answers them: about the block. *)
Definition proxy_view (cv : CacheView) (queue_size : Z) : View :=
  mkView (λ a, inCache cv (align_block a)) (λ a, inMissQueue cv (align_block a))
    (λ a, getPrefetchBit cv (align_block a)) queue_size.

(** [issue_prefetch]: [None] is the fatal error. *)
Definition issue_prefetch (P : PfParams) (c : Calc) (addr : Z) : option Calc :=
  if addr <=? MAX_PHYS_MEM_ADDR
  then Some (mkCalc (addresses c ++ [align_block addr]) (delays c ++ [latency P]) (bit_calls c)
               (span_page c))
  else None.

(** The calls of one callback, in order; an argument is a 64-bit address. *)
Definition sim_call (P : PfParams) (c : Calc) (call : SimCall) : option Calc :=
  match call with
  | IssuePrefetch a => issue_prefetch P c (u64 a)
  | SetPrefetchBit a =>
      Some (mkCalc (addresses c) (delays c) (bit_calls c ++ [SetPrefetchBit (align_block (u64 a))])
              (span_page c))
  | ClearPrefetchBit a =>
      Some (mkCalc (addresses c) (delays c) (bit_calls c ++ [ClearPrefetchBit (align_block (u64 a))])
              (span_page c))
  end.

Definition sim_calls (P : PfParams) (c : Calc) (calls : list SimCall) : option Calc :=
  foldl (λ o call, c ← o; sim_call P c call) (Some c) calls.

Section ProxyPrefetcher.
Context {U : UserPrefetcher}.

(** [None] until [isInitialized]. *)
Definition proxy_calculatePrefetch (P : PfParams) (cv : CacheView) (queue_size : Z) (pkt : Packet.t)
    (s : option upstate) : option (option upstate * Calc) :=
  match Request.pc (Packet.req pkt) with
  | None => Some (s, no_calc)
  | Some pc =>
      if negb (Request.hasContextId (Packet.req pkt)) then Some (s, no_calc)
      else
        let u := default prefetch_init s in
        addr ← Packet.getAddr pkt;
        let stat := mkAccessStat (u64 pc) addr (Packet.time pkt) (negb (inCache cv addr)) in
        let '(u, calls) := prefetch_access (proxy_view cv queue_size) u stat in
        c ← sim_calls P no_calc calls;
        Some (Some u, c)
  end.

(** Issuing a prefetch here would write to lists that no longer exist. *)
Definition proxy_prefetchComplete (pkt : Packet.t) (s : option upstate)
    : option (option upstate * list SimCall) :=
  u ← s;
  addr ← Packet.getAddr pkt;
  let '(u, calls) := prefetch_complete u addr in
  if decide (issued calls = []) then
    Some (Some u, (λ call, match call with
                           | SetPrefetchBit a => SetPrefetchBit (align_block (u64 a))
                           | ClearPrefetchBit a => ClearPrefetchBit (align_block (u64 a))
                           | IssuePrefetch a => IssuePrefetch a
                           end) <$> calls)
  else None.

#[export] Instance ProxyEngine : PfEngine := {|
  pstate := option upstate;
  pf_init := None;
  calculatePrefetch := proxy_calculatePrefetch;
  prefetchComplete := proxy_prefetchComplete
|}.

End ProxyPrefetcher.

(** ** The tagged sequential prefetcher *)

Definition DEGREE : Z := 5.
Definition DISTANCE : Z := 3.

Definition prefetch_several (v : View) (address : Z) : list SimCall :=
  omap (λ i, let pf_addr := u64 (address + u32 (BLOCK_SIZE * (i + DISTANCE))) in
             if in_cache v pf_addr then None else Some (IssuePrefetch pf_addr))
    (seqZ 0 DEGREE).

Definition ts_access (v : View) (s : unit) (stat : AccessStat) : unit * list SimCall :=
  (tt, if miss stat then prefetch_several v (mem_addr stat)
       else if negb (miss stat) && get_prefetch_bit v (mem_addr stat)
            then prefetch_several v (mem_addr stat)
            else []).

Definition ts_complete (s : unit) (addr : Z) : unit * list SimCall := (tt, [SetPrefetchBit addr]).

Definition TsPrefetcher : UserPrefetcher := {|
  upstate := unit;
  prefetch_init := tt;
  prefetch_access := ts_access;
  prefetch_complete := ts_complete
|}.

(** ** The proxy as an engine *)

Section ProxyFacts.
Context {U : UserPrefetcher}.

Lemma align_block_eq a : is_u64 a → align_block a = a - a mod 64.
Proof. intros Ha. unfold align_block. apply (land_notU_align 64 6 a); [lia|done]. Qed.

Lemma block_of_64 P a : blkSize P = 64 → block_of P a = align_block a.
Proof. intros Hb. unfold block_of, align_block. by rewrite Hb. Qed.

(** What the calls of a callback put in the lists. *)
Lemma sim_calls_spec P c calls c' :
  Forall is_u64 (addresses c) → Forall (λ a, align_block a = a) (addresses c) →
  delays c = replicate (length (addresses c)) (latency P) →
  sim_calls P c calls = Some c' →
  Forall is_u64 (addresses c') ∧ Forall (λ a, align_block a = a) (addresses c') ∧
  delays c' = replicate (length (addresses c')) (latency P) ∧
  addresses c' = addresses c ++ ((λ a, align_block (u64 a)) <$> issued calls) ∧
  Forall (λ a, u64 a <= MAX_PHYS_MEM_ADDR) (issued calls).
Proof.
  unfold sim_calls. revert c. induction calls as [|call calls IH]; intros c Hu Ha Hd Ec.
  { injection Ec as <-. cbn. rewrite app_nil_r. by repeat split; [..|constructor]. }
  cbn [foldl mbind option_bind] in Ec.
  destruct (sim_call P c call) as [c1|] eqn:E1.
  2: { exfalso. clear -Ec. induction calls; [done|]. by apply IHcalls. }
  destruct call as [a|a|a]; cbn in E1.
  - unfold issue_prefetch in E1. destruct (Z.leb_spec (u64 a) MAX_PHYS_MEM_ADDR); [|done].
    injection E1 as <-. pose proof (u64_range a) as Hua.
    pose proof (align_block_eq (u64 a) Hua) as Haa.
    assert (is_u64 (align_block (u64 a))) as Hub by (rewrite Haa; ilia).
    apply IH in Ec as (H1 & H2 & H3 & H4 & H5); cbn [addresses delays] in *.
    + split_and!; try done; [|by constructor]. rewrite H4. cbn. by rewrite <- app_assoc.
    + apply Forall_app_2; [done|]. by constructor.
    + apply Forall_app_2; [done|]. constructor; [|constructor].
      rewrite (align_block_eq (align_block (u64 a))) by done. rewrite Haa. lia.
    + rewrite length_app, replicate_add, Hd. done.
  - injection E1 as <-. by apply IH in Ec.
  - injection E1 as <-. by apply IH in Ec.
Qed.

(** A callback that stays in physical memory is never fatal. *)
Lemma sim_calls_total P c calls :
  Forall (λ a, 0 <= a <= MAX_PHYS_MEM_ADDR) (issued calls) → is_Some (sim_calls P c calls).
Proof.
  unfold sim_calls. revert c. induction calls as [|call calls IH]; intros c Hall; cbn; [by eexists|].
  destruct call as [a|a|a]; cbn; [|by apply IH..].
  cbn in Hall. apply Forall_cons in Hall as [Ha Hall].
  unfold issue_prefetch. rewrite u64_small, (proj2 (Z.leb_le _ _)) by (unfold MAX_PHYS_MEM_ADDR in *; ilia).
  by apply IH.
Qed.

Lemma proxy_engine_blocks P cv n pkt (e e' : option upstate) c :
  blkSize P = 64 → is_u64 (Packet.addr pkt) →
  proxy_calculatePrefetch P cv n pkt e = Some (e', c) →
  Forall (λ a, is_u64 a ∧ block_of P a = a) (addresses c) ∧
  delays c = replicate (length (addresses c)) (latency P).
Proof.
  intros Hb Ha Ec. unfold proxy_calculatePrefetch in Ec.
  assert (Forall (λ a, is_u64 a ∧ block_of P a = a) (addresses no_calc) ∧
          delays no_calc = replicate (length (addresses no_calc)) (latency P)) as Hno
    by (split; [constructor|done]).
  destruct (Request.pc (Packet.req pkt)) as [pc|]; [|by injection Ec as <- <-].
  destruct (negb _); [by injection Ec as <- <-|].
  destruct (Packet.getAddr pkt) as [addr|]; [|done]. cbn [mbind option_bind] in Ec.
  destruct (prefetch_access _ _ _) as [u calls].
  destruct (sim_calls P no_calc calls) as [c1|] eqn:E1; [|done]. injection Ec as <- <-.
  destruct (sim_calls_spec P no_calc calls c1) as (H1 & H2 & H3 & _); [constructor|constructor|done|done|].
  split; [|done]. rewrite Forall_forall in *. intros a Hin. split; [by apply H1|].
  rewrite block_of_64 by done. by apply H2.
Qed.

#[export] Instance ProxyBlocks : BlockEngine (@ProxyEngine U) := {|
  engine_params P := blkSize P = 64;
  engine_ok _ _ := True;
  engine_ok_init _ _ := I;
  engine_ok_complete _ _ _ _ _ _ _ := I;
  engine_blocks P cv n pkt e e' c Hb _ Ha Ec := conj I (proxy_engine_blocks P cv n pkt e e' c Hb Ha Ec)
|}.

End ProxyFacts.

Section Safe.
Context {U : UserPrefetcher} {S : SafePrefetcher U}.

Definition proxy_ok (e : option upstate) : Prop := ∀ u, e = Some u → up_ok u.

Lemma proxy_calc_total P cv n pkt e :
  proxy_ok e → is_u64 (Packet.addr pkt) → Packet.getAddr pkt = Some (Packet.addr pkt) →
  ∃ e' c, proxy_calculatePrefetch P cv n pkt e = Some (e', c).
Proof.
  intros He Ha Hg. unfold proxy_calculatePrefetch.
  destruct (Request.pc (Packet.req pkt)) as [pc|]; [|by do 2 eexists].
  destruct (negb _); [by do 2 eexists|]. rewrite Hg. cbn [mbind option_bind].
  set (v := proxy_view cv n). set (st := mkAccessStat _ _ _ _).
  assert (up_ok (default prefetch_init e)) as Hu
    by (destruct e; [by apply He|apply up_ok_init]).
  assert (stat_ok st) as Hst by (split; [apply u64_range|done]).
  pose proof (up_ok_safe v _ st Hst Hu) as Hsafe.
  destruct (prefetch_access v (default prefetch_init e) st) as [u calls]. cbn in Hsafe.
  destruct (sim_calls_total P no_calc calls Hsafe) as [c ->]. by do 2 eexists.
Qed.

Lemma proxy_calc_ok P cv n pkt e e' c :
  proxy_ok e → is_u64 (Packet.addr pkt) →
  proxy_calculatePrefetch P cv n pkt e = Some (e', c) →
  proxy_ok e' ∧ Forall (λ a, a <= MAX_PHYS_MEM_ADDR) (addresses c).
Proof.
  intros He Ha Ec. unfold proxy_calculatePrefetch in Ec.
  destruct (Request.pc (Packet.req pkt)) as [pc|]; [|injection Ec as <- <-; split; [done|constructor]].
  destruct (negb _); [injection Ec as <- <-; split; [done|constructor]|].
  destruct (Packet.getAddr pkt) as [a|] eqn:Hg; [|done]. cbn [mbind option_bind] in Ec.
  assert (a = Packet.addr pkt) as ->.
  { unfold Packet.getAddr in Hg. destruct (Flags.isSet _ _); [by injection Hg as <-|done]. }
  set (v := proxy_view cv n) in Ec. set (st := mkAccessStat _ _ _ _) in Ec.
  assert (up_ok (default prefetch_init e)) as Hu
    by (destruct e; [by apply He|apply up_ok_init]).
  assert (stat_ok st) as Hst by (split; [apply u64_range|done]).
  pose proof (up_ok_access v _ st Hst Hu) as Hok.
  destruct (prefetch_access v (default prefetch_init e) st) as [u calls]. cbn in Hok.
  destruct (sim_calls P no_calc calls) as [c1|] eqn:Es; [|done]. injection Ec as <- <-.
  destruct (sim_calls_spec P no_calc calls c1) as (_ & _ & _ & Had & Hmax); [constructor|constructor|done|done|].
  split; [by intros x [= <-]|]. rewrite Had. cbn. apply Forall_fmap. eapply Forall_impl; [exact Hmax|].
  cbn. intros a Hle. pose proof (u64_range a). rewrite align_block_eq by done.
  pose proof (Z.mod_pos_bound (u64 a) 64). lia.
Qed.

Lemma proxy_reach_ok P now s :
  pf_reach P now s →
  proxy_ok (engine s) ∧ Forall (λ p, Packet.addr p <= MAX_PHYS_MEM_ADDR) (pf s).
Proof.
  induction 1 as [|now s cv ct pkt t s' cs r _ [IHe IHq] Hnt Hlt Ha En
                 |now s _ [IHe IHq]|now s pkt s' cs _ [IHe IHq] Ec].
  - split; [done|constructor].
  - destruct (notify_cases _ _ _ _ _ _ _ _ _ En) as [[-> _]|(q & e & c & Ec & <- & _ & _ & Hm)]; [done|].
    destruct (proxy_calc_ok _ _ _ _ _ _ _ IHe Ha Ec) as [He Hmax]. split; [done|].
    rewrite Forall_forall in IHq. rewrite Forall_forall in Hmax. apply Forall_forall. intros p Hp.
    destruct (Hm (Packet.addr p)) as [(x & -> & Hx)%list_elem_of_fmap|Hin];
      [by apply list_elem_of_fmap_2|by apply IHq|by apply Hmax].
  - destruct s as [[|p q] e st]; cbn in *; [done|]. by apply Forall_cons in IHq as [_ ?].
  - destruct s as [q e st]. unfold complete in Ec. cbn [engine pf stats] in *.
    destruct (prefetchComplete pkt e) as [[e1 c]|] eqn:Ep; [|done].
    injection Ec as <- <-. split; [|done]. cbn in Ep |- *. unfold proxy_prefetchComplete in Ep.
    destruct e as [u|]; [|done]. cbn [mbind option_bind] in Ep.
    destruct (Packet.getAddr pkt) as [a|]; [|done]. cbn [mbind option_bind] in Ep.
    pose proof (up_ok_complete u a (IHe u eq_refl)) as Hok.
    destruct (prefetch_complete u a) as [u' calls]. destruct (decide _); [|done].
    injection Ep as <- <-. by intros x [= <-].
Qed.

End Safe.

(** C16. A user prefetcher that keeps its prefetches inside the physical memory
    never stops the simulation: every notification in every reachable state
    succeeds, and every queued prefetch is inside the physical memory. *)
Theorem proxy_never_fatal {U : UserPrefetcher} {S : SafePrefetcher U} P now s cv curTick pkt t :
  params_ok P → blkSize P = 64 → serialSquash P = false →
  pf_reach (E := @ProxyEngine U) P now s → now <= t → t + latency P < 2 ^ 63 → is_u64 (Packet.addr pkt) →
  Packet.getAddr pkt = Some (Packet.addr pkt) →
  ∃ s' cs r, notify (E := @ProxyEngine U) P cv curTick pkt t s = Some (s', cs, r) ∧
    Forall (λ p, Packet.addr p <= MAX_PHYS_MEM_ADDR) (pf s').
Proof.
  intros HP Hb Hss Hr Hnt Hlt Ha Hg.
  destruct (proxy_reach_ok P now s Hr) as [He Hq].
  assert (∃ s' cs r, notify P cv curTick pkt t s = Some (s', cs, r)) as (s' & cs & r & En).
  { destruct (pf_reach_ok (B := ProxyBlocks) P HP Hb now s Hr) as (H0 & _ & Hqo & Hst).
    destruct s as [q0 e0 st0]. unfold notify. cbn [pf engine stats] in *.
    destruct (_ && _); [|by do 3 eexists]. rewrite Hg. cbn [mbind option_bind].
    destruct (remove_missed_ok now q0 st0 (block_of P (Packet.addr pkt)) Hqo Hst)
      as (Hq1 & Hst1 & _).
    destruct (remove_missed _ _ _ _) as [q1 st1]. cbn in Hq1, Hst1. rewrite Hss.
    cbn [mbind option_bind].
    destruct (proxy_calc_total P cv (Z.of_nat (length q1)) pkt e0 He Ha Hg) as (e & c & Ec).
    change (calculatePrefetch P cv (Z.of_nat (length q1)) pkt e0 = Some (e, c)) in Ec. rewrite Ec.
    cbn [mbind option_bind].
    destruct (proxy_engine_blocks _ _ _ _ _ _ _ Hb Ha Ec) as [Hbl Hdl]. rewrite Hdl.
    set (st2 := mkPfStats _ _ _ _ _ _).
    destruct (insert_candidates_ok HP curTick pkt t (addresses c) q1 st2)
      as (q3 & st3 & Ei & _); [by eapply pfq_ok_later|done|done|lia|done|].
    rewrite Ei. by do 3 eexists. }
  exists s', cs, r. split; [done|].
  destruct (proxy_reach_ok P t s') as [_ ?]; [by eapply pf_notified|done].
Qed.

(** The configuration of the contest: a queue of 100 prefetches of 64-byte blocks. *)
Definition contest_params : PfParams := mkPfParams 100 64 true false false 10 1 true.
Definition empty_cache : CacheView := mkCacheView (λ _, false) (λ _, false) (λ _, false).
Definition load (p a : Z) : Packet.t :=
  Packet.mk 0xf00 ReadReq (Request.mk (Some a) None (Some 4) 0 0 None (Some (0, 0)) (Some p))
    None a 4 3 (-1) InvalidCmd 0 None.

Lemma contest_params_ok : params_ok contest_params.
Proof. split_and!; [cbn; lia|cbn; lia|cbn; lia|]. by exists 6. Qed.

Lemma proxy_never_fatal_witness :
  ∃ s' cs r, notify contest_params empty_cache 5 (load 400 (2 ^ 28 - 64)) 7
               (Prefetcher_new (E := @ProxyEngine DcptPrefetcher)) = Some (s', cs, r) ∧
    Forall (λ p, Packet.addr p <= MAX_PHYS_MEM_ADDR) (pf s').
Proof.
  apply (proxy_never_fatal (S := DcptSafe) contest_params 0);
    [apply contest_params_ok|done|done|apply pf_start|done|done|done|done].
Defined.

(** ** The sequential prefetcher through the proxy *)

(** The prefetcher after one miss at address 4096. *)
Definition ts_demo : PfState (option unit) :=
  match notify (E := @ProxyEngine TsPrefetcher) contest_params empty_cache 5 (load 400 4096) 7
          Prefetcher_new with
  | Some (s, _, _) => s
  | None => Prefetcher_new (E := @ProxyEngine TsPrefetcher)
  end.

Lemma ts_demo_reach : pf_reach (E := @ProxyEngine TsPrefetcher) contest_params 7 ts_demo.
Proof.
  apply (pf_notified (E := @ProxyEngine TsPrefetcher) contest_params 0 Prefetcher_new empty_cache 5 (load 400 4096) 7 _ [] 17);
    [apply pf_start|done|done|done|vm_compute; reflexivity].
Qed.

Lemma pf_queue_invariant_witness :
  True ∧ pfq_ok contest_params 7 (pf ts_demo) ∧ stats_ok (pf ts_demo) (stats ts_demo).
Proof.
  apply (pf_queue_invariant (E := @ProxyEngine TsPrefetcher) (B := ProxyBlocks) contest_params 7 ts_demo);
    [apply contest_params_ok|reflexivity|exact ts_demo_reach].
Defined.

Lemma pf_notify_spec_witness :
  ∃ s', notify (E := @ProxyEngine TsPrefetcher) contest_params empty_cache 8 (load 400 4288) 9 ts_demo
          = Some (s', [], notify_result (pf s')) ∧ 4736 ∈ Packet.addr <$> pf s'.
Proof.
  destruct (pf_notify_spec (E := @ProxyEngine TsPrefetcher) (B := ProxyBlocks) contest_params 7 ts_demo empty_cache 8 (load 400 4288) 9
    (Some tt) (mkCalc [4480; 4544; 4608; 4672; 4736] (replicate 5 10) [] 0))
    as (s' & H & _ & _ & _ & Hl);
    [apply contest_params_ok|reflexivity|reflexivity|exact ts_demo_reach|done|done|done|reflexivity
    |reflexivity|reflexivity|vm_compute; reflexivity|].
  exists s'. split; [exact H|]. by apply Hl.
Defined.

Section TsFacts.

Lemma ts_block_offset i : 0 <= i < 5 → u32 (BLOCK_SIZE * (i + DISTANCE)) = 64 * (i + 3).
Proof. intros. apply u32_small. unfold BLOCK_SIZE, DISTANCE. ilia. Qed.

Lemma prefetch_several_issued v a :
  issued (prefetch_several v a) =
  filter (λ x, in_cache v x = false) ((λ i, u64 (a + 64 * (i + 3))) <$> seqZ 0 5).
Proof.
  unfold prefetch_several, DEGREE.
  assert (Forall (λ i, 0 <= i < 5) (seqZ 0 5)) as Hall by (apply Forall_seqZ; lia).
  set (f := λ i, _). induction Hall as [|i l Hi Hl IH]; [done|].
  assert (omap f (i :: l) = match f i with Some y => y :: omap f l | None => omap f l end) as -> by done.
  rewrite fmap_cons, filter_cons. subst f. cbn beta zeta in *. rewrite ts_block_offset by done.
  destruct (in_cache v (u64 (a + 64 * (i + 3)))), (decide _); try done. by rewrite issued_cons, IH.
Qed.

End TsFacts.

(** The sequential prefetcher, on a miss or on a first hit to a prefetched
    block, issues prefetches of the five blocks at distances 3 to 7 that are not
    cached, and nothing otherwise; through the proxy, a miss within the last
    seven blocks of the physical memory (to a block whose followers are not
    cached) is a fatal error. *)
Theorem ts_prefetches v s st :
  (miss st = true ∨ get_prefetch_bit v (mem_addr st) = true →
   issued (ts_access v s st).2 =
   filter (λ x, in_cache v x = false) ((λ i, u64 (mem_addr st + 64 * (i + 3))) <$> seqZ 0 5)) ∧
  (miss st = false → get_prefetch_bit v (mem_addr st) = false → (ts_access v s st).2 = []) ∧
  ∀ P cv n pkt e pc, Request.pc (Packet.req pkt) = Some pc →
    Request.hasContextId (Packet.req pkt) = true → Packet.getAddr pkt = Some (Packet.addr pkt) →
    MAX_PHYS_MEM_ADDR - 64 * 7 < Packet.addr pkt <= MAX_PHYS_MEM_ADDR →
    (∀ a, inCache cv a = false) →
    proxy_calculatePrefetch (U := TsPrefetcher) P cv n pkt e = None.
Proof.
  split_and!.
  - intros Hm. unfold ts_access. cbn [snd].
    destruct (miss st); [apply prefetch_several_issued|].
    destruct Hm as [|Hb]; [done|]. rewrite Hb. apply prefetch_several_issued.
  - intros Hm Hb. unfold ts_access. by rewrite Hm, Hb.
  - intros P cv n pkt e pc Hpc Hctx Hg Ha Hc. unfold proxy_calculatePrefetch.
    rewrite Hpc, Hctx, Hg. cbn [negb mbind option_bind].
    change (@prefetch_access TsPrefetcher) with ts_access. unfold ts_access.
    cbn [miss]. rewrite Hc. cbn [negb].
    destruct (sim_calls P no_calc _) as [c|] eqn:Es; [|done]. exfalso.
    apply sim_calls_spec in Es as (_ & _ & _ & _ & Hmax); [|constructor|constructor|done].
    rewrite prefetch_several_issued, Forall_forall in Hmax. unfold MAX_PHYS_MEM_ADDR in *.
    assert (u64 (u64 (Packet.addr pkt + 64 * (4 + 3))) = Packet.addr pkt + 448) as Hx by ilia.
    specialize (Hmax (u64 (Packet.addr pkt + 64 * (4 + 3)))). cbn beta in Hmax.
    rewrite Hx in Hmax.
    assert (Packet.addr pkt + 448 <= 256 * 1024 * 1024 - 1); [|lia]. apply Hmax.
    apply list_elem_of_filter. split; [apply Hc|].
    apply list_elem_of_fmap. exists 4. split; [done|]. apply elem_of_seqZ. lia.
Qed.

Lemma ts_prefetches_witness :
  issued (ts_access (proxy_view empty_cache 0) tt (mkAccessStat 400 4096 0 true)).2
  = [4288; 4352; 4416; 4480; 4544].
Proof.
  rewrite (proj1 (ts_prefetches (proxy_view empty_cache 0) tt (mkAccessStat 400 4096 0 true)));
    [vm_compute; reflexivity|by left].
Defined.

(** ** DCPT through the queue *)

Section DcptQueue.

Lemma filter_step_mono v lp acc a : acc.1 ⊆ (filter_step v lp acc a).1.
Proof.
  destruct acc as [inf ps]. unfold filter_step. destruct (prefetch_wanted v inf a); [|done].
  destruct (_ <? _); cbn; set_solver.
Qed.

Lemma dcpt_access_mono v s st : in_flight s ⊆ in_flight (dcpt_access v s st).1.
Proof.
  unfold dcpt_access. destruct (negb _); [done|]. destruct (negb _); [|done].
  set (e := set_last_address _ _).
  assert (in_flight s ⊆ (prefetch_filter v (in_flight s) e (delta_correlation e)).1) as H.
  { unfold prefetch_filter.
    assert (in_flight s ⊆ (in_flight s, @nil Z).1) as H0 by done. revert H0.
    generalize (in_flight s, @nil Z). induction (delta_correlation e) as [|a l IH]; [done|].
    intros acc Ha. cbn. apply IH. etrans; [exact Ha|apply filter_step_mono]. }
  by destruct (prefetch_filter _ _ _ _) as [inf ps].
Qed.

End DcptQueue.

(** No notification ever takes a block out of DCPT's in-flight set: a
    prefetch that leaves the queue because it is evicted or because its block is
    demanded, and which therefore never completes, stays in flight. *)
Theorem dcpt_never_forgets P cv curTick pkt t
    (s s' : PfState (option Dcpt)) cs r u :
  notify (E := @ProxyEngine DcptPrefetcher) P cv curTick pkt t s = Some (s', cs, r) →
  engine s = Some u →
  ∃ u', engine s' = Some u' ∧ in_flight u ⊆ in_flight u'.
Proof.
  intros En Hu. destruct (notify_cases _ _ _ _ _ _ _ _ _ En) as [[-> _]|(q & e & c & Ec & <- & _)];
    [by exists u|].
  destruct s as [q0 e0 st0]. cbn [engine] in *. subst e0.
  change (proxy_calculatePrefetch (U := DcptPrefetcher) P cv (Z.of_nat (length q)) pkt (Some u)
          = Some (engine s', c)) in Ec. unfold proxy_calculatePrefetch in Ec.
  destruct (Request.pc (Packet.req pkt)) as [pc|]; [|injection Ec as <- _; by exists u].
  destruct (negb _); [injection Ec as <- _; by exists u|].
  destruct (Packet.getAddr pkt) as [a|]; [|done]. cbn [mbind option_bind] in Ec.
  set (v := proxy_view cv _) in Ec. set (st := mkAccessStat _ _ _ _) in Ec.
  pose proof (dcpt_access_mono v u st) as Hm.
  change (@prefetch_access DcptPrefetcher v (default prefetch_init (Some (u : @upstate DcptPrefetcher))) st)
    with (dcpt_access v u st) in Ec.
  destruct (dcpt_access v u st) as [u' calls]. cbn in Hm.
  destruct (sim_calls P no_calc calls) as [c1|]; [|done]. injection Ec as <- _. by exists u'.
Qed.

(** A queued prefetch of the block at 4096, and the state after its block is
    demanded. *)
Definition dcpt_demo : PfState (option Dcpt) :=
  mkPrefetcher [load 0 4096] (Some (mkDcpt (table Dcpt_globals) {[4096]})) (mkPfStats 1 0 0 0 0 0).
Definition dcpt_demo_after : PfState (option Dcpt) :=
  match notify (E := @ProxyEngine DcptPrefetcher) contest_params empty_cache 8 (load 400 4100) 9
          dcpt_demo with
  | Some (s, _, _) => s
  | None => dcpt_demo
  end.

Lemma dcpt_never_forgets_witness :
  pf dcpt_demo_after = [] ∧ ∃ u', engine dcpt_demo_after = Some u' ∧ 4096 ∈ in_flight u'.
Proof.
  split; [vm_compute; reflexivity|].
  destruct (dcpt_never_forgets contest_params empty_cache 8 (load 400 4100) 9 dcpt_demo
    dcpt_demo_after [] 0 (mkDcpt (table Dcpt_globals) {[4096]})) as (u & Hu & Hs);
    [vm_compute; reflexivity|reflexivity|].
  exists u. split; [exact Hu|]. apply Hs. cbn. set_solver.
Defined.
