(* ===== verification/PfEngines.v ===== *)
(** The prefetch engines of the simulator itself: [tagged.cc], [sequential.cc],
    [ghb.cc], [stride.cc] and [cppinterface.cc] with [outer_impl.cc], all under
    [src/m5/src/mem/cache/prefetch/].

    The product of an [int] and a stride is checked for overflow ([int_chk]).  The
    miss history of [GHBPrefetcher] is not initialised by its constructor; it is
    zero here. *)

From S2P Require Import Prelude IntMath PfInterface Packet PfQueue.

Definition Max_Contexts : Z := 64.

Definition push_address (P : PfParams) (c : Calc) (a : Z) : Calc :=
  mkCalc (addresses c ++ [a]) (delays c ++ [latency P]) (bit_calls c) (span_page c).

(** The loop [for (int d = 1; d <= degree; d++)] of three of the engines. *)
Fixpoint degree_loop (P : PfParams) (fuel : nat) (d blk_addr stride : Z) (c : Calc) : option Calc :=
  match fuel with
  | O => Some c
  | S fuel =>
      off ← int_chk (d * stride);
      let new_addr := u64 (blk_addr + off) in
      if pageStop P && negb (samePage blk_addr new_addr)
      then Some (mkCalc (addresses c) (delays c) (bit_calls c) (span_page c + (degree P - d + 1)))
      else degree_loop P fuel (d + 1) blk_addr stride (push_address P c new_addr)
  end.

Definition degree_run (P : PfParams) (blk_addr stride : Z) : option Calc :=
  degree_loop P (Z.to_nat (degree P)) 1 blk_addr stride no_calc.

(** A request without a context when contexts are told apart. *)
Definition no_context (P : PfParams) (pkt : Packet.t) : bool :=
  useContextId P && negb (Request.hasContextId (Packet.req pkt)).

(** [useContextId ? pkt->req->contextId() : 0], checked against [Max_Contexts]
    (a negative id would index before the array). *)
Definition context_of (P : PfParams) (pkt : Packet.t) : option nat :=
  ctx_id ← (if useContextId P then Request.contextId (Packet.req pkt) else Some 0);
  if (0 <=? ctx_id) && (ctx_id <? Max_Contexts) then Some (Z.to_nat ctx_id) else None.

(** ** Tagged and sequential prefetching *)

Definition tagged_calculate (P : PfParams) (cv : CacheView) (n : Z) (pkt : Packet.t) (s : unit)
    : option (unit * Calc) :=
  a ← Packet.getAddr pkt;
  let blkAddr := block_of P a in
  if no_context P pkt then Some (s, no_calc)
  else c ← degree_run P blkAddr (blkSize P); Some (s, c).

Definition sequential_calculate (P : PfParams) (cv : CacheView) (n : Z) (pkt : Packet.t) (s : unit)
    : option (unit * Calc) :=
  a ← Packet.getAddr pkt;
  let addr := u64 (block_of P a + blkSize P) in
  if no_context P pkt then Some (s, no_calc)
  else if Request.isPrefetch (Packet.req pkt) then Some (s, no_calc)
  else if inCache cv addr then Some (s, no_calc)
  else Some (s, push_address P no_calc addr).

(** [BasePrefetcher::prefetchComplete] does nothing. *)
Definition base_complete {A} (pkt : Packet.t) (s : A) : option (A * list SimCall) := Some (s, []).

Definition TaggedPrefetcher : PfEngine := {|
  pstate := unit; pf_init := tt;
  calculatePrefetch := tagged_calculate; prefetchComplete := base_complete |}.

Definition SequentialPrefetcher : PfEngine := {|
  pstate := unit; pf_init := tt;
  calculatePrefetch := sequential_calculate; prefetchComplete := base_complete |}.

(** ** Global history *)

Record GHB := mkGHB {
  secondLastMissAddr : list Z;
  ghb_lastMissAddr : list Z
}.

Definition GHB_new : GHB :=
  mkGHB (replicate (Z.to_nat Max_Contexts) 0) (replicate (Z.to_nat Max_Contexts) 0).

Definition ghb_calculate (P : PfParams) (cv : CacheView) (n : Z) (pkt : Packet.t) (s : GHB)
    : option (GHB * Calc) :=
  if no_context P pkt then Some (s, no_calc)
  else
    a ← Packet.getAddr pkt;
    let blk_addr := block_of P a in
    ctx ← context_of P pkt;
    last ← ghb_lastMissAddr s !! ctx;
    second ← secondLastMissAddr s !! ctx;
    let new_stride := s32 (u64 (blk_addr - last)) in
    let old_stride := s32 (u64 (last - second)) in
    let s := mkGHB (<[ctx := last]> (secondLastMissAddr s)) (<[ctx := blk_addr]> (ghb_lastMissAddr s)) in
    if new_stride =? old_stride
    then c ← degree_run P blk_addr new_stride; Some (s, c)
    else Some (s, no_calc).

Definition GHBPrefetcher : PfEngine := {|
  pstate := GHB; pf_init := GHB_new;
  calculatePrefetch := ghb_calculate; prefetchComplete := base_complete |}.

(** ** Strides by instruction *)

Definition Max_Conf : Z := 2 ^ 31 - 1.
Definition Min_Conf : Z := - 2 ^ 31.
Definition stride_table_size : nat := 256.

Record StrideEntry := mkStrideEntry {
  instAddr : Z;
  missAddr : Z;
  stride : Z;
  confidence : Z
}.

Abbreviation StrideTable := (list (list StrideEntry)).

(** The entry after a hit with the block of the miss. *)
Definition stride_hit (e : StrideEntry) (blk_addr : Z) : StrideEntry :=
  let new_stride := s32 (u64 (blk_addr - missAddr e)) in
  let stride_match := new_stride =? stride e in
  if stride_match && negb (new_stride =? 0) then
    mkStrideEntry (instAddr e) blk_addr (stride e)
      (if confidence e <? Max_Conf then confidence e + 1 else confidence e)
  else
    mkStrideEntry (instAddr e) blk_addr new_stride
      (if Min_Conf <? confidence e then 0 else confidence e).

(** The position of the first entry of lowest confidence. *)
Fixpoint min_conf_pos (best : nat) (min_conf : Z) (i : nat) (tab : list StrideEntry) : nat :=
  match tab with
  | [] => best
  | e :: tab =>
      if confidence e <? min_conf then min_conf_pos i (confidence e) (S i) tab
      else min_conf_pos best min_conf (S i) tab
  end.

Definition stride_evict (tab : list StrideEntry) : list StrideEntry :=
  if (stride_table_size <=? length tab)%nat then
    match tab with
    | [] => tab
    | e :: rest => delete (min_conf_pos 0 (confidence e) 1 rest) tab
    end
  else tab.

Definition stride_calculate (P : PfParams) (cv : CacheView) (n : Z) (pkt : Packet.t)
    (s : StrideTable) : option (StrideTable * Calc) :=
  match Request.pc (Packet.req pkt) with
  | None => Some (s, no_calc)
  | Some pc =>
      if no_context P pkt then Some (s, no_calc)
      else
        a ← Packet.getAddr pkt;
        let blk_addr := block_of P a in
        ctx ← context_of P pkt;
        tab ← s !! ctx;
        match list_find (λ e, instAddr e = pc) tab with
        | Some (i, e) =>
            let e' := stride_hit e blk_addr in
            let s := <[ctx := <[i := e']> tab]> s in
            if confidence e' <=? 0 then Some (s, no_calc)
            else c ← degree_run P blk_addr (s32 (u64 (blk_addr - missAddr e))); Some (s, c)
        | None =>
            let tab := stride_evict tab ++ [mkStrideEntry pc blk_addr 0 0] in
            Some (<[ctx := tab]> s, no_calc)
        end
  end.

Definition StridePrefetcher : PfEngine := {|
  pstate := StrideTable; pf_init := replicate (Z.to_nat Max_Contexts) [];
  calculatePrefetch := stride_calculate; prefetchComplete := base_complete |}.

(** ** The C++ interface *)

(** [Prefetcher::notify] of [outer_impl.cc], with [queuePrefetch]. *)
Definition outer_notify (P : PfParams) (hit : bool) (address : Z) : option Calc :=
  if hit then Some no_calc
  else foldl (λ o i, c ← o; off ← int_chk (blkSize P * i);
                Some (push_address P c (u64 (address + off))))
         (Some no_calc) (seqZ 1 8).

Definition interface_calculate (P : PfParams) (cv : CacheView) (n : Z) (pkt : Packet.t) (s : unit)
    : option (unit * Calc) :=
  if no_context P pkt then Some (s, no_calc)
  else match Request.pc (Packet.req pkt) with
  | None => Some (s, no_calc)
  | Some _ =>
      a ← Packet.getAddr pkt;
      c ← outer_notify P (inCache cv a) a;
      Some (s, c)
  end.

Definition InterfacePrefetcher : PfEngine := {|
  pstate := unit; pf_init := tt;
  calculatePrefetch := interface_calculate; prefetchComplete := base_complete |}.

(** ** Whole blocks *)

Section Blocks.
Context {P : PfParams} (HP : params_ok P).

Definition on_block (a : Z) : Prop := a mod blkSize P = 0.

Lemma blkSize_pos : 0 < blkSize P < 2 ^ 31.
Proof. destruct HP as (_ & _ & k & Hk & ->). by apply pow2_pos_lt. Qed.

Lemma on_block_iff a : is_u64 a → block_of P a = a ↔ on_block a.
Proof.
  intros Ha. rewrite (block_of_arith HP) by done. unfold on_block.
  pose proof (Z.mod_pos_bound a (blkSize P)). pose proof blkSize_pos. lia.
Qed.

Lemma block_of_on a : is_u64 a → is_u64 (block_of P a) ∧ on_block (block_of P a).
Proof.
  intros Ha. destruct (block_of_idem HP a Ha) as [Hi Hu]. split; [done|]. by apply on_block_iff.
Qed.

Lemma on_block_add a b : on_block a → on_block b → on_block (a + b).
Proof.
  unfold on_block. intros Ha Hb. rewrite Zplus_mod, Ha, Hb. apply Zmod_0_l.
Qed.

Lemma on_block_sub a b : on_block a → on_block b → on_block (a - b).
Proof.
  unfold on_block. intros Ha Hb. rewrite Zminus_mod, Ha, Hb. apply Zmod_0_l.
Qed.

Lemma on_block_mul a b : on_block b → on_block (a * b).
Proof. unfold on_block. intros Hb. rewrite Zmult_mod, Hb, Z.mul_0_r. apply Zmod_0_l. Qed.

Lemma on_block_pow w : 31 <= w → on_block (2 ^ w).
Proof.
  intros Hw. destruct HP as (_ & _ & k & Hk & E). unfold on_block. rewrite E.
  replace w with (w - k + k) by lia. rewrite Z.pow_add_r by lia. apply Z_mod_mult.
Qed.

(** Reduction modulo a power of two that a block divides. *)
Lemma on_block_mod a w : 31 <= w → on_block a → on_block (a mod 2 ^ w).
Proof.
  intros Hw Ha. rewrite Z.mod_eq by lia. apply on_block_sub; [done|].
  rewrite Z.mul_comm. apply on_block_mul, on_block_pow. done.
Qed.

Lemma on_block_u64 a : on_block a → on_block (u64 a).
Proof. apply on_block_mod. lia. Qed.

Lemma on_block_s32 a : on_block a → on_block (s32 a).
Proof.
  intros Ha. unfold s32, wrapS. apply on_block_sub; [|apply on_block_pow; lia].
  apply on_block_mod; [lia|]. apply on_block_add; [done|]. apply on_block_pow. lia.
Qed.

Lemma on_block_size : on_block (blkSize P).
Proof. unfold on_block. apply Z_mod_same_full. Qed.

(** The lists of a calculation: whole blocks and one latency each. *)
Definition calc_ok (c : Calc) : Prop :=
  Forall (λ a, is_u64 a ∧ block_of P a = a) (addresses c) ∧
  delays c = replicate (length (addresses c)) (latency P).

Lemma no_calc_ok : calc_ok no_calc.
Proof. split; [constructor|done]. Qed.

Lemma push_address_ok c a : calc_ok c → is_u64 a → on_block a → calc_ok (push_address P c a).
Proof.
  intros [Ha Hd] Hu Hb. split; cbn.
  - apply Forall_app_2; [done|]. constructor; [|constructor]. split; [done|]. by apply on_block_iff.
  - by rewrite length_app, replicate_add, Hd.
Qed.

Lemma int_chk_Some_eq x y : int_chk x = Some y → y = x.
Proof. unfold int_chk. destruct (_ && _); [by intros [= <-]|done]. Qed.

Lemma degree_loop_ok fuel d blk str c c' :
  on_block blk → on_block str → calc_ok c →
  degree_loop P fuel d blk str c = Some c' → calc_ok c'.
Proof.
  intros Hb Hs. revert d c. induction fuel as [|fuel IH]; intros d c Hc E; cbn in E.
  { by injection E as <-. }
  destruct (int_chk (d * str)) as [off|] eqn:Eo; [|done]. apply int_chk_Some_eq in Eo as ->.
  cbn [mbind option_bind] in E. destruct (_ && _); [by injection E as <-|].
  apply IH in E; [done|]. apply push_address_ok; [done|apply u64_range|].
  apply on_block_u64, on_block_add; [done|]. by apply on_block_mul.
Qed.

Lemma degree_run_ok blk str c : on_block blk → on_block str → degree_run P blk str = Some c → calc_ok c.
Proof. intros Hb Hs. apply degree_loop_ok; [done|done|apply no_calc_ok]. Qed.

Lemma tagged_ok cv n pkt s s' c :
  is_u64 (Packet.addr pkt) → tagged_calculate P cv n pkt s = Some (s', c) → calc_ok c.
Proof.
  intros Ha E. unfold tagged_calculate, Packet.getAddr in E.
  destruct (Flags.isSet _ _); [|done]. cbn [mbind option_bind] in E.
  destruct (no_context P pkt); [injection E as <- <-; apply no_calc_ok|].
  destruct (degree_run _ _ _) as [c1|] eqn:Ed; [|done]. injection E as <- <-.
  eapply degree_run_ok; [| |exact Ed]; [by apply block_of_on|apply on_block_size].
Qed.

Lemma sequential_ok cv n pkt s s' c :
  is_u64 (Packet.addr pkt) → sequential_calculate P cv n pkt s = Some (s', c) → calc_ok c.
Proof.
  intros Ha E. unfold sequential_calculate, Packet.getAddr in E.
  destruct (Flags.isSet _ _); [|done]. cbn [mbind option_bind] in E.
  destruct (no_context P pkt); [injection E as <- <-; apply no_calc_ok|].
  destruct (Request.isPrefetch _); [injection E as <- <-; apply no_calc_ok|].
  destruct (inCache cv _); injection E as <- <-; [apply no_calc_ok|].
  apply push_address_ok; [apply no_calc_ok|apply u64_range|].
  apply on_block_u64, on_block_add; [by apply block_of_on|apply on_block_size].
Qed.

(** The history of misses holds block addresses. *)
Definition ghb_ok (s : GHB) : Prop :=
  length (secondLastMissAddr s) = Z.to_nat Max_Contexts ∧
  length (ghb_lastMissAddr s) = Z.to_nat Max_Contexts ∧
  Forall (λ a, is_u64 a ∧ on_block a) (secondLastMissAddr s) ∧
  Forall (λ a, is_u64 a ∧ on_block a) (ghb_lastMissAddr s).

Lemma ghb_new_ok : ghb_ok GHB_new.
Proof.
  unfold ghb_ok, GHB_new. cbn [secondLastMissAddr ghb_lastMissAddr]. rewrite length_replicate.
  split_and!; [done|done|..]; apply Forall_replicate; (split; [ilia|apply Zmod_0_l]).
Qed.

Lemma ghb_calculate_ok cv n pkt s s' c :
  ghb_ok s → is_u64 (Packet.addr pkt) → ghb_calculate P cv n pkt s = Some (s', c) →
  ghb_ok s' ∧ calc_ok c.
Proof.
  intros Hs Ha E. pose proof no_calc_ok as Hno. unfold ghb_calculate, Packet.getAddr in E.
  destruct (no_context P pkt); [by injection E as <- <-|].
  destruct (Flags.isSet _ _); [|done]. cbn [mbind option_bind] in E.
  destruct (context_of P pkt) as [ctx|]; [|done]. cbn [mbind option_bind] in E.
  destruct (ghb_lastMissAddr s !! ctx) as [l|] eqn:El; [|done]. cbn [mbind option_bind] in E.
  destruct (secondLastMissAddr s !! ctx) as [sl|] eqn:Esl; [|done]. cbn [mbind option_bind] in E.
  destruct (block_of_on (Packet.addr pkt) Ha) as [Hbu Hbb].
  destruct Hs as (L1 & L2 & F1 & F2).
  destruct (proj1 (Forall_lookup _ _) F2 ctx l El) as [Hlu Hlb].
  assert (ghb_ok (mkGHB (<[ctx := l]> (secondLastMissAddr s))
                    (<[ctx := block_of P (Packet.addr pkt)]> (ghb_lastMissAddr s)))) as Hs'
    by (unfold ghb_ok; cbn; rewrite !length_insert; split_and!; try done; by apply Forall_insert).
  destruct (_ =? _); [|by injection E as <- <-].
  destruct (degree_run _ _ _) as [c1|] eqn:Ed; [|done]. injection E as <- <-. split; [done|].
  eapply degree_run_ok; [| |exact Ed]; [done|].
  apply on_block_s32, on_block_u64. by apply on_block_sub.
Qed.

End Blocks.

(** ** The stride table *)

Section Stride.
Context {P : PfParams} (HP : params_ok P).

Definition stride_entry_ok (e : StrideEntry) : Prop :=
  is_u64 (missAddr e) ∧ on_block (P := P) (missAddr e) ∧ is_s32 (stride e) ∧
  0 <= confidence e <= Max_Conf.

Definition stride_tab_ok (tab : list StrideEntry) : Prop :=
  (length tab ≤ stride_table_size)%nat ∧ NoDup (instAddr <$> tab) ∧ Forall stride_entry_ok tab.

Definition stride_ok (s : StrideTable) : Prop :=
  length s = Z.to_nat Max_Contexts ∧ Forall stride_tab_ok s.

Lemma stride_new_ok : stride_ok (replicate (Z.to_nat Max_Contexts) []).
Proof.
  split; [apply length_replicate|]. apply Forall_replicate. split_and!; [cbn; lia|constructor..].
Qed.

Lemma stride_hit_ok e b :
  stride_entry_ok e → is_u64 b → on_block (P := P) b → stride_entry_ok (stride_hit e b).
Proof.
  intros (H1 & H2 & H3 & H4) Hu Hb. unfold stride_hit, stride_entry_ok.
  destruct (_ && _); cbn; split_and!; try done; try (by apply s32_range).
  - zcase; lia.
  - zcase; unfold Max_Conf in *; lia.
  - unfold Min_Conf in *. zcase; lia.
  - unfold Min_Conf, Max_Conf in *. zcase; lia.
Qed.

Lemma stride_hit_pc e b : instAddr (stride_hit e b) = instAddr e.
Proof. unfold stride_hit. by destruct (_ && _). Qed.

(** The scan keeps the first entry of lowest confidence. *)
Definition least (tab : list StrideEntry) (i : nat) (m : StrideEntry) : Prop :=
  tab !! i = Some m ∧
  (∀ j x, tab !! j = Some x → confidence m <= confidence x) ∧
  ∀ j x, tab !! j = Some x → (j < i)%nat → confidence m < confidence x.

Lemma min_conf_pos_least tab pre best b :
  least pre best b →
  ∃ m, least (pre ++ tab) (min_conf_pos best (confidence b) (length pre) tab) m.
Proof.
  revert pre best b. induction tab as [|e tab IH]; intros pre best b (Hb & Hmin & Hfst); cbn.
  { exists b. rewrite app_nil_r. done. }
  replace (pre ++ e :: tab) with ((pre ++ [e]) ++ tab) by (by rewrite <- app_assoc).
  assert (length (pre ++ [e]) = S (length pre)) as Hl by (rewrite length_app; cbn; lia).
  rewrite <- Hl.
  assert (∀ j x, (pre ++ [e]) !! j = Some x → pre !! j = Some x ∨ j = length pre ∧ x = e) as Hlk.
  { intros j x [?|[? Hx]]%lookup_app_Some; [by left|right].
    apply list_lookup_singleton_Some in Hx as [? <-]. split; [lia|done]. }
  destruct (Z.ltb_spec (confidence e) (confidence b)); apply IH; split_and!.
  - by rewrite lookup_app_r, Nat.sub_diag by lia.
  - intros j x [Hx|[_ ->]]%Hlk; [|lia]. specialize (Hmin j x Hx). lia.
  - intros j x [Hx|[-> _]]%Hlk Hj; [|lia]. specialize (Hmin j x Hx). lia.
  - by apply lookup_app_l_Some.
  - intros j x [Hx|[_ ->]]%Hlk; [by eapply Hmin|lia].
  - intros j x [Hx|[-> _]]%Hlk Hj; [by eapply Hfst|]. apply lookup_lt_Some in Hb. lia.
Qed.

(** Eviction drops the least confident entry of a full table. *)
Lemma stride_evict_spec tab :
  (stride_evict tab = tab ∧ (length tab < stride_table_size)%nat) ∨
  (stride_table_size ≤ length tab)%nat ∧ ∃ i m, least tab i m ∧ stride_evict tab = delete i tab.
Proof.
  unfold stride_evict. destruct (Nat.leb_spec stride_table_size (length tab)); [|by left].
  right. split; [done|]. destruct tab as [|e rest]; [cbn in *; unfold stride_table_size in *; lia|].
  destruct (min_conf_pos_least rest [e] 0 e) as (m & Hm).
  { split_and!; [done|..]; intros [|j] x; cbn; [by intros [= <-]|done|lia|done]. }
  by exists (min_conf_pos 0 (confidence e) 1 rest), m.
Qed.

Lemma stride_evict_ok tab :
  stride_tab_ok tab →
  (length (stride_evict tab) < stride_table_size)%nat ∧ stride_evict tab `sublist_of` tab.
Proof.
  intros (Hl & _ & _). destruct (stride_evict_spec tab) as [[-> ?]|(Hge & i & m & (Hi & _) & ->)].
  - done.
  - split; [|apply sublist_delete]. apply lookup_lt_Some in Hi as Hlt.
    rewrite length_delete by eauto. lia.
Qed.

Lemma stride_replace_ok tab pc b :
  stride_tab_ok tab → is_u64 b → on_block (P := P) b → pc ∉ instAddr <$> tab →
  stride_tab_ok (stride_evict tab ++ [mkStrideEntry pc b 0 0]).
Proof.
  intros Ht Hu Hb Hpc. destruct (stride_evict_ok tab Ht) as [Hlen Hsub].
  destruct Ht as (_ & Hn & Hf). split_and!.
  - rewrite length_app. cbn. lia.
  - rewrite fmap_app. apply NoDup_app.
    assert (instAddr <$> stride_evict tab `sublist_of` instAddr <$> tab) as Hs
      by by apply fmap_sublist.
    split_and!; [by eapply sublist_NoDup| |apply NoDup_singleton].
    intros x Hx ->%list_elem_of_singleton. apply Hpc. by eapply elem_of_sublist.
  - apply Forall_app_2.
    + rewrite Forall_forall in *. intros x Hx. apply Hf. by eapply elem_of_sublist.
    + constructor; [|constructor]. split_and!; cbn; try done; unfold Max_Conf; lia.
Qed.

Lemma stride_calculate_ok cv n pkt s s' c :
  stride_ok s → is_u64 (Packet.addr pkt) → stride_calculate P cv n pkt s = Some (s', c) →
  stride_ok s' ∧ calc_ok (P := P) c.
Proof.
  intros [Hl Hf] Ha E. pose proof (no_calc_ok (P := P)) as Hno.
  unfold stride_calculate, Packet.getAddr in E.
  destruct (Request.pc (Packet.req pkt)) as [pc|]; [|by injection E as <- <-].
  destruct (no_context P pkt); [by injection E as <- <-|].
  destruct (Flags.isSet _ _); [|done]. cbn [mbind option_bind] in E.
  destruct (context_of P pkt) as [ctx|]; [|done]. cbn [mbind option_bind] in E.
  destruct (s !! ctx) as [tab|] eqn:Et; [|done]. cbn [mbind option_bind] in E.
  destruct (block_of_on HP (Packet.addr pkt) Ha) as [Hbu Hbb].
  pose proof (proj1 (Forall_lookup _ _) Hf ctx tab Et) as Htab.
  assert (∀ t, stride_tab_ok t → stride_ok (<[ctx := t]> s)) as Hset
    by (intros t Ht; split; [by rewrite length_insert|by apply Forall_insert]).
  destruct (list_find _ tab) as [[i e]|] eqn:Ef.
  - apply list_find_Some in Ef as (Hi & Hpc & _). destruct Htab as (Hlen & Hn & Hall).
    pose proof (proj1 (Forall_lookup _ _) Hall i e Hi) as He.
    assert (stride_ok (<[ctx := <[i := stride_hit e (block_of P (Packet.addr pkt))]> tab]> s)) as Hs'.
    { apply Hset. split_and!.
      - by rewrite length_insert.
      - rewrite list_fmap_insert, stride_hit_pc, list_insert_id; [done|].
        by rewrite list_lookup_fmap, Hi.
      - apply Forall_insert; [done|]. by apply stride_hit_ok. }
    destruct (_ <=? _); [by injection E as <- <-|].
    destruct (degree_run _ _ _) as [c1|] eqn:Ed; [|done]. injection E as <- <-. split; [done|].
    eapply degree_run_ok; [| | |exact Ed]; [done|done|].
    apply on_block_s32, on_block_u64, on_block_sub; [done|done|done|apply He].
  - injection E as <- <-. split; [|done]. apply Hset, stride_replace_ok; try done.
    intros (e & -> & He)%list_elem_of_fmap. apply list_find_None in Ef.
    rewrite Forall_forall in Ef. by apply (Ef e He).
Qed.

End Stride.

Lemma base_complete_ok {A} (Q : A → Prop) pkt e e' cs :
  Q e → base_complete pkt e = Some (e', cs) → Q e'.
Proof. unfold base_complete. by intros He [= <- _]. Qed.

#[export] Instance TaggedBlocks : BlockEngine TaggedPrefetcher :=
  Build_BlockEngine TaggedPrefetcher params_ok (λ _ _, True) (λ _ _, I) (λ _ _ _ _ _ _ _, I)
    (λ P cv n pkt e e' c HP _ Ha Ec, conj I (tagged_ok HP cv n pkt e e' c Ha Ec)).

#[export] Instance SequentialBlocks : BlockEngine SequentialPrefetcher :=
  Build_BlockEngine SequentialPrefetcher params_ok (λ _ _, True) (λ _ _, I) (λ _ _ _ _ _ _ _, I)
    (λ P cv n pkt e e' c HP _ Ha Ec, conj I (sequential_ok HP cv n pkt e e' c Ha Ec)).

#[export] Instance GHBBlocks : BlockEngine GHBPrefetcher :=
  Build_BlockEngine GHBPrefetcher params_ok (λ P, ghb_ok (P := P)) (λ P _, ghb_new_ok (P := P))
    (λ P, base_complete_ok (ghb_ok (P := P)))
    (λ P cv n pkt e e' c HP He Ha Ec, ghb_calculate_ok HP cv n pkt e e' c He Ha Ec).

#[export] Instance StrideBlocks : BlockEngine StridePrefetcher :=
  Build_BlockEngine StridePrefetcher params_ok (λ P, stride_ok (P := P))
    (λ P _, stride_new_ok (P := P)) (λ P, base_complete_ok (stride_ok (P := P)))
    (λ P cv n pkt e e' c HP He Ha Ec, stride_calculate_ok HP cv n pkt e e' c He Ha Ec).

(** ** What the engines propose *)

Section Degree.
Context (P : PfParams).

Definition candidate (blk str d : Z) : Z := u64 (blk + d * str).

Lemma degree_loop_spec fuel d blk str c :
  Z.of_nat fuel = degree P - d + 1 →
  (∀ i, d <= i <= degree P → is_s32 (i * str)) →
  ∃ m c', degree_loop P fuel d blk str c = Some c' ∧ (m ≤ fuel)%nat ∧
    addresses c' = addresses c ++ take m (candidate blk str <$> seqZ d (Z.of_nat fuel)) ∧
    span_page c' = span_page c + (Z.of_nat fuel - Z.of_nat m) ∧
    (pageStop P = false → m = fuel) ∧
    (pageStop P = true →
       (∀ i, d <= i < d + Z.of_nat m → samePage blk (candidate blk str i) = true) ∧
       ((m < fuel)%nat → samePage blk (candidate blk str (d + Z.of_nat m)) = false)).
Proof.
  revert d c. induction fuel as [|fuel IH]; intros d c Hf Hr.
  { exists 0%nat, c. cbn. rewrite app_nil_r. split_and!; try done; try lia. intros _. split; lia. }
  cbn [degree_loop].
  assert (int_chk (d * str) = Some (d * str)) as ->.
  { unfold int_chk. specialize (Hr d ltac:(lia)). unfold is_s32 in Hr.
    by rewrite (proj2 (Z.leb_le _ _)), (proj2 (Z.ltb_lt _ _)) by lia. }
  cbn [mbind option_bind]. change (u64 (blk + d * str)) with (candidate blk str d).
  destruct (pageStop P && negb (samePage blk (candidate blk str d))) eqn:Hp.
  - apply andb_true_iff in Hp as [Hps Hsp%negb_true_iff].
    exists 0%nat. eexists. split; [reflexivity|]. cbn [addresses span_page]. rewrite app_nil_r.
    split_and!; try done; try lia; [congruence|]. intros _. split; [lia|]. intros _.
    by rewrite Z.add_0_r.
  - destruct (IH (d + 1) (push_address P c (candidate blk str d)))
      as (m & c' & E & Hm & Hadr & Hspan & Hns & Hst); [lia|intros i Hi; apply Hr; lia|].
    exists (S m), c'. split; [done|]. split_and!; [lia| | | |].
    + rewrite Hadr. cbn [addresses push_address]. rewrite <- app_assoc. f_equal.
      rewrite (seqZ_cons d) by lia. cbn [fmap list_fmap take]. f_equal. f_equal.
      replace (Z.succ d) with (d + 1) by lia. f_equal. f_equal. lia.
    + rewrite Hspan. cbn [span_page push_address]. lia.
    + intros Hps. by rewrite Hns.
    + intros Hps. rewrite Hps in Hp. apply negb_false_iff in Hp. destruct (Hst Hps) as [H1 H2]. split.
      * intros i Hi. destruct (decide (i = d)) as [->|]; [done|]. apply H1. lia.
      * intros Hlt. rewrite <- H2 by lia. f_equal. f_equal. lia.
Qed.

End Degree.

(** The loop shared by the tagged, the global-history and the stride engine,
    as long as the products fit in an [int]: it proposes the next [degree]
    addresses of the stride, in order, or, when it has to stop at a page, the
    longest prefix of them that stays on the page of the access, and counts the
    rest in [pfSpanPage]. *)
Theorem degree_run_spec P blk str :
  0 <= degree P → (∀ i, 1 <= i <= degree P → is_s32 (i * str)) →
  let all := candidate blk str <$> seqZ 1 (degree P) in
  ∃ m c, degree_run P blk str = Some c ∧ (m ≤ length all)%nat ∧
    addresses c = take m all ∧ span_page c = degree P - Z.of_nat m ∧
    (pageStop P = false → addresses c = all) ∧
    (pageStop P = true →
       Forall (λ a, samePage blk a = true) (addresses c) ∧
       ∀ a, all !! m = Some a → samePage blk a = false).
Proof.
  intros Hd Hr all. unfold degree_run.
  destruct (degree_loop_spec P (Z.to_nat (degree P)) 1 blk str no_calc)
    as (m & c & E & Hm & Hadr & Hspan & Hns & Hst); [lia|done|].
  rewrite Z2Nat.id in * by done. cbn in Hadr, Hspan. fold all in Hadr.
  assert (length all = Z.to_nat (degree P)) as Hlen by (unfold all; by rewrite length_fmap, length_seqZ).
  exists m, c. split_and!; [done|lia|done|lia| |].
  - intros Hps. rewrite Hadr, (Hns Hps), <- Hlen. apply firstn_all.
  - intros Hps. destruct (Hst Hps) as [H1 H2]. split.
    + rewrite Hadr. apply Forall_lookup. intros i a Hi.
      apply lookup_take_Some in Hi as [Hi Him]. unfold all in Hi.
      apply list_lookup_fmap_Some in Hi as (x & -> & [-> Hx]%lookup_seqZ). apply H1. lia.
    + intros a Ha. unfold all in Ha.
      apply list_lookup_fmap_Some in Ha as (x & -> & [-> Hx]%lookup_seqZ). apply H2. lia.
Qed.

Definition engine_params_demo : PfParams := mkPfParams 100 64 true false false 10 4 true.

Lemma degree_run_spec_witness :
  ∃ m c, degree_run engine_params_demo (8192 - 192) 64 = Some c ∧ span_page c = 4 - Z.of_nat m.
Proof.
  destruct (degree_run_spec engine_params_demo (8192 - 192) 64) as (m & c & H & _ & _ & Hs & _);
    [done|cbn; intros; ilia|]. by exists m, c.
Defined.

(** The stride engine on a request with a PC and a valid context, by branch:
    a PC that is not in the table gets a fresh entry, for which the first entry
    of lowest confidence makes room when the table is full, and proposes nothing;
    a hit whose stride differs (or is zero) records the stride, resets the
    confidence and proposes nothing; a hit that repeats a non-zero stride gains
    confidence and runs the degree loop from the block of the access. *)
Theorem stride_branches P cv n pkt s pc ctx tab :
  params_ok P → stride_ok (P := P) s →
  Request.pc (Packet.req pkt) = Some pc → no_context P pkt = false →
  Packet.getAddr pkt = Some (Packet.addr pkt) → is_u64 (Packet.addr pkt) →
  context_of P pkt = Some ctx → s !! ctx = Some tab →
  let b := block_of P (Packet.addr pkt) in
  (pc ∉ instAddr <$> tab →
   ∃ kept, stride_calculate P cv n pkt s
             = Some (<[ctx := kept ++ [mkStrideEntry pc b 0 0]]> s, no_calc) ∧
     ((length tab < stride_table_size)%nat ∧ kept = tab ∨
      ∃ i m, least tab i m ∧ kept = delete i tab)) ∧
  (∀ i e, tab !! i = Some e → instAddr e = pc →
     let str := s32 (u64 (b - missAddr e)) in
     (str ≠ stride e ∨ str = 0 →
      stride_calculate P cv n pkt s
        = Some (<[ctx := <[i := mkStrideEntry pc b str 0]> tab]> s, no_calc)) ∧
     (str = stride e → str ≠ 0 →
      stride_calculate P cv n pkt s =
      (c ← degree_run P b str;
       Some (<[ctx := <[i := mkStrideEntry pc b str (Z.min (confidence e + 1) Max_Conf)]> tab]> s, c)))).
Proof.
  intros HP [_ Hs] Hpc Hnc Hga Ha Hctx Htab b.
  pose proof (proj1 (Forall_lookup _ _) Hs ctx tab Htab) as (_ & Hnd & Hall).
  unfold stride_calculate. rewrite Hpc, Hnc, Hga. cbn [mbind option_bind].
  rewrite Hctx. cbn [mbind option_bind]. rewrite Htab. cbn [mbind option_bind]. fold b. split.
  - intros Hnin. replace (list_find _ tab) with (@None (nat * StrideEntry)).
    + eexists. split; [reflexivity|].
      destruct (stride_evict_spec tab) as [[-> ?]|(_ & i & m & Hl & ->)]; [by left|right; eauto].
    + symmetry. apply list_find_None, Forall_forall. intros e He Heq. apply Hnin.
      rewrite <- Heq. by apply list_elem_of_fmap_2.
  - intros i e Hi He. set (str := s32 (u64 (b - missAddr e))).
    assert (list_find (λ e, instAddr e = pc) tab = Some (i, e)) as ->.
    { apply list_find_Some. split_and!; [done|done|]. intros j x Hj Hlt Hx.
      assert (j = i); [|lia]. eapply NoDup_lookup; [exact Hnd|..].
      - rewrite list_lookup_fmap, Hj. cbn. by rewrite Hx.
      - rewrite list_lookup_fmap, Hi. cbn. by rewrite He. }
    pose proof (proj1 (Forall_lookup _ _) Hall i e Hi) as (_ & _ & _ & Hconf).
    unfold stride_hit. fold str. unfold Max_Conf, Min_Conf in *. split.
    + intros Hd. replace ((str =? stride e) && negb (str =? 0)) with false; cbn [confidence].
      * rewrite (proj2 (Z.ltb_lt _ _)) by lia. cbn. by rewrite He.
      * symmetry. apply andb_false_iff. rewrite Z.eqb_neq, negb_false_iff, Z.eqb_eq. tauto.
    + intros Heq Hne. rewrite (proj2 (Z.eqb_eq _ _) Heq), (proj2 (Z.eqb_neq _ _) Hne). cbn.
      rewrite He, <- Heq.
      replace (if confidence e <? 2 ^ 31 - 1 then confidence e + 1 else confidence e)
        with (Z.min (confidence e + 1) (2 ^ 31 - 1)) by (zcase; lia).
      destruct (Z.leb_spec (Z.min (confidence e + 1) (2 ^ 31 - 1)) 0); [lia|done].
Qed.

(** A table whose only entry has just seen the stride 64. *)
Definition stride_demo : StrideTable :=
  <[0%nat := [mkStrideEntry 400 4160 64 0]]> (replicate 64 []).
Definition stride_pkt (a : Z) : Packet.t :=
  Packet.mk 0xf00 ReadReq (Request.mk (Some a) None (Some 4) 0 0 None (Some (0, 0)) (Some 400))
    None a 4 3 (-1) InvalidCmd 0 None.

Lemma stride_branches_witness :
  stride_calculate engine_params_demo (mkCacheView (λ _, false) (λ _, false) (λ _, false)) 0
    (stride_pkt 4228) stride_demo
  = Some (<[0%nat := [mkStrideEntry 400 4224 64 1]]> (replicate 64 []),
          mkCalc [4288; 4352; 4416; 4480] [10; 10; 10; 10] [] 0).
Proof.
  destruct (stride_branches engine_params_demo (mkCacheView (λ _, false) (λ _, false) (λ _, false)) 0
    (stride_pkt 4228) stride_demo 400 0 [mkStrideEntry 400 4160 64 0]) as [_ H];
    [|split; [reflexivity|]|reflexivity|reflexivity|reflexivity|done|reflexivity|reflexivity|].
  - split_and!; [cbn; lia|cbn; lia|cbn; lia|by exists 6].
  - unfold stride_demo. apply Forall_insert.
    + apply Forall_replicate. split_and!; [cbn; lia|constructor..].
    + split_and!; [unfold stride_table_size; cbn; lia|apply NoDup_singleton|]. constructor; [|constructor].
      split_and!; cbn; unfold Max_Conf; ilia || reflexivity.
  - destruct (H 0%nat (mkStrideEntry 400 4160 64 0)) as [_ H2]; [reflexivity..|].
    etransitivity; [apply H2; [reflexivity|vm_compute; congruence]|vm_compute; reflexivity].
Defined.

(** ** The C++ interface proposes unaligned addresses *)

Definition interface_pkt : Packet.t := stride_pkt 4100.
Definition interface_run : option (list Z) :=
  let P := engine_params_demo in
  let cv := mkCacheView (λ _, false) (λ _, false) (λ _, false) in
  '(s, _, _) ← notify (E := InterfacePrefetcher) P cv 5 interface_pkt 7 Prefetcher_new;
  '(s, _, _) ← notify (E := InterfacePrefetcher) P cv 8 interface_pkt 9 s;
  Some ((λ p, block_of P (Packet.addr p)) <$> pf s).

(** The engine of the C++ interface queues addresses that are not block
    aligned, which [inPrefetch] never finds: after two misses at the same
    unaligned address every one of the eight blocks is queued twice. *)
Theorem interface_duplicates :
  ∃ blocks, interface_run = Some (blocks ++ blocks) ∧ length blocks = 8%nat ∧
    blocks = [4160; 4224; 4288; 4352; 4416; 4480; 4544; 4608].
Proof.
  exists [4160; 4224; 4288; 4352; 4416; 4480; 4544; 4608].
  split; [vm_compute; reflexivity|done].
Qed.
