(* ===== verification/PhysMem.v ===== *)
(** The physical memory, [src/m5/src/mem/physical.hh] and [physical.cc].

    The memory is its range and the bytes of its backing store; the null memory
    (a parameter of the simulator) has no store and is not modelled.  A failed
    assertion, a [panic] and an access outside of the store are [None].  The
    random part of the latency is an argument. *)

From S2P Require Import Prelude IntMath Packet.

(** A locked address and the hardware context that locked it. *)
Record LockedAddr := mkLocked {
  l_addr : Z;
  l_context : Z
}.

Definition Addr_Mask : Z := 0xf.
Definition lock_mask (paddr : Z) : Z := Z.land paddr (notU 64 Addr_Mask).

Record PhysicalMemory := mkMem {
  start : Z;
  pmem : list Z;
  lockedAddrList : list LockedAddr;
  pagePtr : Z;
  lat : Z;
  lat_var : Z
}.

Definition size (m : PhysicalMemory) : Z := Z.of_nat (length (pmem m)).

Definition set_locked (m : PhysicalMemory) (l : list LockedAddr) : PhysicalMemory :=
  mkMem (start m) (pmem m) l (pagePtr m) (lat m) (lat_var m).
Definition set_pmem (m : PhysicalMemory) (d : list Z) : PhysicalMemory :=
  mkMem (start m) d (lockedAddrList m) (pagePtr m) (lat m) (lat_var m).

Definition PageBytes : Z := Z.shiftl 1 13.

(** The constructor; [d] is the store, zeroed or not, of the size of the range. *)
Definition PhysicalMemory_new (st : Z) (d : list Z) (l lv : Z) : option PhysicalMemory :=
  if Z.of_nat (length d) mod PageBytes =? 0 then Some (mkMem st d [] 0 l lv) else None.

(** [new_page]; [pagePtr] is an [int] and is shifted as one. *)
Definition new_page (m : PhysicalMemory) : option (Z * PhysicalMemory) :=
  off ← int_chk (Z.shiftl (pagePtr m) 13);
  next ← int_chk (pagePtr m + 1);
  Some (u64 (u64 off + start m),
        mkMem (start m) (pmem m) (lockedAddrList m) next (lat m) (lat_var m)).

(** [rnd] is the number drawn from [0 .. lat_var]. *)
Definition calculateLatency (m : PhysicalMemory) (rnd : Z) : Z :=
  if lat_var m =? 0 then lat m else s64 (lat m + rnd).

(** ** Load-locked and store-conditional *)

(** [trackLoadLocked]: a context has at most one locked address. *)
Definition trackLoadLocked (m : PhysicalMemory) (p : Packet.t) : option PhysicalMemory :=
  a ← Request.paddr (Packet.req p);
  ctx ← Request.contextId (Packet.req p);
  let l := lockedAddrList m in
  Some (set_locked m
    match list_find (λ e, l_context e = ctx) l with
    | Some (i, e) => <[i := mkLocked (lock_mask a) (l_context e)]> l
    | None => mkLocked (lock_mask a) ctx :: l
    end).

(** [checkLockedAddrList]: whether the write proceeds; every record of the
    address is erased and the result of a store-conditional is left in the
    request. *)
Definition checkLockedAddrList (m : PhysicalMemory) (p : Packet.t)
    : option (bool * PhysicalMemory * Packet.t) :=
  a ← Request.paddr (Packet.req p);
  let matching := filter (λ e, l_addr e = lock_mask a) (lockedAddrList m) in
  success ← (if Packet.isLLSC p then
               match matching with
               | [] => Some false
               | _ => ctx ← Request.contextId (Packet.req p);
                      Some (existsb (λ e, l_context e =? ctx) matching)
               end
             else Some true);
  let m := set_locked m (filter (λ e, l_addr e ≠ lock_mask a) (lockedAddrList m)) in
  let p := if Packet.isLLSC p
           then Packet.set_req p (Request.setExtraData (Packet.req p) (if (success : bool) then 1 else 0))
           else p in
  Some (success, m, p).

Definition writeOK (m : PhysicalMemory) (p : Packet.t) : option (bool * PhysicalMemory * Packet.t) :=
  match lockedAddrList m with
  | [] =>
      let p := if Packet.isLLSC p
               then Packet.set_req p (Request.setExtraData (Packet.req p) 0) else p in
      Some (negb (Packet.isLLSC p), m, p)
  | _ => checkLockedAddrList m p
  end.

(** ** Swaps *)

(** The [n] bytes of a value in the order of the host, least significant first. *)
Definition le_bytes (n : nat) (v : Z) : list Z := (λ i, (v / 256 ^ Z.of_nat i) mod 256) <$> seq 0 n.

(** Whether a swap of [sz] bytes replaces the bytes at [off] of [cur]: always,
    or for a conditional one when they equal the extra data of the request. *)
Definition swap_condition (r : Request.t) (sz : Z) (cur : list Z) (off : Z) : option bool :=
  if Request.isCondSwap r then
    if (sz =? 8) || (sz =? 4) then
      v ← Request.extraData r;
      Some (bool_decide (le_bytes (Z.to_nat sz) v = take (Z.to_nat sz) (drop (Z.to_nat off) cur)))
    else None
  else Some true.

(** ** Accesses *)

(** The assertion of both kinds of access; [hostAddr] as an offset. *)
Definition host_offset (m : PhysicalMemory) (p : Packet.t) : option Z :=
  a ← Packet.getAddr p;
  sz ← Packet.getSize p;
  if (start m <=? a) && (u64 (a + sz) <=? u64 (start m + size m)) then Some (a - start m) else None.

Definition respond_if_needed (p : Packet.t) : option Packet.t :=
  if Packet.needsResponse p then Packet.makeResponse p else Some p.

(** [doAtomicAccess]: the packet, the latency and the memory. *)
Definition doAtomicAccess (rnd : Z) (p : Packet.t) (m : PhysicalMemory)
    : option (Packet.t * Z * PhysicalMemory) :=
  off ← host_offset m p;
  sz ← Packet.getSize p;
  if Packet.memInhibitAsserted p then Some (p, 0, m)
  else
    '(p, m) ←
      (if decide (Packet.cmd p = SwapReq) then
         if sz <=? 8 then
           val ← Packet.writeData p (replicate 8 0) 0;
           p ← Packet.setData p (pmem m) off;
           overwrite ← swap_condition (Packet.req p) sz (pmem m) off;
           d ← (if (overwrite : bool) then Packet.memcpy (pmem m) off val 0 sz else Some (pmem m));
           if Request.isInstFetch (Packet.req p) then None else Some (p, set_pmem m d)
         else None
       else if Packet.isRead p then
         if Packet.isWrite p then None
         else
           m ← (if Packet.isLLSC p then trackLoadLocked m p else Some m);
           p ← Packet.setData p (pmem m) off;
           Some (p, m)
       else if Packet.isWrite p then
         '(ok, m, p) ← writeOK m p;
         if (ok : bool) then
           d ← Packet.writeData p (pmem m) off;
           if Request.isInstFetch (Packet.req p) then None else Some (p, set_pmem m d)
         else Some (p, m)
       else if Packet.isInvalidate p then
         p ← respond_if_needed p; Some (p, m)
       else None);
    p ← respond_if_needed p;
    Some (p, calculateLatency m rnd, m).

(** [doFunctionalAccess]; printing is left out. *)
Definition doFunctionalAccess (p : Packet.t) (m : PhysicalMemory)
    : option (Packet.t * PhysicalMemory) :=
  off ← host_offset m p;
  if Packet.isRead p then
    p ← Packet.setData p (pmem m) off; p ← Packet.makeResponse p; Some (p, m)
  else if Packet.isWrite p then
    d ← Packet.writeData p (pmem m) off; p ← Packet.makeResponse p; Some (p, set_pmem m d)
  else if Packet.isPrint p then Some (p, m)
  else None.

(** ** What a store-conditional tests *)

(** Load-locked and write accesses, as the memory sees them. *)
Inductive MemLockOp :=
  | MLoadLocked (p : Packet.t)
  | MWrite (p : Packet.t).

Definition mem_lock_step (m : PhysicalMemory) (op : MemLockOp) : option PhysicalMemory :=
  match op with
  | MLoadLocked p => trackLoadLocked m p
  | MWrite p => '(_, m, _) ← writeOK m p; Some m
  end.

Definition mem_lock_run (m : PhysicalMemory) (ops : list MemLockOp) : option PhysicalMemory :=
  foldl (λ o op, m ← o; mem_lock_step m op) (Some m) ops.

(** The 16-byte granule and the context of an access. *)
Definition granule (p : Packet.t) : option Z := lock_mask <$> Request.paddr (Packet.req p).
Definition ctx_of (p : Packet.t) : option Z := Request.contextId (Packet.req p).

Definition op_pkt (op : MemLockOp) : Packet.t := match op with MLoadLocked p | MWrite p => p end.
Definition op_named (op : MemLockOp) : Prop := is_Some (granule (op_pkt op)) ∧ is_Some (ctx_of (op_pkt op)).

(** The last load-locked of context [c] was to the granule [x], and nothing has
    been written to it since. *)
Definition reserved (c x : Z) (ops : list MemLockOp) : Prop :=
  ∃ ops1 p ops2, ops = ops1 ++ MLoadLocked p :: ops2 ∧ ctx_of p = Some c ∧ granule p = Some x ∧
    Forall (λ op, match op with
                  | MLoadLocked q => ctx_of q ≠ Some c
                  | MWrite q => granule q ≠ Some x
                  end) ops2.

Section Reservation.

Lemma reserved_nil c x : ¬ reserved c x [].
Proof. intros (o1 & p & o2 & E & _). by destruct o1. Qed.

Lemma reserved_snoc_ll c x ops p d y :
  ctx_of p = Some d → granule p = Some y →
  reserved c x (ops ++ [MLoadLocked p]) ↔ c = d ∧ x = y ∨ c ≠ d ∧ reserved c x ops.
Proof.
  intros Hd Hy. split.
  - intros (o1 & q & o2 & E & Hc & Hx & Hf). destruct o2 as [|z o2 _] using rev_ind.
    + apply app_inj_tail in E as [_ [= ->]]. left. split; congruence.
    + rewrite app_comm_cons, app_assoc in E. apply app_inj_tail in E as [-> <-].
      apply Forall_app in Hf as [Hf Hl]. apply Forall_cons in Hl as [Hl _].
      right. split; [congruence|]. by exists o1, q, o2.
  - intros [[-> ->]|[Hne (o1 & q & o2 & -> & Hc & Hx & Hf)]].
    + exists ops, p, []. split_and!; try done.
    + exists o1, q, (o2 ++ [MLoadLocked p]). rewrite <- app_assoc. split_and!; try done.
      apply Forall_app; split; [done|]. constructor; [congruence|done].
Qed.

Lemma reserved_snoc_write c x ops p y :
  granule p = Some y → reserved c x (ops ++ [MWrite p]) ↔ x ≠ y ∧ reserved c x ops.
Proof.
  intros Hy. split.
  - intros (o1 & q & o2 & E & Hc & Hx & Hf). destruct o2 as [|z o2 _] using rev_ind.
    + by apply app_inj_tail in E as [_ ?].
    + rewrite app_comm_cons, app_assoc in E. apply app_inj_tail in E as [-> <-].
      apply Forall_app in Hf as [Hf Hl]. apply Forall_cons in Hl as [Hl _].
      split; [congruence|]. by exists o1, q, o2.
  - intros [Hne (o1 & q & o2 & -> & Hc & Hx & Hf)].
    exists o1, q, (o2 ++ [MWrite p]). rewrite <- app_assoc. split_and!; try done.
    apply Forall_app; split; [done|]. constructor; [congruence|done].
Qed.

(** One record per context. *)
Definition one_each (l : list LockedAddr) : Prop := NoDup (l_context <$> l).

Lemma track_members l x d e :
  one_each l →
  let l' := match list_find (λ e, l_context e = d) l with
            | Some (i, e) => <[i := mkLocked x (l_context e)]> l
            | None => mkLocked x d :: l
            end in
  one_each l' ∧ (e ∈ l' ↔ e = mkLocked x d ∨ l_context e ≠ d ∧ e ∈ l).
Proof.
  intros Hnd l'. unfold one_each in *. subst l'.
  destruct (list_find _ l) as [[i e0]|] eqn:E.
  - apply list_find_Some in E as (Hi & <- & _). apply lookup_lt_Some in Hi as Hlt.
    assert (l_context <$> <[i := mkLocked x (l_context e0)]> l = l_context <$> l) as Hc.
    { rewrite list_fmap_insert. apply list_insert_id. cbn. by rewrite list_lookup_fmap, Hi. }
    rewrite Hc. split; [done|]. rewrite list_elem_of_lookup. split.
    + intros [j Hj]. apply list_lookup_insert_Some in Hj as [(-> & <- & _)|[Hne Hj]]; [by left|].
      right. split; [|by eapply list_elem_of_lookup_2]. intros Heq. apply Hne. symmetry.
      eapply (NoDup_lookup _ _ _ (l_context e) Hnd); rewrite list_lookup_fmap; [by rewrite Hj|].
      rewrite Hi. cbn. by rewrite Heq.
    + intros [->|[Hne Hin]]; [exists i; by apply list_lookup_insert_eq|].
      apply list_elem_of_lookup_1 in Hin as [j Hj]. exists j.
      rewrite list_lookup_insert_ne; [done|]. intros ->. congruence.
  - apply list_find_None in E. rewrite Forall_forall in E. split.
    + cbn. constructor; [|done]. intros (e1 & -> & Hin)%list_elem_of_fmap. by apply (E e1).
    + rewrite elem_of_cons. split; [|naive_solver]. intros [->|Hin]; [by left|].
      right. split; [by apply E|done].
Qed.

Lemma reserved_run m ops :
  lockedAddrList m = [] → Forall op_named ops →
  ∃ m', mem_lock_run m ops = Some m' ∧ one_each (lockedAddrList m') ∧
    ∀ c x, mkLocked x c ∈ lockedAddrList m' ↔ reserved c x ops.
Proof.
  intros Hm. induction ops as [|op ops IH] using rev_ind; intros Hok.
  { exists m. split_and!; [done|rewrite Hm; constructor|]. intros c x. rewrite Hm.
    split; [set_solver|]. by intros ?%reserved_nil. }
  apply Forall_app in Hok as [Hops Hop]. apply Forall_cons in Hop as [[[y Hy] [d Hd]] _].
  destruct (IH Hops) as (m1 & Hr & Hnd & Hl). unfold mem_lock_run in *. rewrite foldl_app, Hr.
  cbn [foldl mbind option_bind]. destruct op as [p|p]; cbn [mem_lock_step op_pkt] in *.
  - unfold trackLoadLocked. unfold granule in Hy. destruct (Request.paddr _) as [a|] eqn:Ea; [|done].
    injection Hy as <-. cbn [mbind option_bind]. unfold ctx_of in Hd. rewrite Hd. cbn [mbind option_bind].
    eexists. split; [reflexivity|]. cbn [lockedAddrList set_locked].
    destruct (track_members (lockedAddrList m1) (lock_mask a) d (mkLocked 0 0) Hnd) as [Hnd' _].
    split; [done|]. intros c x.
    destruct (track_members (lockedAddrList m1) (lock_mask a) d (mkLocked x c) Hnd) as [_ ->].
    rewrite (reserved_snoc_ll c x ops p d (lock_mask a)); [|done|unfold granule; by rewrite Ea].
    rewrite Hl. cbn. naive_solver.
  - assert (∃ ok q, writeOK m1 p = Some (ok, set_locked m1
              (filter (λ e, l_addr e ≠ y) (lockedAddrList m1)), q)) as (ok & q & ->).
    { unfold writeOK, checkLockedAddrList, granule, ctx_of in *.
      destruct (Request.paddr _) as [a|]; [|done]. injection Hy as <-. rewrite Hd.
      destruct m1 as [st dd [|e0 ll] pp lt lv]; cbn [lockedAddrList]; [do 2 eexists; reflexivity|].
      cbn [mbind option_bind]. destruct (Packet.isLLSC p); [|do 2 eexists; reflexivity].
      destruct (filter (λ e, l_addr e = lock_mask a) (e0 :: ll)); cbn [mbind option_bind]; do 2 eexists; reflexivity. }
    cbn [mbind option_bind]. eexists. split; [reflexivity|]. cbn [lockedAddrList set_locked]. split.
    + unfold one_each in *. eapply sublist_NoDup; [exact Hnd|]. apply fmap_sublist, sublist_filter.
    + intros c x. rewrite list_elem_of_filter, Hl, (reserved_snoc_write c x ops p y Hy). done.
Qed.

End Reservation.

(** Store-conditionals at the memory: after any sequence of load-locked and
    write accesses, a store-conditional of context [c] proceeds exactly when the
    last load-locked of [c] was to the same 16 bytes and nothing was written to
    them since; the result is left in the request, and afterwards no context has
    those bytes locked. *)
Theorem memory_store_conditional m ops p c x :
  lockedAddrList m = [] → Forall op_named ops → ctx_of p = Some c → granule p = Some x →
  Packet.isLLSC p = true →
  ∃ m1 ok m2 q, mem_lock_run m ops = Some m1 ∧ writeOK m1 p = Some (ok, m2, q) ∧
    (ok = true ↔ reserved c x ops) ∧
    Request.extraData (Packet.req q) = Some (if ok then 1 else 0) ∧
    Forall (λ e, l_addr e ≠ x) (lockedAddrList m2).
Proof.
  intros Hm Hops Hc Hx Hll. destruct (reserved_run m ops Hm Hops) as (m1 & Hr & _ & Hl).
  exists m1. unfold writeOK, checkLockedAddrList, granule, ctx_of in *.
  destruct (Request.paddr (Packet.req p)) as [a|]; [|done]. injection Hx as <-. rewrite Hc, Hll.
  destruct (lockedAddrList m1) as [|e ll] eqn:El.
  { exists false, m1, (Packet.set_req p (Request.setExtraData (Packet.req p) 0)). rewrite <- Hl, El.
    change (Packet.isLLSC (Packet.set_req p _)) with (Packet.isLLSC p). rewrite Hll.
    split_and!; try done. split; [done|set_solver]. }
  cbn [mbind option_bind]. set (f := filter (λ e, l_addr e = lock_mask a) (e :: ll)).
  set (ok := existsb (λ e, l_context e =? c) f).
  exists ok, (set_locked m1 (filter (λ e, l_addr e ≠ lock_mask a) (e :: ll))),
    (Packet.set_req p (Request.setExtraData (Packet.req p) (if ok then 1 else 0))).
  split; [done|]. split.
  { unfold ok. destruct f; reflexivity. }
  split_and!; [|done|apply Forall_forall; intros z Hz; by apply list_elem_of_filter in Hz as [? _]].
  unfold ok. rewrite <- Hl, existsb_exists. split.
  - intros (z & Hz & Hzc%Z.eqb_eq). apply list_elem_of_In, list_elem_of_filter in Hz as [Hza Hz].
    destruct z as [za zc]. cbn in *. by subst.
  - intros Hin. exists (mkLocked (lock_mask a) c). split; [|apply Z.eqb_refl].
    apply list_elem_of_In, list_elem_of_filter. done.
Qed.

Definition demo_lock (c : Command) (a ctx : Z) : Packet.t :=
  Packet.mk 0x1f00 c (Request.mk (Some a) None (Some 4) 0 0 None (Some (ctx, 0)) None)
    (Some [0; 0; 0; 0]) a 4 0 (-1) InvalidCmd 0 None.

(** Two contexts lock the same bytes and the second one stores elsewhere. *)
Lemma memory_store_conditional_witness :
  let m := mkMem 0 (replicate 64 0) [] 0 30 0 in
  let ops := [MLoadLocked (demo_lock LoadLockedReq 0x20 0); MLoadLocked (demo_lock LoadLockedReq 0x24 1);
              MWrite (demo_lock WriteReq 0x10 1)] in
  let p := demo_lock StoreCondReq 0x28 0 in
  ∃ m1 ok m2 q, mem_lock_run m ops = Some m1 ∧ writeOK m1 p = Some (ok, m2, q) ∧
    (ok = true ↔ reserved 0 0x20 ops) ∧
    Request.extraData (Packet.req q) = Some (if ok then 1 else 0) ∧
    Forall (λ e, l_addr e ≠ 0x20) (lockedAddrList m2).
Proof.
  intros m ops p. apply (memory_store_conditional m ops p 0 0x20); try done.
  repeat (apply Forall_cons_2; [split; by eexists|]). apply Forall_nil_2.
Defined.

(** ** The memory as seen by its clients *)

(** [recvAtomic curTick pkt state]: the packet, the latency, the value of the
    packet's [finishTime] and the new state. *)
Class AtomicPort := {
  port_state : Type;
  recvAtomic : Z → Packet.t → port_state → option (Packet.t * Z * Z * port_state)
}.

(** [p] asks for the [n] bytes at [a] and has a buffer for them. *)
Definition transfer (p : Packet.t) (a n : Z) (d : list Z) : Prop :=
  Packet.getAddr p = Some a ∧ Packet.getSize p = Some n ∧ Packet.getPtr p = Some d ∧
  Z.of_nat (length d) = n ∧ 0 < n ∧ 0 <= a ∧ Packet.memInhibitAsserted p = false.

(** The bytes at [a .. a+n-1]. *)
Definition bytes_at (B : Z → option Z) (a : Z) (d : list Z) : Prop :=
  ∀ k : nat, (k < length d)%nat → d !! k = B (a + Z.of_nat k).

Definition present (B : Z → option Z) (a n : Z) : Prop :=
  ∀ k, 0 <= k < n → is_Some (B (a + k)).

(** A request for the block of [bs] bytes at [a]: it belongs to an access of a
    processor somewhere in the block. *)
Record block_request (bs : Z) (p : Packet.t) (a : Z) : Prop := {
  br_paddr : ∃ x, Request.paddr (Packet.req p) = Some x ∧ is_u64 x ∧ x - x mod bs = a;
  br_context : ∃ cid tid, Request.context (Packet.req p) = Some (cid, tid) ∧ 0 <= cid;
  br_cacheable : Request.isUncacheable (Packet.req p) = false
}.

(** [q] answers [p]. *)
Record block_response (p : Packet.t) (a : Z) (q : Packet.t) : Prop := {
  rs_cmd : Packet.cmd q = MemCmd.responseCommand (Packet.cmd p);
  rs_req : Packet.req q = Packet.req p;
  rs_addr : Packet.getAddr q = Some a
}.

(** The answer carries the [n] bytes at [a]. *)
Definition carries (q : Packet.t) (B : Z → option Z) (a n : Z) : Prop :=
  ∃ d, Packet.getPtr q = Some d ∧ Z.of_nat (length d) = n ∧ bytes_at B a d.

(** [wb] writes the bytes [dv] to the block at [v]. *)
Record writeback_of (wb : Packet.t) (v bs : Z) (dv : list Z) : Prop := {
  wb_cmd : Packet.cmd wb = Writeback;
  wb_transfer : transfer wb v bs dv;
  wb_paddr : Request.paddr (Packet.req wb) = Some v;
  wb_aligned : is_u64 v ∧ v mod bs = 0;
  wb_data : Request.isInstFetch (Packet.req wb) = false;
  wb_cacheable : Request.isUncacheable (Packet.req wb) = false;
  wb_context : Request.context (Packet.req wb) = None;
  wb_dest : Packet.getDest wb = Some Packet.Broadcast
}.

(** A state in which there is one byte at each address of a range, for requests of
    whole blocks of [port_bs] bytes. *)
Class ByteView (S : Type) := {
  port_ok : S → Prop;
  port_byte : S → Z → option Z;
  port_bs : Z
}.

(** A port behind which there is such a state.  A read returns the bytes, and if the
    port is exclusive ([port_excl]) it adds no copy of its own; a read or an upgrade
    for exclusive access may leave anything in the block behind the port, whose only
    copy is then the one of the requester; a writeback replaces the block.  A
    request that somebody else answers is not answered here, and if it invalidates,
    it may leave anything in the block too. *)
Class ByteMemory (M : AtomicPort) := {
  port_view :: ByteView port_state;
  port_excl : Prop;
  port_read t p m a d :
    port_ok m → Packet.cmd p = ReadReq → transfer p a port_bs d → block_request port_bs p a →
    present (port_byte m) a port_bs →
    ∃ q l fin m', recvAtomic t p m = Some (q, l, fin, m') ∧ port_ok m' ∧
      (∀ x, is_u64 x → port_byte m' x = port_byte m x) ∧
      block_response p a q ∧ carries q (port_byte m) a port_bs ∧
      (Packet.sharedAsserted p = true ∨ port_excl → Packet.sharedAsserted q = Packet.sharedAsserted p);
  port_own t p m a d :
    port_ok m → Packet.cmd p = ReadExReq → transfer p a port_bs d → block_request port_bs p a →
    present (port_byte m) a port_bs →
    ∃ q l fin m', recvAtomic t p m = Some (q, l, fin, m') ∧ port_ok m' ∧
      (∀ x, is_u64 x → ¬ (a <= x < a + port_bs) ∨ port_excl → port_byte m' x = port_byte m x) ∧
      present (port_byte m') a port_bs ∧
      block_response p a q ∧ carries q (port_byte m) a port_bs ∧
      Packet.sharedAsserted q = Packet.sharedAsserted p;
  port_upgrade t p m a d :
    port_ok m → Packet.cmd p = UpgradeReq → transfer p a port_bs d → block_request port_bs p a →
    present (port_byte m) a port_bs →
    ∃ q l fin m', recvAtomic t p m = Some (q, l, fin, m') ∧ port_ok m' ∧
      (∀ x, is_u64 x → ¬ (a <= x < a + port_bs) → port_byte m' x = port_byte m x) ∧
      present (port_byte m') a port_bs ∧
      block_response p a q ∧ Packet.sharedAsserted q = Packet.sharedAsserted p;
  port_writeback t p m a d :
    port_ok m → writeback_of p a port_bs d → present (port_byte m) a port_bs →
    ∃ q l fin m', recvAtomic t p m = Some (q, l, fin, m') ∧ port_ok m' ∧
      ∀ x, is_u64 x → port_byte m' x =
        if decide (a <= x < a + port_bs) then d !! Z.to_nat (x - a) else port_byte m x;
  port_inhibited t p m a :
    port_ok m → Packet.memInhibitAsserted p = true →
    Packet.cmd p ∈ [ReadReq; ReadExReq; UpgradeReq] →
    Packet.getAddr p = Some a → Packet.getSize p = Some port_bs → block_request port_bs p a →
    present (port_byte m) a port_bs →
    ∃ l fin m', recvAtomic t p m = Some (p, l, fin, m') ∧ port_ok m' ∧
      (∀ x, is_u64 x → ¬ (a <= x < a + port_bs) ∨ Packet.cmd p = ReadReq → port_byte m' x = port_byte m x) ∧
      present (port_byte m') a port_bs
}.

(** The physical memory as a port.  Nothing sets the [finishTime] of a packet that
    goes to the memory without a bus: [fin] is the unspecified value. *)
Definition MemoryPort (rnd fin : Z) : AtomicPort := {|
  port_state := PhysicalMemory;
  recvAtomic _ p m := '(p, l, m) ← doAtomicAccess rnd p m; Some (p, l, fin, m)
|}.

Definition mem_ok (m : PhysicalMemory) : Prop := 0 <= start m ∧ start m + size m < 2 ^ 64.

Definition mem_byte (m : PhysicalMemory) (x : Z) : option Z :=
  if decide (start m <= x) then pmem m !! Z.to_nat (x - start m) else None.

Section Memory.

Lemma present_range m a n :
  0 < n → 0 <= a → present (mem_byte m) a n → start m <= a ∧ a + n <= start m + size m.
Proof.
  intros Hn Ha Hp. unfold mem_byte in Hp. split.
  - destruct (Hp 0) as [x Hx]; [lia|]. destruct (decide _); [lia|done].
  - destruct (Hp (n - 1)) as [x Hx]; [lia|]. destruct (decide _); [|done].
    apply lookup_lt_Some in Hx. unfold size. lia.
Qed.

Lemma mem_present m a n :
  start m <= a → a + n <= start m + size m → present (mem_byte m) a n.
Proof.
  intros Hlo Hhi k Hk. unfold mem_byte, size in *. rewrite decide_True by lia.
  apply lookup_lt_is_Some_2. lia.
Qed.

Lemma host_offset_ok m p a n :
  mem_ok m → Packet.getAddr p = Some a → Packet.getSize p = Some n → present (mem_byte m) a n →
  0 < n → 0 <= a →
  host_offset m p = Some (a - start m) ∧ 0 <= a - start m ∧
  a - start m + n <= Z.of_nat (length (pmem m)).
Proof.
  intros [H0 H1] Ha Hs Hp Hn Ha0.
  destruct (present_range m a n Hn Ha0 Hp) as [Hlo Hhi].
  unfold host_offset. rewrite Ha, Hs. cbn [mbind option_bind].
  rewrite !u64_small by (unfold is_u64, size in *; lia).
  rewrite !(proj2 (Z.leb_le _ _)) by lia. split_and!; [done|lia|unfold size in *; lia].
Qed.

End Memory.

Section MemoryPortLaws.
Context (rnd fin : Z).

Lemma respond_read p d :
  Packet.cmd p = ReadReq ∨ Packet.cmd p = ReadExReq →
  ∃ q, respond_if_needed (Packet.set_data p (Packet.flags p) (Some d)) = Some q ∧
    Packet.makeResponse (Packet.set_data p (Packet.flags p) (Some d)) = Some q.
Proof.
  intros Hc. unfold respond_if_needed.
  assert (Packet.needsResponse (Packet.set_data p (Packet.flags p) (Some d)) = true) as Hn
    by (unfold Packet.needsResponse; cbn [Packet.cmd Packet.set_data]; destruct Hc as [-> | ->]; done).
  rewrite Hn. destruct (Packet.makeResponse_total _ Hn) as [q Hq]. by exists q.
Qed.

Lemma memory_read t p m a n d :
  mem_ok m → Packet.cmd p = ReadReq ∨ Packet.cmd p = ReadExReq →
  transfer p a n d → present (mem_byte m) a n →
  ∃ q l fin', @recvAtomic (MemoryPort rnd fin) t p m = Some (q, l, fin', m) ∧
    block_response p a q ∧ carries q (mem_byte m) a n ∧
    Packet.sharedAsserted q = Packet.sharedAsserted p.
Proof.
  intros Hm Hc Ht Hpr. destruct (host_offset_ok m p a n Hm (proj1 Ht) (proj1 (proj2 Ht)) Hpr) as (Ho & Hlo & Hhi); [apply Ht..|].
  pose proof Ht as (Ha & Hs & Hp & Hl & Hn & Ha0 & Hi).
  destruct (Packet.setData_ok p (pmem m) (a - start m) d n) as (d' & Hsd & Hl' & Hd'); [done..|].
  destruct (respond_read p d' Hc) as (q & Hr & Hq).
  apply makeResponse_keeps in Hq as (Hqa & _ & Hqp & Hqr & _ & Hqc & Hqs & Hqi).
  assert (doAtomicAccess rnd p m = Some (q, calculateLatency m rnd, m)) as E.
  { unfold doAtomicAccess. rewrite Ho, Hs. cbn [mbind option_bind]. rewrite Hi.
    rewrite decide_False by (destruct Hc as [-> | ->]; done).
    assert (Packet.isRead p = true ∧ Packet.isWrite p = false ∧ Packet.isLLSC p = false) as (-> & -> & ->)
      by (unfold Packet.isRead, Packet.isWrite, Packet.isLLSC; destruct Hc as [-> | ->]; done).
    cbn [mbind option_bind]. rewrite Hsd. cbn [mbind option_bind]. by rewrite Hr. }
  cbn [recvAtomic MemoryPort]. rewrite E. cbn [mbind option_bind].
  exists q, (calculateLatency m rnd), fin. split_and!; [done| | |by rewrite Hqs].
  - constructor; [done|done|by rewrite Hqa].
  - exists d'. split_and!; [|done|].
    + rewrite Hqp. unfold Packet.getPtr in *. cbn [Packet.flags Packet.data Packet.set_data] in *.
      by destruct (Flags.isSet _ _).
    + intros k Hk. rewrite Hd' by lia. unfold mem_byte. rewrite decide_True by lia. f_equal. lia.
Qed.

(** An upgrade needs nothing from the memory. *)
Lemma memory_upgrade t p m a n d :
  mem_ok m → Packet.cmd p = UpgradeReq ∨ Packet.cmd p = SCUpgradeReq → transfer p a n d → present (mem_byte m) a n →
  ∃ q l fin', @recvAtomic (MemoryPort rnd fin) t p m = Some (q, l, fin', m) ∧
    block_response p a q ∧ Packet.sharedAsserted q = Packet.sharedAsserted p ∧
    Packet.memInhibitAsserted q = Packet.memInhibitAsserted p.
Proof.
  intros Hm Hc Ht Hpr. destruct (host_offset_ok m p a n Hm (proj1 Ht) (proj1 (proj2 Ht)) Hpr) as (Ho & _ & _); [apply Ht..|].
  pose proof Ht as (Ha & Hs & _ & _ & _ & _ & Hi).
  assert (Packet.needsResponse p = true) as Hn by (unfold Packet.needsResponse; by destruct Hc as [-> | ->]).
  destruct (Packet.makeResponse_total _ Hn) as [q Hq].
  apply makeResponse_keeps in Hq as Hk. destruct Hk as (Hqa & _ & _ & Hqr & _ & Hqc & Hqs & Hqi).
  assert (doAtomicAccess rnd p m = Some (q, calculateLatency m rnd, m)) as E.
  { unfold doAtomicAccess. rewrite Ho, Hs. cbn [mbind option_bind]. rewrite Hi.
    rewrite decide_False by (by destruct Hc as [-> | ->]).
    assert (Packet.isRead p = false ∧ Packet.isWrite p = false ∧ Packet.isInvalidate p = true) as (-> & -> & ->)
      by (unfold Packet.isRead, Packet.isWrite, Packet.isInvalidate; by destruct Hc as [-> | ->]).
    unfold respond_if_needed. rewrite Hn, Hq. cbn [mbind option_bind].
    assert (Packet.needsResponse q = false) as -> by (unfold Packet.needsResponse; rewrite Hqc; by destruct Hc as [-> | ->]).
    done. }
  cbn [recvAtomic MemoryPort]. rewrite E. cbn [mbind option_bind].
  exists q, (calculateLatency m rnd), fin. split_and!; [done| |by rewrite Hqs|by rewrite Hqi].
  constructor; [done|done|by rewrite Hqa].
Qed.

(** Writes that are not store-conditionals always proceed. *)
Lemma writeOK_plain p m a :
  Packet.isLLSC p = false → Request.paddr (Packet.req p) = Some a →
  ∃ l, writeOK m p = Some (true, set_locked m l, p).
Proof.
  intros Hl Ha. unfold writeOK, checkLockedAddrList. rewrite Ha, Hl. cbn [mbind option_bind].
  destruct m as [st d [|e ll] pp lt lv]; cbn; [exists []; by rewrite Hl|by eexists].
Qed.

Lemma memory_writeback t p m a n d :
  mem_ok m → writeback_of p a n d → present (mem_byte m) a n →
  ∃ q l fin' m', @recvAtomic (MemoryPort rnd fin) t p m = Some (q, l, fin', m') ∧ mem_ok m' ∧
    ∀ x, mem_byte m' x =
      if decide (a <= x < a + n) then d !! Z.to_nat (x - a) else mem_byte m x.
Proof.
  intros Hm [Hc Ht Hpa _ Hif _ _ _] Hpr. destruct (host_offset_ok m p a n Hm (proj1 Ht) (proj1 (proj2 Ht)) Hpr) as (Ho & Hlo & Hhi); [apply Ht..|].
  pose proof Ht as (Ha & Hs & Hp & Hl & Hn & Ha0 & Hi).
  assert (Packet.isRead p = false ∧ Packet.isWrite p = true ∧ Packet.isLLSC p = false ∧
          Packet.needsResponse p = false) as (Hrd & Hwr & Hll & Hnr)
    by (unfold Packet.isRead, Packet.isWrite, Packet.isLLSC, Packet.needsResponse; by rewrite Hc).
  destruct (writeOK_plain p m a Hll Hpa) as [ll Hw].
  destruct (Packet.writeData_ok p (pmem m) (a - start m) d n) as (b & Hwd & Hlb & Hb); [done..|].
  set (m' := set_pmem (set_locked m ll) b).
  assert (doAtomicAccess rnd p m = Some (p, calculateLatency m' rnd, m')) as E.
  { unfold doAtomicAccess. rewrite Ho, Hs. cbn [mbind option_bind]. rewrite Hi.
    rewrite decide_False by (by rewrite Hc). rewrite Hrd, Hwr, Hw. cbn [mbind option_bind pmem set_locked].
    rewrite Hwd. cbn [mbind option_bind]. rewrite Hif. cbn [mbind option_bind].
    unfold respond_if_needed. by rewrite Hnr. }
  cbn [recvAtomic MemoryPort]. rewrite E. cbn [mbind option_bind].
  exists p, (calculateLatency m' rnd), fin, m'. split_and!; [done| |].
  - destruct Hm as [H0 H1]. unfold mem_ok, size in *. cbn. by rewrite Hlb.
  - intros x. unfold mem_byte. cbn [start pmem m' set_pmem set_locked].
    destruct (decide (start m <= x)) as [Hx|Hx]; [|by rewrite decide_False by lia].
    rewrite Hb. destruct (decide _), (decide _); try lia; [f_equal; lia|done].
Qed.

End MemoryPortLaws.

(** The bytes of a memory, in blocks of [bs]. *)
#[export] Instance mem_view (bs : Z) : ByteView PhysicalMemory := {|
  port_ok := mem_ok; port_byte := mem_byte; port_bs := bs
|}.

(** The memory serves blocks of any size, and has no copies of its own. *)
#[export] Instance MemoryPort_bytes rnd fin (bs : Z) : 0 < bs → ByteMemory (MemoryPort rnd fin).
Proof.
  intros Hbs. apply (Build_ByteMemory (MemoryPort rnd fin) (mem_view bs) True).
  - intros t p m a d Hm Hc Ht Hb Hpr.
    destruct (memory_read rnd fin t p m a bs d Hm (or_introl Hc) Ht Hpr)
      as (q & l & f & ? & ? & ? & ?). by exists q, l, f, m.
  - intros t p m a d Hm Hc Ht Hb Hpr.
    destruct (memory_read rnd fin t p m a bs d Hm (or_intror Hc) Ht Hpr)
      as (q & l & f & ? & ? & ? & ?). by exists q, l, f, m.
  - intros t p m a d Hm Hc Ht Hb Hpr.
    destruct (memory_upgrade rnd fin t p m a bs d Hm (or_introl Hc) Ht Hpr)
      as (q & l & f & ? & ? & ? & _). by exists q, l, f, m.
  - intros t p m a d Hm Hw Hpr. destruct (memory_writeback rnd fin t p m a bs d Hm Hw Hpr)
      as (q & l & f & m' & ? & ? & Hx). exists q, l, f, m'. split_and!; [done..|]. intros x _. apply Hx.
  - intros t p m a Hm Hi Hc Ha Hs Hb Hpr. exists 0, fin, m.
    destruct (br_paddr _ _ _ Hb) as (x & _ & Hu & Ex). assert (0 <= a) as Ha0.
    { unfold is_u64 in Hu. rewrite <- Ex. pose proof (Z.mod_le x bs). cbn. lia. }
    destruct (host_offset_ok m p a bs Hm Ha Hs Hpr Hbs Ha0) as (Ho & _).
    split_and!; try done. cbn [recvAtomic MemoryPort]. unfold doAtomicAccess. rewrite Ho, Hs.
    cbn [mbind option_bind]. by rewrite Hi.
Defined.
