(* ===== verification/Blob.v ===== *)
(** Accesses of any length, cut into pieces: the chunk generator
    ([src/m5/src/base/chunk_generator.hh]) and the functional accesses of a port
    ([src/m5/src/mem/port.cc]).  What is behind the port is the class
    [FunctionalPeer]; what its clients rely on is the class [FunctionalMemory],
    which the physical memory provides. *)

From S2P Require Import Prelude IntMath Packet PhysMem.

(** ** The chunk generator *)

Record ChunkGenerator := mkGen {
  curAddr : Z; nextAddr : Z; curSize : Z; sizeLeft : Z; startAddr : Z; chunkSize : Z
}.

(** The constructor; [totalSize] and [chunkSize] are [unsigned]. *)
Definition ChunkGenerator_new (start total chunk : Z) : option ChunkGenerator :=
  if (chunk =? 0) || isPowerOf2 32 chunk then
    let next := if chunk =? 0 then u64 (start + total)
                else let r := roundUp start chunk in if start =? r then u64 (r + chunk) else r in
    let left_in_chunk := u32 (next - start) in
    let cur := Z.min total left_in_chunk in
    Some (mkGen start next cur (u32 (total - cur)) start chunk)
  else None.

Definition complete (g : ChunkGenerator) : Z := u32 (curAddr g - startAddr g).

Definition done (g : ChunkGenerator) : bool := curSize g =? 0.

Definition next (g : ChunkGenerator) : bool * ChunkGenerator :=
  if sizeLeft g =? 0 then (false, mkGen (curAddr g) (nextAddr g) 0 (sizeLeft g) (startAddr g) (chunkSize g))
  else
    let cur := Z.min (sizeLeft g) (chunkSize g) in
    (true, mkGen (nextAddr g) (u64 (nextAddr g + cur)) cur (u32 (sizeLeft g - cur)) (startAddr g) (chunkSize g)).

Section Loop.
Context {X : Type}.

(** [for (ChunkGenerator gen(...); !gen.done(); gen.next())] with a body that may
    leave the function with [false]. *)
Fixpoint for_chunks (body : Z → Z → X → option (bool * X)) (fuel : nat) (g : ChunkGenerator) (s : X) : option (bool * X) :=
  if done g then Some (true, s)
  else
    match fuel with
    | O => None
    | S fuel =>
        '(ok, s) ← body (curAddr g) (curSize g) s;
        if (ok : bool) then for_chunks body fuel (next g).2 s else Some (false, s)
    end.

(** The size is an [int] that the constructor converts.  A piece has at least
    one byte, so the number of bytes is enough fuel. *)
Definition chunk_loop (body : Z → Z → X → option (bool * X)) (start size chunk : Z) (s : X) : option (bool * X) :=
  g ← ChunkGenerator_new start (u32 size) chunk;
  for_chunks body (Z.to_nat (u32 size)) g s.

End Loop.

(** ** The functional accesses of a port *)

Class FunctionalPeer (M : Type) := {
  sendFunctional : Packet.t → M → option (Packet.t * M);
  peerBlockSize : Z
}.

Section Port.
Context {M : Type} `{FunctionalPeer M}.

(** The buffer, how far the pointer is in it, and the request, which is used for
    every piece. *)
Definition blob_state : Type := list Z * Z * Request.t * M.

Definition blob_piece (t : Z) (cmd : Command) (addr sz : Z) (s : blob_state) : option (bool * blob_state) :=
  let '(buf, pos, req, m) := s in
  req ← Request.setPhys req addr sz 0 t;
  pkt ← Packet.dataStatic (Packet.new t req cmd Packet.Broadcast) (take (Z.to_nat sz) (drop (Z.to_nat pos) buf));
  '(q, m) ← sendFunctional pkt m;
  d ← Packet.getPtr q;
  Some (true, (take (Z.to_nat pos) buf ++ d ++ drop (Z.to_nat (pos + sz)) buf, pos + sz, Packet.req q, m)).

Definition blobHelper (t addr : Z) (p : list Z) (size : Z) (cmd : Command) (m : M) : option (list Z * M) :=
  '(_, s) ← chunk_loop (blob_piece t cmd) addr size peerBlockSize (p, 0, Request.fresh, m);
  let '(buf, _, _, m) := s in Some (buf, m).

Definition writeBlob (t addr : Z) (p : list Z) (size : Z) (m : M) : option M :=
  '(_, m) ← blobHelper t addr p size WriteReq m; Some m.

(** The buffer of [size] bytes is filled. *)
Definition readBlob (t addr : Z) (p : list Z) (size : Z) (m : M) : option (list Z * M) :=
  blobHelper t addr p size ReadReq m.

Definition memsetBlob (t addr val size : Z) (m : M) : option M :=
  let buf := replicate (Z.to_nat size) val in
  '(_, m) ← blobHelper t addr buf size WriteReq m; Some m.

End Port.

#[export] Instance PhysicalMemory_peer : FunctionalPeer PhysicalMemory := {|
  sendFunctional := doFunctionalAccess;
  peerBlockSize := 0
|}.

(** ** The rule of the loop *)

Lemma roundUp_next a k : 0 <= k < 32 → 0 <= a → a + 2 ^ k <= 2 ^ 64 →
  (let r := roundUp a (2 ^ k) in if a =? r then u64 (r + 2 ^ k) else r) = u64 (a + (2 ^ k - a mod 2 ^ k)).
Proof.
  intros Hk Ha Ho. assert (0 < 2 ^ k < 2 ^ 32) by (apply pow2_pos_lt; lia).
  pose proof (Z.mod_pos_bound a (2 ^ k) ltac:(lia)).
  cbn zeta. rewrite roundUp_spec by (unfold is_u64; lia).
  destruct (Z.eq_dec (a mod 2 ^ k) 0) as [E|E].
  - rewrite Z_mod_zero_opp_full by done. rewrite Z.add_0_r, Z.eqb_refl, E. f_equal. lia.
  - rewrite Z_mod_nz_opp_full by done. rewrite (proj2 (Z.eqb_neq _ _)) by lia. symmetry. apply u64_small. unfold is_u64. lia.
Qed.

(** A chunk size that the generator takes: none, or a power of two. *)
Definition chunk_ok (c : Z) : Prop := c = 0 ∨ ∃ k, 0 <= k < 32 ∧ c = 2 ^ k.

(** The length of the piece that starts at [x] with [r] bytes left. *)
Definition piece (x r c : Z) : Z := if c =? 0 then r else Z.min r (c - x mod c).

(** A generator of the pieces of the [n] bytes at [a] that has passed [off] of them. *)
Record gen_at (a n c off : Z) (g : ChunkGenerator) : Prop := {
  ga_addr : curAddr g = a + off;
  ga_chunk : chunkSize g = c;
  ga_size : curSize g = piece (a + off) (n - off) c;
  ga_left : sizeLeft g = n - off - curSize g;
  ga_next : 0 < sizeLeft g → nextAddr g = a + off + curSize g
}.

Lemma chunk_range c : chunk_ok c → 0 <= c < 2 ^ 32.
Proof. intros [->|(k & Hk & ->)]; [lia|]. pose proof (pow2_pos_lt k 32 Hk). lia. Qed.

Section Rule.
Context (a n c : Z).
Hypothesis (Ha : 0 <= a) (Hn : 0 <= n < 2 ^ 31) (Hc : chunk_ok c) (Hend : a + n + c <= 2 ^ 64).

Lemma piece_bounds x r : 0 <= r → 0 <= piece x r c <= r ∧ (0 < r → 0 < piece x r c) ∧
  (c = 0 ∨ x mod c + piece x r c <= c).
Proof.
  intros Hr. unfold piece. pose proof (chunk_range c Hc). destruct (Z.eqb_spec c 0); [split_and!; auto; lia|].
  pose proof (Z.mod_pos_bound x c ltac:(lia)). split_and!; lia.
Qed.

Lemma gen_start : ∃ g, ChunkGenerator_new a n c = Some g ∧ gen_at a n c 0 g.
Proof.
  unfold ChunkGenerator_new. pose proof (chunk_range c Hc) as Hcr. destruct Hc as [->|(k & Hk & ->)].
  - cbn [Z.eqb orb]. eexists. split; [done|].
    assert (u32 (u64 (a + n) - a) = n) as E by ilia.
    split; cbn; rewrite ?E; unfold piece; cbn [Z.eqb]; try lia; rewrite Z.min_id, u32_small by (unfold is_u32; lia); lia.
  - pose proof (pow2_pos_lt k 32 Hk) as Hp. rewrite (proj2 (Z.eqb_neq (2 ^ k) 0)) by lia. cbn [orb].
    rewrite (proj2 (isPowerOf2_spec 32 (2 ^ k) ltac:(lia) ltac:(lia))) by (by exists k). rewrite roundUp_next by lia. eexists. split; [done|].
    pose proof (Z.mod_pos_bound a (2 ^ k) ltac:(lia)) as Hm.
    assert (u32 (u64 (a + (2 ^ k - a mod 2 ^ k)) - a) = 2 ^ k - a mod 2 ^ k) as E.
    { generalize dependent (a mod 2 ^ k). intros r Hr. generalize dependent (2 ^ k). intros. ilia. }
    split; cbn [curAddr nextAddr curSize sizeLeft chunkSize]; rewrite ?E, ?Z.add_0_r, ?Z.sub_0_r; try done.
    + unfold piece. by rewrite (proj2 (Z.eqb_neq (2 ^ k) 0)) by lia.
    + apply u32_small. unfold is_u32. lia.
    + rewrite u32_small by (unfold is_u32; lia). intros Hl. rewrite u64_small by (unfold is_u64; lia). lia.
Qed.

(** The next piece starts at a multiple of the chunk size. *)
Lemma gen_step off g : 0 <= off <= n → gen_at a n c off g → 0 < sizeLeft g →
  c ≠ 0 ∧ (a + (off + curSize g)) mod c = 0 ∧ gen_at a n c (off + curSize g) (next g).2.
Proof.
  intros Ho [Gaddr Gchunk Gsize Gleft Gnext] Hl. pose proof (chunk_range c Hc) as Hcr. specialize (Gnext Hl).
  assert (c ≠ 0) as Hc0 by (intros ->; unfold piece in Gsize; cbn in Gsize; lia).
  pose proof (Z.mod_pos_bound (a + off) c ltac:(lia)) as Hm.
  unfold piece in Gsize. rewrite (proj2 (Z.eqb_neq c 0)) in Gsize by done.
  assert (curSize g = c - (a + off) mod c) as Es by lia.
  assert ((a + (off + curSize g)) mod c = 0) as Hal.
  { rewrite Es. pose proof (Z.div_mod (a + off) c Hc0) as E.
    replace (a + (off + (c - (a + off) mod c))) with (((a + off) / c + 1) * c) by lia. apply Z.mod_mul. done. }
  split_and!; [done|done|]. unfold next. rewrite (proj2 (Z.eqb_neq (sizeLeft g) 0)) by lia.
  cbn [snd]. split; cbn [curAddr nextAddr curSize sizeLeft chunkSize]; [lia|done| | |].
  - unfold piece. rewrite (proj2 (Z.eqb_neq c 0)), Hal by done. rewrite Gchunk. lia.
  - rewrite u32_small by (unfold is_u32; lia). lia.
  - rewrite u32_small by (unfold is_u32; lia). intros Hl2. rewrite u64_small by (unfold is_u64; lia). lia.
Qed.

Context {X : Type} (body : Z → Z → X → option (bool * X)) (I : Z → X → Prop).

(** What the body has to do for a piece: it lies within a chunk, and follows
    pieces that end at one. *)
Definition body_ok : Prop := ∀ off z s,
  0 <= off → 0 < z → off + z <= n → (c = 0 ∨ (a + off) mod c + z <= c) → (off = 0 ∨ c ≠ 0 ∧ (a + off) mod c = 0) →
  I off s → ∃ s', body (a + off) z s = Some (true, s') ∧ I (off + z) s'.

Lemma for_chunks_ok fuel off g s : body_ok → n - off <= Z.of_nat fuel → 0 <= off <= n →
  (off = 0 ∨ c ≠ 0 ∧ (a + off) mod c = 0) → gen_at a n c off g → I off s →
  ∃ s', for_chunks body fuel g s = Some (true, s') ∧ I n s'.
Proof.
  intros Hb. revert off g s. induction fuel as [|fuel IH]; intros off g s Hf Ho Hal Hg HI;
    pose proof (piece_bounds (a + off) (n - off) ltac:(lia)) as (Hp1 & Hp2 & Hp3); rewrite <- (ga_size _ _ _ _ _ Hg) in Hp1, Hp2, Hp3;
    cbn [for_chunks]; unfold done; (destruct (Z.eqb_spec (curSize g) 0) as [E|E]; [exists s; split; [done|]; by replace n with off by lia|]); [lia|].
  rewrite (ga_addr _ _ _ _ _ Hg). destruct (Hb off (curSize g) s) as (s' & -> & HI'); [lia|lia|lia|done|done|done|].
  cbn [mbind option_bind]. destruct (Z.eq_dec (sizeLeft g) 0) as [El|El].
  - exists s'. split.
    + unfold next. rewrite El. cbn [Z.eqb snd]. destruct fuel; reflexivity.
    + pose proof (ga_left _ _ _ _ _ Hg). by replace n with (off + curSize g) by lia.
  - pose proof (ga_left _ _ _ _ _ Hg). destruct (gen_step off g Ho Hg ltac:(lia)) as (Hc0 & Hal' & Hg').
    apply (IH (off + curSize g)); [lia|lia|by right|done|done].
Qed.

Lemma chunk_loop_ok s : body_ok → I 0 s → ∃ s', chunk_loop body a n c s = Some (true, s') ∧ I n s'.
Proof.
  intros Hb HI. unfold chunk_loop. rewrite u32_small by (unfold is_u32; lia).
  destruct gen_start as (g & -> & Hg). cbn [mbind option_bind].
  apply (for_chunks_ok _ 0); try done; [lia|lia|by left].
Qed.

End Rule.

(** ** What clients rely on *)

(** A peer that holds a byte at each address of a range: a functional read
    returns the bytes, a functional write replaces them and nothing else. *)
Class FunctionalMemory (M : Type) `{FunctionalPeer M} := {
  fm_ok : M → Prop;
  fm_byte : M → Z → option Z;
  fm_chunk : chunk_ok peerBlockSize;
  fm_read p m a n d :
    fm_ok m → Packet.cmd p = ReadReq → transfer p a n d → a + n < 2 ^ 64 → present (fm_byte m) a n →
    peerBlockSize = 0 ∨ a mod peerBlockSize + n <= peerBlockSize →
    ∃ q m', sendFunctional p m = Some (q, m') ∧ fm_ok m' ∧ carries q (fm_byte m) a n ∧
      ∀ x, fm_byte m' x = fm_byte m x;
  fm_write p m a n d :
    fm_ok m → Packet.cmd p = WriteReq → transfer p a n d → a + n < 2 ^ 64 → present (fm_byte m) a n →
    peerBlockSize = 0 ∨ a mod peerBlockSize + n <= peerBlockSize →
    ∃ q m', sendFunctional p m = Some (q, m') ∧ fm_ok m' ∧ Packet.getPtr q = Some d ∧
      ∀ x, fm_byte m' x = if decide (a <= x < a + n) then d !! Z.to_nat (x - a) else fm_byte m x
}.

Section PhysicalMemoryLaws.

Lemma memory_functional_read p m a n d :
  mem_ok m → Packet.cmd p = ReadReq → transfer p a n d → present (mem_byte m) a n →
  ∃ q, doFunctionalAccess p m = Some (q, m) ∧ carries q (mem_byte m) a n.
Proof.
  intros Hm Hc Ht Hpr. destruct (host_offset_ok m p a n Hm (proj1 Ht) (proj1 (proj2 Ht)) Hpr) as (Ho & Hlo & Hhi); [apply Ht..|].
  pose proof Ht as (Ha & Hs & Hp & Hl & Hn & Ha0 & Hi).
  destruct (Packet.setData_ok p (pmem m) (a - start m) d n) as (d' & Hsd & Hl' & Hd'); [done..|].
  destruct (respond_read p d' (or_introl Hc)) as (q & _ & Hq).
  exists q. split.
  - unfold doFunctionalAccess. rewrite Ho. cbn [mbind option_bind].
    assert (Packet.isRead p = true) as -> by (unfold Packet.isRead; by rewrite Hc).
    rewrite Hsd. cbn [mbind option_bind]. by rewrite Hq.
  - apply makeResponse_keeps in Hq as (_ & _ & Hqp & _). exists d'. split_and!; [|done|].
    + rewrite Hqp. unfold Packet.getPtr in *. cbn [Packet.flags Packet.data Packet.set_data] in *.
      by destruct (Flags.isSet _ _).
    + intros k Hk. rewrite Hd' by lia. unfold mem_byte. rewrite decide_True by lia. f_equal. lia.
Qed.

Lemma memory_functional_write p m a n d :
  mem_ok m → Packet.cmd p = WriteReq → transfer p a n d → present (mem_byte m) a n →
  ∃ q m', doFunctionalAccess p m = Some (q, m') ∧ mem_ok m' ∧ Packet.getPtr q = Some d ∧
    ∀ x, mem_byte m' x = if decide (a <= x < a + n) then d !! Z.to_nat (x - a) else mem_byte m x.
Proof.
  intros Hm Hc Ht Hpr. destruct (host_offset_ok m p a n Hm (proj1 Ht) (proj1 (proj2 Ht)) Hpr) as (Ho & Hlo & Hhi); [apply Ht..|].
  pose proof Ht as (Ha & Hs & Hp & Hl & Hn & Ha0 & Hi).
  assert (Packet.isRead p = false ∧ Packet.isWrite p = true ∧ Packet.needsResponse p = true) as (Hrd & Hwr & Hnr)
    by (unfold Packet.isRead, Packet.isWrite, Packet.needsResponse; by rewrite Hc).
  destruct (Packet.writeData_ok p (pmem m) (a - start m) d n) as (b & Hwd & Hlb & Hb); [done..|].
  destruct (Packet.makeResponse_total _ Hnr) as [q Hq].
  exists q, (set_pmem m b). split_and!.
  - unfold doFunctionalAccess. rewrite Ho. cbn [mbind option_bind]. rewrite Hrd, Hwr, Hwd. cbn [mbind option_bind]. by rewrite Hq.
  - destruct Hm as [H0 H1]. unfold mem_ok, size in *. cbn. by rewrite Hlb.
  - apply makeResponse_keeps in Hq as (_ & _ & -> & _). done.
  - intros x. unfold mem_byte. cbn [start pmem set_pmem].
    destruct (decide (start m <= x)) as [Hx|Hx]; [|by rewrite decide_False by lia].
    rewrite Hb. destruct (decide _), (decide _); try lia; [f_equal; lia|done].
Qed.

End PhysicalMemoryLaws.

#[export] Program Instance PhysicalMemory_functional : FunctionalMemory PhysicalMemory := {|
  fm_ok := mem_ok; fm_byte := mem_byte
|}.
Next Obligation. by left. Qed.
Next Obligation.
  intros p m a n d Hm Hc Ht _ Hp _. destruct (memory_functional_read p m a n d Hm Hc Ht Hp) as (q & E & Hq).
  by exists q, m.
Qed.
Next Obligation. intros p m a n d Hm Hc Ht _ Hp _. by apply memory_functional_write. Qed.

(** ** Reading and writing of any length *)

Section Blobs.
Context {M : Type} `{FunctionalMemory M}.

(** The packet of a piece. *)
Lemma piece_packet t cmd req addr d : 0 <= addr → 0 < Z.of_nat (length d) →
  ∃ r p, Request.setPhys req addr (Z.of_nat (length d)) 0 t = Some r ∧
    Packet.dataStatic (Packet.new t r cmd Packet.Broadcast) d = Some p ∧
    Packet.cmd p = cmd ∧ transfer p addr (Z.of_nat (length d)) d.
Proof.
  intros Ha Hd. unfold Request.setPhys. rewrite (proj2 (Z.leb_le _ _)) by lia.
  do 2 eexists. split_and!; [done|reflexivity|done|]. unfold transfer. split_and!; try done; lia.
Qed.

Lemma splice_lookup (buf d : list Z) (pos i : nat) : (pos + length d <= length buf)%nat →
  (take pos buf ++ d ++ drop (pos + length d) buf) !! i =
  if decide (pos <= i < pos + length d)%nat then d !! (i - pos)%nat else buf !! i.
Proof.
  intros Hl. destruct (decide _) as [Hi|Hi].
  - rewrite lookup_app_r by (rewrite length_take; lia). rewrite length_take, lookup_app_l by lia. f_equal. lia.
  - destruct (decide (i < pos)%nat).
    + by rewrite lookup_app_l, lookup_take_lt by (rewrite ?length_take; lia).
    + rewrite lookup_app_r by (rewrite length_take; lia). rewrite length_take, lookup_app_r by lia.
      rewrite lookup_drop. f_equal. lia.
Qed.

Lemma splice_length (buf d : list Z) (pos : nat) : (pos + length d <= length buf)%nat →
  length (take pos buf ++ d ++ drop (pos + length d) buf) = length buf.
Proof. intros Hl. rewrite !length_app, length_take, length_drop. lia. Qed.

Lemma slice_length (buf : list Z) (pos z : Z) : 0 <= pos → 0 <= z → pos + z <= Z.of_nat (length buf) →
  Z.of_nat (length (take (Z.to_nat z) (drop (Z.to_nat pos) buf))) = z.
Proof. intros. rewrite length_take, length_drop. lia. Qed.

Lemma readBlob_ok t a buf m : fm_ok m → 0 <= a → Z.of_nat (length buf) < 2 ^ 31 → a < 2 ^ 62 →
  present (fm_byte m) a (Z.of_nat (length buf)) →
  ∃ d m', readBlob t a buf (Z.of_nat (length buf)) m = Some (d, m') ∧ fm_ok m' ∧ length d = length buf ∧
    bytes_at (fm_byte m) a d ∧ ∀ x, fm_byte m' x = fm_byte m x.
Proof.
  intros Hm Ha Hn Hhi Hp. set (n := Z.of_nat (length buf)) in *. pose proof (chunk_range peerBlockSize fm_chunk) as Hcr.
  pose (I := λ (off : Z) (s : blob_state), let '(b, pos, r, m1) := s in
    pos = off ∧ length b = length buf ∧ fm_ok m1 ∧ (∀ x, fm_byte m1 x = fm_byte m x) ∧
    ∀ k : nat, Z.of_nat k < off → b !! k = fm_byte m (a + Z.of_nat k)).
  destruct (chunk_loop_ok a n peerBlockSize ltac:(done) ltac:(lia) fm_chunk ltac:(lia) (blob_piece t ReadReq) I
              (buf, 0, Request.fresh, m)) as ([[[b pos] r] m1] & E & HI).
  - intros off z [[[b pos] r] m1] Ho Hz Hoz Hin _ (-> & Hlb & Hm1 & Hx & Hb).
    pose proof (slice_length b off z Ho ltac:(lia) ltac:(lia)) as Hsl.
    set (d0 := take (Z.to_nat z) (drop (Z.to_nat off) b)) in *.
    destruct (piece_packet t ReadReq r (a + off) d0) as (r1 & p & Er & Ep & Hcmd & Ht); [lia|lia|].
    rewrite Hsl in Er, Ht. destruct (fm_read p m1 (a + off) z d0) as (q & m2 & Es & Hm2 & (d & Hd & Hld & Hdb) & Hx2);
      [done|done|done|lia| |done|].
    { intros k Hk. rewrite Hx, <- Z.add_assoc. apply Hp. lia. }
    eexists. split.
    + unfold blob_piece. rewrite Er. cbn [mbind option_bind]. fold d0. rewrite Ep. cbn [mbind option_bind].
      rewrite Es. cbn [mbind option_bind]. rewrite Hd. reflexivity.
    + replace (Z.to_nat (off + z)) with (Z.to_nat off + length d)%nat by lia. cbn. split_and!; [done| |done| |].
      * rewrite splice_length by lia. done.
      * intros x. by rewrite Hx2.
      * intros k Hk. rewrite splice_lookup by lia. destruct (decide _) as [Hi|Hi]; [|apply Hb; lia].
        rewrite Hdb by lia. rewrite Hx. f_equal. lia.
  - cbn. split_and!; try done. intros k Hk. lia.
  - destruct HI as (_ & Hlb & Hm1 & Hx & Hb). exists b, m1. split_and!; try done.
    + unfold readBlob, blobHelper. rewrite E. reflexivity.
    + intros k Hk. apply Hb. lia.
Qed.

Lemma writeBlob_ok t a d m : fm_ok m → 0 <= a → Z.of_nat (length d) < 2 ^ 31 → a < 2 ^ 62 →
  present (fm_byte m) a (Z.of_nat (length d)) →
  ∃ m', writeBlob t a d (Z.of_nat (length d)) m = Some m' ∧ fm_ok m' ∧
    ∀ x, fm_byte m' x = if decide (a <= x < a + Z.of_nat (length d)) then d !! Z.to_nat (x - a) else fm_byte m x.
Proof.
  intros Hm Ha Hn Hhi Hp. set (n := Z.of_nat (length d)) in *. pose proof (chunk_range peerBlockSize fm_chunk) as Hcr.
  pose (I := λ (off : Z) (s : blob_state), let '(b, pos, r, m1) := s in
    pos = off ∧ b = d ∧ fm_ok m1 ∧
    ∀ x, fm_byte m1 x = if decide (a <= x < a + off) then d !! Z.to_nat (x - a) else fm_byte m x).
  destruct (chunk_loop_ok a n peerBlockSize ltac:(done) ltac:(lia) fm_chunk ltac:(lia) (blob_piece t WriteReq) I
              (d, 0, Request.fresh, m)) as ([[[b pos] r] m1] & E & HI).
  - intros off z [[[b pos] r] m1] Ho Hz Hoz Hin _ (-> & -> & Hm1 & Hx).
    pose proof (slice_length d off z Ho ltac:(lia) ltac:(lia)) as Hsl.
    set (d0 := take (Z.to_nat z) (drop (Z.to_nat off) d)) in *.
    destruct (piece_packet t WriteReq r (a + off) d0) as (r1 & p & Er & Ep & Hcmd & Ht); [lia|lia|].
    rewrite Hsl in Er, Ht. destruct (fm_write p m1 (a + off) z d0) as (q & m2 & Es & Hm2 & Hd & Hx2);
      [done|done|done|lia| |done|].
    { intros k Hk. rewrite Hx, decide_False by lia. rewrite <- Z.add_assoc. apply Hp. lia. }
    eexists. split.
    + unfold blob_piece. rewrite Er. cbn [mbind option_bind]. fold d0. rewrite Ep. cbn [mbind option_bind].
      rewrite Es. cbn [mbind option_bind]. rewrite Hd. reflexivity.
    + cbn. split_and!; [done| |done|].
      * unfold d0. rewrite Z2Nat.inj_add, <- drop_drop, take_drop, take_drop by lia. done.
      * intros x. rewrite Hx2, Hx. unfold d0. repeat case_decide; try lia; [|done|done].
        rewrite lookup_take_lt, lookup_drop by lia. f_equal. lia.
  - cbn. split_and!; try done. intros x. rewrite decide_False by lia. done.
  - destruct HI as (_ & -> & Hm1 & Hx). exists m1. split_and!; try done.
    unfold writeBlob, blobHelper. rewrite E. reflexivity.
Qed.

End Blobs.
