(* ===== verification/VirtPort.v ===== *)
(** The memory of a process, by virtual addresses: the translating port
    ([src/m5/src/mem/translating_port.hh], [translating_port.cc]) over a page
    table and a functional memory, with the growth of the stack
    ([src/m5/src/sim/process.cc]).  A failed assertion, [fatal], [panic], the use
    of an address that was not translated and a read past a buffer are [None]. *)

From S2P Require Import Prelude IntMath Packet PhysMem PageTable PageTableRun Blob.

(** ** The process *)

Record Process := mkProcess { stack_base : Z; stack_min : Z; max_stack_size : Z; p_table : PageTable }.

Definition with_pt (pr : Process) (pt : PageTable) : Process :=
  mkProcess (stack_base pr) (stack_min pr) (max_stack_size pr) pt.

Definition VMPageSize : Z := 2 ^ 13.

(** The loop of [checkAndAllocNextPage]; each turn lowers the stack by a page. *)
Fixpoint grow_stack (fuel : nat) (sys : System) (pr : Process) (vaddr : Z) : option (System * Process) :=
  if vaddr <? stack_min pr then
    match fuel with
    | O => None
    | S fuel =>
        let smin := u64 (stack_min pr - VMPageSize) in
        if max_stack_size pr <? u64 (stack_base pr - smin) then None
        else if 8 * 1024 * 1024 <? u64 (stack_base pr - smin) then None
        else
          '(sys, pt) ← allocate sys (p_table pr) smin VMPageSize;
          grow_stack fuel sys (mkProcess (stack_base pr) smin (max_stack_size pr) pt) vaddr
    end
  else Some (sys, pr).

Definition checkAndAllocNextPage (sys : System) (pr : Process) (vaddr : Z) : option (bool * System * Process) :=
  if (stack_min pr <=? vaddr) && (vaddr <? stack_base pr) then
    '(sys, pt) ← allocate sys (p_table pr) (roundDown vaddr VMPageSize) VMPageSize;
    Some (true, sys, with_pt pr pt)
  else if (vaddr <? stack_min pr) && (u64 (stack_base pr - max_stack_size pr) <=? vaddr) then
    '(sys, pr) ← grow_stack (Z.to_nat ((stack_min pr - vaddr) / VMPageSize + 1)) sys pr vaddr;
    Some (true, sys, pr)
  else Some (false, sys, pr).

(** ** The port *)

Inductive AllocType := Always | Never | NextPage.

(** The system, the process and what is behind the port. *)
Record VM (M : Type) := mkVM { vm_sys : System; vm_proc : Process; vm_mem : M }.
Arguments mkVM {M}.
Arguments vm_sys {M}.
Arguments vm_proc {M}.
Arguments vm_mem {M}.

Section TranslatingPort.
Context {M : Type} `{FunctionalPeer M}.

Definition vm_table (vm : VM M) : PageTable := p_table (vm_proc vm).
Definition with_table (vm : VM M) (pt : PageTable) : VM M := mkVM (vm_sys vm) (with_pt (vm_proc vm) pt) (vm_mem vm).
Definition with_mem (vm : VM M) (m : M) : VM M := mkVM (vm_sys vm) (vm_proc vm) m.

Definition vm_translate (vm : VM M) (vaddr : Z) : option Z * VM M :=
  let '(r, pt) := translate (vm_table vm) vaddr in (r, with_table vm pt).

(** [pTable->allocate(roundDown(addr, VMPageSize), VMPageSize)] *)
Definition vm_allocate (vm : VM M) (addr : Z) : option (VM M) :=
  '(sys, pt) ← allocate (vm_sys vm) (vm_table vm) (roundDown addr VMPageSize) VMPageSize;
  Some (mkVM sys (with_pt (vm_proc vm) pt) (vm_mem vm)).

(** The second translation; its address is used whether or not there is one. *)
Definition retranslate (vm : VM M) (addr : Z) : option (option Z * VM M) :=
  let '(r, vm) := vm_translate vm addr in a ← r; Some (Some a, vm).

Definition read_piece (t addr sz : Z) (s : list Z * Z * VM M) : option (bool * (list Z * Z * VM M)) :=
  let '(p, prevSize, vm) := s in
  let '(r, vm) := vm_translate vm addr in
  match r with
  | None => Some (false, (p, prevSize, vm))
  | Some paddr =>
      '(d, m) ← readBlob t paddr (take (Z.to_nat sz) (drop (Z.to_nat prevSize) p)) sz (vm_mem vm);
      Some (true, (take (Z.to_nat prevSize) p ++ d ++ drop (Z.to_nat (prevSize + sz)) p, prevSize + sz, with_mem vm m))
  end.

Definition tryReadBlob (t addr : Z) (p : list Z) (size : Z) (vm : VM M) : option (bool * list Z * VM M) :=
  '(ok, s) ← chunk_loop (read_piece t) addr size VMPageSize (p, 0, vm);
  let '(p, _, vm) := s in Some (ok, p, vm).

(** The address to write to, when there is one or one is made. *)
Definition write_address (allocating : AllocType) (vm : VM M) (addr : Z) : option (option Z * VM M) :=
  let '(r, vm) := vm_translate vm addr in
  match r, allocating with
  | Some a, _ => Some (Some a, vm)
  | None, Always => vm ← vm_allocate vm addr; retranslate vm addr
  | None, NextPage =>
      '(ok, sys, pr) ← checkAndAllocNextPage (vm_sys vm) (vm_proc vm) addr;
      if (ok : bool) then retranslate (mkVM sys pr (vm_mem vm)) addr else None
  | None, Never => Some (None, vm)
  end.

Definition write_piece (allocating : AllocType) (t : Z) (p : list Z) (addr sz : Z) (s : Z * VM M) : option (bool * (Z * VM M)) :=
  let '(prevSize, vm) := s in
  '(r, vm) ← write_address allocating vm addr;
  match r with
  | None => Some (false, (prevSize, vm))
  | Some paddr =>
      m ← writeBlob t paddr (take (Z.to_nat sz) (drop (Z.to_nat prevSize) p)) sz (vm_mem vm);
      Some (true, (prevSize + sz, with_mem vm m))
  end.

Definition tryWriteBlob (allocating : AllocType) (t addr : Z) (p : list Z) (size : Z) (vm : VM M) : option (bool * VM M) :=
  '(ok, s) ← chunk_loop (write_piece allocating t p) addr size VMPageSize (0, vm); Some (ok, s.2).

(** Only [Always] makes pages here. *)
Definition memset_address (allocating : AllocType) (vm : VM M) (addr : Z) : option (option Z * VM M) :=
  let '(r, vm) := vm_translate vm addr in
  match r, allocating with
  | Some a, _ => Some (Some a, vm)
  | None, Always => vm ← vm_allocate vm addr; retranslate vm addr
  | None, _ => Some (None, vm)
  end.

Definition memset_piece (allocating : AllocType) (t val addr sz : Z) (vm : VM M) : option (bool * VM M) :=
  '(r, vm) ← memset_address allocating vm addr;
  match r with
  | None => Some (false, vm)
  | Some paddr => m ← memsetBlob t paddr val sz (vm_mem vm); Some (true, with_mem vm m)
  end.

Definition tryMemsetBlob (allocating : AllocType) (t addr val size : Z) (vm : VM M) : option (bool * VM M) :=
  chunk_loop (memset_piece allocating t val) addr size VMPageSize vm.

(** The characters of the string are read up to the first zero. *)
Fixpoint tryWriteString (t vaddr : Z) (str : list Z) (vm : VM M) : option (bool * VM M) :=
  match str with
  | [] => None
  | c :: str =>
      let '(r, vm) := vm_translate vm vaddr in
      match r with
      | None => Some (false, vm)
      | Some paddr =>
          m ← writeBlob t paddr [c] 1 (vm_mem vm);
          let vm := with_mem vm m in
          if c =? 0 then Some (true, vm) else tryWriteString t (u64 (vaddr + 1)) str vm
      end
  end.

(** The loop ends at the first zero or at the first page that is not mapped. *)
Fixpoint tryReadString (fuel : nat) (t vaddr : Z) (str : list Z) (vm : VM M) : option (bool * list Z * VM M) :=
  match fuel with
  | O => None
  | S fuel =>
      let '(r, vm) := vm_translate vm vaddr in
      match r with
      | None => Some (false, str, vm)
      | Some paddr =>
          '(d, m) ← readBlob t paddr [0] 1 (vm_mem vm);
          c ← head d;
          let vm := with_mem vm m in
          let str := str ++ [c] in
          if c =? 0 then Some (true, str, vm) else tryReadString fuel t (u64 (vaddr + 1)) str vm
      end
  end.

(** The accesses that must succeed. *)
Definition vm_readBlob (t addr : Z) (p : list Z) (size : Z) (vm : VM M) : option (list Z * VM M) :=
  '(ok, p, vm) ← tryReadBlob t addr p size vm; if (ok : bool) then Some (p, vm) else None.
Definition vm_writeBlob (allocating : AllocType) (t addr : Z) (p : list Z) (size : Z) (vm : VM M) : option (VM M) :=
  '(ok, vm) ← tryWriteBlob allocating t addr p size vm; if (ok : bool) then Some vm else None.
Definition vm_memsetBlob (allocating : AllocType) (t addr val size : Z) (vm : VM M) : option (VM M) :=
  '(ok, vm) ← tryMemsetBlob allocating t addr val size vm; if (ok : bool) then Some vm else None.
Definition writeString (t addr : Z) (str : list Z) (vm : VM M) : option (VM M) :=
  '(ok, vm) ← tryWriteString t addr str vm; if (ok : bool) then Some vm else None.
Definition readString (fuel : nat) (t addr : Z) (str : list Z) (vm : VM M) : option (list Z * VM M) :=
  '(ok, str, vm) ← tryReadString fuel t addr str vm; if (ok : bool) then Some (str, vm) else None.

End TranslatingPort.

(** ** The memory a process sees *)

Definition page_of (v : Z) : Z := v - v mod 2 ^ 13.

Section VirtualMemory.
Context {M : Type} `{FunctionalMemory M}.

Definition vm_entries (vm : VM M) : gmap Z TlbEntry := pTable (vm_table vm).
Definition mapped (vm : VM M) (v : Z) : Prop := is_Some (vm_entries vm !! page_of v).

(** The byte at a virtual address. *)
Definition vbyte (vm : VM M) (v : Z) : option Z :=
  e ← vm_entries vm !! page_of v; fm_byte (vm_mem vm) (te_ppn e * 2 ^ 13 + v mod 2 ^ 13).

(** The table is as allocations make it, and the memory has the pages that the
    system hands out. *)
Record vm_ok (vm : VM M) : Prop := {
  vk_table : pt_ok (vm_sys vm) (vm_table vm);
  vk_mem : fm_ok (vm_mem vm);
  vk_size : mem_size (vm_sys vm) mod 2 ^ 13 = 0;
  vk_bytes : ∀ x, 0 <= x < mem_size (vm_sys vm) → is_Some (fm_byte (vm_mem vm) x)
}.

(** [vm'] comes later: it has the pages of [vm], and others that were handed
    out since. *)
Record later (vm vm' : VM M) : Prop := {
  lt_kept : ∀ p e, vm_entries vm !! p = Some e → vm_entries vm' !! p = Some e;
  lt_new : ∀ p e, vm_entries vm' !! p = Some e → vm_entries vm !! p = Some e ∨ page_ptr (vm_sys vm) <= te_ppn e;
  lt_ptr : page_ptr (vm_sys vm) <= page_ptr (vm_sys vm');
  lt_size : mem_size (vm_sys vm') = mem_size (vm_sys vm)
}.

Lemma later_refl vm : later vm vm.
Proof. split; auto; lia. Qed.

Lemma later_trans vm1 vm2 vm3 : later vm1 vm2 → later vm2 vm3 → later vm1 vm3.
Proof.
  intros [K1 N1 P1 S1] [K2 N2 P2 S3]. split; [auto| |lia|congruence].
  intros p e [H1|H1]%N2; [auto|]. right. lia.
Qed.

(** A physical page that no entry of the table reaches, and that was handed out. *)
Definition foreign (vm : VM M) (x : Z) : Prop :=
  x / 2 ^ 13 < page_ptr (vm_sys vm) ∧ ∀ p e, vm_entries vm !! p = Some e → te_ppn e ≠ x / 2 ^ 13.

Lemma foreign_later vm vm' x : later vm vm' → foreign vm x → foreign vm' x.
Proof.
  intros [K N P S0] [Hx Hf]. split; [lia|]. intros p e [H1|H1]%N; [by eapply Hf|lia].
Qed.

Lemma page_of_range v : 2 ^ 13 <= v → page_of v mod 2 ^ 13 = 0 ∧ 0 < page_of v <= v ∧ v < page_of v + 2 ^ 13.
Proof. unfold page_of. lia. Qed.

(** Translating an address leaves what the process sees. *)
Lemma vm_translate_ok vm v : vm_ok vm → is_u64 v → 2 ^ 13 <= v → ∃ vm',
  vm_translate vm v = ((λ e, te_ppn e * 2 ^ 13 + v mod 2 ^ 13) <$> vm_entries vm !! page_of v, vm') ∧
  vm_ok vm' ∧ vm_sys vm' = vm_sys vm ∧ vm_mem vm' = vm_mem vm ∧ vm_entries vm' = vm_entries vm.
Proof.
  intros [Ht Hm Hs Hb] Hv Hlo. pose proof (translate_ok _ _ _ Ht Hv Hlo) as E.
  destruct (lookup_ok _ _ v Ht) as (pt' & El & Hok & Hpt & _).
  unfold vm_translate. pose proof (translate_table (vm_table vm) v) as E2. rewrite El in E2. cbn [snd] in E2.
  destruct (translate (vm_table vm) v) as [r pt1]. cbn [fst snd] in E, E2. subst pt1 r.
  eexists. split; [reflexivity|]. split_and!; [|done|done|exact Hpt]. by split.
Qed.

(** The bytes of a mapped page are in memory. *)
Lemma mapped_present vm p e o : vm_ok vm → vm_entries vm !! p = Some e → 0 <= o < 2 ^ 13 →
  0 <= te_ppn e < 2 ^ 18 ∧ is_Some (fm_byte (vm_mem vm) (te_ppn e * 2 ^ 13 + o)).
Proof.
  intros [Ht Hm Hs Hb] He Ho. destruct (pk_ppn _ _ Ht _ _ He) as [H1 H2]. pose proof (pk_ptr _ _ Ht).
  split; [lia|]. apply Hb. lia.
Qed.

Lemma mapped_byte vm v : vm_ok vm → mapped vm v → is_Some (vbyte vm v).
Proof.
  intros Hok [e He]. unfold vbyte. rewrite He. cbn. eapply mapped_present; [done|done|]. apply Z.mod_pos_bound. lia.
Qed.

Lemma vbyte_mapped vm v : is_Some (vbyte vm v) → mapped vm v.
Proof. unfold vbyte, mapped. destruct (vm_entries vm !! page_of v); [by eexists|]. by intros [? ?]. Qed.

(** Making the page of an address. *)
Lemma vm_allocate_ok vm v : vm_ok vm → is_u64 v → ¬ mapped vm v →
  page_ptr (vm_sys vm) < 2 ^ 18 → page_ptr (vm_sys vm) * 2 ^ 13 < mem_size (vm_sys vm) →
  ∃ vm', vm_allocate vm v = Some vm' ∧ vm_ok vm' ∧ later vm vm' ∧ mapped vm' v ∧
    page_ptr (vm_sys vm') = page_ptr (vm_sys vm) + 1 ∧ vm_mem vm' = vm_mem vm.
Proof.
  intros [Ht Hm Hs Hb] Hv Hno H2G Hfit. pose proof (pk_ptr _ _ Ht) as Hptr.
  assert (is_u64 (page_of v) ∧ page_of v mod 2 ^ 13 = 0) as [Hp Ha] by (unfold page_of, is_u64 in *; lia).
  assert (vm_entries vm !! page_of v = None) as Hn by (by apply eq_None_not_Some).
  unfold vm_allocate, VMPageSize. rewrite roundDown_spec by (done || lia). fold (page_of v).
  rewrite (allocate_one _ _ _ Ht Ha Hn H2G Hfit). eexists. split; [reflexivity|]. set (vm' := mkVM _ _ _).
  set (e := TlbEntry_new (M5_pid (vm_table vm)) (page_of v) (page_ptr (vm_sys vm) * 2 ^ 13)).
  assert (vm_entries vm' = <[page_of v := e]> (vm_entries vm)) as Hent by reflexivity.
  assert (te_ppn e = page_ptr (vm_sys vm)) as Hppn by (cbn; apply vpn_page; lia).
  split_and!; [split; try done; by apply map_page_ok|split| |done|done].
  - intros p f Hf. rewrite Hent, lookup_insert_ne; [done|]. intros <-. congruence.
  - intros p f. rewrite Hent, lookup_insert_Some. intros [[_ <-]|[_ Hf]]; [right; lia|by left].
  - cbn. lia.
  - done.
  - unfold mapped. rewrite Hent, lookup_insert_eq. by eexists.
Qed.

(** Writing within a page. *)
Lemma write_page vm v e d m' : vm_ok vm → is_u64 v → 2 ^ 13 <= v → v mod 2 ^ 13 + Z.of_nat (length d) <= 2 ^ 13 →
  vm_entries vm !! page_of v = Some e → fm_ok m' →
  (∀ x, let pa := te_ppn e * 2 ^ 13 + v mod 2 ^ 13 in
     fm_byte m' x = if decide (pa <= x < pa + Z.of_nat (length d)) then d !! Z.to_nat (x - pa) else fm_byte (vm_mem vm) x) →
  vm_ok (with_mem vm m') ∧
  (∀ w, mapped vm w → vbyte (with_mem vm m') w =
     if decide (v <= w < v + Z.of_nat (length d)) then d !! Z.to_nat (w - v) else vbyte vm w) ∧
  (∀ x, foreign vm x → fm_byte m' x = fm_byte (vm_mem vm) x).
Proof.
  intros [Ht Hm Hs Hb] Hv Hlo Hd He Hm' Hx. cbn zeta in Hx. split; [split; try done|split].
  - intros x Hr. cbn in *. rewrite Hx. destruct (decide _) as [Hi|Hi]; [apply lookup_lt_is_Some_2; lia|by apply Hb].
  - intros w [f Hf]. unfold vbyte. change (vm_entries (with_mem vm m')) with (vm_entries vm). rewrite Hf. cbn. rewrite Hx.
    destruct (decide (v <= w < _)) as [Hi|Hi].
    + assert (page_of w = page_of v) as Hp by (unfold page_of in *; lia).
      rewrite Hp, He in Hf. injection Hf as <-. unfold page_of in Hp. rewrite decide_True by lia. f_equal. lia.
    + rewrite decide_False; [done|]. intros Hin. apply Hi.
      assert (te_ppn f = te_ppn e) as Hpp by lia.
      pose proof (pk_inj _ _ Ht _ _ _ _ Hf He Hpp) as Hp. unfold page_of in Hp. lia.
  - intros x [_ Hf]. rewrite Hx, decide_False; [done|]. intros Hin. apply (Hf _ _ He). lia.
Qed.

End VirtualMemory.

Section VirtualAccess.
Context {M : Type} `{FunctionalMemory M}.

(** There is a page left to hand out. *)
Definition page_left (sys : System) : Prop := page_ptr sys < 2 ^ 18 ∧ page_ptr sys * 2 ^ 13 < mem_size sys.

(** The address to write to is that of the page, which is made if need be. *)
Lemma write_address_ok al vm v : vm_ok vm → is_u64 v → 2 ^ 13 <= v →
  mapped vm v ∨ al = Always ∧ page_left (vm_sys vm) →
  ∃ e vm', write_address al vm v = Some (Some (te_ppn e * 2 ^ 13 + v mod 2 ^ 13), vm') ∧
    vm_entries vm' !! page_of v = Some e ∧ vm_ok vm' ∧ later vm vm' ∧ vm_mem vm' = vm_mem vm ∧
    page_ptr (vm_sys vm') <= page_ptr (vm_sys vm) + 1.
Proof.
  intros Hok Hv Hlo Hcase. destruct (vm_translate_ok vm v Hok Hv Hlo) as (vm1 & Et & Hok1 & Hs1 & Hm1 & He1).
  assert (later vm vm1) as Hl1 by (split; rewrite ?He1, ?Hs1; auto; lia).
  unfold write_address. rewrite Et. destruct (vm_entries vm !! page_of v) as [e|] eqn:Ee; cbn [fmap option_fmap option_map].
  { exists e, vm1. split_and!; try done; rewrite ?He1, ?Hs1; auto; lia. }
  destruct Hcase as [[f Hf]|[-> [H2G Hfit]]]; [unfold mapped in Hf; congruence|].
  destruct (vm_allocate_ok vm1 v Hok1 Hv) as (vm2 & -> & Hok2 & Hl2 & [e He] & Hp2 & Hm2).
  { unfold mapped. rewrite He1, Ee. by intros [? ?]. }
  { by rewrite Hs1. } { by rewrite Hs1. }
  cbn [mbind option_bind]. unfold retranslate.
  destruct (vm_translate_ok vm2 v Hok2 Hv Hlo) as (vm3 & Et3 & Hok3 & Hs3 & Hm3 & He3).
  rewrite Et3, He. cbn [fmap option_fmap option_map mbind option_bind].
  exists e, vm3. split_and!; [done|congruence|done| |congruence|rewrite Hs3, Hp2, Hs1; lia].
  eapply later_trans; [exact Hl1|]. eapply later_trans; [exact Hl2|]. split; rewrite ?He3, ?Hs3; auto; lia.
Qed.

(** What a write to the [d] bytes at [v] has done. *)
Record written (vm : VM M) (v : Z) (d : list Z) (vm' : VM M) : Prop := {
  wr_ok : vm_ok vm';
  wr_later : later vm vm';
  wr_range : ∀ k : nat, (k < length d)%nat → vbyte vm' (v + Z.of_nat k) = d !! k;
  wr_rest : ∀ w, mapped vm w → ¬ (v <= w < v + Z.of_nat (length d)) → vbyte vm' w = vbyte vm w;
  wr_foreign : ∀ x, foreign vm x → fm_byte (vm_mem vm') x = fm_byte (vm_mem vm) x
}.

Lemma vbyte_same vm vm' w : later vm vm' → vm_mem vm' = vm_mem vm → mapped vm w → vbyte vm' w = vbyte vm w.
Proof.
  intros Hl Hm [e He]. unfold vbyte. rewrite He, (lt_kept _ _ Hl _ _ He). cbn. by rewrite Hm.
Qed.

Lemma later_mapped (vm vm' : VM M) w : later vm vm' → mapped vm w → mapped vm' w.
Proof. intros Hl [e He]. exists e. by apply (lt_kept _ _ Hl). Qed.

Lemma write_piece_ok al t p vm v prev z : vm_ok vm → is_u64 v → 2 ^ 13 <= v →
  0 <= prev → 0 < z → prev + z <= Z.of_nat (length p) → v mod 2 ^ 13 + z <= 2 ^ 13 →
  mapped vm v ∨ al = Always ∧ page_left (vm_sys vm) →
  ∃ vm', write_piece al t p v z (prev, vm) = Some (true, (prev + z, vm')) ∧
    written vm v (take (Z.to_nat z) (drop (Z.to_nat prev) p)) vm' ∧
    page_ptr (vm_sys vm') <= page_ptr (vm_sys vm) + 1.
Proof.
  intros Hok Hv Hlo Hp Hz Hlen Hin Hcase.
  destruct (write_address_ok al vm v Hok Hv Hlo Hcase) as (e & vm1 & Ea & He & Hok1 & Hl1 & Hm1 & Hptr).
  pose proof (slice_length p prev z Hp ltac:(lia) Hlen) as Hsl. set (d := take (Z.to_nat z) (drop (Z.to_nat prev) p)) in *.
  pose proof (Z.mod_pos_bound v (2 ^ 13) ltac:(lia)) as Hvm.
  destruct (mapped_present vm1 _ e (v mod 2 ^ 13) Hok1 He Hvm) as [Hppn _].
  destruct (writeBlob_ok t (te_ppn e * 2 ^ 13 + v mod 2 ^ 13) d (vm_mem vm1)) as (m' & Ew & Hm' & Hx);
    [apply Hok1|lia|lia|lia| |].
  { intros k Hk. rewrite <- Z.add_assoc. eapply mapped_present; [done|exact He|lia]. }
  exists (with_mem vm1 m'). split_and!; [| |done].
  - unfold write_piece. rewrite Ea. cbn [mbind option_bind]. fold d. rewrite Hsl in Ew. by rewrite Ew.
  - destruct (write_page vm1 v e d m' Hok1 Hv Hlo ltac:(lia) He Hm' Hx) as (Hok2 & Hvb & Hfor).
    split; [done|by destruct Hl1| | |].
    + intros k Hk. rewrite Hvb, decide_True by lia || (exists e; rewrite <- He; f_equal; unfold page_of; lia). f_equal. lia.
    + intros w Hw Hout. rewrite Hvb, decide_False by (done || by eapply later_mapped).
      by apply vbyte_same.
    + intros x Hfx. cbn. rewrite Hfor by (by eapply foreign_later). by rewrite Hm1.
Qed.

(** Two writes one after the other are one. *)
Lemma written_app vm v d1 vm1 d2 vm2 : written vm v d1 vm1 → written vm1 (v + Z.of_nat (length d1)) d2 vm2 →
  written vm v (d1 ++ d2) vm2.
Proof.
  intros [K1 L1 R1 O1 F1] [K2 L2 R2 O2 F2].
  split; [done|by eapply later_trans| | |].
  - intros k Hk. rewrite length_app in Hk. destruct (decide (k < length d1)%nat) as [Hlt|Hge].
    + rewrite lookup_app_l by done. rewrite <- R1 by done. apply O2; [|lia].
      apply vbyte_mapped. rewrite R1 by done. by apply lookup_lt_is_Some_2.
    + rewrite lookup_app_r by lia. rewrite <- R2 by lia. f_equal. lia.
  - intros w Hw Hout. rewrite length_app in Hout. rewrite O2, O1; [done|done|lia| |lia]. by eapply later_mapped.
  - intros x Hx. rewrite F2, F1; [done|done|]. by eapply foreign_later.
Qed.

(** The number of pages of a range. *)
Definition page_count (v n : Z) : Z := if n =? 0 then 0 else (v + n - 1) / 2 ^ 13 - v / 2 ^ 13 + 1.

(** Either every page of the range is mapped, or the port makes pages and there
    are enough. *)
Definition range_ready (al : AllocType) (vm : VM M) (v n : Z) : Prop :=
  (∀ w, v <= w < v + n → mapped vm w) ∨
  al = Always ∧ page_ptr (vm_sys vm) + page_count v n <= 2 ^ 18 ∧
  (page_ptr (vm_sys vm) + page_count v n) * 2 ^ 13 <= mem_size (vm_sys vm).

Lemma page_count_step v off z : 0 <= off → 0 < z →
  (v + off) mod 2 ^ 13 + z <= 2 ^ 13 → off = 0 ∨ VMPageSize ≠ 0 ∧ (v + off) mod 2 ^ 13 = 0 →
  page_count v off + 1 = page_count v (off + z).
Proof. intros Ho Hz Hin Hal. unfold page_count. destruct Hal as [->|[_ Hal]]; repeat zcase; lia. Qed.

Lemma page_count_le v n1 n2 : 0 <= n1 <= n2 → page_count v n1 <= page_count v n2.
Proof. intros Hn. unfold page_count. repeat zcase; lia. Qed.

(** After the first [off] bytes of a range the next piece can be written. *)
Lemma range_piece_ready al vm v n d1 vm1 off z : range_ready al vm v n → written vm v d1 vm1 →
  page_ptr (vm_sys vm1) <= page_ptr (vm_sys vm) + page_count v off → 0 <= off → 0 < z → off + z <= n →
  page_count v off + 1 = page_count v (off + z) →
  mapped vm1 (v + off) ∨ al = Always ∧ page_left (vm_sys vm1).
Proof.
  intros [Hall|(-> & H2G & Hfit)] Hw Hptr Ho Hz Hoz Hcnt.
  - left. eapply later_mapped; [exact (wr_later _ _ _ _ Hw)|]. apply Hall. lia.
  - right. split; [done|]. unfold page_left. rewrite (lt_size _ _ (wr_later _ _ _ _ Hw)).
    pose proof (page_count_le v (off + z) n). lia.
Qed.

Lemma written_nil vm v : vm_ok vm → written vm v [] vm.
Proof. intros Hok. split; [done|apply later_refl|cbn; lia|done|done]. Qed.

Lemma tryWriteBlob_ok al t v d vm : vm_ok vm → 2 ^ 13 <= v → v + Z.of_nat (length d) + 2 ^ 13 <= 2 ^ 64 →
  Z.of_nat (length d) < 2 ^ 31 → range_ready al vm v (Z.of_nat (length d)) →
  ∃ vm', tryWriteBlob al t v d (Z.of_nat (length d)) vm = Some (true, vm') ∧ written vm v d vm'.
Proof.
  intros Hok Hlo Hend Hn Hready. set (n := Z.of_nat (length d)) in *.
  pose (I := λ (off : Z) (s : Z * VM M), s.1 = off ∧ written vm v (take (Z.to_nat off) d) s.2 ∧
    page_ptr (vm_sys s.2) <= page_ptr (vm_sys vm) + page_count v off).
  destruct (chunk_loop_ok v n VMPageSize ltac:(lia) ltac:(lia) ltac:(right; by exists 13) ltac:(unfold VMPageSize; lia)
              (write_piece al t d) I (0, vm)) as ([prev vm'] & E & (_ & Hw & _)).
  - intros off z [prev vm1] Ho Hz Hoz Hin Hal (E & Hw & Hptr). cbn [fst snd] in E, Hw, Hptr. subst prev.
    destruct Hin as [Hin|Hin]; [done|]. pose proof (page_count_step v off z Ho Hz Hin Hal) as Hcnt.
    assert (is_u64 (v + off)) as Hu by (unfold is_u64; lia).
    destruct (write_piece_ok al t d vm1 (v + off) off z (wr_ok _ _ _ _ Hw) Hu) as (vm2 & E2 & Hw2 & Hptr2); try lia; [done|by eapply range_piece_ready|].
    exists (off + z, vm2). split; [done|]. split_and!; cbn [fst snd]; [done| |lia].
    assert (take (Z.to_nat (off + z)) d = take (Z.to_nat off) d ++ take (Z.to_nat z) (drop (Z.to_nat off) d)) as ->.
    { rewrite Z2Nat.inj_add by lia. symmetry. apply take_take_drop. }
    eapply written_app; [exact Hw|]. rewrite length_take. by replace (v + Z.of_nat (Z.to_nat off `min` length d)) with (v + off) by lia.
  - split_and!; cbn [fst snd]; [done|by apply written_nil|unfold page_count; cbn; lia].
  - exists vm'. unfold tryWriteBlob. rewrite E. split; [done|]. cbn [snd] in Hw. by rewrite take_ge in Hw by lia.
Qed.

(** A piece of [tryMemsetBlob] is a piece of a write of equal bytes; pages are
    only made with [Always]. *)
Definition memset_alloc (al : AllocType) : AllocType := match al with Always => Always | _ => Never end.

Lemma memset_piece_write al t val v z vm vm' : 0 <= z →
  write_piece (memset_alloc al) t (replicate (Z.to_nat z) val) v z (0, vm) = Some (true, (z, vm')) →
  memset_piece al t val v z vm = Some (true, vm').
Proof.
  intros Hz. unfold write_piece, memset_piece.
  assert (memset_address al vm v = write_address (memset_alloc al) vm v) as ->
    by (unfold memset_address, write_address; by destruct (vm_translate vm v) as [[a|] vm1], al).
  destruct (write_address _ vm v) as [[[a|] vm1]|]; cbn [mbind option_bind]; [|done|done].
  rewrite drop_0, take_ge by (by rewrite length_replicate).
  unfold memsetBlob, writeBlob. destruct (blobHelper _ _ _ _ _ _) as [[b m]|]; cbn; [|done]. by intros [= <-].
Qed.

Lemma tryMemsetBlob_ok al t v val n vm : vm_ok vm → 2 ^ 13 <= v → v + n + 2 ^ 13 <= 2 ^ 64 →
  0 <= n < 2 ^ 31 → range_ready (memset_alloc al) vm v n →
  ∃ vm', tryMemsetBlob al t v val n vm = Some (true, vm') ∧ written vm v (replicate (Z.to_nat n) val) vm'.
Proof.
  intros Hok Hlo Hend Hn Hready.
  pose (I := λ (off : Z) (vm1 : VM M), written vm v (replicate (Z.to_nat off) val) vm1 ∧
    page_ptr (vm_sys vm1) <= page_ptr (vm_sys vm) + page_count v off).
  destruct (chunk_loop_ok v n VMPageSize ltac:(lia) ltac:(lia) ltac:(right; by exists 13) ltac:(unfold VMPageSize; lia)
              (memset_piece al t val) I vm) as (vm' & E & (Hw & _)).
  - intros off z vm1 Ho Hz Hoz Hin Hal (Hw & Hptr).
    destruct Hin as [Hin|Hin]; [done|]. pose proof (page_count_step v off z Ho Hz Hin Hal) as Hcnt.
    assert (is_u64 (v + off)) as Hu by (unfold is_u64; lia).
    destruct (write_piece_ok (memset_alloc al) t (replicate (Z.to_nat z) val) vm1 (v + off) 0 z (wr_ok _ _ _ _ Hw) Hu)
      as (vm2 & E2 & Hw2 & Hptr2); rewrite ?length_replicate; try lia; [done|by eapply range_piece_ready|].
    exists vm2. split; [by apply memset_piece_write; [lia|]|]. split; [|lia].
    rewrite Z2Nat.inj_add, replicate_add by lia. eapply written_app; [exact Hw|].
    rewrite drop_0, take_ge in Hw2 by (by rewrite length_replicate). rewrite length_replicate, Z2Nat.id by lia. done.
  - split; [by apply written_nil|unfold page_count; cbn; lia].
  - exists vm'. by split.
Qed.

End VirtualAccess.
