(* ===== verification/VirtRun.v ===== *)
(** Reads, strings and the stack of a process by virtual addresses, and what they
    say about writes: the memory of a process is a memory of bytes. *)

From S2P Require Import Prelude IntMath Packet PhysMem PageTable PageTableRun Blob VirtPort.

Section Reads.
Context {M : Type} `{FunctionalMemory M}.

(** A state with the same pages and the same bytes. *)
Record unchanged (vm vm' : VM M) : Prop := {
  un_ok : vm_ok vm';
  un_sys : vm_sys vm' = vm_sys vm;
  un_entries : vm_entries vm' = vm_entries vm;
  un_bytes : ∀ x, fm_byte (vm_mem vm') x = fm_byte (vm_mem vm) x
}.

Lemma unchanged_refl vm : vm_ok vm → unchanged vm vm.
Proof. by split. Qed.

Lemma unchanged_trans vm1 vm2 vm3 : unchanged vm1 vm2 → unchanged vm2 vm3 → unchanged vm1 vm3.
Proof. intros [K1 S1 E1 B1] [K2 S2' E2 B2]. split; [done|congruence|congruence|]. intros x. by rewrite B2. Qed.

Lemma unchanged_vbyte vm vm' w : unchanged vm vm' → vbyte vm' w = vbyte vm w.
Proof.
  intros [_ _ E B]. unfold vbyte. rewrite E. destruct (vm_entries vm !! page_of w) as [e|]; [|done]. cbn. apply B.
Qed.

Lemma unchanged_mapped vm vm' w : unchanged vm vm' → mapped vm w → mapped vm' w.
Proof. intros [_ _ E _]. unfold mapped. by rewrite E. Qed.

Lemma read_piece_ok t p vm v prev z : vm_ok vm → is_u64 v → 2 ^ 13 <= v → mapped vm v →
  0 <= prev → 0 < z → prev + z <= Z.of_nat (length p) → v mod 2 ^ 13 + z <= 2 ^ 13 →
  ∃ d vm', read_piece t v z (p, prev, vm) =
      Some (true, (take (Z.to_nat prev) p ++ d ++ drop (Z.to_nat (prev + z)) p, prev + z, vm')) ∧
    Z.of_nat (length d) = z ∧ bytes_at (vbyte vm) v d ∧ unchanged vm vm'.
Proof.
  intros Hok Hv Hlo [e He] Hp Hz Hlen Hin. destruct (vm_translate_ok vm v Hok Hv Hlo) as (vm1 & Et & Hok1 & Hs1 & Hm1 & He1).
  rewrite He in Et. cbn [fmap option_fmap option_map] in Et.
  pose proof (slice_length p prev z Hp ltac:(lia) Hlen) as Hsl. set (b := take (Z.to_nat z) (drop (Z.to_nat prev) p)) in *.
  pose proof (Z.mod_pos_bound v (2 ^ 13) ltac:(lia)) as Hvm.
  destruct (mapped_present vm _ e (v mod 2 ^ 13) Hok He Hvm) as [Hppn _].
  destruct (readBlob_ok t (te_ppn e * 2 ^ 13 + v mod 2 ^ 13) b (vm_mem vm1)) as (d & m' & Er & Hm' & Hld & Hd & Hx);
    [apply Hok1|lia|lia|lia| |].
  { intros k Hk. rewrite <- Z.add_assoc, Hm1. eapply mapped_present; [done|exact He|lia]. }
  exists d, (with_mem vm1 m'). split_and!; [|lia| |].
  - unfold read_piece. rewrite Et. fold b. rewrite Hsl in Er. by rewrite Er.
  - intros k Hk. rewrite Hd by done. unfold vbyte.
    assert (page_of (v + Z.of_nat k) = page_of v) as -> by (unfold page_of; lia). rewrite He. cbn. rewrite Hm1. f_equal. lia.
  - destruct Hok1 as [Ht1 _ Hz1 Hb1]. split; [|done|done|].
    + split; try done. intros x Hr. cbn. rewrite Hx. by apply Hb1.
    + intros x. cbn. by rewrite Hx, Hm1.
Qed.

Lemma tryReadBlob_ok t v buf vm : vm_ok vm → 2 ^ 13 <= v → v + Z.of_nat (length buf) + 2 ^ 13 <= 2 ^ 64 →
  Z.of_nat (length buf) < 2 ^ 31 → (∀ w, v <= w < v + Z.of_nat (length buf) → mapped vm w) →
  ∃ d vm', tryReadBlob t v buf (Z.of_nat (length buf)) vm = Some (true, d, vm') ∧ length d = length buf ∧
    bytes_at (vbyte vm) v d ∧ unchanged vm vm'.
Proof.
  intros Hok Hlo Hend Hn Hmap. set (n := Z.of_nat (length buf)) in *.
  pose (I := λ (off : Z) (s : list Z * Z * VM M), s.1.2 = off ∧ length s.1.1 = length buf ∧ unchanged vm s.2 ∧
    ∀ k : nat, Z.of_nat k < off → s.1.1 !! k = vbyte vm (v + Z.of_nat k)).
  destruct (chunk_loop_ok v n VMPageSize ltac:(lia) ltac:(lia) ltac:(right; by exists 13) ltac:(unfold VMPageSize; lia)
              (read_piece t) I (buf, 0, vm)) as ([[b prev] vm'] & E & (_ & Hlb & Hun & Hb)).
  - intros off z [[b prev] vm1] Ho Hz Hoz Hin _ (E & Hlb & Hun & Hb). cbn [fst snd] in E, Hlb, Hun, Hb. subst prev.
    destruct Hin as [Hin|Hin]; [done|]. assert (is_u64 (v + off)) as Hu by (unfold is_u64; lia).
    destruct (read_piece_ok t b vm1 (v + off) off z (un_ok _ _ Hun) Hu) as (d & vm2 & E2 & Hld & Hd & Hun2); try lia; [|done|].
    { eapply unchanged_mapped; [exact Hun|]. apply Hmap. lia. }
    eexists. split; [exact E2|]. replace (Z.to_nat (off + z)) with (Z.to_nat off + length d)%nat by lia.
    split_and!; cbn [fst snd]; [done|rewrite splice_length by lia; done|by eapply unchanged_trans|].
    intros k Hk. rewrite splice_lookup by lia. destruct (decide _) as [Hi|Hi]; [|apply Hb; lia].
    rewrite Hd by lia. rewrite (unchanged_vbyte _ _ _ Hun). f_equal. lia.
  - split_and!; cbn [fst snd]; [done|done|by apply unchanged_refl|lia].
  - exists b, vm'. unfold tryReadBlob. rewrite E. split_and!; try done. intros k Hk. apply Hb. cbn in Hlb. lia.
Qed.

(** ** Blobs *)

(** C25. Virtual memory holds what is written to it. A write of any number of
    bytes beyond the first page, across pages and over pages that are made on
    the way when the port may make them, succeeds; reading the range back gives
    the bytes that were written.  Every other address of the process that was
    mapped keeps its byte, and so does every physical page that other processes
    were given. *)
Theorem virtual_blob_roundtrip al t v d vm : vm_ok vm → 2 ^ 13 <= v → v + Z.of_nat (length d) + 2 ^ 13 <= 2 ^ 64 →
  Z.of_nat (length d) < 2 ^ 31 → range_ready al vm v (Z.of_nat (length d)) →
  ∃ vm', tryWriteBlob al t v d (Z.of_nat (length d)) vm = Some (true, vm') ∧ vm_ok vm' ∧
    (∀ t' buf, length buf = length d →
       ∃ vm'', tryReadBlob t' v buf (Z.of_nat (length d)) vm' = Some (true, d, vm'')) ∧
    (∀ w, mapped vm w → ¬ (v <= w < v + Z.of_nat (length d)) → vbyte vm' w = vbyte vm w) ∧
    (∀ x, foreign vm x → fm_byte (vm_mem vm') x = fm_byte (vm_mem vm) x).
Proof.
  intros Hok Hlo Hend Hn Hready. destruct (tryWriteBlob_ok al t v d vm Hok Hlo Hend Hn Hready) as (vm' & E & [K L R O F]).
  exists vm'. split_and!; try done. intros t' buf Hl. rewrite <- Hl in Hend, Hn |- *.
  destruct (tryReadBlob_ok t' v buf vm' K Hlo Hend Hn) as (d' & vm'' & -> & Hl' & Hd' & _).
  { intros w Hw. apply vbyte_mapped. replace w with (v + Z.of_nat (Z.to_nat (w - v))) by lia.
    rewrite R by lia. apply lookup_lt_is_Some_2. lia. }
  exists vm''. do 3 f_equal. apply list_eq_same_length with (length d); [lia|lia|].
  intros k x y Hk Hx Hy. rewrite Hd' in Hx by lia. rewrite R in Hx by lia. congruence.
Qed.

(** ** Strings *)

Lemma tryWriteString_turn t v c str vm vm' : write_piece Never t [c] v 1 (0, vm) = Some (true, (1, vm')) →
  tryWriteString t v (c :: str) vm =
  if c =? 0 then Some (true, vm') else tryWriteString t (u64 (v + 1)) str vm'.
Proof.
  unfold write_piece, write_address. cbn [tryWriteString]. destruct (vm_translate vm v) as [[a|] vm1]; cbn [mbind option_bind]; [|done].
  change (take (Z.to_nat 1) (drop (Z.to_nat 0) [c])) with [c].
  destruct (writeBlob t a [c] 1 (vm_mem vm1)) as [m|]; cbn [mbind option_bind]; [|done]. by intros [= <-].
Qed.

Lemma tryWriteString_ok t s rest v vm : Forall (λ c, c ≠ 0) s → vm_ok vm → 2 ^ 13 <= v → v + Z.of_nat (length s) < 2 ^ 64 →
  (∀ w, v <= w <= v + Z.of_nat (length s) → mapped vm w) →
  ∃ vm', tryWriteString t v (s ++ 0 :: rest) vm = Some (true, vm') ∧ written vm v (s ++ [0]) vm'.
Proof.
  intros Hs. revert v vm. induction Hs as [|c s Hc Hs IH]; intros v vm Hok Hlo Hend Hmap; cbn [length app] in *.
  all: assert (is_u64 v) as Hu by (unfold is_u64; lia).
  - destruct (write_piece_ok Never t [0] vm v 0 1 Hok Hu Hlo) as (vm1 & E1 & Hw1 & _); cbn [length]; try lia; [left; apply Hmap; lia|].
    exists vm1. by rewrite (tryWriteString_turn t v 0 rest vm vm1 E1).
  - destruct (write_piece_ok Never t [c] vm v 0 1 Hok Hu Hlo) as (vm1 & E1 & Hw1 & _); cbn [length]; try lia; [left; apply Hmap; lia|].
    change (take (Z.to_nat 1) (drop (Z.to_nat 0) [c])) with [c] in Hw1.
    rewrite (tryWriteString_turn t v c (s ++ 0 :: rest) vm vm1 E1), (proj2 (Z.eqb_neq c 0)) by done. rewrite u64_small by (unfold is_u64; lia).
    destruct (IH (v + 1) vm1 (wr_ok _ _ _ _ Hw1)) as (vm2 & E2 & Hw2); [lia|lia| |].
    { intros w Hw. eapply later_mapped; [exact (wr_later _ _ _ _ Hw1)|]. apply Hmap. lia. }
    exists vm2. split; [done|]. by apply (written_app vm v [c] vm1).
Qed.

Lemma tryReadString_ok t s v acc vm fuel : Forall (λ c, c ≠ 0) s → vm_ok vm → 2 ^ 13 <= v → v + Z.of_nat (length s) < 2 ^ 64 →
  bytes_at (vbyte vm) v (s ++ [0]) → (length s < fuel)%nat →
  ∃ vm', tryReadString fuel t v acc vm = Some (true, acc ++ s ++ [0], vm') ∧ unchanged vm vm'.
Proof.
  intros Hs. revert v acc vm fuel. induction Hs as [|c s Hc Hs IH]; intros v acc vm fuel Hok Hlo Hend Hb Hf;
    (destruct fuel as [|fuel]; [cbn in Hf; lia|]); cbn [length app] in *.
  all: assert (is_u64 v) as Hu by (unfold is_u64; lia).
  all: pose proof (Hb 0%nat ltac:(cbn; lia)) as Hb0; cbn [lookup list_lookup Z.of_nat] in Hb0; rewrite Z.add_0_r in Hb0.
  all: assert (mapped vm v) as Hm by (apply vbyte_mapped; rewrite <- Hb0; by eexists).
  all: destruct (read_piece_ok t [0] vm v 0 1 Hok Hu Hlo Hm) as (d & vm1 & E1 & Hld & Hd & Hun); cbn [length]; try lia.
  all: destruct d as [|x [|y d]]; cbn [length] in Hld; try lia.
  all: pose proof (Hd 0%nat ltac:(cbn; lia)) as Hx; cbn [lookup list_lookup Z.of_nat] in Hx; rewrite Z.add_0_r, <- Hb0 in Hx; injection Hx as ->.
  all: unfold read_piece in E1; cbn [tryReadString]; destruct (vm_translate vm v) as [[a|] vm2]; [|done];
       change (take (Z.to_nat 1) (drop (Z.to_nat 0) [0])) with [0] in E1;
       destruct (readBlob t a [0] 1 (vm_mem vm2)) as [[d m]|]; [|done]; cbn [mbind option_bind] in *;
       injection E1 as Ed Evm; rewrite app_nil_r in Ed; cbn [take app] in Ed; subst d vm1; cbn [head mbind option_bind].
  - exists (with_mem vm2 m). by split.
  - rewrite (proj2 (Z.eqb_neq c 0)) by done. rewrite u64_small by (unfold is_u64; lia).
    destruct (IH (v + 1) (acc ++ [c]) (with_mem vm2 m) fuel (un_ok _ _ Hun)) as (vm3 & E3 & Hun3); [lia|lia| |lia|].
    { intros k Hk. rewrite (unchanged_vbyte _ _ _ Hun). rewrite <- Z.add_assoc.
      replace (1 + Z.of_nat k) with (Z.of_nat (S k)) by lia. rewrite <- Hb by (cbn; lia). done. }
    exists vm3. rewrite <- app_assoc in E3. split; [done|]. by eapply unchanged_trans.
Qed.

(** X2. Strings. A string without zeros that is written to mapped pages beyond
    the first can be read back, up to and including the zero that ends it; the
    zero becomes part of the string that is read. *)
Theorem string_roundtrip t t' s rest v vm fuel : Forall (λ c, c ≠ 0) s → vm_ok vm → 2 ^ 13 <= v →
  v + Z.of_nat (length s) < 2 ^ 64 → (∀ w, v <= w <= v + Z.of_nat (length s) → mapped vm w) → (length s < fuel)%nat →
  ∃ vm' vm'', writeString t v (s ++ 0 :: rest) vm = Some vm' ∧
    readString fuel t' v [] vm' = Some (s ++ [0], vm'') ∧
    (∀ w, mapped vm w → ¬ (v <= w <= v + Z.of_nat (length s)) → vbyte vm'' w = vbyte vm w).
Proof.
  intros Hs Hok Hlo Hend Hmap Hf. destruct (tryWriteString_ok t s rest v vm Hs Hok Hlo Hend Hmap) as (vm' & E & Hw).
  destruct (tryReadString_ok t' s v [] vm' fuel Hs (wr_ok _ _ _ _ Hw) Hlo Hend) as (vm'' & E2 & Hun); [|done|].
  { intros k Hk. symmetry. by apply (wr_range _ _ _ _ Hw). }
  exists vm', vm''. split_and!.
  - unfold writeString. by rewrite E.
  - unfold readString. by rewrite E2.
  - intros w Hm Hout. rewrite (unchanged_vbyte _ _ _ Hun). apply (wr_rest _ _ _ _ Hw); [done|].
    rewrite length_app. cbn. lia.
Qed.

End Reads.

(** ** The stack *)

Section Stack.

(** The limits of the stack: it reaches down to a page boundary. *)
Record stack_ok (sys : System) (pr : Process) : Prop := {
  sk_table : pt_ok sys (p_table pr);
  sk_min : stack_min pr mod 2 ^ 13 = 0;
  sk_base : 0 <= stack_min pr <= stack_base pr ∧ stack_base pr < 2 ^ 64
}.

(** The pages from [lo] to [hi] are mapped, what was mapped before is as it was,
    and nothing else is. *)
Definition mapped_between (pt : PageTable) (lo hi : Z) (pt' : PageTable) : Prop :=
  ∀ p, p mod 2 ^ 13 = 0 →
    if decide (lo <= p < hi) then is_Some (pTable pt' !! p) else pTable pt' !! p = pTable pt !! p.

Lemma grow_stack_ok k fuel sys pr v : stack_ok sys pr → stack_min pr = page_of v + Z.of_nat k * 2 ^ 13 → 0 <= v →
  (k <= fuel)%nat → stack_base pr - page_of v <= max_stack_size pr → stack_base pr - page_of v <= 8 * 1024 * 1024 →
  (∀ p, page_of v <= p < stack_min pr → p mod 2 ^ 13 = 0 → pTable (p_table pr) !! p = None) →
  page_ptr sys + Z.of_nat k <= 2 ^ 18 → (page_ptr sys + Z.of_nat k) * 2 ^ 13 <= mem_size sys →
  ∃ sys' pr', grow_stack fuel sys pr v = Some (sys', pr') ∧ stack_ok sys' pr' ∧ stack_min pr' = page_of v ∧
    mapped_between (p_table pr) (page_of v) (stack_min pr) (p_table pr').
Proof.
  revert fuel sys pr. induction k as [|k IH]; intros fuel sys pr Hok Hmin Hv Hf Hmax H8 Hno H2G Hfit.
  { exists sys, pr. split_and!; [|done|lia|].
    - assert ((v <? stack_min pr) = false) as E by (apply Z.ltb_ge; unfold page_of in *; lia).
      destruct fuel; cbn [grow_stack]; by rewrite E.
    - intros p Hp. by rewrite decide_False by lia. }
  destruct fuel as [|fuel]; [lia|]. pose proof Hok as [Ht Hal [Hb0 Hb1]]. pose proof (pk_ptr _ _ Ht) as Hptr.
  assert (0 <= page_of v <= v) as Hpg by (unfold page_of; lia).
  set (smin := stack_min pr - 2 ^ 13). assert (u64 (stack_min pr - VMPageSize) = smin) as Es
    by (apply u64_small; unfold is_u64, smin, VMPageSize; lia).
  assert (smin mod 2 ^ 13 = 0) as Ha by (unfold smin; lia).
  cbn [grow_stack]. rewrite (proj2 (Z.ltb_lt v (stack_min pr))) by (unfold page_of in *; lia). rewrite Es.
  rewrite (u64_small (stack_base pr - smin)) by (unfold is_u64, smin; lia).
  rewrite !(proj2 (Z.ltb_ge _ _)) by (unfold smin; lia).
  unfold VMPageSize. rewrite (allocate_one _ _ smin Ht Ha) by (unfold smin; (apply Hno; lia) || lia). cbn [mbind option_bind].
  set (pt1 := map_page sys (p_table pr) smin). set (pr1 := mkProcess (stack_base pr) smin (max_stack_size pr) pt1).
  assert (pt_ok (mkSystem (page_ptr sys + 1) (mem_size sys)) pt1) as Ht1.
  { apply map_page_ok; try done; try lia; [unfold is_u64, smin; lia|apply Hno; unfold smin; lia]. }
  destruct (IH fuel (mkSystem (page_ptr sys + 1) (mem_size sys)) pr1) as (sys' & pr' & E & Hok' & Hm' & Hbt);
    cbn [p_table stack_min stack_base max_stack_size page_ptr mem_size pr1]; try lia.
  { split; cbn; [done|done|unfold smin; lia]. }
  { intros p Hp Hpa. change (pTable pt1) with (<[smin := TlbEntry_new (M5_pid (p_table pr)) smin (page_ptr sys * 2 ^ 13)]> (pTable (p_table pr))).
    rewrite lookup_insert_ne by lia. apply Hno; [unfold smin in *; lia|done]. }
  exists sys', pr'. split_and!; [done|done|done|]. intros p Hp. specialize (Hbt p Hp). cbn [p_table stack_min pr1] in Hbt.
  change (pTable pt1) with (<[smin := TlbEntry_new (M5_pid (p_table pr)) smin (page_ptr sys * 2 ^ 13)]> (pTable (p_table pr))) in Hbt.
  destruct (decide (page_of v <= p < stack_min pr)) as [Hi|Hi].
  - destruct (decide (page_of v <= p < smin)) as [Hj|Hj]; [done|]. rewrite Hbt.
    replace p with smin by (unfold smin in *; unfold page_of in *; lia). rewrite lookup_insert_eq. by eexists.
  - rewrite decide_False in Hbt by (unfold smin; lia). by rewrite Hbt, lookup_insert_ne by (unfold smin; lia).
Qed.

(** A stack that would pass one of its two limits ends the simulation. *)
Lemma grow_stack_fatal fuel sys pr v : 0 <= v < stack_min pr → stack_min pr mod 2 ^ 13 = 0 → stack_min pr <= stack_base pr < 2 ^ 64 →
  Z.min (max_stack_size pr) (8 * 1024 * 1024) < stack_base pr - page_of v → grow_stack fuel sys pr v = None.
Proof.
  revert sys pr. induction fuel as [|fuel IH]; intros sys pr Hv Ha Hb Hl; cbn [grow_stack];
    rewrite (proj2 (Z.ltb_lt v (stack_min pr))) by lia; [done|].
  assert (0 <= page_of v <= stack_min pr - 2 ^ 13) as Hpg by (unfold page_of; lia).
  rewrite (u64_small (stack_min pr - VMPageSize)) by (unfold is_u64, VMPageSize; lia). unfold VMPageSize.
  rewrite (u64_small (stack_base pr - _)) by (unfold is_u64; lia).
  destruct (Z.ltb_spec (max_stack_size pr) (stack_base pr - (stack_min pr - 2 ^ 13))) as [|Hm]; [done|].
  destruct (Z.ltb_spec (8 * 1024 * 1024) (stack_base pr - (stack_min pr - 2 ^ 13))) as [|H8]; [done|].
  destruct (allocate _ _ _ _) as [[sys1 pt1]|]; [|done]. cbn [mbind option_bind].
  apply IH; cbn [stack_min stack_base max_stack_size]; [|lia..|done].
  assert (page_of v ≠ stack_min pr - 2 ^ 13) by lia. unfold page_of in *. lia.
Qed.

(** The pages an access to [v] makes. *)
Definition stack_need (pr : Process) (v : Z) : Z :=
  if decide (v < stack_min pr) then (stack_min pr - page_of v) / 2 ^ 13 else 1.

(** C26. The stack grows to what is accessed, down to the smaller of two limits: the
    largest stack of the process and 8M.  An address above the stack, or below it and out
    of the largest stack, is declined and nothing changes.  An address below the stack
    and in the largest stack, for which the stack would have to pass one of the limits,
    ends the simulation.  For any other address the process makes its page and, when it
    is below the stack, all pages from there to the stack, lowers the stack to the page
    and changes no other mapping; these pages must be unmapped, and memory left for
    them. *)
Theorem stack_growth sys pr v : stack_ok sys pr → is_u64 v → 0 <= max_stack_size pr <= stack_base pr →
  let limit := Z.min (max_stack_size pr) (8 * 1024 * 1024) in
  (stack_base pr <= v ∨ v < stack_min pr ∧ v < stack_base pr - max_stack_size pr →
     checkAndAllocNextPage sys pr v = Some (false, sys, pr)) ∧
  (stack_base pr - max_stack_size pr <= v < stack_min pr → limit < stack_base pr - page_of v →
     checkAndAllocNextPage sys pr v = None) ∧
  (v < stack_base pr → (v < stack_min pr → stack_base pr - page_of v <= limit) →
     (∀ p, page_of v <= p < Z.max (stack_min pr) (page_of v + 1) → p mod 2 ^ 13 = 0 → pTable (p_table pr) !! p = None) →
     page_ptr sys + stack_need pr v <= 2 ^ 18 → (page_ptr sys + stack_need pr v) * 2 ^ 13 <= mem_size sys →
     ∃ sys' pr', checkAndAllocNextPage sys pr v = Some (true, sys', pr') ∧ stack_ok sys' pr' ∧
       stack_min pr' = Z.min (stack_min pr) (page_of v) ∧
       mapped_between (p_table pr) (page_of v) (Z.max (stack_min pr) (page_of v + 1)) (p_table pr')).
Proof.
  intros Hok Hv Hmax. cbv zeta. pose proof Hok as [Ht Hma Hb]. unfold is_u64 in Hv.
  pose proof (pk_ptr _ _ Ht) as Hptr. assert (0 <= page_of v <= v ∧ page_of v mod 2 ^ 13 = 0) as [Hpg Hpa] by (unfold page_of; lia).
  unfold checkAndAllocNextPage, stack_need in *. rewrite (u64_small (stack_base pr - _)) by (unfold is_u64; lia).
  split_and!; [intros Hd|intros Hin Hlim|intros Hlt Hlim Hno H2G Hfit].
  - destruct Hd as [Hd|[H1 H2]].
    + by rewrite (proj2 (Z.ltb_ge v (stack_base pr))), (proj2 (Z.ltb_ge v (stack_min pr))), andb_false_r by lia.
    + by rewrite (proj2 (Z.leb_gt _ _)), (proj2 (Z.leb_gt (stack_base pr - _) _)), andb_false_r by lia.
  - rewrite (proj2 (Z.leb_gt _ _)), (proj2 (Z.ltb_lt v (stack_min pr))), (proj2 (Z.leb_le _ _)) by lia. cbn [andb].
    by rewrite grow_stack_fatal by (done || lia).
  - destruct (decide (v < stack_min pr)) as [Hs|Hge].
    + specialize (Hlim Hs). rewrite (proj2 (Z.leb_gt _ _)), (proj2 (Z.ltb_lt v (stack_min pr))), (proj2 (Z.leb_le _ _)) by lia.
      cbn [andb]. set (k := Z.to_nat ((stack_min pr - page_of v) / 2 ^ 13)).
      destruct (grow_stack_ok k (Z.to_nat ((stack_min pr - v) / VMPageSize + 1)) sys pr v) as (sys' & pr' & E & Hok' & Hm' & Hbt);
        try done; unfold k, VMPageSize in *; try (unfold page_of in *; lia).
      { intros p Hp. apply Hno. lia. }
      rewrite E. exists sys', pr'. split_and!; [done|done|lia|]. by replace (Z.max (stack_min pr) (page_of v + 1)) with (stack_min pr) by lia.
    + assert (stack_min pr <= page_of v) as Hsm by (unfold page_of; lia).
      rewrite (proj2 (Z.leb_le _ _)) by lia. cbn [andb].
      rewrite (proj2 (Z.ltb_lt _ _)) by lia. unfold VMPageSize. rewrite roundDown_spec by (unfold is_u64; lia). fold (page_of v).
      assert (pTable (p_table pr) !! page_of v = None) as Hn by (apply Hno; [lia|done]).
      rewrite (allocate_one _ _ _ Ht Hpa Hn) by lia. do 2 eexists. split; [reflexivity|].
      split_and!; [split; cbn [p_table with_pt stack_min stack_base]; [|done|done]|cbn; lia|].
      * apply map_page_ok; try done; try lia. unfold is_u64. lia.
      * intros p Hp. cbn [with_pt p_table].
        change (pTable (map_page sys (p_table pr) (page_of v))) with
          (<[page_of v := TlbEntry_new (M5_pid (p_table pr)) (page_of v) (page_ptr sys * 2 ^ 13)]> (pTable (p_table pr))).
        destruct (decide _) as [Hj|Hj]; [|by rewrite lookup_insert_ne by lia].
        replace p with (page_of v) by lia. rewrite lookup_insert_eq. by eexists.
Qed.

End Stack.

(** ** Witnesses *)

(** A process with one page, on a memory of four pages. *)
Definition demo_vm_ops : list op := [NewProcess 1; Allocate 0 (2 ^ 16) (2 ^ 13)].
Definition demo_vm_machine : Machine := default (boot 0) (run demo_found demo_vm_ops (boot (2 ^ 15))).
Definition demo_vm_pt : PageTable := default (mkPageTable ∅ [] 0 0 0) (m_tables demo_vm_machine !! 0%nat).
Definition demo_process : Process := mkProcess (2 ^ 20) (2 ^ 20 - 2 ^ 13) (2 ^ 16) demo_vm_pt.
Definition demo_vm : VM PhysicalMemory :=
  mkVM (m_sys demo_vm_machine) demo_process (mkMem 0 (replicate (Z.to_nat (2 ^ 15)) 0) [] 0 0 0).

Lemma demo_vm_pt_ok : pt_ok (m_sys demo_vm_machine) demo_vm_pt.
Proof.
  apply (proj2 (run_mok demo_found demo_vm_ops _ demo_vm_machine (boot_mok (2 ^ 15)) eq_refl ltac:(vm_compute; reflexivity)) 0%nat).
  vm_compute. reflexivity.
Qed.

Lemma demo_vm_size : mem_size (vm_sys demo_vm) = 2 ^ 15.
Proof. vm_compute. reflexivity. Qed.

Lemma demo_vm_ok : vm_ok demo_vm.
Proof.
  split.
  - exact demo_vm_pt_ok.
  - split; [done|]. unfold size. cbn [demo_vm vm_mem pmem start]. rewrite length_replicate. lia.
  - by rewrite demo_vm_size.
  - rewrite demo_vm_size. intros x Hx. cbn. unfold mem_byte. cbn [start pmem]. rewrite decide_True by lia.
    apply lookup_lt_is_Some_2. rewrite length_replicate. lia.
Qed.

Lemma demo_vm_mapped w : 2 ^ 16 <= w < 2 ^ 16 + 2 ^ 13 → mapped demo_vm w.
Proof.
  intros Hw. unfold mapped. assert (page_of w = 2 ^ 16) as -> by (unfold page_of; lia). vm_compute. by eexists.
Qed.

Lemma virtual_blob_roundtrip_witness : ∃ vm' vm'',
  tryWriteBlob Always 0 (2 ^ 16 + 8190) [1; 2; 3; 4] 4 demo_vm = Some (true, vm') ∧
  tryReadBlob 0 (2 ^ 16 + 8190) [0; 0; 0; 0] 4 vm' = Some (true, [1; 2; 3; 4], vm'').
Proof.
  destruct (virtual_blob_roundtrip Always 0 (2 ^ 16 + 8190) [1; 2; 3; 4] demo_vm demo_vm_ok)
    as (vm' & E & _ & Hr & _); [lia|cbn; lia|cbn; lia| |].
  - right. split; [reflexivity|]. split; apply Z.leb_le; vm_compute; reflexivity.
  - destruct (Hr 0 [0; 0; 0; 0]) as [vm'' E2]; [reflexivity|]. exists vm', vm''. split; [exact E|exact E2].
Defined.

Lemma string_roundtrip_witness : ∃ vm' vm'',
  writeString 0 (2 ^ 16 + 5) [104; 105; 0; 7] demo_vm = Some vm' ∧
  readString 10 0 (2 ^ 16 + 5) [] vm' = Some ([104; 105; 0], vm'').
Proof.
  destruct (string_roundtrip 0 0 [104; 105] [7] (2 ^ 16 + 5) demo_vm 10) as (vm' & vm'' & E1 & E2 & _).
  - repeat constructor; lia.
  - exact demo_vm_ok.
  - lia.
  - cbn; lia.
  - intros w Hw. apply demo_vm_mapped. cbn in Hw. lia.
  - cbn; lia.
  - exists vm', vm''. split; [exact E1|exact E2].
Defined.

Lemma stack_growth_witness : ∃ sys' pr',
  checkAndAllocNextPage (m_sys demo_vm_machine) demo_process (2 ^ 20 - 2 ^ 13 - 8200) = Some (true, sys', pr') ∧
  stack_min pr' = 2 ^ 20 - 3 * 2 ^ 13.
Proof.
  destruct (stack_growth (m_sys demo_vm_machine) demo_process (2 ^ 20 - 2 ^ 13 - 8200)) as (_ & _ & H).
  - split; [exact demo_vm_pt_ok|reflexivity|cbn; lia].
  - unfold is_u64; lia.
  - cbn; lia.
  - destruct H as (sys' & pr' & E & _ & Hm & _).
    + cbn; lia.
    + intros _. unfold page_of. cbn. lia.
    + intros p Hp Ha. assert (p = 2 ^ 20 - 3 * 2 ^ 13 ∨ p = 2 ^ 20 - 2 * 2 ^ 13) as [-> | ->]
        by (unfold page_of in Hp; cbn [stack_min demo_process] in Hp; lia); vm_compute; reflexivity.
    + apply Z.leb_le; vm_compute; reflexivity.
    + apply Z.leb_le; vm_compute; reflexivity.
    + exists sys', pr'. split; [exact E|]. rewrite Hm. reflexivity.
Defined.
