(* ===== verification/TPort.v ===== *)
(** Ports with a queue of delayed packets, [src/m5/src/mem/tport.hh] and [tport.cc]
    ([SimpleTimingPort]).

    What is connected to the port is a parameter: [sendTiming] delivers a packet to it,
    and the requests that it sends back before it returns are part of the result.  The
    device behind the port is an [AtomicPort].  A failed assertion is [None].  [ms] is
    the number of ticks of a millisecond, which depends on the configured frequency. *)

From S2P Require Import Prelude Packet PhysMem.

(** ** State *)

Record TPort := mkTPort {
  transmitList : list (Z * Packet.t);
  sendEvent : option Z;
  waitingOnRetry : bool;
  drainEvent : bool
}.

Definition TPort_new : TPort := mkTPort [] None false false.

Definition with_list (tp : TPort) (l : list (Z * Packet.t)) : TPort :=
  mkTPort l (sendEvent tp) (waitingOnRetry tp) (drainEvent tp).
Definition with_event (tp : TPort) (e : option Z) : TPort :=
  mkTPort (transmitList tp) e (waitingOnRetry tp) (drainEvent tp).
Definition with_waiting (tp : TPort) (w : bool) : TPort :=
  mkTPort (transmitList tp) (sendEvent tp) w (drainEvent tp).
Definition with_drain (tp : TPort) (d : bool) : TPort :=
  mkTPort (transmitList tp) (sendEvent tp) (waitingOnRetry tp) d.

(** ** The queue and its event *)

Definition deferredPacketReady (curTick : Z) (tp : TPort) : bool :=
  match transmitList tp with [] => false | (t, _) :: _ => t <=? curTick end.

Definition deferredPacketReadyTime (tp : TPort) : Z :=
  match transmitList tp with [] => MaxTick | (t, _) :: _ => t end.

(** [schedule(sendEvent, when)], which compares unsigned ticks. *)
Definition schedule (curTick when : Z) (tp : TPort) : option TPort :=
  match sendEvent tp with
  | Some _ => None
  | None => if u64 when <? u64 curTick then None else Some (with_event tp (Some when))
  end.

Definition schedSendEvent (curTick when : Z) (tp : TPort) : option TPort :=
  if waitingOnRetry tp then
    match sendEvent tp with Some _ => None | None => Some tp end
  else
    match sendEvent tp with
    | None => schedule curTick when tp
    | Some t =>
        if when <? t then if when <? curTick then None else Some (with_event tp (Some when))
        else Some tp
    end.

(** The loop that finds the place of a packet in the middle of the list. *)
Fixpoint insert_before_later (when : Z) (p : Packet.t) (l : list (Z * Packet.t)) : option (list (Z * Packet.t)) :=
  match l with
  | [] => None
  | (t, q) :: l =>
      if when <? t then Some ((when, p) :: (t, q) :: l)
      else l ← insert_before_later when p l; Some ((t, q) :: l)
  end.

Section Port.
Context (ms : Z).

Definition schedSendTiming (curTick : Z) (p : Packet.t) (when : Z) (tp : TPort) : option TPort :=
  if negb (curTick <? when) || negb (when <? s64 (curTick + ms)) then None
  else
    match transmitList tp with
    | [] => schedSendEvent curTick when (with_list tp [(when, p)])
    | (t, q) :: l =>
        if when <? t then schedSendEvent curTick when (with_list tp ((when, p) :: (t, q) :: l))
        else if default 0 (fst <$> last ((t, q) :: l)) <=? when then Some (with_list tp (((t, q) :: l) ++ [(when, p)]))
        else l ← insert_before_later when p l; Some (with_list tp ((t, q) :: l))
    end.

(** The first half of [sendDeferredPacket]: the packet leaves the list. *)
Definition take_front (curTick : Z) (tp : TPort) : option (Z * Packet.t * TPort) :=
  if deferredPacketReady curTick tp then
    match transmitList tp with [] => None | (t, p) :: l => Some (t, p, with_list tp l) end
  else None.

(** The second half, after the packet has been sent: whether the drain event has been
    processed. *)
Definition finish_send (curTick : Z) (dp : Z * Packet.t) (success : bool) (tp : TPort) : option (TPort * bool) :=
  '(tp, drained) ←
    (if success then
       tp ← (match transmitList tp, sendEvent tp with
             | (t, _) :: _, None => schedule curTick (if t <=? curTick then s64 (curTick + 1) else t) tp
             | _, _ => Some tp
             end);
       if bool_decide (transmitList tp = []) && drainEvent tp && negb (bool_decide (is_Some (sendEvent tp)))
       then Some (with_drain tp false, true) else Some (tp, false)
     else
       match sendEvent tp with
       | Some _ => None
       | None => Some (with_list tp (dp :: transmitList tp), false)
       end);
  Some (with_waiting tp (negb success), drained).

(** [drain]: whether the caller has to wait. *)
Definition drain (tp : TPort) : bool * TPort :=
  if bool_decide (transmitList tp = []) && negb (bool_decide (is_Some (sendEvent tp)))
  then (false, tp) else (true, with_drain tp true).

(** [checkFunctional]: the packets of the list hold data. *)
Fixpoint list_checkFunctional (p : Packet.t) (l : list (Z * Packet.t)) : option (bool * Packet.t * list (Z * Packet.t)) :=
  match l with
  | [] => Some (false, p, [])
  | (t, q) :: l =>
      '(done, p, d) ← Packet.checkFunctional_pkt p q;
      let q := match d with Some d => Packet.set_data q (Packet.flags q) (Some d) | None => q end in
      if (done : bool) then Some (true, p, (t, q) :: l)
      else '(done, p, l) ← list_checkFunctional p l; Some (done, p, (t, q) :: l)
  end.

Definition checkFunctional (p : Packet.t) (tp : TPort) : option (bool * Packet.t * TPort) :=
  '(done, p, l) ← list_checkFunctional p (transmitList tp); Some (done, p, with_list tp l).

(** ** The port of a device *)

Context {M : AtomicPort} {D : Type} (sendTiming : Z → Packet.t → D → option (bool * list Packet.t * D)).

Definition recvFunctional (curTick : Z) (p : Packet.t) (tp : TPort) (m : port_state)
    : option (Packet.t * TPort * port_state) :=
  '(done, p, tp) ← checkFunctional p tp;
  if (done : bool) then Some (p, tp, m)
  else '(p, _, _, m) ← recvAtomic curTick p m; Some (p, tp, m).

Definition recvTiming (curTick : Z) (p : Packet.t) (tp : TPort) (m : port_state) : option (TPort * port_state) :=
  if Packet.memInhibitAsserted p then Some (tp, m)
  else
    '(q, latency, _, m) ← recvAtomic curTick p m;
    if Packet.needsResponse p then
      if Packet.isResponse q then tp ← schedSendTiming curTick q (s64 (curTick + latency)) tp; Some (tp, m) else None
    else Some (tp, m).

Fixpoint recv_all (curTick : Z) (ps : list Packet.t) (tp : TPort) (m : port_state) : option (TPort * port_state) :=
  match ps with
  | [] => Some (tp, m)
  | p :: ps => '(tp, m) ← recvTiming curTick p tp m; recv_all curTick ps tp m
  end.

Definition sendDeferredPacket (curTick : Z) (tp : TPort) (m : port_state) (d : D)
    : option (TPort * port_state * D * bool) :=
  '(t, p, tp) ← take_front curTick tp;
  '(success, reqs, d) ← sendTiming curTick p d;
  '(tp, m) ← recv_all curTick reqs tp m;
  '(tp, drained) ← finish_send curTick (t, p) success tp;
  Some (tp, m, d, drained).

Definition recvRetry (curTick : Z) (tp : TPort) (m : port_state) (d : D) : option (TPort * port_state * D * bool) :=
  if waitingOnRetry tp then sendDeferredPacket curTick tp m d else None.

(** The event is no longer scheduled. *)
Definition processSendEvent (curTick : Z) (tp : TPort) (m : port_state) (d : D) : option (TPort * port_state * D * bool) :=
  let tp := with_event tp None in
  if waitingOnRetry tp then None else sendDeferredPacket curTick tp m d.

End Port.

(** ** The invariant of a port *)

Section Facts.
Context (ms : Z) (Hms : 0 <= ms < 2 ^ 62).

(** Times far enough from the last tick. *)
Definition early (t : Z) : Prop := 0 <= t < 2 ^ 62.

(** The packets are in the order of their ticks; the event, when it is scheduled, finds a
    packet that is ready. *)
Record tp_core (now : Z) (tp : TPort) : Prop := {
  tc_sorted : StronglySorted Z.le (transmitList tp).*1;
  tc_times : Forall (λ x, is_s64 x.1) (transmitList tp);
  tc_wait : waitingOnRetry tp = true → sendEvent tp = None;
  tc_event : ∀ u, sendEvent tp = Some u → now <= u ∧ transmitList tp ≠ [] ∧ deferredPacketReadyTime tp <= u
}.

(** Somebody will take the first packet off the list. *)
Definition awake (tp : TPort) : Prop :=
  transmitList tp ≠ [] → waitingOnRetry tp = true ∨ is_Some (sendEvent tp).

Definition tp_ok (now : Z) (tp : TPort) : Prop := tp_core now tp ∧ awake tp.

Lemma TPort_new_ok now : tp_ok now TPort_new.
Proof. split; [|by intros H]. split; cbn; try done; constructor. Qed.

Lemma tp_core_drain now tp b : tp_core now tp → tp_core now (with_drain tp b).
Proof. intros []. by split. Qed.

Lemma insert_before_later_ok when p l l' :
  insert_before_later when p l = Some l' → StronglySorted Z.le l.*1 →
  l' ≡ₚ (when, p) :: l ∧ StronglySorted Z.le l'.*1.
Proof.
  revert l'. induction l as [|[t q] l IH]; intros l' E Hs; [done|]. cbn [insert_before_later] in E.
  cbn [fmap list_fmap fst] in Hs. pose proof Hs as [Hs1 Ht]%StronglySorted_inv.
  destruct (Z.ltb_spec when t).
  - injection E as <-. split; [done|]. cbn. constructor; [done|]. constructor; [lia|].
    eapply Forall_impl; [exact Ht|]. cbn. lia.
  - destruct (insert_before_later when p l) as [l1|] eqn:E1; [|done]. injection E as <-.
    destruct (IH l1 eq_refl Hs1) as [Hp Hs']. split; [rewrite Hp; apply Permutation_swap|].
    cbn. constructor; [done|]. rewrite Hp. cbn. constructor; [lia|done].
Qed.

Lemma sorted_snoc (l : list (Z * Packet.t)) when p :
  StronglySorted Z.le l.*1 → default when (fst <$> last l) <= when → StronglySorted Z.le (l ++ [(when, p)]).*1.
Proof.
  induction l as [|[t q] l IH]; cbn; intros Hs Hl; [repeat constructor|]. apply StronglySorted_inv in Hs as [Hs Ht].
  assert (t <= when ∧ default when (fst <$> last l) <= when) as [H1 H2].
  { destruct l as [|y l]; [cbn in *; lia|]. rewrite last_cons_cons in Hl. split; [|done].
    destruct (last (y :: l)) as [z|] eqn:El; [|apply last_None in El; done]. cbn in Hl.
    assert (z ∈ y :: l) as Hz by (by apply last_Some_elem_of). rewrite Forall_forall in Ht. apply (list_elem_of_fmap_2 fst) in Hz.
    specialize (Ht z.1 Hz). lia. }
  constructor; [by apply IH|]. rewrite fmap_app. apply Forall_app. split; [done|]. by repeat constructor.
Qed.

Lemma schedSendEvent_ok now when tp tp' :
  early now → tp_core now tp → transmitList tp ≠ [] → deferredPacketReadyTime tp <= when → is_s64 when → now <= when →
  (∀ u, sendEvent tp = Some u → deferredPacketReadyTime tp <= Z.min u when) →
  schedSendEvent now when tp = Some tp' →
  tp_core now tp' ∧ transmitList tp' = transmitList tp ∧ waitingOnRetry tp' = waitingOnRetry tp ∧
  drainEvent tp' = drainEvent tp ∧ awake tp'.
Proof.
  intros Hn Hc Hne Hd Hw Hle Hev. unfold schedSendEvent, schedule. destruct (waitingOnRetry tp) eqn:Ewt.
  - destruct (sendEvent tp); [done|]. intros [= <-]. split_and!; try done. intros _. by left.
  - destruct Hc as [? ? ? He]. destruct (sendEvent tp) as [u|] eqn:Ee.
    + destruct (Z.ltb_spec when u).
      * destruct (when <? now); [done|]. intros [= <-]. split_and!; try done; [|right; by eexists].
        split; cbn; try done; [congruence|]. by intros v [= <-].
      * intros [= <-]. split_and!; try done; [|right; by eexists]. by split; rewrite ?Ee.
    + destruct (_ <? _); [done|]. intros [= <-]. split_and!; try done; [|right; by eexists].
      split; cbn; try done; [congruence|]. by intros v [= <-].
Qed.

(** A packet is put into the list at its place. *)
Lemma schedSendTiming_ok now p when tp tp' :
  early now → tp_core now tp → schedSendTiming ms now p when tp = Some tp' →
  now < when < now + ms ∧ tp_core now tp' ∧ transmitList tp' ≡ₚ (when, p) :: transmitList tp ∧
  waitingOnRetry tp' = waitingOnRetry tp ∧ drainEvent tp' = drainEvent tp ∧ (awake tp → awake tp').
Proof.
  intros Hn Hc. unfold schedSendTiming. destruct (_ || _) eqn:Eg; [done|]. apply orb_false_iff in Eg as [G1 G2].
  rewrite negb_false_iff in G1, G2. rewrite s64_small in G2 by (unfold is_s64, early in *; lia). zbool.
  assert (is_s64 when) as Hw by (unfold is_s64, early in *; lia).
  intros E. assert (now < when < now + ms) as Hb by lia. split; [done|].
  destruct Hc as [Hs Ht Hwt He]. pose proof (Build_tp_core now tp Hs Ht Hwt He) as Hc.
  destruct (transmitList tp) as [|[t q] l] eqn:El.
  - apply schedSendEvent_ok in E as (Hc' & El' & Ew & Ed & Ha); try done; [| |lia|].
    + rewrite El'. split_and!; try done.
    + split; cbn; try done; [constructor; constructor|by constructor|]. intros u Hu. by destruct (He u Hu) as (_ & ? & _).
    + cbn. intros u Hu. by destruct (He u Hu) as (_ & ? & _).
  - destruct (Z.ltb_spec when t).
    + assert (∀ u, sendEvent tp = Some u → now <= u ∧ when <= u) as He'.
      { intros u Hu. destruct (He u Hu) as (? & _ & Hf). unfold deferredPacketReadyTime in Hf. rewrite El in Hf. lia. }
      apply schedSendEvent_ok in E as (Hc' & El' & Ew & Ed & Ha); try done; [| |lia|].
      * rewrite El'. split_and!; try done.
      * split; cbn; try done.
        -- cbn in Hs. constructor; [done|]. apply StronglySorted_inv in Hs as [_ Ht1]. constructor; [lia|].
           eapply Forall_impl; [exact Ht1|]. cbn. lia.
        -- by constructor.
        -- intros u Hu. destruct (He' u Hu). done.
      * cbn. intros u Hu. destruct (He' u Hu). lia.
    + assert (∀ l', transmitList tp' = (t, q) :: l' → tp' = with_list tp ((t, q) :: l') → l' ≡ₚ (when, p) :: l →
        StronglySorted Z.le ((t, q) :: l').*1 →
        tp_core now tp' ∧ transmitList tp' ≡ₚ (when, p) :: (t, q) :: l ∧ waitingOnRetry tp' = waitingOnRetry tp ∧
        drainEvent tp' = drainEvent tp ∧ (awake tp → awake tp')) as Hdone.
      { intros l' _ -> Hp Hs'. split_and!; try done.
        - split; try done.
          + cbn. apply Forall_cons in Ht as [Ht1 Ht2]. constructor; [done|]. rewrite Hp. by constructor.
          + cbn. intros u Hu. destruct (He u Hu) as (? & _ & Hf). unfold deferredPacketReadyTime in Hf. by rewrite El in Hf.
        - cbn. rewrite Hp. apply Permutation_swap.
        - unfold awake. rewrite El. intros Ha _. by apply Ha. }
      destruct (_ <=? when) eqn:Elast.
      * injection E as <-. apply (Hdone (l ++ [(when, p)])); try done; [by rewrite Permutation_app_comm|].
        change ((t, q) :: l ++ [(when, p)]) with (((t, q) :: l) ++ [(when, p)]). apply sorted_snoc; [done|]. zbool.
        destruct (last ((t, q) :: l)) eqn:Ela; [done|]. by apply last_None in Ela.
      * destruct (insert_before_later when p l) as [l1|] eqn:Ei; [|done]. injection E as <-.
        cbn in Hs. apply StronglySorted_inv in Hs as [Hs1 Ht1]. destruct (insert_before_later_ok when p l l1 Ei Hs1) as [Hp Hs'].
        apply (Hdone l1); try done. cbn. constructor; [done|]. rewrite Hp. cbn. by constructor; [lia|].
Qed.

(** A packet has left the list: the rest is later than it, and a new packet is, too. *)
Record sending (now : Z) (dp : Z * Packet.t) (tp : TPort) : Prop := {
  sd_core : tp_core now tp;
  sd_time : dp.1 <= now ∧ is_s64 dp.1;
  sd_later : Forall (λ x, dp.1 <= x.1) (transmitList tp)
}.

Lemma take_front_ok now tp t p tp' :
  tp_core now tp → sendEvent tp = None → take_front now tp = Some (t, p, tp') →
  transmitList tp = (t, p) :: transmitList tp' ∧ sending now (t, p) tp' ∧ waitingOnRetry tp' = waitingOnRetry tp ∧
  drainEvent tp' = drainEvent tp.
Proof.
  intros [Hs Ht Hw He] Hev. unfold take_front, deferredPacketReady. destruct (transmitList tp) as [|[t1 p1] l]; [done|].
  destruct (Z.leb_spec t1 now); [|done]. intros [= <- <- <-]. cbn in *. apply StronglySorted_inv in Hs as [Hs Hl].
  apply Forall_cons in Ht as [Ht1 Ht2]. split_and!; try done. split; [|by split|].
  - split; cbn; try done; by rewrite Hev.
  - by rewrite Forall_fmap in Hl.
Qed.

Lemma finish_send_ok now dp ok tp tp' dr :
  early now → sending now dp tp → finish_send now dp ok tp = Some (tp', dr) →
  tp_ok now tp' ∧ transmitList tp' = (if ok then [] else [dp]) ++ transmitList tp ∧ waitingOnRetry tp' = negb ok.
Proof.
  intros Hn [[Hs Ht Hw He] [Hd Hd64] Hl]. unfold finish_send. destruct ok.
  - match goal with |- (_ ← (?o ≫= _); _) = _ → _ => destruct o as [tp1|] eqn:E1; [|done] end.
    cbn [mbind option_bind]. intros E.
    assert (∃ d, tp' = with_waiting (with_drain tp1 d) false) as [d ->].
    { destruct (_ && _); cbn in E; injection E as <- <-; [by exists false|exists (drainEvent tp1)]. by destruct tp1. }
    assert (tp1 = tp ∧ (transmitList tp ≠ [] → is_Some (sendEvent tp)) ∨
      ∃ u, tp1 = with_event tp (Some u) ∧ now <= u ∧ transmitList tp ≠ [] ∧ deferredPacketReadyTime tp <= u) as Hcase.
    { unfold deferredPacketReadyTime. destruct (transmitList tp) as [|[t p] l]; [injection E1 as <-; by left|].
      destruct (sendEvent tp) eqn:Ee; [injection E1 as <-; left; by split|].
      right. unfold schedule in E1. rewrite Ee in E1. apply Forall_cons in Ht as [Ht _]. cbn in Ht.
      destruct (Z.leb_spec t now); destruct (_ <? _); try done; injection E1 as <-.
      - rewrite s64_small by (unfold is_s64, early in *; lia). exists (now + 1). split_and!; [done|lia|done|lia].
      - exists t. split_and!; [done|lia|done|lia]. }
    destruct Hcase as [[-> Ha]|(u & -> & Hu & Hne & Hf)]; (split; [|done]); (split; [split; cbn; try done|]).
    + intros H. right. by apply Ha.
    + intros v [= <-]. done.
    + intros _. right. by eexists.
  - destruct (sendEvent tp) eqn:Ee; [done|]. cbn [mbind option_bind]. intros [= <- <-]. split; [|done].
    split; [|intros _; by left]. split; cbn; try done.
    + constructor; [done|]. by apply Forall_fmap.
    + by constructor.
    + by rewrite Ee.
Qed.

Section Device.
Context {M : AtomicPort} {D : Type} (sendTiming : Z → Packet.t → D → option (bool * list Packet.t * D)).

(** What the device owes for a request: the response and when it is due. *)
Definition answer (now : Z) (p : Packet.t) (m : port_state) : option (list (Z * Packet.t) * port_state) :=
  if Packet.memInhibitAsserted p then Some ([], m)
  else
    '(q, latency, _, m) ← recvAtomic now p m;
    Some (if Packet.needsResponse p then [(s64 (now + latency), q)] else [], m).

Fixpoint answers (now : Z) (ps : list Packet.t) (m : port_state) : option (list (Z * Packet.t) * port_state) :=
  match ps with
  | [] => Some ([], m)
  | p :: ps => '(l, m) ← answer now p m; '(ls, m) ← answers now ps m; Some (l ++ ls, m)
  end.

Lemma recvTiming_ok now p tp m tp' m' :
  early now → tp_core now tp → recvTiming ms now p tp m = Some (tp', m') →
  ∃ l, answer now p m = Some (l, m') ∧ Forall (λ x, now < x.1) l ∧ tp_core now tp' ∧
    transmitList tp' ≡ₚ l ++ transmitList tp ∧ waitingOnRetry tp' = waitingOnRetry tp ∧ (awake tp → awake tp').
Proof.
  intros Hn Hc. unfold recvTiming, answer. destruct (Packet.memInhibitAsserted p).
  { intros [= <- <-]. exists []. by split_and!. }
  destruct (recvAtomic now p m) as [[[[q lat] fin] m1]|]; [|done]. cbn [mbind option_bind].
  destruct (Packet.needsResponse p); [|intros [= <- <-]; exists []; by split_and!].
  destruct (Packet.isResponse q); [|done].
  destruct (schedSendTiming ms now q _ tp) as [tp1|] eqn:E; [|done]. cbn [mbind option_bind]. intros [= <- <-].
  apply schedSendTiming_ok in E as (Hb & Hc' & Hp & Hw & _ & Ha); [|done..]. eexists. split_and!; try done.
  constructor; [cbn; lia|constructor].
Qed.

Lemma recv_all_ok now ps : early now → ∀ tp m tp' m',
  tp_core now tp → recv_all ms now ps tp m = Some (tp', m') →
  ∃ l, answers now ps m = Some (l, m') ∧ Forall (λ x, now < x.1) l ∧ tp_core now tp' ∧
    transmitList tp' ≡ₚ l ++ transmitList tp ∧ waitingOnRetry tp' = waitingOnRetry tp ∧ (awake tp → awake tp').
Proof.
  intros Hn. induction ps as [|p ps IH]; intros tp m tp' m' Hc; cbn [recv_all answers].
  { intros [= <- <-]. exists []. by split_and!. }
  destruct (recvTiming ms now p tp m) as [[tp1 m1]|] eqn:E1; [|done]. cbn [mbind option_bind]. intros E2.
  apply recvTiming_ok in E1 as (l1 & -> & Hl1 & Hc1 & Hp1 & Hw1 & Ha1); [|done..]. cbn [mbind option_bind].
  apply IH in E2 as (l2 & -> & Hl2 & Hc2 & Hp2 & Hw2 & Ha2); [|done]. exists (l1 ++ l2). split_and!; try done.
  - by apply Forall_app.
  - rewrite Hp2, Hp1, !app_assoc. by rewrite (Permutation_app_comm l1 l2).
  - congruence.
  - auto.
Qed.

(** What one attempt to send does. *)
Lemma sendDeferredPacket_ok now tp m d tp' m' d' dr :
  early now → tp_core now tp → sendEvent tp = None →
  sendDeferredPacket ms sendTiming now tp m d = Some (tp', m', d', dr) →
  ∃ t p l ok reqs ans, transmitList tp = (t, p) :: l ∧ t <= now ∧ sendTiming now p d = Some (ok, reqs, d') ∧
    answers now reqs m = Some (ans, m') ∧ tp_ok now tp' ∧ waitingOnRetry tp' = negb ok ∧
    transmitList tp' ≡ₚ (if (ok : bool) then [] else [(t, p)]) ++ ans ++ l.
Proof.
  intros Hn Hc Hev. unfold sendDeferredPacket. destruct (take_front now tp) as [[[t p] tp1]|] eqn:E1; [|done].
  cbn [mbind option_bind]. apply take_front_ok in E1 as (El & [Hc1 Ht Hl] & Hw1 & _); [|done..].
  destruct (sendTiming now p d) as [[[ok reqs] d1]|] eqn:Es; [|done]. cbn [mbind option_bind].
  destruct (recv_all ms now reqs tp1 m) as [[tp2 m1]|] eqn:E2; [|done]. cbn [mbind option_bind].
  apply recv_all_ok in E2 as (ans & Ha & Hans & Hc2 & Hp2 & Hw2 & _); [|done..].
  destruct (finish_send now (t, p) ok tp2) as [[tp3 dr3]|] eqn:E3; [|done]. cbn [mbind option_bind]. intros [= <- <- <- <-].
  assert (sending now (t, p) tp2) as Hsd.
  { split; [done|done|]. rewrite Hp2. apply Forall_app. split; [|done]. eapply Forall_impl; [exact Hans|]. cbn in *. lia. }
  apply finish_send_ok in E3 as (Hok & El3 & Hw3); [|done..]. cbn in Ht.
  exists t, p, (transmitList tp1), ok, reqs, ans. split_and!; try done; [lia|]. by rewrite El3, Hp2.
Qed.

Lemma tp_core_event now tp : tp_core now tp → tp_core now (with_event tp None).
Proof. intros []. by split. Qed.

Lemma tp_ok_time now now' tp : tp_ok now tp → (∀ u, sendEvent tp = Some u → now' <= u) → tp_ok now' tp.
Proof. intros [[Hs Ht Hw He] Ha] Hu. split; [|done]. split; try done. intros u E. destruct (He u E). auto. Qed.

(** ** Runs of a device *)

(** The tick, the port, the memory and the devices, with two logs: the responses that have
    become due to requests of the device, with their ticks, and those that it has
    delivered, with the tick of their delivery. *)
Record St := mkSt {
  s_now : Z;
  s_port : TPort;
  s_mem : port_state;
  s_dev : D;
  s_due : list (Z * Packet.t);
  s_sent : list (Z * (Z * Packet.t))
}.

Inductive dev_step : St → St → Prop :=
  | dev_time t t' tp m d du se :
      t <= t' → early t' → (∀ u, sendEvent tp = Some u → t' <= u) → dev_step (mkSt t tp m d du se) (mkSt t' tp m d du se)
  | dev_recv t tp m d du se p tp' m' l :
      recvTiming ms t p tp m = Some (tp', m') → answer t p m = Some (l, m') →
      dev_step (mkSt t tp m d du se) (mkSt t tp' m' d (du ++ l) se)
  | dev_send t tp m d du se tp' m' d' dr dp l ok reqs ans :
      (sendEvent tp = Some t ∧ processSendEvent ms sendTiming t tp m d = Some (tp', m', d', dr) ∨
       recvRetry ms sendTiming t tp m d = Some (tp', m', d', dr)) →
      transmitList tp = dp :: l → sendTiming t dp.2 d = Some (ok, reqs, d') → answers t reqs m = Some (ans, m') →
      dev_step (mkSt t tp m d du se) (mkSt t tp' m' d' (du ++ ans) (if (ok : bool) then se ++ [(t, dp)] else se))
  (* a functional access that changes no data in the list *)
  | dev_functional t tp m d du se p p' tp' m' :
      recvFunctional t p tp m = Some (p', tp', m') → transmitList tp' = transmitList tp →
      dev_step (mkSt t tp m d du se) (mkSt t tp' m' d du se)
  | dev_drain t tp m d du se : dev_step (mkSt t tp m d du se) (mkSt t (drain tp).2 m d du se)
  | dev_other t tp m m' d d' du se : dev_step (mkSt t tp m d du se) (mkSt t tp m' d' du se).

Definition dev_ok (x : St) : Prop :=
  early (s_now x) ∧ tp_ok (s_now x) (s_port x) ∧ (s_sent x).*2 ++ transmitList (s_port x) ≡ₚ s_due x ∧
  Forall (λ e, e.2.1 <= e.1) (s_sent x).

Lemma recvFunctional_port t p tp m p' tp' m' :
  recvFunctional t p tp m = Some (p', tp', m') → ∃ l, tp' = with_list tp l.
Proof.
  unfold recvFunctional, checkFunctional. destruct (list_checkFunctional p (transmitList tp)) as [[[dn q] l]|]; [|done].
  cbn [mbind option_bind]. destruct dn; [intros [= <- <- <-]; by exists l|].
  destruct (recvAtomic t q m) as [[[[? ?] ?] ?]|]; [|done]. cbn [mbind option_bind]. intros [= <- <- <-]. by exists l.
Qed.

(** A message sent while the event is not scheduled. *)
Lemma dev_send_ok t tp m d tp' m' d' dr :
  early t → tp_ok t tp →
  sendEvent tp = Some t ∧ processSendEvent ms sendTiming t tp m d = Some (tp', m', d', dr) ∨
    recvRetry ms sendTiming t tp m d = Some (tp', m', d', dr) →
  ∃ dp l ok reqs ans, transmitList tp = dp :: l ∧ dp.1 <= t ∧ sendTiming t dp.2 d = Some (ok, reqs, d') ∧
    answers t reqs m = Some (ans, m') ∧ tp_ok t tp' ∧ waitingOnRetry tp' = negb ok ∧
    transmitList tp' ≡ₚ (if (ok : bool) then [] else [dp]) ++ ans ++ l.
Proof.
  intros Hn [Hc Ha] [[_ E]|E].
  - unfold processSendEvent in E. destruct (waitingOnRetry _); [done|].
    apply sendDeferredPacket_ok in E as (t0 & p & l & ok & reqs & ans & H); [|done|by apply tp_core_event|done].
    by exists (t0, p), l, ok, reqs, ans.
  - unfold recvRetry in E. destruct (waitingOnRetry tp) eqn:Ew; [|done].
    apply sendDeferredPacket_ok in E as (t0 & p & l & ok & reqs & ans & H); [|done..|by apply Hc].
    by exists (t0, p), l, ok, reqs, ans.
Qed.

Lemma dev_step_ok x y : dev_step x y → dev_ok x → dev_ok y.
Proof.
  destruct 1 as [t t' tp m d du se Hle He Hu|t tp m d du se p tp' m' l Hr Hl|t tp m d du se tp' m' d' dr dp l ok reqs ans Hs El Hsend Hans
    |t tp m d du se p p' tp' m' Hf El|t tp m d du se|]; intros (Hn & Hok & Hp & Hd); cbn [s_now s_port s_sent s_due] in *.
  - split_and!; try done. by eapply tp_ok_time.
  - destruct Hok as [Hc Ha]. apply recvTiming_ok in Hr as (l' & Hl' & _ & Hc' & Hp' & Hw & Ha'); [|done..].
    rewrite Hl in Hl'. injection Hl' as <-. split_and!; try done; [by split; auto|]. cbn. rewrite Hp', <- Hp.
    by rewrite <- app_assoc, (Permutation_app_comm l).
  - destruct (dev_send_ok t tp m d tp' m' d' dr Hn Hok Hs) as (dp2 & l2 & ok2 & r2 & a2 & El2 & Ht & Hs2 & Ha2 & Hok' & _ & Hp').
    rewrite El in El2. injection El2 as <- <-. rewrite Hsend in Hs2. injection Hs2 as <- <-. rewrite Hans in Ha2. injection Ha2 as <-.
    split_and!; try done.
    + cbn. rewrite Hp', <- Hp, El. destruct ok; [rewrite fmap_app, <- app_assoc|]; cbn.
      * rewrite <- app_assoc. cbn. by rewrite (Permutation_app_comm ans l).
      * rewrite <- app_assoc. cbn. by rewrite (Permutation_app_comm ans l).
    + cbn. destruct ok; [|done]. apply Forall_app. by repeat constructor.
  - destruct (recvFunctional_port _ _ _ _ _ _ _ Hf) as [l ->]. cbn in El. subst l.
    split_and!; try done. by destruct tp.
  - unfold drain. destruct (_ && _); [done|]. split_and!; try done. destruct Hok as [Hc Ha]. split; [by apply tp_core_drain|done].
  - done.
Qed.

Definition dev_reachable (x : St) : Prop := ∃ m d, rtc dev_step (mkSt 0 TPort_new m d [] []) x.

Lemma dev_reachable_ok x : dev_reachable x → dev_ok x.
Proof.
  intros (m & d & Hs). assert (dev_ok (mkSt 0 TPort_new m d [] [])) as H0.
  { split_and!; [split; done|apply TPort_new_ok|done|constructor]. }
  revert H0. induction Hs as [|? ? ? H1 _ IH]; [done|]. intros H0. apply IH. by eapply dev_step_ok.
Qed.

(** ** Delivery *)

(** What is connected accepts every packet and sends nothing back at once. *)
Definition accepting : Prop := ∀ t p d, ∃ d', sendTiming t p d = Some (true, [], d').

(** The ticks at which the packets of a list leave when the first leaves at [u]: one
    per tick, and none before its own. *)
Fixpoint leave_times (u : Z) (l : list (Z * Packet.t)) : list Z :=
  match l with
  | [] => []
  | _ :: l => u :: leave_times (match l with [] => u | (t, _) :: _ => Z.max (u + 1) t end) l
  end.

(** The next [n] events of the port; the packets that they have taken off the list. *)
Fixpoint run_events (n : nat) (tp : TPort) (m : port_state) (d : D)
    : option (list (Z * (Z * Packet.t)) * TPort * port_state * D) :=
  match n with
  | O => Some ([], tp, m, d)
  | S n =>
      u ← sendEvent tp;
      dp ← head (transmitList tp);
      '(tp, m, d, _) ← processSendEvent ms sendTiming u tp m d;
      '(out, tp, m, d) ← run_events n tp m d;
      Some ((u, dp) :: out, tp, m, d)
  end.

Lemma take_front_ready u tp t p l : transmitList tp = (t, p) :: l → t <= u → take_front u tp = Some (t, p, with_list tp l).
Proof. intros El Ht. unfold take_front, deferredPacketReady. by rewrite El, (proj2 (Z.leb_le _ _)). Qed.

Lemma process_accepting u tp m d t p l :
  accepting → early u → waitingOnRetry tp = false → transmitList tp = (t, p) :: l → t <= u →
  Forall (λ x, 0 <= x.1 < 2 ^ 62) l →
  ∃ d' dr dv, processSendEvent ms sendTiming u tp m d =
    Some (mkTPort l (match l with [] => None | (t', _) :: _ => Some (Z.max (u + 1) t') end) false dv, m, d', dr).
Proof.
  intros Hacc Hu Hw El Ht Hl. unfold processSendEvent. cbn [waitingOnRetry with_event]. rewrite Hw. unfold sendDeferredPacket.
  rewrite (take_front_ready u _ t p l) by done. cbn [mbind option_bind]. destruct (Hacc u p d) as [d' ->].
  cbn [mbind option_bind recv_all]. unfold finish_send. cbn [transmitList with_list with_event sendEvent].
  destruct l as [|[t' q] l].
  - cbn [mbind option_bind]. destruct (_ && _) eqn:E; cbn [mbind option_bind with_waiting]; by eexists _, _, _.
  - unfold schedule. cbn [sendEvent with_list with_event]. apply Forall_cons in Hl as [Hl _]. cbn in Hl.
    assert ((if t' <=? u then s64 (u + 1) else t') = Z.max (u + 1) t') as ->.
    { unfold early in Hu. destruct (Z.leb_spec t' u); [rewrite s64_small by (unfold is_s64; lia)|]; lia. }
    rewrite (proj2 (Z.ltb_ge _ _)) by (unfold early in Hu; rewrite !u64_small by (unfold is_u64; lia); lia).
    cbn [mbind option_bind transmitList with_event with_list]. rewrite bool_decide_eq_false_2 by done.
    cbn [andb mbind option_bind with_waiting]. by eexists _, _, _.
Qed.

Lemma run_events_ok l : ∀ B u tp m d,
  accepting → waitingOnRetry tp = false → transmitList tp = l → (l ≠ [] → sendEvent tp = Some u) → 0 <= u →
  (l ≠ [] → deferredPacketReadyTime tp <= u) → (l = [] → sendEvent tp = None) →
  Forall (λ x, 0 <= x.1 <= B) l → u <= B → B + Z.of_nat (length l) < 2 ^ 62 →
  ∃ tp' d', run_events (length l) tp m d = Some (zip (leave_times u l) l, tp', m, d') ∧
    transmitList tp' = [] ∧ sendEvent tp' = None ∧ waitingOnRetry tp' = false.
Proof.
  induction l as [|[t p] l IH]; intros B u tp m d Hacc Hw El He Hu Hf Hn Hl HB Hb.
  { exists tp, d. split_and!; auto. }
  cbn [length run_events leave_times zip zip_with]. rewrite He, El by done. cbn [mbind option_bind head].
  specialize (Hf ltac:(done)). unfold deferredPacketReadyTime in Hf. rewrite El in Hf.
  apply Forall_cons in Hl as [Ht Hl]. rewrite length_cons, Nat2Z.inj_succ in Hb. cbn in Ht.
  destruct (process_accepting u tp m d t p l) as (d1 & dr & dv & ->); try done.
  { unfold early. lia. }
  { eapply Forall_impl; [exact Hl|]. cbn. lia. }
  cbn [mbind option_bind]. set (tp1 := mkTPort l _ false dv).
  set (u1 := match l with [] => u | (t', _) :: _ => Z.max (u + 1) t' end).
  assert (u <= u1 <= B + 1) as Hu1.
  { unfold u1. destruct l as [|[]]; [lia|]. apply Forall_cons in Hl as [Hl _]. cbn in Hl. lia. }
  destruct (IH (B + 1) u1 tp1 m d1) as (tp' & d' & -> & H); try done.
  - unfold tp1, u1. cbn. by destruct l as [|[]].
  - lia.
  - unfold tp1, deferredPacketReadyTime, u1. cbn. destruct l as [|[]]; [done|lia].
  - unfold tp1. cbn. by intros ->.
  - eapply Forall_impl; [exact Hl|]. cbn. lia.
  - lia.
  - lia.
  - exists tp', d'. by split.
Qed.
End Device.

End Facts.

(** C20. A device answers every request exactly once.  In every reachable state the
    responses that it has delivered, together with those on its list, are those that have
    become due to the requests it has received, each once; none has been delivered before
    its tick.  Whenever the list is not empty either a retry is awaited or the event is
    scheduled, not in the past and not before the first packet is ready, so that the
    assertions on the list hold. *)
Theorem device_answers {M : AtomicPort} {D} ms sendTiming (x : St (D := D)) :
  0 <= ms < 2 ^ 62 → dev_reachable ms sendTiming x →
  (s_sent x).*2 ++ transmitList (s_port x) ≡ₚ s_due x ∧ Forall (λ e, e.2.1 <= e.1) (s_sent x) ∧
  (transmitList (s_port x) ≠ [] → waitingOnRetry (s_port x) = true ∨ is_Some (sendEvent (s_port x))) ∧
  ∀ u, sendEvent (s_port x) = Some u → s_now x <= u ∧ deferredPacketReady u (s_port x) = true.
Proof.
  intros Hms Hr. destruct (dev_reachable_ok ms Hms sendTiming x Hr) as (_ & [Hc Ha] & Hp & Hd).
  split_and!; try done. intros u Hu. destruct (tc_event _ _ Hc u Hu) as (Hle & Hne & Hf). split; [done|].
  unfold deferredPacketReady, deferredPacketReadyTime in *. destruct (transmitList _) as [|[]]; [done|]. by apply Z.leb_le.
Qed.

(** Every delayed packet is delivered.  In a reachable state in which the port does
    not wait for a retry, and while what is connected accepts, the events of the port
    deliver all the packets of its list in the order of their ticks, one per tick and
    each as soon as it is ready, and then stop. *)
Theorem delayed_packets_delivered {M : AtomicPort} {D} ms sendTiming (x : St (D := D)) u B :
  0 <= ms < 2 ^ 62 → dev_reachable ms sendTiming x → accepting sendTiming → waitingOnRetry (s_port x) = false →
  sendEvent (s_port x) = Some u → Forall (λ e, 0 <= e.1 <= B) (transmitList (s_port x)) → u <= B →
  B + Z.of_nat (length (transmitList (s_port x))) < 2 ^ 62 →
  let l := transmitList (s_port x) in
  ∃ tp' d', run_events ms sendTiming (length l) (s_port x) (s_mem x) (s_dev x) =
      Some (zip (leave_times u l) l, tp', s_mem x, d') ∧
    transmitList tp' = [] ∧ sendEvent tp' = None ∧ StronglySorted Z.le l.*1.
Proof.
  intros Hms Hr Hacc Hw Hu Hl HuB HB. destruct (dev_reachable_ok ms Hms sendTiming x Hr) as (Hn & [Hc Ha] & _).
  destruct (tc_event _ _ Hc u Hu) as (Hle & Hne & Hf). unfold early in Hn. cbv zeta.
  destruct (run_events_ok ms Hms sendTiming (transmitList (s_port x)) B u (s_port x) (s_mem x) (s_dev x)) as (tp' & d' & H & H1 & H2 & _);
    try done; [lia|]. exists tp', d'. split_and!; try done. apply Hc.
Qed.

(** ** A run *)

(** A memory of 64 bytes with a latency of 30 ticks, read three times; the first packet is
    sent while the device that receives it writes. *)
Definition demo_memory : PhysicalMemory := mkMem 0 (replicate 64 7) [] 0 30 0.
Definition demo_read (a : Z) : Packet.t :=
  Packet.setSrc (Packet.mk 0x1f00 ReadReq demo_req (Some [0; 0]) a 2 0 (-1) InvalidCmd 0 None) 4.
Definition demo_peer (_ : Z) (_ : Packet.t) (n : nat) : option (bool * list Packet.t * nat) := Some (true, [], S n).

Definition demo_state (ts : list (Z * Z)) : St (M := MemoryPort 0 0) (D := nat) :=
  foldl (λ x '(t, a),
    match recvTiming (M := MemoryPort 0 0) 1000000000 t (demo_read a) (s_port x) (s_mem x),
      answer (M := MemoryPort 0 0) t (demo_read a) (s_mem x) with
    | Some (tp, m), Some (l, _) => mkSt (M := MemoryPort 0 0) t tp m (s_dev x) (s_due x ++ l) (s_sent x)
    | _, _ => x
    end) (mkSt (M := MemoryPort 0 0) 0 TPort_new demo_memory 0%nat [] []) ts.

Lemma demo_state_reachable : dev_reachable (M := MemoryPort 0 0) 1000000000 demo_peer (demo_state [(0, 8); (5, 16)]).
Proof.
  exists demo_memory, 0%nat.
  eapply rtc_l; [eapply (dev_recv (M := MemoryPort 0 0) _ _ 0 TPort_new demo_memory 0%nat [] [] (demo_read 8)); vm_compute; reflexivity|].
  eapply rtc_l; [eapply (dev_time (M := MemoryPort 0 0) _ _ 0 5); [done|done|intros u Hu; vm_compute in Hu; by injection Hu as <-]|].
  eapply rtc_l; [eapply (dev_recv (M := MemoryPort 0 0) _ _ 5 _ _ _ _ _ (demo_read 16)); vm_compute; reflexivity|]. apply rtc_refl.
Qed.

Lemma device_answers_witness :
  let x := demo_state [(0, 8); (5, 16)] in
  (transmitList (s_port x)).*1 = [30; 35] ∧ (s_sent x).*2 ++ transmitList (s_port x) ≡ₚ s_due x ∧
  ∀ u, sendEvent (s_port x) = Some u → deferredPacketReady u (s_port x) = true.
Proof.
  cbv zeta. split; [vm_compute; reflexivity|].
  destruct (device_answers (M := MemoryPort 0 0) 1000000000 demo_peer (demo_state [(0, 8); (5, 16)])) as (H & _ & _ & He);
    [done|apply demo_state_reachable|]. split; [exact H|]. intros u Hu. by apply He.
Defined.

Lemma delayed_packets_delivered_witness :
  let x := demo_state [(0, 8); (5, 16)] in
  ∃ tp' d', run_events (M := MemoryPort 0 0) 1000000000 demo_peer 2 (s_port x) (s_mem x) (s_dev x) =
    Some (zip [30; 35] (transmitList (s_port x)), tp', s_mem x, d') ∧ transmitList tp' = [].
Proof.
  destruct (delayed_packets_delivered (M := MemoryPort 0 0) 1000000000 demo_peer (demo_state [(0, 8); (5, 16)]) 30 100)
    as (tp' & d' & H & Hn & _); [done|apply demo_state_reachable|by intros ???; eexists|vm_compute; reflexivity..| | |vm_compute; reflexivity|].
  - vm_compute. repeat constructor; discriminate.
  - done.
  - exists tp', d'. split; [exact H|exact Hn].
Defined.
