(* ===== verification/CacheCtl.v ===== *)
(** The cache controller in atomic mode, [src/m5/src/mem/cache/cache_impl.hh],
    [cache.hh] and [base.hh] ([Cache<LRU>], [BaseCache]).

    A pointer to a block is an index into the tag store or the temporary block.
    The controller shares the MSHR queue of the timing mode, which it consults
    before it replaces a block.  Trace messages are left out; a failed assertion
    and a [panic] are [None].  Whatever is connected to the memory side is an
    instance of [AtomicPort]. *)

From S2P Require Import Prelude IntMath Packet CacheBlk Lru Mshr MshrQueue PhysMem.

(** ** State *)

Inductive BlkRef :=
  | InTags (i : nat)
  | TempBlock.

(** Counters of a command and a cpu, by [cmdToIndex]. *)
Record CacheStats := mkCacheStats {
  hits : gmap (Z * Z) Z;
  misses : gmap (Z * Z) Z;
  writebacks : Z;
  missCount : Z;
  exit_requested : bool
}.

Record Cache := mkCache {
  tags : LRU;
  tempBlock : CacheBlk;
  heap : Heap;
  mshrQueue : MSHRQueue;
  c_blkSize : Z;
  c_hitLatency : Z;
  c_numCpus : Z;
  c_stats : CacheStats
}.

Definition with_tags (c : Cache) (t : LRU) : Cache :=
  mkCache t (tempBlock c) (heap c) (mshrQueue c) (c_blkSize c) (c_hitLatency c) (c_numCpus c) (c_stats c).
Definition with_temp (c : Cache) (b : CacheBlk) : Cache :=
  mkCache (tags c) b (heap c) (mshrQueue c) (c_blkSize c) (c_hitLatency c) (c_numCpus c) (c_stats c).
Definition with_stats (c : Cache) (s : CacheStats) : Cache :=
  mkCache (tags c) (tempBlock c) (heap c) (mshrQueue c) (c_blkSize c) (c_hitLatency c) (c_numCpus c) s.

Definition get_blk (c : Cache) (r : BlkRef) : option CacheBlk :=
  match r with InTags i => blks (tags c) !! i | TempBlock => Some (tempBlock c) end.
Definition upd (c : Cache) (r : BlkRef) (f : CacheBlk → CacheBlk) : Cache :=
  match r with
  | InTags i => with_tags c (upd_blk (tags c) i f)
  | TempBlock => with_temp c (f (tempBlock c))
  end.

Definition or_status (f : Z) (b : CacheBlk) : CacheBlk := blk_set_status b (Z.lor (status b) f).
Definition clear_status (f : Z) (b : CacheBlk) : CacheBlk := blk_set_status b (Z.ldiff (status b) f).

(** [tags->invalidateBlk(blk)], also of the temporary block. *)
Definition invalidate (c : Cache) (r : BlkRef) : option Cache :=
  match r with
  | InTags i => t ← invalidateBlk (tags c) i; Some (with_tags c t)
  | TempBlock =>
      let b := tempBlock c in
      let t := with_warmup (tags c) (tagsInUse (tags c) - 1) (warmedUp (tags c)) (warmupCycle (tags c)) in
      let t := add_occ t (contextSrc b) (-1) in
      Some (with_temp (with_tags c t)
              (blk_set_contextSrc (clearLoadLocks (blk_set_touched (blk_set_status b 0) false)) (-1)))
  end.

(** ** Statistics *)

(** The commands in the order of the enumeration. *)
Definition all_commands : list Command :=
  [InvalidCmd; ReadReq; ReadResp; ReadRespWithInvalidate; WriteReq; WriteResp; Writeback;
   SoftPFReq; HardPFReq; SoftPFResp; HardPFResp; WriteInvalidateReq; WriteInvalidateResp;
   UpgradeReq; SCUpgradeReq; UpgradeResp; SCUpgradeFailReq; UpgradeFailResp; ReadExReq; ReadExResp;
   LoadLockedReq; StoreCondReq; StoreCondResp; SwapReq; SwapResp; MessageReq; MessageResp;
   NetworkNackError; InvalidDestError; BadAddressError; PrintReq].

Definition cmdToIndex (c : Command) : Z :=
  match list_find (λ x, x = c) all_commands with Some (i, _) => Z.of_nat i | None => 0 end.

(** The column of a counter: 0 for writebacks, whose id has to be -1, and the
    cpu otherwise; a negative column is outside of the vector. *)
Definition stat_slot (c : Cache) (p : Packet.t) (id : Z) : option Z :=
  if decide (Packet.cmd p = Writeback) then if id =? -1 then Some 0 else None
  else
    let k := Z.rem id (c_numCpus c) in
    if (0 <? c_numCpus c) && (0 <=? k) then Some k else None.

Definition bump (m : gmap (Z * Z) Z) (k : Z * Z) : gmap (Z * Z) Z :=
  <[k := default 0 (m !! k) + 1]> m.

Definition incHitCount (c : Cache) (p : Packet.t) (id : Z) : option Cache :=
  k ← stat_slot c p id;
  let s := c_stats c in
  Some (with_stats c (mkCacheStats (bump (hits s) (cmdToIndex (Packet.cmd p), k)) (misses s)
                        (writebacks s) (missCount s) (exit_requested s))).

Definition incMissCount (c : Cache) (p : Packet.t) (id : Z) : option Cache :=
  k ← stat_slot c p id;
  let s := c_stats c in
  let n := if missCount s =? 0 then 0 else missCount s - 1 in
  let ex := exit_requested s || (negb (missCount s =? 0) && (n =? 0)) in
  Some (with_stats c (mkCacheStats (hits s) (bump (misses s) (cmdToIndex (Packet.cmd p), k))
                        (writebacks s) n ex)).

(** ** Satisfying a request from a block *)

(** [cmpAndSwap]; the initial contents of [overwrite_val] are never used. *)
Definition cmpAndSwap (c : Cache) (r : BlkRef) (p : Packet.t) : option (Cache * Packet.t) :=
  b ← get_blk c r;
  a ← Packet.getAddr p;
  sz ← Packet.getSize p;
  let off := extractBlkOffset (geo (tags c)) a in
  if sz <=? 8 then
    val ← Packet.writeData p (replicate 8 0) 0;
    p ← Packet.setData p (data b) off;
    overwrite ← swap_condition (Packet.req p) sz (data b) off;
    if (overwrite : bool) then
      d ← Packet.memcpy (data b) off val 0 sz;
      Some (upd c r (λ b, or_status BlkDirty (blk_set_data b d)), p)
    else Some (c, p)
  else None.

Definition satisfyCpuSideRequest (c : Cache) (p : Packet.t) (r : BlkRef) : option (Cache * Packet.t) :=
  b ← get_blk c r;
  off ← Packet.getOffset p (c_blkSize c);
  sz ← Packet.getSize p;
  if c_blkSize c <? off + sz then None
  else if decide (Packet.cmd p = SwapReq) then cmpAndSwap c r p
  else if Packet.isWrite p then
    '(ok, b, p) ← checkWrite b p;
    if (ok : bool) then
      d ← Packet.writeDataToBlock p (data b) (c_blkSize c);
      Some (upd c r (λ _, or_status BlkDirty (blk_set_data b d)), p)
    else Some (upd c r (λ _, b), p)
  else if Packet.isRead p then
    b ← (if Packet.isLLSC p then CacheBlk.trackLoadLocked b p else Some b);
    let c := upd c r (λ _, b) in
    p ← Packet.setDataFromBlock p (data b) (c_blkSize c);
    if sz =? c_blkSize c then
      if Packet.needsExclusive p then c ← invalidate c r; Some (c, p)
      else Some (upd c r (clear_status BlkWritable), Packet.assertShared p)
    else Some (c, p)
  else if Packet.isUpgrade p then c ← invalidate c r; Some (c, p)
  else None.

(** ** Replacement *)

Definition writebackBlk (curTick : Z) (c : Cache) (r : BlkRef) : option (Packet.t * Cache) :=
  b ← get_blk c r;
  if isValid b && isDirty b then
    let s := c_stats c in
    let c := with_stats c (mkCacheStats (hits s) (misses s) (writebacks s + 1) (missCount s)
                             (exit_requested s)) in
    req ← Request.new_phys curTick (regenerateBlkAddr (geo (tags c)) (tag b) (CacheBlk.set b))
            (c_blkSize c) 0;
    p ← Packet.allocate (replicate (Z.to_nat (c_blkSize c)) 0) (Packet.new curTick req Writeback (-1));
    buf ← Packet.getPtr p;
    buf ← Packet.memcpy buf 0 (data b) 0 (c_blkSize c);
    Some (Packet.set_data p (Packet.flags p) (Some buf), upd c r (clear_status BlkDirty))
  else None.

(** [allocateBlock]: the block, if it may be replaced, and the writebacks. *)
Definition allocateBlock (curTick : Z) (c : Cache) (a : Z) (wbs : list Packet.t)
    : option (option nat * list Packet.t * Cache) :=
  '(i, t) ← findVictim (tags c) a;
  let c := with_tags c t in
  b ← blks t !! i;
  if isValid b then
    let repl_addr := regenerateBlkAddr (geo t) (tag b) (CacheBlk.set b) in
    match findMatch (heap c) (mshrQueue c) repl_addr with
    | Some id =>
        m ← heap c !! id;
        if isWritable b then None
        else if needsExclusive m then Some (None, wbs, c) else None
    | None =>
        if isDirty b then
          '(wb, c) ← writebackBlk curTick c (InTags i);
          Some (Some i, wbs ++ [wb], c)
        else Some (Some i, wbs, c)
    end
  else Some (Some i, wbs, c).

(** The context of a request, -1 if it has none. *)
Definition context_id (p : Packet.t) : Z := default (-1) (Request.contextId (Packet.req p)).

(** [handleFill]; [fin] is the packet's [finishTime]. *)
Definition handleFill (curTick : Z) (c : Cache) (p : Packet.t) (fin : Z) (blk : option BlkRef)
    (wbs : list Packet.t) : option (BlkRef * list Packet.t * Cache) :=
  a ← Packet.getAddr p;
  '(r, wbs, c) ←
    (match blk with
     | None =>
         if Packet.hasData p then
           '(o, wbs, c) ← allocateBlock curTick c a wbs;
           match o with
           | None =>
               if isValid (tempBlock c) then None
               else
                 let g := geo (tags c) in
                 let b := tempBlock c in
                 let b := mkBlk (asid b) (extractTag g a) (data b) (CacheBlk.size b) (status b)
                            (whenReady b) (extractSet g a) (isTouched b) (refCount b)
                            (contextSrc b) (lockList b) in
                 Some (TempBlock, wbs, with_temp c b)
           | Some i =>
               t ← insertBlock (tags c) curTick a i (context_id p);
               Some (InTags i, wbs, with_tags c t)
           end
         else None
     | Some r =>
         b ← get_blk c r;
         if (tag b =? extractTag (geo (tags c)) a) && (Packet.hasData p || isValid b)
         then Some (r, wbs, c) else None
     end);
  let st := Z.lor BlkValid BlkReadable in
  let st := if Packet.sharedAsserted p then st
            else let st := Z.lor st BlkWritable in
                 if Packet.memInhibitAsserted p then Z.lor st BlkDirty else st in
  let c := upd c r (λ b, blk_set_status b st) in
  b ← get_blk c r;
  d ← (if Packet.isRead p
       then buf ← Packet.getPtr p; Packet.memcpy (data b) 0 buf 0 (c_blkSize c)
       else Some (data b));
  Some (r, wbs, upd c r (λ b, blk_set_whenReady (blk_set_data b d) fin)).

(** ** Accesses from the cpu side *)

(** The result of [access]: whether the request is satisfied, the block, the
    latency, the writebacks, the cache and the packet. *)
Record AccessResult := mkAccess {
  satisfied : bool;
  ac_blk : option BlkRef;
  ac_lat : Z;
  ac_wbs : list Packet.t;
  ac_cache : Cache;
  ac_pkt : Packet.t
}.

(** A writeback from above, with the block found for it, if any. *)
Definition access_writeback (curTick : Z) (c : Cache) (p : Packet.t) (a lat : Z) (blk : option nat)
    : option AccessResult :=
  let id := context_id p in
  sz ← Packet.getSize p;
  if c_blkSize c =? sz then
    '(o, wbs, c) ←
      (match blk with
       | Some i => Some (Some i, [], c)
       | None =>
           '(o, wbs, c) ← allocateBlock curTick c a [];
           match o with
           | None => Some (None, wbs, c)
           | Some i =>
               t ← insertBlock (tags c) curTick a i id;
               let st := Z.lor BlkValid BlkReadable in
               Some (Some i, wbs, upd (with_tags c t) (InTags i) (λ b, blk_set_status b st))
           end
       end);
    match o with
    | None => c ← incMissCount c p id; Some (mkAccess false None lat wbs c p)
    | Some i =>
        b ← blks (tags c) !! i;
        buf ← Packet.getPtr p;
        d ← Packet.memcpy (data b) 0 buf 0 (c_blkSize c);
        let c := upd c (InTags i) (λ b, or_status BlkDirty (blk_set_data b d)) in
        if Packet.needsResponse p then None
        else c ← incHitCount c p id; Some (mkAccess true (Some (InTags i)) lat wbs c p)
    end
  else None.

(** The part of [access] for a block that is absent or lacks the permission. *)
Definition access_miss (curTick : Z) (c : Cache) (p : Packet.t) (a lat : Z) (blk : option nat)
    : option AccessResult :=
  if decide (Packet.cmd p = Writeback) then access_writeback curTick c p a lat blk
  else
    c ← incMissCount c p (context_id p);
    match blk with
    | None =>
        if Packet.isLLSC p && Packet.isWrite p
        then Some (mkAccess true None lat [] c
                     (Packet.set_req p (Request.setExtraData (Packet.req p) 0)))
        else Some (mkAccess false None lat [] c p)
    | Some i => Some (mkAccess false (Some (InTags i)) lat [] c p)
    end.

Definition access (curTick : Z) (c : Cache) (p : Packet.t) : option AccessResult :=
  if Request.isUncacheable (Packet.req p) then Some (mkAccess false None (c_hitLatency c) [] c p)
  else
    a ← Packet.getAddr p;
    '(blk, lat, t) ← accessBlock (tags c) curTick a;
    let c := with_tags c t in
    match blk with
    | Some i =>
        b ← blks t !! i;
        if (if Packet.needsExclusive p then isWritable b else isReadable b) then
          c ← incHitCount c p (context_id p);
          '(c, p) ← satisfyCpuSideRequest c p (InTags i);
          Some (mkAccess true (Some (InTags i)) lat [] c p)
        else access_miss curTick c p a lat blk
    | None => access_miss curTick c p a lat blk
    end.

(** [getBusPacket]: the request to send downstream, or [Some None] when the
    request itself is forwarded. *)
Definition getBusPacket (curTick : Z) (c : Cache) (p : Packet.t) (blk : option BlkRef)
    (needs_excl : bool) : option (option Packet.t) :=
  let b := r ← blk; get_blk c r in
  let blkValid := match b with Some b => isValid b | None => false end in
  let writable := match b with Some b => isWritable b | None => false end in
  if Request.isUncacheable (Packet.req p) then
    match blk with None => Some None | Some _ => None end
  else if negb blkValid && (bool_decide (Packet.cmd p = Writeback) || Packet.isUpgrade p)
  then Some None
  else if Packet.needsResponse p then
    cmd ← (if blkValid then
             if needs_excl && negb writable
             then Some (if Packet.isLLSC p then SCUpgradeReq else UpgradeReq) else None
           else Some (if needs_excl then ReadExReq else ReadReq));
    q ← Packet.allocate (replicate (Z.to_nat (c_blkSize c)) 0)
          (Packet.new_blk curTick (Packet.req p) cmd Packet.Broadcast (c_blkSize c));
    Some (Some q)
  else None.

Section Atomic.
Context {M : AtomicPort}.

(** The writebacks of an access, sent one after the other. *)
Fixpoint send_writebacks (curTick : Z) (wbs : list Packet.t) (m : port_state) : option port_state :=
  match wbs with
  | [] => Some m
  | wb :: wbs => '(_, _, _, m) ← recvAtomic curTick wb m; send_writebacks curTick wbs m
  end.

(** A request of which another cache is the supplier: it is passed on when it
    invalidates, and not answered here. *)
Definition atomic_inhibited (curTick : Z) (c : Cache) (p : Packet.t) (m : port_state)
    : option (Packet.t * Z * Cache * port_state) :=
  if Request.isUncacheable (Packet.req p) then None
  else if Packet.isInvalidate p then
    a ← Packet.getAddr p;
    c ← (match findBlock (tags c) a with
         | Some i => invalidate c (InTags i)
         | None => Some c
         end);
    '(p, l, _, m) ← recvAtomic curTick p m;
    Some (p, s32 (c_hitLatency c + l), c, m)
  else Some (p, c_hitLatency c, c, m).

(** The miss path of [atomicAccess].  The request sent downstream shares the
    [Request] of the packet. *)
Definition atomic_miss (curTick : Z) (r : AccessResult) (m : port_state)
    : option (Packet.t * Z * list Packet.t * Cache * port_state) :=
  let c := ac_cache r in
  let p := ac_pkt r in
  bus ← getBusPacket curTick c p (ac_blk r) (Packet.needsExclusive p);
  match bus with
  | None =>
      '(p, l, _, m) ← recvAtomic curTick p m;
      if Packet.wasNacked p then None else Some (p, s32 (ac_lat r + l), ac_wbs r, c, m)
  | Some q =>
      '(q, l, fin, m) ← recvAtomic curTick q m;
      let p := Packet.set_req p (Packet.req q) in
      if Packet.wasNacked q then None
      else if Packet.needsResponse p then
        if negb (Packet.isResponse q) then None
        else if Packet.isError q then
          p ← Packet.makeResponse p; p ← Packet.copyError p q;
          Some (p, s32 (ac_lat r + l), ac_wbs r, c, m)
        else if Packet.isRead q || bool_decide (Packet.cmd q = UpgradeResp) then
          '(blk, wbs, c) ← handleFill curTick c q fin (ac_blk r) (ac_wbs r);
          '(c, p) ← satisfyCpuSideRequest c p blk;
          Some (p, s32 (ac_lat r + l), wbs, c, m)
        else p ← Packet.makeResponse p; Some (p, s32 (ac_lat r + l), ac_wbs r, c, m)
      else Some (p, s32 (ac_lat r + l), ac_wbs r, c, m)
  end.

Definition atomicAccess (curTick : Z) (c : Cache) (p : Packet.t) (m : port_state)
    : option (Packet.t * Z * Cache * port_state) :=
  if Packet.memInhibitAsserted p then atomic_inhibited curTick c p m
  else
    r ← access curTick c p;
    '(p, lat, wbs, c, m) ←
      (if satisfied r then Some (ac_pkt r, ac_lat r, ac_wbs r, ac_cache r, m)
       else atomic_miss curTick r m);
    m ← send_writebacks curTick wbs m;
    p ← respond_if_needed p;
    Some (p, lat, c, m).

End Atomic.

(** ** Snoops *)

Section Snoop.

(** [cpuSidePort->sendAtomic(pkt)] towards the caches above, whose state is [U]. *)
Context {U : Type} (upward : Packet.t → U → option (Packet.t * U)).

(** [handleSnoop] in atomic mode; [blk] is the block that was found, if any. *)
Definition handleSnoop (forwardSnoops : bool) (c : Cache) (p : Packet.t) (blk : option nat) (u : U)
    : option (Packet.t * Cache * U) :=
  if negb (Packet.isRequest p) then None
  else
    '(p, u) ←
      (if forwardSnoops then
         let alreadyResponded := Packet.memInhibitAsserted p in
         origSrc ← Packet.getSrc p;
         '(p, u) ← upward p u;
         if negb alreadyResponded && Packet.memInhibitAsserted p && negb (Packet.isResponse p) then None
         else Some (Packet.setSrc p origSrc, u)
       else Some (p, u));
    match (i ← blk; b ← blks (tags c) !! i; Some (i, b)) with
    | None => Some (p, c, u)
    | Some (i, b) =>
        if negb (isValid b) then Some (p, c, u)
        else
          let respond := isDirty b && Packet.needsResponse p in
          let have_exclusive := isWritable b in
          let inval := Packet.isInvalidate p in
          '(p, c) ←
            (if Packet.isRead p && negb (Packet.isInvalidate p) then
               if Packet.needsExclusive p then None
               else Some (Packet.assertShared p, upd c (InTags i) (clear_status BlkWritable))
             else Some (p, c));
          p ←
            (if respond then
               if Packet.memInhibitAsserted p then None
               else
                 let p := Packet.assertMemInhibit p in
                 let p := if have_exclusive then Packet.setSupplyExclusive p else p in
                 p ← Packet.makeResponse p;
                 Packet.setDataFromBlock p (data b) (c_blkSize c)
             else Some p);
          c ← (if inval then invalidate c (InTags i) else Some c);
          Some (p, c, u)
    end.

(** [snoopAtomic]: the packet, the latency and the caches. *)
Definition snoopAtomic (forwardSnoops : bool) (c : Cache) (p : Packet.t) (u : U)
    : option (Packet.t * Z * Cache * U) :=
  if Request.isUncacheable (Packet.req p) || bool_decide (Packet.cmd p = Writeback)
  then Some (p, c_hitLatency c, c, u)
  else
    a ← Packet.getAddr p;
    '(p, c, u) ← handleSnoop forwardSnoops c p (findBlock (tags c) a) u;
    Some (p, c_hitLatency c, c, u).

(** [MemSidePort::recvAtomic] *)
Definition mem_recvAtomic (forwardSnoops : bool) (c : Cache) (p : Packet.t) (u : U)
    : option (Packet.t * Z * Cache * U) :=
  if Packet.isResponse p then None else snoopAtomic forwardSnoops c p u.

End Snoop.

(** ** What a prefetcher can ask and set *)

Definition inCache (c : Cache) (a : Z) : bool := bool_decide (is_Some (findBlock (tags c) a)).
Definition inMissQueue (c : Cache) (a : Z) : bool :=
  bool_decide (is_Some (findMatch (heap c) (mshrQueue c) a)).

Definition getPrefetchBit (c : Cache) (a : Z) : bool :=
  match (i ← findBlock (tags c) a; blks (tags c) !! i) with
  | Some b => truthy (Z.land (status b) BlkHWPrefetchFlag)
  | None => false
  end.
Definition setPrefetchBit (c : Cache) (a : Z) : Cache :=
  match findBlock (tags c) a with
  | Some i => upd c (InTags i) (or_status BlkHWPrefetchFlag)
  | None => c
  end.
Definition clearPrefetchBit (c : Cache) (a : Z) : Cache :=
  match findBlock (tags c) a with
  | Some i => upd c (InTags i) (clear_status BlkHWPrefetchFlag)
  | None => c
  end.

(** ** Construction *)

(** [BaseCache::BaseCache] and [Cache::Cache] with [LRU] tags; [datum] is the
    unspecified contents of a block. *)
Definition Cache_new (g : Geometry) (ncpus mshrs lat max_miss : Z) (datum : list Z) : Cache :=
  let q := MSHRQueue_new 0 mshrs 4 in
  mkCache (LRU_new g ncpus datum) (blk_set_data CacheBlk_new datum)
    (list_to_map ((λ i, (i, MSHR_new)) <$> registers q)) q (blkSize g) lat ncpus
    (mkCacheStats ∅ ∅ 0 max_miss false).
