(* ===== verification/CacheInv.v ===== *)
(** The blocks of a cache controller in atomic mode, and what its operations do to
    them.

    [cache_byte] is the abstraction, the byte a processor would read at an address
    of a cache in front of a state with one byte per address ([ByteView]);
    [blk_state] whether the block of an address is there, writable and dirty;
    [cache_inv] the invariant, of which the main part is that a block that is not
    dirty agrees with the state behind the cache; [flat_step] the specification, one
    request of a processor on an array of bytes. *)

From S2P Require Import Prelude IntMath Packet CacheBlk Lru Mshr MshrQueue PhysMem CacheCtl.

(** ** Status bits *)

Section Status.

Lemma land_lor_disjoint s f n : Z.land f n = 0 → Z.land (Z.lor s f) n = Z.land s n.
Proof. intros E. by rewrite Z.land_lor_distr_l, E, Z.lor_0_r. Qed.

Lemma dirty_keeps b :
  isReadable (or_status BlkDirty b) = isReadable b ∧
  isWritable (or_status BlkDirty b) = isWritable b ∧
  isValid (or_status BlkDirty b) = isValid b ∧ isDirty (or_status BlkDirty b) = true.
Proof.
  unfold isReadable, isWritable, isValid, isDirty, or_status. cbn [status blk_set_status].
  rewrite !land_lor_disjoint by done. split_and!; try done.
  rewrite Z.land_lor_distr_l. change (Z.land BlkDirty BlkDirty) with BlkDirty.
  destruct (Z.eqb_spec (Z.lor (Z.land (status b) BlkDirty) BlkDirty) 0) as [E|]; [|done].
  by apply Z.lor_eq_0_iff in E as [_ ?].
Qed.

End Status.

(** ** Blocks of addresses *)

Section Blocks.
Context (g : Geometry).
Hypothesis Hg : geometry_ok g.

Lemma block_arith x :
  is_u64 x →
  extractBlkOffset g x = x mod blkSize g ∧ blkAlign g x = x - x mod blkSize g ∧
  4 <= blkSize g < 2 ^ 32 ∧ 2 ^ 64 mod blkSize g = 0 ∧ blkMask g = blkSize g - 1.
Proof.
  intros Hx. destruct (extract_arith g Hg x Hx) as (kb & ks & Hkb & _ & _ & _ & Hss & _ & _ & Eo & Ea).
  destruct Hg as (kb' & ks' & _ & _ & _ & _ & Hbs & _ & Hbm & Hss' & _).
  assert (kb' = kb) as -> by congruence. rewrite Hbs, Eo, Ea, Hbm.
  pose proof (pow2_pos_lt kb 32 ltac:(lia)).
  assert (2 ^ 2 <= 2 ^ kb) by (apply Z.pow_le_mono_r; lia).
  split_and!; try lia. replace 64 with ((64 - kb) + kb) by lia.
  rewrite Z.pow_add_r by lia. apply Z.mod_mul. lia.
Qed.

(** The addresses of the block of [a]. *)
Lemma block_member a x :
  is_u64 a → is_u64 x →
  blkAlign g x = blkAlign g a ↔ blkAlign g a <= x < blkAlign g a + blkSize g.
Proof.
  intros Ha Hx. destruct (block_arith a Ha) as (_ & -> & Hb & _).
  destruct (block_arith x Hx) as (_ & -> & _).
  set (B := blkSize g) in *. clearbody B. clear Hg.
  pose proof (Z.mod_pos_bound a B ltac:(lia)). pose proof (Z.mod_pos_bound x B ltac:(lia)).
  pose proof (Z.div_mod a B ltac:(lia)). pose proof (Z.div_mod x B ltac:(lia)). split; [lia|].
  intros [Hlo Hhi]. assert (x / B = a / B); [|nia].
  assert (a / B <= x / B) by (apply Z.div_le_lower_bound; lia).
  assert (x / B < a / B + 1) by (apply Z.div_lt_upper_bound; nia). lia.
Qed.

Lemma block_offset x : is_u64 x → extractBlkOffset g x = x - blkAlign g x.
Proof. intros Hx. destruct (block_arith x Hx) as (-> & -> & _). lia. Qed.

Lemma block_range a :
  is_u64 a → 0 <= blkAlign g a ∧ blkAlign g a + blkSize g <= 2 ^ 64 ∧
    blkAlign g a <= a < blkAlign g a + blkSize g.
Proof.
  intros Ha. destruct (block_arith a Ha) as (_ & -> & Hb & H64 & _). unfold is_u64 in Ha.
  set (B := blkSize g) in *. clearbody B. clear Hg.
  pose proof (Z.mod_pos_bound a B ltac:(lia)). pose proof (Z.div_mod a B ltac:(lia)).
  assert (0 <= a / B) by (apply Z.div_pos; lia).
  pose proof (Z.div_mod (2 ^ 64) B ltac:(lia)) as E. rewrite H64 in E.
  assert (a / B < 2 ^ 64 / B) by (apply Z.div_lt_upper_bound; lia).
  split_and!; [nia| |lia|lia]. nia.
Qed.

Lemma getOffset_block p :
  is_u64 (Packet.addr p) → Packet.getAddr p = Some (Packet.addr p) →
  Packet.getOffset p (blkSize g) = Some (extractBlkOffset g (Packet.addr p)).
Proof.
  intros Ha Hp. unfold Packet.getOffset, extractBlkOffset. rewrite Hp. cbn [mbind option_bind].
  destruct (block_arith _ Ha) as (_ & _ & Hb & _ & ->). by rewrite u64_small by (unfold is_u64; lia).
Qed.

End Blocks.

(** ** The specification *)

(** A request of a processor to a part of one block of [bs] bytes. *)
Record cpu_request (bs : Z) (p : Packet.t) : Prop := {
  rq_cmd : Packet.cmd p ∈ [ReadReq; WriteReq; LoadLockedReq; StoreCondReq; SwapReq];
  rq_addr : Packet.getAddr p = Some (Packet.addr p);
  rq_u64 : is_u64 (Packet.addr p);
  rq_size : Packet.getSize p = Some (Packet.size p);
  rq_part : 0 < Packet.size p < bs;
  rq_block : Packet.addr p mod bs + Packet.size p <= bs;
  rq_buf : ∃ d, Packet.getPtr p = Some d ∧ Z.of_nat (length d) = Packet.size p;
  rq_paddr : Request.paddr (Packet.req p) = Some (Packet.addr p);
  rq_context : ∃ cid tid, Request.context (Packet.req p) = Some (cid, tid) ∧ 0 <= cid;
  rq_cacheable : Request.isUncacheable (Packet.req p) = false;
  rq_inhibit : Packet.memInhibitAsserted p = false;
  rq_swap : Packet.cmd p = SwapReq → Packet.size p <= 8 ∧
    (Request.isCondSwap (Packet.req p) = true →
       (Packet.size p = 8 ∨ Packet.size p = 4) ∧ is_Some (Request.extraData (Packet.req p)))
}.

Lemma request_range g p x :
  geometry_ok g → cpu_request (blkSize g) p →
  Packet.addr p <= x < Packet.addr p + Packet.size p →
  is_u64 x ∧ blkAlign g x = blkAlign g (Packet.addr p).
Proof.
  intros Hg Hrq Hx. pose proof (rq_u64 _ _ Hrq) as Ha. pose proof (rq_block _ _ Hrq) as Hb.
  destruct (block_range g Hg _ Ha) as (H0 & H64 & Hr). destruct (block_arith g Hg _ Ha) as (_ & E & _).
  assert (is_u64 x) as Hu by (unfold is_u64; lia).
  split; [done|]. apply block_member; [done|done|done|lia].
Qed.

(** The response carries the bytes requested. *)
Definition reads (p : Packet.t) (B : Z → option Z) (p' : Packet.t) : Prop :=
  ∃ r, Packet.getPtr p' = Some r ∧ Z.of_nat (length r) = Packet.size p ∧ bytes_at B (Packet.addr p) r.

(** Whether a swap happens. *)
Definition swaps (p : Packet.t) (B : Z → option Z) : Prop :=
  Request.isCondSwap (Packet.req p) = false ∨
  ∃ v, Request.extraData (Packet.req p) = Some v ∧
    bytes_at B (Packet.addr p) (le_bytes (Z.to_nat (Packet.size p)) v).

(** One request [p] with the answer [p'] on an array of bytes. *)
Definition flat_step (p : Packet.t) (B : Z → option Z) (p' : Packet.t) (B' : Z → option Z) : Prop :=
  ∃ (w : bool) d, Packet.getPtr p = Some d ∧
    (∀ x, is_u64 x → B' x =
       if decide (w = true ∧ Packet.addr p <= x < Packet.addr p + Packet.size p)
       then d !! Z.to_nat (x - Packet.addr p) else B x) ∧
    match Packet.cmd p with
    | WriteReq => w = true
    | StoreCondReq => Request.extraData (Packet.req p') = Some (if w then 1 else 0)
    | SwapReq => reads p B p' ∧ (w = true ↔ swaps p B)
    | _ => w = false ∧ reads p B p'
    end.

(** ** The abstraction and the invariant *)

Section View.
Context {S : Type} {V : ByteView S}.

Definition cache_byte (c : Cache) (m : S) (x : Z) : option Z :=
  match findBlock (tags c) x with
  | Some i => b ← blks (tags c) !! i; data b !! Z.to_nat (extractBlkOffset (geo (tags c)) x)
  | None => port_byte m x
  end.

(** Whether the block of an address is there, writable and dirty. *)
Definition blk_state (c : Cache) (x : Z) : option (bool * bool) :=
  i ← findBlock (tags c) x; b ← blks (tags c) !! i; Some (isWritable b, isDirty b).

(** [c1] has the blocks and the bytes of [c]. *)
Definition same_contents (c c1 : Cache) (m : S) : Prop :=
  geo (tags c1) = geo (tags c) ∧
  (∀ x, is_u64 x → findBlock (tags c1) x = findBlock (tags c) x) ∧
  (∀ x, is_u64 x → cache_byte c1 m x = cache_byte c m x) ∧
  ∀ x, is_u64 x → blk_state c1 x = blk_state c x.

(** A block that holds the address [a].  [W] says that the blocks are writable, and
    [exempt] that the block need not agree with the memory although it is clean. *)
Record blk_good (W : Prop) (exempt : bool) (g : Geometry) (m : S) (a : Z) (b : CacheBlk) : Prop := {
  good_readable : isReadable b = true;
  good_writable : W → isWritable b = true;
  good_present : present (port_byte m) (blkAlign g a) (blkSize g);
  good_clean : exempt = false → isDirty b = false → bytes_at (port_byte m) (blkAlign g a) (data b)
}.

(** The invariant.  The block [X], if any, is in the middle of an access that will
    make it dirty or drop it. *)
Record cache_inv (W : Prop) (X : option nat) (c : Cache) (m : S) : Prop := {
  ck_port : port_ok m;
  ck_wf : lru_wf (tags c);
  ck_unique : lru_unique (tags c);
  ck_size : c_blkSize c = blkSize (geo (tags c));
  ck_bs : blkSize (geo (tags c)) = port_bs;
  ck_queue : allocatedList (mshrQueue c) = [];
  ck_cpus : 0 < c_numCpus c;
  ck_len : ∀ i b, blks (tags c) !! i = Some b →
    Z.of_nat (length (data b)) = blkSize (geo (tags c));
  ck_set : ∀ k st i b, sets (tags c) !! k = Some st → i ∈ st → blks (tags c) !! i = Some b →
    CacheBlk.set b = Z.of_nat k;
  ck_addr : ∀ i b, blks (tags c) !! i = Some b → isValid b = true →
    ∃ a, is_u64 a ∧ holds (tags c) a i;
  ck_blocks : ∀ a i b, is_u64 a → holds (tags c) a i → blks (tags c) !! i = Some b →
    blk_good W (bool_decide (X = Some i)) (geo (tags c)) m a b
}.

#[local] Arguments ck_port {W X} c m _.
#[local] Arguments ck_wf {W X} c m _.
#[local] Arguments ck_unique {W X} c m _.
#[local] Arguments ck_size {W X} c m _.
#[local] Arguments ck_bs {W X} c m _.
#[local] Arguments ck_queue {W X} c m _.
#[local] Arguments ck_cpus {W X} c m _.
#[local] Arguments ck_len {W X} c m _.
#[local] Arguments ck_set {W X} c m _.
#[local] Arguments ck_addr {W X} c m _.
#[local] Arguments ck_blocks {W X} c m _.

(** What the invariant depends on apart from the blocks. *)
Definition same_shape (c c' : Cache) : Prop :=
  lru_wf (tags c') ∧ geo (tags c') = geo (tags c) ∧ c_blkSize c' = c_blkSize c ∧
  allocatedList (mshrQueue c') = allocatedList (mshrQueue c) ∧ c_numCpus c' = c_numCpus c.

Lemma cores_Some s s' j b' :
  cores s' j = cores s j → blks s' !! j = Some b' →
  ∃ b, blks s !! j = Some b ∧ tag b' = tag b ∧ status b' = status b ∧ data b' = data b ∧
    CacheBlk.set b' = CacheBlk.set b.
Proof.
  unfold cores. intros E H. rewrite H in E. cbn in E. symmetry in E.
  apply fmap_Some in E as (b & Hb & E). unfold blk_core in E. injection E as -> -> -> ->. eauto 10.
Qed.

Lemma cores_key s s' j : cores s' j = cores s j → blk_key s' j = blk_key s j.
Proof.
  unfold cores, blk_key. destruct (blks s' !! j) as [b'|], (blks s !! j) as [b|]; cbn; try done.
  unfold blk_core, isValid. intros [= -> -> _ _]. done.
Qed.

Lemma cores_state s s' j :
  cores s' j = cores s j →
  (b ← blks s' !! j; Some (isWritable b, isDirty b)) = b ← blks s !! j; Some (isWritable b, isDirty b).
Proof.
  unfold cores. destruct (blks s' !! j) as [b'|], (blks s !! j) as [b|]; cbn; try done.
  unfold blk_core, isWritable, isDirty. by intros [= _ -> _ _].
Qed.

Lemma blk_good_same W x g m a b b' :
  status b' = status b → data b' = data b → blk_good W x g m a b → blk_good W x g m a b'.
Proof.
  intros Es Ed [H1 H2 H3 H4]. unfold isReadable, isWritable, isDirty in *.
  split; unfold isReadable, isWritable, isDirty; rewrite ?Es, ?Ed; done.
Qed.

(** A set keeps its members when its order changes. *)
Lemma shape_set s s' k st' j :
  lru_wf s → lru_wf s' → geo s' = geo s → sets s' !! k = Some st' → j ∈ st' →
  ∃ st, sets s !! k = Some st ∧ j ∈ st.
Proof.
  intros Hw Hw' Hg Hk Hj.
  assert (∃ st, sets s !! k = Some st) as [st Hst].
  { apply lookup_lt_is_Some_2. apply lookup_lt_Some in Hk.
    destruct Hw as (_ & Hl & _), Hw' as (_ & Hl' & _). rewrite Hg in Hl'. lia. }
  exists st. split; [done|]. rewrite (in_set s k st j Hw Hst).
  rewrite (in_set s' k st' j Hw' Hk) in Hj. unfold ways in *. by rewrite Hg in Hj.
Qed.

(** The addresses of one block are found together. *)
Lemma findBlock_block s a x i :
  lru_wf s → lru_unique s → is_u64 a → is_u64 x → findBlock s a = Some i →
  blkAlign (geo s) x = blkAlign (geo s) a → findBlock s x = Some i.
Proof.
  intros Hw Hu Ha Hx Hf E. apply findBlock_unique; [done|].
  apply findBlock_holds in Hf as (st & Hst & Hi & Hkey).
  apply (same_block_iff _ (proj1 Hw) x a) in E as [Et Es]; [|done..].
  exists st. unfold set_index in *. rewrite Es, Et. done.
Qed.

Lemma holds_valid s a i b : holds s a i → blks s !! i = Some b → isValid b = true.
Proof.
  intros (st & _ & _ & Hk) Hb. unfold blk_key in Hk. rewrite Hb in Hk. by injection Hk as _ ?.
Qed.

(** One block changes. *)
Lemma cache_inv_update W X X' c c' m i b b' :
  X = None ∨ X = Some i → X' = None ∨ X' = Some i →
  cache_inv W X c m → same_shape c c' → lru_unique (tags c') →
  blks (tags c) !! i = Some b → blks (tags c') !! i = Some b' →
  (∀ j, j ≠ i → cores (tags c') j = cores (tags c) j) →
  length (data b') = length (data b) → CacheBlk.set b' = CacheBlk.set b →
  (isValid b' = true → ∃ a, is_u64 a ∧ holds (tags c') a i) →
  (∀ a, is_u64 a → holds (tags c') a i → blk_good W (bool_decide (X' = Some i)) (geo (tags c)) m a b') →
  cache_inv W X' c' m.
Proof.
  intros HX HX' Hok (Hw' & Hg & Hbs & Hq & Hn) Hu' Hb Hb' Hf Hlen Hset Hval Hgood.
  pose proof (ck_wf _ _ Hok) as Hw. split; rewrite ?Hg, ?Hbs, ?Hq, ?Hn; try apply Hok; try done.
  - intros j bj Hj. destruct (decide (j = i)) as [->|Hne].
    + rewrite Hb' in Hj. injection Hj as <-. rewrite Hlen. by apply (ck_len _ _ Hok i).
    + destruct (cores_Some (tags c) _ j bj (Hf j Hne) Hj) as (b0 & Hb0 & _ & _ & -> & _).
      by apply (ck_len _ _ Hok j).
  - intros k st' j bj Hk Hjk Hj.
    destruct (shape_set (tags c) _ k st' j Hw Hw' Hg Hk Hjk) as (st & Hst & Hjst).
    destruct (decide (j = i)) as [->|Hne].
    + rewrite Hb' in Hj. injection Hj as <-. rewrite Hset. by apply (ck_set _ _ Hok k st i).
    + destruct (cores_Some (tags c) _ j bj (Hf j Hne) Hj) as (b0 & Hb0 & _ & _ & _ & ->).
      by apply (ck_set _ _ Hok k st j).
  - intros j bj Hj Hv. destruct (decide (j = i)) as [->|Hne].
    + rewrite Hb' in Hj. injection Hj as <-. by apply Hval.
    + destruct (cores_Some (tags c) _ j bj (Hf j Hne) Hj) as (b0 & Hb0 & _ & Hs & _ & _).
      destruct (ck_addr _ _ Hok j b0 Hb0) as (a & Ha & Hh);
        [unfold isValid in *; by rewrite <- Hs|].
      exists a. split; [done|]. apply (holds_transfer (tags c)); try done. by apply cores_key, Hf.
  - intros a j bj Ha Hh Hj. destruct (decide (j = i)) as [->|Hne].
    + rewrite Hb' in Hj. injection Hj as <-. by apply Hgood.
    + destruct (cores_Some (tags c) _ j bj (Hf j Hne) Hj) as (b0 & Hb0 & _ & Hs & Hd & _).
      apply (blk_good_same _ _ _ _ _ b0); [done|done|].
      replace (bool_decide (X' = Some j)) with (bool_decide (X = Some j)) by (destruct HX, HX'; subst; apply bool_decide_ext; naive_solver).
      apply (ck_blocks _ _ Hok a j b0); try done.
      rewrite <- (holds_transfer_iff (tags c) (tags c')); try done. by apply cores_key, Hf.
Qed.

(** No block changes. *)
Lemma cache_inv_same W X c c' m :
  cache_inv W X c m → same_shape c c' → (∀ j, cores (tags c') j = cores (tags c) j) →
  cache_inv W X c' m ∧ same_contents c c' m.
Proof.
  intros Hok Hsh Hf. pose proof Hsh as (Hw' & Hg & Hbs & Hq & Hn). unfold same_contents.
  pose proof (ck_wf _ _ Hok) as Hw.
  assert (∀ x, is_u64 x → findBlock (tags c') x = findBlock (tags c) x) as Hfb.
  { intros x Hx. apply findBlock_same_keys; try done; [apply Hok|]. intros j. apply cores_key, Hf. }
  split_and!; [|done|done| |].
  - split; rewrite ?Hg, ?Hbs, ?Hq, ?Hn; try apply Hok; try done.
    + apply (unique_transfer (tags c) _ 0); try done; [apply Hok|intros; by apply cores_key|].
      intros k st j tg Hst H0 Hj Hne H1 H2. rewrite (cores_key (tags c)) in H1 by apply Hf.
      apply Hne. symmetry. by eapply (ck_unique _ _ Hok).
    + intros j bj Hj. destruct (cores_Some (tags c) _ j bj (Hf j) Hj) as (b0 & Hb0 & _ & _ & -> & _).
      by apply (ck_len _ _ Hok j).
    + intros k st' j bj Hk Hjk Hj.
      destruct (shape_set (tags c) _ k st' j Hw Hw' Hg Hk Hjk) as (st & Hst & Hjst).
      destruct (cores_Some (tags c) _ j bj (Hf j) Hj) as (b0 & Hb0 & _ & _ & _ & ->).
      by apply (ck_set _ _ Hok k st j).
    + intros j bj Hj Hv. destruct (cores_Some (tags c) _ j bj (Hf j) Hj) as (b0 & Hb0 & _ & Hs & _ & _).
      destruct (ck_addr _ _ Hok j b0 Hb0) as (a & Ha & Hh); [unfold isValid in *; by rewrite <- Hs|].
      exists a. split; [done|]. apply (holds_transfer (tags c)); try done. by apply cores_key, Hf.
    + intros a j bj Ha Hh Hj. destruct (cores_Some (tags c) _ j bj (Hf j) Hj) as (b0 & Hb0 & _ & Hs & Hd & _).
      apply (blk_good_same _ _ _ _ _ b0); [done|done|]. apply (ck_blocks _ _ Hok a j b0); try done.
      rewrite <- (holds_transfer_iff (tags c) (tags c')); try done. by apply cores_key, Hf.
  - intros x Hx. unfold cache_byte. rewrite Hfb by done.
    destruct (findBlock (tags c) x) as [i|]; [|done]. rewrite Hg. specialize (Hf i). unfold cores in Hf.
    destruct (blks (tags c') !! i) as [b'|], (blks (tags c) !! i) as [b|]; try done.
    cbn in Hf. injection Hf as _ _ Hd _. cbn. by rewrite Hd.
  - intros x Hx. unfold blk_state. rewrite Hfb by done.
    destruct (findBlock (tags c) x) as [i|]; [|done]. cbn [mbind option_bind]. by apply cores_state.
Qed.

(** The block that holds [a] is overwritten. *)
Lemma set_block W X X' c m a i b f :
  X = None ∨ X = Some i → X' = None ∨ X' = Some i →
  cache_inv W X c m → is_u64 a → findBlock (tags c) a = Some i → blks (tags c) !! i = Some b →
  tag (f b) = tag b → CacheBlk.set (f b) = CacheBlk.set b → length (data (f b)) = length (data b) →
  isReadable (f b) = true → (W → isWritable (f b) = true) → isValid (f b) = true →
  isDirty (f b) = true ∨ X' = Some i ∨ X = None ∧ isDirty (f b) = isDirty b ∧ data (f b) = data b →
  let c' := upd c (InTags i) f in
  cache_inv W X' c' m ∧ (∀ x, is_u64 x → findBlock (tags c') x = findBlock (tags c) x) ∧
  (∀ x, is_u64 x → cache_byte c' m x =
    if decide (blkAlign (geo (tags c)) x = blkAlign (geo (tags c)) a)
    then data (f b) !! Z.to_nat (extractBlkOffset (geo (tags c)) x) else cache_byte c m x) ∧
  ∀ x, is_u64 x → blk_state c' x =
    if decide (blkAlign (geo (tags c)) x = blkAlign (geo (tags c)) a)
    then Some (isWritable (f b), isDirty (f b)) else blk_state c x.
Proof.
  intros HX HX' Hok Ha Hf Hb Ht Hs Hl Hrd Hwr Hv Hd c'.
  pose proof (ck_wf _ _ Hok) as Hw. pose proof Hw as (Hg & _).
  assert (same_shape c c') as Hsh by (split_and!; [by apply wf_upd_blk|done..]).
  assert (blks (tags c') !! i = Some (f b)) as Hb' by (cbn; by rewrite list_lookup_alter_eq, Hb).
  assert (∀ j, j ≠ i → cores (tags c') j = cores (tags c) j) as Hfr
    by (intros j Hj; unfold cores; cbn; by rewrite list_lookup_alter_ne).
  assert (∀ j, blk_key (tags c') j = blk_key (tags c) j) as Hk.
  { intros j. destruct (decide (j = i)) as [->|]; [|by apply cores_key, Hfr].
    apply findBlock_holds in Hf as (st & _ & _ & Hkey). unfold blk_key in *. rewrite Hb, Hb' in *.
    cbn in *. rewrite Ht, Hv. congruence. }
  assert (∀ x, is_u64 x → findBlock (tags c') x = findBlock (tags c) x) as Hfb.
  { intros x Hx. apply findBlock_same_keys; try done; [apply Hsh|apply Hok]. }
  assert (∀ x, is_u64 x → blkAlign (geo (tags c)) x = blkAlign (geo (tags c)) a → findBlock (tags c) x = Some i) as Hin
    by (intros x Hx E; by apply (findBlock_block _ a); [apply Hok..| | | |]).
  assert (∀ x j, is_u64 x → blkAlign (geo (tags c)) x ≠ blkAlign (geo (tags c)) a → findBlock (tags c) x = Some j →
    blks (tags c') !! j = blks (tags c) !! j) as Hout.
  { intros x j Hx E Ej. destruct (decide (j = i)) as [->|]; [|cbn; by rewrite list_lookup_alter_ne].
    exfalso. apply E. apply findBlock_holds in Ej, Hf. by apply (holds_same_block (tags c) a x i). }
  split_and!; [|done| |].
  - apply (cache_inv_update W X X' c c' m i b (f b)); try done.
    + apply (unique_transfer (tags c) _ i); try done; [apply Hsh|apply Hok|].
      intros k st j tg Hst H0 Hj Hne H1 H2. rewrite Hk in H1. apply Hne. symmetry.
      by eapply (ck_unique _ _ Hok).
    + intros _. exists a. split; [done|]. apply findBlock_holds in Hf.
      apply (holds_transfer (tags c)); try done. apply Hsh.
    + intros x Hx Hh. rewrite (holds_transfer_iff (tags c)) in Hh; try done; [|apply Hsh].
      destruct (ck_blocks _ _ Hok x i b Hx Hh Hb) as [_ _ Hp Hc]. split; try done.
      destruct Hd as [Hd|[-> |(-> & Es & Ed)]]; [by rewrite Hd|by rewrite bool_decide_eq_true_2|].
      intros _. rewrite Ed, Es. by apply Hc.
  - intros x Hx. unfold cache_byte. rewrite Hfb by done. change (geo (tags c')) with (geo (tags c)).
    destruct (decide _) as [E'|E']; [rewrite (Hin x Hx E'), Hb'; done|].
    destruct (findBlock (tags c) x) as [j|] eqn:Ej; [|done]. by rewrite (Hout x j).
  - intros x Hx. unfold blk_state. rewrite Hfb by done.
    destruct (decide _) as [E'|E']; [rewrite (Hin x Hx E'); cbn [mbind option_bind]; by rewrite Hb'|].
    destruct (findBlock (tags c) x) as [j|] eqn:Ej; [|done]. cbn [mbind option_bind]. by rewrite (Hout x j).
Qed.

(** ** Satisfying a request *)

(** The bytes of the block of [a] are those of the block in the cache. *)
Lemma byte_in_block W X c m a i b x :
  cache_inv W X c m → is_u64 a → is_u64 x → findBlock (tags c) a = Some i → blks (tags c) !! i = Some b →
  blkAlign (geo (tags c)) x = blkAlign (geo (tags c)) a →
  cache_byte c m x = data b !! Z.to_nat (x - blkAlign (geo (tags c)) a).
Proof.
  intros Hok Ha Hx Hf Hb E. pose proof (ck_wf _ _ Hok) as (Hg & _).
  unfold cache_byte. rewrite (findBlock_block _ a x i), Hb by (done || apply Hok). cbn.
  by rewrite block_offset, E.
Qed.

(** Requests that always write. *)
Definition must_write (p : Packet.t) : Prop :=
  Packet.cmd p = WriteReq ∨ Packet.cmd p = SwapReq ∧ Request.isCondSwap (Packet.req p) = false.

(** What a request [p] does to the states of the blocks: its own block keeps the
    permission to be written and may become dirty. *)
Definition state_step (p : Packet.t) (c c' : Cache) : Prop :=
  (∀ x, is_u64 x → blkAlign (geo (tags c)) x ≠ blkAlign (geo (tags c)) (Packet.addr p) →
     blk_state c' x = blk_state c x) ∧
  ∀ x, is_u64 x → blkAlign (geo (tags c)) x = blkAlign (geo (tags c)) (Packet.addr p) →
    ∃ w d d', blk_state c x = Some (w, d) ∧ blk_state c' x = Some (w, d') ∧
      (must_write p → d' = true) ∧ (Packet.needsExclusive p = false → d' = d) ∧ (d = true → d' = true).

Section Satisfy.
Context (W : Prop) (X : option nat).
Context (c : Cache) (m : S) (p : Packet.t) (i : nat) (b : CacheBlk) (d : list Z).
Abbreviation g := (geo (tags c)).
Abbreviation off := (extractBlkOffset g (Packet.addr p)).
Hypothesis Hok : cache_inv W X c m.
Hypothesis HX : X = None ∨ X = Some i ∧ must_write p.
Hypothesis Hrq : cpu_request (blkSize g) p.
Hypothesis Hf : findBlock (tags c) (Packet.addr p) = Some i.
Hypothesis Hb : blks (tags c) !! i = Some b.
Hypothesis Hd : Packet.getPtr p = Some d.

Lemma req_geo : geometry_ok g.
Proof. apply Hok. Qed.

Lemma req_bounds :
  0 <= off ∧ off = Packet.addr p - blkAlign g (Packet.addr p) ∧
  off + Packet.size p <= blkSize g ∧ Z.of_nat (length (data b)) = blkSize g ∧
  Z.of_nat (length d) = Packet.size p.
Proof.
  pose proof (rq_u64 _ _ Hrq) as Ha. destruct (block_arith g req_geo _ Ha) as (Eo & _ & Hbs & _).
  pose proof (rq_block _ _ Hrq). pose proof (Z.mod_pos_bound (Packet.addr p) (blkSize g) ltac:(lia)).
  destruct (rq_buf _ _ Hrq) as (d0 & Hd0 & Hl). rewrite Hd in Hd0. injection Hd0 as <-.
  split_and!; try lia; [by apply block_offset; [apply req_geo|]|by apply (ck_len _ _ Hok i)].
Qed.

Lemma req_range x :
  Packet.addr p <= x < Packet.addr p + Packet.size p →
  is_u64 x ∧ blkAlign g x = blkAlign g (Packet.addr p).
Proof. by apply (request_range g p x req_geo). Qed.

Lemma req_byte x :
  is_u64 x → blkAlign g x = blkAlign g (Packet.addr p) →
  cache_byte c m x = data b !! Z.to_nat (x - blkAlign g (Packet.addr p)).
Proof. intros. by apply (byte_in_block _ _ c m _ i b x Hok (rq_u64 _ _ Hrq)). Qed.

Lemma req_good : isReadable b = true ∧ (W → isWritable b = true) ∧ isValid b = true.
Proof.
  apply findBlock_holds in Hf as Hh. destruct (ck_blocks _ _ Hok _ i b (rq_u64 _ _ Hrq) Hh Hb).
  split_and!; try done. by apply (holds_valid _ _ _ _ Hh).
Qed.

Lemma req_state x :
  is_u64 x → blkAlign g x = blkAlign g (Packet.addr p) → blk_state c x = Some (isWritable b, isDirty b).
Proof.
  intros Hx E. unfold blk_state. rewrite (findBlock_block _ (Packet.addr p) x i) by (done || apply Hok || apply Hrq).
  cbn [mbind option_bind]. by rewrite Hb.
Qed.

(** No state changes. *)
Lemma state_step_same c' :
  ¬ must_write p → (∀ x, is_u64 x → blk_state c' x = blk_state c x) → state_step p c c'.
Proof.
  intros Hmw Hst. split; intros x Hx E; rewrite Hst by done; [done|]. rewrite (req_state x Hx E).
  do 3 eexists. by split_and!.
Qed.

(** The answer to a read. *)
Lemma req_reads :
  ∃ r, Packet.setData p (data b) off = Some (Packet.set_data p (Packet.flags p) (Some r)) ∧
    Z.of_nat (length r) = Packet.size p ∧ bytes_at (cache_byte c m) (Packet.addr p) r ∧
    r = take (Z.to_nat (Packet.size p)) (drop (Z.to_nat off) (data b)).
Proof.
  destruct req_bounds as (H0 & Eo & H1 & H2 & H3).
  destruct (Packet.setData_ok p (data b) off d (Packet.size p)) as (r & -> & Hl & Hr);
    [done|apply Hrq|done|lia|lia|].
  exists r. split_and!; [done|done| |].
  - intros k Hk. rewrite Hr by lia. destruct (req_range (Packet.addr p + Z.of_nat k)) as [Hu Ha]; [lia|].
    rewrite req_byte by done. f_equal. lia.
  - apply list_eq. intros k. destruct (decide (k < length r)%nat) as [Hk|Hk].
    + rewrite Hr, lookup_take_lt, lookup_drop by lia. done.
    + rewrite lookup_ge_None_2 by lia. symmetry. apply lookup_ge_None_2.
      rewrite length_take, length_drop. lia.
Qed.

Lemma exempt_here : X = None ∨ X = Some i.
Proof. destruct HX as [?|[? _]]; auto. Qed.

(** The block with the data of the packet written into it. *)
Lemma req_writes f :
  tag (f b) = tag b → CacheBlk.set (f b) = CacheBlk.set b → length (data (f b)) = length (data b) →
  status (f b) = Z.lor (status b) BlkDirty →
  (∀ k : nat, data (f b) !! k = if decide (off <= Z.of_nat k < off + Packet.size p)
                                then d !! (k - Z.to_nat off)%nat else data b !! k) →
  let c' := upd c (InTags i) f in
  cache_inv W None c' m ∧ (∀ x, is_u64 x → findBlock (tags c') x = findBlock (tags c) x) ∧
  (∀ x, is_u64 x → cache_byte c' m x =
    if decide (true = true ∧ Packet.addr p <= x < Packet.addr p + Packet.size p)
    then d !! Z.to_nat (x - Packet.addr p) else cache_byte c m x) ∧
  (Packet.needsExclusive p = true → state_step p c c').
Proof.
  intros Ht Hs Hl Hst Hdat c'. destruct req_bounds as (H0 & Eo & H1 & H2 & H3).
  destruct req_good as (Hrd & Hwr & Hv). destruct (dirty_keeps b) as (K1 & K2 & K3 & K4).
  unfold isReadable, isWritable, isValid, isDirty, or_status in K1, K2, K3, K4.
  cbn [status blk_set_status] in *. rewrite <- Hst in *.
  destruct (set_block W X None c m _ i b f exempt_here (or_introl eq_refl) Hok (rq_u64 _ _ Hrq) Hf Hb)
    as (Hok' & Hfb & Hby & Hbs);
    unfold isReadable, isWritable, isValid, isDirty in *; try congruence;
    [intros HW; rewrite K2; by apply Hwr|by left|].
  split_and!; [done|done| |].
  2: { intros Hne. split; intros x Hx E; rewrite Hbs by done; [by rewrite decide_False|].
       rewrite decide_True by done. rewrite (req_state x Hx E). unfold isWritable, isDirty. rewrite K2, K4.
       do 3 eexists. split_and!; [reflexivity..|done|congruence|done]. }
  intros x Hx. rewrite Hby by done.
  destruct (decide (blkAlign g x = _)) as [E'|E'].
  - rewrite req_byte by done. rewrite Hdat. rewrite (block_offset g req_geo x Hx), E'.
    pose proof (proj1 (block_member g req_geo _ _ (rq_u64 _ _ Hrq) Hx) E') as Hm.
    clear - H0 Eo Hm. destruct (decide _), (decide _); try lia; [f_equal; lia|done].
  - rewrite decide_False; [done|]. intros [_ Hr]. by destruct (req_range x Hr).
Qed.

(** Blocks of which only the locks change. *)
Lemma req_locks f :
  blk_core (f b) = blk_core b →
  let c' := upd c (InTags i) f in
  cache_inv W X c' m ∧ same_contents c c' m.
Proof.
  intros Ec c'. apply cache_inv_same; [done|split_and!; [apply wf_upd_blk, Hok|done..]|].
  intros j. unfold cores. cbn. destruct (decide (i = j)) as [<-|];
    [rewrite list_lookup_alter_eq, Hb; cbn; by rewrite Ec|by rewrite list_lookup_alter_ne].
Qed.

(** Without a write the block is not exempt. *)
Lemma not_exempt : ¬ must_write p → X = None.
Proof. destruct HX as [?|[_ ?]]; naive_solver. Qed.

Lemma getPtr_set r :
  Packet.getPtr (Packet.set_data p (Packet.flags p) (Some r)) = Some r.
Proof.
  unfold Packet.getPtr in *. cbn [Packet.flags Packet.data Packet.set_data].
  by destruct (Flags.isSet _ _).
Qed.

(** What [satisfyCpuSideRequest] achieves. *)
Definition satisfies (c' : Cache) (p' : Packet.t) : Prop :=
  satisfyCpuSideRequest c p (InTags i) = Some (c', p') ∧ cache_inv W None c' m ∧
  (∀ x, is_u64 x → findBlock (tags c') x = findBlock (tags c) x) ∧ geo (tags c') = g ∧
  Packet.cmd p' = Packet.cmd p ∧ flat_step p (cache_byte c m) p' (cache_byte c' m) ∧ state_step p c c'.

(** The guards of [satisfyCpuSideRequest] hold. *)
Ltac satisfy_start :=
  let H0 := fresh in let H1 := fresh in
  destruct req_bounds as (H0 & _ & H1 & _);
  unfold satisfyCpuSideRequest; cbn [get_blk]; rewrite Hb; cbn [mbind option_bind];
  rewrite (ck_size _ _ Hok), (getOffset_block g req_geo p (rq_u64 _ _ Hrq) (rq_addr _ _ Hrq));
  cbn [mbind option_bind]; rewrite (rq_size _ _ Hrq); cbn [mbind option_bind];
  rewrite (proj2 (Z.ltb_ge _ _)) by lia.

Lemma satisfy_read :
  Packet.cmd p = ReadReq ∨ Packet.cmd p = LoadLockedReq → ∃ c' p', satisfies c' p'.
Proof.
  intros Hc. destruct req_bounds as (H0 & Eo & H1 & H2 & H3).
  destruct req_reads as (r & Hr & Hl & Hby & _).
  destruct (rq_context _ _ Hrq) as (cid & tid & Hctx & _).
  set (b1 := if decide (Packet.cmd p = LoadLockedReq) then blk_set_locks b (cid :: lockList b) else b).
  assert (data b1 = data b) as Hdb by (unfold b1; by destruct (decide _)).
  destruct (req_locks (λ _, b1)) as (Hok' & Hg' & Hfb & Hcb & Hst); [unfold b1; by destruct (decide _)|].
  exists (upd c (InTags i) (λ _, b1)), (Packet.set_data p (Packet.flags p) (Some r)).
  assert (¬ must_write p) as Hnm by (unfold must_write; destruct Hc as [-> | ->]; naive_solver).
  rewrite not_exempt in Hok' by done.
  split_and!; try done; [| |by apply state_step_same].
  - satisfy_start. rewrite decide_False by (destruct Hc as [-> | ->]; done).
    assert (Packet.isWrite p = false ∧ Packet.isRead p = true) as [-> ->]
      by (unfold Packet.isRead, Packet.isWrite; destruct Hc as [-> | ->]; done).
    assert ((if Packet.isLLSC p then CacheBlk.trackLoadLocked b p else Some b) = Some b1) as ->.
    { unfold b1, CacheBlk.trackLoadLocked, Packet.isLLSC. rewrite Hctx. by destruct Hc as [-> | ->]. }
    cbn [mbind option_bind]. unfold Packet.setDataFromBlock. cbn [c_blkSize upd with_tags].
    rewrite (ck_size _ _ Hok), (getOffset_block g req_geo p (rq_u64 _ _ Hrq) (rq_addr _ _ Hrq)).
    cbn [mbind option_bind]. rewrite Hdb, Hr. cbn [mbind option_bind].
    pose proof (rq_part _ _ Hrq). by rewrite (proj2 (Z.eqb_neq _ _)) by lia.
  - exists false, d. split_and!; [done| |].
    + intros x Hx. rewrite decide_False by naive_solver. by apply Hcb.
    + assert (reads p (cache_byte c m) (Packet.set_data p (Packet.flags p) (Some r))) as Hrd
        by (exists r; split_and!; [apply getPtr_set|done..]).
      by destruct Hc as [-> | ->].
Qed.

Lemma checkWrite_ok cid :
  pkt_ctx p = Some cid →
  ∃ ok : bool, checkWrite b p = Some (ok, clearLoadLocks b,
          if Packet.isLLSC p then Packet.set_req p (Request.setExtraData (Packet.req p) (if ok then 1 else 0))
          else p) ∧ (Packet.isLLSC p = false → ok = true).
Proof.
  unfold pkt_ctx, checkWrite. intros Hc. destruct (Packet.isLLSC p); [|by exists true].
  destruct (Request.context (Packet.req p)) as [[c' t]|]; [|done].
  destruct (lockList b) as [|x l]; cbn; [by exists false|].
  by exists ((x =? c') || existsb (λ y, y =? c') l).
Qed.

Lemma satisfy_write :
  Packet.cmd p = WriteReq ∨ Packet.cmd p = StoreCondReq → ∃ c' p', satisfies c' p'.
Proof.
  intros Hc. destruct req_bounds as (H0 & Eo & H1 & H2 & H3).
  destruct (rq_context _ _ Hrq) as (cid & tid & Hctx & _).
  destruct (checkWrite_ok cid) as (ok & Hcw & Hplain); [unfold pkt_ctx; by rewrite Hctx|].
  set (q := if Packet.isLLSC p then _ else p) in Hcw.
  assert (Packet.getPtr q = Some d ∧ Packet.getSize q = Some (Packet.size p) ∧
          Packet.getOffset q (blkSize g) = Some off ∧ Packet.cmd q = Packet.cmd p) as (Hqd & Hqs & Hqo & Hqc).
  { pose proof (getOffset_block g req_geo p (rq_u64 _ _ Hrq) (rq_addr _ _ Hrq)).
    pose proof (rq_size _ _ Hrq). unfold q. by destruct (Packet.isLLSC p). }
  destruct (Packet.writeData_ok q (data b) off d (Packet.size p)) as (d' & Hwd & Hl' & Hd');
    [done..|lia|].
  set (b1 := if ok then or_status BlkDirty (blk_set_data (clearLoadLocks b) d') else clearLoadLocks b).
  assert (satisfyCpuSideRequest c p (InTags i) = Some (upd c (InTags i) (λ _, b1), q)) as Hsat.
  { satisfy_start. rewrite decide_False by (destruct Hc as [-> | ->]; done).
    assert (Packet.isWrite p = true) as -> by (unfold Packet.isWrite; destruct Hc as [-> | ->]; done).
    rewrite Hcw. cbn [mbind option_bind]. unfold b1. destruct ok; [|done].
    unfold Packet.writeDataToBlock. rewrite Hqo. cbn [mbind option_bind].
    change (data (clearLoadLocks b)) with (data b). by rewrite Hwd. }
  exists (upd c (InTags i) (λ _, b1)), q.
  assert (cache_inv W None (upd c (InTags i) (λ _, b1)) m ∧
    (∀ x, is_u64 x → findBlock (tags (upd c (InTags i) (λ _, b1))) x = findBlock (tags c) x) ∧
    (∀ x, is_u64 x → cache_byte (upd c (InTags i) (λ _, b1)) m x =
      if decide (ok = true ∧ Packet.addr p <= x < Packet.addr p + Packet.size p)
      then d !! Z.to_nat (x - Packet.addr p) else cache_byte c m x) ∧
    state_step p c (upd c (InTags i) (λ _, b1))) as (Hok' & Hfb & Hby & Hst).
  { unfold b1. destruct ok.
    - destruct (req_writes (λ _, or_status BlkDirty (blk_set_data (clearLoadLocks b) d'))) as (? & ? & ? & Hss); try done.
      split_and!; try done. apply Hss. unfold Packet.needsExclusive. by destruct Hc as [-> | ->].
    - destruct (req_locks (λ _, clearLoadLocks b)) as (Hok' & _ & ? & Hcb & Hst); [done|].
      assert (¬ must_write p) as Hnm.
      { intros [Ew|[Ew _]]; [|destruct Hc; congruence].
        unfold Packet.isLLSC in Hplain. rewrite Ew in Hplain. by specialize (Hplain eq_refl). }
      rewrite not_exempt in Hok' by done. split_and!; try done. by apply state_step_same. }
  split_and!; try done. exists ok, d. split_and!; [done..|].
  assert (Packet.isLLSC p = bool_decide (Packet.cmd p = StoreCondReq)) as Hll
    by (unfold Packet.isLLSC; destruct Hc as [-> | ->]; done).
  destruct Hc as [E|E]; rewrite E in *; [by apply Hplain|]. unfold q. by rewrite Hll.
Qed.

Lemma swap_condition_ok :
  Packet.cmd p = SwapReq →
  ∃ w, swap_condition (Packet.req p) (Packet.size p) (data b) off = Some w ∧
    (w = true ↔ swaps p (cache_byte c m)).
Proof.
  intros Hc. destruct (rq_swap _ _ Hrq Hc) as [H8 Hcs]. unfold swap_condition, swaps.
  destruct (Request.isCondSwap _); [|exists true; naive_solver].
  destruct (Hcs eq_refl) as [Hsz [v ->]].
  assert ((Packet.size p =? 8) || (Packet.size p =? 4) = true) as -> by (by destruct Hsz as [-> | ->]).
  cbn [mbind option_bind]. destruct req_reads as (r & _ & Hl & Hby & Er). rewrite <- Er.
  eexists. split; [reflexivity|]. rewrite bool_decide_eq_true.
  assert (length (le_bytes (Z.to_nat (Packet.size p)) v) = length r) as Hlen
    by (unfold le_bytes; rewrite length_fmap, length_seq; lia).
  split.
  - intros E. right. exists v. split; [done|]. by rewrite E.
  - intros [|(v' & [= <-] & Hb')]; [done|]. apply list_eq_same_length with (n := length r); [done..|].
    intros k x y Hk Hx Hy. rewrite Hb' in Hx by lia. rewrite Hby in Hy by lia. congruence.
Qed.

Lemma satisfy_swap : Packet.cmd p = SwapReq → ∃ c' p', satisfies c' p'.
Proof.
  intros Hc. destruct req_bounds as (H0 & Eo & H1 & H2 & H3).
  destruct (rq_swap _ _ Hrq Hc) as [H8 _]. pose proof (rq_part _ _ Hrq) as Hpos.
  destruct req_reads as (r & Hr & Hl & Hby & _).
  destruct (swap_condition_ok Hc) as (w & Hw & Hiff).
  destruct (Packet.writeData_ok p (replicate 8 0) 0 d (Packet.size p)) as (val & Hv & Hlv & Hval);
    [done|apply Hrq|done|lia|cbn; lia|].
  destruct (Packet.memcpy_Some (data b) off val 0 (Packet.size p)) as (d' & Hm & Hl' & Hd');
    [lia|lia|lia|lia|rewrite Hlv; cbn; lia|].
  set (f := λ b, or_status BlkDirty (blk_set_data b d')).
  set (c' := if w then upd c (InTags i) f else c).
  assert (satisfyCpuSideRequest c p (InTags i) =
    Some (c', Packet.set_data p (Packet.flags p) (Some r))) as Hsat.
  { satisfy_start. rewrite decide_True by done. unfold cmpAndSwap. cbn [get_blk]. rewrite Hb.
    cbn [mbind option_bind]. rewrite (rq_addr _ _ Hrq), (rq_size _ _ Hrq). cbn [mbind option_bind].
    rewrite (proj2 (Z.leb_le _ _)) by lia. rewrite Hv. cbn [mbind option_bind]. rewrite Hr.
    cbn [mbind option_bind]. change (Packet.req (Packet.set_data _ _ _)) with (Packet.req p).
    rewrite Hw. cbn [mbind option_bind]. unfold c'. destruct w; [|done]. by rewrite Hm. }
  exists c', (Packet.set_data p (Packet.flags p) (Some r)).
  assert (cache_inv W None c' m ∧ geo (tags c') = g ∧
    (∀ x, is_u64 x → findBlock (tags c') x = findBlock (tags c) x) ∧
    (∀ x, is_u64 x → cache_byte c' m x =
      if decide (w = true ∧ Packet.addr p <= x < Packet.addr p + Packet.size p)
      then d !! Z.to_nat (x - Packet.addr p) else cache_byte c m x) ∧
    state_step p c c') as (Hok' & Hg' & Hfb & Hcb & Hst).
  { unfold c'. destruct w.
    2: { assert (¬ must_write p) as Hnm.
         { intros [Ew|[_ Ew]]; [congruence|]. assert (false = true) by (apply Hiff; by left). done. }
         pose proof (not_exempt Hnm) as EX. pose proof Hok as Hok0. rewrite EX in Hok0.
         split_and!; try done. by apply state_step_same. }
    destruct (req_writes f) as (? & ? & ? & Hss); try done;
      [|split_and!; try done; apply Hss; unfold Packet.needsExclusive; by rewrite Hc].
    intros k. cbn [f data or_status blk_set_status blk_set_data]. rewrite Hd'.
    destruct (decide _); [|done]. rewrite Hval, decide_True by lia. f_equal. lia. }
  split_and!; try done. exists w, d. rewrite Hc. split_and!; try done; try apply Hiff.
  exists r. split_and!; [apply getPtr_set|done..].
Qed.

(** Every request of a processor is satisfied by the block that holds it. *)
Lemma satisfy_spec : ∃ c' p', satisfies c' p'.
Proof.
  pose proof (rq_cmd _ _ Hrq) as Hc. rewrite !elem_of_cons in Hc.
  destruct Hc as [?|[?|[?|[?|[?|[]%elem_of_nil]]]]];
    auto using satisfy_read, satisfy_write, satisfy_swap.
Qed.

End Satisfy.

(** ** Replacing a block *)

Lemma memcpy_whole dst src n :
  Z.of_nat (length dst) = n → Z.of_nat (length src) = n → Packet.memcpy dst 0 src 0 n = Some src.
Proof.
  intros Hd Hs. destruct (Packet.memcpy_Some dst 0 src 0 n) as (r & -> & Hl & Hr); [lia..|].
  f_equal. apply list_eq_same_length with (n := length src); [lia|lia|].
  intros k x y Hk Hx Hy. rewrite Hr, decide_True in Hx by lia.
  replace (k - Z.to_nat 0 + Z.to_nat 0)%nat with k in Hx by lia. congruence.
Qed.

Lemma writebackBlk_ok t c i b :
  blks (tags c) !! i = Some b → isValid b = true → isDirty b = true →
  0 < c_blkSize c → Z.of_nat (length (data b)) = c_blkSize c →
  let v := regenerateBlkAddr (geo (tags c)) (tag b) (CacheBlk.set b) in
  is_u64 v → v mod c_blkSize c = 0 →
  ∃ wb s, writebackBlk t c (InTags i) = Some (wb, with_stats (upd c (InTags i) (clear_status BlkDirty)) s) ∧
    writeback_of wb v (c_blkSize c) (data b).
Proof.
  intros Hb Hv Hd Hbs Hl v Hv0 Hal. unfold writebackBlk. cbn [get_blk]. rewrite Hb. cbn [mbind option_bind].
  rewrite Hv, Hd. cbn [andb c_blkSize with_stats tags]. fold v.
  unfold Request.new_phys, Request.setPhys. rewrite (proj2 (Z.leb_le _ _)) by lia.
  cbn [mbind option_bind].
  destruct (allocate_new t (Request.mk (Some v) None (Some (c_blkSize c))
      (Z.lor (Z.land (Request.flags Request.fresh) Request.STICKY_FLAGS) 0) t None
      (Request.context Request.fresh) None) Writeback (-1) v (c_blkSize c) eq_refl eq_refl)
    as (q & -> & Hqc & Hqr & Hqa & Hqs & Hqp & _ & Hqi & Hqt & Hqd).
  cbn [mbind option_bind]. rewrite Hqp. cbn [mbind option_bind].
  rewrite memcpy_whole by (rewrite ?length_replicate; lia). cbn [mbind option_bind].
  assert (0 <= v) by (unfold is_u64 in Hv0; lia).
  do 2 eexists. split; [reflexivity|]. split; try done; cbn [Packet.req Packet.set_data]; by rewrite Hqr.
Qed.

Lemma allocateBlock_ok W t c m a :
  cache_inv W None c m → is_u64 a →
  ∃ st i b wbs c0 b0, sets (tags c) !! set_index (tags c) a = Some st ∧ i ∈ st ∧
    blks (tags c) !! i = Some b ∧ allocateBlock t c a [] = Some (Some i, wbs, c0) ∧
    same_shape c c0 ∧ sets (tags c0) = sets (tags c) ∧
    (∀ j, j ≠ i → blks (tags c0) !! j = blks (tags c) !! j) ∧
    blks (tags c0) !! i = Some b0 ∧ data b0 = data b ∧ CacheBlk.set b0 = CacheBlk.set b ∧
    (wbs = [] ∧ (isValid b = true → isDirty b = false) ∨
     ∃ wb v, wbs = [wb] ∧ is_u64 v ∧ holds (tags c) v i ∧
       writeback_of wb (blkAlign (geo (tags c)) v) (blkSize (geo (tags c))) (data b)).
Proof.
  intros Hok Ha. pose proof (ck_wf _ _ Hok) as Hw. pose proof Hw as (Hg & _).
  destruct (findVictim_frame (tags c) Hw a Ha) as
    (st & i & s1 & Hst & Hv & _ & Hi & Hg1 & Hs1 & Hw1 & Hf1 & b & b1 & Hb & Hb1 & Ht1 & Hst1 & Hd1 & Hset1).
  assert (same_shape c (with_tags c s1)) as Hsh by (split_and!; done).
  unfold allocateBlock. rewrite Hv. cbn [mbind option_bind]. rewrite Hb1. cbn [mbind option_bind].
  assert (isValid b1 = isValid b ∧ isDirty b1 = isDirty b) as [-> ->]
    by (unfold isValid, isDirty; by rewrite Hst1).
  exists st, i, b. destruct (isValid b) eqn:Hvb.
  2: { exists [], (with_tags c s1), b1. split_and!; try done. by left. }
  cbn [heap mshrQueue with_tags]. unfold findMatch. rewrite (ck_queue _ _ Hok). cbn [list_find fmap option_fmap option_map].
  destruct (isDirty b) eqn:Hdb.
  2: { exists [], (with_tags c s1), b1. split_and!; try done. by left. }
  destruct (ck_addr _ _ Hok i b Hb Hvb) as (v & Hvu & Hh).
  assert (regenerateBlkAddr (geo s1) (tag b1) (CacheBlk.set b1) = blkAlign (geo (tags c)) v) as Hr.
  { destruct Hh as (w & Hsw & Hiw & Hk). unfold blk_key in Hk. rewrite Hb in Hk. injection Hk as Ht _.
    rewrite Hset1, (ck_set _ _ Hok _ w i b Hsw Hiw Hb), Ht1, Ht, Hg1. unfold set_index.
    pose proof (extractSet_range _ Hg v Hvu). rewrite Z2Nat.id by lia. by apply regenerate_extract. }
  destruct (block_arith _ Hg v Hvu) as (_ & Eal & Hbs & _). destruct (block_range _ Hg v Hvu) as (Hv0 & Hv1 & _).
  destruct (writebackBlk_ok t (with_tags c s1) i b1) as (wb & s & Hwb & Hof).
  - done.
  - unfold isValid in *. by rewrite Hst1.
  - unfold isDirty in *. by rewrite Hst1.
  - cbn. rewrite (ck_size _ _ Hok). lia.
  - cbn. rewrite Hd1, (ck_size _ _ Hok). by apply (ck_len _ _ Hok i).
  - cbn [tags with_tags]. rewrite Hr. unfold is_u64. lia.
  - cbn [tags with_tags c_blkSize]. rewrite Hr, (ck_size _ _ Hok), Eal.
    rewrite Zminus_mod_idemp_r, Z.sub_diag. apply Z.mod_0_l. lia.
  - rewrite Hwb. cbn [mbind option_bind].
    eexists [wb], _, (clear_status BlkDirty b1). split_and!; try done.
    + split_and!; [by apply (wf_upd_blk s1 Hw1)|done..].
    + intros j Hj. cbn. rewrite list_lookup_alter_ne by done. by apply Hf1.
    + cbn. by rewrite list_lookup_alter_eq, Hb1.
    + right. exists wb, v. split_and!; try done. cbn [tags with_tags c_blkSize] in Hof.
      rewrite Hr, Hd1, (ck_size _ _ Hok) in Hof. done.
Qed.

(** The contents [B] and the states [St] of the cache are in place, with the block
    of [a], but for the block that is replaced: it was clean, or its writeback is
    left to be sent. *)
Definition evicts (g : Geometry) (c1 : Cache) (m : S) (B : Z → option Z) (St : Z → option (bool * bool))
    (a : Z) (wbs : list Packet.t) : Prop :=
  wbs = [] ∧ (∀ x, is_u64 x → cache_byte c1 m x = B x) ∧
  (∀ x, is_u64 x → blkAlign g x ≠ blkAlign g a →
     blk_state c1 x = St x ∨ blk_state c1 x = None ∧ ∀ w, St x ≠ Some (w, true)) ∨
  ∃ wb v dv, wbs = [wb] ∧ is_u64 v ∧ writeback_of wb (blkAlign g v) (blkSize g) dv ∧
    present (port_byte m) (blkAlign g v) (blkSize g) ∧ blkAlign g v ≠ blkAlign g a ∧
    (∀ x, is_u64 x → blkAlign g x = blkAlign g v →
       findBlock (tags c1) x = None ∧ B x = dv !! Z.to_nat (x - blkAlign g v)) ∧
    (∀ x, is_u64 x → blkAlign g x ≠ blkAlign g v → cache_byte c1 m x = B x) ∧
    (∀ x, is_u64 x → blkAlign g x ≠ blkAlign g v → blkAlign g x ≠ blkAlign g a → blk_state c1 x = St x).

(** The bytes of a block that agrees with the memory. *)
Lemma block_bytes g m a x d :
  geometry_ok g → is_u64 a → is_u64 x → blkAlign g x = blkAlign g a →
  bytes_at (port_byte m) (blkAlign g a) d → Z.of_nat (length d) = blkSize g →
  d !! Z.to_nat (x - blkAlign g a) = port_byte m x.
Proof.
  intros Hg Ha Hx E Hby Hl. pose proof (proj1 (block_member g Hg a x Ha Hx) E).
  rewrite Hby by lia. f_equal. lia.
Qed.

(** The victim [i] is replaced by the block of [a] with the bytes [d]. *)
Lemma replace_bytes W X c c1 m a st i b b1 d wbs B :
  X = None ∨ X = Some i → cache_inv W None c m → is_u64 a → findBlock (tags c) a = None →
  sets (tags c) !! set_index (tags c) a = Some st → i ∈ st → blks (tags c) !! i = Some b →
  same_shape c c1 → (∀ j, j ≠ i → cores (tags c1) j = cores (tags c) j) →
  blks (tags c1) !! i = Some b1 → tag b1 = extractTag (geo (tags c)) a → data b1 = d →
  CacheBlk.set b1 = CacheBlk.set b →
  isReadable b1 = true → (W → isWritable b1 = true) → isValid b1 = true →
  isDirty b1 = true ∨ X = Some i ∨ bytes_at (port_byte m) (blkAlign (geo (tags c)) a) d →
  present (port_byte m) (blkAlign (geo (tags c)) a) (blkSize (geo (tags c))) →
  Z.of_nat (length d) = blkSize (geo (tags c)) →
  (wbs = [] ∧ (isValid b = true → isDirty b = false) ∨
     ∃ wb v, wbs = [wb] ∧ is_u64 v ∧ holds (tags c) v i ∧
       writeback_of wb (blkAlign (geo (tags c)) v) (blkSize (geo (tags c))) (data b)) →
  (∀ x, is_u64 x → blkAlign (geo (tags c)) x = blkAlign (geo (tags c)) a →
     B x = d !! Z.to_nat (x - blkAlign (geo (tags c)) a)) →
  (∀ x, is_u64 x → blkAlign (geo (tags c)) x ≠ blkAlign (geo (tags c)) a → B x = cache_byte c m x) →
  cache_inv W X c1 m ∧ findBlock (tags c1) a = Some i ∧ evicts (geo (tags c)) c1 m B (blk_state c) a wbs.
Proof.
  intros HX Hok Ha Hmiss Hst Hi Hb Hsh Hf Hb1 Ht1 Hd1 Hset Hrd Hwr Hv1 Hcl1 Hpr Hl Hwb HBin HBout.
  pose proof (ck_wf _ _ Hok) as Hw. pose proof Hw as (Hg & _). pose proof Hsh as (Hw1 & Hg1 & _).
  destruct (replace_spec (tags c) (tags c1) i st a) as (Hu1 & Hfa & Hfx); try done; [apply Hok| | |].
  { intros j Hj. by apply cores_key, Hf. }
  { unfold blk_key. rewrite Hb1. cbn. by rewrite Ht1, Hv1. }
  assert (cache_inv W X c1 m) as Hok1.
  { apply (cache_inv_update W None X c c1 m i b b1); try done; [by left| | |].
    - rewrite Hd1. pose proof (ck_len _ _ Hok i b Hb). lia.
    - intros _. exists a. split; [done|]. by apply findBlock_holds.
    - intros x Hx Hh. apply findBlock_holds in Hfa as Hha.
      pose proof (holds_same_block (tags c1) a x i Hw1 Ha Hx Hha Hh) as E. rewrite Hg1 in E.
      split; try done; rewrite E; [done|]. intros Hex Hdy. rewrite Hd1.
      destruct Hcl1 as [?|[-> |?]]; [congruence|by rewrite bool_decide_eq_true_2 in Hex|done]. }
  assert (∀ x, is_u64 x → blkAlign (geo (tags c)) x = blkAlign (geo (tags c)) a → cache_byte c1 m x = B x) as Hin.
  { intros x Hx E. rewrite (byte_in_block _ _ c1 m a i b1 x Hok1) by (done || by rewrite Hg1).
    by rewrite Hg1, Hd1, HBin. }
  assert (∀ x, is_u64 x → findBlock (tags c) x ≠ Some i → cache_byte c1 m x = B x) as Hout.
  { intros x Hx Hne. destruct (decide (blkAlign (geo (tags c)) x = blkAlign (geo (tags c)) a)) as [E|E]; [by apply Hin|].
    rewrite HBout by done. unfold cache_byte. rewrite Hfx, decide_False, Hg1 by done.
    destruct (findBlock (tags c) x) as [j|]; [|done]. specialize (Hf j ltac:(congruence)).
    unfold cores in Hf. destruct (blks (tags c1) !! j), (blks (tags c) !! j); try done.
    cbn in Hf. injection Hf as _ _ Hd _. cbn. by rewrite Hd. }
  assert (∀ x, is_u64 x → findBlock (tags c) x ≠ Some i → blkAlign (geo (tags c)) x ≠ blkAlign (geo (tags c)) a →
    blk_state c1 x = blk_state c x) as Hst1.
  { intros x Hx Hne E. unfold blk_state. rewrite Hfx, decide_False by done.
    destruct (findBlock (tags c) x) as [j|]; [|done]. cbn [mbind option_bind]. apply cores_state, Hf. congruence. }
  split_and!; [done|done|]. destruct Hwb as [[-> Hcl]|(wb & v & -> & Hv & Hh & Hof)].
  - left. split; [done|]. split.
    2: { intros x Hx E. destruct (decide (findBlock (tags c) x = Some i)) as [Ex|]; [right|left; by apply Hst1].
         unfold blk_state. rewrite Hfx, decide_True, Ex by done. split; [done|]. cbn [mbind option_bind]. rewrite Hb.
         intros w. cbn [mbind option_bind]. apply findBlock_holds in Ex.
         rewrite Hcl by (by apply (holds_valid _ _ _ _ Ex)). congruence. }
    intros x Hx. destruct (decide (findBlock (tags c) x = Some i)) as [Ex|]; [|by apply Hout].
    destruct (decide (blkAlign (geo (tags c)) x = blkAlign (geo (tags c)) a)) as [E|E]; [by apply Hin|].
    apply findBlock_holds in Ex as Hhx. pose proof (ck_blocks _ _ Hok x i b Hx Hhx Hb) as [_ _ _ Hclean].
    rewrite HBout by done. rewrite (byte_in_block _ _ c m x i b x Hok) by done.
    rewrite (block_bytes _ m x x); try done.
    + unfold cache_byte. by rewrite Hfx, decide_True by done.
    + apply Hclean; [done|]. by apply Hcl, (holds_valid _ _ _ _ Hhx).
    + by apply (ck_len _ _ Hok i).
  - right. exists wb, v, (data b). pose proof (ck_blocks _ _ Hok v i b Hv Hh Hb) as [_ _ Hpv _].
    pose proof (findBlock_unique (tags c) v i (ck_unique _ _ Hok) Hh) as Efv.
    assert (blkAlign (geo (tags c)) v ≠ blkAlign (geo (tags c)) a) as Hva.
    { intros E. rewrite (findBlock_block (tags c) v a i) in Hmiss by (done || apply Hok). done. }
    split_and!; try done.
    + intros x Hx E. assert (findBlock (tags c) x = Some i) as Ex
        by (by apply (findBlock_block (tags c) v); try apply Hok).
      split; [by rewrite Hfx, decide_True by congruence|]. rewrite HBout by congruence.
      by apply (byte_in_block _ _ c m v i b x Hok).
    + intros x Hx E. apply Hout; [done|]. intros Ex. apply E. apply findBlock_holds in Ex.
      by apply (holds_same_block (tags c) v x i).
    + intros x Hx E Ea. apply Hst1; [done| |done]. intros Ex. apply E. apply findBlock_holds in Ex.
      by apply (holds_same_block (tags c) v x i).
Qed.

Lemma align_align g a :
  geometry_ok g → is_u64 a →
  is_u64 (blkAlign g a) ∧ blkAlign g (blkAlign g a) = blkAlign g a ∧
  extractTag g (blkAlign g a) = extractTag g a ∧ extractSet g (blkAlign g a) = extractSet g a.
Proof.
  intros Hg Ha. destruct (block_range g Hg a Ha) as (H0 & H1 & H2).
  destruct (block_arith g Hg a Ha) as (_ & _ & Hb & _).
  assert (is_u64 (blkAlign g a)) as Hu by (unfold is_u64; lia).
  assert (blkAlign g (blkAlign g a) = blkAlign g a) as E by (apply block_member; try done; lia).
  split_and!; try done; by apply (same_block_iff g Hg (blkAlign g a) a).
Qed.

(** A response with the bytes [d] for the block of [a]. *)
Record fill_of (q : Packet.t) (g : Geometry) (a : Z) (d : list Z) : Prop := {
  fill_addr : Packet.getAddr q = Some (blkAlign g a);
  fill_data : Packet.hasData q = true;
  fill_read : Packet.isRead q = true;
  fill_ptr : Packet.getPtr q = Some d;
  fill_len : Z.of_nat (length d) = blkSize g
}.

Lemma fill_block_ok (W : Prop) (ex : bool) t c m q fin a d B :
  cache_inv W None c m → is_u64 a → findBlock (tags c) a = None → fill_of q (geo (tags c)) a d →
  (W → Packet.sharedAsserted q = false) →
  ex = true ∨ bytes_at (port_byte m) (blkAlign (geo (tags c)) a) d →
  present (port_byte m) (blkAlign (geo (tags c)) a) (blkSize (geo (tags c))) →
  (∀ x, is_u64 x → blkAlign (geo (tags c)) x = blkAlign (geo (tags c)) a →
     B x = d !! Z.to_nat (x - blkAlign (geo (tags c)) a)) →
  (∀ x, is_u64 x → blkAlign (geo (tags c)) x ≠ blkAlign (geo (tags c)) a → B x = cache_byte c m x) →
  ∃ i wbs c1, handleFill t c q fin None [] = Some (InTags i, wbs, c1) ∧
    cache_inv W (if ex then Some i else None) c1 m ∧
    geo (tags c1) = geo (tags c) ∧ findBlock (tags c1) a = Some i ∧
    evicts (geo (tags c)) c1 m B (blk_state c) a wbs ∧
    blk_state c1 a = Some (negb (Packet.sharedAsserted q),
                           negb (Packet.sharedAsserted q) && Packet.memInhibitAsserted q).
Proof.
  intros Hok Ha Hmiss [Fa Fd Fr Fp Fl] Fs Hex Hpr HBin HBout. pose proof (ck_wf _ _ Hok) as (Hg & _).
  destruct (align_align _ a Hg Ha) as (HA & _ & Et & Es).
  assert (∀ s, geo s = geo (tags c) → set_index s (blkAlign (geo (tags c)) a) = set_index (tags c) a) as Hix
    by (intros s E; unfold set_index; by rewrite E, Es).
  destruct (allocateBlock_ok W t c m _ Hok HA) as
    (st & i & b & wbs & c0 & b0 & Hst & Hi & Hb & Hal & Hsh & Hss & Hf0 & Hb0 & Hd0 & Hset0 & Hwb).
  pose proof Hsh as (Hw0 & Hg0 & Hbs0 & Hq0 & Hn0).
  destruct (insertBlock_frame (tags c0) Hw0 t (blkAlign (geo (tags c)) a) st i (context_id q) HA) as
    (st' & s2 & Hins & _ & Hg2 & _ & Hw2 & Hf2 & b0' & b2 & Hb0' & Hb2 & Ht2 & _ & Hd2 & Hset2);
    [by rewrite Hss, Hix, <- (Hix (tags c))|done|].
  assert (b0' = b0) as -> by congruence. rewrite (Hix (tags c) eq_refl) in Hst.
  assert (Z.of_nat (length (data b2)) = blkSize (geo (tags c))) as Hl2
    by (rewrite Hd2, Hd0; by apply (ck_len _ _ Hok i)).
  unfold handleFill. rewrite Fa. cbn [mbind option_bind]. rewrite Fd, Hal. cbn [mbind option_bind].
  rewrite Hins. cbn [mbind option_bind]. rewrite Fr.
  set (stv := if Packet.sharedAsserted q then Z.lor BlkValid BlkReadable
              else if Packet.memInhibitAsserted q
                   then Z.lor (Z.lor (Z.lor BlkValid BlkReadable) BlkWritable) BlkDirty
                   else Z.lor (Z.lor BlkValid BlkReadable) BlkWritable).
  assert (isReadable (blk_set_status b2 stv) = true ∧ isValid (blk_set_status b2 stv) = true ∧
    isWritable (blk_set_status b2 stv) = negb (Packet.sharedAsserted q) ∧
    isDirty (blk_set_status b2 stv) = negb (Packet.sharedAsserted q) && Packet.memInhibitAsserted q)
    as (Hrd & Hv & Hwr & Hdy).
  { unfold isReadable, isValid, isWritable, isDirty. cbn [status blk_set_status]. unfold stv.
    by destruct (Packet.sharedAsserted q), (Packet.memInhibitAsserted q). }
  cbn [get_blk tags upd with_tags upd_blk with_blks blks].
  rewrite list_lookup_alter_eq, Hb2. cbn [fmap option_fmap option_map mbind option_bind]. rewrite Fp.
  cbn [mbind option_bind c_blkSize data blk_set_status upd with_tags].
  rewrite Hbs0, (ck_size _ _ Hok), memcpy_whole by done. cbn [mbind option_bind].
  match goal with |- context [Some (InTags i, wbs, ?x)] => set (c1 := x) end.
  exists i, wbs, c1. split; [done|].
  set (b3 := blk_set_whenReady (blk_set_data (blk_set_status b2 stv) d) fin).
  assert (same_shape c c1) as Hsh1.
  { split_and!; try done; [by repeat apply wf_upd_blk|]. cbn. congruence. }
  assert (blks (tags c1) !! i = Some b3) as Hb3 by (cbn; by rewrite !list_lookup_alter_eq, Hb2).
  destruct (replace_bytes W (if ex then Some i else None) c c1 m a st i b b3 d wbs B) as (? & Hfa & ?); try done.
  - destruct ex; auto.
  - intros j Hj. unfold cores. cbn. by rewrite !list_lookup_alter_ne, Hf2, Hf0.
  - cbn. by rewrite Ht2, Hg0, Et.
  - cbn. congruence.
  - intros HW. change (isWritable b3) with (isWritable (blk_set_status b2 stv)). by rewrite Hwr, Fs.
  - right. destruct Hex as [-> |?]; auto.
  - split_and!; try done; [apply Hsh1|]. unfold blk_state. rewrite Hfa. cbn [mbind option_bind]. rewrite Hb3.
    cbn [mbind option_bind]. by rewrite <- Hdy, <- Hwr.
Qed.

(** Two changes of one block. *)
Lemma upd_upd c i f h : upd (upd c (InTags i) f) (InTags i) h = upd c (InTags i) (λ b, h (f b)).
Proof.
  unfold upd, with_tags, upd_blk, with_blks. cbn. do 2 f_equal. apply list_alter_alter_eq.
Qed.

Lemma upd_ext c i b f h : blks (tags c) !! i = Some b → f b = h b → upd c (InTags i) f = upd c (InTags i) h.
Proof.
  intros Hb E. unfold upd, with_tags, upd_blk, with_blks. cbn. do 2 f_equal.
  apply list_alter_ext; [|done]. intros y Hy. rewrite Hb in Hy. by injection Hy as <-.
Qed.

Lemma get_upd c i b f : blks (tags c) !! i = Some b → get_blk (upd c (InTags i) f) (InTags i) = Some (f b).
Proof. intros Hb. cbn. by rewrite list_lookup_alter_eq, Hb. Qed.

(** A response without data gives the block write permission. *)
Lemma upgrade_block_ok W t c m q fin a i b :
  cache_inv W (Some i) c m → is_u64 a → findBlock (tags c) a = Some i → blks (tags c) !! i = Some b →
  Packet.getAddr q = Some (blkAlign (geo (tags c)) a) → Packet.isRead q = false →
  Packet.sharedAsserted q = false →
  ∃ c1, handleFill t c q fin (Some (InTags i)) [] = Some (InTags i, [], c1) ∧
    cache_inv W (Some i) c1 m ∧ geo (tags c1) = geo (tags c) ∧
    (∀ x, is_u64 x → findBlock (tags c1) x = findBlock (tags c) x) ∧
    (∀ x, is_u64 x → cache_byte c1 m x = cache_byte c m x) ∧
    (∀ x, is_u64 x → blk_state c1 x =
      if decide (blkAlign (geo (tags c)) x = blkAlign (geo (tags c)) a)
      then Some (true, Packet.memInhibitAsserted q) else blk_state c x) ∧
    ∃ b1, blks (tags c1) !! i = Some b1 ∧ data b1 = data b ∧ lockList b1 = lockList b ∧
      isDirty b1 = Packet.memInhibitAsserted q.
Proof.
  intros Hok Ha Hf Hb Fa Fr Fs. pose proof (ck_wf _ _ Hok) as (Hg & _).
  destruct (align_align _ a Hg Ha) as (_ & _ & Et & _).
  apply findBlock_holds in Hf as Hh. pose proof (holds_valid _ _ _ _ Hh Hb) as Hv.
  assert (tag b = extractTag (geo (tags c)) a) as Htag.
  { destruct Hh as (st & _ & _ & Hk). unfold blk_key in Hk. rewrite Hb in Hk. by injection Hk as ? _. }
  set (f := λ b, blk_set_whenReady (blk_set_data
              (blk_set_status b (if Packet.memInhibitAsserted q then 15 else 7)) (data b)) fin).
  assert (isReadable (f b) = true ∧ isValid (f b) = true ∧ isWritable (f b) = true ∧
    isDirty (f b) = Packet.memInhibitAsserted q) as (Hrd & Hv1 & Hwr & Hdy)
    by (unfold isReadable, isValid, isWritable, isDirty; cbn; by destruct (Packet.memInhibitAsserted q)).
  destruct (set_block W (Some i) (Some i) c m a i b f) as (Hok1 & Hfb & Hby & Hst); auto.
  rewrite Hwr, Hdy in Hst.
  exists (upd c (InTags i) f). split_and!; try done.
  - unfold handleFill. rewrite Fa. cbn [mbind option_bind get_blk]. rewrite Hb. cbn [mbind option_bind].
    rewrite Htag, Et, Z.eqb_refl, Hv, orb_true_r. cbn [andb mbind option_bind].
    rewrite Fs, Fr, (get_upd c i b) by done. cbn [mbind option_bind].
    do 2 f_equal. rewrite upd_upd. by apply (upd_ext c i b).
  - intros x Hx. rewrite Hby by done. destruct (decide _) as [E|E]; [|done].
    rewrite (byte_in_block _ _ c m a i b x Hok), block_offset, E by done. done.
  - exists (f b). cbn [upd tags with_tags upd_blk with_blks blks]. by rewrite list_lookup_alter_eq, Hb.
Qed.

(** The bytes of a block are at 64-bit addresses. *)
Lemma block_u64 g a k :
  geometry_ok g → is_u64 a → 0 <= k < blkSize g →
  is_u64 (blkAlign g a + k) ∧ blkAlign g (blkAlign g a + k) = blkAlign g a.
Proof.
  intros Hg Ha Hk. destruct (block_range g Hg a Ha) as (H0 & H1 & _).
  assert (is_u64 (blkAlign g a + k)) as Hu by (unfold is_u64; lia).
  split; [done|]. apply block_member; try done. lia.
Qed.

(** The memory changes only in a block, which the cache does not hold or which is
    exempt from now on. *)
Lemma cache_inv_memory W X c m m' v :
  let g := geo (tags c) in
  cache_inv W None c m → port_ok m' → is_u64 v → findBlock (tags c) v = X →
  (∀ x, is_u64 x → blkAlign g x ≠ blkAlign g v → port_byte m' x = port_byte m x) →
  present (port_byte m') (blkAlign g v) (blkSize g) →
  cache_inv W X c m' ∧
  ∀ x, is_u64 x → blkAlign g x ≠ blkAlign g v ∨ X ≠ None → cache_byte c m' x = cache_byte c m x.
Proof.
  intros g Hok Hp Hv HX Hm Hpr'. pose proof (ck_wf _ _ Hok) as (Hg & _).
  assert (∀ x, is_u64 x → blkAlign g x = blkAlign g v → findBlock (tags c) x = X) as Hblk.
  { intros x Hx E. destruct X as [i|]; [by apply (findBlock_block _ v); try apply Hok|].
    destruct (findBlock (tags c) x) as [j|] eqn:Ej; [|done].
    by rewrite (findBlock_block _ x v j) in HX by (done || apply Hok). }
  split.
  - split; try apply Hok; [done|].
    intros a i b Ha Hh Hb. destruct (ck_blocks _ _ Hok a i b Ha Hh Hb) as [Hrd Hwr Hpr Hcl].
    split; try done.
    + intros k Hk. destruct (decide (blkAlign g a = blkAlign g v)) as [E|E]; [unfold g in E; rewrite E; by apply Hpr'|].
      destruct (block_u64 _ a k Hg Ha Hk) as [Hu Eu]. rewrite Hm; [by apply Hpr|done|unfold g in *; congruence].
    + intros Hex Hd k Hk. pose proof (ck_len _ _ Hok i b Hb) as Hlb.
      destruct (block_u64 _ a (Z.of_nat k) Hg Ha) as [Hu Eu]; [lia|].
      rewrite Hm; [by apply Hcl|done|]. intros E. unfold g in *. rewrite Eu in E.
      apply bool_decide_eq_false in Hex. apply Hex. rewrite <- (Hblk a Ha E).
      by apply findBlock_unique; [apply Hok|].
  - intros x Hx Hor. unfold cache_byte. destruct (findBlock (tags c) x) as [j|] eqn:Ej; [done|].
    apply Hm; [done|]. destruct Hor as [?|HXn]; [done|]. intros E. by rewrite (Hblk x Hx E) in Ej.
Qed.

(** The specification does not see the writeback. *)
Lemma flat_step_transfer g p B0 B1 B2 B3 p' :
  geometry_ok g → cpu_request (blkSize g) p → flat_step p B1 p' B2 →
  (∀ x, is_u64 x → B3 x = B2 x ∧ B1 x = B0 x ∨
     blkAlign g x ≠ blkAlign g (Packet.addr p) ∧ B3 x = B0 x) →
  flat_step p B0 p' B3.
Proof.
  intros Hg Hrq (w & d & Hd & Hby & Hres) Hx.
  assert (∀ x, Packet.addr p <= x < Packet.addr p + Packet.size p → B1 x = B0 x) as Hin.
  { intros x Hr. destruct (request_range g p x Hg Hrq Hr) as [Hu Ha].
    by destruct (Hx x Hu) as [[_ ?]|[? _]]. }
  assert (∀ r, Z.of_nat (length r) = Packet.size p →
            bytes_at B1 (Packet.addr p) r ↔ bytes_at B0 (Packet.addr p) r) as Hat.
  { intros r Hl. split; intros H k Hk; rewrite H by done; [|symmetry]; apply Hin; lia. }
  assert (reads p B1 p' → reads p B0 p') as Hrd.
  { intros (r & Hp & Hl & Hb). exists r. split_and!; try done. by apply Hat. }
  assert (swaps p B1 ↔ swaps p B0) as Hsw.
  { unfold swaps. pose proof (rq_part _ _ Hrq). setoid_rewrite Hat; [done|].
    unfold le_bytes. rewrite length_fmap, length_seq. lia. }
  exists w, d. split_and!; [done| |].
  - intros x Hu. destruct (Hx x Hu) as [[-> E]|[Hne ->]]; [by rewrite Hby, E|].
    rewrite decide_False; [done|]. intros [_ Hr].
    by destruct (request_range g p x Hg Hrq Hr) as [_ ?].
  - destruct (Packet.cmd p); naive_solver.
Qed.

(** ** The access *)

Lemma cache_inv_stats W X c m s : cache_inv W X c m → cache_inv W X (with_stats c s) m.
Proof. intros []. by constructor. Qed.

(** A request of a processor, or of a cache above, that needs an answer. *)
Record asks (g : Geometry) (p : Packet.t) (a : Z) : Prop := {
  ask_addr : Packet.getAddr p = Some a;
  ask_u64 : is_u64 a;
  ask_paddr : ∃ x, Request.paddr (Packet.req p) = Some x ∧ is_u64 x ∧ blkAlign g x = blkAlign g a;
  ask_context : ∃ cid tid, Request.context (Packet.req p) = Some (cid, tid) ∧ 0 <= cid;
  ask_cacheable : Request.isUncacheable (Packet.req p) = false;
  ask_cmd : Packet.cmd p ≠ Writeback;
  ask_response : Packet.needsResponse p = true
}.

(** What the table of commands says of the requests of a processor. *)
Lemma cpu_commands p :
  Packet.cmd p ∈ [ReadReq; WriteReq; LoadLockedReq; StoreCondReq; SwapReq] →
  Packet.cmd p ≠ Writeback ∧ Packet.isUpgrade p = false ∧ Packet.needsResponse p = true ∧
  Packet.isLLSC p && Packet.isWrite p = bool_decide (Packet.cmd p = StoreCondReq).
Proof.
  unfold Packet.isUpgrade, Packet.needsResponse, Packet.isLLSC, Packet.isWrite.
  rewrite !elem_of_cons. intros [-> |[-> |[-> |[-> |[-> |[]%elem_of_nil]]]]]; done.
Qed.

Lemma cpu_asks g p : cpu_request (blkSize g) p → asks g p (Packet.addr p).
Proof.
  intros Hrq. destruct (cpu_commands p (rq_cmd _ _ Hrq)) as (? & _ & ? & _).
  split; try done; try apply Hrq. exists (Packet.addr p). by split_and!; try apply Hrq.
Qed.

Lemma stat_slot_ok c p g a :
  0 < c_numCpus c → asks g p a → ∃ k, stat_slot c p (context_id p) = Some k.
Proof.
  intros Hn Hq. unfold stat_slot. rewrite decide_False by apply Hq.
  destruct (ask_context _ _ _ Hq) as (cid & tid & Hctx & Hc). unfold context_id, Request.contextId.
  rewrite Hctx. cbn.
  rewrite (proj2 (Z.ltb_lt _ _)), (proj2 (Z.leb_le _ _)) by (try lia; apply Z.rem_nonneg; lia).
  by eexists.
Qed.

(** The response carries what the satisfied packet carries. *)
Lemma flat_step_response p B B' p1 :
  Packet.cmd p ∈ [ReadReq; WriteReq; LoadLockedReq; StoreCondReq; SwapReq] →
  Packet.cmd p1 = Packet.cmd p → flat_step p B p1 B' →
  ∃ p', respond_if_needed p1 = Some p' ∧ flat_step p B p' B' ∧
    Packet.cmd p' = MemCmd.responseCommand (Packet.cmd p).
Proof.
  intros Hcmd Hc (w & d & Hd & Hby & Hres). unfold respond_if_needed.
  assert (Packet.needsResponse p1 = true) as Hn
    by (unfold Packet.needsResponse; rewrite Hc; by apply cpu_commands).
  rewrite Hn. destruct (makeResponse_total p1 Hn) as [p' Hp].
  apply makeResponse_keeps in Hp as Hk. destruct Hk as (_ & _ & Hptr & Hreq & _ & Hcm & _).
  exists p'. split_and!; [done| |by rewrite Hcm, Hc].
  exists w, d. unfold reads in *. rewrite Hptr, Hreq. done.
Qed.

(** Looking up a block only changes the order of its set. *)
Lemma lookup_block W t c m a i :
  cache_inv W None c m → is_u64 a → findBlock (tags c) a = Some i →
  ∃ lat s b, accessBlock (tags c) t a = Some (Some i, lat, s) ∧
    cache_inv W None (with_tags c s) m ∧ same_contents c (with_tags c s) m ∧ blks s !! i = Some b.
Proof.
  intros Hok Ha Hf.
  destruct (accessBlock_spec (tags c) t a (ck_wf _ _ Hok) (ck_unique _ _ Hok) Ha)
    as (lat & s' & Hacc & Hw' & Hfb & _ & Hg' & Hcores).
  rewrite Hf in Hacc. assert (same_shape c (with_tags c s')) as Hsh by (split_and!; done).
  destruct (cache_inv_same W None c _ m Hok Hsh Hcores) as [Hok1 Hsame].
  assert (findBlock (tags (with_tags c s')) a = Some i) as Hf1 by (destruct Hsame as (_ & -> & _); done).
  destruct (findBlock_holds _ _ _ Hf1) as (st & Hst & Hi & _).
  destruct (set_member _ Hw' _ _ _ Hst Hi) as [b Hb]. by exists lat, s', b.
Qed.

(** The block is there: the request is satisfied from it or is left to the miss
    path with it. *)
Lemma access_found W t c m p a i :
  cache_inv W None c m → asks (geo (tags c)) p a → findBlock (tags c) a = Some i →
  ∃ lat c1 b, cache_inv W None c1 m ∧ same_contents c c1 m ∧ blks (tags c1) !! i = Some b ∧
    isReadable b = true ∧ (W → isWritable b = true) ∧
    access t c p =
      (if Packet.needsExclusive p && negb (isWritable b)
       then Some (mkAccess false (Some (InTags i)) lat [] c1 p)
       else '(c, p) ← satisfyCpuSideRequest c1 p (InTags i);
            Some (mkAccess true (Some (InTags i)) lat [] c p)).
Proof.
  intros Hok Hq Hf. pose proof (ask_u64 _ _ _ Hq) as Ha.
  destruct (lookup_block W t c m a i Hok Ha Hf) as (lat & s & b & Hacc & Hok1 & Hsame & Hb).
  assert (findBlock (tags (with_tags c s)) a = Some i) as Hf1 by (destruct Hsame as (_ & -> & _); done).
  apply findBlock_holds in Hf1. destruct (ck_blocks _ _ Hok1 _ i b Ha Hf1 Hb) as [Hrd Hwr _ _].
  destruct (stat_slot_ok (with_tags c s) p _ a (ck_cpus _ _ Hok1) Hq) as [k Hk].
  set (h := mkCacheStats (bump (hits (c_stats c)) (cmdToIndex (Packet.cmd p), k))
    (misses (c_stats c)) (writebacks (c_stats c)) (missCount (c_stats c)) (exit_requested (c_stats c))).
  assert (∃ s2, incMissCount (with_tags c s) p (context_id p) = Some (with_stats (with_tags c s) s2)) as [s2 Hmiss]
    by (unfold incMissCount; rewrite Hk; by eexists).
  exists lat, (with_stats (with_tags c s) (if Packet.needsExclusive p && negb (isWritable b) then s2 else h)), b.
  split_and!; try done; [by apply cache_inv_stats|].
  unfold access. rewrite (ask_cacheable _ _ _ Hq), (ask_addr _ _ _ Hq). cbn [mbind option_bind].
  rewrite Hacc. cbn [mbind option_bind]. rewrite Hb. cbn [mbind option_bind]. rewrite Hrd.
  unfold access_miss. rewrite (decide_False (P := Packet.cmd p = Writeback)) by apply Hq. rewrite Hmiss.
  unfold incHitCount. rewrite Hk. cbn [mbind option_bind].
  by destruct (Packet.needsExclusive p), (isWritable b).
Qed.

(** The block is not there: a store-conditional gives up, the other requests are
    left to the miss path with no block. *)
Lemma access_absent W t c m p a :
  cache_inv W None c m → asks (geo (tags c)) p a → findBlock (tags c) a = None →
  ∃ s lat, access t c p =
    Some (if Packet.isLLSC p && Packet.isWrite p
          then mkAccess true None lat [] (with_stats c s)
                 (Packet.set_req p (Request.setExtraData (Packet.req p) 0))
          else mkAccess false None lat [] (with_stats c s) p).
Proof.
  intros Hok Hq Hf. pose proof (ask_u64 _ _ _ Hq) as Ha.
  destruct (accessBlock_spec (tags c) t a (ck_wf _ _ Hok) (ck_unique _ _ Hok) Ha)
    as (lat & s' & Hacc & _ & _ & Hm & _ & _).
  rewrite Hf in Hacc, Hm. destruct Hm as [-> _].
  destruct (stat_slot_ok c p _ a (ck_cpus _ _ Hok) Hq) as [k Hk].
  eexists _, lat. unfold access. rewrite (ask_cacheable _ _ _ Hq), (ask_addr _ _ _ Hq). cbn [mbind option_bind].
  rewrite Hacc. cbn [mbind option_bind]. replace (with_tags c (tags c)) with c by (by destruct c).
  unfold access_miss. rewrite decide_False by apply Hq. unfold incMissCount. rewrite Hk.
  cbn [mbind option_bind]. by destruct (Packet.isLLSC p && Packet.isWrite p).
Qed.

(** ** The request downstream *)

(** [q] asks the port for the block of [a], for the request of [p]. *)
Record downstream (g : Geometry) (p : Packet.t) (a : Z) (cmd : Command) (q : Packet.t) : Prop := {
  ds_cmd : Packet.cmd q = cmd;
  ds_req : Packet.req q = Packet.req p;
  ds_transfer : transfer q (blkAlign g a) port_bs (replicate (Z.to_nat port_bs) 0);
  ds_block : block_request port_bs q (blkAlign g a);
  ds_shared : Packet.sharedAsserted q = false;
  ds_dest : Packet.getDest q = Some Packet.Broadcast
}.

(** Which request is made: for the block, or for the permission to write it. *)
Lemma getBusPacket_ok W t c m p a blk :
  cache_inv W None c m → asks (geo (tags c)) p a →
  let ob := r ← blk; get_blk c r in
  let cmd := match ob with
             | Some _ => if Packet.isLLSC p then SCUpgradeReq else UpgradeReq
             | None => if Packet.needsExclusive p then ReadExReq else ReadReq
             end in
  match ob with
  | Some b => isValid b = true ∧ isWritable b = false ∧ Packet.needsExclusive p = true
  | None => Packet.isUpgrade p = false
  end →
  ∃ q, getBusPacket t c p blk (Packet.needsExclusive p) = Some (Some q) ∧
    downstream (geo (tags c)) p a cmd q.
Proof.
  intros Hok Hq ob cmd Hob. pose proof (ck_wf _ _ Hok) as (Hg & _).
  destruct (ask_paddr _ _ _ Hq) as (x & Hx & Hxu & Exa).
  destruct (allocate_new_blk t (Packet.req p) cmd Packet.Broadcast x (blkSize (geo (tags c))) Hx)
    as (q & Hall & Qc & Qr & Qa & Qs & Qp & Qsh & Qi & Qd & _).
  exists q. split.
  - unfold getBusPacket. fold ob. rewrite (ask_cacheable _ _ _ Hq), (ask_response _ _ _ Hq), (ck_size _ _ Hok).
    unfold cmd in Hall. destruct ob as [b|].
    + destruct Hob as (-> & -> & Hne). rewrite Hne. cbn [negb andb mbind option_bind]. by rewrite Hall.
    + rewrite Hob, bool_decide_eq_false_2 by apply Hq. cbn [negb andb orb mbind option_bind]. by rewrite Hall.
  - destruct (block_arith _ Hg x Hxu) as (_ & Ex & Hb & _ & Hmask).
    assert (Z.land x (u64 (Z.lnot (blkSize (geo (tags c)) - 1))) = blkAlign (geo (tags c)) a) as Eal.
    { rewrite <- Exa. unfold blkAlign. rewrite Hmask. f_equal. unfold notU, Z.lnot. ilia. }
    rewrite Eal in Qa. pose proof (ck_bs _ _ Hok) as Hbs.
    destruct (block_range _ Hg a (ask_u64 _ _ _ Hq)) as (H0 & _).
    split; try done.
    + rewrite <- Hbs. split_and!; try done; rewrite ?length_replicate; lia.
    + split; rewrite ?Qr; try apply Hq. exists x. split_and!; try done. rewrite <- Hbs, <- Exa. lia.
Qed.

(** Only the bytes of the memory matter. *)
Lemma cache_inv_port W X c m m' :
  cache_inv W X c m → port_ok m' → (∀ x, is_u64 x → port_byte m' x = port_byte m x) →
  cache_inv W X c m' ∧ ∀ x, is_u64 x → cache_byte c m' x = cache_byte c m x.
Proof.
  intros Hok Hp Hm. pose proof (ck_wf _ _ Hok) as (Hg & _). split.
  - split; try apply Hok; [done|]. intros a i b Ha Hh Hb.
    destruct (ck_blocks _ _ Hok a i b Ha Hh Hb) as [Hrd Hwr Hpr Hcl]. split; try done.
    + intros k Hk. rewrite Hm by (by apply block_u64). by apply Hpr.
    + intros Hx Hd k Hk. pose proof (ck_len _ _ Hok i b Hb).
      rewrite Hm by (apply block_u64; [done..|lia]). by apply Hcl.
  - intros x Hx. unfold cache_byte. by rewrite Hm.
Qed.

Lemma absent_bytes W X c m a x :
  cache_inv W X c m → is_u64 a → is_u64 x → findBlock (tags c) a = None →
  blkAlign (geo (tags c)) x = blkAlign (geo (tags c)) a → cache_byte c m x = port_byte m x.
Proof.
  intros Hok Ha Hx Hf E. unfold cache_byte. destruct (findBlock (tags c) x) as [j|] eqn:Ej; [|done].
  rewrite (findBlock_block (tags c) x a j) in Hf by (done || apply Hok). done.
Qed.

(** A block in the cache is a block of the memory. *)
Lemma block_present W X c m a :
  cache_inv W X c m → is_u64 a →
  present (cache_byte c m) (blkAlign (geo (tags c)) a) (blkSize (geo (tags c))) →
  present (port_byte m) (blkAlign (geo (tags c)) a) (blkSize (geo (tags c))).
Proof.
  intros Hok Ha Hpr. pose proof (ck_wf _ _ Hok) as (Hg & _).
  destruct (findBlock (tags c) a) as [i|] eqn:Hf.
  - apply findBlock_holds in Hf as Hh. destruct Hh as (st & Hst & Hi & _).
    destruct (set_member _ (ck_wf _ _ Hok) _ _ _ Hst Hi) as [b Hb].
    apply findBlock_holds in Hf. apply (ck_blocks _ _ Hok a i b Ha Hf Hb).
  - intros k Hk. destruct (block_u64 _ a k Hg Ha Hk) as [Hu E].
    rewrite <- (absent_bytes W X c m a) by done. by apply Hpr.
Qed.

(** A block may be exempted. *)
Lemma cache_inv_exempt W i c m : cache_inv W None c m → cache_inv W (Some i) c m.
Proof.
  intros Hok. split; try apply Hok. intros a j b Ha Hh Hb.
  destruct (ck_blocks _ _ Hok a j b Ha Hh Hb) as [? ? ? Hc]. split; try done. intros _. by apply Hc.
Qed.

(** The requests of a processor that never leave a block clean after having asked
    for the permission to write it. *)
Definition plain (p : Packet.t) : Prop :=
  Packet.cmd p ≠ StoreCondReq ∧ (Packet.cmd p = SwapReq → Request.isCondSwap (Packet.req p) = false).

Lemma plain_writes g p :
  cpu_request g p → plain p → Packet.needsExclusive p = true → must_write p ∧ Packet.isLLSC p = false.
Proof.
  intros Hrq [Hsc Hsw]. unfold must_write, Packet.needsExclusive, Packet.isLLSC.
  pose proof (rq_cmd _ _ Hrq) as Hc. rewrite !elem_of_cons in Hc.
  destruct Hc as [E|[E|[E|[E|[E|[]%elem_of_nil]]]]]; rewrite E; try done; intros _; [by auto|].
  split; [|done]. right. by auto.
Qed.

(** A request is answered from the block that has been found or fetched. *)
Lemma satisfy_found W X c m p i :
  cache_inv W X c m → X = None ∨ X = Some i ∧ must_write p → cpu_request (blkSize (geo (tags c))) p →
  findBlock (tags c) (Packet.addr p) = Some i →
  ∃ c' p', satisfies W c m p i c' p'.
Proof.
  intros Hok HX Hrq Hf. destruct (findBlock_holds _ _ _ Hf) as (st & Hst & Hi & _).
  destruct (set_member _ (ck_wf _ _ Hok) _ _ _ Hst Hi) as [b Hb].
  destruct (rq_buf _ _ Hrq) as (d & Hd & _). by apply (satisfy_spec W X c m p i b d).
Qed.

(** A new cache holds nothing. *)
Lemma Cache_new_ok g ncpus mshrs lat mm datum m :
  geometry_ok g → 0 < ncpus → Z.of_nat (length datum) = blkSize g → blkSize g = port_bs → port_ok m →
  let c := Cache_new g ncpus mshrs lat mm datum in
  ∀ W, cache_inv W None c m ∧ ∀ x, cache_byte c m x = port_byte m x.
Proof.
  intros Hg Hn Hl Hbs Hp c W. destruct (LRU_new_ok g ncpus datum Hg) as (Hw & Hbl & Hset).
  assert (∀ a i, ¬ holds (tags c) a i) as Hno.
  { intros a i (st & _ & _ & Hk). unfold blk_key in Hk. destruct (blks (tags c) !! i) as [b|] eqn:Hb; [|done].
    injection Hk as _ Hv. apply Hbl in Hb as [Hv' _]. congruence. }
  split.
  - split; try done; [apply LRU_new_unique| | |].
    + intros i b Hb. by apply Hbl in Hb as [_ ->].
    + intros i b Hb Hv. apply Hbl in Hb as [Hv' _]. congruence.
    + intros a i b _ Hh. by apply Hno in Hh.
  - intros x. unfold cache_byte. destruct (findBlock (tags c) x) as [i|] eqn:E; [|done].
    by apply findBlock_holds, Hno in E.
Qed.

(** A request leaves every address a byte. *)
Lemma flat_step_present bs p B p' B' a n :
  cpu_request bs p → flat_step p B p' B' → 0 <= a → a + n <= 2 ^ 64 → present B a n → present B' a n.
Proof.
  intros Hrq (w & d & Hd & Hby & _) Ha Hn Hpr k Hk. rewrite Hby by (unfold is_u64; lia).
  destruct (rq_buf _ _ Hrq) as (d' & Hd' & Hl). rewrite Hd in Hd'. injection Hd' as <-.
  destruct (decide _) as [[_ Hr]|_]; [|by apply Hpr]. apply lookup_lt_is_Some_2. lia.
Qed.

(** ** Sequences of requests *)

Inductive flat_run : (Z → option Z) → list (Z * Packet.t) → list Packet.t → (Z → option Z) → Prop :=
  | flat_nil B B' : (∀ x, is_u64 x → B' x = B x) → flat_run B [] [] B'
  | flat_cons t p p' rs ps B B' B'' :
      flat_step p B p' B' → Packet.cmd p' = MemCmd.responseCommand (Packet.cmd p) →
      flat_run B' rs ps B'' → flat_run B ((t, p) :: rs) (p' :: ps) B''.

(** Only the bytes count. *)
Lemma flat_run_ext g rs ps B0 B B' :
  geometry_ok g → Forall (λ r, cpu_request (blkSize g) r.2) rs → (∀ x, is_u64 x → B x = B0 x) →
  flat_run B rs ps B' → flat_run B0 rs ps B'.
Proof.
  intros Hg Hall HB Hr. destruct Hr as [B B' Hx|t p p' rs ps B B1 B2 Hst Hc Hr].
  - constructor. intros x Hu. by rewrite Hx, HB.
  - apply Forall_cons in Hall as [Hrq _]. apply (flat_cons t p p' rs ps _ B1); try done.
    apply (flat_step_transfer g p _ B B1); try done. intros x Hu. left. by split; [|apply HB].
Qed.

(** ** The answer from downstream *)

Section Answer.
Context {M : AtomicPort}.

(** The block that is fetched for a request, and what it replaces. *)
Lemma fill_absent (W : Prop) (ex : bool) t c (m : S) p a lat q q' l fin (s s1 : port_state) d B :
  let g := geo (tags c) in
  cache_inv W None c m → asks g p a → findBlock (tags c) a = None →
  getBusPacket t c p None (Packet.needsExclusive p) = Some (Some q) → downstream g p a (Packet.cmd q) q →
  Packet.cmd q = ReadReq ∨ Packet.cmd q = ReadExReq → recvAtomic t q s = Some (q', l, fin, s1) →
  block_response q (blkAlign g a) q' → Packet.getPtr q' = Some d → Z.of_nat (length d) = blkSize g →
  (W → Packet.sharedAsserted q' = false) → ex = true ∨ bytes_at (port_byte m) (blkAlign g a) d →
  present (port_byte m) (blkAlign g a) (blkSize g) →
  (∀ x, is_u64 x → blkAlign g x = blkAlign g a → B x = d !! Z.to_nat (x - blkAlign g a)) →
  (∀ x, is_u64 x → blkAlign g x ≠ blkAlign g a → B x = cache_byte c m x) →
  ∃ i wbs c1, handleFill t c q' fin None [] = Some (InTags i, wbs, c1) ∧
    cache_inv W (if ex then Some i else None) c1 m ∧ geo (tags c1) = g ∧
    findBlock (tags c1) a = Some i ∧ evicts g c1 m B (blk_state c) a wbs ∧
    blk_state c1 a = Some (negb (Packet.sharedAsserted q'),
                           negb (Packet.sharedAsserted q') && Packet.memInhibitAsserted q') ∧
    atomic_miss t (mkAccess false None lat [] c p) s =
      ('(c, p) ← satisfyCpuSideRequest c1 p (InTags i); Some (p, s32 (lat + l), wbs, c, s1)).
Proof.
  intros g Hok Hq Hf Hbus Hds Qc Hrecv [Rc Rr Ra] Rp Rl Rsh Hex Hpr HBin HBout.
  assert (Packet.wasNacked q' = false ∧ Packet.isResponse q' = true ∧ Packet.isError q' = false ∧
          Packet.isRead q' = true ∧ Packet.hasData q' = true) as (Rn & Rres & Rerr & Rrd & Rhd).
  { unfold Packet.wasNacked, Packet.isResponse, Packet.isError, Packet.isRead, Packet.hasData.
    rewrite Rc. by destruct Qc as [-> | ->]. }
  destruct (fill_block_ok W ex t c m q' fin a d B Hok (ask_u64 _ _ _ Hq) Hf)
    as (i & wbs & c1 & Hfill & Hokc1 & Hg1 & Hf1 & Hev & Hst); try done.
  exists i, wbs, c1. split_and!; try done.
  unfold atomic_miss. cbn [ac_cache ac_pkt ac_blk ac_lat ac_wbs]. rewrite Hbus. cbn [mbind option_bind].
  rewrite Hrecv. cbn [mbind option_bind]. rewrite Rr, (ds_req _ _ _ _ _ Hds).
  replace (Packet.set_req p (Packet.req p)) with p by (by destruct p).
  rewrite Rn, (ask_response _ _ _ Hq), Rres, Rerr, Rrd. cbn [negb orb]. rewrite Hfill.
  by cbn [mbind option_bind].
Qed.

(** The permission to write that is fetched for a request. *)
Lemma fill_upgrade W t c (m : S) p a i b lat cmd q q' l fin (s s1 : port_state) :
  let g := geo (tags c) in
  cache_inv W (Some i) c m → asks g p a → findBlock (tags c) a = Some i → blks (tags c) !! i = Some b →
  getBusPacket t c p (Some (InTags i)) (Packet.needsExclusive p) = Some (Some q) →
  downstream g p a cmd q → cmd = UpgradeReq ∨ cmd = SCUpgradeReq → recvAtomic t q s = Some (q', l, fin, s1) →
  block_response q (blkAlign g a) q' → Packet.sharedAsserted q' = false →
  ∃ c1, cache_inv W (Some i) c1 m ∧ geo (tags c1) = g ∧
    (∀ x, is_u64 x → findBlock (tags c1) x = findBlock (tags c) x) ∧
    (∀ x, is_u64 x → cache_byte c1 m x = cache_byte c m x) ∧
    (∀ x, is_u64 x → blk_state c1 x =
       if decide (blkAlign g x = blkAlign g a) then Some (true, Packet.memInhibitAsserted q') else blk_state c x) ∧
    (∃ b1, blks (tags c1) !! i = Some b1 ∧ data b1 = data b ∧ lockList b1 = lockList b ∧
       isDirty b1 = Packet.memInhibitAsserted q') ∧
    atomic_miss t (mkAccess false (Some (InTags i)) lat [] c p) s =
      ('(c, p) ← satisfyCpuSideRequest c1 p (InTags i); Some (p, s32 (lat + l), [], c, s1)).
Proof.
  intros g Hok Hq Hf Hb Hbus [Qc Qr _ _ _ _] Hcmd Hrecv [Rc Rr Ra] Rsh.
  assert (Packet.cmd q' = UpgradeResp) as Rc' by (rewrite Rc, Qc; by destruct Hcmd as [-> | ->]). clear Rc. rename Rc' into Rc.
  destruct (upgrade_block_ok W t c m q' fin a i b) as (c1 & Hfill & Hok2 & Hg1 & Hfb & Hby & Hst & Hb1); try done.
  { apply Hq. }
  { unfold Packet.isRead. by rewrite Rc. }
  exists c1. split_and!; try done.
  unfold atomic_miss. cbn [ac_cache ac_pkt ac_blk ac_lat ac_wbs]. rewrite Hbus. cbn [mbind option_bind].
  rewrite Hrecv. cbn [mbind option_bind]. rewrite Rr, Qr.
  replace (Packet.set_req p (Packet.req p)) with p by (by destruct p).
  assert (Packet.wasNacked q' = false ∧ Packet.isResponse q' = true ∧ Packet.isError q' = false) as (-> & -> & ->)
    by (unfold Packet.wasNacked, Packet.isResponse, Packet.isError; by rewrite Rc).
  rewrite (ask_response _ _ _ Hq), (bool_decide_eq_true_2 (Packet.cmd q' = UpgradeResp)) by done.
  cbn [negb orb]. rewrite orb_true_r, Hfill. by cbn [mbind option_bind].
Qed.

End Answer.

End View.

Arguments ck_port {S V W X} c m _.
Arguments ck_wf {S V W X} c m _.
Arguments ck_unique {S V W X} c m _.
Arguments ck_size {S V W X} c m _.
Arguments ck_bs {S V W X} c m _.
Arguments ck_queue {S V W X} c m _.
Arguments ck_cpus {S V W X} c m _.
Arguments ck_len {S V W X} c m _.
Arguments ck_set {S V W X} c m _.
Arguments ck_addr {S V W X} c m _.
Arguments ck_blocks {S V W X} c m _.
