(* ===== verification/CacheRefine.v ===== *)
(** The cache controller in atomic mode is transparent: a cache in front of a
    byte memory behaves as that memory. *)

From S2P Require Import Prelude IntMath Packet CacheBlk Lru Mshr MshrQueue PhysMem CacheCtl CacheInv.

Section Refine.
Context {M : AtomicPort} {BM : ByteMemory M}.

(** Sending the writeback of an evicted block. *)
Lemma send_writeback_ok W t g c1 c2 m a wbs B St :
  evicts g c1 m B St a wbs → cache_inv W None c2 m → geo (tags c2) = g →
  (∀ x, is_u64 x → blkAlign g x ≠ blkAlign g a → findBlock (tags c2) x = findBlock (tags c1) x) →
  ∃ m', send_writebacks t wbs m = Some m' ∧ cache_inv W None c2 m' ∧
    ∀ x, is_u64 x →
      cache_byte c2 m' x = cache_byte c2 m x ∧ cache_byte c1 m x = B x ∨
      blkAlign g x ≠ blkAlign g a ∧ cache_byte c2 m' x = B x.
Proof.
  intros Hev Hok2 <- Hfb. pose proof (ck_wf _ _ Hok2) as (Hg & _).
  destruct Hev as [(-> & Hby & _)|(wb & v & dv & -> & Hv & Wb & Hpr & Hva & Hin & Hout & _)].
  { exists m. split_and!; try done. intros x Hx. left. by split; [|apply Hby]. }
  pose proof (ck_bs _ _ Hok2) as Hbs. pose proof Hbs as Hbs'. rewrite Hbs in Wb, Hpr.
  destruct (port_writeback t wb m _ dv (ck_port _ _ Hok2) Wb Hpr) as (q & l & fin & m' & Hr & Hp & Hm).
  pose proof (wb_transfer _ _ _ _ Wb) as (_ & _ & _ & Hl & _). rewrite <- Hbs' in Hm, Hl, Hpr.
  assert (∀ x, is_u64 x → blkAlign (geo (tags c2)) x = blkAlign (geo (tags c2)) v → findBlock (tags c2) x = None) as Hn.
  { intros x Hx E. rewrite Hfb by (done || congruence). by apply Hin. }
  destruct (cache_inv_memory W None c2 m m' v) as [Hok' Hsame]; try done; [by apply Hn| | |].
  { intros x Hx E. rewrite Hm by done. rewrite decide_False; [done|]. intros Hr'. apply E. by apply block_member. }
  { intros k Hk. destruct (block_u64 _ v k Hg Hv Hk) as [Hu _].
    rewrite Hm, decide_True by (done || lia). apply lookup_lt_is_Some_2. lia. }
  exists m'. cbn [send_writebacks]. rewrite Hr. cbn [mbind option_bind]. split_and!; [done|done|].
  intros x Hx. destruct (decide (blkAlign (geo (tags c2)) x = blkAlign (geo (tags c2)) v)) as [E|E].
  - right. split; [congruence|]. destruct (Hin x Hx E) as [_ ->].
    pose proof (proj1 (block_member _ Hg v x Hv Hx) E).
    unfold cache_byte. by rewrite (Hn x Hx E), Hm, decide_True.
  - left. split; [by apply Hsame; auto|by apply Hout].
Qed.

(** ** The miss path *)

Section Miss.
Context (W : Prop).
Hypothesis HW : W → port_excl.

(** What the port makes of the request [q] for the block of [a]. *)
Lemma port_answers t c m a p q :
  let A := blkAlign (geo (tags c)) a in
  cache_inv W None c m → is_u64 a → downstream (geo (tags c)) p a (Packet.cmd q) q →
  Packet.cmd q = ReadReq ∨ Packet.cmd q = ReadExReq → present (port_byte m) A port_bs →
  ∃ q' l fin m1, recvAtomic t q m = Some (q', l, fin, m1) ∧ port_ok m1 ∧
    block_response q A q' ∧ carries q' (port_byte m) A port_bs ∧
    (∀ x, is_u64 x → ¬ (A <= x < A + port_bs) ∨ Packet.cmd q = ReadReq ∨ port_excl →
       port_byte m1 x = port_byte m x) ∧
    present (port_byte m1) A port_bs ∧ (W → Packet.sharedAsserted q' = false).
Proof.
  intros A Hok Ha [_ _ Ht Hb Hs _] Hc Hpr. destruct Hc as [Hc|Hc].
  - destruct (port_read t q m _ _ (ck_port _ _ Hok) Hc Ht Hb Hpr)
      as (q' & l & fin & m1 & Hr & Hp & Hx & Hrs & Hcar & Hsh).
    exists q', l, fin, m1. split_and!; auto.
    + intros k Hk. destruct (block_u64 _ a k (proj1 (ck_wf _ _ Hok)) Ha) as [Hu _]; [by rewrite (ck_bs _ _ Hok)|].
      unfold A. rewrite Hx by done. by apply Hpr.
    + intros Hw. rewrite Hsh; auto.
  - destruct (port_own t q m _ _ (ck_port _ _ Hok) Hc Ht Hb Hpr)
      as (q' & l & fin & m1 & Hr & Hp & Hx & Hpr1 & Hrs & Hcar & Hsh).
    exists q', l, fin, m1. split_and!; auto; [|congruence]. intros x Hu [?|[?|?]]; auto. congruence.
Qed.

(** An absent block is fetched; what it replaces is left to be written back. *)
Lemma fetch_absent t c m p a lat :
  let g := geo (tags c) in
  cache_inv W None c m → asks g p a → Packet.isUpgrade p = false → findBlock (tags c) a = None →
  present (cache_byte c m) (blkAlign g a) (blkSize g) →
  ∃ l i wbs c1 m1,
    cache_inv W (if Packet.needsExclusive p then Some i else None) c1 m1 ∧
    (port_excl → cache_inv W None c1 m1) ∧ geo (tags c1) = g ∧ findBlock (tags c1) a = Some i ∧
    evicts g c1 m1 (cache_byte c m) (blk_state c) a wbs ∧
    atomic_miss t (mkAccess false None lat [] c p) m =
      ('(c, p) ← satisfyCpuSideRequest c1 p (InTags i); Some (p, l, wbs, c, m1)).
Proof.
  intros g Hok Hq Hup Hf Hpr. pose proof (ask_u64 _ _ _ Hq) as Ha. pose proof (ck_wf _ _ Hok) as (Hg & _).
  pose proof (ck_bs _ _ Hok) as Hbs. apply (block_present W None) in Hpr as Hprm; [|done..].
  destruct (getBusPacket_ok W t c m p a None Hok Hq Hup) as (q & Hbus & Hds). cbn zeta in Hds.
  pose proof (ds_cmd _ _ _ _ _ Hds) as Qc. cbn [mbind option_bind] in Qc.
  assert (Packet.cmd q = ReadReq ∨ Packet.cmd q = ReadExReq) as Qc' by (rewrite Qc; destruct (Packet.needsExclusive p); auto).
  assert (downstream g p a (Packet.cmd q) q) as Hds' by (rewrite Qc; done).
  rewrite Hbs in Hprm.
  destruct (port_answers t c m a p q Hok Ha Hds' Qc' Hprm)
    as (q' & l & fin & m1 & Hrecv & Hp1 & Hrs & (d & Rp & Rl & Rb) & Hx & Hpr1 & Rsh).
  rewrite <- Hbs in *.
  destruct (cache_inv_memory W None c m m1 a Hok Hp1 Ha Hf) as [Hok1 Hout]; [|done|].
  { intros x Hu E. apply Hx; [done|]. left. intros Hr. apply E. by apply block_member. }
  assert (∀ x, is_u64 x → blkAlign g x = blkAlign g a → cache_byte c m x = d !! Z.to_nat (x - blkAlign g a)) as HBin.
  { intros x Hu E. rewrite (absent_bytes W None c m a) by done. symmetry. by apply block_bytes. }
  assert (∀ x, is_u64 x → blkAlign g x ≠ blkAlign g a → cache_byte c m x = cache_byte c m1 x) as HBout
    by (intros x Hu E; rewrite Hout; auto).
  assert (Packet.needsExclusive p = false ∨ port_excl → bytes_at (port_byte m1) (blkAlign g a) d) as Hclean.
  { intros Hc k Hk. destruct (block_u64 g a (Z.of_nat k) Hg Ha) as [Hu _]; [unfold g; lia|]. rewrite Hx; [by apply Rb|done|].
    right. destruct Hc as [En|?]; [left; by rewrite Qc, En|by right]. }
  destruct (fill_absent W (Packet.needsExclusive p) t c m1 p a lat q q' l fin m m1 d (cache_byte c m))
    as (i & wbs & c1 & Hfill & Hokc1 & Hg1 & Hf1 & Hev & _ & Hmiss); try done.
  { destruct (Packet.needsExclusive p); [by left|right; auto]. }
  exists (s32 (lat + l)), i, wbs, c1, m1. split_and!; try done.
  intros Hexcl. destruct (fill_absent W false t c m1 p a lat q q' l fin m m1 d (cache_byte c m))
    as (i' & wbs' & c1' & Hfill' & Hokc1' & _); auto.
  rewrite Hfill in Hfill'. by injection Hfill' as <- <- <-.
Qed.

(** The permission to write a block is fetched. *)
Lemma fetch_upgrade t c m p a i b lat :
  cache_inv W None c m → asks (geo (tags c)) p a → findBlock (tags c) a = Some i →
  blks (tags c) !! i = Some b → isWritable b = false → Packet.needsExclusive p = true →
  Packet.isLLSC p = false →
  ∃ l c1 m1, cache_inv W (Some i) c1 m1 ∧ geo (tags c1) = geo (tags c) ∧
    (∀ x, is_u64 x → findBlock (tags c1) x = findBlock (tags c) x) ∧
    (∀ x, is_u64 x → cache_byte c1 m1 x = cache_byte c m x) ∧
    atomic_miss t (mkAccess false (Some (InTags i)) lat [] c p) m =
      ('(c, p) ← satisfyCpuSideRequest c1 p (InTags i); Some (p, l, [], c, m1)).
Proof.
  intros Hok Hq Hf Hb Hnw Hne Hll. pose proof (ask_u64 _ _ _ Hq) as Ha. pose proof (ck_wf _ _ Hok) as (Hg & _).
  pose proof (ck_bs _ _ Hok) as Hbs. apply findBlock_holds in Hf as Hh.
  pose proof (good_present _ _ _ _ _ _ (ck_blocks _ _ Hok a i b Ha Hh Hb)) as Hprm.
  destruct (getBusPacket_ok W t c m p a (Some (InTags i)) Hok Hq) as (q & Hbus & Hds).
  { cbn [mbind option_bind get_blk]. rewrite Hb. split_and!; try done. by apply (holds_valid _ _ _ _ Hh). }
  cbn [mbind option_bind get_blk] in Hds. rewrite Hb, Hll in Hds. rewrite Hbs in Hprm.
  pose proof Hds as [Qc Qr Qt Qb Qs _].
  destruct (port_upgrade t q m _ _ (ck_port _ _ Hok) Qc Qt Qb Hprm)
    as (q' & l & fin & m1 & Hrecv & Hp1 & Hx & Hpr1 & Hrs & Rsh). rewrite <- Hbs in *.
  destruct (cache_inv_memory W (Some i) c m m1 a Hok Hp1 Ha Hf) as [Hok1 Hout]; [|done|].
  { intros x Hu E. apply Hx; [done|]. intros Hr. apply E. by apply block_member. }
  destruct (fill_upgrade W t c m1 p a i b lat UpgradeReq q q' l fin m m1) as (c1 & Hok2 & Hg1 & Hfb & Hby & _ & _ & Hmiss);
    try done; [by left|congruence|].
  exists (s32 (lat + l)), c1, m1. split_and!; try done.
  intros x Hu. rewrite Hby by done. apply Hout; auto.
Qed.

End Miss.

(** ** Requests of processors *)

(** Conditional writes are only safe where a block is always writable. *)
Definition allowed (p : Packet.t) : Prop := port_excl ∨ plain p.

(** The request misses and the block is fetched. *)
Lemma miss_absent t c m p s lat :
  let g := geo (tags c) in
  cache_inv port_excl None c m → cpu_request (blkSize g) p → allowed p →
  findBlock (tags c) (Packet.addr p) = None →
  present (cache_byte c m) (blkAlign g (Packet.addr p)) (blkSize g) →
  ∃ p1 l wbs c2 m1 m2,
    atomic_miss t (mkAccess false None lat [] (with_stats c s) p) m = Some (p1, l, wbs, c2, m1) ∧
    send_writebacks t wbs m1 = Some m2 ∧ cache_inv port_excl None c2 m2 ∧ geo (tags c2) = g ∧
    Packet.cmd p1 = Packet.cmd p ∧ flat_step p (cache_byte c m) p1 (cache_byte c2 m2).
Proof.
  intros g Hok Hrq Hal Hf Hpr. set (c0 := with_stats c s).
  destruct (fetch_absent port_excl (λ H, H) t c0 m p (Packet.addr p) lat) as
    (l & i & wbs & c1 & m1 & Hok1 & Hok1' & Hg1 & Hf1 & Hev & Hmiss); try done.
  { by apply cache_inv_stats. }
  { by apply cpu_asks. }
  { by apply (cpu_commands p), (rq_cmd _ _ Hrq). }
  assert (∃ c2 p1, satisfies port_excl c1 m1 p i c2 p1) as (c2 & p1 & Hsat & Hok2 & Hfb & Hg2 & Hc2 & Hfl & _).
  { destruct Hal as [He|Hpl].
    - apply (satisfy_found _ None); auto. by rewrite Hg1.
    - apply (satisfy_found _ _ _ _ _ _ Hok1); [|by rewrite Hg1|done].
      destruct (Packet.needsExclusive p) eqn:En; [|by left]. right.
      by destruct (plain_writes _ p Hrq Hpl En). }
  destruct (send_writeback_ok port_excl t g c1 c2 m1 (Packet.addr p) wbs (cache_byte c m) (blk_state c))
    as (m2 & Hsend & Hok3 & Hx); try done; [by rewrite Hg2, Hg1|auto|].
  exists p1, l, wbs, c2, m1, m2. split_and!; try done; [by rewrite Hmiss, Hsat|by rewrite Hg2, Hg1|].
  apply (flat_step_transfer g p _ (cache_byte c1 m1) (cache_byte c2 m1)); try done. apply Hok.
Qed.

(** The block is there; it is found writable or the permission is fetched. *)
Lemma miss_found t c m p i :
  let g := geo (tags c) in
  cache_inv port_excl None c m → cpu_request (blkSize g) p → allowed p →
  findBlock (tags c) (Packet.addr p) = Some i →
  ∃ r p1 l c2 m1, access t c p = Some r ∧
    (if satisfied r then Some (ac_pkt r, ac_lat r, ac_wbs r, ac_cache r, m) else atomic_miss t r m)
      = Some (p1, l, [], c2, m1) ∧
    cache_inv port_excl None c2 m1 ∧ geo (tags c2) = g ∧ Packet.cmd p1 = Packet.cmd p ∧
    flat_step p (cache_byte c m) p1 (cache_byte c2 m1).
Proof.
  intros g Hok Hrq Hal Hf.
  destruct (access_found port_excl t c m p (Packet.addr p) i Hok (cpu_asks _ _ Hrq) Hf)
    as (lat & c1 & b & Hok1 & (Hg1 & Hfb1 & Hby1 & _) & Hb & Hrd & Hwr & Hacc).
  assert (findBlock (tags c1) (Packet.addr p) = Some i) as Hf1 by (rewrite Hfb1; [done|apply Hrq]).
  assert (∀ c' m' p1 c2, satisfies port_excl c' m' p i c2 p1 → geo (tags c') = g →
    (∀ x, is_u64 x → cache_byte c' m' x = cache_byte c m x) →
    flat_step p (cache_byte c m) p1 (cache_byte c2 m')) as Hlift.
  { intros c' m' p1 c2 (_ & _ & _ & _ & _ & Hfl & _) _ Hby.
    apply (flat_step_transfer g p _ (cache_byte c' m') (cache_byte c2 m')); try done; [apply Hok|].
    intros x Hx. left. by split; [|apply Hby]. }
  destruct (Packet.needsExclusive p && negb (isWritable b)) eqn:En.
  - apply andb_true_iff in En as [En Ew%negb_true_iff].
    assert (plain p) as Hpl by (destruct Hal as [He|?]; [apply Hwr in He; congruence|done]).
    destruct (plain_writes _ p Hrq Hpl En) as [Hmw Hll].
    destruct (fetch_upgrade port_excl t c1 m p (Packet.addr p) i b lat)
      as (l & c2 & m1 & Hok2 & Hg2 & Hfb2 & Hby2 & Hmiss); try done.
    { rewrite Hg1. by apply cpu_asks. }
    destruct (satisfy_found port_excl (Some i) c2 m1 p i) as (c3 & p1 & Hsat); auto.
    { by rewrite Hg2, Hg1. }
    { rewrite Hfb2; [done|apply Hrq]. }
    exists (mkAccess false (Some (InTags i)) lat [] c1 p), p1, l, c3, m1. cbn [satisfied].
    pose proof Hsat as (Hs & Hok3 & _ & Hg3 & Hc3 & _). split_and!; try done.
    + by rewrite Hmiss, Hs.
    + by rewrite Hg3, Hg2, Hg1.
    + apply (Hlift c2 m1 p1 c3 Hsat); [by rewrite Hg2|]. intros x Hx. by rewrite Hby2, Hby1.
  - destruct (satisfy_found port_excl None c1 m p i) as (c2 & p1 & Hsat); auto; [by rewrite Hg1|].
    pose proof Hsat as (Hs & Hok2 & _ & Hg2 & Hc2 & _).
    exists (mkAccess true (Some (InTags i)) lat [] c2 p1), p1, lat, c2, m. split_and!; try done.
    + by rewrite Hacc, Hs.
    + by rewrite Hg2, Hg1.
    + by apply (Hlift c1 m p1 c2 Hsat).
Qed.

(** Every request of a processor is answered as a flat memory would. *)
Lemma atomicAccess_ok t c m p :
  let g := geo (tags c) in
  cache_inv port_excl None c m → cpu_request (blkSize g) p → allowed p →
  present (cache_byte c m) (blkAlign g (Packet.addr p)) (blkSize g) →
  ∃ p' lat c' m', atomicAccess t c p m = Some (p', lat, c', m') ∧ cache_inv port_excl None c' m' ∧
    geo (tags c') = g ∧ Packet.cmd p' = MemCmd.responseCommand (Packet.cmd p) ∧
    flat_step p (cache_byte c m) p' (cache_byte c' m').
Proof.
  intros g Hok Hrq Hal Hpr. pose proof (rq_cmd _ _ Hrq) as Hcmd. unfold atomicAccess.
  rewrite (rq_inhibit _ _ Hrq).
  destruct (findBlock (tags c) (Packet.addr p)) as [i|] eqn:Hf.
  { destruct (miss_found t c m p i Hok Hrq Hal Hf) as (r & p1 & l & c2 & m1 & -> & E & Hok' & Hg' & Hc & Hfl).
    cbn [mbind option_bind]. rewrite E. cbn [mbind option_bind send_writebacks].
    destruct (flat_step_response p _ _ _ Hcmd Hc Hfl) as (p' & -> & Hfl' & Hc'). cbn [mbind option_bind].
    by exists p', l, c2, m1. }
  destruct (access_absent port_excl t c m p _ Hok (cpu_asks _ _ Hrq) Hf) as (s & lat & ->).
  cbn [mbind option_bind]. destruct (cpu_commands p Hcmd) as (_ & _ & _ & ->).
  destruct (bool_decide_reflect (Packet.cmd p = StoreCondReq)) as [Esc|Esc]; cbn [satisfied].
  - cbn [mbind option_bind ac_pkt ac_lat ac_wbs ac_cache send_writebacks].
    set (p1 := Packet.set_req p _). destruct (rq_buf _ _ Hrq) as (d & Hd & _).
    assert (flat_step p (cache_byte c m) p1 (cache_byte (with_stats c s) m)) as Hfl.
    { exists false, d. by rewrite Esc. }
    destruct (flat_step_response p _ _ p1 Hcmd eq_refl Hfl) as (p' & -> & Hfl' & Hc').
    exists p', lat, (with_stats c s), m. split_and!; try done. by apply cache_inv_stats.
  - destruct (miss_absent t c m p s lat Hok Hrq Hal Hf Hpr) as
      (p1 & l & wbs & c2 & m1 & m2 & -> & Hs & Hok2 & Hg2 & Hc1 & Hfl).
    cbn [mbind option_bind]. rewrite Hs. cbn [mbind option_bind].
    destruct (flat_step_response p _ _ p1 Hcmd Hc1 Hfl) as (p' & -> & Hfl' & Hc').
    by exists p', l, c2, m2.
Qed.

(** ** Sequences of requests *)

(** The requests of processors, each with the time at which it is made. *)
Fixpoint atomic_run (c : Cache) (m : port_state) (rs : list (Z * Packet.t))
    : option (list Packet.t * Cache * port_state) :=
  match rs with
  | [] => Some ([], c, m)
  | (t, p) :: rs =>
      '(p', _, c, m) ← atomicAccess t c p m;
      '(ps, c, m) ← atomic_run c m rs;
      Some (p' :: ps, c, m)
  end.

(** A request to a block of which every byte exists. *)
Definition served (g : Geometry) (B : Z → option Z) (p : Packet.t) : Prop :=
  cpu_request (blkSize g) p ∧ allowed p ∧ present B (blkAlign g (Packet.addr p)) (blkSize g).

Lemma served_ext g B B' p :
  geometry_ok g → (∀ x, is_u64 x → B' x = B x) → served g B p → served g B' p.
Proof.
  intros Hg HB (Hrq & Hal & Hpr). split_and!; [done..|]. intros k Hk.
  rewrite HB by (by apply block_u64; [|apply Hrq|]). by apply Hpr.
Qed.

Lemma atomic_run_ok rs c m :
  cache_inv port_excl None c m → Forall (λ r, served (geo (tags c)) (cache_byte c m) r.2) rs →
  ∃ ps c' m', atomic_run c m rs = Some (ps, c', m') ∧ cache_inv port_excl None c' m' ∧
    flat_run (cache_byte c m) rs ps (cache_byte c' m').
Proof.
  revert c m. induction rs as [|[t p] rs IH]; intros c m Hok Hall.
  { exists [], c, m. split_and!; [done|done|by constructor]. }
  apply Forall_cons in Hall as [(Hrq & Hal & Hpr) Hall].
  destruct (atomicAccess_ok t c m p Hok Hrq Hal Hpr) as (p' & lat & c1 & m1 & Hat & Hok1 & Hg1 & Hc1 & Hfl).
  destruct (IH c1 m1 Hok1) as (ps & c2 & m2 & Hrun & Hok2 & Hfr).
  { eapply Forall_impl; [exact Hall|]. intros [t2 p2] (Hrq2 & Hal2 & Hpr2). cbn in *. split_and!; [by rewrite Hg1|done|].
    rewrite Hg1. pose proof (ck_wf _ _ Hok) as (Hg & _).
    destruct (block_range _ Hg _ (rq_u64 _ _ Hrq2)) as (H0 & H1 & _).
    by apply (flat_step_present _ p _ p' _ _ _ Hrq Hfl). }
  exists (p' :: ps), c2, m2. cbn [atomic_run]. rewrite Hat. cbn [mbind option_bind]. rewrite Hrun.
  split_and!; [done|done|]. by apply (flat_cons t p p' rs ps _ (cache_byte c1 m1)).
Qed.

End Refine.


(** C4. A cache is transparent.  Whatever byte memory is behind a cache that was
    built with accepted parameters, any sequence of loads, stores, load-locked,
    store-conditional and swap requests, each to a part of one block of the
    memory, is answered completely, without a failed assertion, and exactly as an
    array of bytes with the initial contents of the memory would answer it:
    every read returns the last bytes written, a store-conditional reports
    whether it wrote, and no eviction or fill is visible.  Conditional writes are
    left out when the memory may answer with a shared copy of a block. *)
Theorem cache_transparent {M : AtomicPort} {BM : ByteMemory M}
    g nsets bsize asc lat ncpus mshrs mm datum m rs :
  is_u32 nsets → is_u32 bsize → make_geometry nsets bsize asc lat = Some g → 0 < ncpus →
  Z.of_nat (length datum) = blkSize g → blkSize g = port_bs → port_ok m →
  Forall (λ r, served g (port_byte m) r.2) rs →
  ∃ ps c' m', atomic_run (Cache_new g ncpus mshrs lat mm datum) m rs = Some (ps, c', m') ∧
    cache_inv port_excl None c' m' ∧ flat_run (port_byte m) rs ps (cache_byte c' m').
Proof.
  intros Hns Hbs Hmk Hn Hl Hpb Hp Hall. apply make_geometry_ok in Hmk; [|done..].
  destruct (Cache_new_ok g ncpus mshrs lat mm datum m Hmk Hn Hl Hpb Hp port_excl) as [Hok Hby].
  destruct (atomic_run_ok rs _ m Hok) as (ps & c' & m' & Hrun & Hok' & Hfr).
  { eapply Forall_impl; [exact Hall|]. intros [t p]. apply served_ext; [done|]. intros x _. apply Hby. }
  exists ps, c', m'. split_and!; [done|done|].
  apply (flat_run_ext g rs ps _ (cache_byte (Cache_new g ncpus mshrs lat mm datum) m)); try done.
  eapply Forall_impl; [exact Hall|]. by intros [t p] [Hrq _].
Qed.

(** A kilobyte of memory behind a cache of four sets of two 64-byte blocks.  The
    first three requests are to one set, so that the written block is evicted
    before it is swapped and read. *)
Definition demo_mem : PhysicalMemory := mkMem 0 (replicate 1024 7) [] 0 30 0.
Definition demo_request (c : Command) (a : Z) (d : list Z) : Packet.t :=
  let n := Z.of_nat (length d) in
  Packet.mk 0x1f00 c (Request.mk (Some a) None (Some n) 0 0 None (Some (0, 0)) None) (Some d) a n
    0 (-1) InvalidCmd 0 None.
Definition demo_requests : list (Z * Packet.t) :=
  [(10, demo_request WriteReq 68 [1; 2; 3; 4]); (20, demo_request ReadReq 324 [0; 0]);
   (30, demo_request ReadReq 580 [0]); (40, demo_request SwapReq 70 [9; 8]);
   (50, demo_request ReadReq 68 [0; 0; 0; 0])].
Definition demo_cache : Cache := Cache_new demo_geometry 1 4 3 0 (replicate 64 0).

Example demo_answers :
  ('(ps, _, _) ← @atomic_run (MemoryPort 0 0) demo_cache demo_mem demo_requests;
   Some (map Packet.data ps)) =
  Some [Some [1; 2; 3; 4]; Some [7; 7]; Some [7]; Some [3; 4]; Some [1; 2; 9; 8]].
Proof. vm_compute. reflexivity. Qed.

Lemma demo_request_served c a d :
  c ∈ [ReadReq; WriteReq; LoadLockedReq; StoreCondReq; SwapReq] → 0 <= a < 1024 →
  0 < Z.of_nat (length d) <= 8 → a mod 64 + Z.of_nat (length d) <= 64 →
  served (BM := MemoryPort_bytes 0 0 64 eq_refl) demo_geometry (mem_byte demo_mem) (demo_request c a d).
Proof.
  intros Hc Ha Hl Hm. assert (is_u64 a) as Hu by (unfold is_u64; lia).
  assert (geometry_ok demo_geometry) as Hg by (eapply (make_geometry_ok _ 4 64 2 3); done).
  split_and!.
  - split; try done; cbn [Packet.size Packet.addr demo_request blkSize demo_geometry]; try lia.
    + by exists d.
    + by exists 0, 0.
    + intros _. split; [lia|done].
  - by left.
  - destruct (block_arith _ Hg a Hu) as (_ & E & _). apply mem_present;
      cbn [start size pmem demo_mem]; unfold size; cbn [pmem demo_mem]; rewrite ?length_replicate;
      change (Packet.addr (demo_request c a d)) with a; rewrite E; cbn [blkSize demo_geometry]; lia.
Qed.

Lemma cache_transparent_witness :
  ∃ ps c' m', @atomic_run (MemoryPort 0 0) demo_cache demo_mem demo_requests = Some (ps, c', m') ∧
    cache_inv (V := mem_view 64) True None c' m' ∧
    flat_run (mem_byte demo_mem) demo_requests ps (cache_byte (V := mem_view 64) c' m').
Proof.
  unfold demo_cache. change (mem_byte demo_mem) with (port_byte (ByteView := mem_view 64) demo_mem).
  apply (cache_transparent (BM := MemoryPort_bytes 0 0 64 eq_refl) demo_geometry 4 64 2 3 1 4 0 (replicate 64 0)
           demo_mem demo_requests); try done.
  repeat (apply Forall_cons_2; [apply demo_request_served; (set_solver || (cbn; lia))|]).
  apply Forall_nil_2.
Defined.

(** ** The prefetch bits *)

Section PrefetchBits.
Context {S : Type} {V : ByteView S}.

Lemma ldiff_land_disjoint s f n : Z.land f n = 0 → Z.land (Z.ldiff s f) n = Z.land s n.
Proof.
  intros E. apply Z.bits_inj'. intros k Hk. rewrite !Z.land_spec, Z.ldiff_spec.
  assert (Z.testbit f k && Z.testbit n k = false) as Hb by (by rewrite <- Z.land_spec, E, Z.bits_0).
  destruct (Z.testbit s k), (Z.testbit f k), (Z.testbit n k); done.
Qed.

(** A change of the prefetch bit of the block that holds [a]. *)
Lemma set_bit W c m a i f :
  f = or_status BlkHWPrefetchFlag ∨ f = clear_status BlkHWPrefetchFlag →
  cache_inv W None c m → is_u64 a → findBlock (tags c) a = Some i →
  let c' := upd c (InTags i) f in
  cache_inv W None c' m ∧ (∀ x, is_u64 x → cache_byte c' m x = cache_byte c m x) ∧
  (∀ x, is_u64 x → findBlock (tags c') x = findBlock (tags c) x) ∧ geo (tags c') = geo (tags c).
Proof.
  intros Hf Hok Ha Hfa c'. pose proof (ck_wf _ _ Hok) as Hw. apply findBlock_holds in Hfa as Hh.
  destruct Hh as (st & Hst & Hi & Hk). destruct (set_member _ Hw _ _ _ Hst Hi) as [b Hb].
  assert (holds (tags c) a i) as Hh by (by exists st).
  destruct (ck_blocks _ _ Hok a i b Ha Hh Hb) as [Hrd Hwr _ _]. pose proof (holds_valid _ _ _ _ Hh Hb) as Hv.
  assert (isReadable (f b) = isReadable b ∧ isWritable (f b) = isWritable b ∧
          isValid (f b) = isValid b ∧ isDirty (f b) = isDirty b ∧ data (f b) = data b ∧ tag (f b) = tag b ∧
          CacheBlk.set (f b) = CacheBlk.set b) as (E1 & E2 & E3 & E4 & E5 & E6 & E7).
  { unfold isReadable, isWritable, isValid, isDirty. destruct Hf as [-> | ->];
      cbn [status or_status clear_status blk_set_status];
      rewrite ?land_lor_disjoint, ?ldiff_land_disjoint by done; done. }
  destruct (set_block W None None c m a i b f) as (Hok' & Hfb & Hby & _); try done; try congruence; auto.
  { intros HWp. rewrite E2. auto. }
  split_and!; try done. intros x Hx. rewrite Hby by done. destruct (decide _) as [E|E]; [|done].
  rewrite E5, (byte_in_block _ _ c m a i b x), block_offset, E by (done || apply Hok). done.
Qed.

(** The bit that is read afterwards. *)
Lemma bit_after W c m a i f x :
  f = or_status BlkHWPrefetchFlag ∨ f = clear_status BlkHWPrefetchFlag →
  cache_inv W None c m → is_u64 a → is_u64 x → findBlock (tags c) a = Some i →
  ∃ b, blks (tags c) !! i = Some b ∧ getPrefetchBit (upd c (InTags i) f) x =
    if decide (blkAlign (geo (tags c)) x = blkAlign (geo (tags c)) a)
    then truthy (Z.land (status (f b)) BlkHWPrefetchFlag) else getPrefetchBit c x.
Proof.
  intros Hf Hok Ha Hx Hfa. destruct (set_bit W c m a i f Hf Hok Ha Hfa) as (_ & _ & Hfb & _).
  apply findBlock_holds in Hfa as Hh. destruct Hh as (st & Hst & Hi & Hk).
  destruct (set_member _ (ck_wf _ _ Hok) _ _ _ Hst Hi) as [b Hb]. exists b. split; [done|].
  unfold getPrefetchBit. rewrite Hfb by done. destruct (decide _) as [E|E].
  - rewrite (findBlock_block _ a x i) by (done || apply Hok). cbn. by rewrite list_lookup_alter_eq, Hb.
  - destruct (findBlock (tags c) x) as [j|] eqn:Ej; [|done].
    destruct (decide (j = i)) as [->|]; [|cbn; by rewrite list_lookup_alter_ne].
    exfalso. apply E. apply findBlock_holds in Ej, Hfa.
    by apply (holds_same_block (tags c) a x i); [apply Hok|..].
Qed.

Lemma set_flag_true s : truthy (Z.land (Z.lor s BlkHWPrefetchFlag) BlkHWPrefetchFlag) = true.
Proof.
  unfold truthy. rewrite Z.land_lor_distr_l. change (Z.land BlkHWPrefetchFlag BlkHWPrefetchFlag) with 64.
  destruct (Z.eqb_spec (Z.lor (Z.land s BlkHWPrefetchFlag) 64) 0) as [E|]; [|done].
  by apply Z.lor_eq_0_iff in E as [_ ?].
Qed.

Lemma clear_flag_false s : truthy (Z.land (Z.ldiff s BlkHWPrefetchFlag) BlkHWPrefetchFlag) = false.
Proof.
  unfold truthy. replace (Z.land _ _) with 0; [done|]. symmetry. apply Z.bits_inj'. intros k Hk.
  rewrite Z.land_spec, Z.ldiff_spec, Z.bits_0. destruct (Z.testbit BlkHWPrefetchFlag k), (Z.testbit s k); done.
Qed.

End PrefetchBits.

(** Setting or clearing the prefetch bit of an address is invisible to the
    processors and to the tag store: the invariant is kept, every byte and every
    hit stays the same; and it acts on exactly the addresses of that block, if it
    is cached, and on nothing otherwise. *)
Theorem prefetch_bits {S : Type} {V : ByteView S} W c (m : S) a x :
  cache_inv W None c m → is_u64 a → is_u64 x →
  let same := bool_decide (blkAlign (geo (tags c)) x = blkAlign (geo (tags c)) a) in
  (∀ c', c' = setPrefetchBit c a ∨ c' = clearPrefetchBit c a →
     cache_inv W None c' m ∧ cache_byte c' m x = cache_byte c m x ∧ inCache c' x = inCache c x) ∧
  getPrefetchBit (setPrefetchBit c a) x = getPrefetchBit c x || (same && inCache c x) ∧
  getPrefetchBit (clearPrefetchBit c a) x = getPrefetchBit c x && negb same.
Proof.
  intros Hok Ha Hx same. pose proof (ck_wf _ _ Hok) as Hw.
  split.
  { intros c' Hc'. unfold setPrefetchBit, clearPrefetchBit, inCache in *.
    destruct (findBlock (tags c) a) as [i|] eqn:Ei; [|by destruct Hc' as [-> | ->]].
    destruct Hc' as [-> | ->];
      [destruct (set_bit W c m a i (or_status BlkHWPrefetchFlag)) as (? & Hby & Hfb & _)
      |destruct (set_bit W c m a i (clear_status BlkHWPrefetchFlag)) as (? & Hby & Hfb & _)]; auto;
      split_and!; auto; by rewrite Hfb. }
  unfold setPrefetchBit, clearPrefetchBit. destruct (findBlock (tags c) a) as [i|] eqn:Ei.
  - destruct (bit_after W c m a i (or_status BlkHWPrefetchFlag) x) as (b & Hb & ->); auto.
    destruct (bit_after W c m a i (clear_status BlkHWPrefetchFlag) x) as (b' & Hb' & ->); auto.
    cbn [status or_status clear_status blk_set_status]. rewrite set_flag_true, clear_flag_false.
    unfold same, inCache. destruct (decide _) as [E|E].
    + rewrite bool_decide_eq_true_2 by done.
      rewrite (findBlock_block _ a x i), (bool_decide_eq_true_2 (is_Some _)) by (done || apply Hok).
      cbn. by rewrite orb_true_r, andb_false_r.
    + rewrite bool_decide_eq_false_2 by done. cbn. by rewrite orb_false_r, andb_true_r.
  - unfold same, inCache, getPrefetchBit. destruct (bool_decide_reflect
      (blkAlign (geo (tags c)) x = blkAlign (geo (tags c)) a)) as [E|E]; cbn;
      [|by rewrite orb_false_r, andb_true_r].
    destruct (findBlock (tags c) x) as [j|] eqn:Ej; [|done].
    by rewrite (findBlock_block _ x a j) in Ei by (done || apply Hok).
Qed.

(** The demonstration cache after the store to the block at 64. *)
Definition demo_filled : Cache * PhysicalMemory :=
  match @atomic_run (MemoryPort 0 0) demo_cache demo_mem (take 1 demo_requests) with
  | Some (_, c, m) => (c, m)
  | None => (demo_cache, demo_mem)
  end.

Lemma demo_filled_ok : cache_inv (V := mem_view 64) True None demo_filled.1 demo_filled.2.
Proof.
  assert (geometry_ok demo_geometry) as Hg by (eapply (make_geometry_ok _ 4 64 2 3); done).
  assert (cache_inv (V := mem_view 64) True None demo_cache demo_mem ∧
    ∀ x, cache_byte (V := mem_view 64) demo_cache demo_mem x = port_byte (ByteView := mem_view 64) demo_mem x)
    as [Hok Hby].
  { unfold demo_cache.
    apply (Cache_new_ok (V := mem_view 64) demo_geometry 1 4 3 0 (replicate 64 0) demo_mem); done. }
  destruct (atomic_run_ok (BM := MemoryPort_bytes 0 0 64 eq_refl) (take 1 demo_requests) demo_cache demo_mem Hok)
    as (ps & c & m & Hrun & Hok' & _).
  { apply Forall_cons_2; [|apply Forall_nil_2].
    apply (served_ext (BM := MemoryPort_bytes 0 0 64 eq_refl) _ (mem_byte demo_mem)); [done|intros x _; apply Hby|].
    apply demo_request_served; [set_solver|lia|cbn; lia|cbn; lia]. }
  unfold demo_filled. by rewrite Hrun.
Qed.

Lemma prefetch_bits_witness :
  let c := demo_filled.1 in
  inCache c 68 = true ∧
  getPrefetchBit (setPrefetchBit c 70) 68 =
    getPrefetchBit c 68 || (bool_decide (blkAlign (geo (tags c)) 68 = blkAlign (geo (tags c)) 70) &&
      inCache c 68) ∧
  getPrefetchBit (setPrefetchBit c 70) 68 = true.
Proof.
  split_and!; [vm_compute; reflexivity| |vm_compute; reflexivity].
  apply (prefetch_bits (V := mem_view 64) True demo_filled.1 demo_filled.2 70 68); [apply demo_filled_ok|done..].
Defined.

(** ** A dirty block that lost its write permission *)

Section FailedStoreConditional.
Context (rnd fin bs : Z) (Hbs : 0 < bs).
#[local] Existing Instance mem_view.
Abbreviation V := (mem_view bs).
Abbreviation Port := (MemoryPort rnd fin).

(** Looking up a block keeps its contents and its locks. *)
Lemma accessBlock_keeps s t a i lat s' b :
  accessBlock s t a = Some (Some i, lat, s') → blks s !! i = Some b →
  ∃ b', blks s' !! i = Some b' ∧ data b' = data b ∧ status b' = status b ∧ lockList b' = lockList b.
Proof.
  unfold accessBlock. intros H Hb. destruct (sets s !! _) as [st|]; [|done]. cbn [mbind option_bind] in H.
  destruct (CacheSet.findBlk _ _ _) as [j|]; [|done]. destruct (CacheSet.moveToHead st j) as [st'|]; [|done].
  cbn [mbind option_bind] in H. destruct (blks s !! j) as [bj|] eqn:Ej; [|done]. cbn [mbind option_bind] in H.
  injection H as -> _ <-. rewrite Hb in Ej. injection Ej as ->. eexists. split; [cbn; by rewrite list_lookup_alter_eq, Hb|done].
Qed.

(** The store-conditional does not find a writable block: it goes to the miss path. *)
Lemma access_unwritable t c m p i b :
  cache_inv (V := V) False None c m → asks (geo (tags c)) p (Packet.addr p) → findBlock (tags c) (Packet.addr p) = Some i →
  blks (tags c) !! i = Some b → isWritable b = false → Packet.needsExclusive p = true →
  ∃ lat c1 b1, cache_inv (V := V) False None c1 m ∧ same_contents (V := V) c c1 m ∧ blks (tags c1) !! i = Some b1 ∧
    data b1 = data b ∧ isWritable b1 = false ∧ lockList b1 = lockList b ∧
    access t c p = Some (mkAccess false (Some (InTags i)) lat [] c1 p).
Proof.
  intros Hok Hq Hf Hb Hnw Hne. pose proof (ask_u64 _ _ _ Hq) as Ha.
  destruct (lookup_block (V := V) False t c m _ i Hok Ha Hf) as (lat & s & b0 & Hacc & Hok1 & Hsame & Hb0).
  destruct (accessBlock_keeps _ _ _ _ _ _ b Hacc Hb) as (b1 & Hb1 & Ed & Es & El).
  assert (isWritable b1 = false) as Hnw1 by (unfold isWritable in *; by rewrite Es).
  destruct (stat_slot_ok (with_tags c s) p _ (Packet.addr p) (ck_cpus _ _ Hok1) Hq) as [k Hk].
  assert (∃ s2, incMissCount (with_tags c s) p (context_id p) = Some (with_stats (with_tags c s) s2)) as [s2 Hmiss]
    by (unfold incMissCount; rewrite Hk; by eexists).
  exists lat, (with_stats (with_tags c s) s2), b1. do 6 (split; [done || by apply cache_inv_stats|]).
  unfold access. rewrite (ask_cacheable _ _ _ Hq), (ask_addr _ _ _ Hq). cbn [mbind option_bind].
  rewrite Hacc. cbn [mbind option_bind]. rewrite Hb1. cbn [mbind option_bind]. rewrite Hne, Hnw1.
  unfold access_miss. rewrite decide_False by apply Hq. by rewrite Hmiss.
Qed.

(** A block that is not dirty is replaced without a writeback. *)
Lemma clean_replaced t2 c (m : PhysicalMemory) i b a wbs s :
  cache_inv (V := V) False (Some i) c m → blks (tags c) !! i = Some b → isDirty b = false → findVictim (tags c) a = Some (i, s) →
  allocateBlock t2 c a wbs = Some (Some i, wbs, with_tags c s).
Proof.
  intros Hok Hb Hd Hv. unfold allocateBlock. rewrite Hv. cbn [mbind option_bind]. unfold findVictim in Hv.
  destruct (sets (tags c) !! _) as [st|]; [|done]. cbn [mbind option_bind] in Hv. destruct (st !! _) as [j|]; [|done].
  cbn [mbind option_bind] in Hv. destruct (blks (tags c) !! j) as [bj|] eqn:Ej; [|done]. cbn [mbind option_bind] in Hv.
  assert (∃ b2, blks s !! i = Some b2 ∧ status b2 = status b) as (b2 & -> & Es).
  { destruct (isValid bj); injection Hv as -> <-; rewrite Hb in Ej; injection Ej as <-; [|by exists b].
    eexists. split; [cbn; by rewrite !list_lookup_alter_eq, Hb|done]. }
  cbn [mbind option_bind]. assert (isDirty b2 = false) as Hd2 by (unfold isDirty in *; by rewrite Es).
  destruct (isValid b2); [|done]. cbn [mshrQueue heap with_tags]. unfold findMatch. rewrite (ck_queue _ _ Hok). cbn. by rewrite Hd2.
Qed.

(** The store-conditional fails on the block it has got the permission for. *)
Lemma satisfy_failed c (m : PhysicalMemory) p i b :
  cache_inv (V := V) False (Some i) c m → cpu_request (blkSize (geo (tags c))) p → Packet.cmd p = StoreCondReq →
  findBlock (tags c) (Packet.addr p) = Some i → blks (tags c) !! i = Some b →
  (∀ cid tid, Request.context (Packet.req p) = Some (cid, tid) → cid ∉ lockList b) →
  satisfyCpuSideRequest c p (InTags i) =
    Some (upd c (InTags i) (λ _, clearLoadLocks b), Packet.set_req p (Request.setExtraData (Packet.req p) 0)).
Proof.
  intros Hok Hrq Hc Hf Hb Hlk. pose proof (ck_wf _ _ Hok) as (Hg & _). pose proof (rq_u64 _ _ Hrq) as Ha.
  destruct (block_arith _ Hg _ Ha) as (Eo & _ & Hp & _). pose proof (rq_block _ _ Hrq) as Hin.
  unfold satisfyCpuSideRequest. cbn [get_blk]. rewrite Hb. cbn [mbind option_bind].
  rewrite (ck_size _ _ Hok), (getOffset_block _ Hg p Ha (rq_addr _ _ Hrq)). cbn [mbind option_bind].
  rewrite (rq_size _ _ Hrq). cbn [mbind option_bind]. rewrite Eo, (proj2 (Z.ltb_ge _ _)) by lia.
  rewrite decide_False by (by rewrite Hc). assert (Packet.isWrite p = true) as -> by (unfold Packet.isWrite; by rewrite Hc).
  unfold checkWrite. assert (Packet.isLLSC p = true) as -> by (unfold Packet.isLLSC; by rewrite Hc).
  destruct (rq_context _ _ Hrq) as (cid & tid & Hctx & _). specialize (Hlk cid tid Hctx).
  assert (∃ ctx, (match lockList b with [] => Some (0, 0) | _ => Request.context (Packet.req p) end) = Some ctx ∧
    existsb (λ c, c =? ctx.1) (lockList b) = false) as (ctx & -> & He).
  { destruct (lockList b) as [|l0 ls] eqn:El; [by eexists|]. exists (cid, tid). split; [done|].
    apply not_true_is_false. intros (x & Hx & Ex)%existsb_exists. apply Hlk. zbool. subst x. by apply list_elem_of_In. }
  cbn [mbind option_bind]. rewrite He. cbn [mbind option_bind]. done.
Qed.

End FailedStoreConditional.

(** C37. A store-conditional that fails loses data.  Let a cache in front of the physical
    memory hold a block that is dirty and that it may not write, as it does after another
    cache has read the block.  A store-conditional of a processor that has no lock on the
    block asks for the permission, which resets the status of the block with the dirty
    bit.  Then it fails and writes nothing, so nothing sets the bit again: the block keeps
    its bytes and the memory keeps the old ones, but the block is clean, and whenever it
    is chosen as a victim it is replaced without a writeback. *)
Theorem failed_store_conditional_loses_data rnd fin bs t c (m : PhysicalMemory) p i b :
  cache_inv (V := mem_view bs) False None c m → cpu_request (blkSize (geo (tags c))) p →
  Packet.cmd p = StoreCondReq → findBlock (tags c) (Packet.addr p) = Some i → blks (tags c) !! i = Some b →
  isDirty b = true → isWritable b = false →
  (∀ cid tid, Request.context (Packet.req p) = Some (cid, tid) → cid ∉ lockList b) →
  ∃ p' lat c' b', @atomicAccess (MemoryPort rnd fin) t c p m = Some (p', lat, c', m) ∧
    Request.extraData (Packet.req p') = Some 0 ∧
    findBlock (tags c') (Packet.addr p) = Some i ∧ blks (tags c') !! i = Some b' ∧ data b' = data b ∧ isDirty b' = false ∧
    ∀ t2 a wbs s, findVictim (tags c') a = Some (i, s) → allocateBlock t2 c' a wbs = Some (Some i, wbs, with_tags c' s).
Proof.
  intros Hok Hrq Hc Hf Hb Hd Hnw Hlk. pose proof (cpu_asks _ _ Hrq) as Hq. pose proof (rq_u64 _ _ Hrq) as Ha.
  assert (Packet.needsExclusive p = true) as Hne by (unfold Packet.needsExclusive; by rewrite Hc).
  destruct (access_unwritable bs t c m p i b Hok Hq Hf Hb Hnw Hne)
    as (lat & c1 & b1 & Hok1 & (Hg1 & Hf1 & _ & _) & Hb1 & Ed1 & Hnw1 & El1 & Hacc).
  specialize (Hf1 (Packet.addr p) Ha). rewrite Hf in Hf1. rewrite <- Hg1 in Hq, Hrq.
  apply findBlock_holds in Hf1 as Hh1.
  destruct (getBusPacket_ok (V := mem_view bs) False t c1 m p (Packet.addr p) (Some (InTags i)) Hok1 Hq) as (q & Hbus & Hds).
  { cbn [mbind option_bind get_blk]. rewrite Hb1. split_and!; try done. by apply (holds_valid _ _ _ _ Hh1). }
  cbn [mbind option_bind get_blk] in Hds. rewrite Hb1 in Hds.
  assert (Packet.isLLSC p = true) as Hll by (unfold Packet.isLLSC; by rewrite Hc). rewrite Hll in Hds.
  pose proof (good_present _ _ _ _ _ _ (ck_blocks _ _ Hok1 _ i b1 Ha Hh1 Hb1)) as Hpr. pose proof (ck_bs _ _ Hok1) as Hpb.
  pose proof Hds as [Qc _ Qt _ Qs _]. rewrite Hpb in Hpr.
  destruct (memory_upgrade rnd fin t q m _ _ _ (ck_port _ _ Hok1) (or_intror Qc) Qt Hpr) as (q' & l & fin' & Hrecv & Hrs & Rsh & Rmi).
  destruct (@fill_upgrade _ (mem_view bs) (MemoryPort rnd fin) False t c1 m p (Packet.addr p) i b1 lat SCUpgradeReq q q' l fin' m m)
    as (c2 & Hok2 & Hg2 & Hf2 & _ & _ & (b2 & Hb2 & Ed2 & El2 & Edy) & Hmiss); try done.
  { by apply cache_inv_exempt. }
  { by right. }
  { by rewrite Rsh. }
  specialize (Hf2 (Packet.addr p) Ha). rewrite Hf1 in Hf2. rewrite <- Hg2 in Hrq.
  pose proof Qt as (_ & _ & _ & _ & _ & _ & Qi). rewrite Rmi, Qi in Edy.
  pose proof (satisfy_failed bs c2 m p i b2 Hok2 Hrq Hc Hf2 Hb2) as Hsat. rewrite El2, El1 in Hsat. specialize (Hsat Hlk).
  set (c3 := upd c2 (InTags i) (λ _, clearLoadLocks b2)) in *. set (p1 := Packet.set_req p _) in *.
  assert (Packet.needsResponse p1 = true) as Hnr by (unfold Packet.needsResponse; cbn; by rewrite Hc).
  destruct (Packet.makeResponse_total p1 Hnr) as [p' Hp']. pose proof (makeResponse_keeps _ _ Hp') as (_ & _ & _ & Hreq & _).
  destruct (req_locks (V := mem_view bs) False (Some i) c2 m i b2 Hok2 Hb2 (λ _, clearLoadLocks b2) eq_refl)
    as [Hok3 (_ & Hf3 & _)].
  assert (blks (tags c3) !! i = Some (clearLoadLocks b2)) as Hb3 by (cbn; by rewrite list_lookup_alter_eq, Hb2).
  eexists p', _, c3, (clearLoadLocks b2). split_and!; try done.
  - unfold atomicAccess. rewrite (rq_inhibit _ _ Hrq), Hacc. cbn [mbind option_bind satisfied]. rewrite Hmiss.
    cbn [mbind option_bind]. rewrite Hsat. cbn [mbind option_bind send_writebacks]. unfold respond_if_needed. rewrite Hnr, Hp'.
    cbn [mbind option_bind]. reflexivity.
  - by rewrite Hreq.
  - rewrite Hf3 by done. done.
  - cbn. by rewrite Ed2, Ed1.
  - intros t2 a wbs s Hv. by apply (clean_replaced bs t2 c3 m i (clearLoadLocks b2)).
Qed.

(** The demonstration cache after the store, when the block may not be written any more. *)
Definition demo_owned : Cache := upd demo_filled.1 (InTags 3) (clear_status BlkWritable).

(** Nothing but the permission is lost. *)
Lemma lose_permission {S} {W : ByteView S} c (m : S) a i b :
  cache_inv True None c m → is_u64 a → findBlock (tags c) a = Some i → blks (tags c) !! i = Some b →
  isReadable (clear_status BlkWritable b) = true → isValid (clear_status BlkWritable b) = true →
  isDirty (clear_status BlkWritable b) = true → cache_inv False None (upd c (InTags i) (clear_status BlkWritable)) m.
Proof.
  intros Hok Ha Hf Hb Hr Hv Hd. assert (cache_inv False None c m) as Hok1.
  { split; try apply Hok. intros a' i' b' Ha' Hh Hb'. by destruct (ck_blocks _ _ Hok a' i' b' Ha' Hh Hb'). }
  apply (set_block False None None c m a i b (clear_status BlkWritable)); auto; try done.
Qed.

Lemma demo_owned_ok : cache_inv (V := mem_view 64) False None demo_owned demo_filled.2.
Proof.
  assert (match blks (tags demo_filled.1) !! 3%nat with
    | Some b => isReadable (clear_status BlkWritable b) && isValid (clear_status BlkWritable b) && isDirty (clear_status BlkWritable b)
    | None => false end = true) as Hs by (vm_compute; reflexivity).
  assert (findBlock (tags demo_filled.1) 68 = Some 3%nat) as Hf by (vm_compute; reflexivity).
  pose proof demo_filled_ok as Hok. unfold demo_owned. revert Hs Hf Hok. generalize demo_filled. intros [c m] Hs Hf Hok. cbn in *.
  destruct (blks (tags c) !! 3%nat) as [b|] eqn:Hb; [|done]. apply andb_true_iff in Hs as [[Hr Hv]%andb_true_iff Hd].
  by apply (lose_permission c m 68 3 b).
Qed.

Definition demo_sc : Packet.t := demo_request StoreCondReq 68 [5; 5; 5; 5].

Lemma demo_sc_request : cpu_request (blkSize (geo (tags demo_owned))) demo_sc.
Proof. apply demo_request_served; [set_solver|lia|cbn; lia|cbn; lia]. Qed.

Lemma failed_store_conditional_loses_data_witness :
  ∃ p' lat c' b', @atomicAccess (MemoryPort 0 0) 30 demo_owned demo_sc demo_filled.2 = Some (p', lat, c', demo_filled.2) ∧
    Request.extraData (Packet.req p') = Some 0 ∧
    blks (tags c') !! 3%nat = Some b' ∧ firstn 8 (data b') = [7; 7; 7; 7; 1; 2; 3; 4] ∧ isDirty b' = false.
Proof.
  assert (findBlock (tags demo_owned) (Packet.addr demo_sc) = Some 3%nat) as Hf by (vm_compute; reflexivity).
  assert (∃ b, blks (tags demo_owned) !! 3%nat = Some b ∧ isDirty b = true ∧ isWritable b = false ∧ lockList b = [] ∧
    firstn 8 (data b) = [7; 7; 7; 7; 1; 2; 3; 4]) as (b & Hb & Hd & Hw & Hl & Hdat)
    by (eexists; split_and!; vm_compute; reflexivity).
  pose proof demo_owned_ok as Hok. pose proof demo_sc_request as Hrq.
  revert Hf Hb Hok Hrq. generalize demo_owned demo_filled. intros c [c0 m] Hf Hb Hok Hrq. cbn in Hok |- *.
  destruct (failed_store_conditional_loses_data 0 0 64 30 c m demo_sc 3 b)
    as (p' & lat & c' & b' & E & Hx & _ & Hb' & Ed & Hd' & _); [exact Hok|exact Hrq|reflexivity|exact Hf|exact Hb|exact Hd|exact Hw| |].
  - intros cid tid _. rewrite Hl. apply not_elem_of_nil.
  - exists p', lat, c', b'. split; [exact E|]. split; [exact Hx|]. split; [exact Hb'|]. split; [by rewrite Ed|exact Hd'].
Defined.

(** The same from the requests of processors: a read of the whole block takes the write
    permission, the store-conditional fails, the block is replaced and the next read
    returns the old bytes of the memory.  Without the store-conditional the bytes written
    are read back. *)
Definition owned_requests (sc : list (Z * Packet.t)) : list (Z * Packet.t) :=
  [(10, demo_request WriteReq 68 [1; 2; 3; 4]); (20, demo_request ReadReq 64 (replicate 64 0))] ++ sc ++
  [(40, demo_request ReadReq 324 [0; 0]); (50, demo_request ReadReq 580 [0]);
   (60, demo_request ReadReq 68 [0; 0; 0; 0])].

(** The result of the last request. *)
Definition last_answer (rs : list (Z * Packet.t)) : option (list Z) :=
  '(ps, _, _) ← @atomic_run (MemoryPort 0 0) demo_cache demo_mem rs;
  p ← last ps; Packet.data p.

Example bytes_lost :
  last_answer (owned_requests []) = Some [1; 2; 3; 4] ∧
  last_answer (owned_requests [(30, demo_request StoreCondReq 68 [5; 5; 5; 5])]) = Some [7; 7; 7; 7].
Proof. split; vm_compute; reflexivity. Qed.
