(* ===== verification/CacheTiming.v ===== *)
(** The cache controller in timing mode, [src/m5/src/mem/cache/cache_impl.hh],
    [base.hh] and [base.cc] ([Cache<LRU>], [BaseCache]).

    The controller is the one of the atomic mode ([CacheCtl]) with a write buffer, two
    ports, the state of being blocked and a prefetcher.  What is connected to the ports is
    an instance of [TimingPeers].  A packet is a value: the request of a packet that was
    sent on is the request of the target it was made from, so the response brings its
    present contents back ([share_request]).  The sender state of a packet is the number of
    a register or of a [ForwardResponseRecord], which have numbers of their own.  Counters
    of statistics that nothing reads, and trace messages, are left out; a failed assertion
    and a [panic] are [None]. *)

From S2P Require Import Prelude IntMath PfInterface Packet CacheBlk Lru Mshr MshrQueue PfQueue PhysMem CacheCtl TPort.

(** ** State *)

(** [BaseCache::CachePort]; [retryEvents] are the ticks of the [SendRetryEvent]s. *)
Record CachePort := mkPort {
  port : TPort;
  p_blocked : bool;
  mustSendRetry : bool;
  retryEvents : list Z
}.

Definition CachePort_new : CachePort := mkPort TPort_new false false [].
Definition with_port (p : CachePort) (tp : TPort) : CachePort := mkPort tp (p_blocked p) (mustSendRetry p) (retryEvents p).
Definition with_block (p : CachePort) (b m : bool) (ev : list Z) : CachePort := mkPort (port p) b m ev.

(** [MSHRQueueIndex] *)
Inductive QIndex := MSHRs | WriteBuffer.

(** [BlockedCause] *)
Inductive BlockedCause := NoMSHRs | NoWBBuffers | NoTargets.
Definition cause_bit (b : BlockedCause) : Z := match b with NoMSHRs => 0 | NoWBBuffers => 1 | NoTargets => 2 end.
Definition cause_of (i : QIndex) : BlockedCause := match i with MSHRs => NoMSHRs | WriteBuffer => NoWBBuffers end.

(** The parts that the configuration fixes. *)
Record TConfig := mkConfig {
  numTarget : Z;
  forwardSnoops : bool;
  prefetchOnAccess : bool;
  pf_params : PfParams;
  ms : Z
}.

Record TCache (S : Type) := mkTCache {
  core : Cache;
  writeBuffer : MSHRQueue;
  blocked : Z;
  order : Z;
  noTargetMSHR : option nat;
  prefetcher : option (PfState S);
  cpuSidePort : CachePort;
  memSidePort : CachePort;
  records : gmap nat (option nat * Z)
}.
Arguments mkTCache {S}.
Arguments core {S}.
Arguments writeBuffer {S}.
Arguments blocked {S}.
Arguments order {S}.
Arguments noTargetMSHR {S}.
Arguments prefetcher {S}.
Arguments cpuSidePort {S}.
Arguments memSidePort {S}.
Arguments records {S}.

(** What is connected to the two ports.  [cpu_send] delivers a response to the cpu side,
    which may send requests before it returns; [cpu_snoop] an express snoop; [cpu_retry]
    asks for the requests that were refused, and [cpu_told] is the answer to a request.
    [mem_send] delivers a packet to the memory side. *)
Class TimingPeers (D : Type) := {
  cpu_send : Z → Packet.t → D → option (bool * list Packet.t * D);
  cpu_snoop : Z → Packet.t → D → option (Packet.t * D);
  cpu_retry : Z → D → option (list Packet.t * D);
  cpu_told : Z → Packet.t → bool → D → D;
  mem_send : Z → Packet.t → D → option (bool * Packet.t * D)
}.

Section Setters.
Context {S : Type}.
Implicit Types c : TCache S.

Definition with_core c (x : Cache) : TCache S :=
  mkTCache x (writeBuffer c) (blocked c) (order c) (noTargetMSHR c) (prefetcher c) (cpuSidePort c) (memSidePort c) (records c).
Definition with_wb c (q : MSHRQueue) : TCache S :=
  mkTCache (core c) q (blocked c) (order c) (noTargetMSHR c) (prefetcher c) (cpuSidePort c) (memSidePort c) (records c).
Definition with_blocked c (b : Z) : TCache S :=
  mkTCache (core c) (writeBuffer c) b (order c) (noTargetMSHR c) (prefetcher c) (cpuSidePort c) (memSidePort c) (records c).
Definition with_order c (o : Z) : TCache S :=
  mkTCache (core c) (writeBuffer c) (blocked c) o (noTargetMSHR c) (prefetcher c) (cpuSidePort c) (memSidePort c) (records c).
Definition with_noTarget c (m : option nat) : TCache S :=
  mkTCache (core c) (writeBuffer c) (blocked c) (order c) m (prefetcher c) (cpuSidePort c) (memSidePort c) (records c).
Definition with_prefetcher c (p : option (PfState S)) : TCache S :=
  mkTCache (core c) (writeBuffer c) (blocked c) (order c) (noTargetMSHR c) p (cpuSidePort c) (memSidePort c) (records c).
Definition with_cpu c (p : CachePort) : TCache S :=
  mkTCache (core c) (writeBuffer c) (blocked c) (order c) (noTargetMSHR c) (prefetcher c) p (memSidePort c) (records c).
Definition with_mem c (p : CachePort) : TCache S :=
  mkTCache (core c) (writeBuffer c) (blocked c) (order c) (noTargetMSHR c) (prefetcher c) (cpuSidePort c) p (records c).
Definition with_records c (r : gmap nat (option nat * Z)) : TCache S :=
  mkTCache (core c) (writeBuffer c) (blocked c) (order c) (noTargetMSHR c) (prefetcher c) (cpuSidePort c) (memSidePort c) r.

(** The heap of registers and one of the two queues. *)
Definition set_hq (x : Cache) (h : Heap) (q : MSHRQueue) : Cache :=
  mkCache (tags x) (tempBlock x) h q (c_blkSize x) (c_hitLatency x) (c_numCpus x) (c_stats x).
Definition with_heap c (h : Heap) : TCache S := with_core c (set_hq (core c) h (mshrQueue (core c))).
Definition get_queue c (i : QIndex) : MSHRQueue := match i with MSHRs => mshrQueue (core c) | WriteBuffer => writeBuffer c end.
Definition with_queue c (i : QIndex) (h : Heap) (q : MSHRQueue) : TCache S :=
  match i with
  | MSHRs => with_core c (set_hq (core c) h q)
  | WriteBuffer => with_wb (with_heap c h) q
  end.

(** [mshr->queue] *)
Definition queue_of c (id : nat) : QIndex :=
  if bool_decide (id ∈ registers (mshrQueue (core c))) then MSHRs else WriteBuffer.

End Setters.

Definition set_isForward (m : MSHR) (b : bool) : MSHR :=
  mkMSHR (readyTime m) (Mshr.order m) (addr m) (Mshr.size m) (inService m) b (isUncacheable m)
    (downstreamPending m) (pendingInvalidate m) (pendingShared m) (threadNum m) (ntargets m) (targets m)
    (deferredTargets m).
Definition set_threadNum (m : MSHR) (t : Z) : MSHR :=
  mkMSHR (readyTime m) (Mshr.order m) (addr m) (Mshr.size m) (inService m) (isForward m) (isUncacheable m)
    (downstreamPending m) (pendingInvalidate m) (pendingShared m) t (ntargets m) (targets m) (deferredTargets m).

(** The packet of the first target is replaced. *)
Definition set_first (m : MSHR) (p : Packet.t) : MSHR :=
  match items (targets m) with
  | [] => m
  | t :: ts =>
      set_lists m (ntargets m)
        (mkTargetList
           (mkTarget (recvTime t) (t_readyTime t) (t_order t) p (source t) (markedPending t) (t_needsResponse t) :: ts)
           (tl_needsExclusive (targets m)) (hasUpgrade (targets m)))
        (deferredTargets m)
  end.

Section Timing.
Context {E : PfEngine} (K : TConfig).
Implicit Types c : TCache pstate.

(** [order++] gives the numbers of requests; a run in which they wrap is not modelled. *)
Definition next_order (o : Z) : option Z := if o + 1 <? 2 ^ 64 then Some (o + 1) else None.

(** Neither are registers with so many targets that their counter, a [short], would
    wrap. *)
Definition has_room (m : MSHR) : bool := num_targets m <? 2 ^ 15 - 1.

(** ** Blocking *)

Definition port_setBlocked (p : CachePort) : option CachePort :=
  if p_blocked p then None else Some (with_block p true false (retryEvents p)).

Definition port_clearBlocked (curTick : Z) (p : CachePort) : option CachePort :=
  if p_blocked p then
    Some (if mustSendRetry p then with_block p false false (retryEvents p ++ [s64 (curTick + 1)])
          else with_block p false false (retryEvents p))
  else None.

Definition setBlocked (cause : BlockedCause) c : option (TCache pstate) :=
  c ← (if blocked c =? 0 then p ← port_setBlocked (cpuSidePort c); Some (with_cpu c p) else Some c);
  Some (with_blocked c (Z.lor (blocked c) (Z.shiftl 1 (cause_bit cause)))).

Definition clearBlocked (curTick : Z) (cause : BlockedCause) c : option (TCache pstate) :=
  let c := with_blocked c (Z.ldiff (blocked c) (Z.shiftl 1 (cause_bit cause))) in
  if blocked c =? 0 then p ← port_clearBlocked curTick (cpuSidePort c); Some (with_cpu c p) else Some c.

(** [requestMemSideBus], [requestBus] *)
Definition requestMemSideBus (curTick time : Z) c : option (TCache pstate) :=
  let p := memSidePort c in
  if waitingOnRetry (port p) then Some c
  else tp ← schedSendEvent curTick time (port p); Some (with_mem c (with_port p tp)).

(** [respond] of the two ports. *)
Definition cpu_respond (curTick : Z) (p : Packet.t) (time : Z) c : option (TCache pstate) :=
  tp ← schedSendTiming (ms K) curTick p time (port (cpuSidePort c)); Some (with_cpu c (with_port (cpuSidePort c) tp)).
Definition mem_respond (curTick : Z) (p : Packet.t) (time : Z) c : option (TCache pstate) :=
  tp ← schedSendTiming (ms K) curTick p time (port (memSidePort c)); Some (with_mem c (with_port (memSidePort c) tp)).

(** ** Buffers *)

Definition blockAlign c (a : Z) : Z := Z.land a (u64 (Z.lnot (c_blkSize (core c) - 1))).

(** [allocateBufferInternal] *)
Definition allocateBuffer (curTick : Z) (i : QIndex) (a sz : Z) (p : Packet.t) (time : Z) (requestBus : bool) c
    : option (nat * TCache pstate) :=
  '(h, q, id) ← q_allocate (heap (core c)) (get_queue c i) curTick a sz p time (order c);
  o ← next_order (order c);
  let c := with_order (with_queue c i h q) o in
  c ← (if isFull q then setBlocked (cause_of i) c else Some c);
  c ← (if requestBus then requestMemSideBus curTick time c else Some c);
  Some (id, c).

Definition allocateMissBuffer (curTick : Z) (p : Packet.t) (time : Z) (requestBus : bool) c : option (nat * TCache pstate) :=
  if Request.isUncacheable (Packet.req p) then None
  else
    a ← Packet.getAddr p;
    allocateBuffer curTick MSHRs (blockAlign c a) (c_blkSize (core c)) p time requestBus c.

Definition allocateWriteBuffer (curTick : Z) (p : Packet.t) (time : Z) (requestBus : bool) c : option (nat * TCache pstate) :=
  if Packet.isWrite p && negb (Packet.isRead p) then
    a ← Packet.getAddr p;
    sz ← Packet.getSize p;
    allocateBuffer curTick WriteBuffer a sz p time requestBus c
  else None.

Definition allocateUncachedReadBuffer (curTick : Z) (p : Packet.t) (time : Z) (requestBus : bool) c
    : option (nat * TCache pstate) :=
  if Request.isUncacheable (Packet.req p) && Packet.isRead p then
    a ← Packet.getAddr p;
    sz ← Packet.getSize p;
    allocateBuffer curTick MSHRs a sz p time requestBus c
  else None.

(** The writebacks of an access go to the write buffer. *)
Fixpoint buffer_writebacks (curTick time : Z) (wbs : list Packet.t) c : option (TCache pstate) :=
  match wbs with
  | [] => Some c
  | wb :: wbs => '(_, c) ← allocateWriteBuffer curTick wb time true c; buffer_writebacks curTick time wbs c
  end.

(** [markInServiceInternal] *)
Definition markInService (curTick : Z) (id : nat) c : option (TCache pstate) :=
  let i := queue_of c id in
  let wasFull := isFull (get_queue c i) in
  '(h, q) ← q_markInService (heap (core c)) (get_queue c i) id;
  let c := with_queue c i h q in
  if wasFull && negb (isFull q) then clearBlocked curTick (cause_of i) c else Some c.

(** [squash]; the cause is that of the queue when it is full. *)
Definition cache_squash (curTick : Z) (thread : Z) c : option (TCache pstate) :=
  noTarget ← (match noTargetMSHR c with
              | Some id => m ← heap (core c) !! id; Some (threadNum m =? thread)
              | None => Some false
              end);
  let c := if (noTarget : bool) then with_noTarget c None else c in
  let full := isFull (mshrQueue (core c)) in
  '(h, q) ← MshrQueue.squash (heap (core c)) (mshrQueue (core c)) thread;
  let c := with_queue c MSHRs h q in
  if (noTarget || full) && negb (isFull q)
  then clearBlocked curTick (if full then NoMSHRs else NoTargets) c else Some c.

(** ** The prefetcher *)

Definition cache_view c : CacheView := mkCacheView (inCache (core c)) (inMissQueue (core c)) (getPrefetchBit (core c)).

(** The calls of a prefetcher that set and clear bits of blocks. *)
Definition apply_call (x : Cache) (call : SimCall) : Cache :=
  match call with
  | IssuePrefetch _ => x
  | SetPrefetchBit a => setPrefetchBit x a
  | ClearPrefetchBit a => clearPrefetchBit x a
  end.
Definition apply_calls c (calls : list SimCall) : TCache pstate := with_core c (foldl apply_call (core c) calls).

Definition pf_notify (curTick : Z) (p : Packet.t) (time : Z) (s : PfState pstate) c : option (Z * TCache pstate) :=
  '(s, calls, next) ← PfQueue.notify (pf_params K) (cache_view c) curTick p time s;
  Some (next, apply_calls (with_prefetcher c (Some s)) calls).

(** ** Requests from the cpu side *)

(** A hit: the time of the next prefetch and the cache. *)
Definition timing_satisfied (curTick time : Z) (r : AccessResult) (needsResponse : bool) c : option (Z * TCache pstate) :=
  let p := ac_pkt r in
  let was c := match (r ← ac_blk r; get_blk (core c) r) with Some b => wasPrefetched b | None => false end in
  '(next, c) ←
    (match prefetcher c with
     | Some s =>
         if prefetchOnAccess K || was c then
           '(next, c) ← pf_notify curTick p time s c;
           Some (next, match ac_blk r with
                       | Some b => if was c then with_core c (upd (core c) b (clear_status BlkHWPrefetched)) else c
                       | None => c
                       end)
         else Some (0, c)
     | None => Some (0, c)
     end);
  if needsResponse then
    p ← Packet.makeResponse p; c ← cpu_respond curTick p (s64 (curTick + ac_lat r)) c; Some (next, c)
  else Some (next, c).

(** A miss for which a register is allocated already. *)
Definition mshr_hit (curTick time : Z) (id : nat) (p : Packet.t) c : option (TCache pstate) :=
  m ← heap (core c) !! id;
  let c := if threadNum m =? 0 then c else with_heap c (<[id := set_threadNum m (-1)]> (heap (core c))) in
  h ← (if has_room m then allocateTarget (heap (core c)) id curTick p time (order c) else None);
  o ← next_order (order c);
  let c := with_order (with_heap c h) o in
  m ← h !! id;
  if ntargets m =? numTarget K then setBlocked NoTargets (with_noTarget c (Some id)) else Some c.

(** A miss without one. *)
Definition mshr_miss (curTick time : Z) (r : AccessResult) c : option (TCache pstate) :=
  let p := ac_pkt r in
  if decide (Packet.cmd p = Writeback) then '(_, c) ← allocateWriteBuffer curTick p time true c; Some c
  else
    c ← (match ac_blk r with
         | Some b =>
             blk ← get_blk (core c) b;
             if isValid blk then
               if Packet.needsExclusive p && negb (isWritable blk)
               then Some (with_core c (upd (core c) b (clear_status BlkReadable))) else None
             else Some c
         | None => Some c
         end);
    '(_, c) ← allocateMissBuffer curTick p time true c; Some c.

Definition timing_miss (curTick time : Z) (r : AccessResult) c : option (Z * TCache pstate) :=
  let p := ac_pkt r in
  a ← Packet.getAddr p;
  match findMatch (heap (core c)) (mshrQueue (core c)) (blockAlign c a) with
  | Some id => c ← mshr_hit curTick time id p c; Some (0, c)
  | None =>
      c ← mshr_miss curTick time r c;
      match prefetcher c with
      | Some s => pf_notify curTick p time s c
      | None => Some (0, c)
      end
  end.

(** A request that is cached. *)
Definition timing_cached (curTick time : Z) (p : Packet.t) c : option (TCache pstate) :=
  r ← access curTick (core c) p;
  let c := with_core c (ac_cache r) in
  let needsResponse := Packet.needsResponse (ac_pkt r) in
  '(next, c) ← (if satisfied r then timing_satisfied curTick time r needsResponse c else timing_miss curTick time r c);
  c ← (if next =? 0 then Some c else requestMemSideBus curTick (Z.max time next) c);
  buffer_writebacks curTick time (ac_wbs r) c.

Definition timing_uncacheable (curTick time : Z) (p : Packet.t) c : option (TCache pstate) :=
  '(_, c) ← (if Packet.isWrite p && negb (Packet.isRead p)
             then allocateWriteBuffer curTick p time true c else allocateUncachedReadBuffer curTick p time true c);
  if Packet.needsResponse p then Some c else None.

(** A response of a cache above to a snoop, on its way down. *)
Definition timing_response (curTick time : Z) (p : Packet.t) c : option (TCache pstate) :=
  rid ← Packet.sender p;
  '(prevSender, prevSrc) ← records c !! rid;
  let c := with_records c (delete rid (records c)) in
  mem_respond curTick (Packet.setDest (Packet.set_sender p prevSender) prevSrc) time c.

Context {D : Type} {N : TimingPeers D}.

(** A request for which another cache has promised to respond. *)
Definition timing_inhibited (curTick : Z) (p : Packet.t) c (d : D) : option (TCache pstate * D) :=
  if Request.isUncacheable (Packet.req p) then None
  else if Packet.needsExclusive p && negb (Packet.isSupplyExclusive p) then
    let snoopPkt := Packet.assertMemInhibit (Packet.setExpressSnoop (Packet.copy curTick p true)) in
    '(_, _, d) ← mem_send curTick snoopPkt d; Some (c, d)
  else Some (c, d).

Definition timingAccess (curTick : Z) (p : Packet.t) c (d : D) : option (TCache pstate * D) :=
  let time := s64 (curTick + c_hitLatency (core c)) in
  if Packet.isResponse p then c ← timing_response curTick time p c; Some (c, d)
  else if negb (Packet.isRequest p) then None
  else if Packet.memInhibitAsserted p then timing_inhibited curTick p c d
  else if Request.isUncacheable (Packet.req p) then c ← timing_uncacheable curTick time p c; Some (c, d)
  else c ← timing_cached curTick time p c; Some (c, d).

(** [CpuSidePort::recvTiming] *)
Definition cpu_recvTiming (curTick : Z) (p : Packet.t) c (d : D) : option (bool * TCache pstate * D) :=
  if Packet.isRequest p && negb (Packet.memInhibitAsserted p) && p_blocked (cpuSidePort c) then
    let q := cpuSidePort c in
    Some (false, with_cpu c (with_block q (p_blocked q) true (retryEvents q)), d)
  else '(c, d) ← timingAccess curTick p c d; Some (true, c, d).

(** ** Snoops *)

(** [doTimingSupplyResponse] *)
Definition doTimingSupplyResponse (curTick : Z) (p : Packet.t) (blk_data : list Z) (already_copied pending_inval : bool) c
    : option (TCache pstate) :=
  if negb (Packet.isInvalidate p || Packet.sharedAsserted p) then None
  else
    let q := if already_copied then p else Packet.copy curTick p false in
    q ← Packet.allocate (replicate (Z.to_nat (Packet.size q)) 0) q;
    q ← Packet.makeResponse q;
    q ← (if Packet.isRead q then Packet.setDataFromBlock q blk_data (c_blkSize (core c)) else Some q);
    let q := if bool_decide (Packet.cmd q = ReadResp) && pending_inval then Packet.set_cmd q ReadRespWithInvalidate else q in
    mem_respond curTick q (s64 (curTick + c_hitLatency (core c))) c.

(** The first half of [handleSnoop]: the caches above are asked. *)
Definition snoop_up (curTick : Z) (p : Packet.t) c (d : D) : option (Packet.t * TCache pstate * D) :=
  src ← Packet.getSrc p;
  let rid := fresh (dom (heap (core c)) ∪ dom (records c)) in
  let sp := Packet.set_sender (Packet.setExpressSnoop (Packet.copy curTick p true)) (Some rid) in
  '(sp, d) ← cpu_snoop curTick sp d;
  '(p, c) ←
    (if Packet.memInhibitAsserted sp then
       if Packet.memInhibitAsserted p then None
       else Some (Packet.assertMemInhibit p, with_records c (<[rid := (Packet.sender p, src)]> (records c)))
     else Some (p, c));
  Some (if Packet.sharedAsserted sp then Packet.assertShared p else p, c, d).

(** The second half: what happens to the block. *)
Definition snoop_block (curTick : Z) (p : Packet.t) (blk : BlkRef) (is_deferred pending_inval : bool) c
    : option (Packet.t * TCache pstate) :=
  b ← get_blk (core c) blk;
  if negb (isValid b) then Some (p, c)
  else
    let respond := isDirty b && Packet.needsResponse p in
    let have_exclusive := isWritable b in
    let inval := Packet.isInvalidate p in
    '(p, c) ←
      (if Packet.isRead p && negb (Packet.isInvalidate p) then
         if Packet.needsExclusive p then None
         else Some (Packet.assertShared p, with_core c (upd (core c) blk (clear_status BlkWritable)))
       else Some (p, c));
    '(p, c) ←
      (if respond then
         if Packet.memInhibitAsserted p then None
         else
           let p := Packet.assertMemInhibit p in
           let p := if have_exclusive then Packet.setSupplyExclusive p else p in
           c ← doTimingSupplyResponse curTick p (data b) is_deferred pending_inval c; Some (p, c)
       else Some (p, c));
    if inval then x ← invalidate (core c) blk; Some (p, with_core c x) else Some (p, c).

(** [handleSnoop] with [is_timing]. *)
Definition handleSnoop (curTick : Z) (p : Packet.t) (blk : option BlkRef) (is_deferred pending_inval : bool) c (d : D)
    : option (Packet.t * TCache pstate * D) :=
  if pending_inval && negb is_deferred || negb (Packet.isRequest p) then None
  else
    '(p, c, d) ← (if forwardSnoops K then snoop_up curTick p c d else Some (p, c, d));
    match blk with
    | None => Some (p, c, d)
    | Some blk => '(p, c) ← snoop_block curTick p blk is_deferred pending_inval c; Some (p, c, d)
    end.

(** A snoop that finds a writeback in the write buffer; only the first is looked at. *)
Definition snoop_writeback (curTick : Z) (id : nat) (p : Packet.t) c : option (Packet.t * TCache pstate) :=
  m ← heap (core c) !! id;
  if isUncacheable m || negb (ntargets m =? 1) then None
  else
    t ← head (items (targets m));
    let wb := pkt t in
    if negb (bool_decide (Packet.cmd wb = Writeback)) || Packet.memInhibitAsserted p then None
    else
      let p := Packet.assertMemInhibit p in
      p ← (if negb (Packet.needsExclusive p) then Some (Packet.assertShared p)
           else if Packet.isInvalidate p then Some p else None);
      buf ← Packet.getPtr wb;
      c ← doTimingSupplyResponse curTick p buf false false c;
      c ← (if Packet.isInvalidate p then markInService curTick id c else Some c);
      Some (p, c).

Definition snoopTiming (curTick : Z) (p : Packet.t) c (d : D) : option (Packet.t * TCache pstate * D) :=
  if Request.isUncacheable (Packet.req p) || bool_decide (Packet.cmd p = Writeback) then Some (p, c, d)
  else
    a ← Packet.getAddr p;
    let blk := findBlock (tags (core c)) a in
    let blk_addr := blockAlign c a in
    '(p, c, deferred) ←
      (match findMatch (heap (core c)) (mshrQueue (core c)) blk_addr with
       | Some id =>
           m ← heap (core c) !! id;
           '(h, p, b) ← (if has_room m then Mshr.handleSnoop (heap (core c)) id curTick p (order c) else None);
           o ← next_order (order c);
           Some (p, with_order (with_heap c h) o, b)
       | None => Some (p, c, false)
       end);
    if (deferred : bool) then Some (p, c, d)
    else
      '(p, c) ←
        (match (findMatches (heap (core c)) (writeBuffer c) blk_addr).2 with
         | id :: _ => snoop_writeback curTick id p c
         | [] => Some (p, c)
         end);
      handleSnoop curTick p (InTags <$> blk) false false c d.

(** ** Responses from the memory side *)

(** The request of the response is that of the first target. *)
Definition share_request (m : MSHR) (r : Request.t) : MSHR :=
  match items (targets m) with [] => m | t :: _ => set_first m (Packet.set_req (pkt t) r) end.

(** What a response is used for. *)
Record Response := mkResponse {
  rs_pkt : Packet.t;
  rs_first : Z;
  rs_finish : Z;
  rs_fill : bool;
  rs_blk : option BlkRef
}.

(** A target that waits for its response; [initial_offset] is that of the first. *)
Definition respond_cpu (curTick : Z) (rs : Response) (initial_offset : Z) (p : Packet.t) c : option (TCache pstate) :=
  let q := rs_pkt rs in
  let lat := Lru.hitLatency (geo (tags (core c))) in
  '(p, time, c) ←
    (if rs_fill rs then
       blk ← rs_blk rs;
       '(x, p) ← satisfyCpuSideRequest (core c) p blk;
       off ← Packet.getOffset p (c_blkSize x);
       if Request.isUncacheable (Packet.req p) then None
       else Some (p, s64 (lat + if s32 (off - initial_offset) =? 0 then rs_first rs else rs_finish rs), with_core c x)
     else if bool_decide (Packet.cmd p = StoreCondReq) && bool_decide (Packet.cmd q = UpgradeFailResp) then
       Some (Packet.set_req p (Request.setExtraData (Packet.req p) 0), s64 (lat + rs_finish rs), c)
     else
       p ← (if Packet.isRead q && negb (Packet.isError q) then buf ← Packet.getPtr q; Packet.setData p buf 0 else Some p);
       Some (p, s64 (lat + rs_finish rs), c));
  p ← Packet.makeResponse p;
  p ← (if Packet.isError q then Packet.copyError p q else Some p);
  p ← (if Packet.isInvalidate q then
         if bool_decide (Packet.cmd p = ReadResp) && bool_decide (Packet.cmd q = ReadRespWithInvalidate)
         then Some (Packet.set_cmd p ReadRespWithInvalidate) else None
       else Some p);
  cpu_respond curTick p time c.

(** The target of a prefetch. *)
Definition respond_prefetch (rs : Response) (p : Packet.t) c : option (TCache pstate) :=
  if decide (Packet.cmd p = HardPFReq) then
    match rs_blk rs with
    | Some blk =>
        let c := with_core c (upd (core c) blk (or_status BlkHWPrefetched)) in
        s ← prefetcher c;
        '(s, calls) ← PfQueue.complete p s;
        Some (apply_calls (with_prefetcher c (Some s)) calls)
    | None => Some c
    end
  else None.

(** One turn of the loop over the targets. *)
Definition respond_target (curTick : Z) (id : nat) (rs : Response) (initial_offset : Z) c (d : D)
    : option (TCache pstate * D) :=
  m ← heap (core c) !! id;
  t ← head (items (targets m));
  '(c, d) ←
    (match source t with
     | FromCPU => c ← respond_cpu curTick rs initial_offset (pkt t) c; Some (c, d)
     | FromPrefetcher => c ← respond_prefetch rs (pkt t) c; Some (c, d)
     | FromSnoop =>
         if Packet.isError (rs_pkt rs) then None
         else
           '(_, c, d) ← handleSnoop curTick (pkt t) (rs_blk rs) true
                          (pendingInvalidate m || Packet.isInvalidate (rs_pkt rs)) c d;
           Some (c, d)
     end);
  m ← heap (core c) !! id;
  Some (with_heap c (<[id := popTarget m]> (heap (core c))), d).

Fixpoint respond_loop (fuel : nat) (curTick : Z) (id : nat) (rs : Response) (initial_offset : Z) c (d : D)
    : option (TCache pstate * D) :=
  m ← heap (core c) !! id;
  if hasTargets m then
    match fuel with
    | O => None
    | S fuel => '(c, d) ← respond_target curTick id rs initial_offset c d; respond_loop fuel curTick id rs initial_offset c d
    end
  else Some (c, d).

(** After the loop: the deferred targets are promoted or the register is freed. *)
Definition release_mshr (curTick : Z) (id : nat) (rs : Response) (wasFull : bool) c : option (TCache pstate) :=
  let i := queue_of c id in
  '(h, promoted) ← promoteDeferredTargets (heap (core c)) id curTick;
  let c := with_heap c h in
  if (promoted : bool) then
    blk ← rs_blk rs;
    let c := with_core c (upd (core c) blk (clear_status BlkReadable)) in
    '(h, q) ← markPending (heap (core c)) (get_queue c i) id;
    requestMemSideBus curTick (rs_finish rs) (with_queue c i h q)
  else
    '(h, q) ← deallocateOne (heap (core c)) (get_queue c i) id;
    let c := with_queue c i h q in
    if wasFull && negb (isFull q) then clearBlocked curTick (cause_of i) c else Some c.

(** The temporary block is written back and cleared. *)
Definition release_temp (curTick time : Z) (rs : Response) c : option (TCache pstate) :=
  match rs_blk rs with
  | Some TempBlock =>
      c ← (if isDirty (tempBlock (core c)) then
             '(wb, x) ← writebackBlk curTick (core c) TempBlock;
             '(_, c) ← allocateWriteBuffer curTick wb time true (with_core c x); Some c
           else Some c);
      x ← invalidate (core c) TempBlock; Some (with_core c x)
  | _ => Some c
  end.

(** The block is filled, when the response is for one. *)
Definition response_fill (curTick : Z) (id : nat) (p : Packet.t) (first finish : Z) c
    : option (Response * list Packet.t * TCache pstate) :=
  m ← heap (core c) !! id;
  a ← Packet.getAddr p;
  let blk := InTags <$> findBlock (tags (core c)) a in
  let is_fill := negb (isForward m) && (Packet.isRead p || bool_decide (Packet.cmd p = UpgradeResp)) in
  if is_fill && negb (Packet.isError p) then
    '(h, p) ← Mshr.handleFill (heap (core c)) id p;
    let c := with_heap c h in
    '(b, wbs, x) ← CacheCtl.handleFill curTick (core c) p finish blk [];
    Some (mkResponse p first finish is_fill (Some b), wbs, with_core c x)
  else Some (mkResponse p first finish is_fill blk, [], c).

(** [handleResponse]; [first] and [finish] are the times of the packet. *)
Definition handleResponse (curTick : Z) (p : Packet.t) (first finish : Z) c (d : D) : option (TCache pstate * D) :=
  let time := s64 (curTick + c_hitLatency (core c)) in
  id ← Packet.sender p;
  m ← heap (core c) !! id;
  if Packet.wasNacked p then Some (c, d)
  else
    let wasFull := isFull (get_queue c (queue_of c id)) in
    c ← (if bool_decide (noTargetMSHR c = Some id)
         then c ← clearBlocked curTick NoTargets c; Some (with_noTarget c None) else Some c);
    if negb (hasTargets m) then None
    else
      let c := with_heap c (<[id := share_request m (Packet.req p)]> (heap (core c))) in
      '(rs, wbs, c) ← response_fill curTick id p first finish c;
      m ← heap (core c) !! id;
      t ← head (items (targets m));
      initial_offset ← Packet.getOffset (pkt t) (c_blkSize (core c));
      '(c, d) ← respond_loop (length (items (targets m))) curTick id rs initial_offset c d;
      c ← (if Packet.isInvalidate (rs_pkt rs)
           then blk ← rs_blk rs; x ← invalidate (core c) blk; Some (with_core c x) else Some c);
      c ← release_mshr curTick id rs wasFull c;
      c ← buffer_writebacks curTick time wbs c;
      c ← release_temp curTick time rs c;
      Some (c, d).

(** [MemSidePort::recvTiming]: whether the packet is accepted, and the packet. *)
Definition mem_recvTiming (curTick : Z) (p : Packet.t) (first finish : Z) c (d : D)
    : option (bool * Packet.t * TCache pstate * D) :=
  if Packet.wasNacked p then None
  else if Packet.isRequest p && p_blocked (memSidePort c) then
    let q := memSidePort c in
    Some (false, p, with_mem c (with_block q (p_blocked q) true (retryEvents q)), d)
  else if Packet.isResponse p then '(c, d) ← handleResponse curTick p first finish c d; Some (true, p, c, d)
  else '(p, c, d) ← snoopTiming curTick p c d; Some (true, p, c, d).

(** ** What is sent to the memory side *)

(** The loop over the prefetches that are due; every turn takes one off the queue. *)
Fixpoint next_prefetch (fuel : nat) (curTick : Z) (s : PfState pstate) c : option (option nat * TCache pstate) :=
  if nextPrefetchReadyTime (pf s) <=? curTick then
    let '(o, s) := getPacket s in
    let c := with_prefetcher c (Some s) in
    match o, fuel with
    | None, _ => Some (None, c)
    | Some p, Datatypes.S fuel =>
        a ← Packet.getAddr p;
        let pf_addr := blockAlign c a in
        if negb (inCache (core c) pf_addr) && negb (inMissQueue (core c) pf_addr)
        then '(id, c) ← allocateMissBuffer curTick p curTick false c; Some (Some id, c)
        else next_prefetch fuel curTick s c
    | Some _, O => None
    end
  else Some (None, c).

Definition cache_getNextMSHR (curTick : Z) c : option (option nat * TCache pstate) :=
  let h := heap (core c) in
  match getNextMSHR h (mshrQueue (core c)) curTick, getNextMSHR h (writeBuffer c) curTick with
  | Some miss, None => Some (Some miss, c)
  | None, Some write => Some (Some write, c)
  | Some miss, Some write =>
      mm ← h !! miss;
      wm ← h !! write;
      if isFull (writeBuffer c) && (inServiceEntries (writeBuffer c) =? 0) then
        match findPending h (mshrQueue (core c)) (addr wm) (Mshr.size wm) with
        | Some conflict => cm ← h !! conflict; Some (Some (if Mshr.order cm <? Mshr.order wm then conflict else write), c)
        | None => Some (Some write, c)
        end
      else
        match findPending h (writeBuffer c) (addr mm) (Mshr.size mm) with
        | Some conflict => Some (Some conflict, c)
        | None => Some (Some miss, c)
        end
  | None, None =>
      match prefetcher c with
      | Some s => if isFull (mshrQueue (core c)) then Some (None, c)
                  else next_prefetch (length (pf s)) curTick s c
      | None => Some (None, c)
      end
  end.

(** A store-conditional whose upgrade has lost the block: it is answered here. *)
Definition fail_upgrade (curTick : Z) (id : nat) (p : Packet.t) c (d : D) : option (TCache pstate * D) :=
  let q := Packet.set_sender (Packet.set_cmd (Packet.copy curTick p false) UpgradeFailResp) (Some id) in
  handleResponse curTick q curTick curTick c d.

(** A prefetch of a block that has arrived in the meantime. *)
Definition drop_prefetch (id : nat) c : option (TCache pstate) :=
  m ← heap (core c) !! id;
  let m := popTarget m in
  let c := with_heap c (<[id := m]> (heap (core c))) in
  if hasTargets m then Some c
  else
    let i := queue_of c id in
    '(h, q) ← deallocateOne (heap (core c)) (get_queue c i) id; Some (with_queue c i h q).

(** The request for a register: its copy with the register as its sender. *)
Definition bus_request (curTick : Z) (m : MSHR) (p : Packet.t) c : option (Packet.t * bool) :=
  let blk := InTags <$> findBlock (tags (core c)) (addr m) in
  o ← getBusPacket curTick (core c) p blk (needsExclusive m);
  match o with
  | Some q => Some (q, false)
  | None =>
      let q := Packet.copy curTick p false in
      q ← Packet.allocate (replicate (Z.to_nat (Packet.size q)) 0) q;
      q ← (if Packet.isWrite q then buf ← Packet.getPtr p; Packet.setData q buf 0 else Some q);
      Some (q, true)
  end.

(** [getTimingPacket]: the packet and its register. *)
Definition getTimingPacket (curTick : Z) c (d : D) : option (option (nat * Packet.t) * TCache pstate * D) :=
  '(o, c) ← cache_getNextMSHR curTick c;
  match o with
  | None => Some (None, c, d)
  | Some id =>
      m ← heap (core c) !! id;
      t ← head (items (targets m));
      let p := pkt t in
      if decide (Packet.cmd p = SCUpgradeFailReq) then '(c, d) ← fail_upgrade curTick id p c d; Some (None, c, d)
      else
        fnr ← isForwardNoResponse m;
        if (fnr : bool) then
          if inCache (core c) (addr m) then None
          else
            let p := Packet.set_sender p (Some id) in
            Some (Some (id, p), with_heap c (<[id := set_first m p]> (heap (core c))), d)
        else if inCache (core c) (addr m) && bool_decide (Packet.cmd p = HardPFReq) then
          c ← drop_prefetch id c; Some (None, c, d)
        else
          '(q, fwd) ← bus_request curTick m p c;
          Some (Some (id, Packet.set_sender q (Some id)), with_heap c (<[id := set_isForward m fwd]> (heap (core c))), d)
  end.

Definition cache_nextMSHRReadyTime c : Z :=
  let next := Z.min (nextMSHRReadyTime (heap (core c)) (mshrQueue (core c)))
                (nextMSHRReadyTime (heap (core c)) (writeBuffer c)) in
  match prefetcher c with Some s => Z.min next (nextPrefetchReadyTime (pf s)) | None => next end.

Definition set_mem_port c (tp : TPort) : TCache pstate := with_mem c (with_port (memSidePort c) tp).

(** A response to a snoop is sent; it stays on the list when it is refused. *)
Definition send_deferred (curTick : Z) c (d : D) : option (TCache pstate * D) :=
  '(t, p) ← head (transmitList (port (memSidePort c)));
  '(success, p, d) ← mem_send curTick p d;
  let tp := port (memSidePort c) in
  let l := tail (transmitList tp) in
  let tp := TPort.with_list tp (if (success : bool) then l else (t, p) :: l) in
  Some (set_mem_port c (with_waiting tp (negb success)), d).

(** A request or a writeback is sent. *)
Definition send_request (curTick : Z) c (d : D) : option (TCache pstate * D) :=
  '(o, c, d) ← getTimingPacket curTick c d;
  match o with
  | None => Some (set_mem_port c (with_waiting (port (memSidePort c)) false), d)
  | Some (id, p) =>
      '(success, p, d) ← mem_send curTick p d;
      let c := set_mem_port c (with_waiting (port (memSidePort c)) (negb success)) in
      m ← heap (core c) !! id;
      if (success : bool) then c ← markInService curTick id c; Some (c, d)
      else
        fnr ← isForwardNoResponse m;
        Some (if (fnr : bool) then with_heap c (<[id := set_first m p]> (heap (core c))) else c, d)
  end.

(** [MemSidePort::sendPacket]: whether the drain event has been processed. *)
Definition sendPacket (curTick : Z) c (d : D) : option (TCache pstate * D * bool) :=
  '(c, d) ← (if deferredPacketReady curTick (port (memSidePort c)) then send_deferred curTick c d
             else send_request curTick c d);
  let tp := port (memSidePort c) in
  if waitingOnRetry tp then Some (c, d, false)
  else
    let next := Z.min (deferredPacketReadyTime tp) (cache_nextMSHRReadyTime c) in
    if negb (next =? MaxTick) then
      tp ← schedule curTick (Z.max next (s64 (curTick + 1))) tp; Some (set_mem_port c tp, d, false)
    else if drainEvent tp && negb (bool_decide (is_Some (sendEvent tp)))
    then Some (set_mem_port c (TPort.with_drain tp false), d, true) else Some (c, d, false).

(** [MemSidePort::recvRetry] and [processSendEvent], whose event is no longer scheduled. *)
Definition mem_recvRetry (curTick : Z) c (d : D) : option (TCache pstate * D * bool) :=
  if waitingOnRetry (port (memSidePort c)) then sendPacket curTick c d else None.
Definition mem_processSendEvent (curTick : Z) c (d : D) : option (TCache pstate * D * bool) :=
  let c := set_mem_port c (with_event (port (memSidePort c)) None) in
  if waitingOnRetry (port (memSidePort c)) then None else sendPacket curTick c d.

(** ** What is sent to the cpu side *)

(** Requests that are sent one after the other, until one is refused. *)
Fixpoint cpu_recv_until (curTick : Z) (ps : list Packet.t) c (d : D) : option (TCache pstate * D) :=
  match ps with
  | [] => Some (c, d)
  | p :: ps =>
      '(ok, c, d) ← cpu_recvTiming curTick p c d;
      let d := cpu_told curTick p ok d in
      if (ok : bool) then cpu_recv_until curTick ps c d else Some (c, d)
  end.

Definition set_cpu_port c (tp : TPort) : TCache pstate := with_cpu c (with_port (cpuSidePort c) tp).

(** [sendDeferredPacket] of the cpu side port. *)
Definition cpu_sendDeferred (curTick : Z) c (d : D) : option (TCache pstate * D * bool) :=
  '(t, p, tp) ← take_front curTick (port (cpuSidePort c));
  '(success, reqs, d) ← cpu_send curTick p d;
  '(c, d) ← cpu_recv_until curTick reqs (set_cpu_port c tp) d;
  '(tp, drained) ← finish_send curTick (t, p) success (port (cpuSidePort c));
  Some (set_cpu_port c tp, d, drained).

Definition cpu_recvRetry (curTick : Z) c (d : D) : option (TCache pstate * D * bool) :=
  if waitingOnRetry (port (cpuSidePort c)) then cpu_sendDeferred curTick c d else None.
Definition cpu_processSendEvent (curTick : Z) c (d : D) : option (TCache pstate * D * bool) :=
  let c := set_cpu_port c (with_event (port (cpuSidePort c)) None) in
  if waitingOnRetry (port (cpuSidePort c)) then None else cpu_sendDeferred curTick c d.

(** A [SendRetryEvent] of the cpu side port. *)
Definition processRetryEvent (curTick : Z) c (d : D) : option (TCache pstate * D) :=
  evs ← list_erase curTick (retryEvents (cpuSidePort c));
  let q := cpuSidePort c in
  '(ps, d) ← cpu_retry curTick d;
  cpu_recv_until curTick ps (with_cpu c (with_block q (p_blocked q) (mustSendRetry q) evs)) d.

(** ** Functional accesses, draining and construction *)

(** The block is asked first. *)
Definition block_functional (p : Packet.t) (a : Z) c : option (bool * Packet.t * TCache pstate) :=
  match (i ← findBlock (tags (core c)) a; b ← blks (tags (core c)) !! i; Some (i, b)) with
  | Some (i, b) =>
      '(done, p, o) ← Packet.checkFunctional p (blockAlign c a) (c_blkSize (core c)) (Some (data b));
      Some (done, p, match o with Some dt => with_core c (upd (core c) (InTags i) (λ b, blk_set_data b dt)) | None => c end)
  | None => Some (false, p, c)
  end.

(** The buffers of a port. *)
Definition port_functional (p : Packet.t) (q : CachePort) : option (bool * Packet.t * CachePort) :=
  '(done, p, tp) ← TPort.checkFunctional p (port q); Some (done, p, with_port q tp).

Definition side_functional (cpu : bool) (p : Packet.t) c : option (bool * Packet.t * TCache pstate) :=
  '(done, p, q) ← port_functional p (if cpu then cpuSidePort c else memSidePort c);
  Some (done, p, if cpu then with_cpu c q else with_mem c q).

Definition queue_functional (i : QIndex) (blk_addr : Z) (p : Packet.t) c : option (bool * Packet.t * TCache pstate) :=
  '(h, p, done) ← q_checkFunctional (heap (core c)) (get_queue c i) p blk_addr; Some (done, p, with_heap c h).

(** [a || b] *)
Definition or_else (r : option (bool * Packet.t * TCache pstate)) (f : Packet.t → TCache pstate → option (bool * Packet.t * TCache pstate))
    : option (bool * Packet.t * TCache pstate) :=
  '(done, p, c) ← r; if (done : bool) then Some (true, p, c) else f p c.

(** [functionalAccess]; [from_cpu] tells the port at which the packet arrives.  The
    result says whether the packet has to be sent on through the other port. *)
Definition functionalAccess (from_cpu : bool) (p : Packet.t) c : option (bool * Packet.t * TCache pstate) :=
  a ← Packet.getAddr p;
  let blk_addr := blockAlign c a in
  '(done, p, c) ←
    or_else (or_else (or_else (or_else (block_functional p a c)
      (side_functional from_cpu)) (queue_functional MSHRs blk_addr)) (queue_functional WriteBuffer blk_addr))
      (side_functional (negb from_cpu));
  Some (negb done, p, c).

(** [BaseCache::drain]: the number of ports that the caller has to wait for. *)
Definition cache_drain c : Z * TCache pstate :=
  let '(w1, tp1) := TPort.drain (port (memSidePort c)) in
  let c := set_mem_port c tp1 in
  let '(w2, tp2) := TPort.drain (port (cpuSidePort c)) in
  ((if w1 then 1 else 0) + (if w2 then 1 else 0), set_cpu_port c tp2).

(** The two queues of a new cache; the registers of the write buffer come after those of
    the miss queue.  The constructor leaves [order] as it is. *)
Definition TCache_new (g : Geometry) (ncpus mshrs write_buffers lat max_miss order : Z) (datum : list Z) (with_pf : bool)
    : TCache pstate :=
  let x := Cache_new g ncpus mshrs lat max_miss datum in
  let wb := MSHRQueue_new (length (registers (mshrQueue x))) write_buffers (mshrs + 1000) in
  let h := heap x ∪ list_to_map ((λ i, (i, MSHR_new)) <$> registers wb) in
  mkTCache (set_hq x h (mshrQueue x)) wb 0 order None (if with_pf then Some Prefetcher_new else None)
    CachePort_new CachePort_new ∅.

End Timing.
