(* ===== verification/MshrOwed.v ===== *)
(** What the registers of a cache owe: the responses for which the targets of the cpu side
    wait.

    A response belongs to a request by its address and size, the port that it came from
    and its sender state.  Every operation of a register ([Mshr]) and of a queue of
    registers ([MshrQueue]) is shown to change the debts of one register only, and by what
    it takes in or gives back. *)

From S2P Require Import Prelude Packet Mshr MshrQueue.

(** ** Targets and their tickets *)

(** What identifies a request, and its response. *)
Abbreviation Ticket := (option Z * option Z * option Z * option nat)%type.
Definition asked (p : Packet.t) : Ticket := (Packet.getAddr p, Packet.getSize p, Packet.getSrc p, Packet.sender p).
Definition answered (p : Packet.t) : Ticket := (Packet.getAddr p, Packet.getSize p, Packet.getDest p, Packet.sender p).

Definition targets_of (m : MSHR) : list Target := items (targets m) ++ items (deferredTargets m).

(** The response that a target waits for. *)
Definition target_owed (t : Target) : option Ticket :=
  if bool_decide (source t = FromCPU) && t_needsResponse t then Some (asked (pkt t)) else None.

Definition mshr_owed (m : MSHR) : list Ticket := omap target_owed (targets_of m).

(** What the register [id] owes. *)
Definition owed_by (h : Heap) (id : nat) : list Ticket := match h !! id with Some m => mshr_owed m | None => [] end.

Section Registers.
(** Whether the cache has a prefetcher. *)
Context (pf : bool).

(** Prefetches are those of the prefetcher, the note that a response is needed is as the
    packet says, and the times are ticks. *)
Definition target_ok (t : Target) : Prop :=
  (Packet.cmd (pkt t) = HardPFReq → pf = true ∧ source t = FromPrefetcher) ∧
  (source t = FromCPU → Packet.needsResponse (pkt t) = true → t_needsResponse t = true) ∧
  t_readyTime t < MaxTick.

Definition reg_ok (m : MSHR) : Prop := Forall target_ok (targets_of m) ∧ readyTime m < MaxTick.
Definition targets_ok (h : Heap) : Prop := ∀ id m, h !! id = Some m → reg_ok m.

(** The heap changes at [id] only, where the new debts are [l]. *)
Definition owes (h h' : Heap) (id : nat) (l : list Ticket) : Prop :=
  targets_ok h' ∧ owed_by h' id ≡ₚ l ∧ ∀ j, j ≠ id → owed_by h' j = owed_by h j.

Lemma mshr_owed_app m : mshr_owed m = omap target_owed (items (targets m)) ++ omap target_owed (items (deferredTargets m)).
Proof. unfold mshr_owed, targets_of. apply omap_app. Qed.

Lemma owed_by_Some h id m : h !! id = Some m → owed_by h id = mshr_owed m.
Proof. unfold owed_by. by intros ->. Qed.

(** The downstream-pending flags do not matter. *)
Lemma erase_reg h h' j m' : erase_dp h' j = erase_dp h j → h' !! j = Some m' →
  ∃ m, h !! j = Some m ∧ targets_of m' = targets_of m ∧ readyTime m' = readyTime m.
Proof.
  unfold erase_dp. intros He Hm. rewrite Hm in He. destruct (h !! j) as [m|]; [|done]. apply (inj Some) in He.
  exists m. unfold targets_of. split; [done|].
  by rewrite (f_equal targets He : targets m' = targets m), (f_equal deferredTargets He : deferredTargets m' = deferredTargets m),
    (f_equal readyTime He : readyTime m' = readyTime m).
Qed.

Lemma owed_by_erase h h' j : erase_dp h' j = erase_dp h j → owed_by h' j = owed_by h j.
Proof.
  intros He. unfold owed_by. destruct (h' !! j) as [m'|] eqn:Hm'.
  - destruct (erase_reg h h' j m' He Hm') as (m & -> & Ht & _). unfold mshr_owed. by rewrite Ht.
  - unfold erase_dp in He. rewrite Hm' in He. by destruct (h !! j).
Qed.

Lemma targets_ok_erase h h' : (∀ j, erase_dp h' j = erase_dp h j) → targets_ok h → targets_ok h'.
Proof.
  intros He Hok id m Hm. destruct (erase_reg h h' id m (He id) Hm) as (m0 & Hm0 & Ht & Hr).
  destruct (Hok id m0 Hm0). split; by rewrite ?Ht, ?Hr.
Qed.

Lemma targets_ok_insert h id m : targets_ok h → reg_ok m → targets_ok (<[id := m]> h).
Proof.
  intros Hh Hm j m'. destruct (decide (id = j)) as [<-|].
  - rewrite lookup_insert_eq. by intros [= <-].
  - rewrite lookup_insert_ne by done. apply Hh.
Qed.

(** A register is replaced after a change of flags. *)
Lemma owes_insert h h1 id m :
  (∀ j, erase_dp h1 j = erase_dp h j) → targets_ok h → reg_ok m → owes h (<[id := m]> h1) id (mshr_owed m).
Proof.
  intros He Hh Hm. split; [apply targets_ok_insert; [by eapply targets_ok_erase|done]|]. split.
  - by rewrite (owed_by_Some _ id m) by apply lookup_insert_eq.
  - intros j Hj. rewrite <- (owed_by_erase h h1 j) by done. unfold owed_by. by rewrite lookup_insert_ne.
Qed.

Lemma owes_erase h h1 id : (∀ j, erase_dp h1 j = erase_dp h j) → targets_ok h → owes h h1 id (owed_by h id).
Proof. intros He Hh. split; [by eapply targets_ok_erase|]. split; [by rewrite (owed_by_erase h)|]. intros j _. by apply owed_by_erase. Qed.

Lemma owes_perm h h' id l l' : owes h h' id l → l ≡ₚ l' → owes h h' id l'.
Proof. intros (H1 & H2 & H3) Hp. split; [done|]. split; [by rewrite H2|done]. Qed.

Lemma owes_trans h h1 h2 id l l' : owes h h1 id l → owes h1 h2 id l' → owes h h2 id l'.
Proof. intros (_ & _ & H1) (H2 & H3 & H4). split; [done|]. split; [done|]. intros j Hj. by rewrite H4, H1. Qed.

(** ** The operations of a register *)

Definition cpu_owed (p : Packet.t) : list Ticket := if Packet.needsResponse p then [asked p] else [].

Definition is_pf (p : Packet.t) : Prop := Packet.cmd p = HardPFReq.

Lemma push_owed ts ct p rt o mp :
  omap target_owed (ts ++ [mkTarget ct rt o p FromCPU mp (Packet.needsResponse p)]) = omap target_owed ts ++ cpu_owed p.
Proof. rewrite omap_app. unfold cpu_owed. cbn. unfold target_owed at 2. cbn. by destruct (Packet.needsResponse p). Qed.

Lemma push_other ts ct p rt o src mp b : src ≠ FromCPU →
  omap target_owed (ts ++ [mkTarget ct rt o p src mp b]) = omap target_owed ts.
Proof. intros Hs. rewrite omap_app. cbn. unfold target_owed at 2. cbn. rewrite bool_decide_eq_false_2 by done. apply app_nil_r. Qed.

(** The register after [f], which leaves the rest of the heap to the flags. *)
Lemma set_lists_ok m n ts ds : readyTime m < MaxTick → Forall target_ok (items ts) → Forall target_ok (items ds) →
  reg_ok (set_lists m n ts ds).
Proof. intros Hr Ht Hd. split; [|done]. unfold targets_of. cbn. by apply Forall_app. Qed.

Lemma reg_ok_lists m : reg_ok m → readyTime m < MaxTick ∧ Forall target_ok (items (targets m)) ∧ Forall target_ok (items (deferredTargets m)).
Proof. intros [Ht Hr]. unfold targets_of in Ht. by apply Forall_app in Ht. Qed.

Lemma push_ok ts ct p rt o mp src : Forall target_ok ts → (is_pf p → pf = true ∧ src = FromPrefetcher) → rt < MaxTick →
  Forall target_ok (ts ++ [mkTarget ct rt o p src mp (Packet.needsResponse p)]).
Proof. intros Hts Hp Hr. apply Forall_app. split; [done|]. by apply Forall_singleton. Qed.

Lemma allocate_owes h id ct a sz p rt o h' m :
  targets_ok h → h !! id = Some m → items (targets m) = [] → items (deferredTargets m) = [] →
  (is_pf p → pf = true) → rt < MaxTick → Mshr.allocate h id ct a sz p rt o = Some h' →
  owes h h' id (if decide (is_pf p) then [] else cpu_owed p).
Proof.
  intros Hh Hm Ht Hd Hp Hrt. unfold Mshr.allocate. rewrite Hm. cbn [mbind option_bind].
  destruct (isReset (targets m)); [|done]. set (m0 := mkMSHR rt _ _ _ _ _ _ _ _ _ _ _ _ _).
  destruct (tl_add _ _ _ _ _ _ _ _) as [[h1 ts]|] eqn:Ea; [|done]. cbn [mbind option_bind].
  apply tl_add_spec in Ea as [-> He].
  destruct (erase_lookup _ h1 id _ He (lookup_insert_eq _ _ _)) as [b ->]. cbn [mbind option_bind].
  destruct (isReset _); [|done]. intros [= <-].
  assert (reg_ok m0) as H0 by (split; [unfold targets_of, m0; cbn; by rewrite Ht, Hd|done]).
  eapply owes_trans; [by eapply owes_insert|]. eapply owes_perm; [apply owes_insert; [done|by apply targets_ok_insert|]|].
  - apply (set_lists_ok (set_pending (set_dp m0 b) false false) 1 (push_target _ _ _ _ _ _ _) (deferredTargets m));
      [done| |by rewrite Hd].
    cbn. rewrite Ht. apply (push_ok []); [done| |done]. unfold is_pf. intros E. rewrite decide_True by done. auto.
  - unfold mshr_owed, targets_of. cbn. rewrite Ht, Hd, app_nil_r. unfold is_pf.
    by destruct (decide _); [rewrite (push_other [])|rewrite (push_owed [])].
Qed.

Lemma allocateTarget_owes h id ct p rt o h' :
  targets_ok h → rt < MaxTick → allocateTarget h id ct p rt o = Some h' → owes h h' id (cpu_owed p ++ owed_by h id).
Proof.
  intros Hh Hrt. unfold allocateTarget. destruct (decide _) as [|Hpf]; [done|].
  destruct (h !! id) as [m|] eqn:Hm; [|done]. cbn [mbind option_bind].
  destruct (reg_ok_lists m (Hh id m Hm)) as (Hr & Ht & Hd). rewrite (owed_by_Some h id m Hm), mshr_owed_app.
  destruct (must_defer m p); destruct (tl_add _ _ _ _ _ _ _ _) as [[h1 tl]|] eqn:Ea; try done; cbn [mbind option_bind];
    apply tl_add_spec in Ea as [-> He]; destruct (erase_lookup h h1 id m He Hm) as [b ->]; cbn [mbind option_bind];
    intros [= <-]; (eapply owes_perm; [apply owes_insert; [done..|]|]).
  - apply set_lists_ok; [done..|]. by apply push_ok.
  - rewrite mshr_owed_app. cbn -[omap app]. rewrite push_owed. rewrite (app_assoc _ _ (cpu_owed p)). apply Permutation_app_comm.
  - apply set_lists_ok; [done| |done]. by apply push_ok.
  - rewrite mshr_owed_app. cbn -[omap app]. rewrite push_owed, !app_assoc. f_equiv. apply Permutation_app_comm.
Qed.

(** Upgrades that are replaced. *)
Lemma upgrade_keeps c : MemCmd.needsResponse (upgrade_cmd c) = MemCmd.needsResponse c ∧ (upgrade_cmd c = HardPFReq ↔ c = HardPFReq).
Proof. by destruct c. Qed.

Lemma replace_target_ok t : target_ok t → target_ok (replace_target t).
Proof.
  unfold target_ok, Packet.needsResponse. cbn. destruct (upgrade_keeps (Packet.cmd (pkt t))) as [-> He]. by rewrite He.
Qed.

Lemma replace_owed tl : omap target_owed (items (replaceUpgrades tl)) = omap target_owed (items tl).
Proof. unfold replaceUpgrades. destruct (hasUpgrade tl); [|done]. cbn. induction (items tl) as [|t l IH]; [done|]. cbn. by rewrite IH. Qed.

Lemma replace_ok tl : Forall target_ok (items tl) → Forall target_ok (items (replaceUpgrades tl)).
Proof.
  intros H. unfold replaceUpgrades. destruct (hasUpgrade tl); [|done]. cbn. apply Forall_fmap.
  eapply Forall_impl; [exact H|]. apply replace_target_ok.
Qed.

Lemma handleSnoop_owes h id ct p o h' p' b :
  targets_ok h → ¬ is_pf p → ct < MaxTick → Mshr.handleSnoop h id ct p o = Some (h', p', b) → owes h h' id (owed_by h id).
Proof.
  intros Hh Hp Hct. unfold Mshr.handleSnoop. destruct (h !! id) as [m|] eqn:Hm; [|done]. cbn [mbind option_bind].
  destruct (reg_ok_lists m (Hh id m Hm)) as (Hr & Ht & Hd). rewrite (owed_by_Some h id m Hm), mshr_owed_app.
  destruct (_ || _).
  { intros [= <- _ _]. eapply owes_perm; [apply owes_insert; [done..|]|].
    - destruct (Packet.needsExclusive p); [|by apply (Hh id)]. apply set_lists_ok; [done|by apply replace_ok..].
    - rewrite mshr_owed_app. destruct (Packet.needsExclusive p); [|done]. cbn -[omap]. by rewrite !replace_owed. }
  set (m1 := if Packet.needsExclusive p then set_lists _ _ _ _ else m).
  assert (targets m1 = targets m ∧ readyTime m1 = readyTime m ∧ Forall target_ok (items (deferredTargets m1)) ∧
    omap target_owed (items (deferredTargets m1)) = omap target_owed (items (deferredTargets m))) as (E1 & Er & H2 & E2).
  { unfold m1. destruct (Packet.needsExclusive p); [|done]. cbn. split_and!; [done..|by apply replace_ok|apply replace_owed]. }
  clearbody m1. rewrite <- E1, <- Er in *. rewrite <- E2.
  assert (∀ b1 b2, owes h (<[id := set_pending m1 b1 b2]> h) id
    (omap target_owed (items (targets m1)) ++ omap target_owed (items (deferredTargets m1)))) as Hsame.
  { intros b1 b2. eapply owes_perm; [apply owes_insert; [done..|]|].
    - split; [|done]. by apply Forall_app.
    - by rewrite mshr_owed_app. }
  pose proof (Hsame (pendingInvalidate m1) (pendingShared m1)) as H1. rewrite set_pending_id in H1.
  destruct (pendingInvalidate m1); [by intros [= <- _ _]|].
  destruct (_ || _); [|intros [= <- _ _]; apply Hsame].
  destruct (tl_add _ _ _ _ _ _ _ _) as [[h1 tl]|] eqn:Ea; [|done]. cbn [mbind option_bind].
  apply tl_add_spec in Ea as [-> He]. destruct (erase_lookup _ h1 id m1 He (lookup_insert_eq _ _ _)) as [b2 ->].
  cbn [mbind option_bind]. intros [= <- _ _]. eapply owes_trans; [exact H1|]. set (cp := if tl_needsExclusive (targets m1) then _ else Packet.set_req _ _).
  assert (¬ is_pf cp) as Hcp by (unfold cp; by destruct (tl_needsExclusive _)).
  eapply owes_perm; [apply owes_insert; [done|by apply H1|]|].
  - destruct (Packet.needsExclusive p); apply set_lists_ok; try done; by apply push_ok.
  - destruct (Packet.needsExclusive p); rewrite mshr_owed_app; cbn -[omap app]; by rewrite push_other.
Qed.

Lemma handleFill_owes h id p h' p' :
  targets_ok h → Mshr.handleFill h id p = Some (h', p') → owes h h' id (owed_by h id).
Proof.
  intros Hh. unfold Mshr.handleFill. destruct (h !! id) as [m|] eqn:Hm; [|done]. cbn [mbind option_bind].
  destruct (_ && _); [|intros [= <- _]; by apply owes_erase].
  destruct (_ || _); [done|]. destruct (tl_clearDownstreamPending _ _) as [h1|] eqn:Ec; [|done]. cbn [mbind option_bind].
  assert (∀ j, erase_dp h1 j = erase_dp h j) as He by (intros; by eapply tl_clear_spec).
  destruct (erase_lookup h h1 id m He Hm) as [b ->]. cbn [mbind option_bind]. intros [= <- _].
  destruct (reg_ok_lists m (Hh id m Hm)) as (Hr & Ht & Hd).
  rewrite (owed_by_Some h id m Hm). eapply owes_perm; [apply owes_insert; [done..|]|].
  - apply set_lists_ok; [done| |done]. by apply Forall_app.
  - unfold mshr_owed, targets_of. cbn. by rewrite app_nil_r.
Qed.

Lemma promote_owes h id ct h' b :
  targets_ok h → ct < MaxTick → promoteDeferredTargets h id ct = Some (h', b) → owes h h' id (owed_by h id).
Proof.
  intros Hh Hct. unfold promoteDeferredTargets. destruct (h !! id) as [m|] eqn:Hm; [|done]. cbn [mbind option_bind].
  destruct (bool_decide_reflect (items (targets m) = [])) as [Ht|]; [|done].
  destruct (items (deferredTargets m)) as [|t0 ds] eqn:Ed; [intros [= <- _]; by apply owes_erase|].
  destruct (_ =? _); [|done]. intros [= <- _]. destruct (reg_ok_lists m (Hh id m Hm)) as (Hr & _ & Hd).
  rewrite (owed_by_Some h id m Hm). eapply owes_perm; [apply owes_insert; [done..|]|].
  - rewrite Ed in Hd. split; unfold targets_of; cbn; rewrite ?Ed, ?Ht, ?app_nil_r; [done|].
    apply Forall_cons in Hd as [(_ & _ & Hd) _]. lia.
  - rewrite !mshr_owed_app. cbn -[omap]. rewrite Ht. cbn -[omap]. by rewrite app_nil_r.
Qed.

(** A register whose targets stay as they are. *)
Lemma same_targets_owes h id m m' :
  targets_ok h → h !! id = Some m → targets_of m' = targets_of m → readyTime m' = readyTime m →
  owes h (<[id := m']> h) id (owed_by h id).
Proof.
  intros Hh Hm Ht Hr. rewrite (owed_by_Some h id m Hm). eapply owes_perm; [apply owes_insert; [done..|]|].
  - destruct (Hh id m Hm). split; by rewrite ?Ht, ?Hr.
  - unfold mshr_owed. by rewrite Ht.
Qed.

(** The first target leaves. *)
Lemma popTarget_owes h id m t ts :
  targets_ok h → h !! id = Some m → items (targets m) = t :: ts →
  ∃ l, owes h (<[id := popTarget m]> h) id l ∧ owed_by h id = option_list (target_owed t) ++ l.
Proof.
  intros Hh Hm Ht. exists (mshr_owed (popTarget m)). destruct (reg_ok_lists m (Hh id m Hm)) as (Hr & H1 & Hd). rewrite Ht in H1. split.
  - apply owes_insert; [done..|]. apply set_lists_ok; [done| |done]. cbn. rewrite Ht. by apply Forall_cons in H1 as [_ ?].
  - rewrite (owed_by_Some h id m Hm), !mshr_owed_app. cbn -[omap]. rewrite Ht. cbn. by destruct (target_owed t).
Qed.

Lemma deallocate_owes h id h' : targets_ok h → Mshr.deallocate h id = Some h' → owes h h' id (owed_by h id).
Proof.
  intros Hh. unfold Mshr.deallocate. destruct (h !! id) as [m|] eqn:Hm; [|done]. cbn [mbind option_bind].
  destruct (_ && _); [|done]. intros [= <-]. by eapply same_targets_owes.
Qed.

(** A target that needs no response owes none. *)
Lemma fnr_owed m : isForwardNoResponse m = Some true →
  ntargets m = 1 ∧ ∃ t ts, items (targets m) = t :: ts ∧ target_owed t = None ∧ source t = FromCPU.
Proof.
  unfold isForwardNoResponse. destruct (Z.eqb_spec (ntargets m) 1); [|done]. cbn [negb].
  destruct (items (targets m)) as [|t ts]; [done|].
  cbn [head mbind option_bind]. intros [= E]. split; [done|]. exists t, ts. split; [done|]. apply andb_true_iff in E as [Hs E].
  unfold target_owed. rewrite negb_true_iff in E. rewrite E, andb_false_r. split; [done|]. by apply bool_decide_eq_true in Hs.
Qed.

Lemma markInService_owes h id h' b :
  targets_ok h → Mshr.markInService h id = Some (h', b) → owes h h' id (owed_by h id).
Proof.
  intros Hh. unfold Mshr.markInService. destruct (h !! id) as [m|] eqn:Hm; [|done]. cbn [mbind option_bind].
  destruct (inService m); [done|]. destruct (isForwardNoResponse m) as [[]|] eqn:Hf; [| |done]; cbn [mbind option_bind].
  - intros [= <- _]. destruct (fnr_owed m Hf) as (_ & t & ts & Ht & Ho & _).
    destruct (popTarget_owes h id m t ts Hh Hm Ht) as (l & Hl & ->). by rewrite Ho.
  - assert (owes h (<[id := set_inService m true]> h) id (owed_by h id)) as H0 by (by eapply same_targets_owes).
    destruct (downstreamPending m); [by intros [= <- _]|].
    destruct (tl_clearDownstreamPending _ _) as [h1|] eqn:Ec; [|done]. intros [= <- _].
    eapply owes_trans; [exact H0|]. eapply owes_perm; [apply owes_erase|by apply H0].
    + intros j. by eapply tl_clear_spec.
    + by apply H0.
Qed.


(** ** The operations of a queue *)

(** The rest of the heap is left to the flags. *)
Record at_reg (h h' : Heap) (id : nat) (l : list Ticket) : Prop := {
  ar_owes : owes h h' id l;
  ar_rest : ∀ j, j ≠ id → erase_dp h' j = erase_dp h j;
  ar_here : is_Some (h' !! id)
}.

Lemma at_reg_perm h h' id l l' : at_reg h h' id l → l ≡ₚ l' → at_reg h h' id l'.
Proof. intros [] Hp. split; [by eapply owes_perm|done..]. Qed.

Lemma at_reg_trans h h1 h2 id l l' : at_reg h h1 id l → at_reg h1 h2 id l' → at_reg h h2 id l'.
Proof. intros [H1 H2 _] [H3 H4 H5]. split; [by eapply owes_trans|intros j Hj; by rewrite H4, H2|done]. Qed.

(** The sizes of a queue. *)
Definition shape (q : MSHRQueue) := (registers q, numEntries q, numReserve q).

Lemma touches_at h h' id l : is_Some (h !! id) → owes h h' id l → touches h h' id → at_reg h h' id l.
Proof. intros Hs Ho [He Hv]. split; [done..|]. by eapply view_dom. Qed.

Lemma insert_at h id m m' : targets_ok h → h !! id = Some m → targets_of m' = targets_of m → readyTime m' = readyTime m →
  at_reg h (<[id := m']> h) id (owed_by h id).
Proof.
  intros Hh Hm Ht Hr. split; [by eapply same_targets_owes| |by rewrite lookup_insert_eq].
  intros j Hj. unfold erase_dp. by rewrite lookup_insert_ne.
Qed.

Lemma q_allocate_owes cnt h q ct a sz p rt o h' q' id :
  queue_ok cnt h q → targets_ok h → (is_pf p → pf = true) → rt < MaxTick →
  q_allocate h q ct a sz p rt o = Some (h', q', id) →
  at_reg h h' id (if decide (is_pf p) then [] else cpu_owed p) ∧ owed_by h id = [] ∧ id ∈ registers q ∧
  shape q' = shape q ∧ allocatedList q' = allocatedList q ++ [id] ∧ allocated q' = allocated q + 1 ∧ id ∈ readyList q' ∧ ∃ m, h !! id = Some m ∧ ntargets m = 0.
Proof.
  intros Hq Hh Hp Hrt. unfold q_allocate. destruct (freeList q) as [|i fl] eqn:Ef; [done|].
  destruct (qok_free _ _ _ Hq i) as (m & Hm & Ht & Hd & _); [rewrite Ef; by left|].
  rewrite Hm. cbn [mbind option_bind]. destruct (Z.eqb_spec (ntargets m) 0); [|done].
  destruct (Mshr.allocate _ _ _ _ _ _ _ _) as [h1|] eqn:Ea; [|done]. cbn [mbind option_bind].
  destruct (allocate_frame _ _ _ _ _ _ _ _ _ Ea) as [Hv He].
  pose proof (allocate_owes _ _ _ _ _ _ _ _ _ _ Hh Hm Ht Hd Hp Hrt Ea) as Ho.
  destruct (addToReadyList _ _ _) as [rl|] eqn:Er; [|done]. cbn [mbind option_bind]. intros [= <- <- <-].
  split_and!; try done; [|..|by exists m].
  - split; [done..|]. unfold view in Hv. by destruct (h1 !! i).
  - unfold owed_by. rewrite Hm. unfold mshr_owed, targets_of. by rewrite Ht, Hd.
  - apply (free_in_reg Hq). rewrite Ef. by left.
  - cbn. destruct (h1 !! i) as [m1|] eqn:Hm1; [|by unfold view in Hv; rewrite Hm1 in Hv].
    unfold addToReadyList in Er. rewrite Hm1 in Er. cbn [mbind option_bind] in Er.
    destruct (last (readyList q)) as [b|]; [|injection Er as <-; by left]. destruct (h1 !! b) as [mb|]; [|done].
    cbn [mbind option_bind] in Er. destruct (_ <=? _); [injection Er as <-; apply elem_of_app; right; by left|].
    revert rl Er. induction (readyList q) as [|x rl IH]; intros rl' Er; [done|]. cbn in Er. destruct (h1 !! x); [|done].
    cbn in Er. destruct (_ <? _); [injection Er as <-; by left|]. destruct (ready_insert _ _ _ _); [|done].
    injection Er as <-. right. by apply IH.
Qed.

Lemma deallocateOne_owes h q id h' q' :
  targets_ok h → deallocateOne h q id = Some (h', q') →
  at_reg h h' id (owed_by h id) ∧ shape q' = shape q ∧ allocatedList q ≡ₚ id :: allocatedList q' ∧
  allocated q' = allocated q - 1 ∧ (∀ j, j ∈ readyList q' → j ∈ readyList q) ∧ ∃ m, h !! id = Some m ∧ ntargets m = 0.
Proof.
  intros Hh. unfold deallocateOne. destruct (list_erase id (allocatedList q)) as [al|] eqn:Hal; [|done].
  cbn [mbind option_bind]. destruct (h !! id) as [m|] eqn:Hm; [|done]. cbn [mbind option_bind].
  match goal with |- ?o ≫= _ = _ → _ => destruct o as [[rl ns]|] eqn:Er; [|done] end. cbn [mbind option_bind].
  destruct (Mshr.deallocate h id) as [h1|] eqn:Ed; [|done]. cbn [mbind option_bind]. intros [= <- <-].
  pose proof (deallocate_owes h id h1 Hh Ed) as Ho. apply list_erase_perm in Hal.
  unfold Mshr.deallocate in Ed. rewrite Hm in Ed. cbn [mbind option_bind] in Ed.
  destruct (_ && _) eqn:Hg; [|done]. injection Ed as <-. split_and!; try done.
  - split; [done| |by rewrite lookup_insert_eq]. intros j Hj. unfold erase_dp. by rewrite lookup_insert_ne.
  - cbn. intros j Hj. destruct (inService m); [by injection Er as <- _|].
    destruct (list_erase id (readyList q)) as [r|] eqn:Hr; [|done]. injection Er as <- _.
    rewrite (list_erase_perm _ _ _ Hr). by right.
  - exists m. split; [done|]. by apply andb_true_iff in Hg as [_ ?%Z.eqb_eq].
Qed.

Lemma q_markInService_owes h q id h' q' :
  targets_ok h → q_markInService h q id = Some (h', q') →
  at_reg h h' id (owed_by h id) ∧ shape q' = shape q ∧ (∀ j, j ∈ readyList q' → j ∈ readyList q) ∧
  (allocatedList q' = allocatedList q ∧ allocated q' = allocated q ∨
   allocatedList q ≡ₚ id :: allocatedList q' ∧ allocated q' = allocated q - 1 ∧ ∃ m, h !! id = Some m ∧ ntargets m = 1).
Proof.
  intros Hh. unfold q_markInService. destruct (Mshr.markInService h id) as [[h1 b]|] eqn:Em; [|done].
  cbn [mbind option_bind]. pose proof (markInService_owes h id h1 b Hh Em) as Ho.
  destruct (markInService_frame _ _ _ _ Em) as (m & Hm & Hi & Hb).
  assert (at_reg h h1 id (owed_by h id)) as H1.
  { destruct b as []; [by apply touches_at|]. destruct Hb as [Hv He]. split; [done..|]. unfold view in Hv. by destruct (h1 !! id). }
  destruct b.
  - intros (Ha & Hsh & Hp & Hn & Hr & m1 & Hm1 & H0)%deallocateOne_owes; [|by apply H1]. split_and!; try done.
    + eapply at_reg_trans; [exact H1|]. eapply at_reg_perm; [exact Ha|]. by apply H1.
    + right. split_and!; try done. exists m. split; [done|]. unfold Mshr.markInService in Em. rewrite Hm in Em.
      cbn [mbind option_bind] in Em. rewrite Hi in Em. destruct (isForwardNoResponse m) as [[]|] eqn:Ef; [by apply fnr_owed in Ef as [? _]| |done].
      cbn [mbind option_bind] in Em. destruct (downstreamPending m); [done|]. by destruct (tl_clearDownstreamPending _ _).
  - destruct (list_erase id (readyList q)) as [rl|] eqn:Hr; [|done]. cbn [mbind option_bind]. intros [= <- <-].
    split_and!; try done; [|by left]. cbn. intros j Hj. rewrite (list_erase_perm _ _ _ Hr). by right.
Qed.

Lemma markPending_owes h q id h' q' :
  targets_ok h → markPending h q id = Some (h', q') →
  at_reg h h' id (owed_by h id) ∧ shape q' = shape q ∧ allocatedList q' = allocatedList q ∧ allocated q' = allocated q.
Proof.
  intros Hh. unfold markPending. destruct (h !! id) as [m|] eqn:Hm; [|done]. cbn [mbind option_bind].
  destruct (inService m); [|done]. destruct (addToReadyList _ _ _) as [rl|]; [|done]. cbn [mbind option_bind].
  intros [= <- <-]. split_and!; try done. by eapply insert_at.
Qed.

(** A functional access changes data only. *)
Definition same_target (t t' : Target) : Prop :=
  target_owed t' = target_owed t ∧ (target_ok t → target_ok t').

Lemma tl_functional_same ts : ∀ p d p' ts', tl_checkFunctional p ts = Some (d, p', ts') → Forall2 same_target ts ts'.
Proof.
  induction ts as [|t ts IH]; intros p d p' ts'; cbn [tl_checkFunctional]; [intros [= <- <- <-]; constructor|].
  obind [[[dn p1] od]|]. destruct dn.
  - intros [= <- <- <-]. constructor; [by destruct od|]. by apply Forall_Forall2_diag, Forall_true.
  - obind [[[d2 p2] ts2]|] E2. intros [= <- <- <-]. constructor; [by destruct od|]. by eapply IH.
Qed.

Lemma same_targets ts ts' : Forall2 same_target ts ts' →
  omap target_owed ts' = omap target_owed ts ∧ (Forall target_ok ts → Forall target_ok ts').
Proof.
  induction 1 as [|t t' ts ts' [Ho Hk] _ [IH1 IH2]]; [done|]. split.
  - cbn. by rewrite Ho, IH1.
  - intros [H1 H2]%Forall_cons. constructor; auto.
Qed.

Lemma mshr_functional_owes h id p h' p' b :
  targets_ok h → mshr_checkFunctional h id p = Some (h', p', b) →
  at_reg h h' id (owed_by h id) ∧ ∃ m m', h !! id = Some m ∧ h' !! id = Some m' ∧ ntargets m' = ntargets m.
Proof.
  intros Hh Es. pose proof (mshr_functional_touches _ _ _ _ _ _ Es) as Hto. revert Es. unfold mshr_checkFunctional.
  obind [m|] Hm. destruct (reg_ok_lists m (Hh id m Hm)) as (Hr & Ht & Hd).
  destruct (Packet.isPrint p).
  { intros [= <- _ _]. split; [|by exists m, m]. split; [by apply owes_erase|done|by eexists]. }
  assert (∀ ts ds, Forall2 same_target (items (targets m)) (items ts) → Forall2 same_target (items (deferredTargets m)) (items ds) →
    h' = <[id := set_lists m (ntargets m) ts ds]> h →
    at_reg h h' id (owed_by h id) ∧ ∃ m1 m', Some m = Some m1 ∧ h' !! id = Some m' ∧ ntargets m' = ntargets m1) as Hset.
  { intros ts ds [Eo1 Ek1]%same_targets [Eo2 Ek2]%same_targets ->. split.
    - apply touches_at; [by eexists| |done]. rewrite (owed_by_Some h id m Hm). eapply owes_perm; [apply owes_insert; [done..|]|].
      + apply set_lists_ok; auto.
      + rewrite !mshr_owed_app. cbn -[omap]. by rewrite Eo1, Eo2.
    - eexists m, _. split; [done|]. split; [by rewrite lookup_insert_eq|done]. }
  assert (∀ l, Forall2 same_target l l) as Hrefl by (intros l; by apply Forall_Forall2_diag, Forall_true).
  obind [[[d1 p1] ts1]|] E1. apply tl_functional_same in E1. destruct d1.
  - intros [= <- _ _]. eapply (Hset (mkTargetList ts1 _ _) (deferredTargets m)); [exact E1|apply Hrefl|reflexivity].
  - obind [[[d2 p2] ds2]|] E2. apply tl_functional_same in E2. intros [= <- _ _].
    eapply (Hset (mkTargetList ts1 _ _) (mkTargetList ds2 _ _)); [exact E1|exact E2|reflexivity].
Qed.

(** The register is used while the targets change. *)
Lemma has_targets_alloc cnt h q id m :
  queue_ok cnt h q → id ∈ registers q → h !! id = Some m → targets_of m ≠ [] → id ∈ allocatedList q.
Proof.
  intros Hq Hid Hm Hne. rewrite <- (qok_regs _ _ _ Hq) in Hid. apply elem_of_app in Hid as [|Hf]; [done|].
  destruct (qok_free _ _ _ Hq id Hf) as (m' & Hm' & Ht & Hd & _). rewrite Hm in Hm'. injection Hm' as <-.
  unfold targets_of in Hne. by rewrite Ht, Hd in Hne.
Qed.

(** A queue none of whose registers is changed. *)
Lemma other_queue cnt cnt' h h' q :
  queue_ok cnt h q → heap_ok cnt' h' → (∀ j, j ∈ registers q → erase_dp h' j = erase_dp h j) → queue_ok cnt' h' q.
Proof.
  intros Hq Hh He. assert (∀ j, j ∈ registers q → view h' j = view h j) as Hv by (intros; by apply erase_view, He).
  apply (queue_ok_frame Hq); [done|..].
  - intros j Hj. eapply view_dom; [by apply Hv|]. by apply (qok_dom _ _ _ Hq).
  - intros j Hj. unfold in_service. by rewrite Hv by by apply (alloc_reg Hq).
  - intros j Hj. unfold ready_at. rewrite Hv; [done|]. apply (alloc_reg Hq). by apply (ready_alloc Hq) in Hj as [? _].
  - intros j Hj. apply He. by apply (free_in_reg Hq).
Qed.

(** ** Debts of several registers *)

Definition owed_in (h : Heap) (l : list nat) : list Ticket := l ≫= owed_by h.

Lemma owed_in_ext h h' l : (∀ j, j ∈ l → owed_by h' j = owed_by h j) → owed_in h' l = owed_in h l.
Proof.
  unfold owed_in. induction l as [|x l IH]; intros Hl; [done|]. cbn. rewrite (Hl x), IH; [done| |by left].
  intros j Hj. apply Hl. by right.
Qed.

Lemma owed_in_change h h' id l regs :
  owes h h' id l → NoDup regs → id ∈ regs →
  ∃ rest, owed_in h regs ≡ₚ owed_by h id ++ rest ∧ owed_in h' regs ≡ₚ l ++ rest.
Proof.
  intros (_ & Hl & Hrest) Hn Hid. apply list_elem_of_split in Hid as (l1 & l2 & ->).
  assert (id ∉ l1 ++ l2) as Hni.
  { rewrite <- Permutation_middle in Hn. by apply NoDup_cons in Hn as [? _]. }
  exists (owed_in h (l1 ++ l2)).
  assert (∀ h0, owed_in h0 (l1 ++ id :: l2) ≡ₚ owed_by h0 id ++ owed_in h0 (l1 ++ l2)) as Hsplit.
  { intros h0. unfold owed_in. rewrite !bind_app. cbn. rewrite !app_assoc. f_equiv. apply Permutation_app_comm. }
  rewrite !Hsplit. split; [done|]. rewrite Hl, (owed_in_ext h h' (l1 ++ l2)); [done|].
  intros j Hj. apply Hrest. by intros ->.
Qed.

End Registers.
