(* ===== verification/TimingInv.v ===== *)
(** What the cache controller in timing mode keeps: its queues, its blocking, its ports
    and the responses that it owes ([CacheTiming]).

    Every operation is shown to keep the invariant [tc_ok] and to account for the
    responses that the cache owes its cpu side ([owed]): those of the targets of its
    registers and those on the list of the port. *)

From S2P Require Import Prelude IntMath PfInterface Packet CacheBlk Lru Mshr MshrQueue PfQueue PhysMem CacheCtl TPort CacheTiming MshrOwed.

(** ** What the blocks do not change *)

Definition core_frame (x x' : Cache) : Prop :=
  heap x' = heap x ∧ mshrQueue x' = mshrQueue x ∧ c_hitLatency x' = c_hitLatency x.

#[export] Instance core_frame_preorder : PreOrder core_frame.
Proof. split; [by intros x|]. intros x y z (H1 & H2 & H3) (H4 & H5 & H6). unfold core_frame. by rewrite H4, H5, H6. Qed.

(** A packet keeps its command and what identifies it. *)
Definition same_ask (p p' : Packet.t) : Prop := asked p' = asked p ∧ Packet.cmd p' = Packet.cmd p.

#[export] Instance same_ask_preorder : PreOrder same_ask.
Proof. split; [by intros x|]. intros x y z (H1 & H2) (H3 & H4). unfold same_ask. by rewrite H3, H4. Qed.

Section Frames.

Lemma upd_frame x r f : core_frame x (upd x r f).
Proof. by destruct r. Qed.

Lemma tags_frame x t : core_frame x (with_tags x t).
Proof. done. Qed.

Lemma invalidate_frame x r x' : invalidate x r = Some x' → core_frame x x'.
Proof. unfold invalidate. destruct r; [|by intros [= <-]]. obind [t|]. by intros [= <-]. Qed.

Lemma setData_ask p b off p' : Packet.setData p b off = Some p' → same_ask p p'.
Proof. unfold Packet.setData. obind [d|]. obind [n|]. obind [d'|]. by intros [= <-]. Qed.

Lemma setDataFromBlock_ask p b n p' : Packet.setDataFromBlock p b n = Some p' → same_ask p p'.
Proof. unfold Packet.setDataFromBlock. obind [o|]. apply setData_ask. Qed.

Lemma lines_ask p f : f = Packet.SHARED ∨ f = Packet.MEM_INHIBIT ∨ f = Packet.SUPPLY_EXCLUSIVE →
  same_ask p (Packet.set_flags p (Flags.set (Packet.flags p) f)).
Proof.
  unfold same_ask, asked. intros Hf. split; [|done].
  assert (Packet.frame (Packet.set_flags p (Flags.set (Packet.flags p) f)) = Packet.frame p ∧
    Packet.route (Packet.set_flags p (Flags.set (Packet.flags p) f)) = Packet.route p) as [H1 H2].
  { destruct Hf as [->|[->| ->]]; [destruct (assertShared_frame p) as (? & ? & _)|destruct (assertMemInhibit_frame p) as (? & ? & _)|
      destruct (setSupplyExclusive_frame p) as (? & ? & _)]; done. }
  unfold Packet.frame, Packet.route in *. injection H1 as -> -> _. injection H2 as -> _. done.
Qed.

Lemma checkWrite_ask b p ok b' p' : CacheBlk.checkWrite b p = Some (ok, b', p') → same_ask p p'.
Proof.
  unfold CacheBlk.checkWrite. destruct (Packet.isLLSC p); [|by intros [= <- <- <-]].
  obind [ctx|]. by intros [= <- <- <-].
Qed.

Lemma cmpAndSwap_frame x r p x' p' : cmpAndSwap x r p = Some (x', p') → core_frame x x' ∧ same_ask p p'.
Proof.
  unfold cmpAndSwap. obind [b|]. obind [a|]. obind [sz|]. destruct (_ <=? _); [|done]. obind [v|].
  obind [p1|] E1. apply setData_ask in E1. obind [w|]. destruct w.
  - obind [d|]. intros [= <- <-]. split; [apply upd_frame|done].
  - by intros [= <- <-].
Qed.

Lemma satisfy_frame x p r x' p' : satisfyCpuSideRequest x p r = Some (x', p') → core_frame x x' ∧ same_ask p p'.
Proof.
  unfold satisfyCpuSideRequest. obind [b|]. obind [off|]. obind [sz|]. destruct (_ <? _); [done|].
  destruct (decide _); [apply cmpAndSwap_frame|]. destruct (Packet.isWrite p).
  { obind [[[ok b'] p1]|] Ew. apply checkWrite_ask in Ew.
    destruct ok; [|by intros [= <- <-]; split; [apply upd_frame|]]. obind [d|]. by intros [= <- <-]; split; [apply upd_frame|]. }
  destruct (Packet.isRead p).
  { obind [b'|]. obind [p1|] E1. apply setDataFromBlock_ask in E1.
    destruct (_ =? _); [|by intros [= <- <-]; split; [apply upd_frame|]]. destruct (Packet.needsExclusive p1).
    - obind [y|] Ei. intros [= <- <-]. split; [|done]. etransitivity; [apply (upd_frame x r)|by eapply invalidate_frame].
    - intros [= <- <-]. split; [|etransitivity; [done|apply lines_ask; by left]].
      etransitivity; [apply (upd_frame x r)|apply upd_frame]. }
  destruct (Packet.isUpgrade p); [|done]. obind [y|] Ei. intros [= <- <-]. split; [by eapply invalidate_frame|done].
Qed.

Lemma incHit_frame x p id x' : incHitCount x p id = Some x' → core_frame x x'.
Proof. unfold incHitCount. obind [k|]. by intros [= <-]. Qed.

Lemma incMiss_frame x p id x' : incMissCount x p id = Some x' → core_frame x x'.
Proof. unfold incMissCount. obind [k|]. by intros [= <-]. Qed.

(** What a writeback is. *)
Definition is_wb (p : Packet.t) : Prop := Packet.cmd p = Writeback.

Lemma allocate_ask bs p p' : Packet.allocate bs p = Some p' → Packet.cmd p' = Packet.cmd p.
Proof. unfold Packet.allocate. destruct (Packet.data p); [case_match; by intros [= <-]|]. case_match; [|done]. obind [n|]. by intros [= <-]. Qed.

Lemma writebackBlk_frame t x r wb x' : writebackBlk t x r = Some (wb, x') → core_frame x x' ∧ is_wb wb.
Proof.
  unfold writebackBlk. obind [b|]. destruct (_ && _); [|done]. obind [rq|]. obind [p|] Ep. obind [d|]. obind [d'|].
  intros [= <- <-]. split; [by etransitivity; [|apply upd_frame]|]. apply allocate_ask in Ep.
  unfold is_wb. cbn. rewrite Ep. unfold Packet.new. by repeat case_match.
Qed.

Lemma allocateBlock_frame t x a wbs o wbs' x' :
  allocateBlock t x a wbs = Some (o, wbs', x') → core_frame x x' ∧ (Forall is_wb wbs → Forall is_wb wbs').
Proof.
  unfold allocateBlock. obind [[i l]|]. obind [b|]. destruct (isValid b); [|by intros [= <- <- <-]].
  destruct (findMatch _ _ _).
  { obind [m|]. destruct (isWritable b); [done|]. destruct (needsExclusive m); [|done]. by intros [= <- <- <-]. }
  destruct (isDirty b); [|by intros [= <- <- <-]]. obind [[wb y]|] Ew. apply writebackBlk_frame in Ew as [Hf Hw].
  intros [= <- <- <-]. split; [by etransitivity; [apply tags_frame|]|]. intros H. apply Forall_app. by rewrite Forall_singleton.
Qed.

Lemma handleFill_frame t x p fin blk wbs r wbs' x' :
  CacheCtl.handleFill t x p fin blk wbs = Some (r, wbs', x') → core_frame x x' ∧ (Forall is_wb wbs → Forall is_wb wbs').
Proof.
  unfold CacheCtl.handleFill. obind [a|].
  match goal with |- ?o ≫= _ = _ → _ => destruct o as [[[r1 wbs1] x1]|] eqn:E1; [cbn [mbind option_bind]|done] end.
  assert (core_frame x x1 ∧ (Forall is_wb wbs → Forall is_wb wbs1)) as [H1 H2].
  { revert E1. destruct blk as [r0|].
    - obind [b|]. destruct (_ && _); [|done]. by intros [= <- <- <-].
    - destruct (Packet.hasData p); [|done]. obind [[[o wbs2] x2]|] Ea. apply allocateBlock_frame in Ea as [Hf Hw].
      destruct o as [i|]; [obind [l|]; by intros [= <- <- <-]|]. destruct (isValid _); [done|]. by intros [= <- <- <-]. }
  obind [b|]. obind [d|]. intros [= <- <- <-]. split; [|done]. etransitivity; [exact H1|].
  etransitivity; [apply (upd_frame x1 r1)|apply upd_frame].
Qed.

(** What an access leaves. *)
Definition access_kept (x : Cache) (p : Packet.t) (r : AccessResult) : Prop :=
  core_frame x (ac_cache r) ∧ same_ask p (ac_pkt r) ∧ Forall is_wb (ac_wbs r).

Lemma access_writeback_frame t x p a lat blk r : access_writeback t x p a lat blk = Some r → access_kept x p r.
Proof.
  unfold access_writeback. obind [sz|]. destruct (_ =? _); [|done].
  match goal with |- ?o ≫= _ = _ → _ => destruct o as [[[o1 wbs1] x1]|] eqn:E1; [cbn [mbind option_bind]|done] end.
  assert (core_frame x x1 ∧ Forall is_wb wbs1) as [H1 H2].
  { revert E1. destruct blk as [i|]; [by intros [= <- <- <-]|]. obind [[[o wbs] x2]|] Ea.
    apply allocateBlock_frame in Ea as [Hf Hw]. destruct o as [i|]; [|by intros [= <- <- <-]; auto].
    obind [l|]. intros [= <- <- <-]. split; [exact Hf|auto]. }
  destruct o1 as [i|].
  - obind [b|]. obind [buf|]. obind [d|]. destruct (Packet.needsResponse p); [done|]. obind [x2|] Ei. intros [= <-].
    apply incHit_frame in Ei. split_and!; [|done..]. etransitivity; [exact H1|]. by etransitivity; [apply (upd_frame x1 (InTags i))|].
  - obind [x2|] Ei. intros [= <-]. apply incMiss_frame in Ei. split_and!; [|done..]. by etransitivity.
Qed.

Lemma access_miss_frame t x p a lat blk r : access_miss t x p a lat blk = Some r → access_kept x p r.
Proof.
  unfold access_miss. destruct (decide _); [apply access_writeback_frame|]. obind [x1|] Ei. apply incMiss_frame in Ei.
  destruct blk as [i|]; [by intros [= <-]|]. case_match; by intros [= <-].
Qed.

Lemma access_frame t x p r : access t x p = Some r → access_kept x p r.
Proof.
  unfold access. destruct (Request.isUncacheable _); [by intros [= <-]|]. obind [a|]. obind [[[blk lat] l]|].
  destruct blk as [i|]; [|apply access_miss_frame]. obind [b|].
  match goal with |- (if ?b then _ else _) = _ → _ => destruct b end; [|apply access_miss_frame].
  obind [x1|] Ei. obind [[x2 p2]|] Es. intros [= <-]. apply incHit_frame in Ei. apply satisfy_frame in Es as [Hf Hp].
  split_and!; [|done..]. by etransitivity.
Qed.

End Frames.

(** ** The invariant *)

(** The number of targets with which a register is full. *)
Class TargetLimit := target_limit : Z.

Section Invariant.
Context {E : PfEngine} {L : TargetLimit}.
Implicit Types c : TCache pstate.

Definition has_pf c : bool := match prefetcher c with Some _ => true | None => false end.
Definition pf_queue c : list Packet.t := match prefetcher c with Some s => pf s | None => [] end.
Definition regs c : list nat := registers (mshrQueue (core c)) ++ registers (writeBuffer c).
Definition other (i : QIndex) : QIndex := match i with MSHRs => WriteBuffer | WriteBuffer => MSHRs end.

(** The two queues share the heap; the registers of the heap are theirs. *)
Record regs_ok c : Prop := {
  rg_queue i : queue_ok (order c) (heap (core c)) (get_queue c i);
  rg_size i : numReserve (get_queue c i) <= numEntries (get_queue c i);
  rg_nodup : NoDup (regs c);
  rg_dom id : is_Some (heap (core c) !! id) → id ∈ regs c;
  rg_targets : targets_ok (has_pf c) (heap (core c))
}.

(** The responses owed to the cpu side. *)
Definition list_owed (l : list (Z * Packet.t)) : list Ticket := (λ x, answered x.2) <$> l.
Definition reg_owed c : list Ticket := owed_in (heap (core c)) (regs c).
Definition owed c : list Ticket := reg_owed c ++ list_owed (transmitList (port (cpuSidePort c))).

Definition blocked_by c (b : BlockedCause) : bool := Z.testbit (blocked c) (cause_bit b).

(** The flags of the cpu side port say whether there is a cause. *)
Record flags_ok c : Prop := {
  fl_range : 0 <= blocked c < 8;
  fl_port : p_blocked (cpuSidePort c) = negb (blocked c =? 0);
  fl_retry : mustSendRetry (cpuSidePort c) = true → p_blocked (cpuSidePort c) = true
}.

(** What is known of the register that has all its targets. *)
Definition where_ok c : Prop := has_pf c = false → ∀ id, noTargetMSHR c = Some id →
  id ∈ allocatedList (mshrQueue (core c)) ∧ ∃ m, heap (core c) !! id = Some m ∧ Z.max 2 target_limit <= ntargets m.

(** A full queue is a cause, and so is a register with all its targets; without a
    prefetcher there are no other causes. *)
Record block_ok c : Prop := {
  bl_flags : flags_ok c;
  bl_full i : isFull (get_queue c i) = true → blocked_by c (cause_of i) = true;
  bl_exact i : has_pf c = false → blocked_by c (cause_of i) = true → isFull (get_queue c i) = true;
  bl_target : blocked_by c NoTargets = bool_decide (is_Some (noTargetMSHR c));
  bl_where : where_ok c
}.

(** The port of the memory side: its event is also that of the registers. *)
Record mem_core (now : Z) (tp : TPort) : Prop := {
  mc_wait : waitingOnRetry tp = true → sendEvent tp = None;
  mc_event u : sendEvent tp = Some u → now <= u;
  mc_times : Forall (λ x, x.1 < MaxTick) (transmitList tp)
}.

(** The events that tell the cpu side to send again are due at this tick or the next. *)
Definition retries_ok (now : Z) c : Prop := Forall (λ u, now <= u <= now + 1) (retryEvents (cpuSidePort c)).

Record tc_ok (now : Z) c : Prop := {
  ok_now : early now;
  ok_regs : regs_ok c;
  ok_pfq : Forall is_pf (pf_queue c);
  ok_block : block_ok c;
  ok_cpu : tp_core now (port (cpuSidePort c));
  ok_mem : mem_core now (port (memSidePort c));
  ok_lat : 0 <= c_hitLatency (core c) < 2 ^ 61;
  ok_retries : retries_ok now c
}.

(** Somebody will send what there is for the memory side. *)
Definition port_busy (tp : TPort) : Prop := waitingOnRetry tp = true ∨ is_Some (sendEvent tp).
Definition mem_busy c : Prop := port_busy (port (memSidePort c)).
Definition mem_work c : Prop :=
  transmitList (port (memSidePort c)) ≠ [] ∨ ∃ i, readyList (get_queue c i) ≠ [].
Definition mem_awake c : Prop := mem_work c → mem_busy c.

(** A refused requester will be told. *)
Definition retry_due c : Prop := mustSendRetry (cpuSidePort c) = true ∨ retryEvents (cpuSidePort c) ≠ [].

(** ** What operations do *)

(** New debts [l]; nothing leaves the list of the cpu side port. *)
Record grows (now : Z) (l : list Ticket) c c' : Prop := {
  gr_owed : owed c' ≡ₚ l ++ owed c;
  gr_pf : has_pf c' = has_pf c;
  gr_list : ∃ new, transmitList (port (cpuSidePort c')) ≡ₚ new ++ transmitList (port (cpuSidePort c)) ∧ Forall (λ x, now < x.1) new;
  gr_wait : waitingOnRetry (port (cpuSidePort c')) = waitingOnRetry (port (cpuSidePort c));
  gr_awake : awake (port (cpuSidePort c)) → awake (port (cpuSidePort c'));
  gr_retry : retry_due c → retry_due c'
}.

Definition mem_keeps c c' : Prop := (mem_busy c → mem_busy c') ∧ (mem_work c' → mem_work c ∨ mem_busy c').

Definition steps (now : Z) (l : list Ticket) c c' : Prop := tc_ok now c' ∧ grows now l c c' ∧ mem_keeps c c'.

(** The queues stay as they are. *)
Definition calm c c' : Prop :=
  mshrQueue (core c') = mshrQueue (core c) ∧ writeBuffer c' = writeBuffer c ∧ noTargetMSHR c' = noTargetMSHR c ∧
  order c' = order c.

#[export] Instance mem_keeps_preorder : PreOrder mem_keeps.
Proof. split; [by intros c; split; auto|]. intros x y z [H1 H2] [H3 H4]. split; [auto|]. intros [H|]%H4; [|by right]. destruct (H2 H); auto. Qed.

#[export] Instance calm_preorder : PreOrder calm.
Proof. split; [by intros c|]. intros x y z (H1 & H2 & H3 & H4) (H5 & H6 & H7 & H8). unfold calm. by rewrite H5, H6, H7, H8. Qed.

Lemma mem_keeps_awake c c' : mem_keeps c c' → mem_awake c → mem_awake c'.
Proof. intros [H1 H2] Ha [Hw|]%H2; [|done]. auto. Qed.

Lemma busy_keeps c c' : mem_busy c' → mem_keeps c c'.
Proof. intros H. split; auto. Qed.

Lemma grows_refl now c : grows now [] c c.
Proof. split; try done. by exists []. Qed.

Lemma grows_trans now l1 l2 c1 c2 c3 : grows now l1 c1 c2 → grows now l2 c2 c3 → grows now (l2 ++ l1) c1 c3.
Proof.
  intros [O1 P1 (n1 & L1 & F1) W1 A1 R1] [O2 P2 (n2 & L2 & F2) W2 A2 R2]. split; try congruence; auto.
  - by rewrite O2, O1, app_assoc.
  - exists (n2 ++ n1). rewrite L2, L1, app_assoc. split; [done|]. by apply Forall_app.
Qed.

Lemma steps_refl now c : tc_ok now c → steps now [] c c.
Proof. intros H. split_and!; [done|apply grows_refl|done]. Qed.

Lemma steps_trans now l1 l2 c1 c2 c3 : steps now l1 c1 c2 → steps now l2 c2 c3 → steps now (l2 ++ l1) c1 c3.
Proof. intros (_ & G1 & M1) (T2 & G2 & M2). split_and!; [done|by eapply grows_trans|by etransitivity]. Qed.

Lemma grows_then now l c1 c2 c3 : grows now l c1 c2 → grows now [] c2 c3 → grows now l c1 c3.
Proof. intros H1 H2. exact (grows_trans now l [] c1 c2 c3 H1 H2). Qed.

Lemma steps_then now l c1 c2 c3 : steps now l c1 c2 → steps now [] c2 c3 → steps now l c1 c3.
Proof. intros H1 H2. exact (steps_trans now l [] c1 c2 c3 H1 H2). Qed.

Lemma after_steps now l c1 c2 c3 : steps now [] c1 c2 → steps now l c2 c3 → steps now l c1 c3.
Proof. intros H1 H2. pose proof (steps_trans now [] l c1 c2 c3 H1 H2) as H. by rewrite app_nil_r in H. Qed.

Lemma grows_perm now l l' c c' : grows now l c c' → l ≡ₚ l' → grows now l' c c'.
Proof. intros [] Hp. split; try done. by rewrite <- Hp. Qed.

Lemma steps_perm now l l' c c' : steps now l c c' → l ≡ₚ l' → steps now l' c c'.
Proof. intros (H1 & H2 & H3) Hp. split_and!; [done|by eapply grows_perm|done]. Qed.

(** The cpu side port and the registers are the same. *)
Lemma grows_same now c c' :
  reg_owed c' ≡ₚ reg_owed c → has_pf c' = has_pf c → cpuSidePort c' = cpuSidePort c → grows now [] c c'.
Proof. intros Hr Hp Hc. split; unfold owed, retry_due; rewrite ?Hc; try done; [by rewrite Hr|]. by exists []. Qed.

(** The queues are the same, the port of the memory side is. *)
Lemma keeps_same c c' :
  (∀ i j, j ∈ readyList (get_queue c' i) → j ∈ readyList (get_queue c i)) → memSidePort c' = memSidePort c → mem_keeps c c'.
Proof.
  intros Hr Hm. unfold mem_keeps, mem_busy, mem_work. rewrite Hm. split; [auto|]. intros [H|[i Hi]]; [by left; left|].
  left. right. exists i. destruct (readyList (get_queue c' i)) as [|j l] eqn:El; [done|].
  specialize (Hr i j). rewrite El in Hr. intros Hn. rewrite Hn in Hr. specialize (Hr ltac:(by left)). by apply elem_of_nil in Hr.
Qed.

(** A change of the blocks. *)
Lemma regs_ok_core c x : core_frame (core c) x → regs_ok c → regs_ok (with_core c x).
Proof.
  intros (Hh & Hq & _) [Q S N D T]. unfold regs in *. split; unfold regs; cbn; rewrite ?Hh, ?Hq; try done.
  - intros i. specialize (Q i). destruct i; cbn in *; by rewrite ?Hq.
  - intros i. specialize (S i). destruct i; cbn in *; by rewrite ?Hq.
Qed.

Lemma core_queue c x i : core_frame (core c) x → get_queue (with_core c x) i = get_queue c i.
Proof. intros (_ & Hq & _). by destruct i. Qed.

Lemma core_steps now c x : core_frame (core c) x → tc_ok now c → steps now [] c (with_core c x).
Proof.
  intros Hf [Hn Hr Hp Hb Hc Hm Hl Hv]. pose proof Hf as (Hh & Hq & Hlat). split_and!.
  - split; try done; [by apply regs_ok_core| |by cbn; rewrite Hlat].
    destruct Hb as [B1 B2 B3 B4 B5]. split; try done.
    + by destruct B1.
    + intros i. rewrite core_queue by done. apply B2.
    + intros i. rewrite core_queue by done. apply B3.
    + unfold where_ok in *. cbn. by rewrite Hh, Hq.
  - apply grows_same; try done. unfold reg_owed, regs. cbn. by rewrite Hh, Hq.
  - apply keeps_same; [|done]. intros i j. by rewrite core_queue.
Qed.

Lemma core_calm c x : core_frame (core c) x → calm c (with_core c x).
Proof. by intros (_ & Hq & _). Qed.


(** ** Registers and queues *)

Lemma regs_split c i id : regs_ok c → id ∈ registers (get_queue c i) → id ∈ regs c ∧ id ∉ registers (get_queue c (other i)).
Proof.
  intros [_ _ N _ _] Hid. unfold regs in *. apply NoDup_app in N as (_ & N & _). destruct i; cbn in *.
  - split; [apply elem_of_app; by left|]. by apply N.
  - split; [apply elem_of_app; by right|]. intros Hx. by apply (N id).
Qed.

(** A change at one register, and in the queue that it belongs to. *)
Lemma change_ok c c' i id l :
  regs_ok c → id ∈ registers (get_queue c i) →
  at_reg (has_pf c) (heap (core c)) (heap (core c')) id l →
  queue_ok (order c') (heap (core c')) (get_queue c' i) → shape (get_queue c' i) = shape (get_queue c i) →
  get_queue c' (other i) = get_queue c (other i) → has_pf c' = has_pf c →
  regs_ok c' ∧ ∃ rest, reg_owed c ≡ₚ owed_by (heap (core c)) id ++ rest ∧ reg_owed c' ≡ₚ l ++ rest.
Proof.
  intros Hr Hid [Ho He Hs] Hq Hsh Hoth Hpf. destruct (regs_split c i id Hr Hid) as [Hin Hni].
  assert (regs c' = regs c) as Hregs.
  { unfold regs. unfold shape in Hsh. destruct i; cbn in *; rewrite ?Hoth; by injection Hsh as -> _ _. }
  split.
  - destruct Hr as [Q S N D T]. split.
    + intros j. assert (j = i ∨ j = other i) as [->| ->] by (destruct i, j; auto); [done|].
      rewrite Hoth. eapply other_queue; [apply Q|apply Hq|]. intros k Hk. apply He. by intros ->.
    + intros j. assert (j = i ∨ j = other i) as [->| ->] by (destruct i, j; auto); [|by rewrite Hoth].
      specialize (S i). unfold shape in Hsh. injection Hsh as _ -> ->. done.
    + by rewrite Hregs.
    + intros k Hk. rewrite Hregs. destruct (decide (k = id)) as [->|Hne]; [done|]. apply D.
      specialize (He k Hne). unfold erase_dp in He. destruct (heap (core c') !! k); [|by destruct Hk].
      by destruct (heap (core c) !! k).
    + rewrite Hpf. apply Ho.
  - unfold reg_owed. rewrite Hregs. eapply owed_in_change; [exact Ho| |done]. apply Hr.
Qed.

(** Counters of targets are not flags. *)
Lemma ntargets_kept h h' j m : erase_dp h' j = erase_dp h j → h !! j = Some m → ∃ m', h' !! j = Some m' ∧ ntargets m' = ntargets m.
Proof.
  unfold erase_dp. intros He Hm. rewrite Hm in He. destruct (h' !! j) as [m'|]; [|done]. apply (inj Some) in He.
  exists m'. split; [done|]. exact (f_equal ntargets He).
Qed.

Lemma where_change c c' id l :
  where_ok c → at_reg (has_pf c) (heap (core c)) (heap (core c')) id l → noTargetMSHR c' = noTargetMSHR c →
  has_pf c' = has_pf c →
  (has_pf c = false → ∀ j, noTargetMSHR c = Some j → j ∈ allocatedList (mshrQueue (core c)) → j ∈ allocatedList (mshrQueue (core c'))) →
  (has_pf c = false → noTargetMSHR c = Some id → ∀ m, heap (core c) !! id = Some m → Z.max 2 target_limit <= ntargets m →
     ∃ m', heap (core c') !! id = Some m' ∧ Z.max 2 target_limit <= ntargets m') →
  where_ok c'.
Proof.
  intros Hw [_ He _] Hn Hpf Ha Hm Hp j Hj. rewrite Hn in Hj. rewrite Hpf in Hp. destruct (Hw Hp j Hj) as (Hin & m & Hmj & H2). split; [auto|].
  destruct (decide (j = id)) as [->|Hne]; [by eapply Hm|].
  destruct (ntargets_kept _ _ j m (He j Hne) Hmj) as (m' & Hm' & E'). exists m'. split; [done|]. by rewrite E'.
Qed.

(** The heap is changed at one allocated register, and the queues are not. *)
Lemma heap_steps now c i id h' o' l δ :
  tc_ok now c → id ∈ registers (get_queue c i) →
  at_reg (has_pf c) (heap (core c)) h' id l → queue_ok o' h' (get_queue c i) → l ≡ₚ δ ++ owed_by (heap (core c)) id →
  (has_pf c = false → noTargetMSHR c = Some id → ∀ m, heap (core c) !! id = Some m → Z.max 2 target_limit <= ntargets m → ∃ m', h' !! id = Some m' ∧ Z.max 2 target_limit <= ntargets m') →
  steps now δ c (with_order (with_heap c h') o').
Proof.
  intros [Hn Hr Hp Hb Hc Hm Hl Hv] Hid Ha Hq Hδ H2. set (c' := with_order (with_heap c h') o').
  assert (∀ j, get_queue c' j = get_queue c j) as Eq by (by intros []).
  destruct (change_ok c c' i id l) as (Hr' & rest & Ho & Ho'); try done; try by rewrite ?Eq.
  split_and!.
  - split; try done. destruct Hb as [B1 B2 B3 B4 B5]. split; try done; [by destruct B1|].
    by apply (where_change c c' id l).
  - split; try done; [|by exists []]. unfold owed. rewrite Ho', Ho, Hδ. cbn. by rewrite <- !app_assoc.
  - apply keeps_same; [|done]. intros j k. by rewrite Eq.
Qed.

(** The same with the order as it is. *)
Lemma heap_steps0 now c i id h' l δ :
  tc_ok now c → id ∈ registers (get_queue c i) →
  at_reg (has_pf c) (heap (core c)) h' id l → queue_ok (order c) h' (get_queue c i) → l ≡ₚ δ ++ owed_by (heap (core c)) id →
  (has_pf c = false → noTargetMSHR c = Some id → ∀ m, heap (core c) !! id = Some m → Z.max 2 target_limit <= ntargets m → ∃ m', h' !! id = Some m' ∧ Z.max 2 target_limit <= ntargets m') →
  steps now δ c (with_heap c h').
Proof.
  intros. assert (with_heap c h' = with_order (with_heap c h') (order c)) as -> by (by destruct c).
  by eapply heap_steps.
Qed.

Lemma heap_calm c h' : calm c (with_heap c h').
Proof. done. Qed.

(** ** Blocking *)

Lemma blocked_bits z k j : 0 <= j → 0 <= k → Z.testbit (Z.lor z (Z.shiftl 1 k)) j = Z.testbit z j || (k =? j).
Proof. intros. rewrite Z.lor_spec, Z.shiftl_1_l, Z.pow2_bits_eqb by lia. done. Qed.

Lemma cleared_bits z k j : 0 <= j → 0 <= k → Z.testbit (Z.ldiff z (Z.shiftl 1 k)) j = Z.testbit z j && negb (k =? j).
Proof. intros. rewrite Z.ldiff_spec, Z.shiftl_1_l, Z.pow2_bits_eqb by lia. done. Qed.

Lemma small_cases z : 0 <= z < 8 → z ∈ [0; 1; 2; 3; 4; 5; 6; 7].
Proof. intros H. rewrite !elem_of_cons. lia. Qed.

(** A statement about the causes is checked by cases. *)
Ltac by_cases z H :=
  apply small_cases in H; revert H; generalize z; intros ? H;
  repeat (apply elem_of_cons in H as [->|H]; [vm_compute; try done|]); try (by apply elem_of_nil in H).

Lemma lor_small z b : 0 <= z < 8 → 0 <= Z.lor z (Z.shiftl 1 (cause_bit b)) < 8 ∧ Z.lor z (Z.shiftl 1 (cause_bit b)) ≠ 0.
Proof. intros H. destruct b; by_cases z H. Qed.

Lemma ldiff_small z b : 0 <= z < 8 → 0 <= Z.ldiff z (Z.shiftl 1 (cause_bit b)) < 8.
Proof. intros H. destruct b; by_cases z H. Qed.

Lemma some_cause z : 0 <= z < 8 → z ≠ 0 → ∃ b, Z.testbit z (cause_bit b) = true.
Proof.
  intros H Hz. revert Hz. apply small_cases in H.
  repeat (apply elem_of_cons in H as [->|H]; [intros Hz; first [done|by exists NoMSHRs|by exists NoWBBuffers|by exists NoTargets]|]).
  by apply elem_of_nil in H.
Qed.

Lemma setBlocked_eq b c c' :
  flags_ok c → setBlocked b c = Some c' →
  let q := cpuSidePort c in
  c' = with_blocked (with_cpu c (with_block q true (mustSendRetry q) (retryEvents q)))
         (Z.lor (blocked c) (Z.shiftl 1 (cause_bit b))).
Proof.
  intros [_ Hp Hr]. unfold setBlocked, port_setBlocked. destruct (Z.eqb_spec (blocked c) 0) as [E0|E0].
  - cbn in Hp. rewrite Hp. cbn [mbind option_bind]. intros [= <-]. cbv zeta.
    destruct (mustSendRetry (cpuSidePort c)) eqn:Em; [by rewrite Hr in Hp|]. done.
  - cbn [mbind option_bind]. intros [= <-]. cbv zeta. f_equal. cbn in Hp.
    clear -Hp. destruct c as [? ? ? ? ? ? [? ? ? ?]]. cbn in *. by subst.
Qed.

Lemma clearBlocked_eq now b c c' :
  flags_ok c → blocked_by c b = true → clearBlocked now b c = Some c' →
  let q := cpuSidePort c in let z := Z.ldiff (blocked c) (Z.shiftl 1 (cause_bit b)) in
  c' = with_blocked (with_cpu c (with_block q (negb (z =? 0)) (negb (z =? 0) && mustSendRetry q)
         (if (z =? 0) && mustSendRetry q then retryEvents q ++ [s64 (now + 1)] else retryEvents q))) z.
Proof.
  intros [_ Hp Hr] Hb. unfold clearBlocked, port_clearBlocked. cbn [blocked with_blocked cpuSidePort].
  assert (p_blocked (cpuSidePort c) = true) as Hpb.
  { rewrite Hp. destruct (Z.eqb_spec (blocked c) 0) as [Eb|]; [|done]. unfold blocked_by in Hb. by rewrite Eb, Z.bits_0 in Hb. }
  destruct (Z.eqb_spec (Z.ldiff (blocked c) (Z.shiftl 1 (cause_bit b))) 0) as [E0|E0]; rewrite ?Hpb.
  - cbn [mbind option_bind]. intros [= <-]. cbv zeta. cbn. by destruct (mustSendRetry (cpuSidePort c)).
  - intros [= <-]. cbv zeta. clear -Hpb. destruct c as [? ? ? ? ? ? [? ? ? ?]]. cbn in *. by subst.
Qed.

(** What a change of the causes leaves. *)
Lemma block_grows now c q z :
  port q = port (cpuSidePort c) → (retry_due c → mustSendRetry q = true ∨ retryEvents q ≠ []) →
  grows now [] c (with_blocked (with_cpu c q) z).
Proof. intros Hq Hr. split; unfold owed, retry_due in *; cbn; rewrite ?Hq; try done. by exists []. Qed.

(** Everything but the causes and the flags of the cpu side port. *)
Record upto_blocked (now : Z) c c' : Prop := {
  ub_core : core c' = core c;
  ub_wb : writeBuffer c' = writeBuffer c;
  ub_order : order c' = order c;
  ub_pf : prefetcher c' = prefetcher c;
  ub_cpu : port (cpuSidePort c') = port (cpuSidePort c);
  ub_mem : memSidePort c' = memSidePort c;
  ub_retry : retry_due c → retry_due c';
  ub_events : early now → retries_ok now c → retries_ok now c'
}.

Lemma upto_refl now c : upto_blocked now c c.
Proof. by split. Qed.

Lemma upto_queue {now} c c' i : upto_blocked now c c' → get_queue c' i = get_queue c i.
Proof. intros []. destruct i; cbn; congruence. Qed.

Lemma upto_regs {now} c c' : upto_blocked now c c' → regs_ok c → regs_ok c'.
Proof.
  intros Hu [Q S N D T]. assert (has_pf c' = has_pf c) as Hpf by (unfold has_pf; by rewrite (ub_pf _ _ _ Hu)).
  split; unfold regs; rewrite ?Hpf, ?(ub_core _ _ _ Hu), ?(ub_wb _ _ _ Hu), ?(ub_order _ _ _ Hu); try done.
  - intros i. rewrite (upto_queue c c') by done. apply Q.
  - intros i. rewrite (upto_queue c c') by done. apply S.
Qed.

Lemma setBlocked_ok {now} b c c' :
  flags_ok c → setBlocked b c = Some c' →
  upto_blocked now c c' ∧ flags_ok c' ∧ noTargetMSHR c' = noTargetMSHR c ∧
  ∀ b', blocked_by c' b' = blocked_by c b' || (cause_bit b =? cause_bit b').
Proof.
  intros Hf E1. pose proof (setBlocked_eq b c c' Hf E1) as Hc. cbv zeta in Hc. subst c'. split_and!; try done.
  - destruct (lor_small (blocked c) b (fl_range _ Hf)) as [H1 H2]. split; try done. cbn. by rewrite (proj2 (Z.eqb_neq _ _) H2).
  - intros b'. unfold blocked_by. cbn [blocked with_blocked with_cpu]. apply blocked_bits; [by destruct b'|by destruct b].
Qed.

Lemma clearBlocked_ok now b c c' :
  flags_ok c → blocked_by c b = true → clearBlocked now b c = Some c' →
  upto_blocked now c c' ∧ flags_ok c' ∧ noTargetMSHR c' = noTargetMSHR c ∧
  ∀ b', blocked_by c' b' = blocked_by c b' && negb (cause_bit b =? cause_bit b').
Proof.
  intros Hf Hb E1. pose proof (clearBlocked_eq now b c c' Hf Hb E1) as Hc. cbv zeta in Hc. subst c'.
  set (z := Z.ldiff (blocked c) (Z.shiftl 1 (cause_bit b))). split_and!; try done.
  - split; try done; [unfold retry_due; cbn; intros [->|H]|].
    + destruct (z =? 0); cbn; [right; by intros [_ ?]%app_nil|by left].
    + right. destruct ((z =? 0) && mustSendRetry (cpuSidePort c)); [by intros [_ ?]%app_nil|done].
    + intros He Hv. unfold retries_ok in *. cbn. destruct ((z =? 0) && mustSendRetry (cpuSidePort c)); [|done]. apply Forall_app. split; [done|].
      rewrite s64_small by (unfold early, is_s64 in *; lia). constructor; [lia|done].
  - split; try done; [by apply ldiff_small, Hf|]. cbn. by destruct (z =? 0).
  - intros b'. unfold blocked_by. cbn [blocked with_blocked with_cpu]. apply cleared_bits; [by destruct b'|by destruct b].
Qed.

(** A change at one register of a queue, up to the causes. *)
Lemma queue_steps now c c2 i h q o id l δ :
  tc_ok now c → id ∈ registers (get_queue c i) → at_reg (has_pf c) (heap (core c)) h id l → queue_ok o h q →
  shape q = shape (get_queue c i) → l ≡ₚ δ ++ owed_by (heap (core c)) id →
  upto_blocked now (with_order (with_queue c i h q) o) c2 → block_ok c2 →
  tc_ok now c2 ∧ grows now δ c c2 ∧ get_queue c2 i = q ∧ get_queue c2 (other i) = get_queue c (other i).
Proof.
  intros [Hn Hr Hp Hb Hc Hm Hl Hv] Hid Ha Hq Hsh Hδ Hu Hb2. set (c1 := with_order (with_queue c i h q) o) in *.
  assert (heap (core c1) = h ∧ get_queue c1 i = q ∧ get_queue c1 (other i) = get_queue c (other i) ∧ order c1 = o ∧
    has_pf c1 = has_pf c ∧ pf_queue c1 = pf_queue c ∧ c_hitLatency (core c1) = c_hitLatency (core c) ∧
    cpuSidePort c1 = cpuSidePort c ∧ memSidePort c1 = memSidePort c) as (E1 & E2 & E3 & E4 & E5 & E6 & E7 & E8 & E9)
    by (by destruct i).
  destruct (change_ok c c1 i id l) as (Hr' & rest & Ho & Ho'); try done; try by rewrite ?E1, ?E2, ?E3, ?E4.
  clearbody c1. pose proof (upto_regs c1 c2 Hu Hr') as Hr2. pose proof (upto_queue c1 c2 i Hu) as Q1.
  pose proof (upto_queue c1 c2 (other i) Hu) as Q2. destruct Hu as [U1 U2 U3 U4 U5 U6 U7 U8].
  assert (has_pf c2 = has_pf c1 ∧ pf_queue c2 = pf_queue c1) as [P1 P2] by (unfold has_pf, pf_queue; by rewrite U4).
  assert (reg_owed c2 = reg_owed c1) as HR by (unfold reg_owed, regs; by rewrite U1, U2).
  split_and!; try congruence.
  - split; rewrite ?P2, ?E6, ?U5, ?E8, ?U6, ?E9, ?U1, ?E7; try done. apply U8; [done|]. unfold retries_ok. by rewrite E8.
  - split; rewrite ?U5, ?E8, ?P1, ?E5; try done.
    + unfold owed. rewrite HR, U5, E8, Ho', Ho, Hδ. by rewrite <- !app_assoc.
    + by exists [].
    + intros H. apply U7. unfold retry_due in *. by rewrite E8.
Qed.

Lemma full_shape q q' : shape q' = shape q → allocated q <= allocated q' → isFull q = true → isFull q' = true.
Proof. unfold shape, isFull. intros [= _ -> ->] Hle H%Z.ltb_lt. apply Z.ltb_lt. lia. Qed.

(** After an allocation. *)
Lemma alloc_block {now} c c2 i h q o :
  block_ok c → shape q = shape (get_queue c i) → allocated q = allocated (get_queue c i) + 1 →
  let c1 := with_order (with_queue c i h q) o in
  where_ok c1 → (if isFull q then setBlocked (cause_of i) c1 else Some c1) = Some c2 →
  upto_blocked now c1 c2 ∧ block_ok c2.
Proof.
  intros [B1 B2 B3 B4 B5] Hsh Hal c1 Hw Hs.
  assert (flags_ok c1 ∧ get_queue c1 i = q ∧ get_queue c1 (other i) = get_queue c (other i) ∧ (∀ b, blocked_by c1 b = blocked_by c b) ∧
    noTargetMSHR c1 = noTargetMSHR c ∧ has_pf c1 = has_pf c) as (F1 & E1 & E2 & E3 & E4 & E5).
  { destruct B1. by destruct i. }
  assert (∀ j, isFull (get_queue c j) = true → isFull (get_queue c1 j) = true) as Hmono.
  { intros j. assert (j = i ∨ j = other i) as [->| ->] by (destruct i, j; auto); [|by rewrite E2].
    rewrite E1. apply full_shape; [done|lia]. }
  clearbody c1. destruct (isFull q) eqn:Efull.
  - apply (setBlocked_ok (now := now)) in Hs as (Hu & Hf & Hn & Hbits); [|done]. split; [done|].
    pose proof (λ j, upto_queue c1 c2 j Hu) as Q. split; [done|..].
    + intros j Hj. rewrite Hbits, E3. rewrite Q in Hj. assert (j = i ∨ j = other i) as [->| ->] by (destruct i, j; auto).
      * rewrite Z.eqb_refl. apply orb_true_r.
      * rewrite E2 in Hj. by rewrite B2.
    + intros j Hpf Hj. rewrite Q. unfold has_pf in Hpf, E5. rewrite (ub_pf _ _ _ Hu), E5 in Hpf. rewrite Hbits, E3 in Hj.
      assert (j = i ∨ j = other i) as [->| ->] by (destruct i, j; auto); [by rewrite E1|].
      apply Hmono, B3; [done|]. by destruct i; cbn in *; rewrite orb_false_r in Hj.
    + rewrite Hbits, E3, Hn, E4, B4. destruct i; cbn; apply orb_false_r.
    + intros Hpf id. rewrite Hn, (ub_core _ _ _ Hu). apply Hw. unfold has_pf in *. by rewrite <- (ub_pf _ _ _ Hu).
  - injection Hs as <-. split; [apply upto_refl|]. split; rewrite ?E3, ?E4, ?E5; try done.
    + intros j Hj. rewrite E3. assert (j = i ∨ j = other i) as [->| ->] by (destruct i, j; auto); [by rewrite E1, Efull in Hj|].
      apply B2. by rewrite E2 in Hj.
    + intros j Hpf Hj. rewrite E3 in Hj. by apply Hmono, B3.
Qed.

(** After a register has left its queue. *)
Lemma free_block now c c2 i h q :
  block_ok c → shape q = shape (get_queue c i) → allocated q <= allocated (get_queue c i) →
  let c1 := with_queue c i h q in
  where_ok c1 → (if isFull (get_queue c i) && negb (isFull q) then clearBlocked now (cause_of i) c1 else Some c1) = Some c2 →
  upto_blocked now c1 c2 ∧ block_ok c2.
Proof.
  intros [B1 B2 B3 B4 B5] Hsh Hal c1 Hw Hs.
  assert (flags_ok c1 ∧ get_queue c1 i = q ∧ get_queue c1 (other i) = get_queue c (other i) ∧ (∀ b, blocked_by c1 b = blocked_by c b) ∧
    noTargetMSHR c1 = noTargetMSHR c ∧ has_pf c1 = has_pf c) as (F1 & E1 & E2 & E3 & E4 & E5).
  { destruct B1. by destruct i. }
  assert (∀ j, isFull (get_queue c1 j) = true → isFull (get_queue c j) = true) as Hmono.
  { intros j. assert (j = i ∨ j = other i) as [->| ->] by (destruct i, j; auto); [|by rewrite E2].
    rewrite E1. by apply full_shape. }
  clearbody c1. destruct (isFull (get_queue c i) && negb (isFull q)) eqn:Efull.
  - zbool. apply clearBlocked_ok in Hs as (Hu & Hf & Hn & Hbits); [|done|by rewrite E3; apply B2]. split; [done|].
    pose proof (λ j, upto_queue c1 c2 j Hu) as Q. split; [done|..].
    + intros j Hj. rewrite Q in Hj. rewrite Hbits, E3. assert (j = i ∨ j = other i) as [->| ->] by (destruct i, j; auto).
      * rewrite E1 in Hj. congruence.
      * rewrite E2 in Hj. rewrite B2 by done. by destruct i.
    + intros j Hpf Hj. rewrite Q. unfold has_pf in Hpf, E5. rewrite (ub_pf _ _ _ Hu), E5 in Hpf. rewrite Hbits, E3 in Hj.
      assert (j = i ∨ j = other i) as [->| ->] by (destruct i, j; auto); [by rewrite Z.eqb_refl, andb_false_r in Hj|].
      rewrite E2. apply B3; [done|]. by apply andb_true_iff in Hj as [? _].
    + rewrite Hbits, E3, Hn, E4, B4. destruct i; cbn; apply andb_true_r.
    + intros Hpf id. rewrite Hn, (ub_core _ _ _ Hu). apply Hw. unfold has_pf in *. by rewrite <- (ub_pf _ _ _ Hu).
  - injection Hs as <-. split; [apply upto_refl|]. split; rewrite ?E3, ?E4, ?E5; try done.
    + intros j Hj. rewrite E3. by apply B2, Hmono.
    + intros j Hpf Hj. rewrite E3 in Hj. assert (j = i ∨ j = other i) as [->| ->] by (destruct i, j; auto); [|by rewrite E2; apply B3].
      rewrite E1. pose proof (B3 i Hpf Hj) as Hf. rewrite Hf in Efull. by apply negb_false_iff in Efull.
Qed.

(** A queue keeps its number of registers, or loses one that was a prefetch. *)
Lemma same_block c i h q o :
  block_ok c → shape q = shape (get_queue c i) → allocated q <= allocated (get_queue c i) →
  has_pf c = true ∨ allocated q = allocated (get_queue c i) →
  let c1 := with_order (with_queue c i h q) o in where_ok c1 → block_ok c1.
Proof.
  intros [B1 B2 B3 B4 B5] Hsh Hle Hal c1 Hw.
  assert (flags_ok c1 ∧ get_queue c1 i = q ∧ get_queue c1 (other i) = get_queue c (other i) ∧ (∀ b, blocked_by c1 b = blocked_by c b) ∧
    noTargetMSHR c1 = noTargetMSHR c ∧ has_pf c1 = has_pf c) as (F1 & E1 & E2 & E3 & E4 & E5).
  { destruct B1. by destruct i. }
  clearbody c1. split; rewrite ?E3, ?E4, ?E5; try done.
  - intros j Hj. rewrite E3. apply B2. assert (j = i ∨ j = other i) as [->| ->] by (destruct i, j; auto); [|by rewrite E2 in Hj].
    rewrite E1 in Hj. by eapply full_shape.
  - intros j Hpf Hj. rewrite E3 in Hj. specialize (B3 j Hpf Hj).
    assert (j = i ∨ j = other i) as [->| ->] by (destruct i, j; auto); [|by rewrite E2]. rewrite E1.
    destruct Hal as [Hx|Hx]; [congruence|]. eapply full_shape; [exact Hsh|lia|done].
Qed.

(** ** The ports *)

Definition new_mem c (tp : TPort) : TCache pstate := with_mem c (with_port (memSidePort c) tp).

Lemma mem_port_steps now c tp :
  tc_ok now c → mem_core now tp → mem_keeps c (new_mem c tp) → steps now [] c (new_mem c tp).
Proof.
  intros [Hn Hr Hp Hb Hc Hm Hl Hv] Hm' Hk. split_and!; [|by apply grows_same|done].
  split; try done; [by destruct Hr|]. destruct Hb as [B1 B2 B3 B4 B5]. split; try done. by destruct B1.
Qed.

Lemma schedSendEvent_mem now when tp tp' :
  early now → mem_core now tp → now <= when → schedSendEvent now when tp = Some tp' →
  mem_core now tp' ∧ transmitList tp' = transmitList tp ∧ port_busy tp'.
Proof.
  intros Hn Hm Hle. pose proof Hm as [Hw He Ht]. unfold schedSendEvent, schedule. destruct (waitingOnRetry tp) eqn:Ewt.
  - destruct (sendEvent tp); [done|]. intros [= <-]. split_and!; try done. by left.
  - destruct (sendEvent tp) as [u|] eqn:Ee.
    + destruct (Z.ltb_spec when u).
      * destruct (when <? now); [done|]. intros [= <-]. split_and!; try done; [|right; by eexists].
        split; cbn; try done; [congruence|]. by intros v [= <-].
      * intros [= <-]. split_and!; try done. right. rewrite Ee. by eexists.
    + destruct (_ <? _); [done|]. intros [= <-]. split_and!; try done; [|right; by eexists].
      split; cbn; try done; [congruence|]. by intros v [= <-].
Qed.

Lemma requestMemSideBus_ok now t c c' :
  tc_ok now c → now <= t → requestMemSideBus now t c = Some c' →
  steps now [] c c' ∧ mem_busy c' ∧ calm c c' ∧ ∃ tp, c' = new_mem c tp.
Proof.
  intros Hok Ht. unfold requestMemSideBus. destruct (waitingOnRetry _) eqn:Ew.
  { intros [= <-]. split_and!; [by apply steps_refl|by left|done|]. exists (port (memSidePort c)). by destruct c as [? ? ? ? ? ? ? []]. }
  obind [tp|] Es. intros [= <-]. apply schedSendEvent_mem in Es as (Hm & El & Hb); [|by apply Hok..|done].
  split_and!; [|done|done|by exists tp]. by apply mem_port_steps, busy_keeps.
Qed.

Lemma insert_before_later_perm when p l l' : insert_before_later when p l = Some l' → l' ≡ₚ (when, p) :: l.
Proof.
  revert l'. induction l as [|[t q] l IH]; intros l'; [done|]. cbn [insert_before_later]. destruct (_ <? _); [by intros [= <-]|].
  obind [l1|] E1. intros [= <-]. rewrite (IH l1 eq_refl). apply Permutation_swap.
Qed.

Section Responses.
Context (K : TConfig) (Hms : 0 <= ms K < 2 ^ 62).

Lemma mem_schedSendTiming_ok now p when tp tp' :
  early now → mem_core now tp → schedSendTiming (ms K) now p when tp = Some tp' →
  mem_core now tp' ∧ (port_busy tp → port_busy tp') ∧ (transmitList tp = [] → port_busy tp').
Proof.
  intros Hn Hm. unfold schedSendTiming. destruct (_ || _) eqn:Eg; [done|]. apply orb_false_iff in Eg as [G1 G2].
  rewrite negb_false_iff in G1, G2. rewrite s64_small in G2 by (unfold is_s64, early in *; lia). zbool.
  assert (when < MaxTick) as Hwm by (unfold early, MaxTick in *; lia).
  assert (∀ l, l ≡ₚ (when, p) :: transmitList tp → mem_core now (with_list tp l)) as Hnew.
  { intros l Hp. destruct Hm as [H1 H2 H3]. split; cbn; try done. rewrite Hp. by constructor. }
  destruct (transmitList tp) as [|[t q] l] eqn:El.
  - intros Es. apply schedSendEvent_mem in Es as (Hm' & _ & Hb); [|done|by apply Hnew|lia]. done.
  - destruct (Z.ltb_spec when t).
    + intros Es. apply schedSendEvent_mem in Es as (Hm' & _ & Hb); [|done|by apply Hnew|lia]. done.
    + destruct (_ <=? when).
      * intros [= <-]. split_and!; [|done|done]. apply (Hnew (((t, q) :: l) ++ [(when, p)])). by rewrite Permutation_app_comm.
      * obind [l1|] Ei. intros [= <-]. split_and!; [|done|done]. apply Hnew. rewrite (insert_before_later_perm _ _ _ _ Ei).
        apply Permutation_swap.
Qed.

Lemma mem_respond_ok now p t c c' : tc_ok now c → mem_respond K now p t c = Some c' → steps now [] c c' ∧ calm c c'.
Proof.
  intros Hok. unfold mem_respond. obind [tp|] Es. intros [= <-].
  apply mem_schedSendTiming_ok in Es as (Hm & Hb & Hb'); [|by apply Hok..]. split; [|done]. apply mem_port_steps; [done..|].
  split; [done|]. intros Hw. destruct (transmitList (port (memSidePort c))) as [|x l] eqn:El; [right; by apply Hb'|].
  left. left. by rewrite El.
Qed.

(** A response is put on the list of the cpu side port. *)
Lemma cpu_respond_ok now p t c c' :
  tc_ok now c → cpu_respond K now p t c = Some c' → steps now [answered p] c c' ∧ calm c c' ∧ core c' = core c.
Proof.
  intros [Hn Hr Hp Hb Hc Hm Hl Hv]. unfold cpu_respond. obind [tp|] Es. intros [= <-]. split; [|done].
  apply schedSendTiming_ok in Es as (Ht & Hc' & El & Hw & _ & Ha); [|done..]. split_and!.
  - split; try done; [by destruct Hr|]. destruct Hb as [B1 B2 B3 B4 B5]. split; try done. by destruct B1.
  - split; try done.
    + unfold owed, list_owed. cbn. rewrite El. cbn. symmetry. apply Permutation_middle.
    + exists [(t, p)]. split; [done|]. apply Forall_singleton. cbn. lia.
  - by apply keeps_same.
Qed.

End Responses.

(** ** Buffers *)

Definition tick_ok (now t : Z) : Prop := now <= t < MaxTick.

Lemma order_step o o' : next_order o = Some o' → o' = o + 1.
Proof. unfold next_order. destruct (_ <? _); [|done]. by intros [= <-]. Qed.

Definition pf_owed (p : Packet.t) : list Ticket := if decide (is_pf p) then [] else cpu_owed p.

Lemma allocateBuffer_ok now i a sz p t rb c id c' :
  tc_ok now c → tick_ok now t → (is_pf p → has_pf c = true) → allocateBuffer now i a sz p t rb c = Some (id, c') →
  tc_ok now c' ∧ grows now (pf_owed p) c c' ∧ id ∈ readyList (get_queue c' i) ∧
  (if rb then mem_busy c' else memSidePort c' = memSidePort c).
Proof.
  intros Hok Ht Hpf. unfold allocateBuffer. obind [[[h q] id1]|] Ea. obind [o|] Eo. apply order_step in Eo as ->.
  pose proof (ok_regs _ _ Hok) as Hr. pose proof (ok_block _ _ Hok) as Hb. pose proof (rg_queue _ Hr i) as Hq.
  pose proof (q_allocate_ok _ _ _ _ _ _ _ _ _ _ _ Hq Ea) as Hq'.
  apply (q_allocate_owes (has_pf c) (order c)) in Ea as (Ha & Ho & Hid & Hsh & Hal & Hn & Hrd & m & Hm & Hm0);
    [|done|by apply Hr|done|apply Ht].
  set (c1 := with_order (with_queue c i h q) (order c + 1)). obind [c2|] Es.
  assert (where_ok c1) as Hw1.
  { apply (where_change c c1 id1 (pf_owed p)); [exact (bl_where _ Hb)|by destruct i|by destruct i|by destruct i|..].
    - intros _ j _ Hj. destruct i; cbn in *; [|done]. rewrite Hal. apply elem_of_app. by left.
    - intros _ _ m1 Hm1. rewrite Hm in Hm1. injection Hm1 as <-. lia. }
  destruct (alloc_block (now := now) c c2 i h q (order c + 1)) as [Hu Hb2]; [done..|].
  destruct (queue_steps now c c2 i h q (order c + 1) id1 (pf_owed p) (pf_owed p)) as (Hok2 & Hg & Eq & _); try done.
  { by rewrite Ho, app_nil_r. }
  assert (id1 ∈ readyList (get_queue c2 i)) as Hrd2 by (by rewrite Eq).
  assert (memSidePort c2 = memSidePort c) as Em by (rewrite (ub_mem _ _ _ Hu); by destruct i).
  destruct rb.
  - obind [c3|] Er. intros [= <- <-]. apply requestMemSideBus_ok in Er as ((Hok3 & Hg3 & _) & Hbusy & (Q1 & Q2 & _) & _); [|done|apply Ht].
    split_and!; [done|by eapply grows_then| |done]. destruct i; cbn in *; by rewrite ?Q1, ?Q2.
  - cbn [mbind option_bind]. intros [= <- <-]. done.
Qed.

Lemma wb_owed p : is_wb p → pf_owed p = [] ∧ ¬ is_pf p.
Proof. unfold is_wb, pf_owed, is_pf, cpu_owed, Packet.needsResponse. intros ->. done. Qed.

Lemma no_response_owed p : Packet.needsResponse p = false → pf_owed p = [].
Proof. unfold pf_owed, cpu_owed. intros ->. by destruct (decide _). Qed.

(** A request of the cpu side in a new register. *)
Lemma buffered_ok now i a sz p t c id c' :
  tc_ok now c → tick_ok now t → (is_pf p → has_pf c = true) → allocateBuffer now i a sz p t true c = Some (id, c') →
  steps now (pf_owed p) c c'.
Proof.
  intros Hok Ht Hp Ea. apply allocateBuffer_ok in Ea as (H1 & H2 & _ & H3); [|done..]. split_and!; [done..|]. by apply busy_keeps.
Qed.

Lemma allocateWriteBuffer_ok now p t c id c' :
  tc_ok now c → tick_ok now t → ¬ is_pf p → allocateWriteBuffer now p t true c = Some (id, c') → steps now (cpu_owed p) c c'.
Proof.
  intros Hok Ht Hp. unfold allocateWriteBuffer. destruct (_ && _); [|done]. obind [a|]. obind [sz|]. intros Ea.
  assert (pf_owed p = cpu_owed p) as <- by (unfold pf_owed; by rewrite decide_False). by eapply buffered_ok.
Qed.

Lemma allocateUncachedReadBuffer_ok now p t c id c' :
  tc_ok now c → tick_ok now t → ¬ is_pf p → allocateUncachedReadBuffer now p t true c = Some (id, c') → steps now (cpu_owed p) c c'.
Proof.
  intros Hok Ht Hp. unfold allocateUncachedReadBuffer. destruct (_ && _); [|done]. obind [a|]. obind [sz|]. intros Ea.
  assert (pf_owed p = cpu_owed p) as <- by (unfold pf_owed; by rewrite decide_False). by eapply buffered_ok.
Qed.

Lemma buffer_writebacks_ok now t wbs : ∀ c c',
  tc_ok now c → tick_ok now t → Forall is_wb wbs → buffer_writebacks now t wbs c = Some c' → steps now [] c c'.
Proof.
  induction wbs as [|wb wbs IH]; intros c c' Hok Ht Hw; cbn [buffer_writebacks].
  { intros [= <-]. by apply steps_refl. }
  apply Forall_cons in Hw as [Hwb Hw]. destruct (wb_owed wb Hwb) as [E0 Hnp]. obind [[id c1]|] Ea.
  apply allocateWriteBuffer_ok in Ea; [|done..]. assert (cpu_owed wb = []) as E1.
  { unfold pf_owed in E0. by rewrite decide_False in E0. }
  rewrite E1 in Ea. intros Eb. eapply steps_then; [exact Ea|]. apply (IH c1 c'); try done. apply Ea.
Qed.

(** ** Sending and releasing *)

Lemma queue_of_reg c i id : regs_ok c → id ∈ registers (get_queue c i) → queue_of c id = i.
Proof.
  intros Hr Hid. destruct (regs_split c i id Hr Hid) as [_ Hni]. unfold queue_of. destruct i; cbn in *.
  - by rewrite bool_decide_eq_true_2.
  - by rewrite bool_decide_eq_false_2.
Qed.

Lemma in_some_queue c id : id ∈ regs c → id ∈ registers (get_queue c (queue_of c id)).
Proof.
  unfold regs, queue_of. intros [H|H]%elem_of_app; destruct (bool_decide_reflect (id ∈ registers (mshrQueue (core c)))); done.
Qed.

Lemma tc_markInService_ok now id c c' :
  tc_ok now c → id ∈ allocatedList (get_queue c (queue_of c id)) → markInService now id c = Some c' →
  tc_ok now c' ∧ grows now [] c c' ∧ mem_keeps c c'.
Proof.
  intros Hok Hid. unfold markInService. set (i := queue_of c id) in *. obind [[h q]|] Eq. intros Es.
  pose proof (ok_regs _ _ Hok) as Hr. pose proof (ok_block _ _ Hok) as Hb. pose proof (rg_queue _ Hr i) as Hq.
  pose proof (q_markInService_ok _ _ _ _ _ _ Hq Hid Eq) as Hq'. pose proof (alloc_reg Hq id Hid) as Hreg.
  pose proof Eq as Eq0. apply (q_markInService_owes (has_pf c)) in Eq as (Ha & Hsh & Hrd & Hal); [|by apply Hr].
  assert (where_ok (with_queue c i h q)) as Hw1.
  { apply (where_change c _ id (owed_by (heap (core c)) id)); [exact (bl_where _ Hb)|by destruct i|by destruct i|by destruct i|..].
    - intros Hp j Hj Hin. destruct i; cbn in *; [|done]. destruct Hal as [[-> _]|(Hal & _ & m & Hm & H1)]; [done|].
      rewrite Hal in Hin. apply elem_of_cons in Hin as [->|]; [|done].
      destruct (bl_where _ Hb Hp id Hj) as (_ & m' & Hm' & H2). rewrite Hm in Hm'. injection Hm' as <-. lia.
    - intros _ Hj m Hm H2. replace (heap (core (with_queue c i h q))) with h by (by destruct i).
      unfold q_markInService in Eq0. destruct (Mshr.markInService _ id) as [[h1 b]|] eqn:E1; [|done]. cbn [mbind option_bind] in Eq0.
      unfold Mshr.markInService in E1. rewrite Hm in E1. cbn [mbind option_bind] in E1. destruct (inService m); [done|].
      destruct (isForwardNoResponse m) as [[]|] eqn:Ef; [apply fnr_owed in Ef as [? _]; lia| |done]. cbn [mbind option_bind] in E1.
      assert (b = false ∧ ∀ j, erase_dp h1 j = erase_dp (<[id := set_inService m true]> (heap (core c))) j) as [-> He].
      { destruct (downstreamPending m); [by injection E1 as <- <-|]. destruct (tl_clearDownstreamPending _ _) as [h2|] eqn:Ec; [|done].
        injection E1 as <- <-. split; [done|]. intros k. by eapply tl_clear_spec. }
      destruct (list_erase id _); [|done]. injection Eq0 as <- _.
      destruct (ntargets_kept _ _ id _ (He id) (lookup_insert_eq _ _ _)) as (m' & Hm' & E'). exists m'. split; [done|]. by rewrite E'. }
  destruct (free_block now c c' i h q) as [Hu Hb']; [done|done| |done|done|].
  { destruct Hal as [[_ ->]|(_ & -> & _)]; lia. }
  assert (with_queue c i h q = with_order (with_queue c i h q) (order c)) as E0 by (destruct i; by destruct c). rewrite E0 in Hu.
  destruct (queue_steps now c c' i h q (order c) id (owed_by (heap (core c)) id) []) as (Hok' & Hg & Q1 & Q2); try done.
  split_and!; [done..|]. apply keeps_same; [|rewrite (ub_mem _ _ _ Hu); by destruct i].
  intros j k. assert (j = i ∨ j = other i) as [->| ->] by (destruct i, j; auto); rewrite ?Q1, ?Q2; auto.
Qed.

End Invariant.
