(* ===== verification/TimingSteps.v ===== *)
(** The operations of the cache controller in timing mode keep the invariant of
    [TimingInv]: requests and snoops, responses, what is sent through either port,
    functional accesses and draining. *)

From S2P Require Import Prelude IntMath PfInterface Packet CacheBlk Lru Mshr MshrQueue PfQueue PhysMem CacheCtl TPort CacheTiming MshrOwed TimingInv.

Section Steps.
Context {E : PfEngine} (K : TConfig) (Hms : 0 <= ms K < 2 ^ 62).

#[local] Instance config_limit : TargetLimit := numTarget K.
Implicit Types c : TCache pstate.

(** ** The prefetcher *)

Lemma prefetcher_steps now c s s' :
  tc_ok now c → prefetcher c = Some s → Forall is_pf (pf s') → steps now [] c (with_prefetcher c (Some s')).
Proof.
  intros [Hn Hr Hp Hb Hc Hm Hl Hv] Hs Hf. assert (has_pf (with_prefetcher c (Some s')) = has_pf c) as Hpf by (unfold has_pf; by rewrite Hs).
  split_and!; [|by apply grows_same|by apply keeps_same]. split; try done.
  - destruct Hr. split; try done. by rewrite Hpf.
  - destruct Hb as [B1 B2 B3 B4 B5]. split; try done. by destruct B1.
Qed.

Lemma prefetch_packet_pf ct p t a d q : prefetch_packet (pf_params K) ct p t a d = Some q → is_pf q.
Proof.
  unfold prefetch_packet. obind [r|]. obind [q1|] Ea. apply allocate_ask in Ea.
  assert (Packet.cmd q1 = HardPFReq) as Hq by (rewrite Ea; unfold Packet.new; by repeat case_match).
  intros [= <-]. unfold is_pf. by destruct (Request.context _) as [[? ?]|].
Qed.

Lemma insert_candidates_pf ct p t dls : ∀ q st addrs q' st',
  Forall is_pf q → insert_candidates (pf_params K) ct p t q st addrs dls = Some (q', st') → Forall is_pf q'.
Proof.
  induction dls as [|d dls IH]; intros q st addrs q' st' Hq; destruct addrs as [|a addrs]; cbn [insert_candidates]; try done;
    try (by intros [= <- <-]).
  obind [[q1 st1]|] Ei. apply IH. unfold insert_candidate in Ei. destruct (inPrefetch _ _ _); [by injection Ei as <- _|].
  revert Ei. obind [p1|] Ep. apply prefetch_packet_pf in Ep. destruct (_ =? _).
  - destruct q as [|x q]; [done|]. intros [= <- _]. apply Forall_cons in Hq as [_ Hq]. apply Forall_app. by rewrite Forall_singleton.
  - intros [= <- _]. apply Forall_app. by rewrite Forall_singleton.
Qed.

Lemma apply_calls_frame calls : ∀ x, core_frame x (foldl apply_call x calls).
Proof.
  induction calls as [|cl calls IH]; intros x; cbn [foldl]; [done|]. etransitivity; [|apply IH].
  destruct cl; unfold apply_call, setPrefetchBit, clearPrefetchBit; [done| |]; (destruct (findBlock _ _); [apply upd_frame|done]).
Qed.

Lemma pf_notify_ok now p t s c next c' :
  tc_ok now c → prefetcher c = Some s → pf_notify K now p t s c = Some (next, c') → steps now [] c c' ∧ calm c c'.
Proof.
  intros Hok Hs. unfold pf_notify. obind [[[s' calls] nx]|] En. intros [= -> <-].
  assert (Forall is_pf (pf s')) as Hf.
  { pose proof (ok_pfq _ _ Hok) as Hq. unfold pf_queue in Hq. rewrite Hs in Hq. revert En. unfold PfQueue.notify.
    destruct (_ && _); [|by intros [= <- _ _]]. obind [a|]. destruct (remove_missed _ _ _ _) as [q st] eqn:Er.
    assert (Forall is_pf q) as Hq1.
    { unfold remove_missed in Er. destruct (inPrefetch _ _ _); injection Er as <- _; [|done]. by apply Forall_delete. }
    match goal with |- ?o ≫= _ = _ → _ => destruct o as [q2|] eqn:E2; [cbn [mbind option_bind]|done] end.
    assert (q2 = q) as ->.
    { destruct (serialSquash _); [|by injection E2]. unfold serial_squash in E2. destruct (last q); [|done].
      cbn [mbind option_bind] in E2. destruct (_ <=? _); [done|]. by injection E2. }
    obind [[e cl]|]. obind [[q3 st3]|] E3. intros [= <- _ _]. by eapply insert_candidates_pf. }
  pose proof (prefetcher_steps now c s s' Hok Hs Hf) as H1.
  split; [|exact (core_calm (with_prefetcher c (Some s')) _ (apply_calls_frame calls (core c)))].
  eapply steps_then; [exact H1|]. apply core_steps; [apply apply_calls_frame|apply H1].
Qed.

(** ** Requests *)

Lemma makeResponse_answers p r : Packet.makeResponse p = Some r → answered r = asked p.
Proof.
  intros Hr. destruct (makeResponse_keeps p r Hr) as (Ha & Hs & _). unfold answered, asked. rewrite Ha, Hs. revert Hr.
  unfold Packet.makeResponse. destruct (_ && _); [|done]. intros [= <-]. do 2 f_equal.
  unfold Packet.getDest, Packet.getSrc. cbn [Packet.flags Packet.dest].
  change Packet.VALID_SRC with (2 ^ 10). change Packet.VALID_DST with (2 ^ 11). change Packet.EXPRESS_SNOOP with (2 ^ 1). by flag_solve.
Qed.

Lemma owed_same p p' : same_ask p p' → cpu_owed p' = cpu_owed p.
Proof. intros [Ha Hc]. unfold cpu_owed, Packet.needsResponse. by rewrite Ha, Hc. Qed.

Lemma blk_steps now c (o : option BlkRef) f : tc_ok now c →
  steps now [] c (match o with Some b => with_core c (upd (core c) b f) | None => c end).
Proof. intros Hok. destruct o; [apply core_steps; [apply upd_frame|done]|by apply steps_refl]. Qed.

Lemma timing_satisfied_ok now t r c next c' :
  tc_ok now c → timing_satisfied K now t r (Packet.needsResponse (ac_pkt r)) c = Some (next, c') → steps now (cpu_owed (ac_pkt r)) c c'.
Proof.
  intros Hok. unfold timing_satisfied. cbv zeta.
  match goal with |- ?o ≫= _ = _ → _ => destruct o as [[nx c1]|] eqn:E1; [cbn [mbind option_bind]|done] end.
  assert (steps now [] c c1) as H1.
  { revert E1. destruct (prefetcher c) as [s|] eqn:Es; [|intros [= _ <-]; by apply steps_refl].
    destruct (_ || _); [|intros [= _ <-]; by apply steps_refl]. obind [[n1 c2]|] En.
    apply pf_notify_ok in En as [H2 _]; [|done..]. intros [= _ <-]. eapply steps_then; [exact H2|].
    destruct (ac_blk r) as [b|]; [|by apply steps_refl, H2]. match goal with |- steps _ _ _ (if ?w then _ else _) => destruct w end; [|by apply steps_refl, H2].
    apply core_steps; [apply upd_frame|apply H2]. }
  unfold cpu_owed. destruct (Packet.needsResponse (ac_pkt r)); [|by intros [= _ <-]].
  obind [q|] Eq. obind [c2|] Er. intros [= _ <-]. apply makeResponse_answers in Eq as <-.
  apply (cpu_respond_ok K Hms) in Er as [H2 _]; [|apply H1]. by eapply after_steps.
Qed.

(** The counters of an allocated register. *)
Lemma ntargets_bound now c id m : tc_ok now c → heap (core c) !! id = Some m → ntargets m = num_targets m.
Proof. intros Hok Hm. by destruct (ok_count _ _ (qok_heap _ _ _ (rg_queue _ (ok_regs _ _ Hok) MSHRs) id m Hm)). Qed.

(** A register is changed in fields that do not matter. *)
Lemma field_steps now c id m m' :
  tc_ok now c → heap (core c) !! id = Some m → id ∈ allocatedList (get_queue c (queue_of c id)) →
  targets_of m' = targets_of m → readyTime m' = readyTime m → inService m' = inService m → ntargets m' = ntargets m →
  (∀ cnt, mshr_ok cnt m → mshr_ok cnt m') → steps now [] c (with_heap c (<[id := m']> (heap (core c)))).
Proof.
  intros Hok Hm Hid Ht Hr Hi Hn Hmo. pose proof (ok_regs _ _ Hok) as Hrg. pose proof (rg_queue _ Hrg (queue_of c id)) as Hq.
  pose proof (alloc_reg Hq id Hid) as Hreg. eapply heap_steps0; [done|exact Hreg| | | |].
  - eapply insert_at; [by apply Hrg|done..].
  - apply (queue_ok_touch Hq _ _ id Hid); [eapply insert_touches; [apply touches_refl|done..]|].
    apply heap_ok_insert; [apply Hq|]. apply Hmo. by apply (qok_heap _ _ _ Hq id).
  - done.
  - intros _ _ m1 Hm1 H2. rewrite Hm in Hm1. injection Hm1 as <-. exists m'. rewrite lookup_insert_eq. split; [done|]. lia.
Qed.

(** A new cause: the register [id] has all its targets. *)
Lemma noTargets_ok now c id c' :
  tc_ok now c → id ∈ allocatedList (mshrQueue (core c)) → (∃ m, heap (core c) !! id = Some m ∧ Z.max 2 target_limit <= ntargets m) →
  setBlocked NoTargets (with_noTarget c (Some id)) = Some c' → steps now [] c c'.
Proof.
  intros Hok Hid Hm Es. pose proof (ok_block _ _ Hok) as [B1 B2 B3 B4 B5].
  apply (setBlocked_ok (now := now)) in Es as (Hu & Hf & Hn & Hbits); [|by destruct B1].
  destruct (queue_steps now c c' MSHRs (heap (core c)) (mshrQueue (core c)) (order c) id (owed_by (heap (core c)) id) [])
    as (Hok' & Hg & Q1 & Q2); try done.
  - apply (alloc_reg (rg_queue _ (ok_regs _ _ Hok) MSHRs) id Hid).
  - split; [apply owes_erase; [done|apply (ok_regs _ _ Hok)]|done|]. destruct Hm as (m & -> & _). by eexists.
  - by apply (rg_queue _ (ok_regs _ _ Hok) MSHRs).
  - destruct Hu as [U1 U2 U3 U4 U5 U6 U7 U8]. split; try done. by rewrite U1; destruct c as [[]].
  - split; try done.
    + intros i. rewrite (upto_queue _ _ i Hu), Hbits. intros Hi. change (blocked_by (with_noTarget c (Some id))) with (blocked_by c).
      rewrite B2; [done|by destruct i].
    + intros i Hpf Hi. rewrite (upto_queue _ _ i Hu). unfold has_pf in Hpf. rewrite (ub_pf _ _ _ Hu) in Hpf. rewrite Hbits in Hi.
      change (blocked_by (with_noTarget c (Some id))) with (blocked_by c) in Hi.
      assert (isFull (get_queue c i) = true) as Hfull by (apply B3; [done|]; by destruct i; cbn in *; rewrite orb_false_r in Hi).
      by destruct i.
    + rewrite Hbits, Hn. cbn. by rewrite orb_true_r.
    + intros _ j. rewrite Hn, (ub_core _ _ _ Hu). cbn. by intros [= <-].
  - split_and!; [done..|]. apply keeps_same; [|by rewrite (ub_mem _ _ _ Hu)]. intros i j. rewrite (upto_queue _ _ i Hu). by destruct i.
Qed.

Lemma mshr_hit_ok now t id p c c' :
  numTarget K ≠ 1 → tc_ok now c → tick_ok now t → id ∈ allocatedList (mshrQueue (core c)) →
  mshr_hit K now t id p c = Some c' → steps now (cpu_owed p) c c'.
Proof.
  intros Hnt Hok Ht Hid. unfold mshr_hit. obind [m|] Hm.
  pose proof (alloc_reg (rg_queue _ (ok_regs _ _ Hok) MSHRs) id Hid) as Hreg.
  pose proof (queue_of_reg c MSHRs id (ok_regs _ _ Hok) Hreg) as Hqo.
  set (c1 := if threadNum m =? 0 then c else _).
  assert (steps now [] c c1 ∧ calm c c1 ∧ ∃ m1, heap (core c1) !! id = Some m1 ∧ num_targets m1 = num_targets m) as (H1 & (Q1 & Q2 & Q3 & Q4) & m1 & Hm1 & Hn1).
  { unfold c1. destruct (threadNum m =? 0); [split_and!; [by apply steps_refl|done|by exists m]|]. split_and!; [|done|].
    - eapply field_steps; try done; [by rewrite Hqo|]. intros cnt []. by split.
    - exists (set_threadNum m (-1)). cbn. by rewrite lookup_insert_eq. }
  clearbody c1. obind [h|] Eh. obind [o|] Eo. apply order_step in Eo as ->.
  destruct (has_room m) eqn:Ero; [|done]. unfold has_room in Ero. zbool.
  destruct H1 as (Hok1 & Hg1 & Hk1). pose proof (ok_regs _ _ Hok1) as Hr1. pose proof (rg_queue _ Hr1 MSHRs) as Hq1. cbn in Hq1.
  rewrite <- Q1 in Hid. pose proof (allocateTarget_touches _ _ _ _ _ _ _ Eh) as Hto.
  pose proof (allocateTarget_owes (has_pf c1) _ _ _ _ _ _ _ (rg_targets _ Hr1) (proj2 Ht) Eh) as Ho.
  assert (num_targets m1 < 2 ^ 16 - 1) as Hlt by lia.
  pose proof (allocateTarget_ok _ _ _ _ _ _ _ _ (qok_heap _ _ _ Hq1) Hm1 Hlt Eh) as Hh.
  assert (∃ m2, h !! id = Some m2 ∧ ntargets m2 = num_targets m + 1) as (m2 & Hm2 & Hn2).
  { pose proof (ntargets_bound now c1 id m1 Hok1 Hm1) as Hn. unfold allocateTarget in Eh. destruct (decide _); [done|].
    rewrite Hm1 in Eh. cbn [mbind option_bind] in Eh.
    assert (u16 (ntargets m1 + 1) = num_targets m + 1) as Hu.
    { rewrite Hn, Hn1. unfold num_targets in *. ilia. }
    destruct (must_defer m1 p); destruct (tl_add _ _ _ _ _ _ _ _) as [[h1 tl]|] eqn:Ea; try done; cbn [mbind option_bind] in Eh;
      apply tl_add_spec in Ea as [_ He]; destruct (erase_lookup _ h1 id m1 He Hm1) as [b Hb]; rewrite Hb in Eh;
      cbn [mbind option_bind] in Eh; injection Eh as <-; rewrite lookup_insert_eq; eexists; (split; [done|exact Hu]). }
  assert (1 <= ntargets m2) as Hn2' by (rewrite Hn2; unfold num_targets; lia).
  rewrite Hm2. cbn [mbind option_bind]. set (c2 := with_order (with_heap c1 h) (order c1 + 1)).
  assert (steps now (cpu_owed p) c c2) as H2.
  { eapply after_steps; [split_and!; [exact Hok1|exact Hg1|exact Hk1]|].
    eapply (heap_steps now c1 MSHRs id); [done|by apply (alloc_reg Hq1)| | |done|].
    - apply touches_at; [by eexists|exact Ho|done].
    - by apply (queue_ok_touch Hq1 _ _ id).
    - intros _ _ m3 Hm3 H3. exists m2. split; [done|]. rewrite Hm1 in Hm3. injection Hm3 as <-.
      pose proof (ntargets_bound now c1 id m1 Hok1 Hm1). lia. }
  destruct (Z.eqb_spec (ntargets m2) (numTarget K)); [|by intros [= <-]].
  intros Es. eapply steps_then; [exact H2|]. eapply noTargets_ok; [apply H2|exact Hid| |exact Es].
  exists m2. split; [done|]. unfold target_limit, config_limit. lia.
Qed.

Lemma allocateMissBuffer_ok now p t rb c id c' :
  tc_ok now c → tick_ok now t → (is_pf p → has_pf c = true) → allocateMissBuffer now p t rb c = Some (id, c') →
  tc_ok now c' ∧ grows now (pf_owed p) c c' ∧ id ∈ readyList (get_queue c' MSHRs) ∧
  (if rb then mem_busy c' else memSidePort c' = memSidePort c).
Proof.
  intros Hok Ht Hp. unfold allocateMissBuffer. destruct (Request.isUncacheable _); [done|]. obind [a|].
  by apply allocateBuffer_ok.
Qed.

Lemma mshr_miss_ok now t r c c' :
  tc_ok now c → tick_ok now t → ¬ is_pf (ac_pkt r) → mshr_miss now t r c = Some c' → steps now (cpu_owed (ac_pkt r)) c c'.
Proof.
  intros Hok Ht Hp. unfold mshr_miss. destruct (decide _) as [Hwb|].
  { obind [[id c1]|] Ea. intros [= <-]. by eapply allocateWriteBuffer_ok. }
  match goal with |- ?o ≫= _ = _ → _ => destruct o as [c1|] eqn:E1; [cbn [mbind option_bind]|done] end.
  assert (steps now [] c c1) as H1.
  { revert E1. destruct (ac_blk r) as [b|]; [|intros [= <-]; by apply steps_refl]. obind [bk|].
    destruct (isValid bk); [|intros [= <-]; by apply steps_refl]. destruct (_ && _); [|done]. intros [= <-].
    apply core_steps; [apply upd_frame|done]. }
  obind [[id c2]|] Ea. intros [= <-]. eapply after_steps; [exact H1|].
  apply allocateMissBuffer_ok in Ea as (H2 & H3 & _ & H4); [|by apply H1|done|done].
  assert (pf_owed (ac_pkt r) = cpu_owed (ac_pkt r)) as <- by (unfold pf_owed; by rewrite decide_False).
  split_and!; [done..|]. by apply busy_keeps.
Qed.

Lemma timing_miss_ok now t r c next c' :
  numTarget K ≠ 1 → tc_ok now c → tick_ok now t → ¬ is_pf (ac_pkt r) → timing_miss K now t r c = Some (next, c') →
  steps now (cpu_owed (ac_pkt r)) c c'.
Proof.
  intros Hnt Hok Ht Hp. unfold timing_miss. obind [a|]. destruct (findMatch _ _ _) as [id|] eqn:Ef.
  - obind [c1|] Eh. intros [= _ <-]. eapply mshr_hit_ok; try done. unfold findMatch in Ef.
    destruct (list_find _ _) as [[k j]|] eqn:El; [|done]. injection Ef as <-. apply list_find_Some in El as (El & _).
    by eapply list_elem_of_lookup_2.
  - obind [c1|] Em. apply mshr_miss_ok in Em; [|done..]. destruct (prefetcher c1) as [s|] eqn:Es; [|by intros [= _ <-]].
    intros En. apply pf_notify_ok in En as [H2 _]; [|by apply Em|done]. by eapply steps_then.
Qed.

Lemma hit_time now c : tc_ok now c → s64 (now + c_hitLatency (core c)) = now + c_hitLatency (core c) ∧
  tick_ok now (now + c_hitLatency (core c)).
Proof.
  intros Hok. pose proof (ok_now _ _ Hok) as Hn. pose proof (ok_lat _ _ Hok). unfold early, tick_ok, MaxTick in *.
  split; [rewrite s64_small by (unfold is_s64; lia)|]; lia.
Qed.

Lemma timing_cached_ok now t p c c' :
  numTarget K ≠ 1 → tc_ok now c → tick_ok now t → ¬ is_pf p → timing_cached K now t p c = Some c' →
  steps now (cpu_owed p) c c'.
Proof.
  intros Hnt Hok Ht Hp. unfold timing_cached. obind [r|] Ea. apply access_frame in Ea as (Hf & Hask & Hwb).
  assert (¬ is_pf (ac_pkt r)) as Hp' by (unfold is_pf in *; by rewrite (proj2 Hask)).
  pose proof (core_steps now c _ Hf Hok) as H0. set (c0 := with_core c (ac_cache r)) in *.
  match goal with |- ?o ≫= _ = _ → _ => destruct o as [[next c1]|] eqn:E1; [cbn [mbind option_bind]|done] end.
  assert (steps now (cpu_owed p) c c1) as H1.
  { rewrite <- (owed_same p _ Hask). eapply after_steps; [exact H0|]. destruct (satisfied r).
    - eapply timing_satisfied_ok; [apply H0|exact E1].
    - eapply timing_miss_ok; [done|apply H0|done..|exact E1]. }
  match goal with |- ?o ≫= _ = _ → _ => destruct o as [c2|] eqn:E2; [cbn [mbind option_bind]|done] end.
  assert (steps now (cpu_owed p) c c2) as H2.
  { destruct (next =? 0); [by injection E2 as <-|]. apply requestMemSideBus_ok in E2 as (H2 & _); [|apply H1|unfold tick_ok in Ht; lia].
    by eapply steps_then. }
  intros Eb. eapply steps_then; [exact H2|]. eapply buffer_writebacks_ok; [apply H2|done..].
Qed.

Lemma timing_uncacheable_ok now t p c c' :
  tc_ok now c → tick_ok now t → ¬ is_pf p → timing_uncacheable now t p c = Some c' → steps now (cpu_owed p) c c'.
Proof.
  intros Hok Ht Hp. unfold timing_uncacheable. obind [[id c1]|] Ea. destruct (Packet.needsResponse p) eqn:En; [|done].
  intros [= <-]. destruct (_ && _); [by eapply allocateWriteBuffer_ok|by eapply allocateUncachedReadBuffer_ok].
Qed.

Lemma records_steps now c r : tc_ok now c → steps now [] c (with_records c r) ∧ calm c (with_records c r).
Proof.
  intros [Hn Hr Hp Hb Hc Hm Hl Hv]. split; [|done]. split_and!; [|by apply grows_same|by apply keeps_same].
  split; try done; [by destruct Hr|]. destruct Hb as [B1 B2 B3 B4 B5]. split; try done. by destruct B1.
Qed.

Lemma timing_response_ok now t p c c' : tc_ok now c → timing_response K now t p c = Some c' → steps now [] c c'.
Proof.
  intros Hok. unfold timing_response. obind [rid|]. obind [[ps src]|]. intros Em.
  destruct (records_steps now c (delete rid (records c)) Hok) as [H1 _]. eapply steps_then; [exact H1|].
  eapply (mem_respond_ok K Hms); [apply H1|exact Em].
Qed.

Context {D : Type} {N : TimingPeers D}.

(** The response that an accepted packet asks for. *)
Definition taken (p : Packet.t) : list Ticket :=
  if Packet.isRequest p && negb (Packet.memInhibitAsserted p) then cpu_owed p else [].

Lemma timingAccess_ok now p c (d : D) c' d' :
  numTarget K ≠ 1 → tc_ok now c → ¬ is_pf p → timingAccess K now p c d = Some (c', d') → steps now (taken p) c c'.
Proof.
  intros Hnt Hok Hp. unfold timingAccess, taken. destruct (hit_time now c Hok) as [-> Ht].
  destruct (Packet.isResponse p) eqn:Ersp.
  { obind [c1|] Er. intros [= <- _]. replace (Packet.isRequest p) with false; [by eapply timing_response_ok|].
    unfold Packet.isRequest, Packet.isResponse in *. by destruct (Packet.cmd p). }
  destruct (Packet.isRequest p); [|done]. cbn [negb andb]. destruct (Packet.memInhibitAsserted p).
  - cbn [negb]. unfold timing_inhibited. destruct (Request.isUncacheable _); [done|]. destruct (_ && _).
    + obind [[[b q] d1]|]. intros [= <- _]. by apply steps_refl.
    + intros [= <- _]. by apply steps_refl.
  - cbn [negb]. destruct (Request.isUncacheable _).
    + obind [c1|] Eu. intros [= <- _]. by eapply timing_uncacheable_ok.
    + obind [c1|] Ec. intros [= <- _]. by eapply timing_cached_ok.
Qed.

(** A request is taken, or it is refused and a retry is due. *)
Lemma cpu_recvTiming_ok now p c (d : D) ok c' d' :
  numTarget K ≠ 1 → tc_ok now c → ¬ is_pf p → cpu_recvTiming K now p c d = Some (ok, c', d') →
  steps now (if ok then taken p else []) c c' ∧ (ok = false → retry_due c' ∧ d' = d ∧ p_blocked (cpuSidePort c) = true).
Proof.
  intros Hnt Hok Hp. unfold cpu_recvTiming. destruct (_ && _) eqn:Eg.
  - intros [= <- <- <-]. apply andb_true_iff in Eg as [_ Eb]. split; [|intros _; split_and!; [by left|done..]].
    destruct Hok as [Hn Hr Hpq Hb Hc Hm Hl]. split_and!; [| |by apply keeps_same].
    + split; try done; [by destruct Hr|]. destruct Hb as [B1 B2 B3 B4 B5]. split; try done. by destruct B1.
    + split; try done; [by exists []|]. intros _. by left.
  - obind [[c1 d1]|] Ea. intros [= <- <- <-]. split; [|done]. by eapply timingAccess_ok.
Qed.

(** ** Snoops *)

Definition quiet (now : Z) c c' : Prop := steps now [] c c' ∧ calm c c' ∧ heap (core c') = heap (core c).

Lemma quiet_refl now c : tc_ok now c → quiet now c c.
Proof. intros H. split; [by apply steps_refl|done]. Qed.

Lemma quiet_trans now c1 c2 c3 : quiet now c1 c2 → quiet now c2 c3 → quiet now c1 c3.
Proof. intros (H1 & C1 & E1) (H2 & C2 & E2). split_and!; [by eapply steps_then|by etransitivity|congruence]. Qed.

Lemma quiet_ok now c c' : quiet now c c' → tc_ok now c'.
Proof. by intros [(? & _) _]. Qed.

Lemma core_quiet now c x : core_frame (core c) x → tc_ok now c → quiet now c (with_core c x).
Proof. intros Hf Hok. split_and!; [by apply core_steps|by apply core_calm|apply Hf]. Qed.

Lemma calm_queue c c' i : calm c c' → get_queue c' i = get_queue c i.
Proof. intros (H1 & H2 & _). by destruct i. Qed.

Lemma calm_queue_of c c' id : calm c c' → queue_of c' id = queue_of c id.
Proof. intros (H1 & _). unfold queue_of. by rewrite H1. Qed.

Lemma doTimingSupplyResponse_ok now p dt cp iv c c' :
  tc_ok now c → doTimingSupplyResponse K now p dt cp iv c = Some c' → quiet now c c'.
Proof.
  intros Hok. unfold doTimingSupplyResponse. destruct (negb _); [done|]. obind [q1|]. obind [q2|]. obind [q3|].
  intros Er. pose proof Er as [H1 H2]%(mem_respond_ok K Hms); [|done]. split_and!; [done..|]. revert Er. unfold mem_respond. obind [tp|].
  by intros [= <-].
Qed.

Lemma snoop_up_ok now p c (d : D) p' c' d' : tc_ok now c → snoop_up now p c d = Some (p', c', d') → quiet now c c'.
Proof.
  intros Hok. unfold snoop_up. obind [src|]. cbv zeta. obind [[sp d1]|].
  match goal with |- ?o ≫= _ = _ → _ => destruct o as [[p1 c1]|] eqn:E1; [cbn [mbind option_bind]|done] end.
  intros [= _ <- _]. destruct (Packet.memInhibitAsserted sp); [|injection E1 as _ <-; by apply quiet_refl].
  destruct (Packet.memInhibitAsserted p); [done|]. injection E1 as _ <-.
  destruct (records_steps now c (<[fresh (dom (heap (core c)) ∪ dom (records c)) := (Packet.sender p, src)]> (records c)) Hok). done.
Qed.

Lemma snoop_block_ok now p b df iv c p' c' : tc_ok now c → snoop_block K now p b df iv c = Some (p', c') → quiet now c c'.
Proof.
  intros Hok. unfold snoop_block. obind [bk|]. destruct (negb _); [intros [= _ <-]; by apply quiet_refl|]. cbv zeta.
  match goal with |- ?o ≫= _ = _ → _ => destruct o as [[p1 c1]|] eqn:E1; [cbn [mbind option_bind]|done] end.
  assert (quiet now c c1) as H1.
  { revert E1. destruct (_ && _); [|intros [= _ <-]; by apply quiet_refl]. destruct (Packet.needsExclusive p); [done|].
    intros [= _ <-]. apply core_quiet; [apply upd_frame|done]. }
  match goal with |- ?o ≫= _ = _ → _ => destruct o as [[p2 c2]|] eqn:E2; [cbn [mbind option_bind]|done] end.
  assert (quiet now c c2) as H2.
  { eapply quiet_trans; [exact H1|]. apply quiet_ok in H1. clear E1. revert E2. destruct (_ && _); [|intros [= _ <-]; by apply quiet_refl].
    destruct (Packet.memInhibitAsserted p1); [done|]. obind [c3|] E3. intros [= _ <-].
    by eapply doTimingSupplyResponse_ok. }
  destruct (Packet.isInvalidate p); [|by intros [= _ <-]]. obind [x|] Ei. intros [= _ <-].
  eapply quiet_trans; [exact H2|]. apply core_quiet; [by eapply invalidate_frame|by eapply quiet_ok].
Qed.

Lemma handleSnoop_ok' now p b df iv c (d : D) p' c' d' :
  tc_ok now c → CacheTiming.handleSnoop K now p b df iv c d = Some (p', c', d') → quiet now c c'.
Proof.
  intros Hok. unfold CacheTiming.handleSnoop. destruct (_ || _); [done|].
  match goal with |- ?o ≫= _ = _ → _ => destruct o as [[[p1 c1] d1]|] eqn:E1; [cbn [mbind option_bind]|done] end.
  assert (quiet now c c1) as H1.
  { destruct (forwardSnoops K); [by eapply snoop_up_ok|]. injection E1 as _ <- _. by apply quiet_refl. }
  destruct b as [bk|]; [|by intros [= _ <- _]]. obind [[p2 c2]|] E2. intros [= _ <- _].
  eapply quiet_trans; [exact H1|]. eapply snoop_block_ok; [by eapply quiet_ok|exact E2].
Qed.

Lemma snoop_writeback_ok now id p c p' c' :
  tc_ok now c → id ∈ allocatedList (writeBuffer c) → snoop_writeback K now id p c = Some (p', c') → steps now [] c c'.
Proof.
  intros Hok Hid. unfold snoop_writeback. obind [m|]. destruct (_ || _); [done|]. obind [t|]. destruct (_ || _); [done|].
  cbv zeta. obind [p1|]. obind [buf|]. obind [c1|] E1. apply doTimingSupplyResponse_ok in E1 as (H1 & C1 & _); [|done].
  destruct (Packet.isInvalidate p1); [|cbn; by intros [= _ <-]]. obind [c2|] E2. intros [= _ <-].
  eapply steps_then; [exact H1|]. eapply tc_markInService_ok; [apply H1| |exact E2].
  assert (queue_of c1 id = WriteBuffer) as ->; [|by rewrite (calm_queue c c1 WriteBuffer C1)].
  rewrite (calm_queue_of c c1) by done. apply queue_of_reg; [apply Hok|]. by apply (alloc_reg (rg_queue _ (ok_regs _ _ Hok) WriteBuffer)).
Qed.

(** A snoop may add a target. *)
Lemma snoop_count h id ct p o h' p' b m :
  Mshr.handleSnoop h id ct p o = Some (h', p', b) → h !! id = Some m →
  ∃ m', h' !! id = Some m' ∧ (ntargets m' = ntargets m ∨ ntargets m' = u16 (ntargets m + 1)).
Proof.
  unfold Mshr.handleSnoop. intros Es Hm. revert Es. rewrite Hm. cbn [mbind option_bind]. destruct (_ || _).
  { intros [= <- _ _]. rewrite lookup_insert_eq. eexists. split; [done|left]. by destruct (Packet.needsExclusive p). }
  set (m1 := if Packet.needsExclusive p then set_lists _ _ _ _ else m).
  assert (ntargets m1 = ntargets m) as <- by (unfold m1; by destruct (Packet.needsExclusive p)). clearbody m1.
  destruct (pendingInvalidate m1); [intros [= <- _ _]; rewrite lookup_insert_eq; eexists; split; [done|by left]|].
  destruct (_ || _); [|intros [= <- _ _]; rewrite lookup_insert_eq; eexists; split; [done|by left]].
  obind [[h1 tl]|] Ea. apply tl_add_spec in Ea as [_ He]. destruct (erase_lookup _ h1 id m1 He (lookup_insert_eq _ _ _)) as [b2 ->].
  cbn [mbind option_bind]. intros [= <- _ _]. rewrite lookup_insert_eq. eexists. split; [done|right]. by destruct (Packet.needsExclusive p).
Qed.

Lemma findMatch_alloc h q a id : findMatch h q a = Some id → id ∈ allocatedList q.
Proof.
  unfold findMatch. destruct (list_find _ _) as [[k j]|] eqn:El; [|done]. intros [= <-].
  apply list_find_Some in El as (El & _). by eapply list_elem_of_lookup_2.
Qed.

Lemma snoopTiming_ok now p c (d : D) p' c' d' :
  tc_ok now c → ¬ is_pf p → snoopTiming K now p c d = Some (p', c', d') → steps now [] c c'.
Proof.
  intros Hok Hp. unfold snoopTiming. destruct (_ || _); [intros [= _ <- _]; by apply steps_refl|]. obind [a|]. cbv zeta.
  match goal with |- ?o ≫= _ = _ → _ => destruct o as [[[p1 c1] df]|] eqn:E1; [cbn [mbind option_bind]|done] end.
  assert (steps now [] c c1 ∧ mshrQueue (core c1) = mshrQueue (core c) ∧ writeBuffer c1 = writeBuffer c) as (H1 & Q1 & Q2).
  { revert E1. destruct (findMatch _ _ _) as [id|] eqn:Ef; [|intros [= _ <- _]; split; [by apply steps_refl|done]].
    apply findMatch_alloc in Ef. obind [m|] Hm. obind [[[h p2] b]|] Eh. obind [o|] Eo. intros [= _ <- _].
    apply order_step in Eo as ->. split; [|done]. destruct (has_room m) eqn:Er; [|done]. unfold has_room in Er. zbool.
    pose proof (ok_regs _ _ Hok) as Hr. pose proof (rg_queue _ Hr MSHRs) as Hq.
    pose proof (handleSnoop_touches _ _ _ _ _ _ _ _ Eh) as Hto. assert (num_targets m < 2 ^ 16 - 1) as Hlt by lia.
    assert (now < MaxTick) as Hnow by (pose proof (ok_now _ _ Hok); unfold early, MaxTick in *; lia).
    eapply (heap_steps now c MSHRs id); [done|by apply (alloc_reg Hq)| | |done|].
    - apply touches_at; [by eexists|by eapply handleSnoop_owes; [apply Hr|..]|done].
    - apply (queue_ok_touch Hq _ _ id Ef Hto). eapply Mshr.handleSnoop_ok; [apply Hq|done..].
    - intros _ _ m1 Hm1 H2. rewrite Hm in Hm1. injection Hm1 as <-.
      destruct (snoop_count _ _ _ _ _ _ _ _ _ Eh Hm) as (m' & Hm' & Hn). exists m'. split; [done|].
      pose proof (ntargets_bound now c id m Hok Hm). destruct Hn as [->| ->]; [done|]. ilia. }
  destruct df; [by intros [= _ <- _]|].
  match goal with |- ?o ≫= _ = _ → _ => destruct o as [[p2 c2]|] eqn:E2; [cbn [mbind option_bind]|done] end.
  assert (steps now [] c c2) as H2.
  { eapply steps_then; [exact H1|]. revert E2. destruct (findMatches _ _ _).2 as [|id l] eqn:Ef; [intros [= _ <-]; by apply steps_refl, H1|].
    apply snoop_writeback_ok; [apply H1|]. unfold findMatches in Ef. cbn in Ef.
    assert (id ∈ filter (λ j, (addr <$> heap (core c1) !! j) = Some (blockAlign c a)) (allocatedList (writeBuffer c1))) as Hin
      by (rewrite Ef; by left). by apply list_elem_of_filter in Hin as [_ ?]. }
  intros E3. eapply steps_then; [exact H2|]. eapply handleSnoop_ok'; [apply H2|exact E3].
Qed.

(** ** Responses *)

Lemma same_answer p q : Packet.flags q = Packet.flags p → Packet.addr q = Packet.addr p → Packet.size q = Packet.size p →
  Packet.dest q = Packet.dest p → Packet.sender q = Packet.sender p → answered q = answered p.
Proof. unfold answered, Packet.getAddr, Packet.getSize, Packet.getDest. by intros -> -> -> -> ->. Qed.

Lemma respond_cpu_ok now rs io p c c' :
  tc_ok now c → respond_cpu K now rs io p c = Some c' →
  Packet.needsResponse p = true ∧ steps now [asked p] c c' ∧ calm c c' ∧ heap (core c') = heap (core c).
Proof.
  intros Hok. unfold respond_cpu. cbv zeta.
  match goal with |- ?o ≫= _ = _ → _ => destruct o as [[[p1 t] c1]|] eqn:E1; [cbn [mbind option_bind]|done] end.
  assert (same_ask p p1 ∧ quiet now c c1 ∧ heap (core c1) = heap (core c)) as (Hp & H1 & Hh).
  { revert E1. destruct (rs_fill rs).
    - obind [b|]. obind [[x p2]|] Es. obind [off|]. destruct (Request.isUncacheable _); [done|]. intros [= <- _ <-].
      apply satisfy_frame in Es as [Hf Ha]. split_and!; [done|by apply core_quiet|apply Hf].
    - destruct (_ && _); [intros [= <- _ <-]; split_and!; [done|by apply quiet_refl|done]|].
      match goal with |- ?o ≫= _ = _ → _ => destruct o as [p2|] eqn:E2; [cbn [mbind option_bind]|done] end.
      intros [= <- _ <-]. split_and!; [|by apply quiet_refl|done]. revert E2. destruct (_ && _); [|by intros [= <-]].
      obind [buf|]. apply setData_ask. }
  obind [p2|] E2. assert (Packet.needsResponse p1 = true) as Hnr.
  { unfold Packet.makeResponse in E2. by destruct (Packet.needsResponse p1). }
  apply makeResponse_answers in E2. rewrite (proj1 Hp) in E2.
  match goal with |- ?o ≫= _ = _ → _ => destruct o as [p3|] eqn:E3; [cbn [mbind option_bind]|done] end.
  assert (answered p3 = asked p) as H3.
  { rewrite <- E2. destruct (Packet.isError _); [|by injection E3 as <-]. unfold Packet.copyError in E3.
    destruct (Packet.isError _); [|done]. by injection E3 as <-. }
  match goal with |- ?o ≫= _ = _ → _ => destruct o as [p4|] eqn:E4; [cbn [mbind option_bind]|done] end.
  assert (answered p4 = asked p) as H4.
  { rewrite <- H3. clear -E4. destruct (Packet.isInvalidate _); [|by injection E4 as <-]. destruct (_ && _); [|done]. by injection E4 as <-. }
  intros Er. apply (cpu_respond_ok K Hms) in Er as (H5 & C5 & Ec); [|by eapply quiet_ok]. rewrite H4 in H5. split_and!.
  - unfold Packet.needsResponse in *. by rewrite <- (proj2 Hp).
  - eapply after_steps; [apply H1|done].
  - etransitivity; [apply H1|done].
  - by rewrite Ec.
Qed.

Lemma respond_prefetch_ok now rs p c c' :
  tc_ok now c → respond_prefetch rs p c = Some c' → quiet now c c'.
Proof.
  intros Hok. unfold respond_prefetch. destruct (decide _); [|done].
  destruct (rs_blk rs) as [b|]; [|intros [= <-]; by apply quiet_refl]. cbv zeta. set (c1 := with_core c _).
  assert (quiet now c c1) as H1 by (apply core_quiet; [apply upd_frame|done]).
  obind [s|] Es. obind [[s' calls]|] Ec. intros [= <-].
  assert (Forall is_pf (pf s')) as Hf.
  { revert Ec. unfold PfQueue.complete. obind [[e1 cs]|]. intros [= <- _]. cbn.
    pose proof (ok_pfq _ _ Hok) as Hq. unfold pf_queue in Hq. change (prefetcher c) with (prefetcher c1) in Hq. by rewrite Es in Hq. }
  pose proof (prefetcher_steps now c1 s s' (quiet_ok _ _ _ H1) Es Hf) as H2.
  pose proof (apply_calls_frame calls (core c1)) as Hfr.
  eapply quiet_trans; [exact H1|]. eapply quiet_trans; [split; [exact H2|done]|]. apply core_quiet; [exact Hfr|apply H2].
Qed.

(** The first target of a register is answered, or owes nothing. *)
Lemma pop_steps now c0 c id m t ts :
  steps now (option_list (target_owed t)) c0 c → heap (core c) !! id = Some m → items (targets m) = t :: ts →
  id ∈ allocatedList (get_queue c (queue_of c id)) → (has_pf c = false → noTargetMSHR c ≠ Some id) →
  steps now [] c0 (with_heap c (<[id := popTarget m]> (heap (core c)))).
Proof.
  intros (Hok & Hg & Hk) Hm Ht Hid Hnt. pose proof (ok_regs _ _ Hok) as Hr. pose proof (rg_queue _ Hr (queue_of c id)) as Hq.
  set (i := queue_of c id) in *. set (h' := <[id := popTarget m]> (heap (core c))). set (c' := with_heap c h').
  destruct (popTarget_owes (has_pf c) _ id m t ts (rg_targets _ Hr) Hm Ht) as (l & Ho & El).
  assert (queue_ok (order c) h' (get_queue c i)) as Hq'.
  { apply (queue_ok_touch Hq _ _ id Hid); [by apply popTarget_touches|]. apply heap_ok_insert; [apply Hq|].
    apply popTarget_ok; [unfold hasTargets; rewrite Ht; by apply bool_decide_eq_true|by apply (qok_heap _ _ _ Hq id)]. }
  assert (at_reg (has_pf c) (heap (core c)) h' id l) as Ha.
  { apply touches_at; [by eexists|done|by apply popTarget_touches]. }
  assert (∀ j, get_queue c' j = get_queue c j) as Eq by done.
  destruct (change_ok c c' i id l) as (Hr' & rest & Hro & Hro'); try done; [by apply (alloc_reg Hq)|].
  split_and!.
  - destruct Hok as [Hn _ Hp Hb Hc Hmm Hl]. split; try done. destruct Hb as [B1 B2 B3 B4 B5]. split; try done; [by destruct B1|].
    apply (where_change c c' id l); try done. by intros Hpf Hj; destruct (Hnt Hpf).
  - destruct Hg as [G1 G2 G3 G4 G5 G6]. split; try done. unfold owed in *. rewrite Hro, El, <- !app_assoc in G1.
    apply Permutation_app_inv_l in G1. cbn. by rewrite Hro', <- app_assoc.
  - etransitivity; [exact Hk|]. by apply keeps_same.
Qed.

Lemma respond_target_ok now id rs io c (d : D) c' d' :
  tc_ok now c → id ∈ allocatedList (get_queue c (queue_of c id)) → (has_pf c = false → noTargetMSHR c ≠ Some id) →
  respond_target K now id rs io c d = Some (c', d') → steps now [] c c' ∧ calm c c'.
Proof.
  intros Hok Hid Hnt. unfold respond_target. obind [m|] Hm. obind [t|] Eh.
  destruct (items (targets m)) as [|t0 ts] eqn:Et; [done|]. injection Eh as ->.
  match goal with |- ?o ≫= _ = _ → _ => destruct o as [[c1 d1]|] eqn:E1; [cbn [mbind option_bind]|done] end.
  obind [m1|] Hm1. intros [= <- _].
  assert (steps now (option_list (target_owed t)) c c1 ∧ calm c c1 ∧ heap (core c1) = heap (core c)) as (H1 & C1 & Hh).
  { revert E1. unfold target_owed. destruct (rg_targets _ (ok_regs _ _ Hok) id m Hm) as [Hts _].
    assert (target_ok (has_pf c) t) as (_ & Hnr & _) by (unfold targets_of in Hts; rewrite Et in Hts; by apply Forall_cons in Hts as [? _]).
    destruct (source t) eqn:Es.
    - obind [c2|] E2. intros [= <- _]. apply respond_cpu_ok in E2 as (Hn & H2); [|done].
      by rewrite bool_decide_eq_true_2, (Hnr eq_refl Hn).
    - destruct (Packet.isError _); [done|]. obind [[[p2 c2] d2]|] E2. intros [= <- _].
      by eapply handleSnoop_ok'.
    - obind [c2|] E2. intros [= <- _]. by eapply respond_prefetch_ok. }
  rewrite Hh, Hm in Hm1. injection Hm1 as <-. split; [|by etransitivity; [exact C1|]]. rewrite <- Hh in Hm.
  eapply pop_steps; [exact H1|exact Hm|exact Et| |].
  - rewrite (calm_queue_of c c1 id C1), (calm_queue c c1 _ C1). done.
  - destruct H1 as (_ & Hg & _). destruct C1 as (_ & _ & -> & _). by rewrite (gr_pf _ _ _ _ Hg).
Qed.

Lemma respond_loop_ok now id rs io n : ∀ c (d : D) c' d',
  tc_ok now c → id ∈ allocatedList (get_queue c (queue_of c id)) → (has_pf c = false → noTargetMSHR c ≠ Some id) →
  respond_loop K n now id rs io c d = Some (c', d') → steps now [] c c' ∧ calm c c'.
Proof.
  induction n as [|n IH]; intros c d c' d' Hok Hid Hnt; cbn [respond_loop]; obind [m|] Hm; destruct (hasTargets m); try done;
    try (intros [= <- _]; split; [by apply steps_refl|done]).
  obind [[c1 d1]|] E1. apply respond_target_ok in E1 as [H1 C1]; [|done..]. intros E2.
  apply IH in E2 as [H2 C2]; [split; [by eapply steps_then|by etransitivity]|apply H1| |].
  - by rewrite (calm_queue_of c c1 id C1), (calm_queue c c1 _ C1).
  - destruct H1 as (_ & Hg & _). destruct C1 as (_ & _ & -> & _). by rewrite (gr_pf _ _ _ _ Hg).
Qed.

(** The deferred targets are promoted, or the register is freed. *)
Lemma release_mshr_ok now id rs c c' :
  tc_ok now c → id ∈ allocatedList (get_queue c (queue_of c id)) → (has_pf c = false → noTargetMSHR c ≠ Some id) →
  now <= rs_finish rs → release_mshr now id rs (isFull (get_queue c (queue_of c id))) c = Some c' → steps now [] c c'.
Proof.
  intros Hok Hid Hnt Hf. unfold release_mshr. cbv zeta. set (i := queue_of c id) in *. obind [[h pr]|] Ep.
  pose proof (ok_regs _ _ Hok) as Hr. pose proof (rg_queue _ Hr i) as Hq. pose proof (alloc_reg Hq id Hid) as Hreg.
  assert (now < MaxTick) as Hnow by (pose proof (ok_now _ _ Hok); unfold early, MaxTick in *; lia).
  pose proof (promote_owes (has_pf c) _ _ _ _ _ (rg_targets _ Hr) Hnow Ep) as Ho.
  assert (∃ m, heap (core c) !! id = Some m) as [m Hm] by (destruct (qok_dom _ _ _ Hq id Hreg); by eexists).
  assert (∀ j, j ≠ id → erase_dp h j = erase_dp (heap (core c)) j) as He.
  { unfold promoteDeferredTargets in Ep. rewrite Hm in Ep. cbn [mbind option_bind] in Ep. destruct (bool_decide _); [|done].
    destruct (items (deferredTargets m)); [by injection Ep as <- _|]. destruct (_ =? _); [|done]. injection Ep as <- _.
    intros j Hj. unfold erase_dp. by rewrite lookup_insert_ne. }
  assert (is_Some (h !! id)) as Hs.
  { unfold promoteDeferredTargets in Ep. rewrite Hm in Ep. cbn [mbind option_bind] in Ep. destruct (bool_decide _); [|done].
    destruct (items (deferredTargets m)); [injection Ep as <- _; by eexists|]. destruct (_ =? _); [|done]. injection Ep as <- _.
    by rewrite lookup_insert_eq. }
  assert (at_reg (has_pf c) (heap (core c)) h id (owed_by (heap (core c)) id)) as H1 by done.
  destruct pr.
  - obind [b|]. obind [[h2 q2]|] Em. set (c0 := with_core c (upd (core c) b (clear_status BlkReadable))).
    replace (get_queue (with_core (with_heap c h) _) i) with (get_queue c i) in Em by (by destruct i, b).
    replace (heap (core (with_core (with_heap c h) _))) with h in Em by (by destruct b).
    pose proof Em as (Ha & Hsh & Hal & Hn)%(markPending_owes (has_pf c)); [|by apply Ho].
    pose proof (retry_queue_ok _ _ _ _ _ _ _ _ Hq Hid Ep Em) as Hq2.
    intros Erq. assert (steps now [] c c0) as H0 by (apply core_steps; [apply upd_frame|done]).
    set (c2 := with_queue (with_core (with_heap c h) _) i h2 q2) in Erq.
    assert (c2 = with_order (with_queue c0 i h2 q2) (order c0)) as E2 by (unfold c2, c0; destruct i, b; by destruct c as [[]]).
    assert (heap (core c0) = heap (core c)) as Eh by (unfold c0; by destruct b).
    assert (get_queue c0 i = get_queue c i) as Eqi by (unfold c0; by destruct b, i).
    assert (at_reg (has_pf c0) (heap (core c0)) h2 id (owed_by (heap (core c0)) id)) as Ha0.
    { rewrite Eh. eapply at_reg_trans; [exact H1|]. eapply at_reg_perm; [exact Ha|]. by apply Ho. }
    destruct (queue_steps now c0 c2 i h2 q2 (order c0) id (owed_by (heap (core c0)) id) []) as (Hok2 & Hg2 & Q1 & Q2);
      try done; rewrite ?Eqi; try done; [apply H0|rewrite E2; apply upto_refl| |].
    { rewrite E2. apply same_block; rewrite ?Eqi; [apply H0|done|lia|by right|].
      apply (where_change c0 _ id (owed_by (heap (core c0)) id)); [apply (bl_where _ (ok_block _ _ (proj1 H0)))| |by destruct i|by destruct i|..].
      - by replace (heap (core (with_order (with_queue c0 i h2 q2) (order c0)))) with h2 by (by destruct i).
      - intros _ j _ Hj. unfold c0 in Hj |- *. destruct i; cbn in *; [rewrite Hal|]; by destruct b.
      - intros Hpf Hj. destruct (Hnt Hpf). exact Hj. }
    apply requestMemSideBus_ok in Erq as ((Hok3 & Hg3 & _) & Hbusy & _); [|done..]. split_and!; [done| |by apply busy_keeps].
    eapply grows_then; [|exact Hg3]. eapply grows_then; [apply H0|exact Hg2].
  - obind [[h2 q2]|] Ed. replace (get_queue (with_heap c h) i) with (get_queue c i) in Ed by done. cbn [heap core with_heap with_core set_hq] in Ed.
    assert (h = heap (core c)) as ->.
    { unfold promoteDeferredTargets in Ep. rewrite Hm in Ep. cbn [mbind option_bind] in Ep. destruct (bool_decide _); [|done].
      destruct (items (deferredTargets m)); [by injection Ep|]. by destruct (_ =? _). }
    pose proof (deallocateOne_ok _ _ _ _ _ _ Hq Ed) as Hq2.
    pose proof Ed as (Ha & Hsh & Hal & Hn & Hrd & m1 & Hm1 & H0)%(deallocateOne_owes (has_pf c)); [|by apply Hr].
    replace (with_queue (with_heap c (heap (core c))) i h2 q2) with (with_queue c i h2 q2) by (by destruct i).
    intros Es. destruct (free_block now c c' i h2 q2) as [Hu Hb']; [by apply Hok|done|lia| |done|].
    { apply (where_change c _ id (owed_by (heap (core c)) id)); [apply (bl_where _ (ok_block _ _ Hok))|by destruct i|by destruct i|by destruct i|..].
      - intros Hp j Hj Hin. destruct i; cbn in *; [|done]. rewrite Hal in Hin. apply elem_of_cons in Hin as [->|]; [|done].
        by destruct (Hnt Hp).
      - intros Hp Hj. by destruct (Hnt Hp). }
    replace (with_queue c i h2 q2) with (with_order (with_queue c i h2 q2) (order c)) in Hu by (destruct i; by destruct c).
    destruct (queue_steps now c c' i h2 q2 (order c) id (owed_by (heap (core c)) id) []) as (Hok' & Hg & Q1 & Q2); try done.
    split_and!; [done..|]. apply keeps_same; [|rewrite (ub_mem _ _ _ Hu); by destruct i].
    intros j k. assert (j = i ∨ j = other i) as [->| ->] by (destruct i, j; auto); rewrite ?Q1, ?Q2; auto.
Qed.

Lemma release_temp_ok now t rs c c' : tc_ok now c → tick_ok now t → release_temp now t rs c = Some c' → steps now [] c c'.
Proof.
  intros Hok Ht. unfold release_temp. destruct (rs_blk rs) as [[i|]|]; try (intros [= <-]; by apply steps_refl).
  match goal with |- ?o ≫= _ = _ → _ => destruct o as [c1|] eqn:E1; [cbn [mbind option_bind]|done] end.
  assert (steps now [] c c1) as H1.
  { revert E1. destruct (isDirty _); [|intros [= <-]; by apply steps_refl]. obind [[wb x]|] Ew.
    apply writebackBlk_frame in Ew as [Hf Hwb]. obind [[id c2]|] Ea. intros [= <-].
    pose proof (core_steps now c x Hf Hok) as H2. destruct (wb_owed wb Hwb) as [E0 Hnp].
    apply allocateWriteBuffer_ok in Ea; [|by apply H2|done..]. eapply steps_then; [exact H2|].
    unfold pf_owed in E0. rewrite decide_False in E0 by done. by rewrite E0 in Ea. }
  obind [x|] Ei. intros [= <-]. eapply steps_then; [exact H1|]. apply core_steps; [by eapply invalidate_frame|apply H1].
Qed.

(** Replacing the packet of the first target by one with the same command. *)
Lemma set_first_targets m p t ts : items (targets m) = t :: ts →
  targets_of (set_first m p) =
    mkTarget (recvTime t) (t_readyTime t) (t_order t) p (source t) (markedPending t) (t_needsResponse t) :: ts ++ items (deferredTargets m).
Proof. intros Ht. unfold set_first. by rewrite Ht. Qed.

Lemma set_first_ok cnt m p t ts : items (targets m) = t :: ts → Packet.cmd p = Packet.cmd (pkt t) → mshr_ok cnt m → mshr_ok cnt (set_first m p).
Proof.
  intros Ht Hc Hok. pose proof Hok as [_ [He1 He2] [Hu1 Hu2] _ _ _ _ _ _]. unfold set_first. rewrite Ht. apply relist_ok; try done; try by rewrite Ht.
  - intros x Hx. cbn in Hx. apply elem_of_cons in Hx as [->|Hx].
    + cbn. intros Hs Hn. apply (He1 t); [rewrite Ht; by left|done|]. unfold Packet.needsExclusive in *. by rewrite <- Hc.
    + intros Hs Hn. apply (He1 x); [rewrite Ht; by right|done..].
  - intros Hi x Hx. cbn in Hx. apply elem_of_cons in Hx as [->|Hx].
    + cbn. intros Hs Hrq Hup. apply (Hu2 Hi t); [rewrite Ht; by left|done|..]; unfold Packet.isRequest, Packet.isUpgrade in *; by rewrite <- Hc.
    + intros Hs Hrq Hup. apply (Hu2 Hi x); [rewrite Ht; by right|done..].
Qed.

Lemma set_first_steps now c id m p t ts :
  tc_ok now c → heap (core c) !! id = Some m → items (targets m) = t :: ts → Packet.cmd p = Packet.cmd (pkt t) →
  asked p = asked (pkt t) ∨ target_owed t = None → id ∈ allocatedList (get_queue c (queue_of c id)) →
  steps now [] c (with_heap c (<[id := set_first m p]> (heap (core c)))).
Proof.
  intros Hok Hm Ht Hc Ha Hid. pose proof (ok_regs _ _ Hok) as Hrg. pose proof (rg_queue _ Hrg (queue_of c id)) as Hq.
  pose proof (alloc_reg Hq id Hid) as Hreg. pose proof (rg_targets _ Hrg id m Hm) as [Hts Hrt].
  assert (readyTime (set_first m p) = readyTime m ∧ inService (set_first m p) = inService m ∧ ntargets (set_first m p) = ntargets m) as (R1 & R2 & R3)
    by (unfold set_first; by rewrite Ht).
  assert (touches (heap (core c)) (<[id:=set_first m p]> (heap (core c))) id) as Hto by (by eapply insert_touches; [apply touches_refl|..]).
  eapply heap_steps0; [done|exact Hreg|apply touches_at; [by eexists| |exact Hto]|apply (queue_ok_touch Hq _ _ id Hid Hto)| |].
  - apply owes_insert; [done|apply Hrg|]. split; [|by rewrite R1]. rewrite (set_first_targets m p t ts Ht).
    unfold targets_of in Hts. rewrite Ht in Hts. apply Forall_cons in Hts as [(T1 & T2 & T3) Hts]. constructor; [|done].
    split_and!; cbn; [by rewrite Hc| |done]. unfold Packet.needsResponse. by rewrite Hc.
  - apply heap_ok_insert; [apply Hq|]. eapply set_first_ok; [done..|]. by apply (qok_heap _ _ _ Hq id).
  - rewrite (owed_by_Some _ id m Hm). unfold mshr_owed. rewrite (set_first_targets m p t ts Ht). unfold targets_of. rewrite Ht. cbn.
    assert (target_owed (mkTarget (recvTime t) (t_readyTime t) (t_order t) p (source t) (markedPending t) (t_needsResponse t)) = target_owed t) as ->;
      [|done]. unfold target_owed in *. cbn. destruct (_ && _); [|done]. destruct Ha as [->|]; done.
  - intros _ _ m1 Hm1 H2. rewrite Hm in Hm1. injection Hm1 as <-. eexists. rewrite lookup_insert_eq. split; [done|]. lia.
Qed.

(** The block of a response. *)
Lemma response_fill_ok now id p first finish c rs wbs c' :
  tc_ok now c → id ∈ allocatedList (get_queue c (queue_of c id)) → (has_pf c = false → noTargetMSHR c ≠ Some id) →
  response_fill now id p first finish c = Some (rs, wbs, c') →
  steps now [] c c' ∧ calm c c' ∧ Forall is_wb wbs ∧ rs_finish rs = finish.
Proof.
  intros Hok Hid Hnt. unfold response_fill. obind [m|] Hm. obind [a|]. destruct (_ && _).
  - obind [[h q]|] Eh. obind [[[b wbs1] x]|] Ef. intros [= <- <- <-].
    pose proof (ok_regs _ _ Hok) as Hr. pose proof (rg_queue _ Hr (queue_of c id)) as Hq.
    pose proof (handleFill_touches _ _ _ _ _ Eh) as Hto.
    assert (heap_ok (order c) h) as Hh.
    { destruct (inService m) eqn:Ei; [by eapply Mshr.handleFill_ok; [apply Hq|exact Hm|done|exact Eh]|].
      unfold Mshr.handleFill in Eh. rewrite Hm in Eh. cbn [mbind option_bind] in Eh.
      pose proof (qok_heap _ _ _ Hq id m Hm) as Hmo. pose proof (ok_reset _ _ Hmo (ok_idle _ _ Hmo Ei)) as Hrs.
      unfold isReset in Hrs. apply andb_true_iff in Hrs as [Hrs _]. rewrite negb_true_iff in Hrs. rewrite Hrs, andb_false_r in Eh.
      injection Eh as <- _. apply Hq. }
    assert (steps now [] c (with_heap c h)) as H1.
    { eapply heap_steps0; [done|by apply (alloc_reg Hq)|apply touches_at; [by eexists|by eapply handleFill_owes; [apply Hr|exact Eh]|done]
        |by apply (queue_ok_touch Hq _ _ id Hid Hto)|done|]. intros Hpf Hj. by destruct (Hnt Hpf). }
    apply handleFill_frame in Ef as [Hf Hw]. split_and!; [|exact (core_calm (with_heap c h) x Hf)|by apply Hw|done].
    eapply steps_then; [exact H1|]. apply core_steps; [done|apply H1].
  - intros [= <- <- <-]. split_and!; [by apply steps_refl|done..].
Qed.

(** The register that had all its targets is answered. *)
Lemma clear_target_ok now c id c1 :
  tc_ok now c → noTargetMSHR c = Some id → clearBlocked now NoTargets c = Some c1 → steps now [] c (with_noTarget c1 None).
Proof.
  intros Hok Hnt Es. pose proof (ok_block _ _ Hok) as [B1 B2 B3 B4 B5]. pose proof (ok_regs _ _ Hok) as Hr.
  apply clearBlocked_ok in Es as (Hu & Hf & Hn & Hbits); [|done|rewrite B4, Hnt; by apply bool_decide_eq_true].
  assert (upto_blocked now c (with_noTarget c1 None)) as Hu' by (by destruct Hu).
  pose proof (upto_regs _ _ Hu' Hr) as Hr'. pose proof (λ i, upto_queue _ _ i Hu') as Q.
  destruct Hok as [Hnow _ Hp _ Hc Hm Hl Hv]. destruct Hu' as [U1 U2 U3 U4 U5 U6 U7 U8].
  assert (has_pf (with_noTarget c1 None) = has_pf c ∧ pf_queue (with_noTarget c1 None) = pf_queue c) as [P1 P2]
    by (unfold has_pf, pf_queue; by rewrite U4).
  split_and!.
  - split; rewrite ?P2, ?U5, ?U6, ?U1; try done; [|by apply U8]. split; try done; [by destruct Hf|..].
    + intros i. rewrite Q. change (blocked_by (with_noTarget c1 None)) with (blocked_by c1). intros Hi. rewrite Hbits, B2 by done. by destruct i.
    + intros i Hpf. rewrite Q. change (blocked_by (with_noTarget c1 None)) with (blocked_by c1). rewrite Hbits, P1 in *.
      intros [Hi _]%andb_true_iff. by apply B3.
    + change (blocked_by (with_noTarget c1 None)) with (blocked_by c1). rewrite Hbits. cbn. by rewrite andb_false_r.
  - split; rewrite ?U5, ?P1; try done; [|by exists []]. unfold owed, reg_owed, regs. by rewrite U1, U2, U5.
  - apply keeps_same; [|by rewrite U6]. intros i j. by rewrite Q.
Qed.

Lemma handleResponse_ok now p first finish c (d : D) c' d' :
  tc_ok now c → now <= finish → handleResponse K now p first finish c d = Some (c', d') → steps now [] c c'.
Proof.
  intros Hok Hf. unfold handleResponse. obind [id|]. obind [m|] Hm. destruct (Packet.wasNacked p); [intros [= <- _]; by apply steps_refl|].
  destruct (hit_time now c Hok) as [-> Ht]. cbv zeta.
  match goal with |- ?o ≫= _ = _ → _ => destruct o as [c1|] eqn:E1; [cbn [mbind option_bind]|done] end.
  assert (steps now [] c c1 ∧ heap (core c1) = heap (core c) ∧ (∀ i, get_queue c1 i = get_queue c i) ∧ noTargetMSHR c1 ≠ Some id ∧
    c_hitLatency (core c1) = c_hitLatency (core c)) as (H1 & Hh1 & Q1 & Hnt & Hl1).
  { revert E1. destruct (bool_decide_reflect (noTargetMSHR c = Some id)) as [Hn|]; [|intros [= <-]; split_and!; [by apply steps_refl|done..]].
    obind [c2|] E2. intros [= <-]. split; [by eapply clear_target_ok|]. apply clearBlocked_ok in E2 as (Hu & _); [|apply Hok|].
    - cbn. rewrite (ub_core _ _ _ Hu). split_and!; try done. intros i. apply (upto_queue _ _ i Hu).
    - rewrite (bl_target _ (ok_block _ _ Hok)), Hn. by apply bool_decide_eq_true. }
  destruct (hasTargets m) eqn:Eht; [|done]. cbn [negb]. unfold hasTargets in Eht. apply bool_decide_eq_true in Eht.
  destruct (items (targets m)) as [|t0 ts0] eqn:Et0; [done|].
  assert (queue_of c1 id = queue_of c id) as Eqo by (unfold queue_of; by rewrite (Q1 MSHRs : mshrQueue (core c1) = _)).
  set (i := queue_of c id) in *.
  assert (id ∈ allocatedList (get_queue c1 i)) as Hid.
  { rewrite Q1. eapply has_targets_alloc; [apply (rg_queue _ (ok_regs _ _ Hok))| |exact Hm|].
    - apply in_some_queue, (rg_dom _ (ok_regs _ _ Hok)). by eexists.
    - unfold targets_of. by rewrite Et0. }
  rewrite <- Eqo in Hid. rewrite <- Hh1 in Hm. unfold share_request. rewrite Et0.
  pose proof (set_first_steps now c1 id m (Packet.set_req (pkt t0) (Packet.req p)) t0 ts0 (proj1 H1) Hm Et0 eq_refl (or_introl eq_refl) Hid) as H2.
  set (c2 := with_heap c1 _) in *. assert (calm c1 c2) as C2 by done. clearbody c2.
  obind [[[rs wbs] c3]|] E3. apply response_fill_ok in E3 as (H3 & C3 & Hwb & Hfin); [|by apply H2| |].
  2:{ by rewrite (calm_queue_of c1 c2 id C2), (calm_queue c1 c2 _ C2). }
  2:{ by rewrite (proj1 (proj2 (proj2 C2))). }
  obind [m3|]. obind [t3|]. obind [off|]. obind [[c4 d4]|] E4.
  assert (calm c1 c3) as C13 by (by etransitivity).
  apply respond_loop_ok in E4 as [H4 C4]; [|by apply H3| |].
  2:{ by rewrite (calm_queue_of c1 c3 id C13), (calm_queue c1 c3 _ C13). }
  2:{ by rewrite (proj1 (proj2 (proj2 C13))). }
  assert (calm c1 c4) as C14 by (by etransitivity).
  match goal with |- ?o ≫= _ = _ → _ => destruct o as [c5|] eqn:E5; [cbn [mbind option_bind]|done] end.
  assert (steps now [] c4 c5 ∧ calm c4 c5) as [H5 C5].
  { revert E5. destruct (Packet.isInvalidate _); [|intros [= <-]; split; [by apply steps_refl, H4|done]]. obind [b|]. obind [x|] Ei.
    intros [= <-]. split; [apply core_steps; [by eapply invalidate_frame|apply H4]|apply core_calm; by eapply invalidate_frame]. }
  assert (calm c1 c5) as C15 by (by etransitivity).
  obind [c6|] E6. replace (isFull (get_queue c i)) with (isFull (get_queue c5 (queue_of c5 id))) in E6.
  2:{ by rewrite (calm_queue_of c1 c5 id C15), (calm_queue c1 c5 _ C15), Eqo, Q1. }
  apply release_mshr_ok in E6; [|by apply H5| | |by rewrite Hfin].
  2:{ by rewrite (calm_queue_of c1 c5 id C15), (calm_queue c1 c5 _ C15). }
  2:{ by rewrite (proj1 (proj2 (proj2 C15))). }
  obind [c7|] E7. apply buffer_writebacks_ok in E7; [|by apply E6|done..]. obind [c8|] E8. apply release_temp_ok in E8; [|by apply E7|done].
  intros [= <- _]. eapply steps_then; [exact H1|]. eapply steps_then; [exact H2|]. eapply steps_then; [exact H3|].
  eapply steps_then; [exact H4|]. eapply steps_then; [exact H5|]. eapply steps_then; [exact E6|]. by eapply steps_then.
Qed.

(** [MemSidePort::recvTiming] *)
Lemma mem_recvTiming_ok now p first finish c (d : D) ok p' c' d' :
  tc_ok now c → now <= finish → (Packet.isResponse p = false → ¬ is_pf p) →
  mem_recvTiming K now p first finish c d = Some (ok, p', c', d') → steps now [] c c'.
Proof.
  intros Hok Hf Hp. unfold mem_recvTiming. destruct (Packet.wasNacked p); [done|]. destruct (_ && _).
  { cbv zeta. intros [= _ _ <- _]. split_and!; [|by apply grows_same|split; [done|by left]].
    destruct Hok as [Hn Hr Hpq Hb Hc Hm Hl]. split; try done; [by destruct Hr|]. destruct Hb as [B1 B2 B3 B4 B5]. split; try done. by destruct B1. }
  destruct (Packet.isResponse p).
  - obind [[c1 d1]|] Eh. intros [= _ _ <- _]. by eapply handleResponse_ok.
  - obind [[[p1 c1] d1]|] Es. intros [= _ _ <- _]. eapply snoopTiming_ok; [done|by apply Hp|exact Es].
Qed.

(** ** What is sent to the memory side *)

Lemma ready_allocated now c i id : tc_ok now c → id ∈ readyList (get_queue c i) → id ∈ allocatedList (get_queue c (queue_of c id)).
Proof.
  intros Hok Hid. pose proof (rg_queue _ (ok_regs _ _ Hok) i) as Hq. apply (ready_alloc Hq) in Hid as [Hid _].
  by rewrite (queue_of_reg c i id (ok_regs _ _ Hok) (alloc_reg Hq id Hid)).
Qed.

(** The port of the memory side is not used. *)
Definition chosen (now : Z) c c' : Prop := tc_ok now c' ∧ grows now [] c c' ∧ memSidePort c' = memSidePort c.

Lemma chosen_refl now c : tc_ok now c → chosen now c c.
Proof. intros H. split_and!; [done|apply grows_refl|done]. Qed.

Lemma chosen_trans now c1 c2 c3 : chosen now c1 c2 → chosen now c2 c3 → chosen now c1 c3.
Proof. intros (_ & G1 & M1) (T2 & G2 & M2). split_and!; [done|by eapply grows_then|congruence]. Qed.

Lemma steps_chosen now c c' : steps now [] c c' → memSidePort c' = memSidePort c → chosen now c c'.
Proof. by intros (H1 & H2 & _). Qed.

Lemma next_prefetch_ok now fuel : ∀ s c o c',
  tc_ok now c → prefetcher c = Some s → next_prefetch fuel now s c = Some (o, c') →
  chosen now c c' ∧ ∀ id, o = Some id → id ∈ readyList (mshrQueue (core c')).
Proof.
  induction fuel as [|fuel IH]; intros s c o c' Hok Hs; cbn [next_prefetch];
    (destruct (_ <=? _); [|intros [= <- <-]; split; [by apply chosen_refl|done]]);
    unfold getPacket; pose proof (ok_pfq _ _ Hok) as Hq; unfold pf_queue in Hq; rewrite Hs in Hq.
  - destruct (pf s) as [|p q] eqn:Eq; [|done]. intros [= <- <-]. split; [|done].
    apply steps_chosen; [|done]. eapply prefetcher_steps; [done..|]. by rewrite Eq.
  - destruct (pf s) as [|p q] eqn:Eq.
    { intros [= <- <-]. split; [|done]. apply steps_chosen; [|done]. eapply prefetcher_steps; [done..|]. by rewrite Eq. }
    set (s1 := mkPrefetcher q _ _). apply Forall_cons in Hq as [Hp Hq].
    pose proof (prefetcher_steps now c s s1 Hok Hs Hq) as H1. set (c1 := with_prefetcher c (Some s1)) in *.
    apply steps_chosen in H1; [|done]. obind [a|]. cbv zeta. destruct (_ && _).
    + obind [[id c2]|] Ea. intros [= <- <-]. assert (tick_ok now now) as Ht.
      { pose proof (ok_now _ _ Hok). unfold tick_ok, early, MaxTick in *. lia. }
      apply allocateMissBuffer_ok in Ea as (H2 & H3 & Hrd & Em); [|by apply H1|done|done].
      split; [|by intros ? [= <-]]. eapply chosen_trans; [exact H1|]. unfold pf_owed in H3. by rewrite decide_True in H3.
    + intros En. apply IH in En as [H2 Hid]; [|by apply H1|done]. split; [by eapply chosen_trans|done].
Qed.

Lemma findPending_ready h q a sz id : findPending h q a sz = Some id → id ∈ readyList q.
Proof.
  unfold findPending. destruct (list_find _ _) as [[k j]|] eqn:El; [|done]. intros [= <-].
  apply list_find_Some in El as (El & _). by eapply list_elem_of_lookup_2.
Qed.

Lemma getNextMSHR_ready h q now id : MshrQueue.getNextMSHR h q now = Some id → id ∈ readyList q.
Proof.
  unfold MshrQueue.getNextMSHR. destruct (readyList q) as [|j l]; [done|]. cbn [head mbind option_bind]. obind [m|].
  destruct (_ <? _); [done|]. intros [= <-]. by left.
Qed.

Lemma cache_getNextMSHR_ok now c o c' :
  tc_ok now c → cache_getNextMSHR now c = Some (o, c') →
  chosen now c c' ∧ ∀ id, o = Some id → ∃ i, id ∈ readyList (get_queue c' i).
Proof.
  intros Hok. unfold cache_getNextMSHR. cbv zeta.
  destruct (MshrQueue.getNextMSHR _ (mshrQueue _) _) as [miss|] eqn:Em, (MshrQueue.getNextMSHR _ (writeBuffer _) _) as [wr|] eqn:Ew;
    try apply getNextMSHR_ready in Em; try apply getNextMSHR_ready in Ew.
  - obind [mm|]. obind [wm|]. destruct (_ && _).
    + destruct (findPending _ _ _ _) as [cf|] eqn:Ef.
      * obind [cm|]. intros [= <- <-]. split; [by apply chosen_refl|]. intros id [= <-].
        destruct (_ <? _); [exists MSHRs; by eapply findPending_ready|by exists WriteBuffer].
      * intros [= <- <-]. split; [by apply chosen_refl|]. intros id [= <-]. by exists WriteBuffer.
    + destruct (findPending _ _ _ _) as [cf|] eqn:Ef; intros [= <- <-]; (split; [by apply chosen_refl|]); intros id [= <-].
      * exists WriteBuffer. by eapply findPending_ready.
      * by exists MSHRs.
  - intros [= <- <-]. split; [by apply chosen_refl|]. intros id [= <-]. by exists MSHRs.
  - intros [= <- <-]. split; [by apply chosen_refl|]. intros id [= <-]. by exists WriteBuffer.
  - destruct (prefetcher c) as [s|] eqn:Es; [|intros [= <- <-]; split; [by apply chosen_refl|done]].
    destruct (isFull _); [intros [= <- <-]; split; [by apply chosen_refl|done]|]. intros En.
    apply next_prefetch_ok in En as [H1 H2]; [|done..]. split; [done|]. intros id Hid. exists MSHRs. by apply H2.
Qed.

(** A prefetch leaves its register without a word. *)
Lemma drop_prefetch_ok now id c c' m t ts :
  tc_ok now c → (∃ i, id ∈ readyList (get_queue c i)) → heap (core c) !! id = Some m → items (targets m) = t :: ts →
  is_pf (pkt t) → drop_prefetch id c = Some c' → chosen now c c'.
Proof.
  intros Hok [i0 Hrd] Hm Ht Hp. unfold drop_prefetch. rewrite Hm. cbn [mbind option_bind].
  pose proof (ready_allocated now c i0 id Hok Hrd) as Hid. pose proof (rg_targets _ (ok_regs _ _ Hok) id m Hm) as [Hts _].
  unfold targets_of in Hts. rewrite Ht in Hts. apply Forall_cons in Hts as [(Hpf & _) _]. destruct (Hpf Hp) as [Hpf1 Hsrc].
  set (c1 := with_heap c (<[id := popTarget m]> (heap (core c)))).
  assert (steps now [] c c1) as H1.
  { eapply pop_steps; [|exact Hm|exact Ht|done|congruence]. unfold target_owed. rewrite bool_decide_eq_false_2 by congruence.
    by apply steps_refl. }
  apply steps_chosen in H1; [|done]. destruct (hasTargets _); [by intros [= <-]|]. cbv zeta.
  change (queue_of c1 id) with (queue_of c id). set (i := queue_of c id) in *. obind [[h q]|] Ed. intros [= <-].
  destruct H1 as (Hok1 & Hg1 & _). pose proof (ok_regs _ _ Hok1) as Hr1. pose proof (rg_queue _ Hr1 i) as Hq1.
  assert (has_pf c1 = true) as Hpf2 by done.
  pose proof (deallocateOne_ok _ _ _ _ _ _ Hq1 Ed) as Hq2.
  pose proof Ed as (Ha & Hsh & Hal & Hn & _)%(deallocateOne_owes (has_pf c1)); [|by apply Hr1].
  assert (with_queue c1 i h q = with_order (with_queue c1 i h q) (order c1)) as E0 by (destruct i; by destruct c).
  destruct (queue_steps now c1 (with_queue c1 i h q) i h q (order c1) id (owed_by (heap (core c1)) id) []) as (Hok2 & Hg2 & _); try done.
  - by apply (alloc_reg Hq1).
  - rewrite <- E0. apply upto_refl.
  - rewrite E0. apply same_block; [apply Hok1|done|lia|by left|]. intros Hno. change (has_pf c1 = false) in Hno || idtac.
    exfalso. revert Hno. replace (has_pf (with_order (with_queue c1 i h q) (order c1))) with (has_pf c1) by (by destruct i). by rewrite Hpf2.
  - split_and!; [done|by eapply grows_then|]. by destruct i.
Qed.

(** What is sent, with its register. *)
Lemma getTimingPacket_ok now c (d : D) o c' d' :
  tc_ok now c → getTimingPacket K now c d = Some (o, c', d') →
  tc_ok now c' ∧ grows now [] c c' ∧
  ∀ id p, o = Some (id, p) → memSidePort c' = memSidePort c ∧ (∃ i, id ∈ readyList (get_queue c' i)) ∧
    ∀ m, heap (core c') !! id = Some m → isForwardNoResponse m = Some true →
      ∃ t ts, items (targets m) = t :: ts ∧ Packet.cmd p = Packet.cmd (pkt t).
Proof.
  intros Hok. unfold getTimingPacket. obind [[o1 c1]|] En. apply cache_getNextMSHR_ok in En as [(Hok1 & Hg1 & Em1) Hid]; [|done].
  destruct o1 as [id|]; [|by intros [= <- <- _]]. destruct (Hid id eq_refl) as [i Hrd]. obind [m|] Hm. obind [t|] Eh.
  destruct (items (targets m)) as [|t0 ts] eqn:Et; [done|]. injection Eh as ->. cbv zeta.
  pose proof (ready_allocated now c1 i id Hok1 Hrd) as Hal. destruct (decide _).
  { obind [[c2 d2]|] Ef. intros [= <- <- _]. unfold fail_upgrade in Ef. cbv zeta in Ef. apply handleResponse_ok in Ef as (H2 & H3 & _); [|done|lia].
    split_and!; [done|by eapply grows_then|done]. }
  obind [fnr|] Ef. destruct fnr.
  - destruct (inCache _ _); [done|]. intros [= <- <- _]. destruct (fnr_owed m Ef) as (_ & t1 & ts1 & Et1 & Ho & _).
    rewrite Et in Et1. injection Et1 as <- <-. set (p := Packet.set_sender (pkt t) (Some id)).
    pose proof (set_first_steps now c1 id m p t ts Hok1 Hm Et eq_refl (or_intror Ho) Hal) as (H2 & H3 & _).
    split_and!; [done|by eapply grows_then|]. intros id' p' [= <- <-]. split_and!; [done|by exists i|].
    cbn [heap core with_heap with_core set_hq]. intros m'. rewrite lookup_insert_eq. intros [= <-] _.
    eexists _, ts. unfold set_first. rewrite Et. done.
  - destruct (inCache _ _ && _) eqn:Eb.
    + apply andb_true_iff in Eb as [_ Eb]. apply bool_decide_eq_true in Eb. obind [c2|] Ed. intros [= <- <- _].
      eapply drop_prefetch_ok in Ed as (H2 & H3 & _); [|done|by exists i|done..]. split_and!; [done|by eapply grows_then|done].
    + obind [[q fwd]|] Eq. intros [= <- <- _].
      assert (steps now [] c1 (with_heap c1 (<[id := set_isForward m fwd]> (heap (core c1))))) as (H2 & H3 & _).
      { eapply field_steps; try done. intros cnt []. by split. }
      split_and!; [done|by eapply grows_then|]. intros id' p' [= <- <-]. split_and!; [done|by exists i|].
      cbn [heap core with_heap with_core set_hq]. intros m'. rewrite lookup_insert_eq. intros [= <-] Ef'.
      unfold isForwardNoResponse in *. cbn in Ef'. by rewrite Ef in Ef'.
Qed.

(** The memory side returns a packet that it refuses with its command, and the cpu side
    sends no prefetches of its own. *)
Class PeersOk := {
  mem_send_keeps t p d p' d' : mem_send t p d = Some (false, p', d') → Packet.cmd p' = Packet.cmd p;
  cpu_send_requests t p d ok reqs d' : cpu_send t p d = Some (ok, reqs, d') → Forall (λ q, ¬ is_pf q) reqs;
  cpu_retry_requests t d reqs d' : cpu_retry t d = Some (reqs, d') → Forall (λ q, ¬ is_pf q) reqs
}.
Context {P : PeersOk}.

Lemma mem_port_ok now c tp : tc_ok now c → mem_core now tp → tc_ok now (new_mem c tp) ∧ grows now [] c (new_mem c tp).
Proof.
  intros [Hn Hr Hp Hb Hc Hm Hl Hv] Hm'. split; [|by apply grows_same].
  split; try done; [by destruct Hr|]. destruct Hb as [B1 B2 B3 B4 B5]. split; try done. by destruct B1.
Qed.

Lemma mem_core_waiting now tp w : mem_core now tp → (w = true → sendEvent tp = None) → mem_core now (with_waiting tp w).
Proof. intros [] H. by split. Qed.

Lemma send_deferred_ok now c (d : D) c' d' :
  tc_ok now c → sendEvent (port (memSidePort c)) = None → send_deferred now c d = Some (c', d') →
  tc_ok now c' ∧ grows now [] c c'.
Proof.
  intros Hok He. unfold send_deferred. obind [[t p]|] Eh. obind [[[ok p1] d1]|]. cbv zeta. intros [= <- _].
  apply mem_port_ok; [done|]. destruct (ok_mem _ _ Hok) as [M1 M2 M3]. apply mem_core_waiting.
  - split; try done. cbn. destruct (transmitList _) as [|x l]; [done|]. injection Eh as ->. apply Forall_cons in M3 as [? ?].
    destruct ok; [done|by constructor].
  - by destruct ok.
Qed.

Lemma send_request_ok now c (d : D) c' d' :
  tc_ok now c → sendEvent (port (memSidePort c)) = None → send_request K now c d = Some (c', d') →
  tc_ok now c' ∧ grows now [] c c'.
Proof.
  intros Hok He. unfold send_request. obind [[[o c1] d1]|] Eg. apply getTimingPacket_ok in Eg as (Hok1 & Hg1 & Ho); [|done].
  destruct o as [[id p]|].
  - destruct (Ho id p eq_refl) as (Em & [i Hrd] & Hfn). obind [[[ok p1] d2]|] Es. cbv zeta.
    set (tp := with_waiting (port (memSidePort c1)) (negb ok)).
    assert (mem_core now tp) as Htp by (apply mem_core_waiting; [by apply Hok1|by rewrite Em]).
    destruct (mem_port_ok now c1 tp Hok1 Htp) as [Hok2 Hg2]. change (set_mem_port c1 tp) with (new_mem c1 tp).
    set (c2 := new_mem c1 tp) in *. obind [m|] Hm.
    assert (id ∈ allocatedList (get_queue c2 (queue_of c2 id))) as Hal by exact (ready_allocated now c1 i id Hok1 Hrd).
    destruct ok.
    + obind [c3|] Ek. intros [= <- _]. apply tc_markInService_ok in Ek as (H3 & H4 & _); [|done..].
      split; [done|]. eapply grows_then; [exact Hg1|]. by eapply grows_then.
    + obind [fnr|] Ef. intros [= <- _]. destruct fnr; [|by split; [|by eapply grows_then]].
      destruct (Hfn m Hm Ef) as (t & ts & Et & Hc). destruct (fnr_owed m Ef) as (_ & t1 & ts1 & Et1 & Hot & _).
      rewrite Et in Et1. injection Et1 as <- <-.
      assert (Packet.cmd p1 = Packet.cmd (pkt t)) as Hc1 by (rewrite <- Hc; by eapply mem_send_keeps).
      destruct (set_first_steps now c2 id m p1 t ts Hok2 Hm Et Hc1 (or_intror Hot) Hal) as (H3 & H4 & _).
      split; [done|]. eapply grows_then; [exact Hg1|]. by eapply grows_then.
  - intros [= <- _]. set (tp := with_waiting (port (memSidePort c1)) false).
    assert (mem_core now tp) as Htp by (apply mem_core_waiting; [by apply Hok1|done]).
    destruct (mem_port_ok now c1 tp Hok1 Htp) as [Hok2 Hg2]. split; [done|by eapply grows_then].
Qed.

(** When there is no next tick there is nothing to send. *)
Lemma no_work now c : tc_ok now c →
  Z.min (deferredPacketReadyTime (port (memSidePort c))) (cache_nextMSHRReadyTime c) = MaxTick → ¬ mem_work c.
Proof.
  intros Hok Hn. assert (∀ i, MaxTick <= MshrQueue.nextMSHRReadyTime (heap (core c)) (get_queue c i)) as Hq.
  { intros i. assert (cache_nextMSHRReadyTime c <= MshrQueue.nextMSHRReadyTime (heap (core c)) (get_queue c i)); [|lia].
    unfold cache_nextMSHRReadyTime. destruct i; cbn [get_queue]; destruct (prefetcher c); lia. }
  intros [Hl|[i Hi]].
  - pose proof (mc_times _ _ (ok_mem _ _ Hok)) as Ht. unfold deferredPacketReadyTime in Hn.
    destruct (transmitList _) as [|[t p] l]; [done|]. apply Forall_cons in Ht as [Ht _]. cbn in Ht. lia.
  - specialize (Hq i). unfold MshrQueue.nextMSHRReadyTime in Hq. destruct (readyList (get_queue c i)) as [|id l] eqn:El; [done|].
    pose proof (rg_queue _ (ok_regs _ _ Hok) i) as Hqo. assert (id ∈ readyList (get_queue c i)) as Hid by (rewrite El; by left).
    apply (ready_alloc Hqo) in Hid as [Hid _]. destruct (qok_dom _ _ _ Hqo id (alloc_reg Hqo id Hid)) as [m Hm].
    destruct (rg_targets _ (ok_regs _ _ Hok) id m Hm) as [_ Hr]. rewrite Hm in Hq. cbn in Hq. lia.
Qed.

Lemma sendPacket_ok now c (d : D) c' d' dr :
  tc_ok now c → sendEvent (port (memSidePort c)) = None → sendPacket K now c d = Some (c', d', dr) →
  tc_ok now c' ∧ grows now [] c c' ∧ mem_awake c'.
Proof.
  intros Hok He. unfold sendPacket.
  match goal with |- ?o ≫= _ = _ → _ => destruct o as [[c1 d1]|] eqn:E1; [cbn [mbind option_bind]|done] end.
  assert (tc_ok now c1 ∧ grows now [] c c1) as [Hok1 Hg1].
  { destruct (deferredPacketReady _ _); [by eapply send_deferred_ok|by eapply send_request_ok]. }
  clear E1. cbv zeta. destruct (waitingOnRetry _) eqn:Ew; [intros [= <- _ _]; split_and!; [done..|by intros _; left]|].
  destruct (Z.eqb_spec (Z.min (deferredPacketReadyTime (port (memSidePort c1))) (cache_nextMSHRReadyTime c1)) MaxTick) as [Hmax|]; cbn [negb].
  - pose proof (no_work now c1 Hok1 Hmax) as Hno. destruct (_ && _); intros [= <- _ _]; [|split_and!; [done..|]; intros H; by destruct Hno].
    set (tp := with_drain _ _). assert (mem_core now tp) as Htp by (by destruct (ok_mem _ _ Hok1)).
    destruct (mem_port_ok now c1 tp Hok1 Htp) as [Hok2 Hg2]. split_and!; [done|by eapply grows_then|]. intros H. by destruct Hno.
  - obind [tp|] Es. intros [= <- _ _]. unfold schedule in Es. destruct (sendEvent (port (memSidePort c1))); [done|]. destruct (_ <? _); [done|].
    injection Es as <-. set (tp := with_event _ _). pose proof (ok_now _ _ Hok1) as Hn.
    assert (mem_core now tp) as Htp.
    { destruct (ok_mem _ _ Hok1) as [M1 M2 M3]. split; try done; [cbn; congruence|]. cbn. intros u [= <-].
      rewrite s64_small by (unfold is_s64, early in *; lia). lia. }
    destruct (mem_port_ok now c1 tp Hok1 Htp) as [Hok2 Hg2]. split_and!; [done|by eapply grows_then|]. intros _. right. by eexists.
Qed.

(** ** What is sent to the cpu side *)

(** The requests of a list that are taken, until one is refused. *)
Fixpoint accepted_until (curTick : Z) (ps : list Packet.t) c (d : D) : list Packet.t :=
  match ps with
  | [] => []
  | p :: ps =>
      match cpu_recvTiming K curTick p c d with
      | Some (true, c, d) => p :: accepted_until curTick ps c (cpu_told curTick p true d)
      | _ => []
      end
  end.

Lemma cpu_recv_until_ok now ps : ∀ c (d : D) c' d',
  numTarget K ≠ 1 → tc_ok now c → Forall (λ p, ¬ is_pf p) ps → cpu_recv_until K now ps c d = Some (c', d') →
  steps now (accepted_until now ps c d ≫= taken) c c' ∧
  ((length (accepted_until now ps c d) < length ps)%nat → retry_due c').
Proof.
  induction ps as [|p ps IH]; intros c d c' d' Hnt Hok Hps; cbn [cpu_recv_until accepted_until].
  { intros [= <- _]. split; [by apply steps_refl|cbn; lia]. }
  apply Forall_cons in Hps as [Hp Hps]. obind [[[ok c1] d1]|] E1. pose proof E1 as [H1 Hr]%cpu_recvTiming_ok; [|done..].
  destruct ok.
  - intros E2. apply IH in E2 as [H2 Hr2]; [|done|by apply H1|done]. cbn [mbind list_bind length]. split; [|intros; apply Hr2; lia].
    eapply steps_perm; [by eapply steps_trans|]. apply Permutation_app_comm.
  - intros [= <- _]. split; [done|]. intros _. by apply Hr.
Qed.

Definition new_cpu c (tp : TPort) : TCache pstate := with_cpu c (with_port (cpuSidePort c) tp).

Lemma cpu_port_ok now c tp : tc_ok now c → tp_core now tp → tc_ok now (new_cpu c tp) ∧ mem_keeps c (new_cpu c tp).
Proof.
  intros [Hn Hr Hp Hb Hc Hm Hl Hv] Hc'. split; [|by split; auto].
  split; try done; [by destruct Hr|]. destruct Hb as [B1 B2 B3 B4 B5]. split; try done. by destruct B1.
Qed.

(** The state in which the requests find the cache that come with a response. *)
Definition while_sending c : TCache pstate :=
  new_cpu c (with_list (with_event (port (cpuSidePort c)) None) (tail (transmitList (port (cpuSidePort c))))).

Lemma take_front_state now tp t p tp1 : sendEvent tp = None → take_front now tp = Some (t, p, tp1) →
  tp1 = with_list (with_event tp None) (tail (transmitList tp)).
Proof.
  unfold take_front. destruct (deferredPacketReady _ _); [|done]. destruct tp as [[|[t1 p1] l] e w dv]; [done|]. cbn. by intros -> [= _ _ <-].
Qed.

Lemma cpu_sendDeferred_ok now c (d : D) c' d' dr :
  numTarget K ≠ 1 → tc_ok now c → sendEvent (port (cpuSidePort c)) = None → cpu_sendDeferred K now c d = Some (c', d', dr) →
  ∃ t p l ok reqs d1, transmitList (port (cpuSidePort c)) = (t, p) :: l ∧ t <= now ∧ cpu_send now p d = Some (ok, reqs, d1) ∧
    let acc := accepted_until now reqs (while_sending c) d1 in
    tc_ok now c' ∧ mem_keeps c c' ∧ awake (port (cpuSidePort c')) ∧ has_pf c' = has_pf c ∧
    (if ok then [answered p] else []) ++ owed c' ≡ₚ (acc ≫= taken) ++ owed c ∧
    (retry_due c ∨ (length acc < length reqs)%nat → retry_due c').
Proof.
  intros Hnt Hok He. unfold cpu_sendDeferred. obind [[[t p] tp1]|] Ef. pose proof (take_front_state _ _ _ _ _ He Ef) as Etp.
  apply take_front_ok in Ef as (El & [Hc1 [Ht1 Ht2] Hl1] & Hw1 & Hd1); [|by apply Hok|done]. cbn [fst] in *.
  obind [[[ok reqs] d1]|] Es. change (set_cpu_port c tp1) with (new_cpu c tp1).
  assert (while_sending c = new_cpu c tp1) as Hws by (unfold while_sending; by rewrite Etp).
  destruct (cpu_port_ok now c tp1 Hok Hc1) as [Hok1 Hk1]. set (c1 := new_cpu c tp1) in *.
  obind [[c2 d2]|] Eu. apply cpu_recv_until_ok in Eu as [(Hok2 & Hg2 & Hk2) Hr2]; [|done..|by eapply cpu_send_requests].
  obind [[tp3 dr3]|] E3. intros [= <- _ _]. destruct (gr_list _ _ _ _ Hg2) as (new & Hnew & Hlater). cbn [cpuSidePort c1 new_cpu with_cpu port with_port] in Hnew.
  apply (finish_send_ok (ms K) Hms) in E3 as ([Hc3 Ha3] & El3 & Hw3); [|by apply Hok|].
  2:{ split; [by apply Hok2|done|]. rewrite Hnew. apply Forall_app. split; [|done]. eapply Forall_impl; [exact Hlater|]. cbn. lia. }
  destruct (cpu_port_ok now c2 tp3 Hok2 Hc3) as [Hok3 Hk3]. change (set_cpu_port c2 tp3) with (new_cpu c2 tp3).
  exists t, p, (transmitList tp1), ok, reqs, d1. rewrite Hws. split_and!; try done.
  - exact (gr_pf _ _ _ _ Hg2).
  - assert (owed c ≡ₚ answered p :: owed c1) as Hc.
    { unfold owed, list_owed. rewrite El. cbn. symmetry. apply Permutation_middle. }
    assert ((if ok then [answered p] else []) ++ owed (new_cpu c2 tp3) ≡ₚ answered p :: owed c2) as ->.
    { unfold owed, list_owed. cbn. rewrite El3. destruct ok; [done|]. cbn. symmetry. apply Permutation_middle. }
    rewrite Hc, (gr_owed _ _ _ _ Hg2). apply Permutation_middle.
  - intros [H|H]; [exact (gr_retry _ _ _ _ Hg2 H)|exact (Hr2 H)].
Qed.

(** A retry event has been processed. *)
Definition without_event (now : Z) c : option (TCache pstate) :=
  evs ← list_erase now (retryEvents (cpuSidePort c));
  Some (with_cpu c (with_block (cpuSidePort c) (p_blocked (cpuSidePort c)) (mustSendRetry (cpuSidePort c)) evs)).

Lemma without_event_ok now c c1 : tc_ok now c → without_event now c = Some c1 →
  tc_ok now c1 ∧ mem_keeps c c1 ∧ owed c1 = owed c ∧ has_pf c1 = has_pf c ∧ port (cpuSidePort c1) = port (cpuSidePort c).
Proof.
  intros [Hn Hr Hp Hb Hc Hm Hl Hv]. unfold without_event. obind [evs|] Ee. intros [= <-]. split_and!; try done; [|split; [done|by left]].
  split; try done; [by destruct Hr| |apply list_erase_perm in Ee; unfold retries_ok in Hv; rewrite Ee in Hv; by apply Forall_cons in Hv as [_ ?]]. destruct Hb as [B1 B2 B3 B4 B5]. split; try done. by destruct B1.
Qed.

Lemma processRetryEvent_ok now c (d : D) c' d' :
  numTarget K ≠ 1 → tc_ok now c → processRetryEvent K now c d = Some (c', d') →
  ∃ c1 ps d1, without_event now c = Some c1 ∧ cpu_retry now d = Some (ps, d1) ∧
    let acc := accepted_until now ps c1 d1 in
    tc_ok now c' ∧ mem_keeps c c' ∧ (awake (port (cpuSidePort c)) → awake (port (cpuSidePort c'))) ∧ has_pf c' = has_pf c ∧
    owed c' ≡ₚ (acc ≫= taken) ++ owed c ∧ ((length acc < length ps)%nat → retry_due c').
Proof.
  intros Hnt Hok. unfold processRetryEvent. obind [evs|] Ee. cbv zeta. obind [[ps d1]|] Er. intros Eu.
  set (c1 := with_cpu c _) in Eu. assert (without_event now c = Some c1) as H1 by (unfold without_event; by rewrite Ee).
  destruct (without_event_ok now c c1 Hok H1) as (Hok1 & Hk1 & Ho1 & Hp1 & Hc1).
  apply cpu_recv_until_ok in Eu as [(Hok2 & Hg2 & Hk2) Hr2]; [|done..|by eapply cpu_retry_requests].
  exists c1, ps, d1. destruct Hg2 as [G1 G2 G3 G4 G5 G6]. rewrite Ho1 in G1. by split_and!.
Qed.

(** ** Functional accesses and draining *)

Lemma list_functional_same l : ∀ p d p' l', list_checkFunctional p l = Some (d, p', l') → list_owed l' = list_owed l ∧ l'.*1 = l.*1.
Proof.
  unfold list_owed. induction l as [|[t q] l IH]; intros p d p' l'; cbn [list_checkFunctional]; [by intros [= _ _ <-]|].
  obind [[[dn p1] od]|]. cbv zeta. destruct dn.
  - intros [= _ _ <-]. by destruct od.
  - obind [[[d2 p2] l2]|] E2. intros [= _ _ <-]. apply IH in E2 as [E1 E2]. cbn. rewrite E1, E2. by destruct od.
Qed.

Lemma times_same (l l' : list (Z * Packet.t)) (Q : Z → Prop) : l'.*1 = l.*1 → Forall (λ x, Q x.1) l → Forall (λ x, Q x.1) l'.
Proof. intros El H. change (Forall (Q ∘ fst) l'). apply Forall_fmap. rewrite El. by apply Forall_fmap. Qed.

Lemma ready_same tp l : l.*1 = (transmitList tp).*1 → deferredPacketReadyTime (with_list tp l) = deferredPacketReadyTime tp ∧ (l = [] ↔ transmitList tp = []).
Proof. unfold deferredPacketReadyTime. cbn. destruct l as [|[]], (transmitList tp) as [|[]]; cbn; try done. by intros [= -> _]. Qed.

Lemma port_functional_ok p q dn p' q' : port_functional p q = Some (dn, p', q') →
  ∃ l, q' = with_port q (with_list (port q) l) ∧ list_owed l = list_owed (transmitList (port q)) ∧ l.*1 = (transmitList (port q)).*1.
Proof.
  unfold port_functional, TPort.checkFunctional. obind [[[d1 p1] tp]|] Ef. intros [= _ _ <-]. revert Ef. obind [[[d2 p2] l]|] El.
  intros [= _ _ <-]. exists l. apply list_functional_same in El as [E1 E2]. done.
Qed.

(** The debts stay, and so does who is awake. *)
Definition looked (now : Z) c c' : Prop :=
  tc_ok now c' ∧ owed c' ≡ₚ owed c ∧ has_pf c' = has_pf c ∧ (awake (port (cpuSidePort c)) → awake (port (cpuSidePort c'))) ∧
  (retry_due c → retry_due c') ∧ mem_keeps c c'.

Lemma steps_looked now c c' : steps now [] c c' → looked now c c'.
Proof. by intros (H1 & [] & H3). Qed.

Lemma looked_trans now c1 c2 c3 : looked now c1 c2 → looked now c2 c3 → looked now c1 c3.
Proof.
  intros (_ & O1 & P1 & A1 & R1 & K1) (T2 & O2 & P2 & A2 & R2 & K2). split_and!; auto; [by rewrite O2|congruence|by rewrite K1].
Qed.

Lemma side_functional_ok now (cpu : bool) p c dn p' q :
  tc_ok now c → port_functional p (if cpu then cpuSidePort c else memSidePort c) = Some (dn, p', q) →
  looked now c (if cpu then with_cpu c q else with_mem c q).
Proof.
  intros Hok Ef. apply port_functional_ok in Ef as (l & -> & Eo & El). destruct cpu.
  - destruct (ready_same (port (cpuSidePort c)) l El) as [Er Enil]. destruct (ok_cpu _ _ Hok) as [S1 S2 S3 S4].
    assert (tp_core now (with_list (port (cpuSidePort c)) l)) as Hc.
    { split; cbn; try done; [by rewrite El|by eapply times_same|]. intros u Hu. destruct (S4 u Hu) as (? & Hne & ?).
      split_and!; [done|by rewrite Enil|by rewrite Er]. }
    destruct (cpu_port_ok now c _ Hok Hc) as [Hok' Hk]. split_and!; try done.
    + unfold owed. cbn [cpuSidePort with_cpu port with_port transmitList with_list]. by rewrite Eo.
    + unfold awake. cbn. intros Ha H. apply Ha. by rewrite <- Enil.
  - destruct (ready_same (port (memSidePort c)) l El) as [Er Enil]. destruct (ok_mem _ _ Hok) as [S1 S2 S3].
    assert (mem_core now (with_list (port (memSidePort c)) l)) as Hc by (split; cbn; try done; by eapply (times_same _ _ (λ t, t < MaxTick))).
    apply steps_looked, mem_port_steps; [done..|]. split; [done|]. intros [H|H]; [|by left; right].
    left. left. cbn in H. by rewrite <- Enil.
Qed.

Lemma functional_loop_ok now i ps : ∀ p a c h p' b,
  tc_ok now c → (∀ id, id ∈ ps → id ∈ allocatedList (get_queue c i)) → functional_loop (heap (core c)) p a ps = Some (h, p', b) →
  steps now [] c (with_heap c h).
Proof.
  induction ps as [|id ps IH]; intros p a c h p' b Hok Hps; cbn [functional_loop].
  { intros [= <- _ _]. assert (with_heap c (heap (core c)) = c) as -> by (by destruct c as [[]]). by apply steps_refl. }
  assert (∀ j, j ∈ ps → j ∈ allocatedList (get_queue c i)) as Hps' by (intros j Hj; apply Hps; by right).
  obind [m|] Hm. destruct (_ =? _); [|by apply IH]. obind [[[h1 p1] dn]|] Ef.
  pose proof (rg_queue _ (ok_regs _ _ Hok) i) as Hq. pose proof (Hps id ltac:(by left)) as Hid.
  pose proof (mshr_functional_touches _ _ _ _ _ _ Ef) as Hto. pose proof (mshr_functional_ok _ _ _ _ _ _ _ (qok_heap _ _ _ Hq) Ef) as Hh.
  apply (mshr_functional_owes (has_pf c)) in Ef as (Ha & m0 & m1 & Hm0 & Hm1 & Hn); [|by apply Hok].
  assert (steps now [] c (with_heap c h1)) as H1.
  { eapply heap_steps0; [done|by apply (alloc_reg Hq)|exact Ha|by apply (queue_ok_touch Hq _ _ id)|done|].
    intros _ _ m2 Hm2 H2. exists m1. split; [done|]. rewrite Hn. rewrite Hm0 in Hm2. by injection Hm2 as ->. }
  destruct dn; [by intros [= <- _ _]|]. intros El. eapply steps_then; [exact H1|].
  replace (with_heap c h) with (with_heap (with_heap c h1) h) by done. eapply IH; [apply H1| |exact El]. exact Hps'.
Qed.

Lemma block_functional_ok now p a c dn p' c' : tc_ok now c → block_functional p a c = Some (dn, p', c') → steps now [] c c'.
Proof.
  intros Hok. unfold block_functional. destruct (_ ≫= _) as [[j b]|]; [|intros [= _ _ <-]; by apply steps_refl].
  obind [[[d1 p1] o]|]. intros [= _ _ <-]. destruct o; [by apply core_steps|by apply steps_refl].
Qed.

Lemma queue_functional_ok now i a p c dn p' c' : tc_ok now c → queue_functional i a p c = Some (dn, p', c') → looked now c c'.
Proof.
  intros Hok. unfold queue_functional. obind [[[h p2] d2]|] Ef. intros [= _ _ <-]. apply steps_looked.
  by eapply (functional_loop_ok now i).
Qed.

Lemma or_else_ok now c r (f : Packet.t → TCache pstate → option (bool * Packet.t * TCache pstate)) dn p1 c1 :
  (∀ dn p0 c0, r = Some (dn, p0, c0) → looked now c c0) →
  (∀ p0 c0 dn p1 c1, tc_ok now c0 → f p0 c0 = Some (dn, p1, c1) → looked now c0 c1) →
  or_else r f = Some (dn, p1, c1) → looked now c c1.
Proof.
  intros Hr Hf. unfold or_else. obind [[[d2 p2] c2]|]. specialize (Hr _ _ _ eq_refl). destruct d2; [by intros [= _ _ <-]|].
  intros Ef. eapply looked_trans; [exact Hr|]. eapply Hf; [apply Hr|exact Ef].
Qed.

Lemma functionalAccess_ok now fc p c more p' c' : tc_ok now c → functionalAccess fc p c = Some (more, p', c') → looked now c c'.
Proof.
  intros Hok. unfold functionalAccess. obind [a|]. obind [[[d1 p1] c1]|] Ef. intros [= _ _ <-]. revert Ef.
  assert (∀ cpu p0 c0 dn p1 c1, tc_ok now c0 → side_functional cpu p0 c0 = Some (dn, p1, c1) → looked now c0 c1) as Hside.
  { intros cpu p0 c0 dn p2 c2 Hok0. unfold side_functional. obind [[[d3 p3] q]|] Ef. intros [= _ _ <-]. by eapply side_functional_ok. }
  apply or_else_ok; [|by apply Hside]. intros dn p0 c0. apply or_else_ok; [|intros; by eapply queue_functional_ok].
  intros dn1 p2 c2. apply or_else_ok; [|intros; by eapply queue_functional_ok].
  intros dn3 p3 c3. apply or_else_ok; [|by apply Hside]. intros dn4 p4 c4 Eb. apply steps_looked. by eapply block_functional_ok.
Qed.

Lemma drain_state tp : (TPort.drain tp).2 = tp ∨ (TPort.drain tp).2 = with_drain tp true.
Proof. unfold TPort.drain. destruct (_ && _); [by left|by right]. Qed.

Lemma cache_drain_ok now c : tc_ok now c → looked now c (cache_drain c).2.
Proof.
  intros Hok. unfold cache_drain. destruct (TPort.drain (port (memSidePort c))) as [w1 tp1] eqn:E1.
  assert (looked now c (new_mem c tp1)) as H1.
  { pose proof (drain_state (port (memSidePort c))) as Hd. rewrite E1 in Hd. cbn in Hd. apply steps_looked, mem_port_steps; [done|..].
    - destruct (ok_mem _ _ Hok). by destruct Hd as [->| ->].
    - by destruct Hd as [->| ->]; split; auto. }
  change (set_mem_port c tp1) with (new_mem c tp1). set (c1 := new_mem c tp1) in *. clearbody c1.
  destruct (TPort.drain (port (cpuSidePort c1))) as [w2 tp2] eqn:E2. cbn [snd].
  pose proof (drain_state (port (cpuSidePort c1))) as Hd. rewrite E2 in Hd. cbn in Hd.
  assert (tp_core now tp2) as Hc.
  { destruct H1 as (Hok1 & _). pose proof (ok_cpu _ _ Hok1). destruct Hd as [->| ->]; [done|by apply tp_core_drain]. }
  destruct (cpu_port_ok now c1 tp2 (proj1 H1) Hc) as [Hok2 Hk2]. eapply looked_trans; [exact H1|].
  split_and!; try done; by destruct Hd as [->| ->].
Qed.

End Steps.
