(* ===== verification/TimingRun.v ===== *)
(** Runs of a cache controller in timing mode ([CacheTiming]), and what holds in every
    reachable state: every request that was taken is answered exactly once, nobody waits
    for a wakeup that does not come, and what being blocked means.  The last part has runs
    that are computed, for the examples. *)

From S2P Require Import Prelude IntMath PfInterface Packet CacheBlk Lru Mshr MshrQueue PfQueue PfEngines PhysMem CacheCtl TPort CacheTiming MshrOwed TimingInv TimingSteps CacheRefine.

Section Run.
Context {E : PfEngine} (K : TConfig) {D : Type} {N : TimingPeers D}.

#[local] Hint Extern 0 TargetLimit => exact (config_limit K) : typeclass_instances.

(** The tick, the cache and the devices, with three logs: the packets that were taken from
    the cpu side, the responses that it has taken, and whether it has been refused a
    request since it was last told to send again. *)
Record Run := mkRun {
  r_now : Z;
  r_cache : TCache pstate;
  r_dev : D;
  r_taken : list Packet.t;
  r_sent : list Packet.t;
  r_waiting : bool
}.

Inductive tc_step : Run → Run → Prop :=
  (* time passes up to the next event *)
  | tc_time t t' c d tk se w :
      t <= t' → early t' → (∀ u, sendEvent (port (cpuSidePort c)) = Some u → t' <= u) →
      (∀ u, sendEvent (port (memSidePort c)) = Some u → t' <= u) →
      Forall (λ u, t' <= u) (retryEvents (cpuSidePort c)) →
      tc_step (mkRun t c d tk se w) (mkRun t' c d tk se w)
  (* a packet of the cpu side *)
  | tc_request t c d tk se w p ok c' d' :
      ¬ is_pf p → cpu_recvTiming K t p c d = Some (ok, c', d') →
      tc_step (mkRun t c d tk se w) (mkRun t c' (cpu_told t p ok d') (tk ++ if (ok : bool) then [p] else []) se (w || negb ok))
  (* a packet of the memory side, with its first and last tick *)
  | tc_packet t c d tk se w p first finish ok p' c' d' :
      t <= finish → (Packet.isResponse p = false → ¬ is_pf p) → mem_recvTiming K t p first finish c d = Some (ok, p', c', d') →
      tc_step (mkRun t c d tk se w) (mkRun t c' d' tk se w)
  (* the event of the memory side port, or a retry *)
  | tc_mem t c d tk se w c' d' dr :
      sendEvent (port (memSidePort c)) = Some t ∧ mem_processSendEvent K t c d = Some (c', d', dr) ∨
        mem_recvRetry K t c d = Some (c', d', dr) →
      tc_step (mkRun t c d tk se w) (mkRun t c' d' tk se w)
  (* the event of the cpu side port, or a retry: the first response of its list is sent *)
  | tc_cpu t c d tk se w c' d' dr u p l ok reqs d1 :
      sendEvent (port (cpuSidePort c)) = Some t ∧ cpu_processSendEvent K t c d = Some (c', d', dr) ∨
        cpu_recvRetry K t c d = Some (c', d', dr) →
      transmitList (port (cpuSidePort c)) = (u, p) :: l → cpu_send t p d = Some (ok, reqs, d1) →
      let acc := accepted_until K t reqs (while_sending c) d1 in
      tc_step (mkRun t c d tk se w)
        (mkRun t c' d' (tk ++ acc) (se ++ if (ok : bool) then [p] else []) (w || (length acc <? length reqs)%nat))
  (* the cpu side is told to send again *)
  | tc_retry t c d tk se w c' d' c1 ps d1 :
      processRetryEvent K t c d = Some (c', d') → without_event t c = Some c1 → cpu_retry t d = Some (ps, d1) →
      let acc := accepted_until K t ps c1 d1 in
      tc_step (mkRun t c d tk se w) (mkRun t c' d' (tk ++ acc) se (length acc <? length ps)%nat)
  | tc_functional t c d tk se w fc p more p' c' :
      functionalAccess fc p c = Some (more, p', c') → tc_step (mkRun t c d tk se w) (mkRun t c' d tk se w)
  | tc_drain t c d tk se w : tc_step (mkRun t c d tk se w) (mkRun t (cache_drain c).2 d tk se w)
  | tc_device t c d d' tk se w : tc_step (mkRun t c d tk se w) (mkRun t c d' tk se w).

(** ** The invariant of a run *)

Record run_ok (x : Run) : Prop := {
  ro_tc : tc_ok (r_now x) (r_cache x);
  ro_cpu : awake (port (cpuSidePort (r_cache x)));
  ro_mem : mem_awake (r_cache x);
  ro_owed : (answered <$> r_sent x) ++ owed (r_cache x) ≡ₚ r_taken x ≫= taken;
  ro_retry : r_waiting x = true → retry_due (r_cache x)
}.

Lemma looked_run x c' d' :
  run_ok x → looked K (r_now x) (r_cache x) c' → run_ok (mkRun (r_now x) c' d' (r_taken x) (r_sent x) (r_waiting x)).
Proof.
  intros [Ht Hc Hm Ho Hr] (T & O & _ & A & R & M). split; cbn; try done; auto.
  - by eapply mem_keeps_awake.
  - by rewrite O.
Qed.

Lemma log_taken (tk acc : list Packet.t) o s o' :
  s ++ o ≡ₚ tk ≫= taken → o' ≡ₚ (acc ≫= taken) ++ o → s ++ o' ≡ₚ (tk ++ acc) ≫= taken.
Proof. intros H1 H2. rewrite H2, bind_app, <- H1, (app_assoc s), (Permutation_app_comm s), <- app_assoc. apply Permutation_app_comm. Qed.

Context (Hms : 0 <= ms K < 2 ^ 62) (Hnt : numTarget K ≠ 1) {P : PeersOk}.

Lemma mem_step_ok t c (d : D) c' d' dr :
  tc_ok t c → sendEvent (port (memSidePort c)) = Some t ∧ mem_processSendEvent K t c d = Some (c', d', dr) ∨
    mem_recvRetry K t c d = Some (c', d', dr) →
  tc_ok t c' ∧ grows t [] c c' ∧ mem_awake c'.
Proof.
  intros Hok [[_ Ep]|Er].
  - unfold mem_processSendEvent in Ep. destruct (waitingOnRetry _); [done|].
    set (c1 := set_mem_port c (with_event (port (memSidePort c)) None)) in *.
    assert (mem_core t (port (memSidePort c1))) as Hm by (by destruct (ok_mem _ _ Hok)).
    destruct (mem_port_ok K t c _ Hok Hm) as [Hok1 Hg1]. apply (sendPacket_ok K Hms) in Ep as (H2 & H3 & H4); [|done..].
    split_and!; [done|by eapply grows_then|done].
  - unfold mem_recvRetry in Er. destruct (waitingOnRetry _) eqn:Ew; [|done]. apply (sendPacket_ok K Hms) in Er; [done|done|].
    by apply (mc_wait _ _ (ok_mem _ _ Hok)).
Qed.

Lemma cpu_step_ok t c (d : D) c' d' dr :
  tc_ok t c → sendEvent (port (cpuSidePort c)) = Some t ∧ cpu_processSendEvent K t c d = Some (c', d', dr) ∨
    cpu_recvRetry K t c d = Some (c', d', dr) →
  ∃ u p l ok reqs d1, transmitList (port (cpuSidePort c)) = (u, p) :: l ∧ cpu_send t p d = Some (ok, reqs, d1) ∧
    let acc := accepted_until K t reqs (while_sending c) d1 in
    tc_ok t c' ∧ mem_keeps c c' ∧ awake (port (cpuSidePort c')) ∧ has_pf c' = has_pf c ∧
    (if ok then [answered p] else []) ++ owed c' ≡ₚ (acc ≫= taken) ++ owed c ∧
    (retry_due c ∨ (length acc < length reqs)%nat → retry_due c').
Proof.
  intros Hok [[_ Ep]|Er].
  - unfold cpu_processSendEvent in Ep. destruct (waitingOnRetry _); [done|].
    set (c1 := set_cpu_port c (with_event (port (cpuSidePort c)) None)) in *.
    assert (tp_core t (port (cpuSidePort c1))) as Hc by (by apply tp_core_event, Hok).
    destruct (cpu_port_ok K t c _ Hok Hc) as [Hok1 Hk1].
    apply (cpu_sendDeferred_ok K Hms) in Ep as (u & p & l & ok & reqs & d1 & El & _ & Es & H); [|done..].
    exists u, p, l, ok, reqs, d1. change (while_sending c1) with (while_sending c) in H. done.
  - unfold cpu_recvRetry in Er. destruct (waitingOnRetry _) eqn:Ew; [|done].
    apply (cpu_sendDeferred_ok K Hms) in Er as (u & p & l & ok & reqs & d1 & El & _ & Es & H); [|done..|by apply (tc_wait _ _ (ok_cpu _ _ Hok))].
    exists u, p, l, ok, reqs, d1. done.
Qed.

Lemma tc_ok_time t t' c :
  tc_ok t c → early t' → (∀ u, sendEvent (port (cpuSidePort c)) = Some u → t' <= u) →
  (∀ u, sendEvent (port (memSidePort c)) = Some u → t' <= u) →
  t <= t' → Forall (λ u, t' <= u) (retryEvents (cpuSidePort c)) → tc_ok t' c.
Proof.
  intros [Hn Hr Hp Hb [S1 S2 S3 S4] [M1 M2 M3] Hl Hv] He Hc Hm Hle Hre. split; try done.
  - split; try done. intros u Hu. destruct (S4 u Hu) as (_ & ?). auto.
  - unfold retries_ok in *. rewrite Forall_forall in *. intros u Hu. specialize (Hv u Hu). specialize (Hre u Hu). lia.
Qed.

(** A step that only adds debts. *)
Lemma steps_run x l c' d' tk w :
  run_ok x → steps (r_now x) (l ≫= taken) (r_cache x) c' → tk = r_taken x ++ l → (w = true → r_waiting x = true ∨ retry_due c') →
  run_ok (mkRun (r_now x) c' d' tk (r_sent x) w) ∧ has_pf c' = has_pf (r_cache x).
Proof.
  intros [Ht Hc Hm Ho Hr] (T & [O Hp _ _ A R] & M) -> Hw. split; [|done]. split; cbn; try done; auto.
  - by eapply mem_keeps_awake.
  - by eapply log_taken.
  - intros H. destruct (Hw H); auto.
Qed.

Lemma tc_step_ok x y : tc_step x y → run_ok x → run_ok y ∧ has_pf (r_cache y) = has_pf (r_cache x).
Proof.
  destruct 1 as [t t' c d tk se w Hle He Hc Hm Hre|t c d tk se w p ok c' d' Hp Er|t c d tk se w p first fin ok p' c' d' Hf Hp Er
    |t c d tk se w c' d' dr Hs|t c d tk se w c' d' dr u p l ok reqs d1 Hs El Ed acc|t c d tk se w c' d' c1 ps d1 Hs E1 Ed acc
    |t c d tk se w fc p more p' c' Ef|t c d tk se w|t c d d' tk se w]; intros Hok; pose proof Hok as [Ht Ha Hmm Ho Hr]; cbn [r_now r_cache r_taken r_sent r_waiting] in *.
  - split; [|done]. split; try done. by eapply tc_ok_time.
  - apply (cpu_recvTiming_ok K Hms) in Er as [H1 H2]; [|done..].
    apply (steps_run (mkRun t c d tk se w) (if ok then [p] else []) c'); try done.
    + destruct ok; [|done]. cbn. by rewrite app_nil_r.
    + cbn. destruct ok; [rewrite orb_false_r; by left|]. intros _. right. by apply H2.
  - apply (mem_recvTiming_ok K Hms) in Er; [|done..].
    apply (steps_run (mkRun t c d tk se w) [] c'); try done; [by rewrite app_nil_r|]. cbn. by left.
  - apply mem_step_ok in Hs as (H1 & [O Hp _ _ A R] & H3); [|done]. split; [|done]. split; cbn; try done; auto. by rewrite O.
  - destruct (cpu_step_ok t c d c' d' dr Ht Hs) as (u2 & p2 & l2 & ok2 & r2 & d2 & El2 & Es2 & H1 & H2 & H3 & H4 & H5 & H6).
    rewrite El in El2. injection El2 as <- <- <-. rewrite Ed in Es2. injection Es2 as <- <- <-. fold acc in H5, H6.
    split; [|done]. split; cbn; try done.
    + by eapply mem_keeps_awake.
    + rewrite fmap_app, <- app_assoc. eapply log_taken; [exact Ho|]. rewrite <- H5. by destruct ok.
    + intros Hw. apply H6. apply orb_true_iff in Hw as [Hw|Hw%Nat.ltb_lt]; auto.
  - apply (processRetryEvent_ok K Hms) in Hs as (c2 & ps2 & d2 & E2 & Ed2 & H1 & H2 & H3 & H4 & H5 & H6); [|done..].
    rewrite E1 in E2. injection E2 as <-. rewrite Ed in Ed2. injection Ed2 as <- <-. fold acc in H5, H6.
    split; [|done]. split; cbn; try done; auto.
    + by eapply mem_keeps_awake.
    + by eapply log_taken.
    + intros Hw%Nat.ltb_lt. auto.
  - apply (functionalAccess_ok K t) in Ef; [|done]. split; [|apply Ef]. by apply (looked_run (mkRun t c d tk se w)).
  - pose proof (cache_drain_ok K t c Ht) as Hd. split; [|apply Hd]. by apply (looked_run (mkRun t c d tk se w)).
  - split; [|done]. by split.
Qed.

(** ** Reachable states *)

(** A new cache; the constructor of the cache leaves the number of the next request as it
    is. *)
Definition started (with_pf : bool) (x : Run) : Prop :=
  ∃ g ncpus mshrs wbs lat mm o datum d, 1 <= mshrs ∧ 1 <= wbs ∧ 0 <= lat < 2 ^ 61 ∧ 0 <= o ∧
    x = mkRun 0 (TCache_new g ncpus mshrs wbs lat mm o datum with_pf) d [] [] false.

Definition tc_reachable (with_pf : bool) (y : Run) : Prop := ∃ x, started with_pf x ∧ rtc tc_step x y.

Lemma new_heap_lookup q id m :
  (list_to_map ((λ i, (i, MSHR_new)) <$> registers q) : Heap) !! id = Some m → id ∈ registers q ∧ m = MSHR_new.
Proof.
  intros H%elem_of_list_to_map_2. apply list_elem_of_fmap in H as (i & [= -> ->] & Hi). done.
Qed.

Lemma new_heap_has q id : NoDup (registers q) → id ∈ registers q →
  (list_to_map ((λ i, (i, MSHR_new)) <$> registers q) : Heap) !! id = Some MSHR_new.
Proof.
  intros Hn Hid. apply elem_of_list_to_map_1; [|apply list_elem_of_fmap; by exists id].
  rewrite <- list_fmap_compose. cbn. by rewrite list_fmap_id.
Qed.

Lemma new_queue_ok o (h : Heap) base n r :
  0 <= o → 0 <= n + r - 1 → (∀ id, id ∈ registers (MSHRQueue_new base n r) → h !! id = Some MSHR_new) →
  (∀ id m, h !! id = Some m → m = MSHR_new) → queue_ok o h (MSHRQueue_new base n r).
Proof.
  intros Ho Hn Hin Hnew. assert (queue_ok 0 h (MSHRQueue_new base n r)) as Hq by (apply queue_reach_ok; by constructor).
  apply (queue_ok_frame Hq); try done; [|intros id Hid; rewrite Hin by done; by eexists].
  eapply heap_ok_mono; [exact Ho|apply Hq].
Qed.

Lemma owed_in_new (h : Heap) l : (∀ id m, h !! id = Some m → m = MSHR_new) → owed_in h l = [].
Proof.
  intros Hn. unfold owed_in. induction l as [|id l IH]; [done|]. cbn. rewrite IH, app_nil_r. unfold owed_by.
  destruct (h !! id) as [m|] eqn:Hm; [|done]. by rewrite (Hn id m Hm).
Qed.

Lemma started_ok pf x : started pf x → run_ok x ∧ has_pf (r_cache x) = pf.
Proof.
  intros (g & ncpus & mshrs & wbs & lat & mm & o & datum & d & H1 & H2 & H3 & H4 & ->). split; [|by destruct pf].
  set (c := TCache_new _ _ _ _ _ _ _ _ _). set (q1 := MSHRQueue_new 0 mshrs 4).
  set (q2 := MSHRQueue_new (length (registers q1)) wbs (mshrs + 1000)).
  assert (NoDup (registers q1) ∧ NoDup (registers q2)) as [N1 N2] by (split; apply NoDup_seq).
  assert (heap (core c) = list_to_map ((λ i, (i, MSHR_new)) <$> registers q1) ∪ list_to_map ((λ i, (i, MSHR_new)) <$> registers q2)) as Ehp by done.
  assert (∀ id m, heap (core c) !! id = Some m → (id ∈ registers q1 ∨ id ∈ registers q2) ∧ m = MSHR_new) as Hl.
  { intros id m. rewrite Ehp. intros [H|[_ H]]%lookup_union_Some_raw; apply new_heap_lookup in H as [? ->]; auto. }
  assert (∀ id, id ∈ registers q1 ∨ id ∈ registers q2 → heap (core c) !! id = Some MSHR_new) as Hh.
  { intros id Hid. rewrite Ehp. destruct ((list_to_map ((λ i, (i, MSHR_new)) <$> registers q1) : Heap) !! id) as [m|] eqn:Hm.
    - erewrite lookup_union_Some_l by exact Hm. f_equal. by apply new_heap_lookup in Hm as [_ ->].
    - rewrite lookup_union_r by exact Hm. apply new_heap_has; [done|]. destruct Hid as [Hid|]; [|done].
      by rewrite (new_heap_has q1 id N1 Hid) in Hm. }
  assert (∀ id m, heap (core c) !! id = Some m → m = MSHR_new) as Hnew by (intros id m Hm; by apply Hl in Hm as [_ ?]).
  assert (regs c = registers q1 ++ registers q2) as Er by done.
  assert (reg_owed c = []) as E0 by (apply owed_in_new; done).
  assert (has_pf c = pf) as Epf by (by destruct pf).
  split; cbn [r_now r_cache r_taken r_sent r_waiting]; try done.
  - split; try done; [split|by destruct pf|..].
    + intros []; (apply new_queue_ok; [done|lia| |done]); intros id Hid; apply Hh; auto.
    + intros []; cbn; lia.
    + rewrite Er. apply NoDup_app. split_and!; try done. unfold q1, q2. cbn. intros id [_ Hid]%elem_of_seq [Hlt _]%elem_of_seq.
      rewrite length_seq in Hlt. lia.
    + intros id [m Hm]. rewrite Er. apply elem_of_app. by apply Hl in Hm as [? _].
    + intros id m Hm. rewrite (Hnew id m Hm). split; [constructor|done].
    + split; try done; intros []; [| |done..]; intros Hf; unfold isFull in Hf; cbn in Hf; zbool; lia.
    + split; cbn; try done; constructor.
    + constructor.
  - by intros H.
  - intros [H|[i H]]; [done|by destruct i].
  - unfold owed. by rewrite E0.
Qed.

Lemma tc_reachable_ok pf x : tc_reachable pf x → run_ok x ∧ has_pf (r_cache x) = pf.
Proof.
  intros (x0 & Hs & Hr). apply started_ok in Hs as [H0 Hp0]. revert H0 Hp0.
  induction Hr as [|? ? ? H1 _ IH]; [done|]. intros H0 Hp0. apply tc_step_ok in H1 as [H2 H3]; [|done]. apply IH; [done|congruence].
Qed.

End Run.

Section Idle.
Context {E : PfEngine} {L : TargetLimit}.

(** Free registers owe nothing. *)
Lemma idle_owes_nothing now c : tc_ok now c → (∀ i, allocatedList (get_queue c i) = []) → reg_owed c = [].
Proof.
  intros Hok Hidle. assert (∀ id, id ∈ regs c → owed_by (heap (core c)) id = []) as Hz.
  { intros id Hid%in_some_queue. pose proof (rg_queue _ (ok_regs _ _ Hok) (queue_of c id)) as Hq.
    rewrite <- (qok_regs _ _ _ Hq), Hidle in Hid. destruct (qok_free _ _ _ Hq id Hid) as (m & Hm & Ht & Hd & _).
    rewrite (owed_by_Some _ id m Hm). unfold mshr_owed, targets_of. by rewrite Ht, Hd. }
  unfold reg_owed, owed_in. revert Hz. generalize (regs c). intros l. induction l as [|id l IH]; intros Hz; [done|].
  cbn. rewrite Hz by (by left). apply IH. intros j Hj. apply Hz. by right.
Qed.

(** A full queue has a register in use. *)
Lemma full_allocated now c i : tc_ok now c → isFull (get_queue c i) = true → allocatedList (get_queue c i) ≠ [].
Proof.
  intros Hok Hf Hnil. pose proof (rg_queue _ (ok_regs _ _ Hok) i) as Hq. pose proof (rg_size _ (ok_regs _ _ Hok) i) as Hs.
  pose proof (qok_allocated _ _ _ Hq) as Ha. rewrite Hnil in Ha. cbn in Ha. unfold isFull in Hf. zbool. lia.
Qed.

(** A register in use waits for a response, or it will be sent. *)
Lemma allocated_served now c i id :
  tc_ok now c → mem_awake c → id ∈ allocatedList (get_queue c i) →
  ∃ m, heap (core c) !! id = Some m ∧ (inService m = true ∨ mem_busy c).
Proof.
  intros Hok Ha Hid. pose proof (rg_queue _ (ok_regs _ _ Hok) i) as Hq.
  destruct (qok_dom _ _ _ Hq id (alloc_reg Hq id Hid)) as [m Hm]. exists m. split; [done|].
  destruct (inService m) eqn:Ei; [by left|right]. apply Ha. right. exists i. intros Hnil.
  pose proof (qok_ready _ _ _ Hq) as Hr. rewrite Hnil in Hr. apply Permutation_nil_l in Hr.
  assert (id ∈ filter (λ j, in_service (heap (core c)) j = false) (allocatedList (get_queue c i))) as Hin.
  { apply list_elem_of_filter. split; [|done]. by rewrite (in_service_Some _ id m Hm). }
  rewrite <- Hr in Hin. by apply elem_of_nil in Hin.
Qed.

(** The causes of a cache without a prefetcher. *)
Lemma blocked_causes now c : tc_ok now c → has_pf c = false →
  p_blocked (cpuSidePort c) = true ↔ (∃ i, isFull (get_queue c i) = true) ∨ is_Some (noTargetMSHR c).
Proof.
  intros Hok Hpf. destruct (ok_block _ _ Hok) as [[F1 F2 F3] B2 B3 B4 B5]. rewrite F2, negb_true_iff, Z.eqb_neq. split.
  - intros Hb. destruct (some_cause (blocked c) F1 Hb) as [[] Hc].
    + left. exists MSHRs. by apply B3.
    + left. exists WriteBuffer. by apply B3.
    + right. unfold blocked_by in B4. cbn in *. rewrite Hc in B4. by symmetry in B4; apply bool_decide_eq_true in B4.
  - intros H E0. unfold blocked_by in *. rewrite E0 in *. destruct H as [[i Hi]|Hn].
    + specialize (B2 i Hi). by rewrite Z.bits_0 in B2.
    + rewrite (bool_decide_eq_true_2 _ Hn), Z.bits_0 in B4. done.
Qed.

End Idle.

(** C8. Every request that a cache takes is answered exactly once.  In every reachable
    state the responses that the cpu side has taken, together with those that the cache
    still owes - one for every target of the cpu side in a register that needs a response,
    and those on the list of its port - belong to the requests that were taken, each once:
    the same address and size, for the port that asked, with its sender state.  When no
    register is in use and the list is empty all of them have been answered.  This holds
    whatever the devices on both sides do, with snoops, prefetches, retries and functional
    accesses at any time. *)
Theorem cache_answers_once {E : PfEngine} K {D} {N : TimingPeers D} {P : PeersOk} pf (x : Run) :
  0 <= ms K < 2 ^ 62 → numTarget K ≠ 1 → tc_reachable K pf x →
  (answered <$> r_sent x) ++ owed (r_cache x) ≡ₚ r_taken x ≫= taken ∧
  ((∀ i, allocatedList (get_queue (r_cache x) i) = []) → transmitList (port (cpuSidePort (r_cache x))) = [] →
     answered <$> r_sent x ≡ₚ r_taken x ≫= taken).
Proof.
  intros Hms Hnt Hr. destruct (tc_reachable_ok K Hms Hnt pf x Hr) as [[Ht _ _ Ho _] _]. split; [done|].
  intros Hidle Hl. rewrite <- Ho. unfold owed. rewrite (idle_owes_nothing _ _ Ht Hidle), Hl. by rewrite app_nil_r.
Qed.

(** C9. The cache forgets no wakeup that it owes.  In every reachable state: when a register
    is ready to be sent or a response waits for the memory side, that port waits for a
    retry or has its event scheduled, and likewise the cpu side port with its list; when a
    request was refused and the requester has not been told since to ask again, then the
    flag that remembers this is set, which it only is while the port is blocked, or the
    event that tells the requester is scheduled.  That event is for this tick or the next
    one, no other event is in the past, and that of the cpu side port finds a packet that
    is ready. *)
Theorem cache_loses_no_wakeup {E : PfEngine} K {D} {N : TimingPeers D} {P : PeersOk} pf (x : Run) :
  0 <= ms K < 2 ^ 62 → numTarget K ≠ 1 → tc_reachable K pf x →
  let c := r_cache x in let cpu := cpuSidePort c in let mem := port (memSidePort c) in
  (transmitList mem ≠ [] ∨ (∃ i, readyList (get_queue c i) ≠ []) → waitingOnRetry mem = true ∨ is_Some (sendEvent mem)) ∧
  (transmitList (port cpu) ≠ [] → waitingOnRetry (port cpu) = true ∨ is_Some (sendEvent (port cpu))) ∧
  (r_waiting x = true → mustSendRetry cpu = true ∨ retryEvents cpu ≠ []) ∧
  (mustSendRetry cpu = true → p_blocked cpu = true) ∧
  (∀ u, u ∈ retryEvents cpu → r_now x <= u <= r_now x + 1) ∧
  (∀ u, sendEvent mem = Some u → r_now x <= u) ∧
  ∀ u, sendEvent (port cpu) = Some u → r_now x <= u ∧ deferredPacketReady u (port cpu) = true.
Proof.
  intros Hms Hnt Hr. destruct (tc_reachable_ok K Hms Hnt pf x Hr) as [[Ht Hc Hm _ Hw] _]. cbv zeta. split_and!; try done.
  - apply (fl_retry _ (bl_flags _ (ok_block _ _ Ht))).
  - apply Forall_forall, (ok_retries _ _ Ht).
  - apply (mc_event _ _ (ok_mem _ _ Ht)).
  - intros u Hu. destruct (tc_event _ _ (ok_cpu _ _ Ht) u Hu) as (Hle & Hne & Hf). split; [done|].
    unfold deferredPacketReady, deferredPacketReadyTime in *. destruct (transmitList _) as [|[]]; [done|]. by apply Z.leb_le.
Qed.

(** C10. A cache without a prefetcher is blocked exactly while one of its queues is full or
    a register is recorded that a request has filled up, and a recorded register is in use
    and has at least the configured number of targets.  It never waits for nothing: while
    it is blocked a register is in use, and that register has been sent and waits for its
    response, or the port to the memory side waits for a retry or has its event
    scheduled. *)
Theorem blocked_cache_progress {E : PfEngine} K {D} {N : TimingPeers D} {P : PeersOk} (x : Run) :
  0 <= ms K < 2 ^ 62 → numTarget K ≠ 1 → tc_reachable K false x →
  let c := r_cache x in
  (p_blocked (cpuSidePort c) = true ↔ (∃ i, isFull (get_queue c i) = true) ∨ is_Some (noTargetMSHR c)) ∧
  (∀ id, noTargetMSHR c = Some id → id ∈ allocatedList (get_queue c MSHRs) ∧
     ∃ m, heap (core c) !! id = Some m ∧ Z.max 2 (numTarget K) <= ntargets m) ∧
  (p_blocked (cpuSidePort c) = true → ∃ i id m, id ∈ allocatedList (get_queue c i) ∧ heap (core c) !! id = Some m ∧
     (inService m = true ∨ waitingOnRetry (port (memSidePort c)) = true ∨ is_Some (sendEvent (port (memSidePort c))))).
Proof.
  intros Hms Hnt Hr. destruct (tc_reachable_ok K Hms Hnt false x Hr) as [[Ht _ Ha _ _] Hpf]. cbv zeta.
  pose proof (blocked_causes _ _ Ht Hpf) as Hb. split_and!; [done|apply (bl_where _ (ok_block _ _ Ht) Hpf)|]. intros [[i Hf]|[id Hn]]%Hb.
  - pose proof (full_allocated _ _ i Ht Hf) as Hne. destruct (allocatedList (get_queue _ i)) as [|id l] eqn:El; [done|].
    destruct (allocated_served _ _ i id Ht Ha) as (m & Hm & Hs); [rewrite El; by left|]. exists i, id, m. rewrite El. split; [by left|done].
  - destruct (bl_where _ (ok_block _ _ Ht) Hpf id Hn) as (Hin & _).
    destruct (allocated_served _ _ MSHRs id Ht Ha Hin) as (m & Hm & Hs). by exists MSHRs, id, m.
Qed.

(** ** Runs that are computed *)

Section Actions.
Context {E : PfEngine} (K : TConfig) {D : Type} {N : TimingPeers D}.

(** What happens next; the packets of the memory side come from the devices. *)
Inductive Act :=
  | ActTime (t : Z)
  | ActRequest (p : Packet.t)
  | ActPacket (f : D → option (Packet.t * D))
  | ActMem
  | ActCpu
  | ActRetry
  | ActDevice (f : D → D).

Definition not_before (t : Z) (e : option Z) : bool := match e with Some u => t <=? u | None => true end.

(** The event of a port at this tick, or a retry. *)
Definition event_now (t : Z) (e : option Z) : bool := bool_decide (e = Some t).

Definition run_act (a : Act) (x : Run) : option Run :=
  let '(mkRun t c d tk se w) := x in
  match a with
  | ActTime t' =>
      if (t <=? t') && (0 <=? t') && (t' <? 2 ^ 62) && not_before t' (sendEvent (port (cpuSidePort c)))
         && not_before t' (sendEvent (port (memSidePort c))) && forallb (λ u, t' <=? u) (retryEvents (cpuSidePort c))
      then Some (mkRun t' c d tk se w) else None
  | ActRequest p =>
      if bool_decide (is_pf p) then None
      else '(ok, c', d') ← cpu_recvTiming K t p c d;
           Some (mkRun t c' (cpu_told t p ok d') (tk ++ if (ok : bool) then [p] else []) se (w || negb ok))
  | ActPacket f =>
      '(p, d) ← f d;
      if bool_decide (is_pf p) then None
      else '(_, _, c', d') ← mem_recvTiming K t p t t c d; Some (mkRun t c' d' tk se w)
  | ActMem =>
      '(c', d', _) ← (if event_now t (sendEvent (port (memSidePort c))) then mem_processSendEvent K t c d else mem_recvRetry K t c d);
      Some (mkRun t c' d' tk se w)
  | ActCpu =>
      '(c', d', _) ← (if event_now t (sendEvent (port (cpuSidePort c))) then cpu_processSendEvent K t c d else cpu_recvRetry K t c d);
      '(_, p) ← head (transmitList (port (cpuSidePort c)));
      '(ok, reqs, d1) ← cpu_send t p d;
      let acc := accepted_until K t reqs (while_sending c) d1 in
      Some (mkRun t c' d' (tk ++ acc) (se ++ if (ok : bool) then [p] else []) (w || (length acc <? length reqs)%nat))
  | ActRetry =>
      '(c', d') ← processRetryEvent K t c d;
      c1 ← without_event t c;
      '(ps, d1) ← cpu_retry t d;
      let acc := accepted_until K t ps c1 d1 in
      Some (mkRun t c' d' (tk ++ acc) se (length acc <? length ps)%nat)
  | ActDevice f => Some (mkRun t c (f d) tk se w)
  end.

Fixpoint run_acts (l : list Act) (x : Run) : option Run :=
  match l with [] => Some x | a :: l => x ← run_act a x; run_acts l x end.

Lemma not_before_ok t e u : not_before t e = true → e = Some u → t <= u.
Proof. intros H ->. cbn in H. by zbool. Qed.

Lemma run_act_sound a x y : run_act a x = Some y → rtc (tc_step K) x y.
Proof.
  destruct x as [t c d tk se w]. destruct a as [t'|p|f| | | |f]; cbn [run_act].
  - destruct (_ && _) eqn:Eg; [|done]. intros [= <-]. apply andb_true_iff in Eg as [Eg E5]. apply andb_true_iff in Eg as [Eg E4].
    apply andb_true_iff in Eg as [Eg E3]. zbool.
    apply rtc_once. constructor; [done|split; lia|intros u; by apply not_before_ok..|].
    rewrite forallb_forall in E5. apply Forall_forall. intros u Hu%list_elem_of_In%E5. by zbool.
  - case_bool_decide; [done|]. obind [[[ok c'] d']|] Er. intros [= <-]. apply rtc_once. by constructor.
  - obind [[p d0]|]. case_bool_decide; [done|]. obind [[[[ok p'] c'] d']|] Er. intros [= <-].
    eapply rtc_l; [apply (tc_device _ _ _ d d0)|]. apply rtc_once. by eapply (tc_packet _ _ _ _ _ _ _ p t t).
  - obind [[[c' d'] dr]|] Er. intros [= <-]. apply rtc_once. eapply tc_mem. unfold event_now in Er. case_bool_decide; [by left|by right].
  - obind [[[c' d'] dr]|] Er. obind [[u p]|] Eh. obind [[[ok reqs] d1]|] Es. intros [= <-]. apply rtc_once.
    destruct (transmitList (port (cpuSidePort c))) as [|[u0 p0] l] eqn:El; [done|]. injection Eh as -> ->.
    eapply tc_cpu; [|exact El|exact Es]. unfold event_now in Er. case_bool_decide; [by left; eauto|by right; eauto].
  - obind [[c' d']|] Er. obind [c1|] E1. obind [[ps d1]|] Es. intros [= <-]. apply rtc_once. by eapply tc_retry.
  - intros [= <-]. apply rtc_once. constructor.
Qed.

Lemma run_acts_sound l : ∀ x y, run_acts l x = Some y → rtc (tc_step K) x y.
Proof.
  induction l as [|a l IH]; intros x y; cbn [run_acts]; [intros [= <-]; apply rtc_refl|].
  obind [x1|] E1. intros E2. etransitivity; [by eapply run_act_sound|by apply IH].
Qed.

End Actions.

(** ** Examples *)

(** Devices that take what they are sent; the memory side refuses while it is told to. *)
Record Devices := mkDevices { refuse : bool; to_mem : list Packet.t; to_cpu : list Packet.t }.

#[export] Instance demo_peers : TimingPeers Devices := {|
  cpu_send t p d := Some (true, [], mkDevices (refuse d) (to_mem d) (to_cpu d ++ [p]));
  cpu_snoop t p d := Some (p, d);
  cpu_retry t d := Some ([], d);
  cpu_told t p b d := d;
  mem_send t p d := if refuse d then Some (false, p, d) else Some (true, p, mkDevices (refuse d) (to_mem d ++ [p]) (to_cpu d))
|}.

#[export] Instance demo_peers_ok : PeersOk (D := Devices).
Proof.
  split; cbn.
  - intros t p d p' d'. destruct (refuse d); [|done]. by intros [= <- _].
  - intros t p d ok reqs d' [= _ <- _]. constructor.
  - intros t d reqs d' [= <- _]. constructor.
Qed.

(** The memory answers the oldest request. *)
Definition demo_answer : Act (D := Devices) :=
  ActPacket (λ d, match to_mem d with
                  | [] => None
                  | p :: ps => q ← Packet.makeResponse p; Some (q, mkDevices (refuse d) ps (to_cpu d))
                  end).

Definition demo_config : TConfig := mkConfig 4 false false (mkPfParams 100 64 true false false 10 1 true) 1000000000.
Definition timing_read (a : Z) : Packet.t := Packet.setSrc (demo_request ReadReq a [0; 0; 0; 0]) 1.
#[local] Existing Instance TaggedPrefetcher.

Definition timing_start (mshrs : Z) (with_pf : bool) : Run (D := Devices) :=
  mkRun 0 (TCache_new demo_geometry 1 mshrs 2 3 0 0 (replicate 64 0) with_pf) (mkDevices false [] []) [] [] false.

Lemma timing_started mshrs pf : 1 <= mshrs → started pf (timing_start mshrs pf).
Proof. intros H. by exists demo_geometry, 1, mshrs, 2, 3, 0, 0, (replicate 64 0), (mkDevices false [] []). Qed.

(** A run is reachable when it is computed. *)
Lemma run_reachable mshrs pf l x :
  1 <= mshrs → run_acts demo_config l (timing_start mshrs pf) = Some x → tc_reachable demo_config pf x.
Proof. intros H Hr. exists (timing_start mshrs pf). split; [by apply timing_started|by eapply run_acts_sound]. Qed.

(** A cache with one register: the second of two reads is refused; the first is answered
    by the memory and by the cache. *)
Definition demo_first : list (Act (D := Devices)) :=
  [ActTime 10; ActRequest (timing_read 4); ActRequest (timing_read 128)].
Definition demo_all : list (Act (D := Devices)) := demo_first ++ [ActTime 13; ActMem; ActTime 40; demo_answer; ActTime 41; ActRetry; ActTime 43; ActCpu].

Definition demo_run (l : list (Act (D := Devices))) : Run (D := Devices) :=
  default (timing_start 1 false) (run_acts demo_config l (timing_start 1 false)).

Definition demo_runs (l : list (Act (D := Devices))) : bool :=
  match run_acts demo_config l (timing_start 1 false) with Some _ => true | None => false end.

Lemma demo_run_reachable l : demo_runs l = true → tc_reachable demo_config false (demo_run l).
Proof.
  unfold demo_run, demo_runs. destruct (run_acts _ l _) as [x|] eqn:Er; [|done]. intros _. by apply (run_reachable 1 false l).
Qed.

Definition first_read : Ticket := (Some 4, Some 4, Some 1, None).

Lemma cache_answers_once_witness :
  r_taken (demo_run demo_all) ≫= taken = [first_read] ∧
  (answered <$> r_sent (demo_run demo_all)) ++ owed (r_cache (demo_run demo_all)) ≡ₚ [first_read].
Proof.
  assert (r_taken (demo_run demo_all) ≫= taken = [first_read]) as Ht by (vm_compute; reflexivity). split; [exact Ht|].
  assert (tc_reachable demo_config false (demo_run demo_all)) as Hr by (apply demo_run_reachable; vm_compute; reflexivity).
  revert Ht Hr. generalize (demo_run demo_all). intros x Ht Hr. rewrite <- Ht.
  by destruct (cache_answers_once demo_config false x) as [H _].
Defined.

Lemma cache_loses_no_wakeup_witness :
  let x := demo_run demo_first in
  r_waiting x = true ∧ (mustSendRetry (cpuSidePort (r_cache x)) = true ∨ retryEvents (cpuSidePort (r_cache x)) ≠ []) ∧
  (waitingOnRetry (port (memSidePort (r_cache x))) = true ∨ is_Some (sendEvent (port (memSidePort (r_cache x))))).
Proof.
  cbv zeta. assert (r_waiting (demo_run demo_first) = true) as Hw by (vm_compute; reflexivity).
  assert (readyList (get_queue (r_cache (demo_run demo_first)) MSHRs) = [0%nat]) as Hq by (vm_compute; reflexivity).
  assert (tc_reachable demo_config false (demo_run demo_first)) as Hr by (apply demo_run_reachable; vm_compute; reflexivity).
  revert Hw Hq Hr. generalize (demo_run demo_first). intros x Hw Hq Hr.
  destruct (cache_loses_no_wakeup demo_config false x) as (H1 & _ & H3 & _); [done|done|exact Hr|].
  split_and!; [exact Hw|by apply H3|]. apply H1. right. exists MSHRs. by rewrite Hq.
Defined.

Lemma blocked_cache_progress_witness :
  let c := r_cache (demo_run demo_first) in
  p_blocked (cpuSidePort c) = true ∧ ∃ i id m, id ∈ allocatedList (get_queue c i) ∧ heap (core c) !! id = Some m ∧
    (inService m = true ∨ waitingOnRetry (port (memSidePort c)) = true ∨ is_Some (sendEvent (port (memSidePort c)))).
Proof.
  cbv zeta. assert (p_blocked (cpuSidePort (r_cache (demo_run demo_first))) = true) as Hb by (vm_compute; reflexivity).
  assert (tc_reachable demo_config false (demo_run demo_first)) as Hr by (apply demo_run_reachable; vm_compute; reflexivity).
  revert Hb Hr. generalize (demo_run demo_first). intros x Hb Hr. split; [exact Hb|].
  destruct (blocked_cache_progress demo_config x) as (_ & _ & H); [done|done|exact Hr|by apply H].
Defined.
