(* ===== verification/PrefetchDeadlock.v ===== *)
(** A cache in timing mode that a prefetch has left blocked ([CacheTiming], [TimingRun]).

    [getTimingPacket] of [src/m5/src/mem/cache/cache_impl.hh] drops a prefetch whose block
    has arrived in the meantime and frees its register.  When that register had filled the
    queue the cache is blocked, and nothing clears the cause: it is only cleared when a
    register leaves a full queue through [markInServiceInternal] or [handleResponse].  A
    blocked cache takes no requests; once the registers that are left have been answered
    nothing happens any more. *)

From S2P Require Import Prelude IntMath PfInterface Packet CacheBlk Lru Mshr MshrQueue PfQueue PfEngines PhysMem CacheCtl TPort CacheTiming MshrOwed TimingInv TimingSteps CacheRefine TimingRun.

(** ** A cache with nothing to do that is blocked *)

Section Stuck.
Context {E : PfEngine} (K : TConfig) {D : Type} {N : TimingPeers D}.

#[local] Hint Extern 0 TargetLimit => exact (config_limit K) : typeclass_instances.
Implicit Types c : TCache pstate.

(** No register is in use or ready, no prefetch is queued, the cpu side port has nothing
    to send and no retry to give, and yet it refuses requests. *)
Record stuck c : Prop := {
  st_queues i : allocatedList (get_queue c i) = [];
  st_ready i : readyList (get_queue c i) = [];
  st_prefetches : pf_queue c = [];
  st_blocked : p_blocked (cpuSidePort c) = true;
  st_list : transmitList (port (cpuSidePort c)) = [];
  st_event : sendEvent (port (cpuSidePort c)) = None;
  st_waiting : waitingOnRetry (port (cpuSidePort c)) = false;
  st_retry : retryEvents (cpuSidePort c) = []
}.

(** What does not wake such a cache. *)
Record asleep c c' : Prop := {
  as_queue i : get_queue c' i = get_queue c i;
  as_pf : prefetcher c' = prefetcher c;
  as_blocked : p_blocked (cpuSidePort c') = p_blocked (cpuSidePort c);
  as_retry : retryEvents (cpuSidePort c') = retryEvents (cpuSidePort c);
  as_list : (transmitList (port (cpuSidePort c'))).*1 = (transmitList (port (cpuSidePort c))).*1;
  as_event : sendEvent (port (cpuSidePort c')) = sendEvent (port (cpuSidePort c));
  as_waiting : waitingOnRetry (port (cpuSidePort c')) = waitingOnRetry (port (cpuSidePort c))
}.

#[export] Instance asleep_preorder : PreOrder asleep.
Proof. split; [by intros c|]. intros x y z [] []. split; congruence. Qed.

Lemma asleep_stuck c c' : asleep c c' → stuck c → stuck c'.
Proof.
  intros [Q P B R L V W] [Q1 Q2 P1 B1 L1 V1 W1 R1]. split; try congruence.
  - unfold pf_queue. by rewrite P.
  - rewrite L1 in L. by apply fmap_nil_inv in L.
Qed.

Lemma core_asleep c x : mshrQueue x = mshrQueue (core c) → asleep c (with_core c x).
Proof. intros H. split; try done. by intros []. Qed.

Lemma frame_asleep c x : core_frame (core c) x → asleep c (with_core c x).
Proof. intros H. apply core_asleep, H. Qed.

Lemma mem_respond_asleep t p u c c' : mem_respond K t p u c = Some c' → asleep c c'.
Proof. unfold mem_respond. obind [tp|]. by intros [= <-]. Qed.

Lemma supply_asleep t p dt cp iv c c' : doTimingSupplyResponse K t p dt cp iv c = Some c' → asleep c c'.
Proof.
  unfold doTimingSupplyResponse. destruct (negb _); [done|]. obind [q1|]. obind [q2|]. obind [q3|]. apply mem_respond_asleep.
Qed.

Lemma snoop_up_asleep t p c (d : D) p' c' d' : snoop_up t p c d = Some (p', c', d') → asleep c c'.
Proof.
  unfold snoop_up. obind [src|]. cbv zeta. obind [[sp d1]|]. destruct (Packet.memInhibitAsserted sp); [|by intros [= _ <- _]].
  destruct (Packet.memInhibitAsserted p); [done|]. by intros [= _ <- _].
Qed.

Lemma snoop_block_asleep t p b df iv c p' c' : snoop_block K t p b df iv c = Some (p', c') → asleep c c'.
Proof.
  unfold snoop_block. obind [bk|]. destruct (negb _); [by intros [= _ <-]|]. cbv zeta.
  match goal with |- ?o ≫= _ = _ → _ => destruct o as [[p1 c1]|] eqn:E1; [cbn [mbind option_bind]|done] end.
  assert (asleep c c1) as H1.
  { revert E1. destruct (_ && _); [|by intros [= _ <-]]. destruct (Packet.needsExclusive p); [done|]. intros [= _ <-]. apply frame_asleep, upd_frame. }
  clear E1. match goal with |- ?o ≫= _ = _ → _ => destruct o as [[p2 c2]|] eqn:E2; [cbn [mbind option_bind]|done] end.
  assert (asleep c1 c2) as H2.
  { revert E2. destruct (_ && _); [|by intros [= _ <-]]. destruct (Packet.memInhibitAsserted p1); [done|]. obind [c3|] E3. intros [= _ <-].
    by eapply supply_asleep. }
  destruct (Packet.isInvalidate p); [|intros [= _ <-]; by etransitivity]. obind [x|] Ei. intros [= _ <-].
  etransitivity; [exact H1|]. etransitivity; [exact H2|]. by eapply frame_asleep, invalidate_frame.
Qed.

Lemma handleSnoop_asleep t p b df iv c (d : D) p' c' d' : CacheTiming.handleSnoop K t p b df iv c d = Some (p', c', d') → asleep c c'.
Proof.
  unfold CacheTiming.handleSnoop. destruct (_ || _); [done|].
  match goal with |- ?o ≫= _ = _ → _ => destruct o as [[[p1 c1] d1]|] eqn:E1; [cbn [mbind option_bind]|done] end.
  assert (asleep c c1) as H1 by (destruct (forwardSnoops K); [by eapply snoop_up_asleep|by injection E1 as _ <- _]).
  destruct b as [bk|]; [|by intros [= _ <- _]]. obind [[p2 c2]|] E2. intros [= _ <- _].
  etransitivity; [exact H1|]. by eapply snoop_block_asleep.
Qed.

(** No register has a target, so the other operations find nothing. *)
Lemma stuck_no_targets now c id m : tc_ok now c → stuck c → heap (core c) !! id = Some m → hasTargets m = false.
Proof.
  intros Hok Hs Hm. assert (id ∈ regs c) as Hid%in_some_queue by (apply (rg_dom _ (ok_regs _ _ Hok)); by eexists).
  pose proof (rg_queue _ (ok_regs _ _ Hok) (queue_of c id)) as Hq. rewrite <- (qok_regs _ _ _ Hq), (st_queues _ Hs) in Hid.
  destruct (qok_free _ _ _ Hq id Hid) as (m' & Hm' & Ht & _). rewrite Hm in Hm'. injection Hm' as <-.
  unfold hasTargets. by rewrite Ht.
Qed.

Lemma stuck_snoop now p c (d : D) p' c' d' : stuck c → snoopTiming K now p c d = Some (p', c', d') → asleep c c'.
Proof.
  intros Hs. unfold snoopTiming. destruct (_ || _); [by intros [= _ <- _]|]. obind [a|]. cbv zeta.
  unfold findMatch. rewrite (st_queues _ Hs MSHRs : allocatedList (mshrQueue (core c)) = []). cbn [list_find fmap option_fmap option_map mbind option_bind].
  unfold findMatches. rewrite (st_queues _ Hs WriteBuffer : allocatedList (writeBuffer c) = []). cbn. apply handleSnoop_asleep.
Qed.

Lemma stuck_packet now p first fin c (d : D) ok p' c' d' :
  tc_ok now c → stuck c → mem_recvTiming K now p first fin c d = Some (ok, p', c', d') → asleep c c'.
Proof.
  intros Hok Hs. unfold mem_recvTiming. destruct (Packet.wasNacked p) eqn:En; [done|]. destruct (_ && _); [by intros [= _ _ <- _]|].
  destruct (Packet.isResponse p).
  - obind [[c1 d1]|] Eh. intros [= _ _ <- _]. revert Eh. unfold handleResponse. rewrite En. obind [id|]. obind [m|] Hm. cbv zeta.
    rewrite (stuck_no_targets now c id m Hok Hs Hm). cbn [negb].
    match goal with |- ?o ≫= _ = _ → _ => by destruct o end.
  - obind [[[p1 c1] d1]|] Es. intros [= _ _ <- _]. by eapply stuck_snoop.
Qed.

Lemma stuck_request now p c (d : D) ok c' d' : stuck c → cpu_recvTiming K now p c d = Some (ok, c', d') → asleep c c'.
Proof.
  intros Hs. unfold cpu_recvTiming. destruct (_ && _ && _) eqn:Eb; [by intros [= _ <- _]|]. rewrite (st_blocked _ Hs), andb_true_r in Eb.
  obind [[c1 d1]|] Et. intros [= _ <- _]. revert Et. unfold timingAccess. destruct (Packet.isResponse p).
  - obind [c2|] Er. intros [= <- _]. revert Er. unfold timing_response. obind [rid|]. obind [[ps src]|]. cbv zeta.
    intros H%mem_respond_asleep. by transitivity (with_records c (delete rid (records c))).
  - destruct (Packet.isRequest p); [cbn [negb andb] in *|done]. apply negb_false_iff in Eb. rewrite Eb. unfold timing_inhibited.
    destruct (Request.isUncacheable _); [done|]. destruct (_ && _); [|by intros [= <- _]]. cbv zeta. obind [[[ok2 p2] d2]|]. by intros [= <- _].
Qed.

Lemma stuck_refuses now p c (d : D) : stuck c → Packet.isRequest p = true → Packet.memInhibitAsserted p = false →
  ∃ c', cpu_recvTiming K now p c d = Some (false, c', d) ∧ asleep c c'.
Proof.
  intros Hs Hr Hi. unfold cpu_recvTiming. destruct (_ && _ && _) eqn:Eb; [by eexists|]. by rewrite Hr, Hi, (st_blocked _ Hs) in Eb.
Qed.

Lemma stuck_next now c o c' : stuck c → cache_getNextMSHR now c = Some (o, c') → o = None ∧ asleep c c'.
Proof.
  intros Hs. unfold cache_getNextMSHR, MshrQueue.getNextMSHR.
  rewrite (st_ready _ Hs MSHRs : readyList (mshrQueue (core c)) = []), (st_ready _ Hs WriteBuffer : readyList (writeBuffer c) = []).
  cbn. pose proof (st_prefetches _ Hs) as Hp. unfold pf_queue in Hp. destruct (prefetcher c) as [s|] eqn:Es; [|by intros [= <- <-]].
  destruct (isFull _); [by intros [= <- <-]|]. rewrite Hp. cbn [length next_prefetch]. unfold getPacket. rewrite Hp.
  destruct (_ <=? _); intros [= <- <-]; [|done]. done.
Qed.

Lemma stuck_send now c (d : D) c' d' dr : stuck c → sendPacket K now c d = Some (c', d', dr) → asleep c c'.
Proof.
  intros Hs. unfold sendPacket.
  match goal with |- ?o ≫= _ = _ → _ => destruct o as [[c1 d1]|] eqn:E1; [cbn [mbind option_bind]|done] end.
  assert (asleep c c1) as H1.
  { revert E1. destruct (deferredPacketReady _ _).
    - unfold send_deferred. obind [[u p]|]. obind [[[ok p2] d2]|]. by intros [= <- _].
    - unfold send_request, getTimingPacket. destruct (cache_getNextMSHR now c) as [[o c2]|] eqn:En; [|done].
      destruct (stuck_next now c o c2 Hs En) as [-> H2]. cbn. intros [= <- _]. etransitivity; [exact H2|]. done. }
  cbv zeta. destruct (waitingOnRetry _); [by intros [= <- _ _]|]. destruct (negb _).
  - obind [tp|]. intros [= <- _ _]. etransitivity; [exact H1|]. done.
  - destruct (_ && _); intros [= <- _ _]; (etransitivity; [exact H1|]; done).
Qed.

Lemma functional_asleep fc p c more p' c' : stuck c → functionalAccess fc p c = Some (more, p', c') → asleep c c'.
Proof.
  intros Hs. unfold functionalAccess. obind [a|]. obind [[[d1 p1] c1]|] Ef. intros [= _ _ <-]. revert Ef.
  set (P := λ r : option (bool * Packet.t * TCache pstate), ∀ dn p0 c0, r = Some (dn, p0, c0) → asleep c c0).
  assert (∀ r f, P r → (∀ p0 c0, asleep c c0 → ∀ dn p1 c1, f p0 c0 = Some (dn, p1, c1) → asleep c0 c1) → P (or_else r f)) as Hor.
  { intros r f Hr Hf dn p2 c2. unfold or_else. obind [[[d3 p3] c3]|]. specialize (Hr _ _ _ eq_refl).
    destruct d3; [by intros [= _ _ <-]|]. intros H. etransitivity; [exact Hr|]. by eapply Hf. }
  assert (∀ cpu p0 c0, asleep c c0 → ∀ dn p1 c1, side_functional cpu p0 c0 = Some (dn, p1, c1) → asleep c0 c1) as Hside.
  { intros cpu p0 c0 _ dn p2 c2. unfold side_functional. obind [[[d3 p3] q]|] Eq. intros [= _ _ <-].
    apply port_functional_ok in Eq as (l & -> & _ & El). destruct cpu; by split. }
  assert (∀ i a0 p0 c0, asleep c c0 → ∀ dn p1 c1, queue_functional i a0 p0 c0 = Some (dn, p1, c1) → asleep c0 c1) as Hqueue.
  { intros i a0 p0 c0 H0 dn p2 c2. unfold queue_functional. obind [[[h p3] d3]|]. intros [= _ _ <-]. by apply core_asleep. }
  apply Hor; [|apply Hside]. apply Hor; [|apply Hqueue]. apply Hor; [|apply Hqueue]. apply Hor; [|apply Hside].
  intros dn p0 c0. unfold block_functional. destruct (_ ≫= _) as [[j b]|]; [|by intros [= _ _ <-]].
  obind [[[d2 p2] o]|]. intros [= _ _ <-]. destruct o; [by apply core_asleep|done].
Qed.

Lemma drain_asleep c : asleep c (cache_drain c).2.
Proof.
  unfold cache_drain. destruct (TPort.drain (port (memSidePort c))) as [w1 tp1] eqn:E1.
  change (port (cpuSidePort (set_mem_port c tp1))) with (port (cpuSidePort c)).
  pose proof (drain_state (port (cpuSidePort c))) as Hd. destruct (TPort.drain (port (cpuSidePort c))) as [w2 tp2].
  cbn [snd] in *. by destruct Hd as [-> | ->].
Qed.

(** Nothing wakes it, and nothing is answered or taken. *)
Lemma stuck_step x y : tc_ok (r_now x) (r_cache x) → tc_step K x y → stuck (r_cache x) → stuck (r_cache y) ∧ r_sent y = r_sent x.
Proof.
  intros Hok Hstep Hs.
  destruct Hstep as [t t' c d tk se w|t c d tk se w p ok c' d' Hp Er|t c d tk se w p first fin ok p' c' d' Hf Hp Er
    |t c d tk se w c' d' dr Hm|t c d tk se w c' d' dr u p l ok reqs d1 _ El|t c d tk se w c' d' c1 ps d1 Er
    |t c d tk se w fc p more p' c' Ef|t c d tk se w|t c d d' tk se w]; cbn [r_now r_cache r_sent] in *; try done.
  - split; [|done]. eapply asleep_stuck, Hs. by eapply stuck_request.
  - split; [|done]. eapply asleep_stuck, Hs. by eapply stuck_packet.
  - split; [|done]. destruct Hm as [[_ Em]|Em].
    + unfold mem_processSendEvent in Em. destruct (waitingOnRetry _); [done|].
      apply stuck_send in Em; [|by eapply asleep_stuck, Hs]. eapply asleep_stuck, Hs. etransitivity; [|exact Em]. done.
    + unfold mem_recvRetry in Em. destruct (waitingOnRetry _); [|done]. eapply asleep_stuck, Hs. by eapply stuck_send.
  - by rewrite (st_list _ Hs) in El.
  - unfold processRetryEvent in Er. by rewrite (st_retry _ Hs) in Er.
  - split; [|done]. eapply asleep_stuck, Hs. by eapply functional_asleep.
  - split; [|done]. eapply asleep_stuck, Hs. apply drain_asleep.
Qed.

Context (Hms : 0 <= ms K < 2 ^ 62) (Hnt : numTarget K ≠ 1) {P : PeersOk}.

Lemma stuck_forever x y : run_ok K x → stuck (r_cache x) → rtc (tc_step K) x y → stuck (r_cache y) ∧ r_sent y = r_sent x.
Proof.
  intros Hok Hs Hr. revert Hok Hs. induction Hr as [|x z y H1 _ IH]; [done|]. intros Hok Hs.
  destruct (stuck_step x z (ro_tc _ _ Hok) H1 Hs) as [Hs1 Es]. apply (tc_step_ok K Hms Hnt) in H1 as [Hok1 _]; [|done].
  destruct (IH Hok1 Hs1) as [? ->]. done.
Qed.

(** The conditions as a test. *)
Definition stuckb c : bool :=
  let q := cpuSidePort c in
  bool_decide (allocatedList (mshrQueue (core c)) = []) && bool_decide (allocatedList (writeBuffer c) = []) &&
  bool_decide (readyList (mshrQueue (core c)) = []) && bool_decide (readyList (writeBuffer c) = []) &&
  match pf_queue c with [] => true | _ => false end && p_blocked q &&
  match transmitList (port q) with [] => true | _ => false end && bool_decide (sendEvent (port q) = None) &&
  negb (waitingOnRetry (port q)) && bool_decide (retryEvents q = []).

Lemma stuckb_stuck c : stuckb c = true → stuck c.
Proof.
  unfold stuckb. rewrite !andb_true_iff, !bool_decide_eq_true, negb_true_iff. intros (((((((((H1 & H2) & H3) & H4) & H5) & H6) & H7) & H8) & H9) & H10).
  split; try done; [by intros []|by intros []|by destruct (pf_queue c)|by destruct (transmitList _)].
Qed.

End Stuck.

(** ** A run that ends there *)

#[local] Existing Instance TaggedPrefetcher.

(** A block that the cache above writes back, and whether the memory refuses packets. *)
Definition above_writeback (a : Z) : Packet.t :=
  Packet.mk 0x1f00 Writeback (Request.mk (Some a) None (Some 64) 0 0 None None None) (Some (replicate 64 9)) a 64 1 (-1) InvalidCmd 0 None.
Definition refusing (b : bool) : Act (D := Devices) := ActDevice (λ d, mkDevices b (to_mem d) (to_cpu d)).

(** A cache with two registers.  The prefetch of block 64 that a read of block 0 asks for is
    refused by the memory; block 64 arrives from above meanwhile, and a read of block 128
    takes the other register, which blocks the cache.  At tick 60 the prefetch is dropped.
    The registers that are left are answered until tick 70. *)
Definition deadlock_acts : list (Act (D := Devices)) :=
  [ActTime 10; ActRequest (timing_read 4); ActTime 13; ActMem; refusing true; ActTime 23; ActMem;
   ActTime 40; demo_answer; ActTime 43; ActCpu; ActTime 45; ActRequest (above_writeback 64);
   ActTime 50; ActRequest (timing_read 128); refusing false; ActTime 60; ActMem; ActTime 61; ActMem;
   ActTime 62; demo_answer; ActTime 63; ActMem; ActTime 65; ActCpu; ActTime 70; demo_answer].

Definition deadlock_check : bool :=
  match run_acts demo_config deadlock_acts (timing_start 2 true) with Some x => stuckb (r_cache x) | None => false end.

Lemma deadlock_computed : deadlock_check = true.
Proof. vm_compute. reflexivity. Qed.

Lemma deadlock_reached : ∃ x : Run (D := Devices), tc_reachable demo_config true x ∧ stuck (r_cache x).
Proof.
  pose proof deadlock_computed as H. unfold deadlock_check in H. destruct (run_acts _ _ _) as [x|] eqn:Er; [|done].
  exists x. split; [by eapply (run_reachable 2 true)|by apply stuckb_stuck].
Qed.

(** C36. A prefetch can leave the cache blocked for ever.  With the tagged prefetcher and
    two registers a state is reachable in which no register is in use, nothing waits in a
    queue or on the list of the cpu side port, and yet, whatever happens afterwards, every
    request of the cpu side is refused, none is asked for again and no response is sent.
    The register of a prefetch that is dropped leaves a full queue without the cause of
    being blocked being cleared. *)
Theorem prefetch_bailout_deadlock :
  ∃ x : Run (D := Devices), tc_reachable demo_config true x ∧ stuck (r_cache x) ∧
    ∀ y, rtc (tc_step demo_config) x y →
      r_sent y = r_sent x ∧ retryEvents (cpuSidePort (r_cache y)) = [] ∧
      ∀ t p, Packet.isRequest p = true → Packet.memInhibitAsserted p = false →
        ∃ c', cpu_recvTiming demo_config t p (r_cache y) (r_dev y) = Some (false, c', r_dev y).
Proof.
  destruct deadlock_reached as (x & Hr & Hs). exists x. split_and!; [exact Hr|exact Hs|]. intros y Hy.
  assert (0 <= ms demo_config < 2 ^ 62 ∧ numTarget demo_config ≠ 1) as [Hms Hnt] by done.
  destruct (tc_reachable_ok demo_config Hms Hnt true x Hr) as [Hok _].
  destruct (stuck_forever demo_config Hms Hnt x y Hok Hs Hy) as [Hs' Es].
  split_and!; [done|apply Hs'|]. intros t p Hp Hi. destruct (stuck_refuses demo_config t p (r_cache y) (r_dev y) Hs' Hp Hi) as (c' & H & _).
  by exists c'.
Qed.
