(* ===== verification/Hierarchy.v ===== *)
(** A cache behind a cache, in atomic mode.

    [CachePort] is the cpu side port of a cache ([CpuSidePort::recvAtomic] of
    [src/m5/src/mem/cache/cache_impl.hh]); the state behind it is the cache and
    whatever the cache is connected to.  A cache that has been given nothing but
    requests for whole blocks keeps the promises of [ByteMemory], so that the
    results on one cache apply to a stack of caches of any height. *)

From S2P Require Import Prelude IntMath Packet CacheBlk Lru Mshr MshrQueue PhysMem CacheCtl CacheInv CacheRefine.

(** [CpuSidePort::recvAtomic].  Without a bus nothing sets the [finishTime] of a
    packet: [fin] is the unspecified value. *)
Definition CachePort (fin : Z) (M : AtomicPort) : AtomicPort := {|
  port_state := Cache * port_state;
  recvAtomic t p s :=
    '(p, l, c, m) ← atomicAccess t s.1 p s.2; Some (p, l, fin, (c, m))
|}.

(** ** Requests for whole blocks *)

(** The request [p] for the block at [a], after the cache has dealt with it. *)
Record pending (p : Packet.t) (a : Z) (q : Packet.t) : Prop := {
  pd_cmd : Packet.cmd q = Packet.cmd p;
  pd_req : Packet.req q = Packet.req p;
  pd_addr : Packet.getAddr q = Some a
}.

(** Turning it into the response. *)
Lemma pending_respond p a q :
  Packet.needsResponse p = true → pending p a q →
  ∃ q', respond_if_needed q = Some q' ∧ block_response p a q' ∧ Packet.getPtr q' = Packet.getPtr q ∧
    Packet.sharedAsserted q' = Packet.sharedAsserted q.
Proof.
  intros Hn [Hc Hr Ha]. assert (Packet.needsResponse q = true) as Hnq
    by (unfold Packet.needsResponse in *; by rewrite Hc).
  destruct (makeResponse_total q Hnq) as [q' Hq']. exists q'. unfold respond_if_needed. rewrite Hnq.
  apply makeResponse_keeps in Hq' as Hk. destruct Hk as (Ka & _ & Kp & Kr & _ & Kc & Ks & Ki).
  split_and!; try done. split; congruence.
Qed.

(** The cache [c'] is [c] without the block at [a]. *)
Record gives_up {S : Type} {V : ByteView S} (W : Prop) (c : Cache) (m : S) (a : Z)
    (c' : Cache) : Prop := {
  gu_inv : cache_inv W None c' m;
  gu_geo : geo (tags c') = geo (tags c);
  gu_find : ∀ x, is_u64 x → blkAlign (geo (tags c)) x ≠ a → findBlock (tags c') x = findBlock (tags c) x;
  gu_out : ∀ x, is_u64 x → blkAlign (geo (tags c)) x ≠ a → cache_byte c' m x = cache_byte c m x;
  gu_in : ∀ x, is_u64 x → blkAlign (geo (tags c)) x = a → cache_byte c' m x = port_byte m x;
  gu_present : present (port_byte m) a (blkSize (geo (tags c)));
  gu_gone : findBlock (tags c') a = None;
  gu_state : ∀ x, is_u64 x → blkAlign (geo (tags c)) x ≠ a → blk_state c' x = blk_state c x
}.

(** Writing a block back to its place changes nothing. *)
Lemma upd_id c i b : blks (tags c) !! i = Some b → upd c (InTags i) (λ _, b) = c.
Proof.
  intros Hb. transitivity (upd c (InTags i) id); [by apply (upd_ext c i b)|].
  unfold upd, with_tags, upd_blk, with_blks. rewrite list_alter_id by done. by destruct c as [[]].
Qed.

Section Whole.
Context {S : Type} {V : ByteView S}.
Context (W : Prop) (X : option nat) (c : Cache) (m : S) (p : Packet.t) (a : Z) (i : nat) (d : list Z).
Abbreviation g := (geo (tags c)).
Hypothesis Hok : cache_inv W X c m.
Hypothesis HX : X = None ∨ X = Some i.
Hypothesis Ht : transfer p a (blkSize g) d.
Hypothesis Ha : is_u64 a.
Hypothesis Hal : blkAlign g a = a.
Hypothesis Hf : findBlock (tags c) a = Some i.

Lemma whole_block : ∃ b, blks (tags c) !! i = Some b ∧ holds (tags c) a i ∧
  Z.of_nat (length (data b)) = blkSize g ∧ Packet.getOffset p (blkSize g) = Some 0.
Proof.
  destruct Ht as (Hpa & _). pose proof (ck_wf _ _ Hok) as (Hg & _).
  destruct (findBlock_holds _ _ _ Hf) as (st & Hst & Hi & _).
  destruct (set_member _ (ck_wf _ _ Hok) _ _ _ Hst Hi) as [b Hb].
  exists b. split_and!; [done|by apply findBlock_holds|by apply (ck_len _ _ Hok i)|].
  unfold Packet.getOffset. rewrite Hpa. cbn [mbind option_bind].
  destruct (block_arith g Hg a Ha) as (Eo & _ & Hbs & _ & Hmask). pose proof (block_offset g Hg a Ha) as E.
  unfold extractBlkOffset in E. rewrite Hmask in E.
  rewrite u64_small by (unfold is_u64; lia). rewrite E, Hal. f_equal. lia.
Qed.

(** The bytes of the block are those of the cache. *)
Lemma whole_bytes b :
  blks (tags c) !! i = Some b → bytes_at (cache_byte c m) a (data b).
Proof.
  intros Hb k Hk. pose proof (ck_wf _ _ Hok) as (Hg & _). pose proof (ck_len _ _ Hok i b Hb) as Hl.
  destruct (block_u64 g a (Z.of_nat k) Hg Ha) as [Hu E]; [lia|]. rewrite Hal in *.
  rewrite (byte_in_block W X c m a i b) by (done || congruence). rewrite Hal. f_equal. lia.
Qed.

(** The start of [satisfyCpuSideRequest]. *)
Lemma satisfy_whole b :
  blks (tags c) !! i = Some b → Packet.cmd p ≠ SwapReq →
  satisfyCpuSideRequest c p (InTags i) =
  (if Packet.isWrite p then
     '(ok, b, p) ← checkWrite b p;
     if (ok : bool) then
       d ← Packet.writeDataToBlock p (data b) (c_blkSize c);
       Some (upd c (InTags i) (λ _, or_status BlkDirty (blk_set_data b d)), p)
     else Some (upd c (InTags i) (λ _, b), p)
   else if Packet.isRead p then
     b ← (if Packet.isLLSC p then CacheBlk.trackLoadLocked b p else Some b);
     let c := upd c (InTags i) (λ _, b) in
     p ← Packet.setDataFromBlock p (data b) (c_blkSize c);
     if Packet.needsExclusive p then c ← invalidate c (InTags i); Some (c, p)
     else Some (upd c (InTags i) (clear_status BlkWritable), Packet.assertShared p)
   else if Packet.isUpgrade p then c ← invalidate c (InTags i); Some (c, p)
   else None).
Proof.
  intros Hb Hc. destruct whole_block as (b' & Hb' & _ & _ & Ho). destruct Ht as (_ & Hs & _).
  unfold satisfyCpuSideRequest. cbn [get_blk]. rewrite Hb. cbn [mbind option_bind].
  rewrite (ck_size _ _ Hok), Ho, Hs. cbn [mbind option_bind].
  rewrite (proj2 (Z.ltb_ge _ _)) by lia. rewrite decide_False by done.
  change (c_blkSize (upd c _ _)) with (c_blkSize c). rewrite (ck_size _ _ Hok), Z.eqb_refl. reflexivity.
Qed.

(** The data of the block copied into the packet. *)
Lemma whole_data b :
  blks (tags c) !! i = Some b →
  Packet.setDataFromBlock p (data b) (c_blkSize c) = Some (Packet.set_data p (Packet.flags p) (Some (data b))) ∧
  Packet.getPtr (Packet.set_data p (Packet.flags p) (Some (data b))) = Some (data b).
Proof.
  intros Hb. destruct whole_block as (b' & Hb' & _ & Hl & Ho). assert (b' = b) as -> by congruence.
  destruct Ht as (_ & Hs & Hp & Hld & _). unfold Packet.setDataFromBlock. rewrite (ck_size _ _ Hok), Ho.
  cbn [mbind option_bind]. unfold Packet.setData. rewrite Hp, Hs. cbn [mbind option_bind].
  rewrite memcpy_whole by lia. cbn [mbind option_bind]. split; [done|].
  unfold Packet.getPtr in *. cbn [Packet.flags Packet.data Packet.set_data] in *. by destruct (Flags.isSet _ _).
Qed.

(** The block is dropped. *)
Lemma drop_block b :
  blks (tags c) !! i = Some b →
  ∃ c', invalidate c (InTags i) = Some c' ∧ gives_up W c m a c'.
Proof.
  intros Hb. pose proof (ck_wf _ _ Hok) as Hw. pose proof Hw as (Hg & _). apply findBlock_holds in Hf as Hh.
  destruct (invalidateBlk_frame (tags c) i b Hw (ck_unique _ _ Hok) Hb)
    as (s' & b' & Hi & Hw' & Hu' & Hg' & Hfr & Hb' & Hst & Hd & Hset).
  set (c' := with_tags c s'). exists c'. cbn [invalidate]. rewrite Hi. cbn [mbind option_bind]. split; [done|].
  assert (∀ x, ¬ holds s' x i) as Hno.
  { intros x (w & _ & _ & Hk). unfold blk_key in Hk. rewrite Hb' in Hk. injection Hk as _ Hv.
    unfold isValid in Hv. by rewrite Hst in Hv. }
  assert (∀ x, is_u64 x → blkAlign g x ≠ a → findBlock s' x = findBlock (tags c) x) as Hfb.
  { intros x Hx E. destruct (findBlock (tags c) x) as [j|] eqn:Ej.
    - apply findBlock_unique; [done|]. apply findBlock_holds in Ej as Hj.
      assert (j ≠ i). { intros ->. apply E. rewrite <- Hal. by apply (holds_same_block (tags c) a x i). }
      apply (holds_transfer (tags c)); try done. by apply cores_key, Hfr.
    - destruct (findBlock s' x) as [j|] eqn:Ej'; [|done]. apply findBlock_holds in Ej' as Hj.
      assert (j ≠ i) by (intros ->; by apply Hno in Hj).
      rewrite (holds_transfer_iff (tags c) s') in Hj; try done; [|by apply cores_key, Hfr].
      by rewrite (findBlock_unique _ _ _ (ck_unique _ _ Hok) Hj) in Ej. }
  assert (∀ x, is_u64 x → blkAlign g x = a → findBlock s' x = None) as Hnone.
  { intros x Hx E. destruct (findBlock s' x) as [j|] eqn:Ej'; [|done]. apply findBlock_holds in Ej' as Hj.
    destruct (decide (j = i)) as [->|Hne]; [by apply Hno in Hj|]. exfalso.
    rewrite (holds_transfer_iff (tags c) s') in Hj; try done; [|by apply cores_key, Hfr].
    apply (findBlock_unique _ _ _ (ck_unique _ _ Hok)) in Hj. apply Hne.
    rewrite (findBlock_block (tags c) a x i) in Hj; try done; try apply Hok; [congruence|by rewrite Hal]. }
  split; try done.
  - apply (cache_inv_update W X None c c' m i b b'); try done; auto; [congruence| |].
    + unfold isValid. by rewrite Hst.
    + intros x _ Hx. by apply Hno in Hx.
  - intros x Hx E. unfold cache_byte. cbn [tags c' with_tags]. rewrite Hfb by done.
    destruct (findBlock (tags c) x) as [j|] eqn:Ej; [|done].
    assert (j ≠ i) as Hne. { intros ->. apply E. rewrite <- Hal. apply findBlock_holds in Ej.
      by apply (holds_same_block (tags c) a x i). }
    rewrite Hg'. specialize (Hfr j Hne). unfold cores in Hfr.
    destruct (blks s' !! j), (blks (tags c) !! j); try done. cbn in Hfr. injection Hfr as _ _ E' _. cbn. by rewrite E'.
  - intros x Hx E. unfold cache_byte. cbn [tags c' with_tags]. by rewrite Hnone.
  - destruct (ck_blocks _ _ Hok a i b Ha Hh Hb) as [_ _ Hpr _]. by rewrite Hal in Hpr.
  - by apply Hnone.
  - intros x Hx E. unfold blk_state. cbn [tags c' with_tags]. rewrite Hfb by done.
    destruct (findBlock (tags c) x) as [j|] eqn:Ej; [|done]. cbn [mbind option_bind]. apply cores_state, Hfr.
    intros ->. apply E. rewrite <- Hal. apply findBlock_holds in Ej. by apply (holds_same_block (tags c) a x i).
Qed.

(** A read of the block takes a shared copy. *)
Lemma satisfy_share :
  Packet.cmd p = ReadReq → X = None → (W → False) →
  ∃ c' q, satisfyCpuSideRequest c p (InTags i) = Some (c', q) ∧ cache_inv W None c' m ∧
    (∀ x, is_u64 x → findBlock (tags c') x = findBlock (tags c) x) ∧
    (∀ x, is_u64 x → cache_byte c' m x = cache_byte c m x) ∧ geo (tags c') = g ∧ pending p a q ∧
    Packet.sharedAsserted q = true ∧ carries q (cache_byte c m) a (blkSize g).
Proof.
  intros Hc HX0 HW. destruct whole_block as (b & Hb & Hh & Hl & _). destruct (whole_data b Hb) as [Hsd Hptr].
  destruct (ck_blocks _ _ Hok a i b Ha Hh Hb) as [Hrd _ _ _]. pose proof (holds_valid _ _ _ _ Hh Hb) as Hv.
  assert (isReadable (clear_status BlkWritable b) = isReadable b ∧ isValid (clear_status BlkWritable b) = isValid b ∧
    isDirty (clear_status BlkWritable b) = isDirty b) as (E1 & E2 & E3).
  { unfold isReadable, isValid, isDirty. cbn [status clear_status blk_set_status].
    by rewrite !ldiff_land_disjoint by done. }
  destruct (set_block W None None c m a i b (clear_status BlkWritable)) as (Hok' & Hfb & Hby & _);
    try done; try congruence; auto.
  destruct (assertShared_frame (Packet.set_data p (Packet.flags p) (Some (data b)))) as (Hfr & _ & Hln).
  injection Hfr as Ea _ Ep.
  exists (upd c (InTags i) (clear_status BlkWritable)),
    (Packet.assertShared (Packet.set_data p (Packet.flags p) (Some (data b)))).
  split_and!; try done.
  - rewrite (satisfy_whole b Hb) by (by rewrite Hc).
    assert (Packet.isWrite p = false ∧ Packet.isRead p = true ∧ Packet.isLLSC p = false) as (-> & -> & ->)
      by (unfold Packet.isRead, Packet.isWrite, Packet.isLLSC; by rewrite Hc).
    cbn [mbind option_bind]. cbn zeta. rewrite (upd_id c i b Hb), Hsd. cbn [mbind option_bind].
    unfold Packet.needsExclusive. cbn [Packet.cmd Packet.set_data]. by rewrite Hc.
  - intros x Hx. rewrite Hby by done. destruct (decide _) as [E|E]; [|done].
    rewrite (byte_in_block W X c m a i b x), block_offset, E by (done || apply Hok). done.
  - split; [done|done|]. rewrite Ea. apply Ht.
  - by injection Hln as -> _.
  - exists (data b). split_and!; [|done|by apply whole_bytes].
    by rewrite Ep.
Qed.

(** A request for exclusive access takes the block away. *)
Lemma satisfy_own :
  Packet.cmd p = ReadExReq ∨ Packet.cmd p = UpgradeReq →
  ∃ c' q, satisfyCpuSideRequest c p (InTags i) = Some (c', q) ∧ gives_up W c m a c' ∧ pending p a q ∧
    Packet.sharedAsserted q = Packet.sharedAsserted p ∧
    (Packet.cmd p = ReadExReq → carries q (cache_byte c m) a (blkSize g)).
Proof.
  intros Hc. destruct whole_block as (b & Hb & Hh & Hl & _). destruct (whole_data b Hb) as [Hsd Hptr].
  destruct (drop_block b Hb) as (c' & Hinv & Hgu).
  assert (pending p a p) as Hpd by (split; try done; apply Ht).
  rewrite (satisfy_whole b Hb) by (destruct Hc as [-> | ->]; done).
  destruct Hc as [Hc|Hc].
  - exists c', (Packet.set_data p (Packet.flags p) (Some (data b))). split_and!; try done.
    + assert (Packet.isWrite p = false ∧ Packet.isRead p = true ∧ Packet.isLLSC p = false) as (-> & -> & ->)
        by (unfold Packet.isRead, Packet.isWrite, Packet.isLLSC; by rewrite Hc).
      cbn [mbind option_bind]. cbn zeta. rewrite (upd_id c i b Hb), Hsd. cbn [mbind option_bind].
      unfold Packet.needsExclusive. cbn [Packet.cmd Packet.set_data]. rewrite Hc, Hinv. done.
    + by destruct Hpd.
    + intros _. exists (data b). split_and!; [done..|by apply whole_bytes].
  - assert (Packet.isWrite p = false ∧ Packet.isRead p = false ∧ Packet.isUpgrade p = true) as (-> & -> & ->)
      by (unfold Packet.isRead, Packet.isWrite, Packet.isUpgrade; by rewrite Hc).
    exists c', p. rewrite Hinv, Hc. by split_and!.
Qed.

End Whole.

(** ** A cache as a byte memory *)

Section Port.
Context {M : AtomicPort} {BM : ByteMemory M}.

(** The requests for blocks that a cache above makes. *)
Lemma block_asks c m p a d W X :
  cache_inv W X c m → transfer p a port_bs d → block_request port_bs p a →
  Packet.cmd p ≠ Writeback → Packet.needsResponse p = true →
  asks (geo (tags c)) p a ∧ blkAlign (geo (tags c)) a = a ∧ transfer p a (blkSize (geo (tags c))) d.
Proof.
  intros Hok Ht [(x & Hx & Hu & Ex) Hctx Hunc] Hc Hn. pose proof (ck_wf _ _ Hok) as (Hg & _).
  rewrite <- (ck_bs _ _ Hok) in *. destruct (block_arith _ Hg x Hu) as (_ & E & _).
  destruct (align_align _ x Hg Hu) as (Hau & Haa & _). rewrite E, Ex in Haa. rewrite E, Ex in Hau.
  split_and!; try done. split; try done; [apply Ht|]. exists x. split_and!; try done. congruence.
Qed.

(** A read of a block leaves the cache with a shared copy. *)
Lemma share_ok t p c m a d :
  cache_inv False None c m → Packet.cmd p = ReadReq → transfer p a port_bs d → block_request port_bs p a →
  present (cache_byte c m) a port_bs →
  ∃ q l c' m', atomicAccess t c p m = Some (q, l, c', m') ∧ cache_inv False None c' m' ∧
    (∀ x, is_u64 x → cache_byte c' m' x = cache_byte c m x) ∧ block_response p a q ∧
    carries q (cache_byte c m) a port_bs ∧ Packet.sharedAsserted q = true.
Proof.
  intros Hok Hc Ht Hbr Hpr. pose proof (ck_bs _ _ Hok) as Hbs. pose proof (ck_wf _ _ Hok) as (Hg & _).
  assert (Packet.needsResponse p = true) as Hn by (unfold Packet.needsResponse; by rewrite Hc).
  assert (Packet.needsExclusive p = false) as Hne by (unfold Packet.needsExclusive; by rewrite Hc).
  destruct (block_asks c m p a d False None Hok Ht Hbr) as (Hq & Hal & Ht'); [by rewrite Hc|done|].
  pose proof (ask_u64 _ _ _ Hq) as Ha. pose proof Ht as (_ & _ & _ & _ & _ & _ & Hi).
  unfold atomicAccess. rewrite Hi. destruct (findBlock (tags c) a) as [i|] eqn:Hf.
  - destruct (access_found False t c m p a i Hok Hq Hf)
      as (lat & c1 & b & Hok1 & (Hg1 & Hfb1 & Hby1 & _) & Hb & _ & _ & ->).
    rewrite Hne. cbn [andb].
    destruct (satisfy_share False None c1 m p a i d) as (c' & q & -> & Hok' & _ & Hby' & _ & Hpd & Hsq & (r & Hr & Hl & Hrb));
      auto; try (by rewrite Hg1); [by rewrite Hfb1|].
    cbn [mbind option_bind satisfied ac_pkt ac_lat ac_wbs ac_cache send_writebacks].
    destruct (pending_respond p a q Hn Hpd) as (q' & -> & Hrs & Hptr & Hs').
    exists q', lat, c', m. split_and!; try done; [| |congruence].
    + intros x Hx. by rewrite Hby', Hby1.
    + exists r. rewrite <- Hbs, <- Hg1. split_and!; [congruence|done|]. intros k Hk. rewrite Hrb by done.
      rewrite Hg1 in Hl. destruct (block_u64 _ a (Z.of_nat k) Hg Ha) as [Hu _]; [lia|]. rewrite Hal in Hu. by apply Hby1.
  - destruct (access_absent False t c m p a Hok Hq Hf) as (s & lat & ->).
    assert (Packet.isLLSC p = false) as -> by (unfold Packet.isLLSC; by rewrite Hc).
    cbn [andb mbind option_bind satisfied].
    destruct (fetch_absent False (False_ind _) t (with_stats c s) m p a lat)
      as (l & i & wbs & c1 & m1 & Hok1 & _ & Hg1 & Hf1 & Hev & ->); try done.
    { by apply cache_inv_stats. }
    { unfold Packet.isUpgrade. by rewrite Hc. }
    { cbn. rewrite Hal, Hbs. done. }
    rewrite Hne in Hok1. cbn [tags with_stats] in *.
    destruct (satisfy_share False None c1 m1 p a i d) as (c2 & q & -> & Hok2 & Hfb2 & Hby2 & Hg2 & Hpd & Hsq & (r & Hr & Hl & Hrb));
      auto; try (by rewrite Hg1).
    cbn [mbind option_bind].
    destruct (send_writeback_ok False t _ c1 c2 m1 a wbs _ _ Hev Hok2) as (m2 & -> & Hok3 & Hx);
      [by rewrite Hg2, Hg1|auto|].
    cbn [mbind option_bind]. destruct (pending_respond p a q Hn Hpd) as (q' & -> & Hrs & Hptr & Hs').
    exists q', l, c2, m2. split_and!; try done; [| |congruence].
    + intros x Hu. destruct (Hx x Hu) as [[-> E]|[_ E]]; [|done]. by rewrite Hby2.
    + exists r. rewrite <- Hbs. rewrite Hg1 in Hl. split_and!; [congruence|done|]. intros k Hk. rewrite Hrb by done.
      destruct (block_u64 _ a (Z.of_nat k) Hg Ha) as [Hu E]; [lia|]. rewrite Hal in Hu, E.
      destruct (Hx _ Hu) as [[_ E']|[E' _]]; [done|]. by rewrite E, Hal in E'.
Qed.

(** What a request for exclusive access to the block at [a] achieves, from the
    contents [B]. *)
Definition owned (p : Packet.t) (a : Z) (B : Z → option Z) (q : Packet.t) (c' : Cache) (m' : port_state) : Prop :=
  cache_inv False None c' m' ∧
  (∀ x, is_u64 x → ¬ (a <= x < a + port_bs) → cache_byte c' m' x = B x) ∧
  present (cache_byte c' m') a port_bs ∧ block_response p a q ∧ Packet.sharedAsserted q = Packet.sharedAsserted p ∧
  (Packet.cmd p = ReadExReq → carries q B a port_bs).

(** The end of such a request, with the block in the cache. *)
Lemma own_tail t p c1 m1 X i a d B St wbs :
  let g := geo (tags c1) in
  cache_inv False X c1 m1 → X = None ∨ X = Some i → transfer p a (blkSize g) d → is_u64 a → blkAlign g a = a →
  findBlock (tags c1) a = Some i → evicts g c1 m1 B St a wbs →
  Packet.cmd p = ReadExReq ∨ Packet.cmd p = UpgradeReq →
  ∃ c2 q1 m2 q, satisfyCpuSideRequest c1 p (InTags i) = Some (c2, q1) ∧
    send_writebacks t wbs m1 = Some m2 ∧ respond_if_needed q1 = Some q ∧ owned p a B q c2 m2.
Proof.
  intros g Hok HX Ht Ha Hal Hf Hev Hc. pose proof (ck_bs _ _ Hok) as Hbs. pose proof (ck_wf _ _ Hok) as (Hg & _).
  assert (Packet.needsResponse p = true) as Hn by (unfold Packet.needsResponse; by destruct Hc as [-> | ->]).
  destruct (satisfy_own False X c1 m1 p a i d Hok HX Ht Ha Hal Hf Hc)
    as (c2 & q1 & Hsat & [Hok2 Hg2 Hfb Hout Hin Hpr _ _] & Hpd & Hs1 & Hcar).
  destruct (send_writeback_ok False t g c1 c2 m1 a wbs B St Hev Hok2 Hg2) as (m2 & Hsend & Hok3 & Hx).
  { intros x Hu E. apply Hfb; [done|]. by rewrite Hal in E. }
  destruct (pending_respond p a q1 Hn Hpd) as (q & Hresp & Hrs & Hptr & Hs2).
  exists c2, q1, m2, q. split_and!; [done..|]. unfold owned. rewrite <- Hbs.
  assert (∀ x, is_u64 x → a <= x < a + blkSize g ↔ blkAlign g x = a) as Hmem.
  { intros x Hu. pose proof (block_member g Hg a x Ha Hu) as E. rewrite Hal in E. tauto. }
  assert (∀ k, 0 <= k < blkSize g → is_u64 (a + k) ∧ blkAlign g (a + k) = a) as Hk64.
  { intros k Hk. destruct (block_u64 g a k Hg Ha Hk) as [Hu E]. by rewrite Hal in *. }
  split_and!; try done; [| |congruence|].
  - intros x Hu Ho. fold g in Ho. rewrite Hmem in Ho by done.
    destruct (Hx x Hu) as [[-> <-]|[_ ->]]; [by apply Hout|done].
  - intros k Hk. destruct (Hk64 k Hk) as [Hu E]. destruct (Hx _ Hu) as [[-> _]|[E' _]]; [|by rewrite E, Hal in E'].
    rewrite Hin by done. by apply Hpr.
  - intros Ec. destruct (Hcar Ec) as (r & Hr & Hl & Hrb). exists r. split_and!; [congruence|done|].
    intros k Hk. rewrite Hrb by done. destruct (Hk64 (Z.of_nat k)) as [Hu E]; [unfold g; lia|].
    destruct (Hx _ Hu) as [[_ E']|[E' _]]; [done|]. by rewrite E, Hal in E'.
Qed.

(** An upgrade of a block that the cache does not have is passed on. *)
Lemma forward_upgrade t p c m a d lat :
  cache_inv False None c m → Packet.cmd p = UpgradeReq → transfer p a port_bs d → block_request port_bs p a →
  asks (geo (tags c)) p a → blkAlign (geo (tags c)) a = a → findBlock (tags c) a = None →
  present (cache_byte c m) a port_bs →
  ∃ q l m', atomic_miss t (mkAccess false None lat [] c p) m = Some (q, l, [], c, m') ∧
    respond_if_needed q = Some q ∧ owned p a (cache_byte c m) q c m'.
Proof.
  intros Hok Hc Ht Hbr Hq Hal Hf Hpr. pose proof (ck_bs _ _ Hok) as Hbs. pose proof (ck_wf _ _ Hok) as (Hg & _).
  pose proof (ask_u64 _ _ _ Hq) as Ha.
  pose proof (block_present False None c m a Hok Ha) as Hprm. rewrite Hal, Hbs in Hprm.
  destruct (port_upgrade t p m a d (ck_port _ _ Hok) Hc Ht Hbr (Hprm Hpr))
    as (q & l & fin & m' & Hr & Hp' & Hx & Hpr' & Hrs & Hsh). pose proof Hrs as [Rc _ _]. rewrite Hc in Rc.
  assert (∀ x, is_u64 x → a <= x < a + port_bs ↔ blkAlign (geo (tags c)) x = a) as Hmem.
  { intros x Hu. pose proof (block_member _ Hg a x Ha Hu) as E. rewrite Hal, Hbs in E. tauto. }
  destruct (cache_inv_memory False None c m m' a Hok Hp' Ha Hf) as [Hok' Hout].
  { intros x Hu E. apply Hx; [done|]. by rewrite Hmem, <- Hal. }
  { by rewrite Hal, Hbs. }
  exists q, (s32 (lat + l)), m'. split_and!.
  - unfold atomic_miss, getBusPacket. cbn [ac_pkt ac_blk ac_cache ac_lat ac_wbs mbind option_bind].
    assert (Packet.isUpgrade p = true) as -> by (unfold Packet.isUpgrade; by rewrite Hc).
    rewrite (ask_cacheable _ _ _ Hq), orb_true_r. cbn [negb andb mbind option_bind]. rewrite Hr.
    cbn [mbind option_bind]. unfold Packet.wasNacked. by rewrite Rc.
  - unfold respond_if_needed, Packet.needsResponse. by rewrite Rc.
  - split_and!; try done; [| |by rewrite Hc].
    + intros x Hu Ho. rewrite Hmem in Ho by done. apply Hout; [done|]. left. by rewrite Hal.
    + intros k Hk. rewrite <- Hbs in Hk. destruct (block_u64 _ a k Hg Ha Hk) as [Hu E]. rewrite Hal in *.
      rewrite (absent_bytes False None c m' a) by (done || congruence). apply Hpr'. lia.
Qed.

(** A request for exclusive access takes the block out of the cache. *)
Lemma own_ok t p c m a d :
  cache_inv False None c m → Packet.cmd p = ReadExReq ∨ Packet.cmd p = UpgradeReq →
  transfer p a port_bs d → block_request port_bs p a → present (cache_byte c m) a port_bs →
  ∃ q l c' m', atomicAccess t c p m = Some (q, l, c', m') ∧ owned p a (cache_byte c m) q c' m'.
Proof.
  intros Hok Hc Ht Hbr Hpr. pose proof (ck_bs _ _ Hok) as Hbs. pose proof (ck_wf _ _ Hok) as (Hg & _).
  assert (Packet.needsResponse p = true ∧ Packet.needsExclusive p = true ∧ Packet.isLLSC p = false ∧
    Packet.cmd p ≠ Writeback) as (Hn & Hne & Hll & Hnw)
    by (unfold Packet.needsResponse, Packet.needsExclusive, Packet.isLLSC; by destruct Hc as [-> | ->]).
  destruct (block_asks c m p a d False None Hok Ht Hbr Hnw Hn) as (Hq & Hal & Ht').
  pose proof (ask_u64 _ _ _ Hq) as Ha. pose proof Ht as (_ & _ & _ & _ & _ & _ & Hi).
  unfold atomicAccess. rewrite Hi. destruct (findBlock (tags c) a) as [i|] eqn:Hf.
  - destruct (access_found False t c m p a i Hok Hq Hf)
      as (lat & c1 & b & Hok1 & (Hg1 & Hfb1 & Hby1 & _) & Hb & _ & _ & ->). rewrite Hne. cbn [andb].
    assert (findBlock (tags c1) a = Some i) as Hf1 by (by rewrite Hfb1).
    destruct (isWritable b) eqn:Hw; cbn [negb].
    + destruct (own_tail t p c1 m None i a d (cache_byte c m) (blk_state c1) []) as (c2 & q1 & m2 & q & -> & Hs & Hr & Ho);
        auto; try (by rewrite Hg1).
      { left. split_and!; auto. }
      cbn [mbind option_bind satisfied ac_pkt ac_lat ac_wbs ac_cache]. rewrite Hs. cbn [mbind option_bind].
      rewrite Hr. by exists q, lat, c2, m2.
    + cbn [mbind option_bind satisfied].
      destruct (fetch_upgrade False t c1 m p a i b lat)
        as (l & c2 & m1 & Hok2 & Hg2 & Hfb2 & Hby2 & ->); try done; [by rewrite Hg1|].
      destruct (own_tail t p c2 m1 (Some i) i a d (cache_byte c m) (blk_state c2) []) as (c3 & q1 & m2 & q & -> & Hs & Hr & Ho);
        auto; try (by rewrite Hg2, Hg1).
      { by rewrite Hfb2. }
      { left. split_and!; auto. intros x Hx. by rewrite Hby2, Hby1. }
      cbn [mbind option_bind]. rewrite Hs. cbn [mbind option_bind]. rewrite Hr. by exists q, l, c3, m2.
  - destruct (access_absent False t c m p a Hok Hq Hf) as (s & lat & ->). rewrite Hll.
    cbn [andb mbind option_bind satisfied].
    pose proof (cache_inv_stats False None c m s Hok) as Hoks.
    destruct Hc as [Hc|Hc].
    + destruct (fetch_absent False (False_ind _) t (with_stats c s) m p a lat)
        as (l & i & wbs & c1 & m1 & Hok1 & _ & Hg1 & Hf1 & Hev & ->); try done.
      { unfold Packet.isUpgrade. by rewrite Hc. }
      { cbn. rewrite Hal, Hbs. done. }
      rewrite Hne in Hok1. cbn [tags with_stats] in *.
      destruct (own_tail t p c1 m1 (Some i) i a d (cache_byte c m) (blk_state c) wbs) as (c2 & q1 & m2 & q & -> & Hs & Hr & Ho);
        auto; try (by rewrite Hg1).
      cbn [mbind option_bind]. rewrite Hs. cbn [mbind option_bind]. rewrite Hr. by exists q, l, c2, m2.
    + destruct (forward_upgrade t p (with_stats c s) m a d lat) as (q & l & m' & -> & Hr & Ho); try done.
      cbn [mbind option_bind send_writebacks]. rewrite Hr. by exists q, l, (with_stats c s), m'.
Qed.

(** The contents after a writeback. *)
Definition replaced (g : Geometry) (B : Z → option Z) (a : Z) (d : list Z) (x : Z) : option Z :=
  if decide (blkAlign g x = a) then d !! Z.to_nat (x - a) else B x.

(** The block at [a] is overwritten as a whole and is dirty. *)
Lemma overwrite_block c m a i b f d :
  let g := geo (tags c) in
  cache_inv False None c m → is_u64 a → blkAlign g a = a → findBlock (tags c) a = Some i →
  blks (tags c) !! i = Some b → Z.of_nat (length d) = blkSize g → data (f b) = d →
  tag (f b) = tag b → CacheBlk.set (f b) = CacheBlk.set b → status (f b) = Z.lor (status b) BlkDirty →
  let c' := upd c (InTags i) f in
  cache_inv False None c' m ∧ ∀ x, is_u64 x → cache_byte c' m x = replaced g (cache_byte c m) a d x.
Proof.
  intros g Hok Ha Hal Hf Hb Hl Ed Et Es Est c'. pose proof (ck_wf _ _ Hok) as (Hg & _).
  apply findBlock_holds in Hf as Hh. destruct (ck_blocks _ _ Hok a i b Ha Hh Hb) as [Hrd _ _ _].
  pose proof (holds_valid _ _ _ _ Hh Hb) as Hv. destruct (dirty_keeps b) as (K1 & _ & K3 & K4).
  unfold isReadable, isWritable, isValid, isDirty, or_status in K1, K3, K4. cbn [status blk_set_status] in *.
  rewrite <- Est in *. pose proof (ck_len _ _ Hok i b Hb) as Hlb.
  destruct (set_block False None None c m a i b f) as (Hok' & _ & Hby & _); auto;
    unfold isReadable, isValid, isDirty in *; try congruence; try done; [rewrite Ed; unfold g in *; lia|].
  split; [done|]. intros x Hx. unfold c', replaced. rewrite Hby by done. fold g. rewrite Hal, Ed.
  destruct (decide _) as [E|E]; [|done]. unfold g in *. by rewrite block_offset, E.
Qed.

(** Counting a writeback. *)
Lemma writeback_count c p a bs d :
  writeback_of p a bs d → ∃ s, incHitCount c p (context_id p) = Some (with_stats c s).
Proof.
  intros [Hc _ _ _ _ _ Hctx _]. unfold incHitCount, stat_slot, context_id, Request.contextId.
  rewrite decide_True, Hctx by done. by eexists.
Qed.

(** A writeback to a block that is in the cache. *)
Lemma writeback_found t p c m a i d :
  let g := geo (tags c) in
  cache_inv False None c m → writeback_of p a (blkSize g) d → blkAlign g a = a → findBlock (tags c) a = Some i →
  ∃ lat c', access t c p = Some (mkAccess true (Some (InTags i)) lat [] c' p) ∧ cache_inv False None c' m ∧
    ∀ x, is_u64 x → cache_byte c' m x = replaced g (cache_byte c m) a d x.
Proof.
  intros g Hok Hwb Hal Hf. pose proof Hwb as [Hc Ht _ [Ha _] _ Hunc _ _]. pose proof Ht as (Hpa & Hs & Hp & Hl & _).
  destruct (lookup_block False t c m a i Hok Ha Hf) as (lat & s & b & Hacc & Hok1 & (Hg1 & Hfb1 & Hby1 & _) & Hb).
  destruct (writeback_count (with_tags c s) p a _ d Hwb) as [h Hcnt].
  set (c1 := with_stats (with_tags c s) h).
  assert (cache_inv False None c1 m) as Hokc1 by (by apply cache_inv_stats).
  assert (findBlock (tags c1) a = Some i) as Hf1 by (rewrite <- Hf; by apply Hfb1).
  assert (geo (tags c1) = g) as Hgc by done. assert (c_blkSize c = blkSize g) as Hbs by apply Hok.
  assert (Packet.needsExclusive p = true ∧ Packet.isWrite p = true ∧ Packet.isLLSC p = false ∧
    Packet.needsResponse p = false) as (Hne & Hwr & Hll & Hnr)
    by (unfold Packet.needsExclusive, Packet.isWrite, Packet.isLLSC, Packet.needsResponse; by rewrite Hc).
  assert (Z.of_nat (length (data b)) = blkSize g) as Hlb by (rewrite <- Hgc; by apply (ck_len _ _ Hokc1 i)).
  assert (∀ c' f, c' = upd c1 (InTags i) f → data (f b) = d → tag (f b) = tag b →
    CacheBlk.set (f b) = CacheBlk.set b → status (f b) = Z.lor (status b) BlkDirty →
    cache_inv False None c' m ∧ ∀ x, is_u64 x → cache_byte c' m x = replaced g (cache_byte c m) a d x) as Hdone.
  { intros c' f -> Ed Et Es Est. destruct (overwrite_block c1 m a i b f d) as [Hok' Hby]; try done; try (by rewrite Hgc).
    split; [done|]. intros x Hx. rewrite Hby by done. unfold replaced. rewrite Hgc.
    destruct (decide _); [done|]. by apply Hby1. }
  exists lat. unfold access. rewrite Hunc, Hpa. cbn [mbind option_bind]. rewrite Hacc. cbn [mbind option_bind].
  rewrite Hb. cbn [mbind option_bind]. rewrite Hne. destruct (isWritable b).
  - rewrite Hcnt. cbn [mbind option_bind]. fold c1.
    rewrite (satisfy_whole False None c1 m p a i d) with (b := b); try done; try (by rewrite Hgc); [|by rewrite Hc].
    rewrite Hwr. unfold checkWrite. rewrite Hll. cbn [mbind option_bind].
    destruct (whole_block False None c1 m p a i d) as (b' & _ & _ & _ & Ho); try done; try (by rewrite Hgc).
    unfold Packet.writeDataToBlock. rewrite (ck_size _ _ Hokc1), Ho. cbn [mbind option_bind].
    unfold Packet.writeData. rewrite Hp, Hs. cbn [mbind option_bind data clearLoadLocks blk_set_locks].
    rewrite memcpy_whole by done. cbn [mbind option_bind].
    eexists. split; [reflexivity|]. by eapply Hdone.
  - unfold access_miss. rewrite decide_True by done. unfold access_writeback. rewrite Hs. cbn [mbind option_bind].
    change (c_blkSize (with_tags c s)) with (c_blkSize c). rewrite Hbs, Z.eqb_refl. cbn [tags with_tags].
    rewrite Hb. cbn [mbind option_bind]. rewrite Hp. cbn [mbind option_bind]. rewrite memcpy_whole by done.
    cbn [mbind option_bind]. rewrite Hnr.
    destruct (writeback_count (upd (with_tags c s) (InTags i) (λ b, or_status BlkDirty (blk_set_data b d))) p a _ d Hwb)
      as [h' ->]. cbn [mbind option_bind]. eexists. split; [reflexivity|].
    destruct (Hdone _ (λ b, or_status BlkDirty (blk_set_data b d)) eq_refl) as [Hok' Hby']; try done.
    split; [|exact Hby']. by destruct Hok'; constructor.
Qed.

(** A writeback to a block that is not in the cache allocates it. *)
Lemma writeback_absent t p c m a d :
  let g := geo (tags c) in
  cache_inv False None c m → writeback_of p a (blkSize g) d → blkAlign g a = a → findBlock (tags c) a = None →
  present (port_byte m) a (blkSize g) →
  ∃ lat i wbs c', access t c p = Some (mkAccess true (Some (InTags i)) lat wbs c' p) ∧
    cache_inv False None c' m ∧ geo (tags c') = g ∧ evicts g c' m (replaced g (cache_byte c m) a d) (blk_state c) a wbs.
Proof.
  intros g Hok Hwb Hal Hf Hpr. pose proof Hwb as [Hc Ht _ [Ha _] _ Hunc _ _]. pose proof Ht as (Hpa & Hs & Hp & Hl & _).
  pose proof (ck_wf _ _ Hok) as (Hg & _).
  assert (Packet.needsResponse p = false) as Hnr by (unfold Packet.needsResponse; by rewrite Hc).
  destruct (accessBlock_spec (tags c) t a (ck_wf _ _ Hok) (ck_unique _ _ Hok) Ha)
    as (lat & s' & Hacc & _ & _ & Hm & _ & _). rewrite Hf in Hacc, Hm. destruct Hm as [-> _].
  destruct (allocateBlock_ok False t c m a Hok Ha) as
    (st & i & b & wbs & c0 & b0 & Hst & Hi & Hb & Hall & Hsh & Hss & Hf0 & Hb0 & Hd0 & Hset0 & Hcase).
  pose proof Hsh as (Hw0 & Hg0 & Hbs0 & Hq0 & Hn0).
  destruct (insertBlock_frame (tags c0) Hw0 t a st i (context_id p) Ha) as
    (st' & s2 & Hins & _ & Hg2 & _ & Hw2 & Hf2 & b0' & b2 & Hb0' & Hb2 & Ht2 & _ & Hd2 & Hset2);
    [by rewrite Hss; unfold set_index in *; rewrite Hg0|done|].
  assert (b0' = b0) as -> by congruence.
  assert (Z.of_nat (length (data b2)) = blkSize g) as Hl2 by (rewrite Hd2, Hd0; by apply (ck_len _ _ Hok i)).
  set (c1 := upd (upd (with_tags c0 s2) (InTags i) (λ b, blk_set_status b (Z.lor BlkValid BlkReadable))) (InTags i)
               (λ b, or_status BlkDirty (blk_set_data b d))).
  destruct (writeback_count c1 p a _ d Hwb) as [h Hcnt].
  exists lat, i, wbs, (with_stats c1 h). split.
  - unfold access. rewrite Hunc, Hpa. cbn [mbind option_bind]. rewrite Hacc. cbn [mbind option_bind].
    replace (with_tags c (tags c)) with c by (by destruct c).
    unfold access_miss. rewrite decide_True by done. unfold access_writeback. rewrite Hs. cbn [mbind option_bind].
    rewrite (ck_size _ _ Hok), Z.eqb_refl, Hall. cbn [mbind option_bind]. rewrite Hins. cbn [mbind option_bind].
    match goal with |- context [blks (tags ?c2) !! i] =>
      assert (blks (tags c2) !! i = Some (blk_set_status b2 (Z.lor BlkValid BlkReadable))) as ->
        by (cbn; by rewrite list_lookup_alter_eq, Hb2) end.
    cbn [mbind option_bind]. rewrite Hp. cbn [mbind option_bind data blk_set_status].
    change (c_blkSize (upd _ _ _)) with (c_blkSize c0).
    rewrite Hbs0, (ck_size _ _ Hok), memcpy_whole by done. cbn [mbind option_bind]. rewrite Hnr. fold c1.
    by rewrite Hcnt.
  - set (b3 := or_status BlkDirty (blk_set_data (blk_set_status b2 (Z.lor BlkValid BlkReadable)) d)).
    assert (blks (tags c1) !! i = Some b3) as Hb3 by (cbn; by rewrite !list_lookup_alter_eq, Hb2).
    assert (same_shape c (with_stats c1 h)) as Hsh1.
    { split_and!; try done; [by repeat apply wf_upd_blk|]. cbn. congruence. }
    destruct (replace_bytes False None c (with_stats c1 h) m a st i b b3 d wbs (replaced g (cache_byte c m) a d))
      as (Hok1 & _ & Hev); try done; auto.
    + intros j Hj. unfold cores. cbn. by rewrite !list_lookup_alter_ne, Hf2, Hf0.
    + cbn. by rewrite Ht2, Hg0.
    + cbn. congruence.
    + unfold g in Hal. by rewrite Hal.
    + intros x Hx E. unfold replaced. fold g in E |- *. by rewrite E, Hal, decide_True by done.
    + intros x Hx E. unfold replaced. fold g in E. rewrite Hal in E. by rewrite decide_False by done.
    + split_and!; try done. apply Hsh1.
Qed.

(** A writeback replaces the block. *)
Lemma writeback_ok t p c m a d :
  cache_inv False None c m → writeback_of p a port_bs d → present (cache_byte c m) a port_bs →
  ∃ q l c' m', atomicAccess t c p m = Some (q, l, c', m') ∧ cache_inv False None c' m' ∧
    ∀ x, is_u64 x → cache_byte c' m' x =
      if decide (a <= x < a + port_bs) then d !! Z.to_nat (x - a) else cache_byte c m x.
Proof.
  intros Hok Hwb Hpr. pose proof (ck_bs _ _ Hok) as Hbs. pose proof (ck_wf _ _ Hok) as (Hg & _).
  rewrite <- Hbs in *. pose proof Hwb as [Hc Ht _ [Ha Hmod] _ _ _ _]. pose proof Ht as (_ & _ & _ & _ & _ & _ & Hi).
  set (g := geo (tags c)) in *.
  assert (blkAlign g a = a) as Hal by (destruct (block_arith g Hg a Ha) as (_ & -> & _); lia).
  assert (∀ x, is_u64 x → replaced g (cache_byte c m) a d x =
    if decide (a <= x < a + blkSize g) then d !! Z.to_nat (x - a) else cache_byte c m x) as Hrep.
  { intros x Hx. unfold replaced. pose proof (block_member g Hg a x Ha Hx) as E. rewrite Hal in E.
    destruct (decide _), (decide _); tauto. }
  assert (respond_if_needed p = Some p) as Hresp
    by (unfold respond_if_needed, Packet.needsResponse; by rewrite Hc).
  unfold atomicAccess. rewrite Hi. destruct (findBlock (tags c) a) as [i|] eqn:Hf.
  - destruct (writeback_found t p c m a i d Hok Hwb Hal Hf) as (lat & c' & -> & Hok' & Hby).
    cbn [mbind option_bind satisfied ac_pkt ac_lat ac_wbs ac_cache send_writebacks]. rewrite Hresp.
    exists p, lat, c', m. split_and!; try done. intros x Hx. rewrite Hby by done. by apply Hrep.
  - pose proof (block_present False None c m a Hok Ha) as Hprm. fold g in Hprm. rewrite Hal in Hprm.
    destruct (writeback_absent t p c m a d Hok Hwb Hal Hf (Hprm Hpr)) as (lat & i & wbs & c' & -> & Hok' & Hg' & Hev).
    cbn [mbind option_bind satisfied ac_pkt ac_lat ac_wbs ac_cache].
    destruct (send_writeback_ok False t g c' c' m a wbs _ _ Hev Hok' Hg') as (m' & -> & Hok2 & Hx); [done|].
    cbn [mbind option_bind]. rewrite Hresp. exists p, lat, c', m'. split_and!; try done.
    intros x Hu. rewrite <- Hrep by done. by destruct (Hx x Hu) as [[-> ->]|[_ ->]].
Qed.

(** A request that another cache answers is passed on if it invalidates, and the
    block is dropped. *)
Lemma inhibited_ok t p c m a :
  cache_inv False None c m → Packet.memInhibitAsserted p = true →
  Packet.cmd p ∈ [ReadReq; ReadExReq; UpgradeReq] →
  Packet.getAddr p = Some a → Packet.getSize p = Some port_bs → block_request port_bs p a →
  present (cache_byte c m) a port_bs →
  ∃ l c' m', atomicAccess t c p m = Some (p, l, c', m') ∧ cache_inv False None c' m' ∧
    (∀ x, is_u64 x → ¬ (a <= x < a + port_bs) ∨ Packet.cmd p = ReadReq → cache_byte c' m' x = cache_byte c m x) ∧
    present (cache_byte c' m') a port_bs.
Proof.
  intros Hok Hi Hc Hpa Hps Hbr Hpr. pose proof (ck_bs _ _ Hok) as Hbs. pose proof (ck_wf _ _ Hok) as (Hg & _).
  destruct Hbr as [(y & Hy & Hyu & Ey) Hctx Hunc] eqn:E0. clear E0. rename Hbr into Hbr0.
  assert (is_u64 a ∧ blkAlign (geo (tags c)) a = a) as [Ha Hal].
  { rewrite <- Hbs in Ey. destruct (block_arith _ Hg y Hyu) as (_ & E & _).
    destruct (align_align _ y Hg Hyu) as (Hau & Haa & _). rewrite E, Ey in Haa, Hau. done. }
  assert (∀ x, is_u64 x → a <= x < a + port_bs ↔ blkAlign (geo (tags c)) x = a) as Hmem.
  { intros x Hu. pose proof (block_member _ Hg a x Ha Hu) as E. rewrite Hal, Hbs in E. tauto. }
  unfold atomicAccess. rewrite Hi. unfold atomic_inhibited. rewrite Hunc.
  destruct (Packet.isInvalidate p) eqn:Einv.
  2: { exists (c_hitLatency c), c, m. by split_and!. }
  assert (Packet.cmd p ≠ ReadReq) as Hnr by (intros E; unfold Packet.isInvalidate in Einv; by rewrite E in Einv).
  assert (∃ c1, (match findBlock (tags c) a with Some i => invalidate c (InTags i) | None => Some c end) = Some c1 ∧
    cache_inv False None c1 m ∧ geo (tags c1) = geo (tags c) ∧ findBlock (tags c1) a = None ∧
    (∀ x, is_u64 x → blkAlign (geo (tags c)) x ≠ a → cache_byte c1 m x = cache_byte c m x))
    as (c1 & Hinv & Hok1 & Hg1 & Hf1 & Hout1).
  { destruct (findBlock (tags c) a) as [i|] eqn:Hf; [|by exists c].
    destruct (findBlock_holds _ _ _ Hf) as (st & Hst & Hin & _).
    destruct (set_member _ (ck_wf _ _ Hok) _ _ _ Hst Hin) as [b Hb].
    destruct (drop_block False None c m a i Hok (or_introl eq_refl) Ha Hal Hf b Hb) as (c' & Hc' & [? ? ? ? _ _ ? _]).
    exists c'. by split_and!. }
  rewrite Hpa. cbn [mbind option_bind]. rewrite Hinv. cbn [mbind option_bind].
  pose proof (block_present False None c m a Hok Ha) as Hprm. rewrite Hal, Hbs in Hprm.
  destruct (port_inhibited t p m a (ck_port _ _ Hok) Hi Hc Hpa Hps Hbr0 (Hprm Hpr))
    as (l & fin & m' & Hr & Hp' & Hx & Hpr'). rewrite Hr. cbn [mbind option_bind].
  destruct (cache_inv_memory False None c1 m m' a Hok1 Hp' Ha Hf1) as [Hok' Hout].
  { intros x Hu E. apply Hx; [done|]. left. rewrite Hmem by done. by rewrite Hg1, Hal in E. }
  { by rewrite Hg1, Hal, Hbs. }
  exists (s32 (c_hitLatency c1 + l)), c1, m'. split_and!; try done.
  - intros x Hu [Ho|?]; [|done]. rewrite Hmem in Ho by done. rewrite Hout; [by apply Hout1|done|].
    left. by rewrite Hg1, Hal.
  - intros k Hk. rewrite <- Hbs in Hk. destruct (block_u64 _ a k Hg Ha Hk) as [Hu E]. rewrite Hal in *.
    rewrite (absent_bytes False None c1 m' a) by (done || by rewrite Hg1, E). apply Hpr'. lia.
Qed.

End Port.

(** The bytes of a cache and of what is behind it. *)
#[export] Instance cache_view {M : AtomicPort} (BM : ByteMemory M) : ByteView (Cache * port_state) := {|
  port_ok s := cache_inv False None s.1 s.2;
  port_byte s := cache_byte s.1 s.2;
  port_bs := port_bs
|}.

(** A cache keeps the promises of a byte memory.  The blocks that it hands out
    may be shared, and it has lost those that it has given up. *)
#[export] Instance CachePort_bytes fin {M : AtomicPort} (BM : ByteMemory M) : ByteMemory (CachePort fin M).
Proof.
  apply (Build_ByteMemory (CachePort fin M) (cache_view BM) False).
  - intros t p [c m] a d Hok Hc Ht Hbr Hpr.
    destruct (share_ok t p c m a d Hok Hc Ht Hbr Hpr) as (q & l & c' & m' & E & ? & ? & ? & ? & Hs).
    exists q, l, fin, (c', m'). cbn [recvAtomic CachePort fst snd]. rewrite E. split_and!; try done.
    intros [?|[]]. congruence.
  - intros t p [c m] a d Hok Hc Ht Hbr Hpr.
    destruct (own_ok t p c m a d Hok (or_introl Hc) Ht Hbr Hpr) as (q & l & c' & m' & E & ? & Hx & ? & ? & ? & ?).
    exists q, l, fin, (c', m'). cbn [recvAtomic CachePort fst snd]. rewrite E. split_and!; auto.
    intros x Hu [?|[]]. by apply Hx.
  - intros t p [c m] a d Hok Hc Ht Hbr Hpr.
    destruct (own_ok t p c m a d Hok (or_intror Hc) Ht Hbr Hpr) as (q & l & c' & m' & E & ? & ? & ? & ? & ? & _).
    exists q, l, fin, (c', m'). cbn [recvAtomic CachePort fst snd]. rewrite E. by split_and!.
  - intros t p [c m] a d Hok Hwb Hpr.
    destruct (writeback_ok t p c m a d Hok Hwb Hpr) as (q & l & c' & m' & E & ? & ?).
    exists q, l, fin, (c', m'). cbn [recvAtomic CachePort fst snd]. rewrite E. by split_and!.
  - intros t p [c m] a Hok Hi Hc Hpa Hps Hbr Hpr.
    destruct (inhibited_ok t p c m a Hok Hi Hc Hpa Hps Hbr Hpr) as (l & c' & m' & E & ? & ? & ?).
    exists l, fin, (c', m'). cbn [recvAtomic CachePort fst snd]. rewrite E. by split_and!.
Defined.

(** ** A stack of caches *)

(** The parameters of a cache. *)
Record Level := mkLevel {
  lv_geo : Geometry;
  lv_cpus : Z;
  lv_mshrs : Z;
  lv_lat : Z;
  lv_max_miss : Z;
  lv_datum : list Z
}.

Definition level_new (l : Level) : Cache :=
  Cache_new (lv_geo l) (lv_cpus l) (lv_mshrs l) (lv_lat l) (lv_max_miss l) (lv_datum l).

(** Caches below each other, the nearest to the processor first. *)
Fixpoint stack (fin : Z) (M : AtomicPort) (ls : list Level) : AtomicPort :=
  match ls with
  | [] => M
  | _ :: ls => CachePort fin (stack fin M ls)
  end.

Fixpoint stack_new (fin : Z) {M : AtomicPort} (ls : list Level) (m : @port_state M)
    : @port_state (stack fin M ls) :=
  match ls with
  | [] => m
  | l :: ls => (level_new l, stack_new fin ls m)
  end.

#[export] Instance stack_bytes fin {M : AtomicPort} (BM : ByteMemory M) : ∀ ls, ByteMemory (stack fin M ls) :=
  fix go ls := match ls with
               | [] => BM
               | _ :: ls => CachePort_bytes fin (go ls)
               end.

(** The bytes of a stack. *)
Abbreviation stack_view fin BM ls := (@port_view _ (stack_bytes fin BM ls)).

(** Parameters that the constructors accept, for blocks of [bs] bytes. *)
Definition level_ok (bs : Z) (l : Level) : Prop :=
  (∃ nsets bsize asc lat, is_u32 nsets ∧ is_u32 bsize ∧
     make_geometry nsets bsize asc lat = Some (lv_geo l)) ∧
  0 < lv_cpus l ∧ Z.of_nat (length (lv_datum l)) = blkSize (lv_geo l) ∧ blkSize (lv_geo l) = bs.

Lemma level_geometry bs l : level_ok bs l → geometry_ok (lv_geo l).
Proof. intros [(n & b & asc & lat & Hn & Hb & Hm) _]. by apply (make_geometry_ok _ n b asc lat). Qed.

Section Stack.
Context (fin : Z) {M : AtomicPort} {BM : ByteMemory M}.

Lemma stack_bs ls : @port_bs _ (stack_view fin BM ls) = port_bs.
Proof. by induction ls. Qed.

(** New caches hold nothing. *)
Lemma stack_new_ok ls m :
  Forall (level_ok port_bs) ls → port_ok m →
  @port_ok _ (stack_view fin BM ls) (stack_new fin ls m) ∧
  ∀ x, @port_byte _ (stack_view fin BM ls) (stack_new fin ls m) x = port_byte m x.
Proof.
  induction 1 as [|l ls Hl Hls IH]; intros Hm; [done|]. destruct (IH Hm) as [Hok Hby].
  pose proof (level_geometry _ _ Hl) as Hg. destruct Hl as (_ & Hn & Hd & Hbs).
  rewrite <- (stack_bs ls) in Hbs.
  destruct (Cache_new_ok (V := stack_view fin BM ls) (lv_geo l) (lv_cpus l) (lv_mshrs l) (lv_lat l) (lv_max_miss l)
    (lv_datum l) (stack_new fin ls m) Hg Hn Hd Hbs Hok False) as [Hinv Hx].
  split; [exact Hinv|]. intros x. rewrite <- Hby. apply Hx.
Qed.

End Stack.

(** C5. A hierarchy of caches is transparent.  However many caches are put below
    each other in front of a byte memory, all with blocks of the same size and
    otherwise with any accepted parameters, any sequence of loads, stores,
    load-locked and unconditional swap requests to parts of blocks of the memory is
    answered completely, without a failed assertion, as an array of bytes with the
    initial contents of the memory would answer it: no fill, upgrade, eviction or
    invalidation of any level is visible. *)
Theorem hierarchy_transparent {M : AtomicPort} {BM : ByteMemory M} fin l ls m rs :
  Forall (level_ok port_bs) (l :: ls) → port_ok m →
  Forall (λ r, cpu_request (blkSize (lv_geo l)) r.2 ∧ plain r.2 ∧
    present (port_byte m) (blkAlign (lv_geo l) (Packet.addr r.2)) (blkSize (lv_geo l))) rs →
  ∃ ps c' s', @atomic_run (stack fin M ls) (level_new l) (stack_new fin ls m) rs = Some (ps, c', s') ∧
    flat_run (port_byte m) rs ps (@cache_byte _ (stack_view fin BM ls) c' s').
Proof.
  intros Hall Hm Hrs. apply Forall_cons in Hall as [Hl Hls].
  destruct (stack_new_ok fin ls m Hls Hm) as [Hok Hby].
  pose proof (level_geometry _ _ Hl) as Hg. destruct Hl as (_ & Hn & Hd & Hbs). rewrite <- (stack_bs fin ls) in Hbs.
  destruct (Cache_new_ok (V := stack_view fin BM ls) (lv_geo l) (lv_cpus l) (lv_mshrs l) (lv_lat l) (lv_max_miss l)
    (lv_datum l) (stack_new fin ls m) Hg Hn Hd Hbs Hok (@port_excl _ (stack_bytes fin BM ls))) as [Hinv Hx].
  destruct (@atomic_run_ok _ (stack_bytes fin BM ls) rs _ _ Hinv) as (ps & c' & s' & Hrun & _ & Hfr).
  { eapply Forall_impl; [exact Hrs|]. intros [t p] (Hrq & Hpl & Hpr). split_and!; [done|by right|].
    intros k Hk. rewrite Hx, Hby. by apply Hpr. }
  exists ps, c', s'. split; [exact Hrun|].
  refine (flat_run_ext (lv_geo l) rs ps _ _ _ Hg _ _ Hfr); [|intros x _; etransitivity; [apply Hx|apply Hby]].
  eapply Forall_impl; [exact Hrs|]. by intros [t p] (? & _).
Qed.

(** Two caches with blocks of 64 bytes in front of a kilobyte of memory: four sets
    of two blocks, and one set of two blocks. *)
Definition small_geometry : Geometry :=
  Eval vm_compute in default demo_geometry (make_geometry 1 64 2 9).
Definition demo_l1 : Level := mkLevel demo_geometry 1 4 3 0 (replicate 64 0).
Definition demo_l2 : Level := mkLevel small_geometry 1 4 9 0 (replicate 64 0).

(** The second level is smaller than the first, so that blocks that are dirty in
    the first level are written back to a level that has dropped them. *)
Example stack_answers :
  ('(ps, _, _) ← @atomic_run (stack 0 (MemoryPort 0 0) [demo_l2]) (level_new demo_l1)
                   (stack_new 0 (M := MemoryPort 0 0) [demo_l2] demo_mem) demo_requests;
   Some (map Packet.data ps)) =
  Some [Some [1; 2; 3; 4]; Some [7; 7]; Some [7]; Some [3; 4]; Some [1; 2; 9; 8]].
Proof. vm_compute. reflexivity. Qed.

Lemma hierarchy_transparent_witness :
  ∃ ps c' s', @atomic_run (stack 0 (MemoryPort 0 0) [demo_l2]) (level_new demo_l1)
                (stack_new 0 (M := MemoryPort 0 0) [demo_l2] demo_mem) demo_requests = Some (ps, c', s') ∧
    flat_run (mem_byte demo_mem) demo_requests ps
      (@cache_byte _ (stack_view 0 (MemoryPort_bytes 0 0 64 eq_refl) [demo_l2]) c' s').
Proof.
  apply (hierarchy_transparent (BM := MemoryPort_bytes 0 0 64 eq_refl) 0 demo_l1 [demo_l2] demo_mem demo_requests).
  - repeat (apply Forall_cons_2; [split_and!; try done|]); [by exists 4, 64, 2, 3|by exists 1, 64, 2, 9|].
    apply Forall_nil_2.
  - by split; vm_compute.
  - repeat (apply Forall_cons_2;
      [match goal with |- context [demo_request ?c ?a ?d] =>
         destruct (demo_request_served c a d) as (Hrq & _ & Hpr); [set_solver|cbn; lia..|] end;
       split_and!; [exact Hrq|done|exact Hpr]|]).
    apply Forall_nil_2.
Defined.
