(* ===== verification/RangeMap.v ===== *)
(** Ranges of addresses and maps from ranges, [src/m5/src/base/range.hh] and
    [range_map.hh].

    A [range_map] is a [std::map] ordered by the start of its ranges: the list of
    its entries in that order, an iterator is a position in it and [None] is
    [end()].  On the empty map [find] reads through [end()]; what it reads there is
    an argument. *)

From S2P Require Import Prelude.

(** A range includes its end. *)
Record Range := mkRange {
  r_start : Z;
  r_end : Z
}.

Definition range_invalid : Range := mkRange 1 0.
Definition range_size (r : Range) : Z := u64 (u64 (r_end r - r_start r) + 1).
Definition range_valid (r : Range) : bool := r_start r <? r_end r.
Definition RangeEx (s e : Z) : Range := mkRange s (u64 (e - 1)).
Definition RangeIn (s e : Z) : Range := mkRange s e.
Definition RangeSize (s n : Z) : Range := mkRange s (u64 (u64 (s + n) - 1)).

(** [range1 < range2] and [pos == range]. *)
Definition range_lt (r s : Range) : bool := r_start r <? r_start s.
Definition in_range (x : Z) (r : Range) : bool := (r_start r <=? x) && (x <=? r_end r).

(** The test that [find] makes of an entry. *)
Definition overlaps (e r : Range) : bool := (r_start e <=? r_end r) && (r_start r <=? r_end e).

Section RangeMap.
Context {V : Type}.
Implicit Types (m : list (Range * V)) (r e : Range) (v : V).

(** The first entry after [r] in the order of the map. *)
Fixpoint upper_bound m r : nat :=
  match m with
  | [] => 0
  | (e, _) :: m => if range_lt r e then 0%nat else S (upper_bound m r)
  end.

(** [find]: the position, or [None] for [end ()].  On the empty map the code reads
    the key of [end ()] and returns [end ()] whatever it has read. *)
Definition find m r : option nat :=
  match upper_bound m r with
  | O => match m with
         | [] => None
         | (e, _) :: _ => if overlaps e r then Some 0%nat else None
         end
  | S i => match m !! i with
           | Some (e, _) => if overlaps e r then Some i else None
           | None => None
           end
  end.

Definition intersect m r : bool := bool_decide (is_Some (find m r)).

(** [std::map::insert]: the position and the map; an entry with the same start
    stays. *)
Definition map_insert m r v : nat * list (Range * V) :=
  let i := upper_bound m r in
  match i with
  | S j => match m !! j with
           | Some (e, _) => if r_start e =? r_start r then (j, m) else (i, take i m ++ (r, v) :: drop i m)
           | None => (i, m)
           end
  | O => (0%nat, (r, v) :: m)
  end.

Definition insert m r v : option nat * list (Range * V) :=
  if intersect m r then (None, m) else let '(i, m) := map_insert m r v in (Some i, m).

(** ** Maps of disjoint ranges *)

(** Ranges that are not empty, each after the one before. *)
Definition before (x y : Range * V) : Prop := r_end x.1 < r_start y.1.
Definition rm_ok m : Prop := Forall (λ x, r_start x.1 <= r_end x.1) m ∧ StronglySorted before m.

Definition point (a : Z) : Range := mkRange a a.

Lemma overlaps_point e a : overlaps e (point a) = in_range a e.
Proof. done. Qed.

Lemma overlaps_spec e r : overlaps e r = true ↔ r_start e <= r_end r ∧ r_start r <= r_end e.
Proof. unfold overlaps. rewrite andb_true_iff, !Z.leb_le. done. Qed.

(** Where the ranges that start after [r] begin. *)
Lemma upper_bound_spec m r :
  rm_ok m → (upper_bound m r <= length m)%nat ∧
    Forall (λ x, r_start x.1 <= r_start r) (take (upper_bound m r) m) ∧
    Forall (λ x, r_start r < r_start x.1) (drop (upper_bound m r) m).
Proof.
  intros [Hv Hs]. induction m as [|[e v] m IH]; [done|]. cbn [upper_bound].
  apply Forall_cons in Hv as [He Hv]. apply StronglySorted_inv in Hs as [Hs Hb]. cbn in He.
  unfold range_lt. destruct (Z.ltb_spec (r_start r) (r_start e)) as [Hlt|Hge].
  - split_and!; [cbn; lia|constructor|]. constructor; [done|]. eapply Forall_impl; [exact Hb|].
    intros [f w] Hf. unfold before in Hf. cbn in *. lia.
  - destruct (IH Hv Hs) as (Hl & H1 & H2). split_and!; [cbn; lia|by constructor|done].
Qed.

(** Only the last range that starts no later than [a] can contain it. *)
Lemma contains_last m a i e v :
  rm_ok m → m !! i = Some (e, v) → in_range a e = true → upper_bound m (point a) = S i.
Proof.
  intros Hok Hi Ha. destruct (upper_bound_spec m (point a) Hok) as (Hl & H1 & H2). destruct Hok as [Hv Hs].
  unfold in_range in Ha. zbool. set (u := upper_bound m (point a)) in *. apply lookup_lt_Some in Hi as Hil.
  destruct (decide (u <= i)%nat) as [Hui|Hui].
  - exfalso. rewrite Forall_lookup in H2. specialize (H2 (i - u)%nat (e, v)). rewrite lookup_drop in H2.
    replace (u + (i - u))%nat with i in H2 by lia. specialize (H2 Hi). cbn in H2. lia.
  - destruct (decide (u = S i)) as [|Hne]; [done|]. exfalso.
    destruct (lookup_lt_is_Some_2 m (u - 1)) as [[f w] Hf]; [lia|].
    rewrite Forall_lookup in H1. specialize (H1 (u - 1)%nat (f, w)). rewrite lookup_take_lt in H1 by lia.
    specialize (H1 Hf). cbn in H1.
    assert (before (e, v) (f, w)) as Hb by (apply (StronglySorted_lookup before m i (u - 1)); [done..|lia]).
    unfold before in Hb. cbn in Hb. lia.
Qed.

(** Looking up one address finds the range that contains it, if there is one. *)
Lemma find_point m a :
  rm_ok m → m ≠ [] →
  match find m (point a) with
  | Some i => ∃ e v, m !! i = Some (e, v) ∧ in_range a e = true
  | None => Forall (λ x, in_range a x.1 = false) m
  end.
Proof.
  intros Hok Hne. destruct (find m (point a)) as [i|] eqn:E.
  - unfold find in E. destruct (upper_bound m (point a)) as [|j].
    + destruct m as [|[e v] m]; [done|]. destruct (overlaps e (point a)) eqn:Eo; [|done].
      injection E as <-. by exists e, v.
    + destruct (m !! j) as [[e v]|] eqn:Ej; [|done]. destruct (overlaps e (point a)) eqn:Eo; [|done].
      injection E as <-. by exists e, v.
  - apply Forall_lookup. intros i [e v] Hi. cbn. destruct (in_range a e) eqn:Ha; [|done]. exfalso.
    pose proof (contains_last m a i e v Hok Hi Ha) as Hu. unfold find in E. rewrite Hu, Hi in E.
    by rewrite overlaps_point, Ha in E.
Qed.

(** What [find] says of a range that meets no entry. *)
Lemma find_disjoint m r :
  rm_ok m → Forall (λ x, overlaps x.1 r = false) m → find m r = None.
Proof.
  intros Hok Hd. unfold find. destruct (upper_bound m r) as [|j].
  - destruct m as [|[e v] m]; [done|]. apply Forall_cons in Hd as [Hd _]. cbn in Hd. by rewrite Hd.
  - destruct (m !! j) as [[e v]|] eqn:Ej; [|done]. rewrite Forall_lookup in Hd. specialize (Hd j _ Ej). cbn in Hd.
    by rewrite Hd.
Qed.

Lemma insert_disjoint m r v :
  rm_ok m → r_start r <= r_end r → Forall (λ x, overlaps x.1 r = false) m →
  let u := upper_bound m r in
  insert m r v = (Some u, take u m ++ (r, v) :: drop u m) ∧ rm_ok (take u m ++ (r, v) :: drop u m).
Proof.
  intros Hok Hr Hd u. pose proof (find_disjoint m r Hok Hd) as Hf.
  destruct (upper_bound_spec m r Hok) as (Hl & H1 & H2). fold u in Hl, H1, H2. pose proof Hok as [Hv Hs].
  assert (∀ i e w, m !! i = Some (e, w) → (r_start e <= r_start r → r_end e < r_start r) ∧
    (r_start r < r_start e → r_end r < r_start e)) as Hsep.
  { intros i e w Hi. rewrite Forall_lookup in Hd, Hv. specialize (Hd i _ Hi). specialize (Hv i _ Hi). cbn in Hd, Hv.
    unfold overlaps in Hd. apply andb_false_iff in Hd as [Hd|Hd]; zbool; lia. }
  assert (∀ x, x ∈ take u m → before x (r, v)) as Hlo.
  { intros [e w] Hx. rewrite Forall_forall in H1. specialize (H1 _ Hx). cbn in H1.
    apply elem_of_take in Hx as (i & Hi & _). unfold before. cbn. by apply (proj1 (Hsep _ _ _ Hi)). }
  assert (∀ x, x ∈ drop u m → before (r, v) x) as Hhi.
  { intros [e w] Hx. rewrite Forall_forall in H2. specialize (H2 _ Hx). cbn in H2.
    apply list_elem_of_lookup in Hx as [k Hk]. rewrite lookup_drop in Hk. unfold before. cbn. by apply (proj2 (Hsep _ _ _ Hk)). }
  split.
  - unfold insert, intersect. rewrite Hf. change (bool_decide (is_Some (@None nat))) with false.
    unfold map_insert. fold u. destruct u as [|j] eqn:Eu; [done|].
    destruct (lookup_lt_is_Some_2 m j) as [[e w] Hj']; [lia|]. rewrite Hj'.
    destruct (Z.eqb_spec (r_start e) (r_start r)) as [Ee|]; [|done]. exfalso.
    destruct (Hsep j e w Hj') as [Hs1 _]. rewrite Forall_lookup in Hv. specialize (Hv j _ Hj'). cbn in Hv. lia.
  - split.
    + apply Forall_app; split; [by apply Forall_take|]. constructor; [done|by apply Forall_drop].
    + rewrite <- (take_drop u m) in Hs. apply StronglySorted_app in Hs as (Hab & Ha & Hb).
      apply StronglySorted_app. split_and!; [|done|constructor; [done|by apply Forall_forall]].
      intros x y Hx [->|Hy]%elem_of_cons; [by apply Hlo|by apply Hab].
Qed.

(** The value that the map has for an address: [m.find(RangeSize(a, 1))->second]. *)
Definition value_at m (a : Z) : option V := i ← find m (RangeSize a 1); x ← m !! i; Some x.2.

Lemma RangeSize_point a : is_u64 a → RangeSize a 1 = point a.
Proof. intros Ha. unfold RangeSize, point. f_equal. ilia. Qed.

(** It is the value of the range that contains the address. *)
Lemma value_at_spec m a v :
  rm_ok m → is_u64 a →
  value_at m a = Some v ↔ ∃ e, (e, v) ∈ m ∧ in_range a e = true.
Proof.
  intros Hok Ha. unfold value_at. rewrite RangeSize_point by done.
  destruct (decide (m = [])) as [->|Hne].
  { cbn. split; [done|]. intros (e & []%elem_of_nil & _). }
  pose proof (find_point m a Hok Hne) as Hf. destruct (find m (point a)) as [i|].
  - destruct Hf as (e & w & Hi & Hin). cbn [mbind option_bind]. rewrite Hi. cbn [mbind option_bind snd]. split.
    + intros [= <-]. exists e. split; [by eapply list_elem_of_lookup_2|done].
    + intros (f & [j Hj]%list_elem_of_lookup & Hfin).
      pose proof (contains_last m a i e w Hok Hi Hin). pose proof (contains_last m a j f v Hok Hj Hfin).
      assert (i = j) as -> by congruence. congruence.
  - split; [done|]. intros (e & He & Hin). rewrite Forall_forall in Hf. specialize (Hf _ He). cbn in Hf. congruence.
Qed.

End RangeMap.

(** Inserting a range that meets no range of the map succeeds and keeps the map
    ordered and disjoint; afterwards the addresses in the range have its value and
    all others the value that they had. *)
Theorem range_map_insert_find {V} (m : list (Range * V)) r v a :
  rm_ok m → r_start r <= r_end r → Forall (λ x, overlaps x.1 r = false) m → is_u64 a →
  ∃ i m', insert m r v = (Some i, m') ∧ m' !! i = Some (r, v) ∧ rm_ok m' ∧
    value_at m' a = if in_range a r then Some v else value_at m a.
Proof.
  intros Hok Hr Hd Ha. destruct (insert_disjoint m r v Hok Hr Hd) as [Hi Hok'].
  set (u := upper_bound m r) in *. eexists u, _. split; [exact Hi|].
  destruct (upper_bound_spec m r Hok) as (Hl & _). fold u in Hl.
  assert (length (take u m) = u) as Hlt by (rewrite length_take; lia).
  split; [by rewrite lookup_app_r, Hlt, Nat.sub_diag by lia|]. split; [done|].
  apply option_eq. intros w. rewrite value_at_spec by done.
  assert (∀ x, x ∈ take u m ++ (r, v) :: drop u m ↔ x = (r, v) ∨ x ∈ m) as Hin.
  { intros x. rewrite <- (take_drop u m) at 3. rewrite !elem_of_app, elem_of_cons. tauto. }
  destruct (in_range a r) eqn:Er.
  - split; [|intros [= <-]; exists r; split; [by apply Hin; left|done]].
    intros (e & [[= -> ->]|He]%Hin & Hae); [done|]. exfalso. rewrite Forall_forall in Hd. specialize (Hd _ He). cbn in Hd.
    unfold overlaps, in_range in *. zbool. rewrite !(proj2 (Z.leb_le _ _)) in Hd by lia. done.
  - rewrite value_at_spec by done. split; intros (e & He & Hae); exists e; (split; [|done]).
    + apply Hin in He as [[= -> ->]|?]; [congruence|done].
    + apply Hin. by right.
Qed.

Lemma range_map_insert_find_witness :
  ∃ i m', insert [(RangeIn 10 40, 5); (RangeIn 60 90, 3)] (RangeIn 0 9) 1 = (Some i, m') ∧
    m' !! i = Some (RangeIn 0 9, 1) ∧ rm_ok m' ∧ value_at m' 9 = Some 1.
Proof.
  apply (range_map_insert_find [(RangeIn 10 40, 5); (RangeIn 60 90, 3)] (RangeIn 0 9) 1 9); try done.
  - split; [by repeat constructor|]. by repeat constructor.
  - by repeat constructor.
Defined.

(** A range that overlaps only ranges that start after it is accepted when some
    range starts before it: [find] tests a single neighbour.  Two values are then
    given for the addresses in the overlap. *)
Theorem range_map_accepts_overlap :
  let m := [(RangeIn 0 9, 1); (RangeIn 20 40, 2)] in
  let r := RangeIn 12 25 in
  rm_ok m ∧ overlaps (RangeIn 20 40) r = true ∧
  insert m r 3 = (Some 1%nat, [(RangeIn 0 9, 1); (r, 3); (RangeIn 20 40, 2)]) ∧
  insert (tail m) r 3 = (None, tail m).
Proof.
  split_and!; try done. split; by repeat constructor.
Qed.
