(* ===== verification/Bridge.v ===== *)
(** A bridge between two buses, [src/m5/src/mem/bridge.hh] and [bridge.cc], with the
    filter of [src/m5/src/base/range_ops.hh].

    A [PacketBuffer] is an object with an address: it is on the queue of a port with its
    address, and once its packet has been sent it is kept in [awaiting] until the response
    comes, which finds it through its sender state.  What is connected to the two sides is
    a parameter; it does not call the bridge before it returns, and a packet that it
    refuses stays as it was.  A failed assertion, a [panic] and the use of an object that
    has been deleted are [None]. *)

From S2P Require Import Prelude Packet PhysMem RangeMap.

(** ** State *)

Record PacketBuffer := mkBuf {
  ready : Z;
  b_pkt : Packet.t;
  nackedHere : bool;
  origSenderState : option nat;
  origSrc : Z;
  expectResponse : bool
}.

Record BridgePort := mkBPort {
  delay : Z;
  nackDelay : Z;
  filterRanges : list Range;
  sendQueue : list (nat * PacketBuffer);
  outstandingResponses : Z;
  queuedRequests : Z;
  inRetry : bool;
  reqQueueLimit : Z;
  respQueueLimit : Z;
  sendEvent : option Z
}.

Inductive Side := SideA | SideB.
#[export] Instance Side_eq_dec : EqDecision Side.
Proof. solve_decision. Defined.
Definition otherSide (s : Side) : Side := match s with SideA => SideB | SideB => SideA end.

Record Bridge := mkBridge {
  portA : BridgePort;
  portB : BridgePort;
  awaiting : gmap nat PacketBuffer
}.

Definition BridgePort_new (delay nackDelay req_limit resp_limit : Z) (filter : list Range) : BridgePort :=
  mkBPort delay nackDelay filter [] 0 0 false req_limit resp_limit None.

Definition Bridge_new (delay nackDelay req_a resp_a req_b resp_b : Z) (filter_a filter_b : list Range) (ackWrites : bool)
    : option Bridge :=
  if ackWrites then None
  else Some (mkBridge (BridgePort_new delay nackDelay req_a resp_a filter_a)
               (BridgePort_new delay nackDelay req_b resp_b filter_b) ∅).

(** [init]: both sides are connected, to buses with the same block size. *)
Definition bridge_init (size_a size_b : option Z) : bool :=
  match size_a, size_b with Some a, Some b => a =? b | _, _ => false end.

Definition get_port (b : Bridge) (s : Side) : BridgePort := match s with SideA => portA b | SideB => portB b end.
Definition set_port (b : Bridge) (s : Side) (p : BridgePort) : Bridge :=
  match s with
  | SideA => mkBridge p (portB b) (awaiting b)
  | SideB => mkBridge (portA b) p (awaiting b)
  end.
Definition set_awaiting (b : Bridge) (m : gmap nat PacketBuffer) : Bridge := mkBridge (portA b) (portB b) m.

Definition with_queue (p : BridgePort) (q : list (nat * PacketBuffer)) (e : option Z) : BridgePort :=
  mkBPort (delay p) (nackDelay p) (filterRanges p) q (outstandingResponses p) (queuedRequests p) (inRetry p)
    (reqQueueLimit p) (respQueueLimit p) e.
Definition with_counts (p : BridgePort) (responses requests : Z) : BridgePort :=
  mkBPort (delay p) (nackDelay p) (filterRanges p) (sendQueue p) responses requests (inRetry p)
    (reqQueueLimit p) (respQueueLimit p) (sendEvent p).
Definition with_inRetry (p : BridgePort) (r : bool) : BridgePort :=
  mkBPort (delay p) (nackDelay p) (filterRanges p) (sendQueue p) (outstandingResponses p) (queuedRequests p) r
    (reqQueueLimit p) (respQueueLimit p) (sendEvent p).

(** An address that no object has. *)
Definition new_buffer (b : Bridge) : nat :=
  fresh (dom (awaiting b) ∪ list_to_set ((sendQueue (portA b)).*1 ++ (sendQueue (portB b)).*1)).

Definition PacketBuffer_new (id : nat) (p : Packet.t) (t : Z) (nack : bool) : option PacketBuffer :=
  src ← (if nack then Packet.getDest p else Packet.getSrc p);
  Some (mkBuf t (if negb (Packet.isResponse p) && negb nack then Packet.set_sender p (Some id) else p) nack
          (Packet.sender p) src (Packet.needsResponse p && negb nack)).

Definition fixResponse (buf : PacketBuffer) (p : Packet.t) : Packet.t :=
  Packet.set_sender (Packet.setDest p (origSrc buf)) (origSenderState buf).

(** [schedule] and [reschedule] of the event of a port: the tick at which it is due. *)
Definition schedule (curTick when : Z) (e : option Z) : option (option Z) :=
  match e with Some _ => None | None => if u64 when <? u64 curTick then None else Some (Some when) end.
Definition reschedule (curTick when : Z) (e : option Z) : option (option Z) :=
  match e with Some _ => if when <? curTick then None else Some (Some when) | None => None end.

(** ** Limits *)

Definition respQueueFull (p : BridgePort) : option bool :=
  if (0 <=? outstandingResponses p) && (outstandingResponses p <=? respQueueLimit p)
  then Some (respQueueLimit p <=? outstandingResponses p) else None.

Definition reqQueueFull (p : BridgePort) : option bool :=
  if (0 <=? queuedRequests p) && (queuedRequests p <=? reqQueueLimit p)
  then Some (reqQueueLimit p <=? queuedRequests p) else None.

(** ** Packets that arrive *)

(** The loop that finds the place of a nack: whether that is the front of the queue. *)
Fixpoint place (t : Z) (x : nat * PacketBuffer) (q : list (nat * PacketBuffer)) : option (bool * list (nat * PacketBuffer)) :=
  match q with
  | [] => None
  | y :: q => if t <? ready y.2 then Some (true, x :: y :: q) else '(_, q) ← place t x q; Some (false, y :: q)
  end.

Definition nackRequest (curTick : Z) (s : Side) (p : Packet.t) (b : Bridge) : option Bridge :=
  let P := get_port b s in
  p ← Packet.makeResponse p;
  p ← Packet.setNacked p;
  let readyTime := s64 (curTick + nackDelay P) in
  let id := new_buffer b in
  buf ← PacketBuffer_new id p readyTime true;
  match last (sendQueue P) with
  | None => e ← schedule curTick readyTime (sendEvent P); Some (set_port b s (with_queue P [(id, buf)] e))
  | Some back =>
      if bool_decide (is_Some (sendEvent P)) || inRetry P then
        if ready back.2 <=? readyTime then Some (set_port b s (with_queue P (sendQueue P ++ [(id, buf)]) (sendEvent P)))
        else
          '(front, q) ← place readyTime (id, buf) (sendQueue P);
          e ← (if (front : bool) then reschedule curTick readyTime (sendEvent P) else Some (sendEvent P));
          Some (set_port b s (with_queue P q e))
      else None
  end.

Definition queueForSendTiming (curTick : Z) (s : Side) (p : Packet.t) (b : Bridge) : option Bridge :=
  '(p, b) ←
    (if Packet.isResponse p then
       id ← Packet.sender p;
       buf ← awaiting b !! id;
       Some (fixResponse buf p, set_awaiting b (delete id (awaiting b)))
     else Some (p, b));
  let P := get_port b s in
  let P := if Packet.isRequest p then with_counts P (outstandingResponses P) (queuedRequests P + 1) else P in
  let readyTime := s64 (curTick + delay P) in
  let id := new_buffer b in
  buf ← PacketBuffer_new id p readyTime false;
  e ← (match sendQueue P with [] => schedule curTick readyTime (sendEvent P) | _ => Some (sendEvent P) end);
  Some (set_port b s (with_queue P (sendQueue P ++ [(id, buf)]) e)).

(** [recvTiming] of the port of side [s], which always accepts. *)
Definition recvTiming (curTick : Z) (s : Side) (p : Packet.t) (b : Bridge) : option Bridge :=
  full ← (if Packet.isRequest p then reqQueueFull (get_port b (otherSide s)) else Some false);
  if (full : bool) then nackRequest curTick s p b
  else if Packet.needsResponse p then
    full ← respQueueFull (get_port b s);
    if (full : bool) then nackRequest curTick s p b
    else
      let P := get_port b s in
      queueForSendTiming curTick (otherSide s) p
        (set_port b s (with_counts P (outstandingResponses P + 1) (queuedRequests P)))
  else queueForSendTiming curTick (otherSide s) p b.

(** ** Packets that leave *)

Section Sending.
Context {D : Type} (bridge_send : Side → Z → Packet.t → D → option (bool * D)).

(** The packet of the first buffer as it is sent: without a sender state when no response
    is expected. *)
Definition outgoing (buf : PacketBuffer) : Packet.t :=
  if Packet.isRequest (b_pkt buf) && negb (expectResponse buf) then Packet.set_sender (b_pkt buf) None else b_pkt buf.

(** The first packet has been taken. *)
Definition sent (curTick : Z) (s : Side) (b : Bridge) : option Bridge :=
  match sendQueue (get_port b s) with
  | [] => None
  | (id, buf) :: q =>
      let b := if expectResponse buf then set_awaiting b (<[id := buf]> (awaiting b)) else b in
      let P := get_port b s in
      let P := if Packet.isRequest (b_pkt buf) then with_counts P (outstandingResponses P) (queuedRequests P - 1)
               else if negb (nackedHere buf) then with_counts P (outstandingResponses P - 1) (queuedRequests P) else P in
      e ← (match q with [] => Some (sendEvent P) | (_, next) :: _ => schedule curTick (Z.max (ready next) (s64 (curTick + 1))) (sendEvent P) end);
      Some (set_port b s (with_queue P q e))
  end.

Definition trySend (curTick : Z) (s : Side) (b : Bridge) (d : D) : option (Bridge * D) :=
  '(_, buf) ← head (sendQueue (get_port b s));
  if ready buf <=? curTick then
    '(success, d) ← bridge_send s curTick (outgoing buf) d;
    if (success : bool) then b ← sent curTick s b; Some (b, d)
    else Some (set_port b s (with_inRetry (get_port b s) true), d)
  else None.

(** [SendEvent::process]; the event is no longer scheduled. *)
Definition processSendEvent (curTick : Z) (s : Side) (b : Bridge) (d : D) : option (Bridge * D) :=
  let P := get_port b s in
  trySend curTick s (set_port b s (with_queue P (sendQueue P) None)) d.

Definition recvRetry (curTick : Z) (s : Side) (b : Bridge) (d : D) : option (Bridge * D) :=
  let P := with_inRetry (get_port b s) false in
  '(_, buf) ← head (sendQueue P);
  if ready buf <=? curTick then trySend curTick s (set_port b s P) d
  else e ← schedule curTick (ready buf) (sendEvent P); Some (set_port b s (with_queue P (sendQueue P) e), d).

End Sending.

(** ** Atomic and functional accesses, and address ranges *)

(** [recvAtomic]: what is behind the bridge answers, and the bridge adds its delay. *)
Definition BridgedPort (delay : Z) (M : AtomicPort) : AtomicPort := {|
  port_state := @port_state M;
  recvAtomic t p m := '(p, l, fin, m) ← @recvAtomic M t p m; Some (p, s64 (delay + l), fin, m)
|}.

(** The packets of a queue hold data. *)
Fixpoint queue_functional (p : Packet.t) (q : list (nat * PacketBuffer)) : option (bool * Packet.t * list (nat * PacketBuffer)) :=
  match q with
  | [] => Some (false, p, [])
  | (id, buf) :: q =>
      '(done, p, o) ← Packet.checkFunctional_pkt p (b_pkt buf);
      let buf := match o with
                 | Some bs => mkBuf (ready buf) (Packet.set_data (b_pkt buf) (Packet.flags (b_pkt buf)) (Some bs)) (nackedHere buf)
                                (origSenderState buf) (origSrc buf) (expectResponse buf)
                 | None => buf
                 end in
      if (done : bool) then Some (true, p, (id, buf) :: q)
      else '(done, p, q) ← queue_functional p q; Some (done, p, (id, buf) :: q)
  end.

(** [recvFunctional] of side [s]: whether the packet has to be sent on through the other
    side. *)
Definition recvFunctional (s : Side) (p : Packet.t) (b : Bridge) : option (bool * Packet.t * Bridge) :=
  let P := get_port b s in
  '(done, p, q) ← queue_functional p (sendQueue P);
  Some (negb done, p, set_port b s (with_queue P q (sendEvent P))).

Definition FilterRangeList (filter_list range_list : list Range) : list Range :=
  foldl (λ l f, filter (λ r, negb (in_range (r_start r) f || in_range (r_end r) f)) l) range_list filter_list.

(** The ranges of side [s], from those of the bus on the other side, and that it does not
    snoop. *)
Definition getDeviceAddressRanges (s : Side) (peer_ranges : list Range) (b : Bridge) : list Range * bool :=
  (FilterRangeList (filterRanges (get_port b s)) peer_ranges, false).

(** ** A memory behind a bridge *)

(** A bridge in atomic mode keeps the promises of the memory behind it. *)
#[export] Instance BridgedPort_bytes dl {M : AtomicPort} (BM : ByteMemory M) : ByteMemory (BridgedPort dl M).
Proof.
  apply (Build_ByteMemory (BridgedPort dl M) (@port_view M BM) (@port_excl M BM)); cbn [recvAtomic BridgedPort].
  - intros t p m a d H1 H2 H3 H4 H5. destruct (@port_read M BM t p m a d H1 H2 H3 H4 H5) as (q & l & f & m' & -> & H).
    by exists q, (s64 (dl + l)), f, m'.
  - intros t p m a d H1 H2 H3 H4 H5. destruct (@port_own M BM t p m a d H1 H2 H3 H4 H5) as (q & l & f & m' & -> & H).
    by exists q, (s64 (dl + l)), f, m'.
  - intros t p m a d H1 H2 H3 H4 H5. destruct (@port_upgrade M BM t p m a d H1 H2 H3 H4 H5) as (q & l & f & m' & -> & H).
    by exists q, (s64 (dl + l)), f, m'.
  - intros t p m a d H1 H2 H3. destruct (@port_writeback M BM t p m a d H1 H2 H3) as (q & l & f & m' & -> & H).
    by exists q, (s64 (dl + l)), f, m'.
  - intros t p m a H1 H2 H3 H4 H5 H6 H7. destruct (@port_inhibited M BM t p m a H1 H2 H3 H4 H5 H6 H7) as (l & f & m' & -> & H).
    by exists (s64 (dl + l)), f, m'.
Defined.

(** A range passes the filter when neither of its ends is in a filter range. *)
Lemma FilterRangeList_spec fs : ∀ rs r,
  r ∈ FilterRangeList fs rs ↔ r ∈ rs ∧ Forall (λ f, in_range (r_start r) f = false ∧ in_range (r_end r) f = false) fs.
Proof.
  induction fs as [|f fs IH]; intros rs r; cbn; [split; [by split|by intros []]|]. fold (FilterRangeList fs).
  unfold FilterRangeList in IH. rewrite IH, list_elem_of_filter, Forall_cons. rewrite Is_true_true, negb_true_iff, orb_false_iff. tauto.
Qed.
