(* ===== verification/BridgeRun.v ===== *)
(** Runs of a bridge ([Bridge]) between two buses that do what they like: what has been
    taken on one side is delivered on the other exactly once and in order, responses find
    their way back, no assertion fails and no wakeup is lost. *)

From S2P Require Import Prelude Packet TPort Bridge.

(** ** What the queues hold *)

Definition is_req (b : PacketBuffer) : bool := Packet.isRequest (b_pkt b).
Definition is_resp (b : PacketBuffer) : bool := negb (is_req b) && negb (nackedHere b).
Notation requests := (filter (λ b, is_req b = true)).
Notation responses := (filter (λ b, is_resp b = true)).
Notation nacks := (filter (λ b, nackedHere b = true)).
Definition queue (b : Bridge) (s : Side) : list PacketBuffer := (sendQueue (get_port b s)).*2.

(** A request whatever its sender state, the nack of a request, and the response that its
    sender gets. *)
Definition strip (p : Packet.t) : Packet.t := Packet.set_sender p None.
Definition nack_of (p : Packet.t) : option Packet.t := p ← Packet.makeResponse p; Packet.setNacked p.
Definition restore (r p : Packet.t) : Packet.t := Packet.set_sender (Packet.setDest p (Packet.src r)) (Packet.sender r).

(** A request that the bridge has no room for. *)
Definition refuses (b : Bridge) (s : Side) (p : Packet.t) : bool :=
  (reqQueueLimit (get_port b (otherSide s)) <=? queuedRequests (get_port b (otherSide s))) ||
  (Packet.needsResponse p && (respQueueLimit (get_port b s) <=? outstandingResponses (get_port b s))).

(** The event of a port, or the retry that it waits for. *)
Definition wake (now : Z) (P : BridgePort) : Prop :=
  Forall (λ x, 0 <= ready x.2 < 2 ^ 62 + 2 ^ 32) (sendQueue P) ∧
  match sendQueue P with
  | [] => sendEvent P = None ∧ inRetry P = false
  | (_, buf) :: _ =>
      if inRetry P then sendEvent P = None ∧ ready buf <= now
      else ∃ u, sendEvent P = Some u ∧ now <= u ∧ ready buf <= u
  end.

Definition limits_ok (P : BridgePort) : Prop :=
  0 <= delay P < 2 ^ 32 ∧ 0 <= nackDelay P < 2 ^ 32 ∧ 0 <= queuedRequests P <= reqQueueLimit P ∧
  0 <= outstandingResponses P <= respQueueLimit P.

Lemma later_small now d : early now → 0 <= d < 2 ^ 32 → s64 (now + d) = now + d ∧ 0 <= now + d < 2 ^ 62 + 2 ^ 32.
Proof. unfold early. intros. rewrite s64_small by (unfold is_s64; lia). lia. Qed.

Lemma schedule_later now t : early now → now <= t < 2 ^ 62 + 2 ^ 32 → schedule now t None = Some (Some t).
Proof.
  unfold early, schedule. intros. rewrite (proj2 (Z.ltb_ge _ _)); [done|]. rewrite !u64_small by (unfold is_u64; lia). lia.
Qed.

Lemma place_spec t x q fr q' : place t x q = Some (fr, q') →
  ∃ q1 q2, q = q1 ++ q2 ∧ q' = q1 ++ x :: q2 ∧ if fr then q1 = [] ∧ (∀ y, head q = Some y → t < ready y.2) else q1 ≠ [].
Proof.
  revert fr q'. induction q as [|y q IH]; intros fr q'; cbn; [done|]. destruct (t <? ready y.2) eqn:El.
  - intros [= <- <-]. exists [], (y :: q). split_and!; try done. intros ? [= <-]. by zbool.
  - obind [[f2 q2]|] Ep. intros [= <- <-]. destruct (IH _ _ eq_refl) as (q1 & q3 & -> & -> & _). by exists (y :: q1), q3.
Qed.

Lemma place_total t x q : (∃ y, last q = Some y ∧ t < ready y.2) → is_Some (place t x q).
Proof.
  intros (y & Hl & Ht). induction q as [|z q IH]; [done|]. cbn. destruct (t <? ready z.2) eqn:El; [done|].
  destruct q as [|w q]; [cbn in Hl; injection Hl as ->; zbool; lia|]. destruct IH as [[f r] ->]; [done|]. done.
Qed.

(** ** The operations *)

(** A nack takes its place in the queue, behind what is older. *)
Lemma nackRequest_spec now s p b n :
  early now → wake now (get_port b s) → limits_ok (get_port b s) → nack_of p = Some n → is_Some (Packet.getDest n) →
  ∃ q1 q2 e buf, sendQueue (get_port b s) = q1 ++ q2 ∧ b_pkt buf = n ∧ nackedHere buf = true ∧ expectResponse buf = false ∧
    nackRequest now s p b = Some (set_port b s (with_queue (get_port b s) (q1 ++ (new_buffer b, buf) :: q2) e)) ∧
    wake now (with_queue (get_port b s) (q1 ++ (new_buffer b, buf) :: q2) e).
Proof.
  intros Hn [Hr Hw] (_ & Hd & _) Hp [dst Hdst]. unfold nackRequest. set (P := get_port b s) in *. unfold nack_of in Hp. revert Hp.
  obind [p1|]. intros ->. cbn [mbind option_bind]. destruct (later_small now (nackDelay P) Hn Hd) as [-> Ht].
  unfold PacketBuffer_new. rewrite Hdst. cbn [mbind option_bind]. rewrite andb_false_r. rewrite andb_false_r.
  set (buf := mkBuf _ _ _ _ _ _). set (t := now + nackDelay P) in *. assert (ready buf = t) as Hb by done.
  assert (∀ q1 q2, sendQueue P = q1 ++ q2 → Forall (λ x, 0 <= ready x.2 < 2 ^ 62 + 2 ^ 32) (q1 ++ (new_buffer b, buf) :: q2)) as Hall.
  { intros q1 q2 Eq. rewrite Eq in Hr. apply Forall_app in Hr as [? ?]. apply Forall_app. split; [done|]. by constructor. }
  destruct (last (sendQueue P)) as [back|] eqn:El.
  2:{ apply last_None in El. rewrite El in Hw. destruct Hw as [He Hi]. rewrite He, schedule_later by (done || (unfold t; lia)).
      exists [], [], (Some t), buf. split_and!; try done. split; [by apply Hall|]. cbn. rewrite Hi. exists t. split_and!; [done|unfold t; lia|apply Z.le_refl]. }
  destruct (sendQueue P) as [|[i0 b0] q] eqn:Eq; [done|].
  assert (bool_decide (is_Some (sendEvent P)) || inRetry P = true) as ->.
  { destruct (inRetry P); [by rewrite orb_true_r|]. destruct Hw as (u & -> & _). by rewrite bool_decide_eq_true_2. }
  destruct (ready back.2 <=? t) eqn:Eb; zbool.
  - exists ((i0, b0) :: q), [], (sendEvent P), buf. rewrite app_nil_r. split_and!; try done. split; [apply Hall; by rewrite app_nil_r|done].
  - destruct (place_total t (new_buffer b, buf) ((i0, b0) :: q)) as [[fr q'] Ep]; [by exists back|]. rewrite Ep. cbn [mbind option_bind].
    apply place_spec in Ep as (q1 & q2 & Eqq & -> & Hfr). destruct fr.
    + destruct Hfr as [-> Hh]. specialize (Hh _ eq_refl). cbn in Hh. destruct (inRetry P) eqn:Ei; [unfold t in Hh; lia|].
      destruct Hw as (u & -> & Hu). unfold reschedule. rewrite (proj2 (Z.ltb_ge _ _)) by (unfold t; lia). cbn [mbind option_bind].
      exists [], q2, (Some t), buf. split_and!; try done. split; [by apply Hall|]. cbn. rewrite Ei. exists t. split_and!; [done|unfold t; lia|apply Z.le_refl].
    + exists q1, q2, (sendEvent P), buf. split_and!; try done. split; [by apply Hall|]. destruct q1 as [|y q1]; [done|].
      cbn in Eqq. injection Eqq as <- _. done.
Qed.

(** A packet is queued behind all others. *)
Definition enqueue (now : Z) (s : Side) (p : Packet.t) (b : Bridge) : option Bridge :=
  let P := get_port b s in
  let P := if Packet.isRequest p then with_counts P (outstandingResponses P) (queuedRequests P + 1) else P in
  let readyTime := s64 (now + delay P) in
  let id := new_buffer b in
  buf ← PacketBuffer_new id p readyTime false;
  e ← (match sendQueue P with [] => schedule now readyTime (sendEvent P) | _ => Some (sendEvent P) end);
  Some (set_port b s (with_queue P (sendQueue P ++ [(id, buf)]) e)).

Lemma enqueue_spec now s p b src :
  early now → wake now (get_port b s) → limits_ok (get_port b s) → Packet.getSrc p = Some src →
  let P := get_port b s in
  let P := if Packet.isRequest p then with_counts P (outstandingResponses P) (queuedRequests P + 1) else P in
  let buf := mkBuf (now + delay P) (if Packet.isResponse p then p else Packet.set_sender p (Some (new_buffer b))) false
               (Packet.sender p) src (Packet.needsResponse p) in
  ∃ e, enqueue now s p b = Some (set_port b s (with_queue P (sendQueue P ++ [(new_buffer b, buf)]) e)) ∧
    wake now (with_queue P (sendQueue P ++ [(new_buffer b, buf)]) e).
Proof.
  intros Hn Hw Hl Hs. cbv zeta. unfold enqueue. set (P := if Packet.isRequest p then _ else _).
  assert (wake now P ∧ 0 <= delay P < 2 ^ 32) as [[Hr Hq] Hd] by (unfold P; destruct (Packet.isRequest p); (split; [done|apply Hl])).
  destruct (later_small now (delay P) Hn Hd) as [-> Ht]. unfold PacketBuffer_new. rewrite Hs. cbn [mbind option_bind negb].
  rewrite !andb_true_r. assert ((if negb (Packet.isResponse p) then Packet.set_sender p (Some (new_buffer b)) else p) =
    (if Packet.isResponse p then p else Packet.set_sender p (Some (new_buffer b)))) as -> by (by destruct (Packet.isResponse p)).
  assert (∀ x, ready x.2 = now + delay P → Forall (λ x, 0 <= ready x.2 < 2 ^ 62 + 2 ^ 32) (sendQueue P ++ [x])) as Hall.
  { intros x Ex. apply Forall_app. split; [done|]. constructor; [by rewrite Ex|done]. }
  unfold wake. cbn [sendQueue with_queue inRetry sendEvent]. destruct (sendQueue P) as [|[i0 b0] q].
  - destruct Hq as [-> ->]. rewrite schedule_later by (done || lia). eexists. split; [done|]. split; [by apply Hall|]. exists (now + delay P). cbn. split_and!; [done|lia|lia].
  - eexists. split; [done|]. split; [by apply Hall|done].
Qed.

Lemma get_set b s P : get_port (set_port b s P) s = P.
Proof. by destruct s. Qed.

Lemma get_set_other b s P : get_port (set_port b s P) (otherSide s) = get_port b (otherSide s).
Proof. by destruct s. Qed.

Lemma get_set_this b s P : get_port (set_port b (otherSide s) P) s = get_port b s.
Proof. by destruct s. Qed.

Lemma other_other s : otherSide (otherSide s) = s.
Proof. by destruct s. Qed.

(** A request is refused or queued on the other side. *)
Lemma recvTiming_request now s p b :
  Packet.isRequest p = true → Packet.isResponse p = false → (∀ s, limits_ok (get_port b s)) →
  recvTiming now s p b =
    if refuses b s p then nackRequest now s p b
    else enqueue now (otherSide s) p
           (if Packet.needsResponse p
            then set_port b s (with_counts (get_port b s) (outstandingResponses (get_port b s) + 1) (queuedRequests (get_port b s)))
            else b).
Proof.
  intros Hr Hp Hl. unfold recvTiming, refuses, reqQueueFull, respQueueFull. rewrite Hr.
  destruct (Hl s) as (_ & _ & _ & H1). destruct (Hl (otherSide s)) as (_ & _ & H2 & _).
  rewrite !(proj2 (Z.leb_le 0 _)), (proj2 (Z.leb_le (queuedRequests _) _)), (proj2 (Z.leb_le (outstandingResponses _) _)) by lia.
  cbn [andb mbind option_bind]. destruct (_ <=? queuedRequests _); [done|]. cbn [orb].
  unfold queueForSendTiming. rewrite Hp. cbn [mbind option_bind].
  destruct (Packet.needsResponse p); [|done]. cbn [andb mbind option_bind]. by destruct (_ <=? _).
Qed.

Lemma recvTiming_response now s p b :
  Packet.isRequest p = false → Packet.isResponse p = true → Packet.needsResponse p = false →
  recvTiming now s p b =
    (id ← Packet.sender p; buf ← awaiting b !! id;
     enqueue now (otherSide s) (fixResponse buf p) (set_awaiting b (delete id (awaiting b)))).
Proof.
  intros Hr Hp Hn. unfold recvTiming. rewrite Hr, Hn. cbn [mbind option_bind]. unfold queueForSendTiming. rewrite Hp.
  destruct (Packet.sender p) as [id|]; [|done]. cbn [mbind option_bind]. by destruct (awaiting b !! id).
Qed.

(** The first packet has left. *)
Definition released (s : Side) (b : Bridge) (id : nat) (buf : PacketBuffer) (q : list (nat * PacketBuffer)) (e : option Z) : Bridge :=
  let b := if expectResponse buf then set_awaiting b (<[id := buf]> (awaiting b)) else b in
  let P := get_port b s in
  let P := if is_req buf then with_counts P (outstandingResponses P) (queuedRequests P - 1)
           else if negb (nackedHere buf) then with_counts P (outstandingResponses P - 1) (queuedRequests P) else P in
  set_port b s (with_queue P q e).

Lemma get_awaiting b m s : get_port (set_awaiting b m) s = get_port b s.
Proof. by destruct s. Qed.

Lemma wake_counts now P o r : wake now P → wake now (with_counts P o r).
Proof. done. Qed.

Lemma sent_spec now s b id buf q :
  early now → sendQueue (get_port b s) = (id, buf) :: q → sendEvent (get_port b s) = None → inRetry (get_port b s) = false →
  Forall (λ x, 0 <= ready x.2 < 2 ^ 62 + 2 ^ 32) (sendQueue (get_port b s)) →
  ∃ e, sent now s b = Some (released s b id buf q e) ∧ wake now (get_port (released s b id buf q e) s).
Proof.
  intros Hn Eq He Hi Hr. unfold sent, released. rewrite Eq in *. apply Forall_cons in Hr as [_ Hr]. cbv zeta.
  assert (get_port (if expectResponse buf then set_awaiting b (<[id := buf]> (awaiting b)) else b) s = get_port b s) as ->
    by (destruct (expectResponse buf); [apply get_awaiting|done]).
  fold (is_req buf). set (P := if is_req buf then _ else _).
  assert (sendEvent P = None ∧ inRetry P = false) as [He' Hi'] by (unfold P; destruct (is_req buf), (negb (nackedHere buf)); done).
  rewrite He'. destruct q as [|[i2 b2] q].
  - exists None. split; [done|]. rewrite get_set. by split.
  - apply Forall_cons in Hr as [Hb Hr]. cbn in Hb. unfold early in Hn.
    rewrite s64_small by (unfold is_s64; lia). rewrite schedule_later by (unfold early; lia). eexists. split; [done|]. rewrite get_set.
    split; [by constructor|]. cbn. rewrite Hi'. eexists. split; [done|]. lia.
Qed.

Section Run.
Context {D : Type} (bridge_send : Side → Z → Packet.t → D → option (bool * D)).

(** What the event and a retry do. *)
Lemma wake_send now s b d id buf q :
  early now → wake now (get_port b s) → sendQueue (get_port b s) = (id, buf) :: q →
  (sendEvent (get_port b s) = Some now → ∃ e,
     let P := with_queue (get_port b s) ((id, buf) :: q) None in
     processSendEvent bridge_send now s b d =
       ('(ok, d) ← bridge_send s now (outgoing buf) d;
        Some (if (ok : bool) then released s (set_port b s P) id buf q e else set_port b s (with_inRetry P true), d)) ∧
     wake now (get_port (released s (set_port b s P) id buf q e) s) ∧ wake now (with_inRetry P true)) ∧
  (inRetry (get_port b s) = true → ∃ e,
     let P := with_inRetry (get_port b s) false in
     recvRetry bridge_send now s b d =
       ('(ok, d) ← bridge_send s now (outgoing buf) d;
        Some (if (ok : bool) then released s (set_port b s P) id buf q e else set_port b s (with_inRetry P true), d)) ∧
     wake now (get_port (released s (set_port b s P) id buf q e) s) ∧ wake now (with_inRetry P true)).
Proof.
  intros Hn [Hr Hw] Eq. rewrite Eq in Hw. split.
  - intros He. destruct (inRetry (get_port b s)) eqn:Ei; [destruct Hw as [? _]; congruence|]. destruct Hw as (u & Hu & _ & Hb).
    rewrite He in Hu. injection Hu as <-. unfold processSendEvent. rewrite Eq. set (P := with_queue _ _ None).
    destruct (sent_spec now s (set_port b s P) id buf q) as (e & Es & Hws); rewrite ?get_set; try done; [cbn; by rewrite <- Eq|].
    exists e. cbv zeta. split_and!; [|done|].
    + unfold trySend. rewrite get_set. cbn [sendQueue P with_queue head mbind option_bind]. rewrite (proj2 (Z.leb_le _ _)) by done.
      destruct (bridge_send s now (outgoing buf) d) as [[[] d1]|]; cbn [mbind option_bind]; [by rewrite Es| |done].
      destruct s; done.
    + split; [cbn; by rewrite <- Eq|]. done.
  - intros Ei. rewrite Ei in Hw. destruct Hw as [He Hb]. unfold recvRetry. set (P := with_inRetry _ false).
    assert (sendQueue P = (id, buf) :: q) as Eq' by done.
    destruct (sent_spec now s (set_port b s P) id buf q) as (e & Es & Hws); rewrite ?get_set; try done.
    exists e. cbv zeta. split_and!; [|done|].
    + rewrite Eq'. cbn [head mbind option_bind]. rewrite (proj2 (Z.leb_le _ _)) by done. unfold trySend. rewrite get_set, Eq'.
      cbn [head mbind option_bind]. rewrite (proj2 (Z.leb_le _ _)) by done.
      destruct (bridge_send s now (outgoing buf) d) as [[[] d1]|]; cbn [mbind option_bind]; [by rewrite Es| |done].
      destruct s; done.
    + split; [done|]. cbn. by rewrite Eq.
Qed.

(** ** Runs *)

(** What has happened on a side: the requests that were taken and that were refused, the
    responses that are to be delivered to it, and what has been delivered. *)
Record Log := mkLog {
  lg_taken : list Packet.t;
  lg_refused : list Packet.t;
  lg_answers : list Packet.t;
  lg_out : list PacketBuffer
}.
Definition add_taken (p : Packet.t) (l : Log) : Log := mkLog (lg_taken l ++ [p]) (lg_refused l) (lg_answers l) (lg_out l).
Definition add_refused (p : Packet.t) (l : Log) : Log := mkLog (lg_taken l) (lg_refused l ++ [p]) (lg_answers l) (lg_out l).
Definition add_answer (p : Packet.t) (l : Log) : Log := mkLog (lg_taken l) (lg_refused l) (lg_answers l ++ [p]) (lg_out l).
Definition add_out (x : PacketBuffer) (l : Log) : Log := mkLog (lg_taken l) (lg_refused l) (lg_answers l) (lg_out l ++ [x]).
Definition upd_log (f : Side → Log) (s : Side) (g : Log → Log) : Side → Log :=
  λ s', match s, s' with SideA, SideA | SideB, SideB => g (f s') | _, _ => f s' end.

(** The requests that wait for a response, with the side that they came from. *)
Record BRun := mkBRun {
  br_now : Z;
  br_bridge : Bridge;
  br_dev : D;
  br_logs : Side → Log;
  br_open : gmap nat (Side * Packet.t)
}.

Inductive br_step : BRun → BRun → Prop :=
  | br_time t t' b d l o :
      t <= t' → early t' → (∀ s u, sendEvent (get_port b s) = Some u → t' <= u) → br_step (mkBRun t b d l o) (mkBRun t' b d l o)
  | br_request t b d l o s p b' :
      Packet.isRequest p = true → recvTiming t s p b = Some b' →
      br_step (mkBRun t b d l o)
        (if refuses b s p then mkBRun t b' d (upd_log l s (add_refused p)) o
         else mkBRun t b' d (upd_log l s (add_taken p)) (if Packet.needsResponse p then <[new_buffer b := (s, p)]> o else o))
  (* the response to a request that has been delivered on this side *)
  | br_response t b d l o s p id r b' :
      Packet.isResponse p = true → Packet.sender p = Some id → o !! id = Some (otherSide s, r) → recvTiming t s p b = Some b' →
      br_step (mkBRun t b d l o) (mkBRun t b' d (upd_log l (otherSide s) (add_answer (restore r p))) (delete id o))
  | br_send t b d l o s b' d' buf ok :
      sendEvent (get_port b s) = Some t ∧ processSendEvent bridge_send t s b d = Some (b', d') ∨
        inRetry (get_port b s) = true ∧ recvRetry bridge_send t s b d = Some (b', d') →
      head (queue b s) = Some buf → bridge_send s t (outgoing buf) d = Some (ok, d') →
      br_step (mkBRun t b d l o) (mkBRun t b' d' (if (ok : bool) then upd_log l s (add_out buf) else l) o)
  (* a functional access that changes no data in the queue *)
  | br_functional t b d l o s p more p' b' :
      recvFunctional s p b = Some (more, p', b') → sendQueue (get_port b' s) = sendQueue (get_port b s) →
      br_step (mkBRun t b d l o) (mkBRun t b' d l o)
  | br_device t b d d' l o : br_step (mkBRun t b d l o) (mkBRun t b d' l o).

(** ** The invariant *)

Definition open_from (s : Side) (o : gmap nat (Side * Packet.t)) : gmap nat (Side * Packet.t) := filter (λ x, x.2.1 = s) o.
Definition known (buf : PacketBuffer) (r : Packet.t) : Prop :=
  Packet.getSrc r = Some (origSrc buf) ∧ origSenderState buf = Packet.sender r.
Definition ids (b : Bridge) : list nat := (sendQueue (portA b)).*1 ++ (sendQueue (portB b)).*1.
Definition expecting (l : list Packet.t) : list Packet.t := filter (λ p, Packet.needsResponse p = true) l.

(** The objects: who waits for what. *)
Record objects (b : Bridge) (o : gmap nat (Side * Packet.t)) : Prop := {
  ob_await id buf : awaiting b !! id = Some buf → ∃ s r, o !! id = Some (s, r) ∧ known buf r;
  ob_queue s id buf : (id, buf) ∈ sendQueue (get_port b s) → expectResponse buf = true →
    is_req buf = true ∧ ∃ r, o !! id = Some (otherSide s, r) ∧ known buf r;
  ob_dom id : is_Some (o !! id) → is_Some (awaiting b !! id) ∨ ∃ s buf, (id, buf) ∈ sendQueue (get_port b s) ∧ expectResponse buf = true;
  ob_nodup : NoDup (ids b);
  ob_apart id : id ∈ ids b → awaiting b !! id = None
}.

(** What has been taken is on its way or has been delivered. *)
Record flows (b : Bridge) (l : Side → Log) (o : gmap nat (Side * Packet.t)) (s : Side) : Prop := {
  fw_count : queuedRequests (get_port b s) = Z.of_nat (length (requests (queue b s)));
  fw_requests : (strip ∘ b_pkt) <$> (requests (lg_out (l (otherSide s))) ++ requests (queue b (otherSide s))) = strip <$> lg_taken (l s);
  fw_responses : b_pkt <$> (responses (lg_out (l s)) ++ responses (queue b s)) = lg_answers (l s);
  fw_nacks : (Some ∘ b_pkt) <$> (nacks (lg_out (l s)) ++ nacks (queue b s)) ≡ₚ nack_of <$> lg_refused (l s);
  fw_open : length (expecting (lg_taken (l s))) = (size (open_from s o) + length (lg_answers (l s)))%nat;
  fw_outstanding : outstandingResponses (get_port b s) = Z.of_nat (size (open_from s o) + length (responses (queue b s)))
}.

Record br_ok (x : BRun) : Prop := {
  bo_now : early (br_now x);
  bo_limits s : limits_ok (get_port (br_bridge x) s);
  bo_wake s : wake (br_now x) (get_port (br_bridge x) s);
  bo_flows s : flows (br_bridge x) (br_logs x) (br_open x) s;
  bo_objects : objects (br_bridge x) (br_open x)
}.

Lemma new_buffer_fresh b : awaiting b !! new_buffer b = None ∧ new_buffer b ∉ ids b.
Proof.
  pose proof (is_fresh (dom (awaiting b) ∪ list_to_set (ids b))) as H. change (fresh _) with (new_buffer b) in H.
  apply not_elem_of_union in H as [H1 H2]. split; [by apply not_elem_of_dom|]. by rewrite elem_of_list_to_set in H2.
Qed.

Lemma request_kinds p : Packet.isRequest p = true → Packet.isResponse p = false.
Proof. unfold Packet.isRequest, Packet.isResponse. by destruct (Packet.cmd p). Qed.

Lemma response_kinds p : Packet.isResponse p = true → Packet.isRequest p = false ∧ Packet.needsResponse p = false.
Proof. unfold Packet.isRequest, Packet.isResponse, Packet.needsResponse. by destruct (Packet.cmd p). Qed.

Lemma nack_kind p n : nack_of p = Some n → Packet.cmd n = NetworkNackError.
Proof. unfold nack_of, Packet.setNacked. obind [p1|]. destruct (Packet.isResponse p1); [|done]. by intros [= <-]. Qed.

(** The objects of a queue with one more. *)
Lemma objects_insert b o o' s q1 q2 buf e P :
  objects b o → sendQueue (get_port b s) = q1 ++ q2 → (∀ id, id ≠ new_buffer b → o' !! id = o !! id) →
  (is_Some (o' !! new_buffer b) → expectResponse buf = true) →
  (expectResponse buf = true → is_req buf = true ∧ ∃ r, o' !! new_buffer b = Some (otherSide s, r) ∧ known buf r) →
  objects (set_port b s (with_queue P (q1 ++ (new_buffer b, buf) :: q2) e)) o'.
Proof.
  intros [O1 O2 O3 O4 O5] Eq Ho Hnew He. destruct (new_buffer_fresh b) as [F1 F2]. set (b' := set_port _ _ _).
  assert (ids b' ≡ₚ new_buffer b :: ids b ∧ awaiting b' = awaiting b) as [Hi Ha].
  { unfold ids, b'. destruct s; cbn in *; rewrite Eq, !fmap_app, fmap_cons; cbn; split; try done; solve_Permutation. }
  assert (∀ s' i x, (i, x) ∈ sendQueue (get_port b s') → i ∈ ids b) as Hin.
  { intros s' i x Hx. unfold ids. apply elem_of_app. destruct s'; [left|right]; by apply (list_elem_of_fmap_2 fst _ (i, x)). }
  split.
  - rewrite Ha. intros i x Hx. rewrite Ho by congruence. by apply O1.
  - intros s' i x Hx Hex.
    assert ((s' = s ∧ i = new_buffer b ∧ x = buf) ∨ (i, x) ∈ sendQueue (get_port b s')) as [(-> & -> & ->)|Hx']; [|by apply He|].
    { unfold b' in Hx. destruct s, s'; cbn in *; auto; rewrite Eq; apply elem_of_app in Hx as [Hx|[[= -> ->]|Hx]%elem_of_cons];
        rewrite elem_of_app; auto. }
    rewrite Ho; [by apply O2|]. intros ->. by apply Hin in Hx'.
  - intros i Hx. rewrite Ha. destruct (decide (i = new_buffer b)) as [->|Hne].
    + right. exists s, buf. split; [unfold b'; rewrite get_set; apply elem_of_app; right; by left|by apply Hnew].
    + rewrite Ho in Hx by done. destruct (O3 i Hx) as [|(s' & x & Hq & Hex)]; [by left|right]. exists s', x. split; [|done].
      unfold b'. destruct s, s'; cbn in *; auto; rewrite Eq in Hq; apply elem_of_app in Hq as [|]; apply elem_of_app; rewrite ?elem_of_cons; auto.
  - rewrite Hi. by constructor.
  - intros i. rewrite Hi, Ha. intros [->|Hx]%elem_of_cons; [done|by apply O5].
Qed.

(** A response has come. *)
Lemma objects_answer b o id buf : objects b o → awaiting b !! id = Some buf →
  objects (set_awaiting b (delete id (awaiting b))) (delete id o).
Proof.
  intros [O1 O2 O3 O4 O5] Hid. assert (id ∉ ids b) as Hni by (intros H%O5; congruence). split.
  - intros i x. cbn. intros [Hne Hx]%lookup_delete_Some. rewrite lookup_delete_ne by done. by apply O1.
  - intros s i x. rewrite get_awaiting. intros Hx He. destruct (O2 s i x Hx He) as (? & r & ? & ?). split; [done|]. exists r.
    rewrite lookup_delete_ne; [done|]. intros <-. apply Hni. unfold ids. apply elem_of_app.
    destruct s; [left|right]; by apply (list_elem_of_fmap_2 fst _ (id, x)).
  - intros i. cbn. destruct (decide (i = id)) as [->|Hne]; [rewrite lookup_delete_eq; by intros []|].
    rewrite !lookup_delete_ne by done. apply O3.
  - done.
  - intros i Hi. cbn. apply lookup_delete_None. right. by apply O5.
Qed.

(** The first packet of a queue has been sent. *)
Lemma objects_release b o s id buf q e :
  objects b o → sendQueue (get_port b s) = (id, buf) :: q → objects (released s b id buf q e) o.
Proof.
  intros [O1 O2 O3 O4 O5] Eq. set (b' := released s b id buf q e).
  assert (ids b ≡ₚ id :: ids b' ∧ awaiting b' = (if expectResponse buf then <[id := buf]> (awaiting b) else awaiting b) ∧
    (∀ s' x, x ∈ sendQueue (get_port b' s') → x ∈ sendQueue (get_port b s'))) as (Hi & Ha & Hq).
  { unfold b', released, ids. destruct (expectResponse buf), (is_req buf), (negb (nackedHere buf)), s; cbn in *; rewrite Eq; cbn;
      (split_and!; [solve_Permutation|done|intros [] x Hx; [..|done] || (intros [] x Hx; [done|..]); cbn in *; rewrite ?Eq; by try right]). }
  rewrite Hi in O4. apply NoDup_cons in O4 as [N1 N2].
  assert ((id, buf) ∈ sendQueue (get_port b s)) as Hin by (rewrite Eq; by left).
  split.
  - rewrite Ha. destruct (expectResponse buf) eqn:Ee; [|apply O1]. intros i x [[<- <-]|[Hne Hx]]%lookup_insert_Some; [|by apply O1].
    destruct (O2 s id buf Hin Ee) as (_ & r & ? & ?). by exists (otherSide s), r.
  - intros s' i x Hx. by apply O2, Hq.
  - intros i Hx. destruct (O3 i Hx) as [Hs|Hs].
    + left. rewrite Ha. destruct (expectResponse buf); [|done]. by apply lookup_insert_is_Some'; right.
    + destruct Hs as (s' & x & Hq' & Hex).
      assert ((i = id ∧ x = buf) ∨ (i, x) ∈ sendQueue (get_port b' s')) as [[-> ->]|Hb]; [|left|right; by exists s', x].
      { destruct (decide (s' = s)) as [->|Hne].
        - rewrite Eq in Hq'. apply elem_of_cons in Hq' as [[= -> ->]|Hq']; [by left|right]. unfold b', released. by rewrite get_set.
        - right. unfold b', released. assert (s' = otherSide s) as -> by (by destruct s, s'). rewrite get_set_other.
          by destruct (expectResponse buf); [rewrite get_awaiting|]. }
      rewrite Ha, Hex, lookup_insert_eq. done.
  - done.
  - intros i Hx. rewrite Ha. assert (awaiting b !! i = None) as Hn by (apply O5; rewrite Hi; by right).
    destruct (expectResponse buf); [|done]. rewrite lookup_insert_ne; [done|]. by intros ->.
Qed.

(** *** What flows *)

Lemma upd_same l s g : upd_log l s g s = g (l s).
Proof. by destruct s. Qed.
Lemma upd_other l s g : upd_log l s g (otherSide s) = l (otherSide s).
Proof. by destruct s. Qed.
Lemma two_sides s s' : s' = s ∨ s' = otherSide s.
Proof. destruct s, s'; auto. Qed.

Lemma filter_moved (f : PacketBuffer → bool) l x q :
  filter (λ y, f y = true) (l ++ [x]) ++ filter (λ y, f y = true) q = filter (λ y, f y = true) l ++ filter (λ y, f y = true) (x :: q).
Proof. rewrite filter_app, <- app_assoc. f_equal. rewrite !filter_cons. by destruct (decide _). Qed.

Lemma filter_in (f : PacketBuffer → bool) q1 x q2 :
  filter (λ y, f y = true) (q1 ++ x :: q2) = filter (λ y, f y = true) q1 ++ (if f x then [x] else []) ++ filter (λ y, f y = true) q2.
Proof. rewrite filter_app, filter_cons. f_equal. by destruct (f x). Qed.

Lemma flows_nack b l o s q1 q2 id buf e p :
  (∀ s, flows b l o s) → sendQueue (get_port b s) = q1 ++ q2 → nack_of p = Some (b_pkt buf) → nackedHere buf = true →
  ∀ s', flows (set_port b s (with_queue (get_port b s) (q1 ++ (id, buf) :: q2) e)) (upd_log l s (add_refused p)) o s'.
Proof.
  intros Hf Eq Hn Hh s'.
  assert (is_req buf = false) as Hr by (unfold is_req, Packet.isRequest; by rewrite (nack_kind _ _ Hn)).
  assert (is_resp buf = false) as Hp by (unfold is_resp; by rewrite Hh, andb_false_r).
  assert (queue b s = q1.*2 ++ q2.*2) as Q by (unfold queue; by rewrite Eq, fmap_app).
  set (b' := set_port _ _ _).
  assert (queue b' s = q1.*2 ++ buf :: q2.*2) as Q' by (unfold queue, b'; by rewrite get_set; cbn; rewrite fmap_app).
  assert (queue b' (otherSide s) = queue b (otherSide s)) as Qo by (unfold queue, b'; by rewrite get_set_other).
  assert (requests (queue b' s) = requests (queue b s)) as R1 by (by rewrite Q, Q', filter_in, Hr, filter_app).
  assert (responses (queue b' s) = responses (queue b s)) as R2 by (by rewrite Q, Q', filter_in, Hp, filter_app).
  destruct (two_sides s s') as [->| ->].
  - destruct (Hf s) as [F1 F2 F3 F4 F5 F6]. split; rewrite ?upd_same, ?upd_other, ?Qo, ?R1, ?R2; try done.
    + unfold b'. by rewrite get_set.
    + cbn [add_refused lg_refused lg_out]. rewrite (fmap_app nack_of), <- F4, Q, Q', filter_in, Hh, filter_app, !fmap_app. cbn. rewrite Hn. solve_Permutation.
    + unfold b'. by rewrite get_set.
  - destruct (Hf (otherSide s)) as [F1 F2 F3 F4 F5 F6]. rewrite other_other in F2.
    split; rewrite ?other_other, ?upd_same, ?upd_other, ?Qo, ?R1, ?R2; try done; unfold b'; by rewrite get_set_other.
Qed.

Lemma other_ne s : otherSide s ≠ s.
Proof. by destruct s. Qed.

Lemma open_insert (o : gmap nat (Side * Packet.t)) id s p : o !! id = None →
  size (open_from s (<[id := (s, p)]> o)) = S (size (open_from s o)) ∧ open_from (otherSide s) (<[id := (s, p)]> o) = open_from (otherSide s) o.
Proof.
  intros Hn. unfold open_from. split.
  - rewrite map_filter_insert_True by done. rewrite map_size_insert_None; [done|]. apply map_lookup_filter_None. by left.
  - rewrite map_filter_insert_False by (cbn; intros H; by apply (other_ne s)). by rewrite delete_id.
Qed.

Lemma open_delete (o : gmap nat (Side * Packet.t)) id s r : o !! id = Some (s, r) →
  size (open_from s o) = S (size (open_from s (delete id o))) ∧ open_from (otherSide s) (delete id o) = open_from (otherSide s) o.
Proof.
  intros Hs. destruct (open_insert (delete id o) id s r) as [H1 H2]; [apply lookup_delete_eq|].
  rewrite (insert_delete_id o id (s, r)) in H1, H2 by done. by rewrite H1, H2.
Qed.

(** The request [p] of side [s] is queued on the other side. *)
Lemma flows_take b l o s id buf e p :
  let P := get_port b s in let Q := get_port b (otherSide s) in
  let b1 := if Packet.needsResponse p then set_port b s (with_counts P (outstandingResponses P + 1) (queuedRequests P)) else b in
  let b' := set_port b1 (otherSide s) (with_queue (with_counts Q (outstandingResponses Q) (queuedRequests Q + 1)) (sendQueue Q ++ [(id, buf)]) e) in
  let o' := if Packet.needsResponse p then <[id := (s, p)]> o else o in
  (∀ s, flows b l o s) → o !! id = None → strip (b_pkt buf) = strip p → is_req buf = true → nackedHere buf = false →
  ∀ s', flows b' (upd_log l s (add_taken p)) o' s'.
Proof.
  intros P Q b1 b' o' Hf Hn Hs Hr Hh s'.
  assert (queue b' s = queue b s ∧ queue b' (otherSide s) = queue b (otherSide s) ++ [buf]) as [Q1 Q2].
  { unfold queue, b', b1, P, Q. destruct (Packet.needsResponse p), s; cbn; by rewrite fmap_app. }
  assert (requests (queue b' (otherSide s)) = requests (queue b (otherSide s)) ++ [buf] ∧
    responses (queue b' (otherSide s)) = responses (queue b (otherSide s)) ∧ nacks (queue b' (otherSide s)) = nacks (queue b (otherSide s))) as (R1 & R2 & R3).
  { assert (is_resp buf = false) as Hp by (unfold is_resp; by rewrite Hr). rewrite Q2, !filter_in, Hr, Hp, Hh. by rewrite !app_nil_r. }
  assert (size (open_from s o') = (size (open_from s o) + if Packet.needsResponse p then 1 else 0)%nat ∧ open_from (otherSide s) o' = open_from (otherSide s) o) as [O1 O2].
  { unfold o'. destruct (Packet.needsResponse p); [destruct (open_insert o id s p Hn) as [-> ->]|]; split; lia || done. }
  destruct (two_sides s s') as [->| ->].
  - destruct (Hf s) as [F1 F2 F3 F4 F5 F6]. split; rewrite ?upd_same, ?upd_other, ?Q1, ?R1; cbn [add_taken lg_out lg_taken lg_answers lg_refused]; try done.
    + rewrite <- F1. unfold b', b1, P. by destruct (Packet.needsResponse p), s.
    + rewrite app_assoc, fmap_app, F2. cbn. rewrite (fmap_app strip). cbn. by rewrite Hs.
    + rewrite O1. unfold expecting in *. rewrite filter_app, length_app, F5. rewrite filter_cons.
      destruct (Packet.needsResponse p); rewrite ?decide_True, ?decide_False by done; cbn; lia.
    + rewrite O1. transitivity (outstandingResponses P + if Packet.needsResponse p then 1 else 0)%Z.
      * unfold b', b1, P. destruct (Packet.needsResponse p), s; cbn; lia.
      * unfold P. rewrite F6. destruct (Packet.needsResponse p); lia.
  - destruct (Hf (otherSide s)) as [F1 F2 F3 F4 F5 F6]. rewrite other_other in F2.
    split; rewrite ?other_other, ?upd_same, ?upd_other, ?Q1, ?R1, ?R2, ?R3, ?O2; cbn [add_taken lg_out lg_taken lg_answers lg_refused]; try done.
    + unfold b'. rewrite get_set. cbn. fold Q in F1. rewrite length_app. cbn. lia.
    + unfold b'. rewrite get_set. cbn. by fold Q in F6.
Qed.

(** A response is queued on side [s], where its request came from. *)
Lemma flows_answer b l o s id r new buf e :
  (∀ s, flows b l o s) → o !! id = Some (s, r) → is_req buf = false → nackedHere buf = false →
  ∀ s', flows (set_port (set_awaiting b (delete id (awaiting b))) s (with_queue (get_port b s) (sendQueue (get_port b s) ++ [(new, buf)]) e))
          (upd_log l s (add_answer (b_pkt buf))) (delete id o) s'.
Proof.
  intros Hf Ho Hr Hh s'. set (b' := set_port _ _ _).
  assert (is_resp buf = true) as Hp by (unfold is_resp; by rewrite Hr, Hh).
  assert (queue b' s = queue b s ++ [buf] ∧ queue b' (otherSide s) = queue b (otherSide s)) as [Q1 Q2].
  { unfold queue, b'. destruct s; cbn; by rewrite fmap_app. }
  assert (requests (queue b' s) = requests (queue b s) ∧ responses (queue b' s) = responses (queue b s) ++ [buf] ∧
    nacks (queue b' s) = nacks (queue b s)) as (R1 & R2 & R3) by (rewrite Q1, !filter_in, Hr, Hp, Hh; by rewrite !app_nil_r).
  destruct (open_delete o id s r Ho) as [O1 O2]. destruct (two_sides s s') as [->| ->].
  - destruct (Hf s) as [F1 F2 F3 F4 F5 F6]. split; rewrite ?upd_same, ?upd_other, ?Q2, ?R1, ?R2, ?R3; cbn [add_answer lg_out lg_taken lg_answers lg_refused]; try done.
    + unfold b'. by rewrite get_set.
    + by rewrite app_assoc, fmap_app, F3.
    + rewrite length_app. cbn. lia.
    + unfold b'. rewrite get_set. cbn. rewrite F6, length_app. cbn. lia.
  - destruct (Hf (otherSide s)) as [F1 F2 F3 F4 F5 F6]. rewrite other_other in F2.
    assert (get_port b' (otherSide s) = get_port b (otherSide s)) as Hg by (unfold b'; by rewrite get_set_other, get_awaiting).
    split; rewrite ?other_other, ?upd_same, ?upd_other, ?Q2, ?R1, ?R2, ?R3, ?O2, ?Hg; cbn [add_answer lg_out lg_taken lg_answers lg_refused]; done.
Qed.

(** The first packet of side [s] has been delivered. *)
Lemma flows_release b l o s id buf q e :
  (∀ s, flows b l o s) → sendQueue (get_port b s) = (id, buf) :: q →
  ∀ s', flows (released s b id buf q e) (upd_log l s (add_out buf)) o s'.
Proof.
  intros Hf Eq s'. set (b' := released s b id buf q e).
  assert (queue b s = buf :: queue b' s ∧ queue b' (otherSide s) = queue b (otherSide s) ∧
    queuedRequests (get_port b' s) = queuedRequests (get_port b s) - (if is_req buf then 1 else 0) ∧
    outstandingResponses (get_port b' s) = outstandingResponses (get_port b s) - (if is_resp buf then 1 else 0) ∧
    queuedRequests (get_port b' (otherSide s)) = queuedRequests (get_port b (otherSide s)) ∧
    outstandingResponses (get_port b' (otherSide s)) = outstandingResponses (get_port b (otherSide s))) as (Q1 & Q2 & C1 & C2 & C3 & C4).
  { unfold b', released, queue, is_resp. destruct (expectResponse buf), (is_req buf), (nackedHere buf), s; cbn in *; rewrite Eq; cbn; split_and!; lia || done. }
  destruct (two_sides s s') as [->| ->].
  - destruct (Hf s) as [F1 F2 F3 F4 F5 F6].
    split; rewrite ?upd_same, ?upd_other, ?Q2; cbn [add_out lg_out lg_taken lg_answers lg_refused]; try done.
    + rewrite C1, F1, Q1, filter_cons. destruct (is_req buf); rewrite ?decide_True, ?decide_False by done; cbn [length]; lia.
    + by rewrite filter_moved, <- Q1.
    + by rewrite filter_moved, <- Q1.
    + rewrite C2, F6, Q1, filter_cons. destruct (is_resp buf); rewrite ?decide_True, ?decide_False by done; cbn [length]; lia.
  - destruct (Hf (otherSide s)) as [F1 F2 F3 F4 F5 F6]. rewrite other_other in F2.
    split; rewrite ?other_other, ?upd_same, ?upd_other, ?Q2, ?C3, ?C4; cbn [add_out lg_out lg_taken lg_answers lg_refused]; try done.
    by rewrite filter_moved, <- Q1.
Qed.

(** *** Every step *)

Lemma objects_same b b' o :
  awaiting b' = awaiting b → (∀ s, sendQueue (get_port b' s) = sendQueue (get_port b s)) → objects b o → objects b' o.
Proof.
  intros Ha Hq [O1 O2 O3 O4 O5]. assert (ids b' = ids b) as Hi by (unfold ids; by rewrite (Hq SideA : sendQueue (portA b') = _), (Hq SideB : sendQueue (portB b') = _)).
  split; rewrite ?Ha, ?Hi; try done; [intros s i x; rewrite Hq; apply O2|]. intros i Hx. destruct (O3 i Hx) as [|(s & x & H)]; [by left|right].
  exists s, x. by rewrite Hq.
Qed.

Lemma flows_same b b' l o :
  (∀ s, sendQueue (get_port b' s) = sendQueue (get_port b s) ∧ queuedRequests (get_port b' s) = queuedRequests (get_port b s) ∧
        outstandingResponses (get_port b' s) = outstandingResponses (get_port b s)) →
  (∀ s, flows b l o s) → ∀ s, flows b' l o s.
Proof.
  intros Hq Hf s. assert (∀ s, queue b' s = queue b s) as Hqq by (intros s'; unfold queue; by rewrite (proj1 (Hq s'))).
  destruct (Hq s) as (_ & E1 & E2). destruct (Hf s) as [F1 F2 F3 F4 F5 F6]. split; by rewrite ?Hqq, ?E1, ?E2.
Qed.

Lemma enqueue_src now s p b b' : enqueue now s p b = Some b' → is_Some (Packet.getSrc p).
Proof. unfold enqueue, PacketBuffer_new. destruct (Packet.getSrc p); [done|]. done. Qed.

Lemma nack_request now s p b b' : nackRequest now s p b = Some b' → ∃ n, nack_of p = Some n ∧ is_Some (Packet.getDest n).
Proof.
  unfold nackRequest, nack_of, PacketBuffer_new. obind [p1|]. obind [n|]. intros H. exists n. split; [done|]. by destruct (Packet.getDest n).
Qed.

Lemma ids_open b o : objects b o → o !! new_buffer b = None.
Proof.
  intros Hob. destruct (new_buffer_fresh b) as [F1 F2]. destruct (o !! new_buffer b) eqn:Eo; [|done].
  destruct (ob_dom _ _ Hob (new_buffer b)) as [[? ?]|(s & x & Hx & _)]; [by eexists|congruence|]. exfalso. apply F2.
  unfold ids. apply elem_of_app. destruct s; [left|right]; by apply (list_elem_of_fmap_2 fst _ (new_buffer b, x)).
Qed.

Lemma limits_same P P' :
  limits_ok P → delay P' = delay P → nackDelay P' = nackDelay P → reqQueueLimit P' = reqQueueLimit P → respQueueLimit P' = respQueueLimit P →
  0 <= queuedRequests P' <= reqQueueLimit P → 0 <= outstandingResponses P' <= respQueueLimit P → limits_ok P'.
Proof. unfold limits_ok. intros (? & ? & _ & _) -> -> -> -> ? ?. auto. Qed.

Lemma nacked_ok t b d l o s p b' :
  br_ok (mkBRun t b d l o) → nackRequest t s p b = Some b' → br_ok (mkBRun t b' d (upd_log l s (add_refused p)) o).
Proof.
  intros [Hn Hl Hw Hf Ho] E. cbn [br_now br_bridge br_logs br_open] in *. destruct (nack_request _ _ _ _ _ E) as (n & Hnk & Hd).
  destruct (nackRequest_spec t s p b n Hn (Hw s) (Hl s) Hnk Hd) as (q1 & q2 & e & buf & Eq & Hb & Hh & He & E' & Hw').
  rewrite E in E'. injection E' as ->. split; cbn; try done.
  - intros s'. destruct (two_sides s s') as [->| ->]; rewrite ?get_set, ?get_set_other; [|done]. apply (Hl s).
  - intros s'. destruct (two_sides s s') as [->| ->]; rewrite ?get_set, ?get_set_other; done.
  - apply flows_nack; try done. by rewrite Hb.
  - apply (objects_insert b o); try done; [|congruence]. rewrite (ids_open b o Ho). by intros [].
Qed.

Lemma taken_ok t b d l o s p b' :
  br_ok (mkBRun t b d l o) → Packet.isRequest p = true → refuses b s p = false →
  enqueue t (otherSide s) p (if Packet.needsResponse p
    then set_port b s (with_counts (get_port b s) (outstandingResponses (get_port b s) + 1) (queuedRequests (get_port b s))) else b) = Some b' →
  br_ok (mkBRun t b' d (upd_log l s (add_taken p)) (if Packet.needsResponse p then <[new_buffer b := (s, p)]> o else o)).
Proof.
  intros [Hn Hl Hw Hf Ho] Hr Href E. cbn [br_now br_bridge br_logs br_open] in *. set (P := get_port b s) in *. set (b1 := if Packet.needsResponse p then _ else b) in *.
  assert (get_port b1 (otherSide s) = get_port b (otherSide s) ∧ new_buffer b1 = new_buffer b ∧
    get_port b1 s = (if Packet.needsResponse p then with_counts P (outstandingResponses P + 1) (queuedRequests P) else P)) as (G1 & G2 & G3).
  { unfold b1, P. destruct (Packet.needsResponse p); [|done]. by rewrite get_set_other, get_set; destruct s. }
  assert (objects b1 o) as Ho1.
  { apply (objects_same b); [by unfold b1; destruct (Packet.needsResponse p), s| |done]. intros s'. unfold b1, P. by destruct (Packet.needsResponse p), s, s'. }
  destruct (enqueue_src _ _ _ _ _ E) as [src Hsrc].
  destruct (enqueue_spec t (otherSide s) p b1 src Hn) as (e & E' & Hw'); rewrite ?G1; try done.
  rewrite Hr, G1, G2 in E', Hw'. rewrite (request_kinds p Hr) in E', Hw'. rewrite E in E'. injection E' as ->.
  set (buf := mkBuf _ _ _ _ _ _) in *. unfold refuses in Href. apply orb_false_iff in Href as [H1 H2]. zbool.
  destruct (Hl s) as (L1 & L2 & L3 & L4). fold P in L1, L2, L3, L4. destruct (Hl (otherSide s)) as (M1 & M2 & M3 & M4).
  split; cbn [br_now br_bridge br_logs br_open]; try done.
  - intros s'. destruct (two_sides s s') as [->| ->]; [|rewrite get_set].
    + rewrite get_set_this, G3. destruct (Packet.needsResponse p); [|done].
      cbn in H2. zbool. fold P in H2. unfold limits_ok. cbn. lia.
    + unfold limits_ok. cbn. lia.
  - intros s'. destruct (two_sides s s') as [->| ->]; [|by rewrite get_set].
    rewrite get_set_this, G3. destruct (Packet.needsResponse p); apply (Hw s).
  - apply flows_take; try done. by apply ids_open.
  - rewrite <- G2. apply (objects_insert b1 o); [done|by rewrite G1, app_nil_r|..].
    + intros i Hi. destruct (Packet.needsResponse p); [by rewrite lookup_insert_ne|done].
    + cbn. destruct (Packet.needsResponse p); [done|]. rewrite (ids_open b1 o Ho1). by intros [].
    + cbn. intros ->. split; [done|]. exists p. rewrite lookup_insert_eq, other_other. done.
Qed.

Lemma answered_ok t b d l o s p id r b' :
  br_ok (mkBRun t b d l o) → Packet.isResponse p = true → Packet.sender p = Some id → o !! id = Some (otherSide s, r) →
  recvTiming t s p b = Some b' →
  br_ok (mkBRun t b' d (upd_log l (otherSide s) (add_answer (restore r p))) (delete id o)).
Proof.
  intros [Hn Hl Hw Hf Ho] Hp Hs Hid. cbn [br_now br_bridge br_logs br_open] in *. destruct (response_kinds p Hp) as [Hr Hnr].
  rewrite recvTiming_response by done. rewrite Hs. cbn [mbind option_bind]. destruct (awaiting b !! id) as [w|] eqn:Ew; [|done].
  cbn [mbind option_bind]. intros E. destruct (ob_await _ _ Ho id w Ew) as (s0 & r0 & Hid' & Hk1 & Hk2). rewrite Hid in Hid'. injection Hid' as <- <-.
  assert (fixResponse w p = restore r p) as Efix.
  { unfold fixResponse, restore. rewrite Hk2. f_equal. f_equal. unfold Packet.getSrc in Hk1. destruct (Flags.isSet _ _); [|done]. by injection Hk1. }
  rewrite Efix in E. set (b1 := set_awaiting b (delete id (awaiting b))) in *. set (X := otherSide s) in *.
  destruct (enqueue_src _ _ _ _ _ E) as [src Hsrc].
  assert (get_port b1 X = get_port b X) as G1 by apply get_awaiting.
  destruct (enqueue_spec t X (restore r p) b1 src Hn) as (e & E' & Hw'); rewrite ?G1; try done.
  change (Packet.isRequest (restore r p)) with (Packet.isRequest p) in E', Hw'. change (Packet.isResponse (restore r p)) with (Packet.isResponse p) in E', Hw'.
  rewrite Hr, Hp, G1 in E', Hw'. rewrite E in E'. injection E' as ->. set (buf := mkBuf _ _ _ _ _ _) in *.
  split; cbn [br_now br_bridge br_logs br_open]; try done.
  - intros s'. destruct (two_sides X s') as [->| ->]; rewrite ?get_set, ?get_set_other; [apply (Hl X)|]. unfold b1. rewrite get_awaiting. apply Hl.
  - intros s'. destruct (two_sides X s') as [->| ->]; rewrite ?get_set, ?get_set_other; [done|]. unfold b1. rewrite get_awaiting. apply Hw.
  - change (restore r p) with (b_pkt buf). by apply (flows_answer b l o X id r).
  - apply (objects_insert b1 (delete id o)); [by eapply objects_answer|by rewrite G1, app_nil_r|done|..].
    + rewrite (ids_open b1 (delete id o)) by (by eapply objects_answer). by intros [].
    + cbn. change (Packet.needsResponse (restore r p)) with (Packet.needsResponse p). by rewrite Hnr.
Qed.

(** A port whose event or retry flag has changed. *)
Lemma flags_ok b l o s P :
  sendQueue P = sendQueue (get_port b s) → queuedRequests P = queuedRequests (get_port b s) →
  outstandingResponses P = outstandingResponses (get_port b s) → (∀ s, flows b l o s) → objects b o →
  (∀ s', flows (set_port b s P) l o s') ∧ objects (set_port b s P) o.
Proof.
  intros E1 E2 E3 Hf Ho. split; [apply (flows_same b); [|done]|apply (objects_same b); [by destruct s| |done]];
    intros s'; destruct (two_sides s s') as [->| ->]; rewrite ?get_set, ?get_set_other; done.
Qed.

Lemma delivered_ok t b d l o s P id buf q e d' :
  br_ok (mkBRun t b d l o) → sendQueue (get_port b s) = (id, buf) :: q →
  sendQueue P = sendQueue (get_port b s) → queuedRequests P = queuedRequests (get_port b s) →
  outstandingResponses P = outstandingResponses (get_port b s) →
  delay P = delay (get_port b s) → nackDelay P = nackDelay (get_port b s) →
  reqQueueLimit P = reqQueueLimit (get_port b s) → respQueueLimit P = respQueueLimit (get_port b s) →
  wake t (get_port (released s (set_port b s P) id buf q e) s) →
  br_ok (mkBRun t (released s (set_port b s P) id buf q e) d' (upd_log l s (add_out buf)) o).
Proof.
  intros [Hn Hl Hw Hf Ho] Eq E1 E2 E3 D1 D2 D3 D4 Hw'. cbn [br_now br_bridge br_logs br_open] in *.
  destruct (flags_ok b l o s P E1 E2 E3 Hf Ho) as [Hf1 Ho1]. set (b1 := set_port b s P) in *.
  assert (sendQueue (get_port b1 s) = (id, buf) :: q) as Eq1 by (unfold b1; by rewrite get_set, E1).
  pose proof (flows_release b1 l o s id buf q e Hf1 Eq1) as Hf2.
  assert (get_port (released s b1 id buf q e) (otherSide s) = get_port b (otherSide s)) as G1.
  { unfold released, b1. by destruct (expectResponse buf), (is_req buf), (negb (nackedHere buf)), s. }
  split; cbn [br_now br_bridge br_logs br_open]; try done.
  - intros s'. destruct (two_sides s s') as [->| ->]; [|rewrite G1; apply Hl].
    pose proof (fw_count _ _ _ _ (Hf2 s)) as C1. pose proof (fw_outstanding _ _ _ _ (Hf2 s)) as C2.
    destruct (Hl s) as (L1 & L2 & L3 & L4).
    assert (queuedRequests (get_port (released s b1 id buf q e) s) <= queuedRequests P ∧
      outstandingResponses (get_port (released s b1 id buf q e) s) <= outstandingResponses P) as [].
    { unfold released, b1. destruct (expectResponse buf), (is_req buf), (negb (nackedHere buf)), s; cbn; lia. }
    eapply limits_same; [apply (Hl s)|..]; try lia; rewrite <- ?D1, <- ?D2, <- ?D3, <- ?D4; unfold released, b1;
      by destruct (expectResponse buf), (is_req buf), (negb (nackedHere buf)), s.
  - intros s'. destruct (two_sides s s') as [->| ->]; [done|rewrite G1; apply Hw].
  - by apply objects_release.
Qed.

Lemma unsent_ok t b d l o s P d' :
  br_ok (mkBRun t b d l o) → sendQueue P = sendQueue (get_port b s) → queuedRequests P = queuedRequests (get_port b s) →
  outstandingResponses P = outstandingResponses (get_port b s) → limits_ok P → wake t P →
  br_ok (mkBRun t (set_port b s P) d' l o).
Proof.
  intros [Hn Hl Hw Hf Ho] E1 E2 E3 L W. cbn [br_now br_bridge br_logs br_open] in *.
  destruct (flags_ok b l o s P E1 E2 E3 Hf Ho) as [Hf1 Ho1].
  split; cbn [br_now br_bridge br_logs br_open]; try done; intros s'; destruct (two_sides s s') as [->| ->]; rewrite ?get_set, ?get_set_other; done.
Qed.

Lemma br_step_ok x y : br_step x y → br_ok x → br_ok y.
Proof.
  destruct 1 as [t t' b d l o Hle He Hev|t b d l o s p b' Hr E|t b d l o s p id r b' Hp Hs Hid E|t b d l o s b' d' buf ok E Eh Es
    |t b d l o s p more p' b' E Eq|t b d d' l o]; intros Hok.
  - destruct Hok as [Hn Hl Hw Hf Ho]. split; cbn in *; try done. intros s. destruct (Hw s) as [Hr Hq]. split; [done|].
    destruct (sendQueue (get_port b s)) as [|[i buf] q]; [done|]. destruct (inRetry (get_port b s)); [destruct Hq; split; [done|lia]|].
    destruct Hq as (u & Hu & ? & ?). exists u. split_and!; [done|by eapply Hev|done].
  - rewrite (recvTiming_request t s p b Hr (request_kinds p Hr) (bo_limits _ Hok)) in E. destruct (refuses b s p) eqn:Er.
    + by eapply nacked_ok.
    + by apply (taken_ok t b d l o s p).
  - by eapply answered_ok.
  - unfold queue in Eh. destruct (sendQueue (get_port b s)) as [|[id buf0] q] eqn:Eq; [done|]. injection Eh as ->.
    pose proof Hok as [Hn Hl Hw Hf Ho]. cbn [br_now br_bridge br_logs br_open] in *.
    destruct (wake_send t s b d id buf q Hn (Hw s) Eq) as [W1 W2].
    destruct E as [[Hev E]|[Hre E]]; [destruct (W1 Hev) as (e & E' & Hw1 & Hw2)|destruct (W2 Hre) as (e & E' & Hw1 & Hw2)];
      rewrite E' in E; rewrite Es in E; cbn [mbind option_bind] in E; injection E as <-.
    + destruct ok; [by apply (delivered_ok t b d l o s (with_queue (get_port b s) ((id, buf) :: q) None) id buf q e)|].
      apply (unsent_ok t b d); try done. apply (Hl s).
    + destruct ok; [by apply (delivered_ok t b d l o s (with_inRetry (get_port b s) false) id buf q e)|].
      apply (unsent_ok t b d); try done. apply (Hl s).
  - revert E. unfold recvFunctional. obind [[[dn p1] q]|]. intros [= _ _ <-]. rewrite get_set in Eq. cbn in Eq. subst q.
    destruct Hok as [Hn Hl Hw Hf Ho]. apply (unsent_ok t b d); try done; [apply (Hl s)|apply (Hw s)].
  - destruct Hok. by split.
Qed.

(** A new bridge between two buses. *)
Definition br_started (x : BRun) : Prop :=
  ∃ dl nd ra pa rb pb fa fb b d, Bridge_new dl nd ra pa rb pb fa fb false = Some b ∧ 0 <= dl < 2 ^ 32 ∧ 0 <= nd < 2 ^ 32 ∧
    0 <= ra ∧ 0 <= pa ∧ 0 <= rb ∧ 0 <= pb ∧ x = mkBRun 0 b d (λ _, mkLog [] [] [] []) ∅.

Definition br_reachable (y : BRun) : Prop := ∃ x, br_started x ∧ rtc br_step x y.

Lemma br_started_ok x : br_started x → br_ok x.
Proof.
  intros (dl & nd & ra & pa & rb & pb & fa & fb & b & d & [= <-] & H1 & H2 & H3 & H4 & H5 & H6 & ->).
  split; cbn [br_now br_bridge br_logs br_open]; try done.
  - intros []; unfold limits_ok; cbn; lia.
  - intros []; (split; [constructor|done]).
  - intros s. split; unfold open_from; rewrite ?map_filter_empty; by destruct s.
  - split; try done; [by intros [] ? ? ?%elem_of_nil|by intros i []|constructor].
Qed.

Lemma br_reachable_ok x : br_reachable x → br_ok x.
Proof.
  intros (x0 & Hs & Hr). apply br_started_ok in Hs. revert Hs. induction Hr as [|? ? ? H1 _ IH]; [done|]. intros H0.
  by apply IH, (br_step_ok _ _ H1).
Qed.

End Run.

(** ** Correctness *)

Lemma strip_outgoing (l : list PacketBuffer) : strip <$> (outgoing <$> l) = (strip ∘ b_pkt) <$> l.
Proof. induction l as [|x l IH]; [done|]. rewrite !fmap_cons, IH. f_equal. unfold outgoing. by destruct (_ && _). Qed.

(** C21. A bridge delivers everything exactly once and in order.  In every reachable state,
    for each side: the requests that have been delivered on the other side, followed by
    those in its queue, are the requests that were taken on this side, each once and in the
    order in which they came; the responses that this side has got, followed by those in
    its queue, are those that came in on the other side, in order, each made out to the
    sender of its request with the sender's own state; and every refused request is
    answered by one nack.  The requests and the responses that are not yet delivered never
    exceed the limits of the bridge, which counts them exactly. *)
Theorem bridge_delivers_once {D} (bridge_send : Side → Z → Packet.t → D → option (bool * D)) (x : BRun) (s : Side) :
  br_reachable bridge_send x →
  let b := br_bridge x in let P := get_port b s in let here := br_logs x s in let there := br_logs x (otherSide s) in
  (strip <$> (outgoing <$> requests (lg_out there))) ++ ((strip ∘ b_pkt) <$> requests (queue b (otherSide s))) = strip <$> lg_taken here ∧
  (b_pkt <$> responses (lg_out here)) ++ (b_pkt <$> responses (queue b s)) = lg_answers here ∧
  (Some ∘ b_pkt) <$> nacks (lg_out here ++ queue b s) ≡ₚ nack_of <$> lg_refused here ∧
  queuedRequests P = Z.of_nat (length (requests (queue b s))) ∧ queuedRequests P <= reqQueueLimit P ∧
  outstandingResponses P + Z.of_nat (length (responses (lg_out here))) = Z.of_nat (length (expecting (lg_taken here))) ∧
  outstandingResponses P <= respQueueLimit P.
Proof.
  intros Hr. destruct (br_reachable_ok _ _ Hr) as [Hn Hl Hw Hf Ho]. cbv zeta. destruct (Hf s) as [F1 F2 F3 F4 F5 F6].
  destruct (Hl s) as (_ & _ & L1 & L2). rewrite strip_outgoing, <- !fmap_app, filter_app. split_and!; try done; try lia.
  rewrite F6, F5, <- F3, length_fmap, length_app. lia.
Qed.

(** A request that needs a response has a nack. *)
Lemma nack_total p src : Packet.isRequest p = true → Packet.needsResponse p = true → Packet.getSrc p = Some src →
  ∃ n, nack_of p = Some n ∧ Packet.getDest n = Some src.
Proof.
  intros Hr Hn Hs. destruct (makeResponse_spec p) as [Hnone Hsome]. unfold nack_of.
  destruct (Packet.makeResponse p) as [r|] eqn:Er; [|by rewrite (proj1 Hnone) in Hn].
  destruct (Hsome r eq_refl) as (Hisr & _ & Hd & _). cbn [mbind option_bind]. unfold Packet.setNacked. rewrite Hisr.
  eexists. split; [done|]. rewrite <- Hs, <- Hd. done.
Qed.

(** C22. No assertion of a bridge fails and no wakeup is lost, but for one case.  In every
    reachable state a request that has a source is handled (queued, or nacked when there is
    no room) unless it needs no response and there is no room for it; then the bridge tries
    to make a response of it, which fails.  A response to a request that was delivered is
    handled.  When the queue of a port is not empty its event is scheduled, not in the past,
    or the port waits for a retry, and the event and the retry succeed when what is
    connected answers. *)
Theorem bridge_handles_packets {D} (bridge_send : Side → Z → Packet.t → D → option (bool * D)) (x : BRun) (s : Side) :
  br_reachable bridge_send x →
  let b := br_bridge x in let P := get_port b s in let t := br_now x in
  (∀ p, Packet.isRequest p = true → is_Some (Packet.getSrc p) →
     (is_Some (recvTiming t s p b) ↔ Packet.needsResponse p = true ∨ refuses b s p = false)) ∧
  (∀ p id, Packet.isResponse p = true → is_Some (Packet.getSrc p) → Packet.sender p = Some id → is_Some (awaiting b !! id) →
     is_Some (recvTiming t s p b)) ∧
  (queue b s ≠ [] → if inRetry P then sendEvent P = None else ∃ u, sendEvent P = Some u ∧ t <= u) ∧
  (∀ d, (∀ p, is_Some (bridge_send s t p d)) →
     (sendEvent P = Some t → is_Some (processSendEvent bridge_send t s b d)) ∧
     (inRetry P = true → is_Some (recvRetry bridge_send t s b d))).
Proof.
  intros Hr. destruct (br_reachable_ok _ _ Hr) as [Hn Hl Hw Hf Ho]. cbv zeta. split_and!.
  - intros p Hp [src Hs]. rewrite recvTiming_request by (try done; by apply request_kinds). destruct (refuses (br_bridge x) s p) eqn:Er.
    + split.
      * intros [b' E]. left. destruct (nack_request _ _ _ _ _ E) as (n & Hnk & _). unfold nack_of, Packet.makeResponse in Hnk.
        by destruct (Packet.needsResponse p).
      * intros [Hnr|]; [|done]. destruct (nack_total p src Hp Hnr Hs) as (n & Hnk & Hd).
        destruct (nackRequest_spec _ s p (br_bridge x) n Hn (Hw s) (Hl s) Hnk) as (? & ? & ? & ? & _ & _ & _ & _ & -> & _); by eexists.
    + split; [by right|]. intros _. set (b1 := if Packet.needsResponse p then _ else _).
      assert (get_port b1 (otherSide s) = get_port (br_bridge x) (otherSide s)) as G1
        by (unfold b1; destruct (Packet.needsResponse p); [apply get_set_other|done]).
      destruct (enqueue_spec (br_now x) (otherSide s) p b1 src Hn) as (e & -> & _); rewrite ?G1; try done; by eexists.
  - intros p id Hp [src Hs] Hid [w Hw0]. destruct (response_kinds p Hp) as [H1 H2]. rewrite recvTiming_response by done.
    rewrite Hid. cbn [mbind option_bind]. rewrite Hw0. cbn [mbind option_bind]. set (b1 := set_awaiting _ _).
    assert (get_port b1 (otherSide s) = get_port (br_bridge x) (otherSide s)) as G1 by apply get_awaiting.
    destruct (enqueue_spec (br_now x) (otherSide s) (fixResponse w p) b1 src Hn) as (e & -> & _); rewrite ?G1; try done.
    revert Hs. unfold Packet.getSrc, fixResponse. cbn [Packet.flags Packet.set_sender Packet.setDest Packet.src]. by flag_solve.
  - destruct (Hw s) as [_ Hq]. unfold queue. destruct (sendQueue _) as [|[i buf] q]; [done|]. intros _.
    destruct (inRetry _); [by destruct Hq|]. destruct Hq as (u & ? & ? & _). by exists u.
  - intros d Hd. destruct (Hw s) as [_ Hq]. destruct (sendQueue (get_port (br_bridge x) s)) as [|[id buf] q] eqn:Eq.
    + destruct Hq as [-> ->]. done.
    + destruct (wake_send bridge_send (br_now x) s (br_bridge x) d id buf q Hn (Hw s) Eq) as [W1 W2].
      destruct (Hd (outgoing buf)) as [[ok d'] Es].
      split; intros H; [destruct (W1 H) as (e & E & _)|destruct (W2 H) as (e & E & _)]; rewrite E, Es; by eexists.
Qed.

(** ** Runs that are computed *)

Section Actions.
Context {D : Type} (bridge_send : Side → Z → Packet.t → D → option (bool * D)).

Inductive BAct :=
  | BTime (t : Z)
  | BRequest (s : Side) (p : Packet.t)
  | BAnswer (s : Side) (f : D → option (Packet.t * D))
  | BSend (s : Side).

Definition not_after (t : Z) (e : option Z) : bool := match e with Some u => t <=? u | None => true end.

Definition bact (a : BAct) (x : BRun) : option (BRun (D := D)) :=
  let '(mkBRun t b d l o) := x in
  match a with
  | BTime t' =>
      if (t <=? t') && (0 <=? t') && (t' <? 2 ^ 62) && not_after t' (sendEvent (portA b)) && not_after t' (sendEvent (portB b))
      then Some (mkBRun t' b d l o) else None
  | BRequest s p =>
      if Packet.isRequest p then
        b' ← recvTiming t s p b;
        Some (if refuses b s p then mkBRun t b' d (upd_log l s (add_refused p)) o
              else mkBRun t b' d (upd_log l s (add_taken p)) (if Packet.needsResponse p then <[new_buffer b := (s, p)]> o else o))
      else None
  | BAnswer s f =>
      '(p, d) ← f d;
      if Packet.isResponse p then
        id ← Packet.sender p;
        '(s', r) ← o !! id;
        if decide (s' = otherSide s) then
          b' ← recvTiming t s p b; Some (mkBRun t b' d (upd_log l (otherSide s) (add_answer (restore r p))) (delete id o))
        else None
      else None
  | BSend s =>
      buf ← head (queue b s);
      '(ok, _) ← bridge_send s t (outgoing buf) d;
      '(b', d') ← (if bool_decide (sendEvent (get_port b s) = Some t) then processSendEvent bridge_send t s b d
                   else if inRetry (get_port b s) then recvRetry bridge_send t s b d else None);
      Some (mkBRun t b' d' (if (ok : bool) then upd_log l s (add_out buf) else l) o)
  end.

Fixpoint bacts (l : list BAct) (x : BRun) : option BRun :=
  match l with [] => Some x | a :: l => x ← bact a x; bacts l x end.

Lemma not_after_ok t e u : not_after t e = true → e = Some u → t <= u.
Proof. intros H ->. cbn in H. by zbool. Qed.

Lemma bact_sound a x y : br_ok x → bact a x = Some y → rtc (br_step bridge_send) x y.
Proof.
  destruct x as [t b d l o]. intros Hok. destruct a as [t'|s p|s f|s]; cbn [bact].
  - destruct (_ && _) eqn:E; [|done]. intros [= <-]. rewrite !andb_true_iff in E. destruct E as ((((E1 & E2) & E3) & E4) & E5). zbool.
    apply rtc_once. constructor; [done|split; lia|]. intros [] u; by apply not_after_ok.
  - destruct (Packet.isRequest p) eqn:Er; [|done]. obind [b'|] E. intros [= <-]. apply rtc_once. by constructor.
  - obind [[p d1]|]. destruct (Packet.isResponse p) eqn:Ep; [|done]. obind [id|] Eid. obind [[s' r]|] Eo.
    destruct (decide _) as [->|]; [|done]. obind [b'|] E. intros [= <-].
    eapply rtc_l; [apply (br_device _ _ _ _ d1)|]. apply rtc_once. by eapply br_response.
  - obind [buf|] Eh. obind [[ok d0]|] Es. obind [[b' d']|] E. intros [= <-]. apply rtc_once.
    assert (d' = d0) as ->.
    { destruct Hok as [Hn Hl Hw Hf Ho]. cbn [br_now br_bridge] in *. unfold queue in Eh. destruct (sendQueue (get_port b s)) as [|[id x] q] eqn:Eq; [done|].
      injection Eh as ->. destruct (wake_send bridge_send t s b d id buf q Hn (Hw s) Eq) as [W1 W2]. revert E.
      case_bool_decide as He; [destruct (W1 He) as (e & E & _)|destruct (inRetry _) eqn:Ei; [destruct (W2 eq_refl) as (e & E & _)|done]];
        rewrite E, Es; cbn [mbind option_bind]; by intros [= _ <-]. }
    eapply br_send; [|done..]. case_bool_decide; [by left|]. destruct (inRetry _); [by right|done].
Qed.

Lemma bacts_sound l : ∀ x y, br_ok x → bacts l x = Some y → rtc (br_step bridge_send) x y.
Proof.
  induction l as [|a l IH]; intros x y Hok; cbn [bacts]; [intros [= <-]; apply rtc_refl|]. obind [x1|] E1. intros E2.
  pose proof (bact_sound a x x1 Hok E1) as H1. etransitivity; [exact H1|]. apply IH; [|done].
  clear -H1 Hok. revert Hok. induction H1 as [|? ? ? H _ IH]; [done|]. intros Hok. by apply IH, (br_step_ok _ _ _ H).
Qed.

End Actions.

(** What the two sides have been given; both accept everything. *)
Notation Delivered := (list (Side * Packet.t)).
Definition demo_send (s : Side) (t : Z) (p : Packet.t) (d : Delivered) : option (bool * Delivered) := Some (true, d ++ [(s, p)]).

(** The oldest packet is answered. *)
Definition demo_reply (d : Delivered) : option (Packet.t * Delivered) :=
  match d with
  | [] => None
  | (_, p) :: d => q ← Packet.makeResponse p; Some (Packet.setSrc q 9, d)
  end.

Definition bridge_packet (c : Command) (a : Z) (bs : list Z) : Packet.t :=
  Packet.setSrc (Packet.mk 0x1f00 c demo_req (Some bs) a (Z.of_nat (length bs)) 0 (-1) InvalidCmd 0 (Some 7%nat)) 3.

Definition demo_bridge : BRun (D := Delivered) :=
  mkBRun 0 (mkBridge (BridgePort_new 5 2 1 1 []) (BridgePort_new 5 2 1 1 []) ∅) [] (λ _, mkLog [] [] [] []) ∅.

Lemma demo_bridge_started : br_started demo_bridge.
Proof. by exists 5, 2, 1, 1, 1, 1, [], [], (mkBridge (BridgePort_new 5 2 1 1 []) (BridgePort_new 5 2 1 1 []) ∅), []. Qed.

Definition bridge_run (l : list (BAct (D := Delivered))) : BRun := default demo_bridge (bacts demo_send l demo_bridge).
Definition bridge_runs (l : list (BAct (D := Delivered))) : bool := match bacts demo_send l demo_bridge with Some _ => true | None => false end.

Lemma bridge_run_reachable l : bridge_runs l = true → br_reachable demo_send (bridge_run l).
Proof.
  unfold bridge_run, bridge_runs. destruct (bacts _ l _) as [x|] eqn:E; [|done]. intros _. exists demo_bridge. split; [apply demo_bridge_started|].
  eapply (bacts_sound demo_send); [|exact E]. apply (br_started_ok demo_send), demo_bridge_started.
Qed.

(** Two reads of side A, of which the second is refused; the first is delivered, answered
    and its response delivered after the nack. *)
Definition demo_reads : list (BAct (D := Delivered)) :=
  [BTime 10; BRequest SideA (bridge_packet ReadReq 8 [0; 0]); BRequest SideA (bridge_packet ReadReq 16 [0; 0]);
   BTime 12; BSend SideA; BTime 15; BSend SideB].
Definition demo_exchange : list (BAct (D := Delivered)) :=
  demo_reads ++ [BAnswer SideB (λ d, demo_reply (tail d)); BTime 20; BSend SideA].

Definition summary (x : BRun (D := Delivered)) : list (Command * Z * option Z * option nat) * list (Command * Z) :=
  (((λ p, (Packet.cmd p, Packet.addr p, Packet.getDest p, Packet.sender p)) ∘ b_pkt) <$> lg_out (br_logs x SideA),
   (λ p, (Packet.cmd p, Packet.addr p)) <$> lg_taken (br_logs x SideA)).

Lemma bridge_delivers_once_witness :
  summary (bridge_run demo_exchange) =
    ([(NetworkNackError, 16, Some 3, Some 7%nat); (ReadResp, 8, Some 3, Some 7%nat)], [(ReadReq, 8)]) ∧
  let x := bridge_run demo_exchange in
  (b_pkt <$> responses (lg_out (br_logs x SideA))) ++ (b_pkt <$> responses (queue (br_bridge x) SideA)) = lg_answers (br_logs x SideA).
Proof.
  split; [vm_compute; reflexivity|].
  assert (br_reachable demo_send (bridge_run demo_exchange)) as Hr by (apply bridge_run_reachable; vm_compute; reflexivity).
  revert Hr. generalize (bridge_run demo_exchange). intros x Hr. destruct (bridge_delivers_once demo_send x SideA Hr) as (_ & H & _). exact H.
Defined.

(** The first read is on its way and there is no room for a second: a read is nacked, and a
    writeback cannot be. *)
Definition demo_writeback : Packet.t := bridge_packet Writeback 16 [1; 2].
Definition demo_full : list (BAct (D := Delivered)) := [BTime 10; BRequest SideA (bridge_packet ReadReq 8 [0; 0])].

Lemma bridge_handles_packets_witness :
  let x := bridge_run demo_full in
  refuses (br_bridge x) SideA demo_writeback = true ∧ ¬ is_Some (recvTiming (br_now x) SideA demo_writeback (br_bridge x)) ∧
  is_Some (recvTiming (br_now x) SideA (bridge_packet ReadReq 16 [0; 0]) (br_bridge x)).
Proof.
  cbv zeta. assert (refuses (br_bridge (bridge_run demo_full)) SideA demo_writeback = true) as Hf by (vm_compute; reflexivity).
  assert (br_reachable demo_send (bridge_run demo_full)) as Hr by (apply bridge_run_reachable; vm_compute; reflexivity).
  revert Hf Hr. generalize (bridge_run demo_full). intros x Hf Hr. destruct (bridge_handles_packets demo_send x SideA Hr) as (H & _).
  split_and!; [exact Hf| |].
  - rewrite H; [|done|by eexists]. intros [Hn|Hn]; [done|congruence].
  - apply H; [done|by eexists|by left].
Defined.

(** ** Functional accesses *)

(** A functional access does not see the requests that its own side has sent.  There is
    a reachable state in which a write has been taken from side A and waits in the queue of
    side B; the packet would satisfy a functional read of the same bytes, but such a read
    that arrives on side A is passed on unanswered, because only the queue of the port at
    which it arrives is searched. *)
Theorem bridge_functional_misses_write :
  ∃ (x : BRun (D := Delivered)) buf read,
    br_reachable demo_send x ∧ lg_taken (br_logs x SideA) = [bridge_packet WriteReq 8 [5; 6]] ∧ queue (br_bridge x) SideB = [buf] ∧
    (∃ r o, Packet.checkFunctional_pkt read (b_pkt buf) = Some (true, r, o) ∧ Packet.data r = Some [5; 6]) ∧
    recvFunctional SideA read (br_bridge x) = Some (true, read, br_bridge x).
Proof.
  assert (br_reachable demo_send (bridge_run [BTime 10; BRequest SideA (bridge_packet WriteReq 8 [5; 6])])) as Hr
    by (apply bridge_run_reachable; vm_compute; reflexivity).
  eexists (bridge_run _), _, (bridge_packet ReadReq 8 [0; 0]). split; [exact Hr|]. clear Hr.
  split_and!; [vm_compute; reflexivity|vm_compute; reflexivity| |vm_compute; reflexivity].
  eexists _, _. split; vm_compute; reflexivity.
Qed.
