(* ===== verification/Bus.v ===== *)
(** The bus in atomic mode, [src/m5/src/mem/bus.hh] and [bus.cc].

    A port of the bus is its number, which a counter of type [short] gives out, so
    that the conversions between [int] and [short] keep it.  The devices at the ports
    are a parameter:
    [send curTick id pkt state] is [sendAtomic] of the device at the port [id].  A
    failed assertion, a [panic] and the use of a port that does not exist are
    [None]. *)

From S2P Require Import Prelude IntMath Packet RangeMap.

(** ** State *)

Record PortCache := mkPortCache {
  pc_valid : bool;
  pc_id : Z;
  pc_start : Z;
  pc_end : Z
}.

Record BusCache := mkBusCache {
  bc_valid : bool;
  bc_id : Z;
  bc_port : Z
}.

Record Bus := mkBus {
  portMap : list (Range * Z);
  defaultRange : list Range;
  responderSet : bool;
  defaultPort : bool;
  interfaces : list Z;
  snoopPorts : list Z;
  portCache : PortCache * PortCache * PortCache;
  busCache : BusCache * BusCache * BusCache;
  maxId : Z;
  funcPort : option Z;
  defaultBlockSize : Z;
  cachedBlockSize : option Z;
  inRecvStatusChange : gset Z
}.

Definition defaultId : Z := -3.

Definition with_portCache (b : Bus) (c : PortCache * PortCache * PortCache) : Bus :=
  mkBus (portMap b) (defaultRange b) (responderSet b) (defaultPort b) (interfaces b) (snoopPorts b) c (busCache b)
    (maxId b) (funcPort b) (defaultBlockSize b) (cachedBlockSize b) (inRecvStatusChange b).
Definition with_busCache (b : Bus) (c : BusCache * BusCache * BusCache) : Bus :=
  mkBus (portMap b) (defaultRange b) (responderSet b) (defaultPort b) (interfaces b) (snoopPorts b) (portCache b) c
    (maxId b) (funcPort b) (defaultBlockSize b) (cachedBlockSize b) (inRecvStatusChange b).

(** ** The caches of the bus *)

Definition pc_hit (a : Z) (e : PortCache) : bool := pc_valid e && (pc_start e <=? a) && (a <? pc_end e).

Definition checkPortCache (b : Bus) (a : Z) : Z :=
  let '(e0, e1, e2) := portCache b in
  if pc_hit a e0 then pc_id e0 else if pc_hit a e1 then pc_id e1 else if pc_hit a e2 then pc_id e2 else -1.

Definition updatePortCache (b : Bus) (id st en : Z) : Bus :=
  let '(e0, e1, _) := portCache b in with_portCache b (mkPortCache true id st en, e0, e1).

Definition clearPortCache (b : Bus) : Bus :=
  let '(e0, e1, e2) := portCache b in
  let inv e := mkPortCache false (pc_id e) (pc_start e) (pc_end e) in
  with_portCache b (inv e0, inv e1, inv e2).

Definition bc_hit (id : Z) (e : BusCache) : bool := bc_valid e && (id =? bc_id e).

Definition checkBusCache (b : Bus) (id : Z) : option Z :=
  let '(e0, e1, e2) := busCache b in
  if bc_hit id e0 then Some (bc_port e0) else if bc_hit id e1 then Some (bc_port e1)
  else if bc_hit id e2 then Some (bc_port e2) else None.

Definition updateBusCache (b : Bus) (id port : Z) : Bus :=
  let '(e0, e1, _) := busCache b in with_busCache b (mkBusCache true id port, e0, e1).

Definition clearBusCache (b : Bus) : Bus :=
  let '(e0, e1, e2) := busCache b in
  let inv e := mkBusCache false (bc_id e) (bc_port e) in
  with_busCache b (inv e0, inv e1, inv e2).

(** ** Finding the target *)

Section Bus.

(** The entry of the map for an address. *)
Definition map_entry (b : Bus) (a : Z) : option (Range * Z) :=
  i ← find (portMap b) (RangeSize a 1); portMap b !! i.

(** [findPort]: the port, and the bus with its port cache updated. *)
Definition findPort (b : Bus) (a : Z) : option (Z * Bus) :=
  let dest := checkPortCache b a in
  let '(dest, b) :=
    if dest =? -1 then
      match map_entry b a with
      | Some (r, id) => (id, updatePortCache b id (r_start r) (r_end r))
      | None => (dest, b)
      end
    else (dest, b) in
  if dest =? -1 then
    if existsb (in_range a) (defaultRange b) then Some (defaultId, b)
    else if responderSet b then None else Some (defaultId, b)
  else Some (dest, b).

(** The port of a number, through the cache of ports. *)
Definition target_port (b : Bus) (id : Z) : option (Z * Bus) :=
  if id =? defaultId then if defaultPort b then Some (defaultId, b) else None
  else
    match checkBusCache b id with
    | Some port => Some (port, b)
    | None => if bool_decide (id ∈ interfaces b) then Some (id, updateBusCache b id id) else None
    end.

(** ** Transactions *)

Context {S : Type} (send : Z → Z → Packet.t → S → option (Packet.t * Z * S)).

(** The loop over the snooping ports; [resp] is the command and the latency of the
    snooper that has responded, if any. *)
Fixpoint snoop_loop (curTick : Z) (ports : list Z) (target : Z) (orig_cmd : Command) (orig_src : Z)
    (p : Packet.t) (resp : option (Command * Z)) (s : S) : option (Packet.t * option (Command * Z) * S) :=
  match ports with
  | [] => Some (p, resp, s)
  | id :: ports =>
      if id =? target then None
      else
        src ← Packet.getSrc p;
        if id =? src then snoop_loop curTick ports target orig_cmd orig_src p resp s
        else
          '(p, latency, s) ← send curTick id p s;
          if Packet.isResponse p then
            if bool_decide (Packet.cmd p = orig_cmd) || negb (Packet.memInhibitAsserted p) then None
            else
              match resp with
              | Some _ => None
              | None =>
                  let resp := Some (Packet.cmd p, latency) in
                  let p := Packet.setDest (Packet.setSrc (Packet.set_cmd p orig_cmd) orig_src) Packet.Broadcast in
                  snoop_loop curTick ports target orig_cmd orig_src p resp s
              end
          else snoop_loop curTick ports target orig_cmd orig_src p resp s
  end.

(** [recvAtomic]: the packet, the latency, its [finishTime], the bus and the
    devices. *)
Definition bus_recvAtomic (curTick : Z) (b : Bus) (p : Packet.t) (s : S)
    : option (Packet.t * Z * Z * Bus * S) :=
  dest ← Packet.getDest p;
  if negb (dest =? Packet.Broadcast) || negb (Packet.isRequest p) then None
  else
    let orig_cmd := Packet.cmd p in
    orig_src ← Packet.getSrc p;
    a ← Packet.getAddr p;
    '(target_id, b) ← findPort b a;
    '(target, b) ← target_port b target_id;
    '(p, resp, s) ← snoop_loop curTick (snoopPorts b) target orig_cmd orig_src p None s;
    src ← Packet.getSrc p;
    '(p, response_latency, s) ←
      (if target_id =? src then Some (p, 0, s) else send curTick target p s);
    '(p, response_latency) ←
      (match resp with
       | Some (cmd, l) =>
           if Packet.isResponse p || negb (bool_decide (Packet.cmd p = orig_cmd)) then None
           else Some (Packet.set_cmd p cmd, l)
       | None => Some (p, response_latency)
       end);
    Some (p, response_latency, s64 (curTick + response_latency), b, s).

(** [BusPort::recvAtomic] of the port [id]. *)
Definition busport_recvAtomic (curTick : Z) (id : Z) (b : Bus) (p : Packet.t) (s : S)
    : option (Packet.t * Z * Z * Bus * S) :=
  bus_recvAtomic curTick b (Packet.setSrc p id) s.

End Bus.

(** ** Functional accesses *)

Section Functional.

(** The port of a number, from the map. *)
Definition port_of (b : Bus) (id : Z) : option Z :=
  if id =? defaultId then if defaultPort b then Some id else None
  else if bool_decide (id ∈ interfaces b) then Some id else None.

Context {F : Type} (sendFunctional : Z → Packet.t → F → option (Packet.t * F)).

(** The loop over the snooping ports, which a response ends; the source is restored
    after each. *)
Fixpoint snoop_functional (ports : list Z) (port src_id : Z) (p : Packet.t) (s : F) : option (Packet.t * F) :=
  match ports with
  | [] => Some (p, s)
  | id :: ports =>
      '(p, s) ← (if negb (id =? port) && negb (id =? src_id) then sendFunctional id p s else Some (p, s));
      if Packet.isResponse p then Some (p, s) else snoop_functional ports port src_id (Packet.setSrc p src_id) s
  end.

Definition recvFunctional (b : Bus) (p : Packet.t) (s : F) : option (Packet.t * Bus * F) :=
  dest ← Packet.getDest p;
  if negb (dest =? Packet.Broadcast) then None
  else
    a ← Packet.getAddr p;
    '(port_id, b) ← findPort b a;
    port ← port_of b port_id;
    src_id ← Packet.getSrc p;
    if negb (Packet.isRequest p) then None
    else
      '(p, s) ← snoop_functional (snoopPorts b) port src_id p s;
      if Packet.isResponse p then Some (p, b, s)
      else
        src ← Packet.getSrc p;
        if port_id =? src then Some (p, b, s)
        else '(p, s) ← sendFunctional port p s; Some (p, b, s).

(** [BusPort::recvFunctional] of the port [id]. *)
Definition busport_recvFunctional (id : Z) (b : Bus) (p : Packet.t) (s : F) : option (Packet.t * Bus * F) :=
  recvFunctional b (Packet.setSrc p id) s.

(** The devices [ids] are asked one after the other and none of them responds. *)
Fixpoint ask (src : Z) (ids : list Z) (p : Packet.t) (s : F) : option (Packet.t * F) :=
  match ids with
  | [] => Some (p, s)
  | id :: ids =>
      '(p, s) ← sendFunctional id p s;
      if Packet.isResponse p then None else ask src ids (Packet.setSrc p src) s
  end.

Lemma setSrc_response p n : Packet.isResponse (Packet.setSrc p n) = Packet.isResponse p.
Proof. done. Qed.

(** Every device answers. *)
Definition answering : Prop := ∀ id p s, is_Some (sendFunctional id p s).

Lemma snoop_functional_total port src ports : answering → ∀ p s, is_Some (snoop_functional ports port src p s).
Proof.
  intros Ha. induction ports as [|id ports IH]; intros p s; [by eexists|]. cbn [snoop_functional].
  assert (is_Some (if negb (id =? port) && negb (id =? src) then sendFunctional id p s else Some (p, s))) as [[p1 s1] ->]
    by (case_match; [apply Ha|by eexists]).
  cbn [mbind option_bind]. case_match; [by eexists|apply IH].
Qed.

(** The loop asks the snoopers until one responds. *)
Lemma snoop_functional_asks port src ports : ∀ p s p' s',
  Packet.getSrc p = Some src → Packet.isResponse p = false →
  snoop_functional ports port src p s = Some (p', s') →
  let asked := filter (λ id, id ≠ port ∧ id ≠ src) ports in
  if Packet.isResponse p'
  then ∃ pre id post p1 s1, asked = pre ++ id :: post ∧ ask src pre p s = Some (p1, s1) ∧ sendFunctional id p1 s1 = Some (p', s')
  else ask src asked p s = Some (p', s') ∧ Packet.getSrc p' = Some src.
Proof.
  induction ports as [|id ports IH]; intros p s p' s' Hsrc Hr; cbn [snoop_functional].
  { intros [= <- <-]. cbv zeta. by rewrite Hr. }
  cbv zeta. rewrite filter_cons. case_decide as Hd.
  - rewrite !(proj2 (Z.eqb_neq _ _)) by apply Hd. cbn [negb andb].
    destruct (sendFunctional id p s) as [[p1 s1]|] eqn:Es; [|done]. cbn [mbind option_bind].
    destruct (Packet.isResponse p1) eqn:Hr1.
    + intros [= <- <-]. rewrite Hr1. by exists [], id, (filter (λ id, id ≠ port ∧ id ≠ src) ports), p, s.
    + intros H. destruct (setSrc_frame p1 src) as (_ & R & _). injection R as R _.
      specialize (IH (Packet.setSrc p1 src) s1 p' s' R Hr1 H). cbv zeta in IH.
      destruct (Packet.isResponse p').
      * destruct IH as (pre & i & post & p2 & s2 & El & Ea & Ei). exists (id :: pre), i, post, p2, s2.
        split_and!; [by rewrite El| |done]. cbn [ask]. rewrite Es. cbn [mbind option_bind]. by rewrite Hr1.
      * cbn [ask]. rewrite Es. cbn [mbind option_bind]. by rewrite Hr1.
  - destruct (negb (id =? port) && negb (id =? src)) eqn:En; [zbool; naive_solver|].
    cbn [mbind option_bind]. rewrite Hr, setSrc_same by done. by apply IH.
Qed.

End Functional.

(** ** The caches of the bus are transparent *)

Section Caches.

(** Every valid entry of a cache is an entry of what it caches. *)
Definition pc_ok (b : Bus) (e : PortCache) : Prop :=
  pc_valid e = true → ∃ r, (r, pc_id e) ∈ portMap b ∧ pc_start e = r_start r ∧ pc_end e = r_end r.
Definition bc_ok (b : Bus) (e : BusCache) : Prop :=
  bc_valid e = true → bc_port e = bc_id e ∧ bc_id e ∈ interfaces b.

Record bus_ok (b : Bus) : Prop := {
  bo_map : rm_ok (portMap b);
  bo_ids : ∀ r id, (r, id) ∈ portMap b → id ≠ -1;
  bo_ports : let '(e0, e1, e2) := portCache b in pc_ok b e0 ∧ pc_ok b e1 ∧ pc_ok b e2;
  bo_faces : let '(e0, e1, e2) := busCache b in bc_ok b e0 ∧ bc_ok b e1 ∧ bc_ok b e2
}.

(** The bus without its caches. *)
Definition same_config (b b' : Bus) : Prop :=
  portMap b' = portMap b ∧ defaultRange b' = defaultRange b ∧ responderSet b' = responderSet b ∧
  defaultPort b' = defaultPort b ∧ interfaces b' = interfaces b ∧ snoopPorts b' = snoopPorts b ∧ maxId b' = maxId b.

Lemma same_config_trans b b1 b2 : same_config b b1 → same_config b1 b2 → same_config b b2.
Proof. unfold same_config. intros (?&?&?&?&?&?&?) (?&?&?&?&?&?&?). split_and!; congruence. Qed.

Definition findPort_ref (b : Bus) (a : Z) : option Z :=
  match value_at (portMap b) a with
  | Some id => Some id
  | None => if existsb (in_range a) (defaultRange b) || negb (responderSet b) then Some defaultId else None
  end.

Lemma pc_hit_value b e a :
  rm_ok (portMap b) → is_u64 a → pc_ok b e → pc_hit a e = true → value_at (portMap b) a = Some (pc_id e).
Proof.
  intros Hm Ha He Hh. unfold pc_hit in Hh. apply andb_true_iff in Hh as [Hh Hlt]. apply andb_true_iff in Hh as [Hv Hle].
  destruct (He Hv) as (r & Hr & Es & Ee). apply value_at_spec; [done..|]. exists r. split; [done|].
  unfold in_range. zbool. rewrite !(proj2 (Z.leb_le _ _)) by lia. done.
Qed.

Lemma checkPortCache_spec b a :
  bus_ok b → is_u64 a → checkPortCache b a = -1 ∨ value_at (portMap b) a = Some (checkPortCache b a).
Proof.
  intros [Hm _ Hp _] Ha. unfold checkPortCache. destruct (portCache b) as [[e0 e1] e2].
  destruct Hp as (H0 & H1 & H2). repeat (case_match; [right; by apply pc_hit_value|]). by left.
Qed.

Lemma map_entry_spec b a :
  rm_ok (portMap b) → is_u64 a →
  match map_entry b a with
  | Some (r, id) => (r, id) ∈ portMap b ∧ value_at (portMap b) a = Some id
  | None => value_at (portMap b) a = None
  end.
Proof.
  intros Hm Ha. unfold map_entry, value_at. destruct (find (portMap b) (RangeSize a 1)) as [i|]; [|done].
  cbn [mbind option_bind]. destruct (portMap b !! i) as [[r id]|] eqn:Ei; [|done].
  split; [by eapply list_elem_of_lookup_2|done].
Qed.

Lemma updatePortCache_ok b r id :
  bus_ok b → (r, id) ∈ portMap b →
  bus_ok (updatePortCache b id (r_start r) (r_end r)) ∧ same_config b (updatePortCache b id (r_start r) (r_end r)).
Proof.
  intros [Hm Hi Hp Hf] Hr. unfold updatePortCache. destruct (portCache b) as [[e0 e1] e2].
  destruct Hp as (H0 & H1 & _). split; [|done]. split; try done. cbn. split_and!; try done. intros _. by exists r.
Qed.

Lemma findPort_cached b a :
  bus_ok b → is_u64 a →
  match findPort_ref b a with
  | Some id => ∃ b', findPort b a = Some (id, b') ∧ bus_ok b' ∧ same_config b b'
  | None => findPort b a = None
  end.
Proof.
  intros Hok Ha. pose proof Hok as [Hm Hi _ _]. unfold findPort_ref, findPort.
  destruct (checkPortCache_spec b a Hok Ha) as [Hc|Hc].
  - rewrite Hc, Z.eqb_refl. pose proof (map_entry_spec b a Hm Ha) as He.
    destruct (map_entry b a) as [[r id]|].
    + destruct He as [Hr ->]. destruct (updatePortCache_ok b r id Hok Hr) as [Hok' Hs].
      rewrite (proj2 (Z.eqb_neq _ _)) by (by apply (Hi r)). by eexists.
    + rewrite He, Z.eqb_refl. destruct (existsb (in_range a) (defaultRange b)), (responderSet b); cbn; try done;
        exists b; done.
  - rewrite Hc. apply value_at_spec in Hc as Hv; [|done..]. destruct Hv as (r & Hr & _).
    rewrite (proj2 (Z.eqb_neq (checkPortCache b a) (-1))) by (by apply (Hi r)).
    rewrite (proj2 (Z.eqb_neq _ _)) by (by apply (Hi r)). by exists b.
Qed.

Lemma target_port_ok b id :
  bus_ok b → id ≠ defaultId → id ∈ interfaces b →
  ∃ b', target_port b id = Some (id, b') ∧ bus_ok b' ∧ same_config b b'.
Proof.
  intros [Hm Hi Hp Hf] Hd Hin. unfold target_port. rewrite (proj2 (Z.eqb_neq _ _)) by done.
  unfold checkBusCache. destruct (busCache b) as [[e0 e1] e2] eqn:Eb. destruct Hf as (H0 & H1 & H2).
  assert (∀ e, bc_ok b e → bc_hit id e = true → bc_port e = id) as Hhit.
  { intros e He Hh. unfold bc_hit in Hh. apply andb_true_iff in Hh as [Hv E%Z.eqb_eq]. destruct (He Hv). congruence. }
  assert (bus_ok b) as Hok by (split; try done; by rewrite Eb).
  destruct (bc_hit id e0) eqn:E0; [exists b; by rewrite (Hhit e0 H0 E0)|].
  destruct (bc_hit id e1) eqn:E1; [exists b; by rewrite (Hhit e1 H1 E1)|].
  destruct (bc_hit id e2) eqn:E2; [exists b; by rewrite (Hhit e2 H2 E2)|].
  rewrite bool_decide_eq_true_2 by done. eexists. split; [done|]. unfold updateBusCache. rewrite Eb.
  split; [|done]. split; try done.
Qed.

End Caches.

(** The port cache of the bus is transparent: in every consistent state of the
    caches, [findPort] finds the port of the range that contains the address, or the
    default port, or panics, as it would without the cache, and leaves the caches
    consistent and the configuration unchanged. *)
Theorem port_cache_transparent b a :
  bus_ok b → is_u64 a →
  match findPort_ref b a with
  | Some id => ∃ b', findPort b a = Some (id, b') ∧ bus_ok b' ∧ same_config b b'
  | None => findPort b a = None
  end.
Proof. apply findPort_cached. Qed.

Lemma request_not_response p : Packet.isRequest p = true → Packet.isResponse p = false.
Proof. unfold Packet.isRequest, Packet.isResponse. by destruct (Packet.cmd p). Qed.

(** A functional access is answered by the first device that can.  When every device
    answers, a request for an address of the map is completed, the map and the ports are
    as they were, and either a snooper has responded, and then the snoopers before it
    have been asked and have not responded, and no device after it, nor the one that owns
    the address, has seen the request; or every snooper but the sender and the owner has
    been asked without response, and the owner has been asked last. *)
Theorem functional_first_responder {F} sendFunctional b p a src id (s : F) :
  answering sendFunctional → bus_ok b → is_u64 a → Packet.getAddr p = Some a → Packet.getSrc p = Some src →
  Packet.getDest p = Some Packet.Broadcast → Packet.isRequest p = true →
  findPort_ref b a = Some id → port_of b id = Some id →
  let asked := filter (λ j, j ≠ id ∧ j ≠ src) (snoopPorts b) in
  ∃ p' b' s', recvFunctional sendFunctional b p s = Some (p', b', s') ∧ bus_ok b' ∧ same_config b b' ∧
    ((∃ pre j post p1 s1, asked = pre ++ j :: post ∧ ask sendFunctional src pre p s = Some (p1, s1) ∧
        sendFunctional j p1 s1 = Some (p', s') ∧ Packet.isResponse p' = true) ∨
     ∃ p1 s1, ask sendFunctional src asked p s = Some (p1, s1) ∧
       if id =? src then (p', s') = (p1, s1) else sendFunctional id p1 s1 = Some (p', s')).
Proof.
  intros Hans Hok Hu Ha Hsrc Hdest Hreq Hf Hport. cbv zeta.
  pose proof (findPort_cached b a Hok Hu) as Hc. rewrite Hf in Hc. destruct Hc as (b' & Hc & Hok' & Hsame).
  pose proof (request_not_response p Hreq) as Hr. unfold recvFunctional. rewrite Hdest, Ha. cbn [mbind option_bind].
  rewrite Hc. cbn [mbind option_bind]. change (negb (Packet.Broadcast =? Packet.Broadcast)) with false. cbv iota.
  destruct Hsame as (E1 & E2 & E3 & E4 & E5 & E6 & E7). unfold port_of in *. rewrite E4, E5, Hport, Hsrc, Hreq, E6.
  cbn [mbind option_bind negb].
  destruct (snoop_functional_total sendFunctional id src (snoopPorts b) Hans p s) as [[p1 s1] Hs].
  pose proof (snoop_functional_asks sendFunctional id src _ _ _ _ _ Hsrc Hr Hs) as H. cbv zeta in H. rewrite Hs. cbn [mbind option_bind].
  destruct (Packet.isResponse p1) eqn:Hr1.
  - exists p1, b', s1. split_and!; [done..|]. left. destruct H as (pre & j & post & p2 & s2 & El & Ea & Ej).
    by exists pre, j, post, p2, s2.
  - destruct H as [Hask ->]. cbn [mbind option_bind].
    destruct (id =? src) eqn:Ei.
    + exists p1, b', s1. split_and!; [done..|]. right. by exists p1, s1.
    + destruct (Hans id p1 s1) as [[p2 s2] E]. rewrite E. cbn [mbind option_bind]. exists p2, b', s2. split_and!; [done..|].
      right. by exists p1, s1.
Qed.

(** A bus with two devices and a cached entry. *)
Definition demo_bus : Bus :=
  let none := mkPortCache false 0 0 0 in
  let nobc := mkBusCache false 0 0 in
  mkBus [(RangeIn 0 1023, 2); (RangeIn 4096 8191, 3)] [] true false [0; 1; 2; 3] [0; 1]
    (mkPortCache true 2 0 1023, none, none) (nobc, nobc, nobc) 4 None 64 None ∅.

Lemma demo_bus_ok : bus_ok demo_bus.
Proof.
  split; cbn.
  - split; by repeat constructor.
  - intros r id Hr. rewrite !elem_of_cons, elem_of_nil in Hr. destruct Hr as [[= -> ->]|[[= -> ->]|[]]]; done.
  - split_and!; [|done..]. intros _. exists (RangeIn 0 1023). split_and!; try done. set_solver.
  - done.
Qed.

Lemma port_cache_transparent_witness :
  ∃ b', findPort demo_bus 4100 = Some (3, b') ∧ bus_ok b' ∧ same_config demo_bus b'.
Proof. apply (port_cache_transparent demo_bus 4100); [apply demo_bus_ok|done]. Defined.

(** The device at 1 responds, after the one at 0, and logs who has been asked. *)
Definition demo_functional (id : Z) (p : Packet.t) (s : list Z) : option (Packet.t * list Z) :=
  Some (if id =? 1 then Packet.set_cmd p ReadResp else p, s ++ [id]).

Lemma functional_first_responder_witness :
  let p := Packet.setSrc (demo_pkt ReadReq 4100 4 None) 2 in
  ∃ p' b', recvFunctional demo_functional demo_bus p [] = Some (p', b', [0; 1]) ∧ same_config demo_bus b'.
Proof.
  cbv zeta. set (p := Packet.setSrc (demo_pkt ReadReq 4100 4 None) 2).
  destruct (functional_first_responder demo_functional demo_bus p 4100 2 3 []) as (p' & b' & s' & E & _ & Hc & _);
    [by intros ???; eexists|apply demo_bus_ok|done|done|done|done|done|done| |].
  - unfold port_of. cbn [Z.eqb defaultId]. rewrite bool_decide_eq_true_2; [done|]. cbn. set_solver.
  - exists p', b'. split; [|done]. rewrite E. assert (s' = [0; 1]) as ->; [|done].
    assert (option_map snd (recvFunctional demo_functional demo_bus p []) = Some [0; 1]) as E2 by (vm_compute; reflexivity).
    rewrite E in E2. by injection E2.
Defined.
