(* ===== verification/BusRanges.v ===== *)
(** The ports and the address ranges of the bus, [src/m5/src/mem/bus.hh] and [bus.cc].

    Ports are made and deleted, a device announces the ranges that it answers and
    whether it snoops, and the bus tells its other devices.  What the devices say and
    what they do when they are told are parameters. *)

From S2P Require Import Prelude RangeMap Bus.

(** ** Setters *)

Definition with_ports (b : Bus) (ifs : list Z) (dp : bool) (mx : Z) (fp : option Z) (bs : option Z) : Bus :=
  mkBus (portMap b) (defaultRange b) (responderSet b) dp ifs (snoopPorts b) (portCache b) (busCache b)
    mx fp (defaultBlockSize b) bs (inRecvStatusChange b).
Definition with_ranges (b : Bus) (m : list (Range * Z)) (dr : list Range) (sn : list Z) : Bus :=
  mkBus m dr (responderSet b) (defaultPort b) (interfaces b) sn (portCache b) (busCache b)
    (maxId b) (funcPort b) (defaultBlockSize b) (cachedBlockSize b) (inRecvStatusChange b).
Definition with_inRecv (b : Bus) (s : gset Z) : Bus :=
  mkBus (portMap b) (defaultRange b) (responderSet b) (defaultPort b) (interfaces b) (snoopPorts b) (portCache b)
    (busCache b) (maxId b) (funcPort b) (defaultBlockSize b) (cachedBlockSize b) s.
Definition with_cachedBlockSize (b : Bus) (n : Z) : Bus :=
  with_ports b (interfaces b) (defaultPort b) (maxId b) (funcPort b) (Some n).

(** ** Ports *)

(** The constructor; the caches of the bus are cleared. *)
Definition Bus_new (responder_set : bool) (block_size : Z) : Bus :=
  let pc := mkPortCache false 0 0 0 in
  let bc := mkBusCache false 0 0 in
  mkBus [] [] responder_set false [] [] (pc, pc, pc) (bc, bc, bc) 0 None block_size None ∅.

Inductive port_name := port_default | port_functional | port_other.

Definition add_interface (ifs : list Z) (id : Z) : list Z := if bool_decide (id ∈ ifs) then ifs else ifs ++ [id].

(** [getPort]: the number of the port. *)
Definition getPort (b : Bus) (name : port_name) : option (Z * Bus) :=
  match name with
  | port_default =>
      if defaultPort b then None
      else Some (defaultId, with_ports b (interfaces b) true (maxId b) (funcPort b) None)
  | port_functional =>
      match funcPort b with
      | Some id => Some (id, b)
      | None =>
          let id := maxId b in
          Some (id, with_ports b (add_interface (interfaces b) id) (defaultPort b) (wrapS 16 (id + 1)) (Some id)
                      (cachedBlockSize b))
      end
  | port_other =>
      let id := maxId b in
      let mx := wrapS 16 (id + 1) in
      if mx <? 32767 then
        Some (id, with_ports b (add_interface (interfaces b) id) (defaultPort b) mx (funcPort b) None)
      else None
  end.

Definition deletePortRefs (b : Bus) (id : Z) : Bus :=
  if bool_decide (funcPort b = Some id) then b
  else clearBusCache (with_ports b (filter (λ i, i ≠ id) (interfaces b)) (defaultPort b) (maxId b) (funcPort b)
                        (cachedBlockSize b)).

(** ** The ranges of a device *)

Section Status.

(** [getPeerAddressRanges] of the device at a port: its ranges and whether it snoops;
    and [sendStatusChange] to it, in which it may call the bus. *)
Context {S : Type} (peer_ranges : Z → S → option (list Range * bool)) (tell : Z → Bus * S → option (Bus * S)).

(** The loop that enters the ranges; a range that meets another one is a fatal
    error. *)
Fixpoint insert_ranges (m : list (Range * Z)) (rs : list Range) (id : Z) : option (list (Range * Z)) :=
  match rs with
  | [] => Some m
  | r :: rs => match insert m r id with
               | (Some _, m) => insert_ranges m rs id
               | (None, _) => None
               end
  end.

(** [recvStatusChange] up to the calls of the other devices. *)
Definition update_ranges (b : Bus) (id : Z) (s : S) : option Bus :=
  let b := clearPortCache b in
  if id =? defaultId then
    let b := with_ranges b (portMap b) [] (snoopPorts b) in
    if responderSet b then
      if negb (defaultPort b) then None
      else
        '(rs, snoops) ← peer_ranges id s;
        if (snoops : bool) then None else Some (with_ranges b (portMap b) rs (snoopPorts b))
    else Some b
  else if negb ((0 <=? id) && (id <? maxId b)) || negb (bool_decide (id ∈ interfaces b)) then None
  else
    let m := filter (λ x, x.2 ≠ id) (portMap b) in
    let sn := filter (λ i, i ≠ id) (snoopPorts b) in
    '(rs, snoops) ← peer_ranges id s;
    let sn := if (snoops : bool) then sn ++ [id] else sn in
    m ← insert_ranges m rs id;
    Some (with_ranges b m (defaultRange b) sn).

Fixpoint tell_all (ids : list Z) (x : Bus * S) : option (Bus * S) :=
  match ids with
  | [] => Some x
  | i :: ids => x ← tell i x; tell_all ids x
  end.

(** The ports that are told, in the order of the map [interfaces]. *)
Definition others (b : Bus) (id : Z) : list Z :=
  filter (λ i, i ≠ id ∧ i ≠ default (-4) (funcPort b)) (interfaces b).

Definition recvStatusChange (id : Z) (b : Bus) (s : S) : option (Bus * S) :=
  if bool_decide (id ∈ inRecvStatusChange b) then Some (b, s)
  else
    let b := with_inRecv b ({[ id ]} ∪ inRecvStatusChange b) in
    b ← update_ranges b id s;
    x ← tell_all (others b id) (b, s);
    '(b, s) ← (if negb (id =? defaultId) && defaultPort x.1 then tell defaultId x else Some x);
    Some (with_inRecv b (inRecvStatusChange b ∖ {[ id ]}), s).

(** [init] tells every device. *)
Definition bus_init (b : Bus) (s : S) : option (Bus * S) := tell_all (interfaces b) (b, s).

End Status.

(** ** What the bus answers for the devices behind it *)

(** The test of a range [r] against the range [d] of the default port. *)
Definition crosses (r d : Range) : bool :=
  (r_start r <? r_start d) && (r_start d <=? r_end r) || (r_start r <? r_end d) && (r_end d <=? r_end r).
Definition within (r d : Range) : bool := (r_start d <=? r_start r) && (r_end r <=? r_end d).

(** The loop over the ports; [dr] are the default ranges. *)
Fixpoint port_ranges (dr : list Range) (m : list (Range * Z)) (id : Z) : option (list Range) :=
  match m with
  | [] => Some []
  | (r, p) :: m =>
      if existsb (crosses r) dr then None
      else
        rs ← port_ranges dr m id;
        Some (if negb (p =? id) && negb (existsb (within r) dr) then r :: rs else rs)
  end.

(** [addressRanges]: the ranges and whether somebody else snoops. *)
Definition addressRanges (b : Bus) (id : Z) : option (list Range * bool) :=
  rs ← port_ranges (defaultRange b) (portMap b) id;
  Some (defaultRange b ++ rs, existsb (λ p, negb (p =? id)) (snoopPorts b)).

(** [findBlockSize]; [peer n] is [peerBlockSize] of the port [n]. *)
Definition findBlockSize (peer : Z → Z) (b : Bus) : option (Z * Bus) :=
  match cachedBlockSize b with
  | Some n => Some (n, b)
  | None =>
      if forallb (λ x, bool_decide (x.2 ∈ interfaces b)) (portMap b) then
        let mx := foldl Z.max 0 (map peer (map snd (portMap b) ++ snoopPorts b)) in
        let mx := if mx =? 0 then defaultBlockSize b else mx in
        Some (mx, with_cachedBlockSize b mx)
      else None
  end.

(** ** What a status change does *)

(** Ranges that are not empty and meet none of the others. *)
Fixpoint separate (rs : list Range) : Prop :=
  match rs with
  | [] => True
  | r :: rs => r_start r <= r_end r ∧ Forall (λ r', overlaps r r' = false) rs ∧ separate rs
  end.

Lemma overlaps_comm e r : overlaps e r = overlaps r e.
Proof. unfold overlaps. apply andb_comm. Qed.

Lemma insert_ranges_ok rs id : ∀ m,
  rm_ok m → separate rs → Forall (λ x, Forall (λ r, overlaps x.1 r = false) rs) m →
  ∃ m', insert_ranges m rs id = Some m' ∧ rm_ok m' ∧ ∀ x, x ∈ m' ↔ x ∈ m ∨ ∃ r, r ∈ rs ∧ x = (r, id).
Proof.
  induction rs as [|r rs IH]; intros m Hok Hsep Hd.
  { exists m. split_and!; [done..|]. intros x. split; [auto|]. by intros [?|(r & []%elem_of_nil & _)]. }
  destruct Hsep as (Hr & Hrs & Hsep).
  assert (Forall (λ x, overlaps x.1 r = false) m ∧ Forall (λ x, Forall (λ r, overlaps x.1 r = false) rs) m) as [Hd1 Hd2].
  { split; (eapply Forall_impl; [exact Hd|]); intros x Hx; by apply Forall_cons in Hx as [? ?]. }
  destruct (insert_disjoint m r id Hok Hr Hd1) as [Hi Hok']. set (u := upper_bound m r) in *.
  set (m1 := take u m ++ (r, id) :: drop u m) in *.
  assert (∀ x, x ∈ m1 ↔ x = (r, id) ∨ x ∈ m) as Hin.
  { intros x. unfold m1. rewrite <- (take_drop u m) at 3. rewrite !elem_of_app, elem_of_cons. tauto. }
  destruct (IH m1) as (m' & Hm' & Hok2 & Hin2); try done.
  { apply Forall_forall. intros x [->|Hx]%Hin; [done|]. rewrite Forall_forall in Hd2. by apply Hd2. }
  exists m'. cbn [insert_ranges]. rewrite Hi. split_and!; [done..|]. intros x. rewrite Hin2, Hin. setoid_rewrite elem_of_cons.
  naive_solver.
Qed.

Lemma rm_ok_filter (P : Range * Z → Prop) `{!∀ x, Decision (P x)} m : rm_ok m → rm_ok (filter P m).
Proof.
  intros [Hf Hs]. split.
  - apply Forall_forall. intros x [_ Hx]%list_elem_of_filter. rewrite Forall_forall in Hf. by apply Hf.
  - apply (StronglySorted_sublist _ _ m); [|done]. apply sublist_filter.
Qed.

(** An entry of the map for an address. *)
Lemma value_at_None (m : list (Range * Z)) a :
  rm_ok m → is_u64 a → value_at m a = None ↔ ∀ e v, (e, v) ∈ m → in_range a e = false.
Proof.
  intros Hok Ha. split.
  - intros E e v He. destruct (in_range a e) eqn:Hin; [|done].
    assert (value_at m a = Some v) as E2 by (apply value_at_spec; [done..|by exists e]). congruence.
  - intros H. destruct (value_at m a) as [v|] eqn:E; [|done]. apply value_at_spec in E as (e & He & Hin); [|done..].
    by rewrite (H e v He) in Hin.
Qed.

(** The ranges of the port [id] are [rs] now. *)
Lemma replaced_ranges (m m' : list (Range * Z)) rs (id a : Z) :
  rm_ok m → rm_ok m' → is_u64 a →
  (∀ x, x ∈ m' ↔ x ∈ filter (λ x, x.2 ≠ id) m ∨ ∃ r, r ∈ rs ∧ x = (r, id)) →
  value_at m' a = if existsb (in_range a) rs then Some id
                  else match value_at m a with Some v => if decide (v = id) then None else Some v | None => None end.
Proof.
  intros Hok Hok' Ha Hin. destruct (existsb (in_range a) rs) eqn:Er.
  - apply existsb_exists in Er as (r & Hr%list_elem_of_In & Har). apply value_at_spec; [done..|]. exists r. split; [|done].
    apply Hin. right. by exists r.
  - assert (∀ r, r ∈ rs → in_range a r = false) as Hno.
    { intros r Hr. destruct (in_range a r) eqn:E; [|done]. enough (existsb (in_range a) rs = true) by congruence.
      apply existsb_exists. exists r. split; [by apply list_elem_of_In|done]. }
    apply option_eq. intros v. rewrite value_at_spec by done. split.
    + intros (e & [He|(r & Hr & [= -> ->])]%Hin & Hae); [|by rewrite Hno in Hae].
      apply list_elem_of_filter in He as [Hne He]. cbn in Hne.
      assert (value_at m a = Some v) as -> by (apply value_at_spec; [done..|by exists e]). by rewrite decide_False.
    + destruct (value_at m a) as [w|] eqn:E; [|done]. destruct (decide (w = id)) as [|Hne]; [done|]. intros [= <-].
      apply value_at_spec in E as (e & He & Hae); [|done..]. exists e. split; [|done]. apply Hin. left.
      by apply list_elem_of_filter.
Qed.

Lemma clearPortCache_config b : same_config b (clearPortCache b) ∧ interfaces (clearPortCache b) = interfaces b ∧
  maxId (clearPortCache b) = maxId b ∧ busCache (clearPortCache b) = busCache b ∧
  (∀ b', pc_ok b' (portCache (clearPortCache b)).1.1 ∧ pc_ok b' (portCache (clearPortCache b)).1.2 ∧
     pc_ok b' (portCache (clearPortCache b)).2).
Proof. unfold clearPortCache. by destruct (portCache b) as [[e0 e1] e2]. Qed.

(** Devices that do not call the bus when they are told. *)
Definition quiet {S} (tell : Z → Bus * S → option (Bus * S)) : Prop := ∀ p b s, ∃ s', tell p (b, s) = Some (b, s').

Lemma tell_all_quiet {S} (tell : Z → Bus * S → option (Bus * S)) ids b : quiet tell →
  ∀ s, ∃ s', tell_all tell ids (b, s) = Some (b, s').
Proof.
  intros Hq. induction ids as [|i ids IH]; intros s; [by exists s|]. cbn [tell_all].
  destruct (Hq i b s) as [s' ->]. apply IH.
Qed.

Lemma update_ranges_ok {S} (peer : Z → S → option (list Range * bool)) b id (s : S) rs snoops :
  bus_ok b → 0 <= id < maxId b → id ∈ interfaces b → peer id s = Some (rs, snoops) → separate rs →
  Forall (λ x, x.2 ≠ id → Forall (λ r, overlaps x.1 r = false) rs) (portMap b) →
  ∃ m' pc, update_ranges peer b id s =
      Some (with_ranges (with_portCache b pc) m' (defaultRange b)
             (filter (λ i, i ≠ id) (snoopPorts b) ++ if (snoops : bool) then [id] else [])) ∧
    rm_ok m' ∧ (∀ x, x ∈ m' ↔ x ∈ filter (λ x, x.2 ≠ id) (portMap b) ∨ ∃ r, r ∈ rs ∧ x = (r, id)) ∧
    ∀ b', pc_ok b' pc.1.1 ∧ pc_ok b' pc.1.2 ∧ pc_ok b' pc.2.
Proof.
  intros [Hm _ _ _] Hid Hif Hp Hsep Hd.
  destruct (insert_ranges_ok rs id (filter (λ x, x.2 ≠ id) (portMap b))) as (m' & Hi & Hok' & Hin); [by apply rm_ok_filter|done| |].
  { apply Forall_forall. intros x [Hne Hx]%list_elem_of_filter. rewrite Forall_forall in Hd. by apply Hd. }
  destruct (clearPortCache_config b) as (_ & _ & _ & _ & Hpc).
  exists m', (portCache (clearPortCache b)). split_and!; [|done..].
  assert (clearPortCache b = with_portCache b (portCache (clearPortCache b))) as E
    by (unfold clearPortCache; by destruct (portCache b) as [[e0 e1] e2]).
  set (pc := portCache (clearPortCache b)) in *. clearbody pc. unfold update_ranges. rewrite E. cbv zeta.
  rewrite (proj2 (Z.eqb_neq _ _)) by (unfold defaultId; lia).
  cbn [maxId interfaces with_portCache]. rewrite (proj2 (Z.leb_le _ _)), (proj2 (Z.ltb_lt _ _)), bool_decide_eq_true_2 by (done || lia).
  cbn [negb andb orb]. rewrite Hp. cbn [mbind option_bind portMap with_portCache snoopPorts defaultRange].
  rewrite Hi. cbn [mbind option_bind]. destruct snoops; [done|]. by rewrite app_nil_r.
Qed.

(** The snoopers after a status change. *)
Definition new_snoopers (b : Bus) (id : Z) (snoops : bool) : list Z :=
  filter (λ i, i ≠ id) (snoopPorts b) ++ if snoops then [id] else [].

Lemma recvStatusChange_ok {S} peer tell b id (s : S) rs snoops :
  bus_ok b → 0 <= id < maxId b → id ∈ interfaces b → id ∉ inRecvStatusChange b → quiet tell →
  peer id s = Some (rs, snoops) → separate rs →
  Forall (λ x, x.2 ≠ id → Forall (λ r, overlaps x.1 r = false) rs) (portMap b) →
  ∃ m' pc s', let b' := with_ranges (with_portCache b pc) m' (defaultRange b) (new_snoopers b id snoops) in
    recvStatusChange peer tell id b s = Some (b', s') ∧ bus_ok b' ∧
    ∀ x, x ∈ m' ↔ x ∈ filter (λ x, x.2 ≠ id) (portMap b) ∨ ∃ r, r ∈ rs ∧ x = (r, id).
Proof.
  intros Hok Hid Hif Hnin Hq Hp Hsep Hd. set (b0 := with_inRecv b ({[ id ]} ∪ inRecvStatusChange b)).
  assert (bus_ok b0) as Hok0 by (destruct Hok; split; done).
  destruct (update_ranges_ok peer b0 id s rs snoops) as (m' & pc & Hu & Hok' & Hin & Hpc); try done.
  set (b1 := with_ranges _ _ _ _) in Hu.
  destruct (tell_all_quiet tell (others b1 id) b1 Hq s) as (s1 & Ht1).
  assert (∃ s2, (if negb (id =? defaultId) && defaultPort b1 then tell defaultId (b1, s1) else Some (b1, s1)) = Some (b1, s2))
    as (s2 & Ht2) by (destruct (negb _ && _); [apply Hq|by eexists]).
  exists m', pc, s2. cbn zeta. split_and!; [| |done].
  - unfold recvStatusChange. rewrite bool_decide_eq_false_2 by done. fold b0. rewrite Hu. cbn [mbind option_bind].
    rewrite Ht1. cbn [mbind option_bind fst]. rewrite Ht2. cbn [mbind option_bind].
    assert (inRecvStatusChange b1 ∖ {[id]} = inRecvStatusChange b) as -> by (cbn; set_solver). done.
  - destruct Hok as [_ Hi _ Hf]. split; [done| | |done].
    + intros r i [Hr|(r' & _ & [= -> ->])]%Hin; [|lia]. apply list_elem_of_filter in Hr as [_ Hr]. by apply (Hi r).
    + cbn. destruct pc as [[e0 e1] e2]. apply Hpc.
Qed.

(** A device that announces its ranges is found at them.  Whatever the bus has
    cached, after [recvStatusChange] of a port whose device answers the ranges [rs],
    which meet no range of another port, the caches and the map of the bus are
    consistent; every address in [rs] decodes to the port, an address that only the
    old ranges of the port had decodes to nothing, every other address as before; and
    the port is snooped exactly if its device asks for it. *)
Theorem status_change_routes {S} peer tell b id (s : S) rs snoops :
  bus_ok b → 0 <= id < maxId b → id ∈ interfaces b → id ∉ inRecvStatusChange b → quiet tell →
  peer id s = Some (rs, snoops) → separate rs →
  Forall (λ x, x.2 ≠ id → Forall (λ r, overlaps x.1 r = false) rs) (portMap b) →
  ∃ b' s', recvStatusChange peer tell id b s = Some (b', s') ∧ bus_ok b' ∧
    inRecvStatusChange b' = inRecvStatusChange b ∧
    (∀ a, is_u64 a → value_at (portMap b') a =
       if existsb (in_range a) rs then Some id
       else match value_at (portMap b) a with Some v => if decide (v = id) then None else Some v | None => None end) ∧
    (∀ a, is_u64 a → existsb (in_range a) rs = true → ∃ b2, findPort b' a = Some (id, b2)) ∧
    ∀ p, p ∈ snoopPorts b' ↔ if decide (p = id) then snoops = true else p ∈ snoopPorts b.
Proof.
  intros Hok Hid Hif Hnin Hq Hp Hsep Hd.
  destruct (recvStatusChange_ok peer tell b id s rs snoops) as (m' & pc & s2 & Hr & Hok2 & Hin); try done.
  cbn zeta in Hr, Hok2. set (b2 := with_ranges _ _ _ _) in *.
  assert (∀ a, is_u64 a → value_at (portMap b2) a =
    if existsb (in_range a) rs then Some id
    else match value_at (portMap b) a with Some v => if decide (v = id) then None else Some v | None => None end) as Hval
    by (intros a Ha; by apply (replaced_ranges (portMap b) m'); [apply Hok|apply Hok2|..]).
  exists b2, s2. split_and!; try done.
  - intros a Ha Hra. pose proof (findPort_cached b2 a Hok2 Ha) as Hf. unfold findPort_ref in Hf.
    rewrite Hval, Hra in Hf by done. destruct Hf as (b3 & Hf & _). by exists b3.
  - intros p. cbn. unfold new_snoopers. rewrite elem_of_app, list_elem_of_filter. destruct (decide (p = id)) as [->|Hne].
    + split; [intros [[? _]|Hs]; [done|]|intros ->; right; by left]. destruct snoops; [done|]. by apply elem_of_nil in Hs.
    + split; [|auto]. intros [[_ ?]|Hs]; [done|]. destruct snoops; [apply list_elem_of_singleton in Hs; done|by apply elem_of_nil in Hs].
Qed.

(** A bus with four ports on which two devices have announced ranges already. *)
Definition demo_peer (id : Z) (_ : unit) : option (list Range * bool) :=
  if id =? 3 then Some ([RangeIn 1024 2047; RangeIn 9000 9999], true) else None.

Lemma status_change_routes_witness :
  ∃ b' s', recvStatusChange demo_peer (λ _ x, Some x) 3 demo_bus tt = Some (b', s') ∧ bus_ok b' ∧
    value_at (portMap b') 9999 = Some 3 ∧ value_at (portMap b') 4096 = None ∧ value_at (portMap b') 5 = Some 2 ∧ 3 ∈ snoopPorts b'.
Proof.
  destruct (status_change_routes demo_peer (λ _ x, Some x) demo_bus 3 tt [RangeIn 1024 2047; RangeIn 9000 9999] true)
    as (b' & s' & H1 & H2 & _ & H3 & _ & H4); try done.
  - apply demo_bus_ok.
  - set_solver.
  - intros p b s. by exists s.
  - split_and!; try done; by repeat constructor.
  - apply Forall_forall. intros [r p] Hx. unfold demo_bus in Hx. cbn [portMap] in Hx. rewrite !elem_of_cons, elem_of_nil in Hx.
    destruct Hx as [[= -> ->]|[[= -> ->]|[]]]; [by repeat constructor|done].
  - exists b', s'. split_and!; [done|done| | | |by apply H4]; by rewrite H3.
Defined.

(** ** The ranges behind the bus *)

Lemma port_ranges_spec dr m id :
  match port_ranges dr m id with
  | Some rs => existsb (λ x, existsb (crosses x.1) dr) m = false ∧
      ∀ a, existsb (in_range a) dr || existsb (in_range a) rs =
        existsb (in_range a) dr || existsb (λ x, negb (x.2 =? id) && in_range a x.1) m
  | None => existsb (λ x, existsb (crosses x.1) dr) m = true
  end.
Proof.
  induction m as [|[r p] m IH]; [done|]. cbn [port_ranges existsb fst snd].
  destruct (existsb (crosses r) dr); [done|]. destruct (port_ranges dr m id) as [rs|]; [|done]. cbn [mbind option_bind orb].
  destruct IH as [-> IH]. split; [done|]. intros a. specialize (IH a).
  destruct (p =? id); cbn [negb andb orb]; [done|].
  destruct (existsb (within r) dr) eqn:Ew; cbn [negb existsb orb]; [|destruct (existsb (in_range a) dr); cbn [existsb orb] in *; by rewrite ?IH].
  destruct (in_range a r) eqn:Ea; [|done]. rewrite orb_true_r.
  apply existsb_exists in Ew as (d & Hd & Hw). unfold within in Hw. pose proof Ea as Ea'. unfold in_range in Ea. zbool.
  assert (existsb (in_range a) dr = true) as ->; [|done]. apply existsb_exists. exists d. split; [done|].
  unfold in_range. rewrite !(proj2 (Z.leb_le _ _)) by lia. done.
Qed.

(** What the bus answers for a port: the addresses of the ranges of [addressRanges]
    are those of the default ranges and of the ranges of the other ports, and there is
    somebody to snoop exactly if another port snoops.  It fails exactly if some range
    crosses a default range in the sense of the code. *)
Theorem addressRanges_spec b id :
  match addressRanges b id with
  | Some (rs, snoop) =>
      existsb (λ x, existsb (crosses x.1) (defaultRange b)) (portMap b) = false ∧
      (∀ a, existsb (in_range a) rs =
         existsb (in_range a) (defaultRange b) || existsb (λ x, negb (x.2 =? id) && in_range a x.1) (portMap b)) ∧
      (snoop = true ↔ ∃ p, p ∈ snoopPorts b ∧ p ≠ id)
  | None => existsb (λ x, existsb (crosses x.1) (defaultRange b)) (portMap b) = true
  end.
Proof.
  unfold addressRanges. pose proof (port_ranges_spec (defaultRange b) (portMap b) id) as H.
  destruct (port_ranges _ _ _) as [rs|]; [|done]. destruct H as [Hc Hr]. cbn [mbind option_bind]. split_and!; [done| |].
  - intros a. by rewrite existsb_app.
  - rewrite existsb_exists. split; intros (p & Hp & Hne); exists p; rewrite negb_true_iff, Z.eqb_neq in *;
      (split; [by apply list_elem_of_In|done]).
Qed.

(** The test for ranges that cross a default range rejects some that do not: a range
    within a default range, as the error message asks, that ends where the default range
    ends makes the query of every port a fatal error. *)
Theorem default_subset_rejected b id r p d :
  (r, p) ∈ portMap b → d ∈ defaultRange b → within r d = true → r_end r = r_end d → r_start r < r_end r →
  addressRanges b id = None.
Proof.
  intros Hr Hd Hw He Hs. pose proof (port_ranges_spec (defaultRange b) (portMap b) id) as H. unfold addressRanges.
  destruct (port_ranges _ _ _); [|done]. destruct H as [Hc _]. exfalso.
  assert (existsb (λ x, existsb (crosses x.1) (defaultRange b)) (portMap b) = true); [|congruence].
  apply existsb_exists. exists (r, p). split; [by apply list_elem_of_In|]. apply existsb_exists. exists d.
  split; [by apply list_elem_of_In|]. unfold crosses. cbn. rewrite (proj2 (Z.ltb_lt (r_start r) (r_end d))) by lia.
  rewrite (proj2 (Z.leb_le (r_end d) (r_end r))) by lia. by rewrite orb_true_r.
Qed.

(** The default range covers the upper half of the range of the device. *)
Definition demo_default : Bus :=
  with_ranges demo_bus [(RangeIn 50 100, 2)] [RangeIn 0 100] [].

Lemma default_subset_rejected_witness :
  within (RangeIn 50 100) (RangeIn 0 100) = true ∧ addressRanges demo_default 1 = None ∧
  is_Some (addressRanges (with_ranges demo_default [(RangeIn 50 99, 2)] [RangeIn 0 100] []) 1).
Proof.
  split_and!; [done| |by eexists].
  apply (default_subset_rejected demo_default 1 (RangeIn 50 100) 2 (RangeIn 0 100)); (set_solver || done).
Defined.

(** The block size is found once: what devices announce afterwards does not count. *)
Example block_size_stale :
  let peer n := if n =? 3 then 128 else 0 in
  let b := with_ranges demo_bus [] [] [] in
  (x ← findBlockSize peer b; '(b', _) ← recvStatusChange demo_peer (λ _ x, Some x) 3 x.2 tt; y ← findBlockSize peer b'; Some y.1) = Some 64 ∧
  ('(b', _) ← recvStatusChange demo_peer (λ _ x, Some x) 3 b tt; y ← findBlockSize peer b'; Some y.1) = Some 128.
Proof. done. Qed.
