(* ===== verification/BusTiming.v ===== *)
(** The bus in timing mode, [src/m5/src/mem/bus.hh] and [bus.cc]: who may use the bus,
    for how long, and who is asked to try again.

    The devices are a parameter: [sendTiming] delivers a packet to the device at a port,
    which accepts or refuses it; [sendRetry] asks the device to try again and gives the
    packets that it then sends, one after the other until one is refused, and [told]
    is what it makes of the answer.  Ticks are [s64]. *)

From S2P Require Import Prelude IntMath Packet RangeMap Bus.

(** ** State *)

Record TBus := mkTBus {
  decoder : Bus;
  clock : Z;
  headerCycles : Z;
  width : Z;
  tickNextIdle : Z;
  retryList : list Z;
  onRetryList : gset Z;
  inRetry : bool;
  busIdle : option Z;
  drainEvent : bool
}.

Definition with_decoder (b : TBus) (d : Bus) : TBus :=
  mkTBus d (clock b) (headerCycles b) (width b) (tickNextIdle b) (retryList b) (onRetryList b) (inRetry b) (busIdle b)
    (drainEvent b).
Definition with_retry (b : TBus) (l : list Z) (s : gset Z) (r : bool) : TBus :=
  mkTBus (decoder b) (clock b) (headerCycles b) (width b) (tickNextIdle b) l s r (busIdle b) (drainEvent b).
Definition with_tick (b : TBus) (t : Z) (e : option Z) : TBus :=
  mkTBus (decoder b) (clock b) (headerCycles b) (width b) t (retryList b) (onRetryList b) (inRetry b) e (drainEvent b).
Definition with_drain (b : TBus) (d : bool) : TBus :=
  mkTBus (decoder b) (clock b) (headerCycles b) (width b) (tickNextIdle b) (retryList b) (onRetryList b) (inRetry b)
    (busIdle b) d.

(** The constructor checks its parameters. *)
Definition TBus_new (d : Bus) (clk hc w : Z) : option TBus :=
  if (w <=? 0) || (clk <=? 0) || (hc <=? 0) then None else Some (mkTBus d clk hc w 0 [] ∅ false None false).

Definition startup (curTick : Z) (b : TBus) : TBus :=
  if tickNextIdle b <? curTick then with_tick b (s64 (Z.quot curTick (clock b) * clock b + clock b)) (busIdle b) else b.

(** ** The time on the bus *)

(** [tickNextIdle] brought up to the present tick. *)
Definition next_start (curTick : Z) (b : TBus) : Z :=
  if tickNextIdle b <? curTick then
    if Z.rem curTick (clock b) =? 0 then curTick else s64 (curTick - Z.rem curTick (clock b) + clock b)
  else tickNextIdle b.

Definition data_cycles (b : TBus) (p : Packet.t) : option Z :=
  if Packet.hasData p then
    n ← Packet.getSize p;
    let dataSize := s32 n in
    Some (Z.quot dataSize (width b) + if Z.rem dataSize (width b) =? 0 then 0 else 1)
  else Some 0.

(** [calcPacketTiming]: the end of the header, [firstWordTime] and [finishTime]. *)
Definition calcPacketTiming (curTick : Z) (b : TBus) (p : Packet.t) : option (Z * Z * Z * TBus) :=
  let start := next_start curTick b in
  let b := with_tick b start (busIdle b) in
  hc ← int_chk (headerCycles b * clock b);
  let headerTime := s64 (start + hc) in
  numCycles ← data_cycles b p;
  nc ← int_chk (numCycles * clock b);
  Some (headerTime, s64 (headerTime + clock b), s64 (headerTime + nc), b).

(** [occupyBus]; [reschedule] asserts that the time is not in the past. *)
Definition occupyBus (curTick until : Z) (b : TBus) : option TBus :=
  if until =? 0 then Some b else if until <? curTick then None else Some (with_tick b until (Some until)).

(** ** The retry list *)

Definition addToRetryList (port : Z) (b : TBus) : option TBus :=
  if negb (inRetry b) then
    if bool_decide (port ∈ onRetryList b) then None
    else Some (with_retry b (retryList b ++ [port]) ({[ port ]} ∪ onRetryList b) (inRetry b))
  else if bool_decide (port ∈ onRetryList b) then
    if bool_decide (head (retryList b) = Some port) then Some (with_retry b (retryList b) (onRetryList b) false) else None
  else Some (with_retry b (retryList b ++ [port]) ({[ port ]} ∪ onRetryList b) (inRetry b)).

(** The head of the list leaves it. *)
Definition popRetry (b : TBus) : option TBus :=
  match retryList b with
  | [] => None
  | x :: l => Some (with_retry b l (onRetryList b ∖ {[ x ]}) false)
  end.

(** ** Transactions *)

Section Timing.
Context {D : Type}
  (sendTiming : Z → Z → Packet.t → option (Z * Z) → D → option (bool * Packet.t * D))
  (sendRetry : Z → Z → D → option (list Packet.t * D))
  (told : Z → Packet.t → bool → D → D).

(** The loop over the snooping ports; a snoop must not be refused. *)
Fixpoint snoop_timing (curTick : Z) (ports : list Z) (dest src : Z) (times : option (Z * Z)) (p : Packet.t) (s : D)
    : option (Packet.t * D) :=
  match ports with
  | [] => Some (p, s)
  | id :: ports =>
      if negb (id =? dest) && negb (id =? src) then
        '(ok, p, s) ← sendTiming curTick id p times s;
        if (ok : bool) then snoop_timing curTick ports dest src times p s else None
      else snoop_timing curTick ports dest src times p s
  end.

(** Where the packet goes, after the snoops. *)
Definition route_timing (curTick : Z) (b : TBus) (src src_port : Z) (times : option (Z * Z)) (p : Packet.t) (s : D)
    : option (Z * Z * Packet.t * TBus * D) :=
  dest ← Packet.getDest p;
  if dest =? Packet.Broadcast then
    a ← Packet.getAddr p;
    '(id, d) ← findPort (decoder b) a;
    let b := with_decoder b d in
    dest_port ← port_of d id;
    '(p, s) ← snoop_timing curTick (snoopPorts d) dest_port src_port times p s;
    Some (id, dest_port, p, b, s)
  else if negb (dest <? maxId (decoder b)) || (dest =? src) then None
  else dest_port ← port_of (decoder b) dest; Some (dest, dest_port, p, b, s).

(** Whether the sender has to wait. *)
Definition must_wait (curTick : Z) (b : TBus) (port : Z) : bool :=
  (curTick <? tickNextIdle b) ||
  negb (bool_decide (retryList b = [])) && (negb (inRetry b) || negb (bool_decide (head (retryList b) = Some port))).

(** [recvTiming]: whether the packet has been accepted. *)
Definition recvTiming (curTick : Z) (b : TBus) (p : Packet.t) (s : D) : option (bool * Packet.t * TBus * D) :=
  src ← Packet.getSrc p;
  '(src_port, d) ← target_port (decoder b) src;
  let b := with_decoder b d in
  let express := Packet.isExpressSnoop p in
  if negb express && must_wait curTick b src_port then
    b ← addToRetryList src_port b; Some (false, p, b, s)
  else
    '(headerFinish, times, finish, b) ←
      (if express then Some (0, None, 0, b)
       else '(h, first, fin, b) ← calcPacketTiming curTick b p; Some (h, Some (first, fin), fin, b));
    dest ← Packet.getDest p;
    '(dest_id, dest_port, p, b, s) ← route_timing curTick b src src_port times p s;
    '(ok, p, s) ←
      (if dest_id =? src then if dest =? Packet.Broadcast then Some (true, p, s) else None
       else sendTiming curTick dest_port p times s);
    if (ok : bool) then
      b ← occupyBus curTick finish b;
      b ← (if inRetry b then popRetry b else Some b);
      Some (true, p, b, s)
    else if Packet.isResponse p || Packet.memInhibitAsserted p then None
    else
      b ← addToRetryList src_port b;
      b ← occupyBus curTick headerFinish b;
      Some (false, p, b, s).

(** [BusPort::recvTiming] of the port [id]. *)
Definition port_recvTiming (curTick : Z) (id : Z) (b : TBus) (p : Packet.t) (s : D) :=
  recvTiming curTick b (Packet.setSrc p id) s.

(** The packets that a device sends when it is asked to try again. *)
Fixpoint resend (curTick : Z) (id : Z) (ps : list Packet.t) (b : TBus) (s : D) : option (TBus * D) :=
  match ps with
  | [] => Some (b, s)
  | p :: ps =>
      '(ok, _, b, s) ← port_recvTiming curTick id b p s;
      let s := told id p ok s in
      if (ok : bool) then resend curTick id ps b s else Some (b, s)
  end.

(** The loop that brings [tickNextIdle] up to the present; it ends because the clock
    period is positive. *)
Fixpoint catch_up (fuel : nat) (curTick clk t : Z) : Z :=
  match fuel with
  | O => t
  | S fuel => if t <? curTick then catch_up fuel curTick clk (t + clk) else t
  end.

(** A grant that was not used. *)
Definition missed_grant (curTick : Z) (b : TBus) : option TBus :=
  b ← popRetry b;
  let t := catch_up (Z.to_nat (curTick - tickNextIdle b)) curTick (clock b) (tickNextIdle b) in
  let t := s64 (t + clock b) in
  if t <? curTick then None else Some (with_tick b t (Some t)).

(** [recvRetry]: the state and whether the drain event has been processed. *)
Definition recvRetry (curTick : Z) (b : TBus) (s : D) : option (TBus * D * bool) :=
  '(b, s) ←
    (if (tickNextIdle b <=? curTick) then
       match retryList b with
       | [] => Some (b, s)
       | front :: _ =>
           let b := with_retry b (retryList b) (onRetryList b) true in
           '(ps, s) ← sendRetry curTick front s;
           '(b, s) ← resend curTick front ps b s;
           b ← (if inRetry b then missed_grant curTick b else Some b);
           Some (b, s)
       end
     else Some (b, s));
  if drainEvent b && bool_decide (retryList b = []) && (tickNextIdle b <=? curTick)
  then Some (with_drain b false, s, true) else Some (b, s, false).

(** [BusFreeEvent::process]; the event is no longer scheduled. *)
Definition busIdle_process (curTick : Z) (b : TBus) (s : D) : option (TBus * D * bool) :=
  recvRetry curTick (with_tick b (tickNextIdle b) None) s.

(** [drain]: whether the caller has to wait for the event. *)
Definition drain (curTick : Z) (b : TBus) : bool * TBus :=
  if negb (bool_decide (retryList b = [])) || (curTick <? tickNextIdle b) && bool_decide (is_Some (busIdle b))
  then (true, with_drain b true) else (false, b).

End Timing.

(** ** The invariant of the arbitration *)

(** Packets of addresses and sizes that fit. *)
Definition sane (p : Packet.t) : Prop :=
  (∀ a, Packet.getAddr p = Some a → is_u64 a) ∧ ∀ n, Packet.getSize p = Some n → 0 <= n < 2 ^ 31.

(** Times far enough from the last tick. *)
Definition early (t : Z) : Prop := 0 <= t < 2 ^ 62.

Record arb_core (t : Z) (b : TBus) : Prop := {
  ac_bus : bus_ok (decoder b);
  ac_clock : 0 < clock b;
  ac_header : 0 < headerCycles b;
  ac_width : 0 < width b;
  ac_time : early t;
  ac_tick : 0 <= tickNextIdle b;
  ac_nodup : NoDup (retryList b);
  ac_flags : ∀ id, id ∈ onRetryList b ↔ id ∈ retryList b
}.

(** Between events at the tick [t]: the flags are exact, and whenever the bus is busy
    or somebody waits, the event is scheduled at the end of the transaction. *)
Record arb_ok (t : Z) (b : TBus) : Prop := {
  ab_core : arb_core t b;
  ab_idle : inRetry b = false;
  ab_wake : retryList b ≠ [] ∨ t < tickNextIdle b → busIdle b = Some (tickNextIdle b);
  ab_sched : ∀ u, busIdle b = Some u → u = tickNextIdle b ∧ t <= u
}.

(** While the device [f] is asked to try again. *)
Record arb_retry (t f : Z) (b : TBus) : Prop := {
  ar_core : arb_core t b;
  ar_retry : inRetry b = true;
  ar_head : head (retryList b) = Some f;
  ar_free : tickNextIdle b <= t;
  ar_none : ∀ u, busIdle b = Some u → u = tickNextIdle b ∧ t <= u
}.

Lemma target_port_inv b id x b' :
  bus_ok b → target_port b id = Some (x, b') → x = id ∧ bus_ok b' ∧ same_config b b'.
Proof.
  intros Hok. unfold target_port. destruct (Z.eqb_spec id defaultId) as [->|Hd].
  { destruct (defaultPort b); [|done]. by intros [= <- <-]. }
  destruct (checkBusCache b id) as [port|] eqn:Ec.
  - intros [= <- <-]. split_and!; try done. pose proof (bo_faces _ Hok) as Hf. unfold checkBusCache in Ec.
    destruct (busCache b) as [[e0 e1] e2]. destruct Hf as (H0 & H1 & H2). unfold bc_hit in Ec.
    repeat match type of Ec with context [if ?c then _ else _] => destruct c eqn:?; [injection Ec as <-|] end; [..|done];
      zbool; match goal with H : bc_valid ?e = true, H0 : bc_ok _ ?e |- _ => destruct (H0 H) end; congruence.
  - destruct (bool_decide_reflect (id ∈ interfaces b)) as [Hi|]; [|done]. intros [= <- <-]. split; [done|].
    destruct (target_port_ok b id Hok Hd Hi) as (b2 & Ht & Hok2 & Hc2). unfold target_port in Ht.
    rewrite (proj2 (Z.eqb_neq _ _)), Ec, bool_decide_eq_true_2 in Ht by done. by injection Ht as <-.
Qed.

Lemma findPort_inv b a id b' :
  bus_ok b → is_u64 a → findPort b a = Some (id, b') → bus_ok b' ∧ same_config b b'.
Proof.
  intros Hok Ha Hf. pose proof (findPort_cached b a Hok Ha) as H. destruct (findPort_ref b a) as [x|]; [|congruence].
  destruct H as (b2 & E & Hok2 & Hc). rewrite Hf in E. by injection E as _ <-.
Qed.

Lemma arb_core_decoder t b d : arb_core t b → bus_ok d → arb_core t (with_decoder b d).
Proof. by intros [] ?. Qed.

Lemma arb_core_tick t b u e : arb_core t b → 0 <= u → arb_core t (with_tick b u e).
Proof. by intros [] ?. Qed.

(** ** The time of a transaction *)

Lemma data_cycles_ok b p n :
  sane p → 0 < width b → data_cycles b p = Some n →
  0 <= n ∧ (Packet.hasData p = false → n = 0) ∧
  ∀ k, Packet.hasData p = true → Packet.getSize p = Some k → n = (k + width b - 1) / width b.
Proof.
  intros [_ Hs] Hw. unfold data_cycles. destruct (Packet.hasData p); [|intros [= <-]; naive_solver].
  destruct (Packet.getSize p) as [k|] eqn:Ek; [|done]. cbn [mbind option_bind]. intros [= <-]. specialize (Hs k eq_refl).
  rewrite s32_small by (unfold is_s32; lia). rewrite Z.quot_div_nonneg, Z.rem_mod_nonneg by lia.
  pose proof (Z.div_mod k (width b) ltac:(lia)) as E. pose proof (Z.mod_pos_bound k (width b) Hw) as Hm.
  assert (0 <= k / width b) as H0 by (apply Z.div_pos; lia).
  assert (k / width b + (if k mod width b =? 0 then 0 else 1) = (k + width b - 1) / width b) as E2.
  { destruct (Z.eqb_spec (k mod width b) 0) as [Ez|Ez].
    - replace (k + width b - 1) with ((k / width b) * width b + (width b - 1)) by nia.
      rewrite Z.div_add_l, (Z.div_small (width b - 1)) by lia. done.
    - replace (k + width b - 1) with ((k / width b + 1) * width b + (k mod width b - 1)) by nia.
      rewrite Z.div_add_l, (Z.div_small (k mod width b - 1)) by lia. lia. }
  split; [destruct (_ =? 0); lia|]. split; [done|]. intros k' _ [= <-]. done.
Qed.

Lemma int_chk_inv x y : int_chk x = Some y → y = x ∧ x < 2 ^ 31.
Proof.
  unfold int_chk. destruct (_ && _) eqn:E; [|done]. intros [= <-]. apply andb_true_iff in E as [_ E]. zbool. done.
Qed.

Lemma next_start_ok t b :
  arb_core t b → tickNextIdle b <= t → clock b < 2 ^ 31 →
  t <= next_start t b < t + clock b ∧ (next_start t b = t ∨ next_start t b mod clock b = 0).
Proof.
  intros [_ Hc _ _ [Ht0 Ht] Hn _ _] Hle Hc31. unfold next_start. destruct (Z.ltb_spec (tickNextIdle b) t) as [Hlt|]; [|lia].
  rewrite Z.rem_mod_nonneg by lia. pose proof (Z.mod_pos_bound t (clock b) Hc) as Hm.
  destruct (Z.eqb_spec (t mod clock b) 0) as [|Hz]; [lia|]. rewrite s64_small by (unfold is_s64; lia). split; [lia|]. right.
  pose proof (Z.div_mod t (clock b) ltac:(lia)) as E.
  replace (t - t mod clock b + clock b) with ((t / clock b + 1) * clock b) by nia. by apply Z.mod_mul; lia.
Qed.

(** A transaction that starts at [start] and ends at [fin]; the header ends at [h]. *)
Record transaction (t : Z) (b : TBus) (p : Packet.t) (start h fin : Z) : Prop := {
  ta_start : start = next_start t b;
  ta_now : t <= start < t + clock b;
  ta_edge : start = t ∨ start mod clock b = 0;
  ta_header : h = start + headerCycles b * clock b;
  ta_cycles : ∃ n, data_cycles b p = Some n ∧ 0 <= n ∧ fin = h + n * clock b;
  ta_fits : fin < 2 ^ 63
}.

Lemma calcPacketTiming_ok t b p h f fin b' :
  arb_core t b → tickNextIdle b <= t → sane p → calcPacketTiming t b p = Some (h, f, fin, b') →
  ∃ start, b' = with_tick b start (busIdle b) ∧ f = h + clock b ∧ transaction t b p start h fin.
Proof.
  intros Hab Hle Hs. unfold calcPacketTiming. cbv zeta. pose proof Hab as [_ Hc Hh Hw [Ht0 Ht] _ _ _].
  cbn [headerCycles clock with_tick].
  destruct (int_chk (headerCycles b * clock b)) as [hc|] eqn:Ehc; [|done]. cbn [mbind option_bind].
  change (data_cycles (with_tick b _ _) p) with (data_cycles b p).
  destruct (data_cycles b p) as [n|] eqn:En; [|done]. cbn [mbind option_bind].
  destruct (int_chk (n * clock b)) as [nc|] eqn:Enc; [|done]. cbn [mbind option_bind].
  apply int_chk_inv in Ehc as [-> Hhc], Enc as [-> Hnc].
  assert (clock b < 2 ^ 31) as Hc31 by nia. destruct (data_cycles_ok b p n Hs Hw En) as [Hn _].
  destruct (next_start_ok t b Hab Hle Hc31) as [Hst Hed]. remember (next_start t b) as start eqn:Es.
  assert (0 < headerCycles b * clock b) by nia. assert (0 <= n * clock b) by nia.
  set (H1 := headerCycles b * clock b) in *. set (N1 := n * clock b) in *.
  rewrite (s64_small (start + H1)) by (unfold is_s64; lia). rewrite !s64_small by (unfold is_s64; lia).
  intros [= <- <- <- <-]. exists start. split_and!; [done|done|]. split; try done; try lia. by exists n.
Qed.

Lemma transaction_after t b p start h fin :
  arb_core t b → transaction t b p start h fin → t < h <= fin ∧ tickNextIdle b <= start.
Proof.
  intros [_ Hc Hh Hw [Ht0 Ht] _ _ _] [Hs Hn _ -> (n & _ & Hn0 & ->) _].
  assert (0 < headerCycles b * clock b) by nia. assert (0 <= n * clock b) by nia. split; [lia|].
  destruct (Z.lt_ge_cases (tickNextIdle b) t); [lia|]. rewrite Hs. unfold next_start. by rewrite (proj2 (Z.ltb_ge _ _)) by lia.
Qed.

(** ** Accepted, refused and waiting *)

Section Cases.
Context {D : Type} (sendTiming : Z → Z → Packet.t → option (Z * Z) → D → option (bool * Packet.t * D)).

Lemma route_timing_inv t b src src_port times p s id dp p' b' s' :
  bus_ok (decoder b) → sane p → route_timing sendTiming t b src src_port times p s = Some (id, dp, p', b', s') →
  ∃ d, b' = with_decoder b d ∧ bus_ok d ∧ same_config (decoder b) d.
Proof.
  intros Hok [Ha _]. unfold route_timing. destruct (Packet.getDest p) as [dest|]; [|done]. cbn [mbind option_bind].
  destruct (dest =? Packet.Broadcast).
  - destruct (Packet.getAddr p) as [a|] eqn:Ea; [|done]. cbn [mbind option_bind].
    destruct (findPort (decoder b) a) as [[i d]|] eqn:Ef; [|done]. cbn [mbind option_bind].
    destruct (findPort_inv _ a i d Hok (Ha a eq_refl) Ef) as [Hd Hc].
    destruct (port_of d i); [|done]. cbn [mbind option_bind].
    destruct (snoop_timing _ _ _ _ _ _ _ _) as [[? ?]|]; [|done]. intros [= <- <- <- <- <-]. by exists d.
  - destruct (_ || _); [done|]. destruct (port_of _ _); [|done]. cbn [mbind option_bind]. intros [= <- <- <- <- <-].
    exists (decoder b). split_and!; [by destruct b|done|done].
Qed.

(** What an ordinary packet from the port [id] does to the arbitration. *)
Inductive outcome (t id : Z) (b : TBus) (p : Packet.t) : bool → TBus → Prop :=
  | waits d b' :
      must_wait t b id = true → bus_ok d → addToRetryList id (with_decoder b d) = Some b' → outcome t id b p false b'
  | refused d start h fin b' :
      must_wait t b id = false → bus_ok d → transaction t b p start h fin →
      addToRetryList id (with_tick (with_decoder b d) start (busIdle b)) = Some b' →
      outcome t id b p false (with_tick b' h (Some h))
  | accepted d start h fin b' :
      must_wait t b id = false → bus_ok d → transaction t b p start h fin →
      (if inRetry b then popRetry (with_tick (with_decoder b d) fin (Some fin))
       else Some (with_tick (with_decoder b d) fin (Some fin))) = Some b' →
      outcome t id b p true b'.

Lemma recvTiming_outcome t id b p s ok p' b' s' :
  arb_core t b → sane p → Packet.isExpressSnoop p = false → Packet.getSrc p = Some id →
  recvTiming sendTiming t b p s = Some (ok, p', b', s') → outcome t id b p ok b'.
Proof.
  intros Hab Hs Hex Hsrc. unfold recvTiming. rewrite Hsrc, Hex. cbn [mbind option_bind negb andb].
  destruct (target_port (decoder b) id) as [[x d]|] eqn:Et; [|done]. cbn [mbind option_bind].
  destruct (target_port_inv _ id x d (ac_bus _ _ Hab) Et) as (-> & Hd & _).
  change (must_wait t (with_decoder b d) id) with (must_wait t b id). destruct (must_wait t b id) eqn:Hw.
  { destruct (addToRetryList id (with_decoder b d)) as [b1|] eqn:Ea; [|done]. intros [= <- <- <- <-]. by apply (waits _ _ _ _ d). }
  destruct (calcPacketTiming t (with_decoder b d) p) as [[[[h f] fin] b1]|] eqn:Ecalc; [|done]. cbn [mbind option_bind].
  assert (tickNextIdle b <= t) as Hfree by (unfold must_wait in Hw; apply orb_false_iff in Hw as [Hw _]; zbool; lia).
  destruct (calcPacketTiming_ok t (with_decoder b d) p h f fin b1) as (start & -> & -> & Hta); [by apply arb_core_decoder|done..|].
  assert (transaction t b p start h fin) as Hta' by (destruct Hta; split; done).
  destruct (transaction_after t b p start h fin Hab Hta') as [Haft _]. pose proof (ac_time _ _ Hab) as [Ht0 _].
  destruct (Packet.getDest p) as [dest|]; [|done]. cbn [mbind option_bind].
  destruct (route_timing _ _ _ _ _ _ _ _) as [[[[[did dp] p2] b2] s2]|] eqn:Er; [|done]. cbn [mbind option_bind].
  destruct (route_timing_inv t (with_tick (with_decoder b d) start (busIdle b)) id id _ p s did dp p2 b2 s2 Hd Hs Er) as (d2 & -> & Hd2 & _).
  destruct (if did =? id then _ else _) as [[[ok2 p3] s3]|]; [|done]. cbn [mbind option_bind].
  unfold occupyBus. cbn [inRetry with_tick with_decoder busIdle].
  destruct ok2.
  - rewrite (proj2 (Z.eqb_neq _ _)), (proj2 (Z.ltb_ge _ _)) by lia. cbn [mbind option_bind inRetry with_tick].
    destruct (if inRetry b then _ else _) as [b4|] eqn:Ep; [|done]. cbn [mbind option_bind]. intros [= <- <- <- <-].
    by apply (accepted _ _ _ _ d2 start h fin).
  - destruct (_ || _); [done|]. destruct (addToRetryList _ _) as [b4|] eqn:Ea; [|done]. cbn [mbind option_bind].
    rewrite (proj2 (Z.eqb_neq _ _)), (proj2 (Z.ltb_ge _ _)) by lia. cbn [mbind option_bind].
    intros [= <- <- <- <-]. by apply (refused _ _ _ _ d2 start h fin).
Qed.

End Cases.

(** ** The invariant is kept *)

(** Packets that wait for the bus. *)
Definition ordinary (p : Packet.t) : Prop := sane p ∧ Packet.isExpressSnoop p = false.

Lemma setSrc_ordinary p id : ordinary p → ordinary (Packet.setSrc p id) ∧ Packet.getSrc (Packet.setSrc p id) = Some id.
Proof.
  intros [[Ha Hs] He]. destruct (setSrc_frame p id) as (F & R & _). unfold frame in F. injection F as Fa Fs _.
  unfold route in R. injection R as -> _. split; [|done]. split; [|by rewrite setSrc_express].
  split; [by rewrite Fa|by rewrite Fs].
Qed.

Lemma core_retry t b l s r :
  arb_core t b → NoDup l → (∀ id, id ∈ s ↔ id ∈ l) → arb_core t (with_retry b l s r).
Proof. by intros [] ? ?. Qed.

(** A port joins the list, or the head keeps its place. *)
Lemma addToRetryList_inv t id b b' :
  arb_core t b → addToRetryList id b = Some b' →
  arb_core t b' ∧ tickNextIdle b' = tickNextIdle b ∧ busIdle b' = busIdle b ∧
  ((id ∉ retryList b ∧ retryList b' = retryList b ++ [id] ∧ inRetry b' = inRetry b) ∨
   (inRetry b = true ∧ head (retryList b) = Some id ∧ retryList b' = retryList b ∧ inRetry b' = false)).
Proof.
  intros Hc. pose proof (ac_flags _ _ Hc) as Hf. unfold addToRetryList.
  assert (id ∉ onRetryList b → arb_core t (with_retry b (retryList b ++ [id]) ({[id]} ∪ onRetryList b) (inRetry b)) ∧ id ∉ retryList b) as Hadd.
  { intros Hn. rewrite Hf in Hn. split; [|done]. apply core_retry; [done| |intros x; set_solver].
    apply NoDup_app. split_and!; [apply Hc|set_solver|repeat constructor; set_solver]. }
  destruct (inRetry b) eqn:Er; cbn [negb].
  - destruct (bool_decide_reflect (id ∈ onRetryList b)) as [Hi|Hi].
    + destruct (bool_decide_reflect (head (retryList b) = Some id)) as [Hh|]; [|done]. intros [= <-].
      split_and!; [by apply core_retry; try apply Hc|done|done|]. right. by split_and!.
    + intros [= <-]. destruct (Hadd Hi). split_and!; try done. left. by split_and!.
  - destruct (bool_decide_reflect (id ∈ onRetryList b)) as [Hi|Hi]; [done|].
    intros [= <-]. destruct (Hadd Hi). split_and!; try done. left. by split_and!.
Qed.

Lemma popRetry_inv t b b' :
  arb_core t b → popRetry b = Some b' →
  arb_core t b' ∧ retryList b' = tail (retryList b) ∧ inRetry b' = false ∧
  tickNextIdle b' = tickNextIdle b ∧ busIdle b' = busIdle b.
Proof.
  intros Hc. pose proof (ac_flags _ _ Hc) as Hf. pose proof (ac_nodup _ _ Hc) as Hn. unfold popRetry.
  destruct (retryList b) as [|x l]; [done|]. intros [= <-]. apply NoDup_cons in Hn as [Hx Hn].
  split_and!; try done. apply core_retry; try done. intros id. rewrite elem_of_difference, elem_of_singleton, Hf. set_solver.
Qed.

(** The bus is occupied until [u]. *)
Lemma occupied_ok t b u :
  arb_core t b → inRetry b = false → t < u → arb_ok t (with_tick b u (Some u)).
Proof.
  intros Hc Hi Hu. pose proof (ac_time _ _ Hc) as [? _]. split; [apply arb_core_tick; [done|lia]|done|done|].
  intros v [= <-]. cbn. lia.
Qed.

Lemma must_wait_ok t b id : arb_ok t b → must_wait t b id = false → tickNextIdle b <= t ∧ retryList b = [].
Proof.
  intros [_ Hi _ _]. unfold must_wait. rewrite Hi. cbn [negb orb]. rewrite andb_true_r.
  intros [H1 H2]%orb_false_iff. zbool. split; [lia|]. by destruct (bool_decide_reflect (retryList b = [])).
Qed.

Lemma must_wait_retry t f b : arb_retry t f b → must_wait t b f = false.
Proof.
  intros [_ Hr Hh Hf _]. unfold must_wait. rewrite (proj2 (Z.ltb_ge _ _)), Hr, Hh, (bool_decide_eq_true_2 (Some f = _)) by (done || lia).
  cbn. by rewrite andb_false_r.
Qed.

(** A packet from a port outside of a retry. *)
Lemma outcome_ok t id b p ok b' :
  arb_ok t b → outcome t id b p ok b' →
  arb_ok t b' ∧
  if must_wait t b id
  then ok = false ∧ id ∉ retryList b ∧ retryList b' = retryList b ++ [id] ∧ tickNextIdle b' = tickNextIdle b
  else retryList b = [] ∧ ∃ start h fin, transaction t b p start h fin ∧ retryList b' = (if ok then [] else [id]) ∧
         tickNextIdle b' = if ok then fin else h.
Proof.
  intros Hok Hout. pose proof Hok as [Hc Hi Hw Hsch]. destruct Hout as [d b' Hm Hd Ha|d start h fin b' Hm Hd Hta Ha|d start h fin b' Hm Hd Hta Hp];
    rewrite Hm.
  - destruct (addToRetryList_inv t id _ _ (arb_core_decoder t b d Hc Hd) Ha) as (Hc' & Et & Eb & [(Hn & El & Er)|(E & _)]);
      [|cbn in E; congruence]. cbn in *. split; [|done].
    assert (busIdle b = Some (tickNextIdle b)) as Hb.
    { apply Hw. unfold must_wait in Hm. apply orb_true_iff in Hm as [Hm|Hm]; [right; zbool; lia|left].
      apply andb_true_iff in Hm as [Hm _]. by destruct (bool_decide_reflect (retryList b = [])). }
    split; [done|congruence|intros _; congruence|]. intros u E. rewrite Et. apply Hsch. congruence.
  - destruct (must_wait_ok t b id Hok Hm) as [Hfree Hnil]. destruct (transaction_after t b p start h fin Hc Hta) as [Hh Hs].
    pose proof (ac_tick _ _ Hc) as H0.
    destruct (addToRetryList_inv t id (with_tick (with_decoder b d) start (busIdle b)) b') as (Hc' & Et & Eb & [(Hn & El & Er)|(E & _)]);
      [apply arb_core_tick; [by apply arb_core_decoder|lia]|done| |cbn in E; congruence]. cbn in *.
    split; [apply occupied_ok; [done|congruence|lia]|]. split; [done|]. exists start, h, fin. split_and!; [done| |done].
    cbn. by rewrite El, Hnil.
  - destruct (must_wait_ok t b id Hok Hm) as [Hfree Hnil]. destruct (transaction_after t b p start h fin Hc Hta) as [Hh Hs].
    rewrite Hi in Hp. injection Hp as <-. split; [apply occupied_ok; [by apply arb_core_decoder|done|lia]|].
    split; [done|]. by exists start, h, fin.
Qed.

(** A packet from the device that is asked to try again. *)
Lemma outcome_retry t f b p ok b' :
  arb_retry t f b → outcome t f b p ok b' →
  arb_ok t b' ∧ retryList b' = (if ok then tail (retryList b) else retryList b) ∧
  ∃ start h fin, transaction t b p start h fin ∧ tickNextIdle b' = if ok then fin else h.
Proof.
  intros Har Hout. pose proof Har as [Hc Hr Hh Hfree _]. pose proof (must_wait_retry t f b Har) as Hm0.
  pose proof (ac_tick _ _ Hc) as H0.
  destruct Hout as [d b' Hm Hd Ha|d start h fin b' Hm Hd Hta Ha|d start h fin b' Hm Hd Hta Hp]; [congruence|..];
    destruct (transaction_after t b p start h fin Hc Hta) as [Hlt Hs].
  - destruct (addToRetryList_inv t f (with_tick (with_decoder b d) start (busIdle b)) b') as (Hc' & Et & Eb & [(Hn & _)|(_ & _ & El & Er)]);
      [apply arb_core_tick; [by apply arb_core_decoder|lia]|done| |].
    { exfalso. apply Hn. cbn. apply head_Some in Hh as [l ->]. by left. }
    split_and!; [by apply occupied_ok; [..|lia]|done|]. by exists start, h, fin.
  - rewrite Hr in Hp. destruct (popRetry_inv t (with_tick (with_decoder b d) fin (Some fin)) b') as (Hc' & El & Er & Et & Eb); [|done|].
    { apply arb_core_tick; [by apply arb_core_decoder|lia]. }
    cbn in El, Et, Eb. split_and!; [|done|by exists start, h, fin]. split; [done|done|intros _; congruence|].
    intros u E. rewrite Et. rewrite Eb in E. injection E as <-. lia.
Qed.

Lemma catch_up_ok clk t : 0 < clk → ∀ fuel u, t - u <= Z.of_nat fuel → t <= catch_up fuel t clk u.
Proof.
  intros Hc. induction fuel as [|fuel IH]; intros u Hu; cbn [catch_up]; [lia|].
  destruct (Z.ltb_spec u t); [apply IH; lia|lia].
Qed.

(** The device did not use its grant. *)
Lemma missed_grant_ok t f b b' :
  arb_retry t f b → missed_grant t b = Some b' → arb_ok t b' ∧ retryList b' = tail (retryList b).
Proof.
  intros [Hc Hr Hh Hfree _]. unfold missed_grant. destruct (popRetry b) as [b1|] eqn:Ep; [|done]. cbn [mbind option_bind].
  destruct (popRetry_inv t b b1 Hc Ep) as (Hc1 & El & Er & Et & Eb). cbv zeta.
  match goal with |- (if ?x <? t then _ else _) = _ → _ => destruct (Z.ltb_spec x t) as [|Hge]; [done|] end.
  intros [= <-]. split; [|done]. pose proof (ac_time _ _ Hc) as [H0 _].
  split; [apply arb_core_tick; [done|lia]|done|done|]. intros u [= <-]. done.
Qed.

Section Steps.
Context {D : Type}
  (sendTiming : Z → Z → Packet.t → option (Z * Z) → D → option (bool * Packet.t * D))
  (sendRetry : Z → Z → D → option (list Packet.t * D))
  (told : Z → Packet.t → bool → D → D).

Lemma port_recvTiming_outcome t id b p s ok p' b' s' :
  arb_core t b → ordinary p → port_recvTiming sendTiming t id b p s = Some (ok, p', b', s') →
  outcome t id b (Packet.setSrc p id) ok b'.
Proof.
  intros Hc Hp Hr. destruct (setSrc_ordinary p id Hp) as [[Hs He] Hsrc].
  by apply (recvTiming_outcome sendTiming t id b _ s ok p' b' s').
Qed.

(** Once one of the packets has been tried the bus is between events again. *)
Lemma resend_ok t f ps : ∀ b s b' s',
  arb_ok t b → Forall ordinary ps → resend sendTiming told t f ps b s = Some (b', s') → arb_ok t b'.
Proof.
  induction ps as [|p ps IH]; intros b s b' s' Hok Hps; [by intros [= <- _]|]. apply Forall_cons in Hps as [Hp Hps].
  cbn [resend]. destruct (port_recvTiming sendTiming t f b p s) as [[[[ok p1] b1] s1]|] eqn:Er; [|done]. cbn [mbind option_bind].
  apply port_recvTiming_outcome in Er; [|apply Hok|done]. destruct (outcome_ok _ _ _ _ _ _ Hok Er) as [Hok1 _].
  destruct ok; [by apply IH|]. by intros [= <- _].
Qed.

Lemma resend_retry t f ps b s b' s' :
  arb_retry t f b → Forall ordinary ps → resend sendTiming told t f ps b s = Some (b', s') → arb_ok t b' ∨ b' = b ∧ ps = [].
Proof.
  intros Har Hps. destruct ps as [|p ps]; [intros [= <- _]; by right|]. apply Forall_cons in Hps as [Hp Hps].
  cbn [resend]. destruct (port_recvTiming sendTiming t f b p s) as [[[[ok p1] b1] s1]|] eqn:Er; [|done]. cbn [mbind option_bind].
  apply port_recvTiming_outcome in Er; [|apply Har|done]. destruct (outcome_retry _ _ _ _ _ _ Har Er) as [Hok1 _].
  destruct ok; [intros H; left; by apply (resend_ok t f ps b1 (told f p true s1) b' s')|]. intros [= <- _]. by left.
Qed.

(** Devices try again with ordinary packets. *)
Definition retries_ordinary : Prop := ∀ t id s ps s', sendRetry t id s = Some (ps, s') → Forall ordinary ps.

(** The state in which a retry may be asked for: as between events, or the event that
    frees the bus has just been taken off the queue. *)
Record arb_due (t : Z) (b : TBus) : Prop := {
  ad_core : arb_core t b;
  ad_idle : inRetry b = false;
  ad_wake : retryList b ≠ [] ∨ t < tickNextIdle b → busIdle b = Some (tickNextIdle b) ∨ tickNextIdle b <= t;
  ad_sched : ∀ u, busIdle b = Some u → u = tickNextIdle b ∧ t <= u
}.

Lemma arb_ok_due t b : arb_ok t b → arb_due t b.
Proof. intros []. split; auto. Qed.

Lemma start_retry t f l b :
  arb_due t b → tickNextIdle b <= t → retryList b = f :: l →
  arb_retry t f (with_retry b (retryList b) (onRetryList b) true).
Proof.
  intros [Hc _ _ Hs] Ht El. split; try done; [by apply core_retry; try apply Hc|]. cbn. by rewrite El.
Qed.

Lemma recvRetry_ok t b s b' s' dr :
  retries_ordinary → arb_due t b → recvRetry sendTiming sendRetry told t b s = Some (b', s', dr) → arb_ok t b'.
Proof.
  intros Hord Hok. unfold recvRetry.
  assert (∀ b1, arb_ok t b1 → arb_ok t (with_drain b1 false)) as Hdr by (intros b1 [[] ? ? ?]; done).
  assert (∀ b1 s1, arb_ok t b1 →
    (if drainEvent b1 && bool_decide (retryList b1 = []) && (tickNextIdle b1 <=? t) then Some (with_drain b1 false, s1, true)
     else Some (b1, s1, false)) = Some (b', s', dr) → arb_ok t b') as Hend.
  { intros b1 s1 Hb1. destruct (_ && _); intros [= <- _ _]; auto. }
  destruct (Z.leb_spec (tickNextIdle b) t) as [Hfree|Hbusy]; cbn [mbind option_bind].
  - destruct (retryList b) as [|f l] eqn:El; cbn [mbind option_bind].
    + apply Hend. destruct Hok as [Hc Hi _ Hs]. split; try done. intros [?|?]; [done|lia].
    + pose proof (start_retry t f l b Hok Hfree El) as Har. rewrite El in Har.
      destruct (sendRetry t f s) as [[ps s1]|] eqn:Es; [|done]. cbn [mbind option_bind].
      destruct (resend _ _ _ _ _ _ _) as [[b1 s2]|] eqn:Er; [|done]. cbn [mbind option_bind].
      destruct (resend_retry _ _ _ _ _ _ _ Har (Hord _ _ _ _ _ Es) Er) as [Hb1|[-> ->]].
      * rewrite (ab_idle _ _ Hb1). cbn [mbind option_bind]. by apply Hend.
      * cbn [inRetry with_retry]. destruct (missed_grant t _) as [b2|] eqn:Em; [|done]. cbn [mbind option_bind].
        apply Hend. by eapply missed_grant_ok.
  - apply Hend. destruct Hok as [Hc Hi Hw Hs]. split; try done. intros _. destruct Hw as [?|?]; [by right|done|lia].
Qed.

(** ** The bus among its devices *)

(** What can happen: time passes until the bus is freed; a device sends a packet, or
    forwards a snoop that is not refused; the event that frees the bus; a device that
    refused a packet asks for it; the simulator drains the bus; the ranges of devices
    and the devices themselves change. *)
Inductive bus_step : Z * TBus * D → Z * TBus * D → Prop :=
  | step_time t t' b s :
      t <= t' → early t' → (∀ u, busIdle b = Some u → t' <= u) → bus_step (t, b, s) (t', b, s)
  | step_send t id p ok p' b b' s s' :
      ordinary p → port_recvTiming sendTiming t id b p s = Some (ok, p', b', s') →
      bus_step (t, b, s) (t, b', told id p ok s')
  | step_snoop t id p p' b b' s s' :
      sane p → Packet.isExpressSnoop p = true → port_recvTiming sendTiming t id b p s = Some (true, p', b', s') →
      bus_step (t, b, s) (t, b', s')
  | step_idle t b b' s s' dr :
      busIdle b = Some t → busIdle_process sendTiming sendRetry told t b s = Some (b', s', dr) →
      bus_step (t, b, s) (t, b', s')
  | step_retry t b b' s s' dr :
      recvRetry sendTiming sendRetry told t b s = Some (b', s', dr) → bus_step (t, b, s) (t, b', s')
  | step_drain t b s : bus_step (t, b, s) (t, (drain t b).2, s)
  | step_ranges t b d s : bus_ok d → bus_step (t, b, s) (t, with_decoder b d, s)
  | step_devices t b s s' : bus_step (t, b, s) (t, b, s').

(** A run starts with [startup] at the tick [t0], which is 0 unless a checkpoint is
    restored; the first of the steps is not before [t1].  [startup] makes the bus busy up
    to the next edge of the clock and schedules no event for that edge, so that a run
    that is restored must not use the bus before it ([startup_strands_waiters]). *)
Definition bus_reachable (x : Z * TBus * D) : Prop :=
  ∃ d clk hc w b s t0 t1, bus_ok d ∧ TBus_new d clk hc w = Some b ∧ clk < 2 ^ 31 ∧ 0 <= t0 <= t1 ∧ early t1 ∧
    tickNextIdle (startup t0 b) <= t1 ∧ rtc bus_step (t1, startup t0 b, s) x.

Lemma snoop_keeps t id b p s p' b' s' :
  arb_ok t b → sane p → Packet.isExpressSnoop p = true →
  port_recvTiming sendTiming t id b p s = Some (true, p', b', s') → arb_ok t b'.
Proof.
  intros Hok Hs He. unfold port_recvTiming, recvTiming. destruct (setSrc_frame p id) as (F & R & _).
  unfold frame in F. injection F as Fa Fs _. unfold route in R. injection R as -> _. cbn [mbind option_bind].
  assert (sane (Packet.setSrc p id)) as Hs' by (split; [rewrite Fa|rewrite Fs]; apply Hs).
  destruct (target_port (decoder b) id) as [[x d]|] eqn:Et; [|done]. cbn [mbind option_bind].
  destruct (target_port_inv _ id x d (ac_bus _ _ (ab_core _ _ Hok)) Et) as (-> & Hd & _).
  rewrite setSrc_express, He. cbn [negb andb mbind option_bind].
  destruct (Packet.getDest _) as [dest|]; [|done]. cbn [mbind option_bind].
  destruct (route_timing _ _ _ _ _ _ _ _) as [[[[[did dp] p2] b2] s2]|] eqn:Er; [|done]. cbn [mbind option_bind].
  destruct (route_timing_inv sendTiming t (with_decoder b d) id id _ _ s did dp p2 b2 s2 Hd Hs' Er) as (d2 & -> & Hd2 & _).
  destruct (if did =? id then _ else _) as [[[ok2 p3] s3]|]; [|done]. cbn [mbind option_bind].
  destruct Hok as [Hc Hi Hw Hsc]. destruct ok2.
  - cbn [occupyBus Z.eqb mbind option_bind inRetry with_decoder]. rewrite Hi. cbn [mbind option_bind]. intros [= _ <- _].
    split; try done. by apply (arb_core_decoder t (with_decoder b d)), Hd2; apply arb_core_decoder.
  - destruct (_ || _); [done|]. destruct (addToRetryList _ _); [|done]. cbn [mbind option_bind occupyBus Z.eqb]. done.
Qed.

Lemma step_ok t b s t' b' s' :
  retries_ordinary → arb_ok t b → bus_step (t, b, s) (t', b', s') → arb_ok t' b'.
Proof.
  intros Hord Hok Hst. inversion Hst; subst.
  - destruct Hok as [[] ? Hw Hs]. split; try done.
    + intros [?|?]; apply Hw; [by left|right; lia].
    + intros u Hu. split; [by apply Hs|auto].
  - match goal with H : port_recvTiming _ _ _ _ _ _ = _ |- _ => apply port_recvTiming_outcome in H; [|apply Hok|done] end.
    by eapply outcome_ok.
  - by eapply snoop_keeps.
  - eapply recvRetry_ok; [done| |eassumption]. destruct Hok as [Hc Hi Hw Hs].
    match goal with H : busIdle b = Some _ |- _ => destruct (Hs _ H) as [E _] end.
    split; try done; [by apply arb_core_tick; [|apply Hc]|]. intros _. right. cbn. lia.
  - eapply recvRetry_ok; [done| |eassumption]. by apply arb_ok_due.
  - unfold drain. destruct Hok as [[] ? ? ?]. by destruct (_ || _).
  - destruct Hok as [Hc ? ? ?]. split; try done. by apply arb_core_decoder.
  - done.
Qed.

(** A new bus that has been started, from the end of its first cycle on. *)
Lemma bus_started_ok d clk hc w b t0 t1 :
  bus_ok d → TBus_new d clk hc w = Some b → clk < 2 ^ 31 → 0 <= t0 <= t1 → early t1 → tickNextIdle (startup t0 b) <= t1 →
  arb_ok t1 (startup t0 b).
Proof.
  intros Hd Hnew Hclk Ht He. unfold TBus_new in Hnew. destruct (_ || _) eqn:E; [done|]. injection Hnew as <-.
  apply orb_false_iff in E as [[E1 E2]%orb_false_iff E3]. zbool. unfold startup. cbn. unfold early in *.
  assert (0 <= Z.quot t0 clk * clk <= t0) as Hq.
  { pose proof (Z.quot_rem' t0 clk). pose proof (Z.rem_bound_pos t0 clk). pose proof (Z.quot_pos t0 clk). nia. }
  destruct (Z.ltb_spec 0 t0); cbn; [rewrite s64_small by (unfold is_s64; lia)|]; intros Hfree;
    (split; cbn; [split; cbn; try done; try lia; [constructor|set_solver]|done|intros [?|?]; [done|lia]|done]).
Qed.

Lemma reachable_ok t b s : retries_ordinary → bus_reachable (t, b, s) → arb_ok t b.
Proof.
  intros Hord (d & clk & hc & w & b0 & s0 & t0 & t1 & Hd & Hnew & Hclk & Ht & He & Hfree & Hsteps).
  pose proof (bus_started_ok d clk hc w b0 t0 t1 Hd Hnew Hclk Ht He Hfree) as H0.
  assert (∀ x y, rtc bus_step x y → arb_ok x.1.1 x.1.2 → arb_ok y.1.1 y.1.2) as Hind.
  { intros x y. induction 1 as [|x y z Hxy _ IH]; [done|]. intros Hx. apply IH. destruct x as [[tx bx] sx], y as [[ty by_] sy].
    by eapply step_ok. }
  by apply (Hind _ _ Hsteps).
Qed.

End Steps.

(** ** Waiting devices are served *)

Section Service.
Context {D : Type}
  (sendTiming : Z → Z → Packet.t → option (Z * Z) → D → option (bool * Packet.t * D))
  (sendRetry : Z → Z → D → option (list Packet.t * D))
  (told : Z → Packet.t → bool → D → D).

(** Devices accept what they are sent. *)
Definition accepting : Prop := ∀ t id p times s, ∃ p' s', sendTiming t id p times s = Some (true, p', s').

Definition is_port (d : Bus) (id : Z) : Prop := if id =? defaultId then defaultPort d = true else id ∈ interfaces d.

(** The bus can route a packet from the port [f]. *)
Definition routable (d : Bus) (f : Z) (p : Packet.t) : Prop :=
  is_port d f ∧ ∃ dest, Packet.getDest p = Some dest ∧
    if dest =? Packet.Broadcast
    then ∃ a id, Packet.getAddr p = Some a ∧ is_u64 a ∧ findPort_ref d a = Some id ∧ is_port d id
    else dest < maxId d ∧ dest ≠ f ∧ is_port d dest.

(** A packet of the device at [f] that takes at most [T] ticks. *)
Definition ready (b : TBus) (T f : Z) (p : Packet.t) : Prop :=
  ordinary p ∧ routable (decoder b) f p ∧
  ∃ n, data_cycles b p = Some n ∧ (headerCycles b + n) * clock b <= T.

(** Asked to try again, the devices [l] send such a packet. *)
Definition willing (b : TBus) (T : Z) (l : list Z) : Prop :=
  ∀ t f s, f ∈ l → ∃ p s', sendRetry t f s = Some ([p], s') ∧ ready b T f p.

(** What is constant in a run. *)
Definition same_bus (b b' : TBus) : Prop :=
  same_config (decoder b) (decoder b') ∧ clock b' = clock b ∧ headerCycles b' = headerCycles b ∧ width b' = width b.

Lemma is_port_of d id : is_port d id → port_of d id = Some id.
Proof.
  unfold is_port, port_of. destruct (id =? defaultId); [by intros ->|]. intros H. by rewrite bool_decide_eq_true_2.
Qed.

Lemma is_port_config d d' id : same_config d d' → is_port d id → is_port d' id.
Proof. intros (_ & _ & _ & E1 & E2 & _ & _). unfold is_port. by rewrite E1, E2. Qed.

Lemma target_port_total d id : bus_ok d → is_port d id →
  ∃ d', target_port d id = Some (id, d') ∧ bus_ok d' ∧ same_config d d'.
Proof.
  intros Hok Hp. destruct (decide (id = defaultId)) as [->|Hd].
  - exists d. unfold is_port in Hp. unfold target_port. rewrite Z.eqb_refl in *. rewrite Hp. split_and!; done.
  - unfold is_port in Hp. rewrite (proj2 (Z.eqb_neq _ _)) in Hp by done. by apply target_port_ok.
Qed.

Lemma snoop_timing_total t ports dest src times : accepting → ∀ p s,
  ∃ p' s', snoop_timing sendTiming t ports dest src times p s = Some (p', s').
Proof.
  intros Hacc. induction ports as [|id ports IH]; intros p s; [by eexists _, _|]. cbn [snoop_timing].
  destruct (negb _ && _); [|apply IH]. destruct (Hacc t id p times s) as (p1 & s1 & ->). cbn [mbind option_bind]. apply IH.
Qed.

Lemma routable_config d d' f p : same_config d d' → routable d f p → routable d' f p.
Proof.
  intros Hc [Hf (dest & Hd & Hr)]. pose proof Hc as (E1 & E2 & E3 & _ & _ & _ & E7).
  split; [by eapply is_port_config|]. exists dest. split; [done|]. destruct (dest =? Packet.Broadcast).
  - destruct Hr as (a & id & Ha & Hu & Hfp & Hid). exists a, id. split_and!; [done|done| |by eapply is_port_config].
    unfold findPort_ref in *. by rewrite E1, E2, E3.
  - destruct Hr as (? & ? & ?). rewrite E7. split_and!; [done|done|by eapply is_port_config].
Qed.

Lemma route_timing_total t b f times p s :
  accepting → bus_ok (decoder b) → routable (decoder b) f p →
  ∃ id dp p' d s', route_timing sendTiming t b f f times p s = Some (id, dp, p', with_decoder b d, s') ∧
    bus_ok d ∧ same_config (decoder b) d ∧ (id = f → Packet.getDest p = Some Packet.Broadcast).
Proof.
  intros Hacc Hok [_ (dest & Hd & Hr)]. unfold route_timing. rewrite Hd. cbn [mbind option_bind].
  destruct (Z.eqb_spec dest Packet.Broadcast) as [->|Hne].
  - destruct Hr as (a & id & Ha & Hu & Hfp & Hid). rewrite Ha. cbn [mbind option_bind].
    pose proof (findPort_cached (decoder b) a Hok Hu) as Hf. rewrite Hfp in Hf. destruct Hf as (d & -> & Hd' & Hc).
    cbn [mbind option_bind]. rewrite (is_port_of d id) by (by eapply is_port_config). cbn [mbind option_bind].
    destruct (snoop_timing_total t (snoopPorts d) id f times Hacc p s) as (p' & s' & ->). cbn [mbind option_bind].
    by exists id, id, p', d, s'.
  - destruct Hr as (Hm & Hnf & Hid). rewrite (proj2 (Z.ltb_lt _ _)), (proj2 (Z.eqb_neq _ _)) by done. cbn [negb orb].
    rewrite is_port_of by done. cbn [mbind option_bind]. exists dest, dest, p, (decoder b), s. split_and!; try done. by destruct b.
Qed.

(** The packet of a willing device is accepted when its turn comes. *)
Lemma retry_accepted t f b T p s :
  accepting → arb_retry t f b → ready b T f p → T < 2 ^ 31 → t = tickNextIdle b →
  ∃ p' b' s', port_recvTiming sendTiming t f b p s = Some (true, p', b', s') ∧ arb_ok t b' ∧ same_bus b b' ∧
    drainEvent b' = drainEvent b ∧ retryList b' = tail (retryList b) ∧ tickNextIdle b < tickNextIdle b' <= tickNextIdle b + T.
Proof.
  intros Hacc Har (Hord & Hr & n & Hn & HT) HT31 Et. pose proof Har as [Hc Hin Hh Hfree _].
  pose proof Hc as [Hok Hck Hhd Hw [Ht0 Ht] Htk _ _]. destruct (data_cycles_ok b p n (proj1 Hord) Hw Hn) as [Hn0 _].
  destruct (setSrc_ordinary p f Hord) as [Hord' Hsrc]. destruct (setSrc_frame p f) as (F & R & _).
  unfold frame in F. injection F as Fa Fs _. unfold route in R. injection R as _ Rd.
  unfold port_recvTiming, recvTiming. rewrite Hsrc, (proj2 Hord'). cbn [mbind option_bind negb andb].
  destruct (target_port_total (decoder b) f Hok (proj1 Hr)) as (d & -> & Hd & Hcd). cbn [mbind option_bind].
  change (must_wait t (with_decoder b d) f) with (must_wait t b f). rewrite (must_wait_retry t f b Har).
  assert (0 < headerCycles b * clock b) by nia. assert (0 <= n * clock b) by nia.
  unfold calcPacketTiming. cbv zeta. unfold next_start. cbn [tickNextIdle headerCycles clock with_decoder with_tick busIdle].
  rewrite (proj2 (Z.ltb_ge (tickNextIdle b) t)), (int_chk_Some (headerCycles b * clock b)) by lia. cbn [mbind option_bind].
  assert (data_cycles (with_tick (with_decoder b d) (tickNextIdle b) (busIdle b)) (Packet.setSrc p f) = Some n) as ->.
  { rewrite <- Hn. unfold data_cycles. change (Packet.hasData (Packet.setSrc p f)) with (Packet.hasData p). by rewrite Fs. }
  cbn [mbind option_bind]. rewrite int_chk_Some by lia. cbn [mbind option_bind].
  set (H1 := headerCycles b * clock b) in *. set (N1 := n * clock b) in *.
  rewrite (s64_small (tickNextIdle b + H1)), (s64_small (tickNextIdle b + H1 + N1)) by (unfold is_s64; lia).
  rewrite Rd. destruct Hr as [Hf (dest & Hdest & Hr)]. rewrite Hdest. cbn [mbind option_bind].
  set (b1 := with_tick (with_decoder b d) (tickNextIdle b) (busIdle b)).
  match goal with |- context [route_timing _ _ _ _ _ ?ti _ _] => set (times := ti) end.
  destruct (route_timing_total t b1 f times (Packet.setSrc p f) s Hacc Hd) as (id & dp & p2 & d2 & s2 & -> & Hd2 & Hc2 & Hb).
  { apply (routable_config (decoder b)); [done|]. split; [done|]. exists dest. rewrite Rd, Fa. done. }
  cbn [mbind option_bind].
  assert (∃ p3 s3, (if id =? f then if dest =? Packet.Broadcast then Some (true, p2, s2) else None
    else sendTiming t dp p2 times s2) = Some (true, p3, s3)) as (p3 & s3 & ->).
  { destruct (Z.eqb_spec id f) as [->|]; [|apply Hacc]. specialize (Hb eq_refl). rewrite Rd, Hdest in Hb. injection Hb as ->.
    by eexists _, _. }
  cbn [mbind option_bind]. unfold occupyBus. rewrite (proj2 (Z.eqb_neq _ _)), (proj2 (Z.ltb_ge _ _)) by lia.
  cbn [mbind option_bind inRetry with_tick with_decoder]. unfold b1. cbn [inRetry with_tick with_decoder]. rewrite Hin.
  set (fin := tickNextIdle b + H1 + N1).
  set (b3 := with_tick (with_decoder (with_tick (with_decoder b d) (tickNextIdle b) (busIdle b)) d2) fin (Some fin)).
  assert (arb_core t b3) as Hc3 by (apply arb_core_tick; [|unfold fin; lia]; apply arb_core_decoder; [|done]; apply arb_core_tick; [|done]; by apply arb_core_decoder).
  destruct (popRetry b3) as [b4|] eqn:Ep.
  2: { unfold popRetry, b3 in Ep. cbn in Ep. apply head_Some in Hh as [l El]. by rewrite El in Ep. }
  destruct (popRetry_inv t b3 b4 Hc3 Ep) as (Hc4 & El & Er & Etk & Eb). cbn [mbind option_bind].
  exists p3, b4, s3. split; [done|]. split_and!.
  - split; [done|done|intros _; by rewrite Eb, Etk|]. intros u. rewrite Eb, Etk. cbn. intros [= <-]. unfold fin. lia.
  - unfold popRetry, b3 in Ep. cbn in Ep. destruct (retryList b); [done|]. injection Ep as <-.
    split_and!; try done. by eapply same_config_trans.
  - unfold popRetry, b3 in Ep. cbn in Ep. destruct (retryList b); [done|]. by injection Ep as <-.
  - by rewrite El.
  - rewrite Etk. cbn. unfold fin. lia.
  - rewrite Etk. cbn. unfold fin, H1, N1. lia.
Qed.

Lemma willing_same b b' T l : same_bus b b' → willing b T l → willing b' T l.
Proof.
  intros (Hc & Ec & Eh & Ew) Hw t f s Hf. destruct (Hw t f s Hf) as (p & s' & Hs & Ho & Hr & n & Hn & HT).
  exists p, s'. split; [done|]. split; [done|]. split; [by eapply routable_config|]. exists n. rewrite Ec, Eh. split; [|done].
  rewrite <- Hn. unfold data_cycles. by rewrite Ew.
Qed.

Lemma same_bus_trans b b1 b2 : same_bus b b1 → same_bus b1 b2 → same_bus b b2.
Proof. intros (?&?&?&?) (?&?&?&?). split; [by eapply same_config_trans|]. split_and!; congruence. Qed.

(** The event that frees the bus serves the device at the head of the list. *)
Lemma serve_one t0 b s f l T :
  accepting → arb_ok t0 b → retryList b = f :: l → willing b T [f] → T < 2 ^ 31 → early (tickNextIdle b) →
  busIdle b = Some (tickNextIdle b) ∧
  ∃ p b' s' dr, busIdle_process sendTiming sendRetry told (tickNextIdle b) b s = Some (b', told f p true s', dr) ∧
    arb_ok (tickNextIdle b) b' ∧ same_bus b b' ∧ retryList b' = l ∧ tickNextIdle b < tickNextIdle b' <= tickNextIdle b + T.
Proof.
  intros Hacc [Hc Hi Hw Hs] El Hwl HT Hearly.
  assert (busIdle b = Some (tickNextIdle b)) as Hb by (apply Hw; left; by rewrite El). split; [done|].
  set (u := tickNextIdle b) in *. set (b0 := with_tick b u None).
  assert (arb_core u b0) as Hc0 by (apply arb_core_tick; [|by apply Hc]; destruct Hc; by split).
  assert (arb_due u b0) as Hdue by (split; try done; intros _; right; done).
  pose proof (start_retry u f l b0 Hdue (Z.le_refl _) El) as Har. set (br := with_retry b0 _ _ true) in *.
  destruct (Hwl u f s ltac:(set_solver)) as (p & s1 & Hsend & Hready).
  destruct (retry_accepted u f br T p s1 Hacc Har Hready HT eq_refl) as (p' & b1 & s2 & Hr & Hok1 & Hsame & Hdr & El1 & Htk).
  assert (retryList b1 = l) as El1' by (rewrite El1; unfold br; cbn; by rewrite El).
  set (b2 := if drainEvent b1 && bool_decide (retryList b1 = []) && (tickNextIdle b1 <=? u) then with_drain b1 false else b1).
  assert (arb_ok u b2 ∧ same_bus b b2 ∧ retryList b2 = l ∧ u < tickNextIdle b2 <= u + T) as Hfin.
  { unfold b2. destruct (_ && _); [|done]. destruct Hok1 as [[] ? ? ?]. done. }
  exists p, b2, s2, (drainEvent b1 && bool_decide (retryList b1 = []) && (tickNextIdle b1 <=? u)). split; [|exact Hfin].
  unfold busIdle_process, recvRetry. fold u. fold b0. change (tickNextIdle b0) with u. change (retryList b0) with (retryList b).
  rewrite Z.leb_refl, El. cbn [mbind option_bind]. rewrite Hsend. cbn [mbind option_bind resend].
  unfold br in Hr. change (retryList b0) with (retryList b) in Hr. rewrite El in Hr. rewrite Hr. cbn [mbind option_bind].
  rewrite (ab_idle _ _ Hok1). cbn [mbind option_bind]. unfold b2. by destruct (_ && _).
Qed.

(** The devices [l] are served one after the other at the ticks [us], each when the event
    that frees the bus takes place: the device is told that a packet of it has been
    accepted. *)
Inductive serves : list Z → list Z → TBus * D → TBus * D → Prop :=
  | serves_nil x : serves [] [] x x
  | serves_cons f l u us p b b1 s s1 dr x :
      busIdle b = Some u → busIdle_process sendTiming sendRetry told u b s = Some (b1, told f p true s1, dr) →
      serves l us (b1, told f p true s1) x → serves (f :: l) (u :: us) (b, s) x.

(** The tick of the [n]-th, counted from 0, is at most [n * T] after [t]. *)
Definition served_by (t T : Z) (us : list Z) : Prop := ∀ n u, us !! n = Some u → t <= u <= t + Z.of_nat n * T.

Lemma served_by_cons t t' T us : t <= t' <= t + T → 0 <= T → served_by t' T us → served_by t T (t :: us).
Proof.
  intros Ht HT Hs [|n] u; cbn [lookup list_lookup]; [intros [= <-]; lia|]. intros Hu. specialize (Hs n u Hu). nia.
Qed.

Lemma serve_all T : accepting → T < 2 ^ 31 → ∀ l t0 b s,
  arb_ok t0 b → retryList b = l → willing b T l → 0 <= T → tickNextIdle b + Z.of_nat (length l) * T < 2 ^ 62 →
  ∃ us b' s', serves l us (b, s) (b', s') ∧ length us = length l ∧ served_by (tickNextIdle b) T us ∧
    retryList b' = [] ∧ tickNextIdle b' <= tickNextIdle b + Z.of_nat (length l) * T.
Proof.
  intros Hacc HT. induction l as [|f l IH]; intros t0 b s Hok El Hwl H0 Hend.
  { exists [], b, s. split_and!; [constructor|done|done|done|cbn; lia]. }
  rewrite length_cons, Nat2Z.inj_succ in *.
  assert (early (tickNextIdle b)) as Hearly by (pose proof (ac_tick _ _ (ab_core _ _ Hok)); unfold early; nia).
  destruct (serve_one t0 b s f l T Hacc Hok El) as (Hb & p & b1 & s1 & dr & Hp & Hok1 & Hsame & El1 & Htk); [|done|done|].
  { intros t f' s' Hf'. apply Hwl. set_solver. }
  destruct (IH (tickNextIdle b) b1 (told f p true s1) Hok1 El1) as (us & b2 & s2 & Hs & Hlen & Hby & El2 & Ht2); [|done|nia|].
  { apply (willing_same b); [done|]. intros t f' s' Hf'. apply Hwl. set_solver. }
  exists (tickNextIdle b :: us), b2, s2. split_and!; [by eapply serves_cons|cbn; by rewrite Hlen| |done|nia].
  eapply served_by_cons; [|done|exact Hby]. lia.
Qed.

End Service.

(** ** A restored run *)

(** Packets that devices send one after the other, each with its tick and port: the answers. *)
Fixpoint send_all {D} (sendTiming : Z → Z → Packet.t → option (Z * Z) → D → option (bool * Packet.t * D))
    (told : Z → Packet.t → bool → D → D) (l : list (Z * Z * Packet.t)) (b : TBus) (s : D) : option (list bool * TBus * D) :=
  match l with
  | [] => Some ([], b, s)
  | (t, id, p) :: l =>
      '(ok, _, b, s) ← port_recvTiming sendTiming t id b p s;
      '(oks, b, s) ← send_all sendTiming told l b (told id p ok s);
      Some (ok :: oks, b, s)
  end.

(** Somebody waits, or the bus is busy, and no event will free it. *)
Definition stranded (t : Z) (b : TBus) : Prop :=
  bus_ok (decoder b) ∧ busIdle b = None ∧ inRetry b = false ∧ (retryList b ≠ [] ∨ t < tickNextIdle b).

Lemma stranded_waits t id b : stranded t b → must_wait t b id = true.
Proof.
  intros (_ & _ & Hi & Hw). unfold must_wait. rewrite Hi. cbn [negb orb]. rewrite andb_true_r. apply orb_true_iff.
  destruct Hw as [Hw|Hw]; [right|left; by apply Z.ltb_lt]. by rewrite bool_decide_eq_false_2.
Qed.

Lemma stranded_send {D} sendTiming t id b p (s : D) ok p' b' s' :
  stranded t b → ordinary p → port_recvTiming sendTiming t id b p s = Some (ok, p', b', s') →
  ok = false ∧ s' = s ∧ retryList b' = retryList b ++ [id] ∧ ∀ u, stranded u b'.
Proof.
  intros Hst [_ Hex]. pose proof (stranded_waits t id b Hst) as Hw. destruct Hst as (Hok & Hb & Hi & _).
  unfold port_recvTiming, recvTiming. destruct (setSrc_frame p id) as (_ & R & _). injection R as -> _.
  rewrite setSrc_express, Hex.
  cbn [mbind option_bind negb andb]. destruct (target_port (decoder b) id) as [[x d]|] eqn:Et; [|done]. cbn [mbind option_bind].
  destruct (target_port_inv _ id x d Hok Et) as (-> & Hd & _).
  change (must_wait t (with_decoder b d) id) with (must_wait t b id). rewrite Hw.
  unfold addToRetryList. cbn [inRetry with_decoder onRetryList]. rewrite Hi. cbn [negb].
  destruct (bool_decide _); [done|]. cbn [mbind option_bind]. intros [= <- <- <- <-]. split_and!; try done.
  intros u. split_and!; [done..|]. left. cbn. by destruct (retryList b).
Qed.

Lemma stranded_send_all {D} sendTiming told l : ∀ b (s : D) oks b' s',
  (∀ t id p l', l = (t, id, p) :: l' → stranded t b) → Forall (λ x : Z * Z * Packet.t, ordinary x.2) l →
  busIdle b = None → send_all sendTiming told l b s = Some (oks, b', s') →
  Forall (λ ok, ok = false) oks ∧ busIdle b' = None ∧ retryList b' = retryList b ++ map (λ x, x.1.2) l.
Proof.
  induction l as [|[[t id] p] l IH]; intros b s oks b' s' Hst Hall Hb.
  - intros [= <- <- <-]. split_and!; [constructor|done|]. by rewrite app_nil_r.
  - apply Forall_cons in Hall as [Hp Hall]. cbn [send_all].
    destruct (port_recvTiming sendTiming t id b p s) as [[[[ok p'] b1] s1]|] eqn:E1; [|done]. cbn [mbind option_bind].
    destruct (stranded_send _ _ _ _ _ _ _ _ _ _ (Hst t id p l eq_refl) Hp E1) as (-> & _ & El & Hs1).
    destruct (send_all _ _ l b1 _) as [[[oks1 b2] s2]|] eqn:E2; [|done]. cbn [mbind option_bind]. intros [= <- <- <-].
    edestruct IH as (Ho & Hb2 & Hl); [|exact Hall|exact (proj1 (proj2 (Hs1 0)))|exact E2|]; [intros; apply Hs1|].
    split_and!; [by constructor|done|]. rewrite Hl, El. cbn [map]. by rewrite <- app_assoc.
Qed.

(** ** Theorems *)

(** C17. The bus never forgets who waits.  A run starts with [startup], at tick 0 or, when
    a checkpoint is restored, at a later tick, in which case nobody uses the bus before
    the edge of the clock that [startup] waits for.  In every reachable state the flags of
    the ports say exactly who is on the retry list, nobody is on it twice, and whenever
    somebody waits or the bus is busy the event that frees the bus is scheduled at the
    end of the current transaction, which is not in the past: no wakeup is lost. *)
Theorem bus_arbitration {D} sendTiming sendRetry told t b (s : D) :
  retries_ordinary sendRetry → bus_reachable sendTiming sendRetry told (t, b, s) →
  NoDup (retryList b) ∧ (∀ id, id ∈ onRetryList b ↔ id ∈ retryList b) ∧ inRetry b = false ∧
  (retryList b ≠ [] ∨ t < tickNextIdle b → busIdle b = Some (tickNextIdle b)) ∧
  (∀ u, busIdle b = Some u → t <= u) ∧ bus_ok (decoder b).
Proof.
  intros Hord Hr. destruct (reachable_ok sendTiming sendRetry told t b s Hord Hr) as [[] ? ? Hs].
  split_and!; try done. intros u Hu. by apply Hs.
Qed.

(** C19. What becomes of a packet.  In every reachable state, a packet that is not an
    express snoop and that is sent while the bus is busy or others wait is refused, and its
    port joins the end of the list; any other such packet that the bus handles starts a
    transaction, at once or at the next edge of the clock, not before the end of the last
    one, which takes the cycles of the header and one for each begun width of the bus of
    its data.  It occupies the bus until its end, at which the event that frees the bus is
    scheduled, or until the end of the header when the target refuses it, and then its
    port is the only one on the list. *)
Theorem bus_transaction_spec {D} sendTiming sendRetry told t b (s : D) id p ok p' b' s' :
  retries_ordinary sendRetry → bus_reachable sendTiming sendRetry told (t, b, s) → ordinary p →
  port_recvTiming sendTiming t id b p s = Some (ok, p', b', s') →
  if decide (t < tickNextIdle b ∨ retryList b ≠ [])
  then ok = false ∧ retryList b' = retryList b ++ [id] ∧ tickNextIdle b' = tickNextIdle b
  else ∃ start n, (if Packet.hasData p then ∃ k, Packet.getSize p = Some k ∧ n = (k + width b - 1) / width b else n = 0) ∧
         tickNextIdle b <= start ∧ t <= start < t + clock b ∧ (start = t ∨ start mod clock b = 0) ∧
         tickNextIdle b' = start + (headerCycles b + if ok then n else 0) * clock b ∧
         t < tickNextIdle b' ∧ busIdle b' = Some (tickNextIdle b') ∧ retryList b' = if ok then [] else [id].
Proof.
  intros Hord Hr Hp Hsend. pose proof (reachable_ok sendTiming sendRetry told t b s Hord Hr) as Hok.
  apply port_recvTiming_outcome in Hsend; [|apply Hok|done]. destruct (outcome_ok _ _ _ _ _ _ Hok Hsend) as [Hok' Hout].
  assert (must_wait t b id = bool_decide (t < tickNextIdle b ∨ retryList b ≠ [])) as Ew.
  { apply eq_true_iff_eq. unfold must_wait. rewrite (ab_idle _ _ Hok), bool_decide_eq_true. cbn [negb orb]. rewrite andb_true_r.
    by rewrite orb_true_iff, Z.ltb_lt, negb_true_iff, bool_decide_eq_false. }
  rewrite Ew in Hout. destruct (decide _) as [Hd|Hd]; [rewrite bool_decide_eq_true_2 in Hout by done; by destruct Hout as (? & _ & ? & ?)|].
  rewrite bool_decide_eq_false_2 in Hout by done.
  destruct Hout as (Hnil & start & h & fin & Hta & El & Et).
  destruct (transaction_after _ _ _ _ _ _ (ab_core _ _ Hok) Hta) as [Hh Hs]. destruct Hta as [_ Hn He -> (n & Hn' & Hn0 & ->) _].
  exists start, n. rewrite Et. split_and!; try done; try (destruct ok; lia).
  - destruct (data_cycles_ok b _ n (proj1 (proj1 (setSrc_ordinary p id Hp))) (ac_width _ _ (ab_core _ _ Hok)) Hn') as (_ & H0 & Hk).
    destruct (setSrc_frame p id) as (F & _ & _). unfold frame in F. injection F as _ Fs _.
    change (Packet.hasData (Packet.setSrc p id)) with (Packet.hasData p) in *. rewrite Fs in Hk.
    unfold data_cycles in Hn'. change (Packet.hasData (Packet.setSrc p id)) with (Packet.hasData p) in Hn'. rewrite Fs in Hn'.
    destruct (Packet.hasData p); [|by apply H0]. destruct (Packet.getSize p) as [k|]; [|done]. exists k. split; [done|by apply Hk].
  - rewrite (ab_wake _ _ Hok'); [by rewrite Et|]. right. rewrite Et. destruct ok; lia.
Qed.

(** C18. Every waiting device is served.  From any reachable state, when the devices accept
    what they are sent and answer a retry with one packet that takes at most [T] ticks, the
    devices on the retry list are served in the order of the list, one each time the event
    that frees the bus takes place, until nobody waits.  The [n]-th of them, counted from
    0, is served at most [n] times [T] after the end of the current transaction, and the
    bus is free after as many times [T] as there were devices. *)
Theorem waiters_served {D} sendTiming sendRetry told t b (s : D) T :
  retries_ordinary sendRetry → bus_reachable sendTiming sendRetry told (t, b, s) →
  accepting sendTiming → willing sendRetry b T (retryList b) → 0 <= T < 2 ^ 31 →
  tickNextIdle b + Z.of_nat (length (retryList b)) * T < 2 ^ 62 →
  ∃ us b' s', serves sendTiming sendRetry told (retryList b) us (b, s) (b', s') ∧ length us = length (retryList b) ∧
    (∀ n u, us !! n = Some u → tickNextIdle b <= u <= tickNextIdle b + Z.of_nat n * T) ∧
    retryList b' = [] ∧ tickNextIdle b' <= tickNextIdle b + Z.of_nat (length (retryList b)) * T.
Proof.
  intros Hord Hr Hacc Hwl [HT0 HT] Hend. pose proof (reachable_ok sendTiming sendRetry told t b s Hord Hr) as Hok.
  by apply (serve_all sendTiming sendRetry told T Hacc HT _ t b s Hok eq_refl Hwl HT0).
Qed.

(** A run that resumes at a later tick can lose its wakeup.  [startup] moves the end of
    the transaction past the present tick but schedules no event for it.  A device that
    sends before that tick is refused and put on the retry list, from which no event
    removes it: however late, every later ordinary packet is refused too and its port joins the
    list, and the event that would serve them is never scheduled. *)
Theorem startup_strands_waiters {D} sendTiming told d clk hc w b t t1 id1 p1 l (s : D) oks b' s' :
  bus_ok d → TBus_new d clk hc w = Some b → 0 < t < 2 ^ 62 → clk < 2 ^ 31 → t1 < tickNextIdle (startup t b) →
  Forall (λ x, ordinary x.2) ((t1, id1, p1) :: l) →
  send_all sendTiming told ((t1, id1, p1) :: l) (startup t b) s = Some (oks, b', s') →
  t < tickNextIdle (startup t b) <= t + clk ∧ Forall (λ ok, ok = false) oks ∧ busIdle b' = None ∧
  retryList b' = id1 :: map (λ x, x.1.2) l.
Proof.
  intros Hd Hnew Ht Hclk Ht1 Hall Hsend. unfold TBus_new in Hnew. destruct (_ || _) eqn:E; [done|]. injection Hnew as <-.
  apply orb_false_iff in E as [[E1 E2]%orb_false_iff E3]. zbool.
  set (b := mkTBus _ _ _ _ _ _ _ _ _ _) in *. set (b1 := startup t b) in *.
  assert (t < tickNextIdle b1 <= t + clk ∧ retryList b1 = [] ∧ stranded t1 b1) as (Hb1 & Hnil & Hst).
  { assert (b1 = with_tick b (s64 (Z.quot t clk * clk + clk)) None) as E.
    { unfold b1, startup, b. cbn. by rewrite (proj2 (Z.ltb_lt 0 t)) by lia. }
    pose proof (Z.quot_rem' t clk). pose proof (Z.rem_bound_pos t clk).
    assert (s64 (Z.quot t clk * clk + clk) = Z.quot t clk * clk + clk) as Es by (apply s64_small; unfold is_s64; lia).
    rewrite Es in E. rewrite E in *. cbn in *. split_and!; [lia|lia|done|]. split_and!; [done..|]. right. cbn. lia. }
  split; [done|]. clearbody b1. clear -Hnil Hst Hall Hsend.
  change (id1 :: map (λ x, x.1.2) l) with (map (λ x : Z * Z * Packet.t, x.1.2) ((t1, id1, p1) :: l)).
  set (L := (t1, id1, p1) :: l) in *.
  destruct (stranded_send_all sendTiming told L b1 s oks b' s') as (Ho & Hb & Hl); [|done|apply Hst|done|].
  - intros t id p K [= <- <- <- <-]. done.
  - rewrite Hnil in Hl. done.
Qed.

(** ** A run *)

(** Every device accepts, and asked to try again reads from another one. *)
Definition demo_accept (_ : Z) (_ : Z) (p : Packet.t) (_ : option (Z * Z)) (s : unit) : option (bool * Packet.t * unit) :=
  Some (true, p, s).
Definition demo_read (id : Z) : Packet.t := demo_pkt ReadReq (if id =? 3 then 100 else 4100) 4 None.
Definition demo_retry (_ : Z) (id : Z) (s : unit) : option (list Packet.t * unit) := Some ([demo_read id], s).
Definition demo_told (_ : Z) (_ : Packet.t) (_ : bool) (s : unit) : unit := s.
Definition demo_tbus : TBus := default (mkTBus demo_bus 0 0 0 0 [] ∅ false None false) (TBus_new demo_bus 1000 1 64).

(** The device at 2 writes, and those at 3 and 1 send while the bus is busy. *)
Definition demo_sends : list (Z * Z * Packet.t) :=
  [(0, 2, demo_pkt WriteReq 4100 4 (Some [1; 2; 3; 4])); (10, 3, demo_read 3); (20, 1, demo_read 1)].
Definition demo_busy (l : list (Z * Z * Packet.t)) : TBus :=
  match send_all demo_accept demo_told l demo_tbus tt with Some (_, b, _) => b | None => demo_tbus end.

Lemma demo_pkt_ordinary c a n d : is_u64 a → 0 <= n < 2 ^ 31 → Packet.isExpressSnoop (demo_pkt c a n d) = false →
  ordinary (demo_pkt c a n d).
Proof. intros Ha Hn He. split; [|done]. split; [|unfold Packet.getSize]; [unfold Packet.getAddr|]; cbn; intros x; case_match; by intros [= <-]. Qed.

Lemma demo_read_ordinary id : ordinary (demo_read id).
Proof. unfold demo_read. case_match; by apply demo_pkt_ordinary. Qed.

Lemma demo_sends_ordinary : Forall (λ x, ordinary x.2) demo_sends.
Proof. unfold demo_sends. rewrite !Forall_cons, Forall_nil. split_and!; [by apply demo_pkt_ordinary|apply demo_read_ordinary..|done]. Qed.

Lemma demo_retries : retries_ordinary demo_retry.
Proof. intros t id s ps s' [= <- <-]. apply Forall_cons. split; [apply demo_read_ordinary|by apply Forall_nil]. Qed.

Lemma demo_reached : bus_reachable demo_accept demo_retry demo_told (20, demo_busy demo_sends, tt).
Proof.
  exists demo_bus, 1000, 1, 64, demo_tbus, tt, 0, 0. split; [apply demo_bus_ok|]. do 5 (split; [done|]).
  pose proof demo_sends_ordinary as Hall. unfold demo_sends in Hall.
  apply Forall_cons in Hall as [H1 Hall]. apply Forall_cons in Hall as [H2 Hall]. apply Forall_cons in Hall as [H3 _].
  eapply rtc_l; [eapply (step_send _ _ _ 0 2 _ _ _ _ (demo_busy (take 1 demo_sends)) tt tt H1); vm_compute; reflexivity|].
  eapply rtc_l; [apply (step_time _ _ _ 0 10); [done|done|]; intros u Hu; vm_compute in Hu; by injection Hu as <-|].
  eapply rtc_l; [eapply (step_send _ _ _ 10 3 _ _ _ _ (demo_busy (take 2 demo_sends)) tt tt H2); vm_compute; reflexivity|].
  eapply rtc_l; [apply (step_time _ _ _ 10 20); [done|done|]; intros u Hu; vm_compute in Hu; by injection Hu as <-|].
  eapply rtc_l; [eapply (step_send _ _ _ 20 1 _ _ _ _ (demo_busy (take 3 demo_sends)) tt tt H3); vm_compute; reflexivity|].
  apply rtc_refl.
Qed.

Lemma bus_arbitration_witness :
  let b := demo_busy demo_sends in
  retryList b = [3; 1] ∧ NoDup (retryList b) ∧ (∀ id, id ∈ onRetryList b ↔ id ∈ retryList b) ∧ inRetry b = false ∧
  (retryList b ≠ [] ∨ 20 < tickNextIdle b → busIdle b = Some (tickNextIdle b)) ∧
  (∀ u, busIdle b = Some u → 20 <= u) ∧ bus_ok (decoder b).
Proof.
  split; [vm_compute; reflexivity|].
  apply (bus_arbitration demo_accept demo_retry demo_told 20 (demo_busy demo_sends) tt); [apply demo_retries|apply demo_reached].
Defined.

(** Another packet of the device at 2, which has to wait. *)
Lemma bus_transaction_spec_witness :
  ∃ p' b', port_recvTiming demo_accept 20 2 (demo_busy demo_sends) (demo_read 2) tt = Some (false, p', b', tt) ∧
    retryList b' = [3; 1; 2] ∧ tickNextIdle b' = 2000.
Proof.
  assert (∃ p' b', port_recvTiming demo_accept 20 2 (demo_busy demo_sends) (demo_read 2) tt = Some (false, p', b', tt)) as (p' & b' & E)
    by (eexists _, _; vm_compute; reflexivity).
  exists p', b'. split; [exact E|].
  destruct (bus_transaction_spec demo_accept demo_retry demo_told 20 (demo_busy demo_sends) tt 2 (demo_read 2) false p' b' tt
    demo_retries demo_reached (demo_read_ordinary 2) E) as (_ & -> & ->). split; vm_compute; reflexivity.
Defined.

Lemma demo_same : same_bus demo_tbus (demo_busy demo_sends).
Proof. split; [|split_and!; vm_compute; reflexivity]. unfold same_config. split_and!; vm_compute; reflexivity. Qed.

Lemma demo_willing : willing demo_retry demo_tbus 1000 [3; 1].
Proof.
  intros t f s Hf. exists (demo_read f), s. split; [done|]. split; [apply demo_read_ordinary|].
  change (decoder demo_tbus) with demo_bus. rewrite !elem_of_cons, elem_of_nil in Hf.
  assert (is_port demo_bus 1 ∧ is_port demo_bus 2 ∧ is_port demo_bus 3) as (H1 & H2 & H3) by (split_and!; cbn; set_solver).
  destruct Hf as [->|[->|[]]]; split; try (by exists 0); (split; [done|]); exists Packet.Broadcast; (split; [done|]).
  - by exists 100, 2.
  - by exists 4100, 3.
Qed.

Lemma waiters_served_witness :
  let b := demo_busy demo_sends in
  ∃ us b' s', serves demo_accept demo_retry demo_told [3; 1] us (b, tt) (b', s') ∧ length us = 2%nat ∧
    (∀ n u, us !! n = Some u → 2000 <= u <= 2000 + Z.of_nat n * 1000) ∧ retryList b' = [] ∧ tickNextIdle b' <= 4000.
Proof.
  cbv zeta. assert (retryList (demo_busy demo_sends) = [3; 1]) as El by (vm_compute; reflexivity).
  assert (tickNextIdle (demo_busy demo_sends) = 2000) as Et by (vm_compute; reflexivity).
  pose proof (waiters_served demo_accept demo_retry demo_told 20 (demo_busy demo_sends) tt 1000 demo_retries demo_reached) as H.
  rewrite El, Et in H. apply H; [intros t id p times s; by eexists _, _| |done|done].
  exact (willing_same _ _ _ _ _ demo_same demo_willing).
Defined.

(** A run that resumes at the tick 2500, where the devices at 3 and 1 send. *)
Definition demo_late : list (Z * Z * Packet.t) := [(2500, 3, demo_read 3); (9000, 1, demo_read 1)].

Lemma startup_strands_waiters_witness :
  ∃ b', send_all demo_accept demo_told demo_late (startup 2500 demo_tbus) tt = Some ([false; false], b', tt) ∧
    busIdle b' = None ∧ retryList b' = [3; 1].
Proof.
  assert (∃ b', send_all demo_accept demo_told demo_late (startup 2500 demo_tbus) tt = Some ([false; false], b', tt)) as [b' E]
    by (eexists; vm_compute; reflexivity).
  exists b'. split; [exact E|].
  apply (startup_strands_waiters demo_accept demo_told demo_bus 1000 1 64 demo_tbus 2500 2500 3 (demo_read 3)
    [(9000, 1, demo_read 1)] tt [false; false] b' tt); try done; [apply demo_bus_ok|].
  rewrite !Forall_cons, Forall_nil. split_and!; [apply demo_read_ordinary..|done].
Defined.
