(* ===== verification/Coherence.v ===== *)
(** Caches on a bus, in atomic mode.

    Any number of caches, each with a processor above it, are connected by a bus to
    one memory, which may be a stack of caches itself.  A request that a cache
    cannot answer is snooped by the other caches before it goes to the memory
    ([Bus::recvAtomic], [Cache::snoopAtomic]).  The system is coherent: it answers
    the requests of all processors, in the order in which they are made, as one
    array of bytes would. *)

From S2P Require Import Prelude IntMath Packet CacheBlk Lru Mshr MshrQueue PhysMem CacheCtl CacheInv CacheRefine Hierarchy RangeMap Bus.

(** ** The system *)

Section System.
Context {M : AtomicPort}.

(** [sendAtomic] of the ports of the bus: the caches are at the ports [0] to [n-1],
    the memory at the port [n].  There is nothing to snoop above the caches. *)
Definition peers (curTick id : Z) (p : Packet.t) (s : list Cache * port_state)
    : option (Packet.t * Z * (list Cache * port_state)) :=
  let '(cs, m) := s in
  if id =? Z.of_nat (length cs) then
    '(p, l, _, m) ← recvAtomic curTick p m; Some (p, l, (cs, m))
  else if 0 <=? id then
    c ← cs !! Z.to_nat id;
    '(p, l, c, _) ← mem_recvAtomic (λ _ _, None) false c p tt;
    Some (p, l, (<[Z.to_nat id := c]> cs, m))
  else None.

(** The bus as seen by the cache [k]. *)
Definition CoherentPort (k : nat) : AtomicPort := {|
  port_state := Bus * (list Cache * port_state);
  recvAtomic t p s :=
    '(p, l, fin, b, s) ← busport_recvAtomic peers t (Z.of_nat k) s.1 p s.2;
    Some (p, l, fin, (b, s))
|}.

(** A request of the processor [k]. *)
Definition sys_access (t : Z) (k : nat) (p : Packet.t) (s : Bus * (list Cache * port_state))
    : option (Packet.t * (Bus * (list Cache * port_state))) :=
  c ← s.2.1 !! k;
  '(p, _, c, (b, (cs, m))) ← @atomicAccess (CoherentPort k) t c p s;
  Some (p, (b, (<[k := c]> cs, m))).

End System.

(** ** A cache and the contents of the memory *)

(** The bytes of the system as a function. *)
Definition Contents : Type := Z → option Z.
#[export] Instance contents_view (bs : Z) : ByteView Contents := {|
  port_ok _ := True; port_byte B := B; port_bs := bs
|}.

Section OneCache.
Context (bs : Z).
#[local] Existing Instance contents_view.
Abbreviation V := (contents_view bs).

(** The block of an address. *)
Definition blk_of (x : Z) : Z := x - x mod bs.

Lemma blk_of_align W X c B x :
  cache_inv (V := V) W X c B → is_u64 x → blkAlign (geo (tags c)) x = blk_of x.
Proof.
  intros Hok Hx. pose proof (ck_wf _ _ Hok) as (Hg & _). pose proof (ck_bs _ _ Hok) as Hbs. cbn in Hbs.
  destruct (block_arith _ Hg x Hx) as (_ & -> & _). unfold blk_of. by rewrite Hbs.
Qed.

(** Every copy in the cache is up to date. *)
Record uptodate (c : Cache) (B : Contents) : Prop := {
  up_inv : cache_inv (V := V) False None c B;
  up_bytes : ∀ x, is_u64 x → cache_byte (V := V) c B x = B x
}.

(** A cache is up to date with what is read through it. *)
Lemma uptodate_absorb X c B :
  cache_inv (V := V) False X c B → uptodate c (cache_byte (V := V) c B).
Proof.
  intros Hok. pose proof (ck_wf _ _ Hok) as (Hg & _). split.
  - split; try apply Hok. intros a i b Ha Hh Hb.
    destruct (ck_blocks _ _ Hok a i b Ha Hh Hb) as [Hrd _ _ _]. pose proof (ck_len _ _ Hok i b Hb) as Hl.
    pose proof (findBlock_unique _ a i (ck_unique _ _ Hok) Hh) as Hf.
    assert (∀ k, 0 <= k < blkSize (geo (tags c)) →
      cache_byte (V := V) c B (blkAlign (geo (tags c)) a + k) = data b !! Z.to_nat k) as Hbyte.
    { intros k Hk. destruct (block_u64 _ a k Hg Ha Hk) as [Hu E].
      rewrite (byte_in_block (V := V) _ _ c B a i b _ Hok) by done. f_equal. lia. }
    split; try done.
    + intros k Hk. cbn. rewrite Hbyte by done. apply lookup_lt_is_Some_2. lia.
    + intros _ _ k Hk. cbn. rewrite Hbyte by lia. by rewrite Nat2Z.id.
  - intros x Hx. unfold cache_byte. destruct (findBlock (tags c) x) as [i|] eqn:E; cbn; by rewrite ?E.
Qed.

(** The contents change only in a block that the cache does not hold. *)
Lemma uptodate_change c B B' a :
  uptodate c B → is_u64 a →
  (∀ x, is_u64 x → blk_of x ≠ blk_of a → B' x = B x) → present B' (blk_of a) bs →
  (∀ x, is_u64 x → B' x = B x) ∨ findBlock (tags c) a = None → uptodate c B'.
Proof.
  intros [Hok Hby] Ha Hout Hpr Hcase. pose proof (ck_bs _ _ Hok) as Hbs. cbn in Hbs.
  pose proof (blk_of_align _ _ _ _ a Hok Ha) as Ea.
  destruct Hcase as [Hsame|Hf].
  - destruct (cache_inv_port (V := V) False None c B B' Hok I Hsame) as [Hok' Hx]. split; [done|].
    intros x Hu. rewrite Hx, Hby by done. symmetry. by apply Hsame.
  - destruct (cache_inv_memory (V := V) False None c B B' a Hok I Ha Hf) as [Hok' Hx].
    + intros x Hu E. rewrite !(blk_of_align _ _ _ _ _ Hok) in E by done. by apply Hout.
    + cbn. by rewrite Ea, Hbs.
    + split; [done|]. intros x Hu. destruct (decide (blk_of x = blk_of a)) as [E|E].
      * apply (absent_bytes (V := V) False None c B' a); try done.
        by rewrite !(blk_of_align _ _ _ _ _ Hok) by done.
      * rewrite Hx, Hby; [symmetry; by apply Hout|done..|]. left. by rewrite !(blk_of_align _ _ _ _ _ Hok).
Qed.

(** ** Snooping one cache *)

(** A request of the cache [k] on the bus for the block at [a]. *)
Record bus_request (cmd : Command) (k a : Z) (r : Request.t) (q : Packet.t) : Prop := {
  bq_cmd : Packet.cmd q = cmd;
  bq_req : Packet.req q = r;
  bq_addr : Packet.getAddr q = Some a;
  bq_size : Packet.getSize q = Some bs;
  bq_ptr : ∃ d, Packet.getPtr q = Some d ∧ Z.of_nat (length d) = bs;
  bq_route : route q = (Some k, Some Packet.Broadcast)
}.

Definition coherence_cmd (cmd : Command) : Prop := cmd ∈ [ReadReq; ReadExReq; UpgradeReq].

Lemma coherence_commands cmd q :
  coherence_cmd cmd → Packet.cmd q = cmd →
  Packet.isRequest q = true ∧ Packet.isResponse q = false ∧ Packet.needsResponse q = true ∧ cmd ≠ Writeback ∧
  Packet.isRead q && negb (Packet.isInvalidate q) = bool_decide (cmd = ReadReq) ∧
  Packet.isInvalidate q = negb (bool_decide (cmd = ReadReq)) ∧
  (cmd = ReadReq → Packet.needsExclusive q = false).
Proof.
  unfold coherence_cmd, Packet.isRequest, Packet.isResponse, Packet.needsResponse, Packet.isRead, Packet.isInvalidate,
    Packet.needsExclusive. intros Hc ->. rewrite !elem_of_cons in Hc. by destruct Hc as [-> |[-> |[-> |[]%elem_of_nil]]].
Qed.

(** The states of the blocks after a snoop. *)
Definition snooped (cmd : Command) (a : Z) (B : Contents) (c c' : Cache) : Prop :=
  uptodate c' B ∧ ∀ x, is_u64 x → blk_state c' x =
    if decide (blk_of x = a)
    then if decide (cmd = ReadReq) then s ← blk_state c x; Some (false, s.2) else None
    else blk_state c x.

Definition is_dirty (s : option (bool * bool)) : bool := match s with Some (_, d) => d | None => false end.

(** A packet takes the data of a block. *)
Lemma supply_block q a b d n :
  Packet.getAddr q = Some a → Packet.getSize q = Some n → Packet.getPtr q = Some d → Z.of_nat (length d) = n →
  Z.of_nat (length b) = n → Z.land a (u64 (n - 1)) = 0 →
  Packet.setDataFromBlock q b n = Some (Packet.set_data q (Packet.flags q) (Some b)) ∧
  Packet.getPtr (Packet.set_data q (Packet.flags q) (Some b)) = Some b.
Proof.
  intros Ha Hs Hp Hd Hb Ho. unfold Packet.setDataFromBlock, Packet.getOffset. rewrite Ha. cbn [mbind option_bind].
  rewrite Ho. unfold Packet.setData. rewrite Hp, Hs. cbn [mbind option_bind]. rewrite memcpy_whole by done.
  cbn [mbind option_bind]. split; [done|]. unfold Packet.getPtr in *. cbn [Packet.flags Packet.data Packet.set_data] in *.
  by destruct (Flags.isSet _ _).
Qed.

(** The answer of a snooped cache that has the only up-to-date copy. *)
Lemma supply_ok cmd k a r q b B :
  coherence_cmd cmd → bus_request cmd k a r q → Z.land a (u64 (bs - 1)) = 0 →
  Packet.memInhibitAsserted q = false → Z.of_nat (length b) = bs → bytes_at B a b →
  ∀ have_exclusive : bool, ∃ q',
    (let p := Packet.assertMemInhibit q in
     let p := if have_exclusive then Packet.setSupplyExclusive p else p in
     p ← Packet.makeResponse p; Packet.setDataFromBlock p b bs) = Some q' ∧
    Packet.cmd q' = MemCmd.responseCommand cmd ∧ Packet.req q' = r ∧ Packet.getAddr q' = Some a ∧
    Packet.getSize q' = Some bs ∧ carries q' B a bs ∧ lines q' = (Packet.sharedAsserted q, true).
Proof.
  intros Hc [Qc Qr Qa Qs (d & Qp & Ql) _] Ho Hi Hl Hb hx. cbn zeta.
  destruct (assertMemInhibit_frame q) as (F1 & _ & L1).
  set (p1 := Packet.assertMemInhibit q) in *.
  set (p2 := if hx then Packet.setSupplyExclusive p1 else p1).
  assert (frame p2 = frame q ∧ lines p2 = (Packet.sharedAsserted q, true) ∧ Packet.cmd p2 = cmd) as (F2 & L2 & C2).
  { unfold p2. destruct hx; [|done]. destruct (setSupplyExclusive_frame p1) as (F & _ & L). split_and!; [congruence..|done]. }
  assert (Packet.needsResponse p2 = true) as Hn by (by apply (coherence_commands cmd)).
  destruct (makeResponse_total p2 Hn) as [p3 H3]. rewrite H3. cbn [mbind option_bind].
  apply makeResponse_keeps in H3 as (Ka & Ks & Kp & Kr & _ & Kc & Ksh & Ki).
  unfold frame in F2. injection F2 as Fa Fs Fp Fr. unfold lines in L2. injection L2 as Ls Li.
  destruct (supply_block p3 a b d bs) as [-> Hptr]; [congruence..|].
  exists (Packet.set_data p3 (Packet.flags p3) (Some b)). split_and!; try done.
  - cbn. congruence.
  - cbn. congruence.
  - rewrite <- Qa, <- Fa, <- Ka. done.
  - rewrite <- Qs, <- Fs, <- Ks. done.
  - by exists b.
  - change (lines (Packet.set_data p3 _ _)) with (lines p3). unfold lines. congruence.
Qed.

(** Facts about a cache and a block at [a]. *)
Lemma block_facts X c B a :
  cache_inv (V := V) False X c B → is_u64 a → blk_of a = a →
  blkAlign (geo (tags c)) a = a ∧ Z.land a (u64 (bs - 1)) = 0 ∧ c_blkSize c = bs ∧ blkSize (geo (tags c)) = bs ∧
  (∀ x, is_u64 x → blkAlign (geo (tags c)) x = a ↔ blk_of x = a) ∧
  (∀ x, is_u64 x → blk_of x = a → findBlock (tags c) x = findBlock (tags c) a ∧ blk_state c x = blk_state c a).
Proof.
  intros Hok Ha Hal. pose proof (ck_wf _ _ Hok) as (Hg & _). pose proof (ck_bs _ _ Hok) as Hbs. cbn in Hbs.
  pose proof (blk_of_align _ _ _ _ a Hok Ha) as Ea. rewrite Hal in Ea.
  destruct (block_arith _ Hg a Ha) as (Eo & _ & Hb & _ & Hmask). pose proof (block_offset _ Hg a Ha) as E0.
  unfold extractBlkOffset in E0. rewrite Hmask in E0.
  assert (∀ x, is_u64 x → blkAlign (geo (tags c)) x = a ↔ blk_of x = a) as Hmem
    by (intros x Hx; by rewrite (blk_of_align _ _ _ _ x Hok Hx)).
  split_and!; try done.
  - rewrite <- Hbs, u64_small by (unfold is_u64; lia). lia.
  - by rewrite (ck_size _ _ Hok).
  - intros x Hx E. assert (findBlock (tags c) x = findBlock (tags c) a) as Ef.
    { apply Hmem in E; [|done]. destruct (findBlock (tags c) a) as [i|] eqn:Hf.
      - apply (findBlock_block _ a); try done; try apply Hok. congruence.
      - destruct (findBlock (tags c) x) as [j|] eqn:Hj; [|done].
        rewrite (findBlock_block (tags c) x a j) in Hf; try done; try apply Hok. congruence. }
    split; [done|]. unfold blk_state. by rewrite Ef.
Qed.

Lemma held_block c B a :
  uptodate c B → is_u64 a → blk_of a = a →
  match findBlock (tags c) a with
  | Some i => ∃ b, blks (tags c) !! i = Some b ∧ isValid b = true ∧ isReadable b = true ∧
      blk_state c a = Some (isWritable b, isDirty b) ∧ Z.of_nat (length (data b)) = bs ∧ bytes_at B a (data b)
  | None => blk_state c a = None
  end.
Proof.
  intros [Hok Hby] Ha Hal. pose proof (ck_wf _ _ Hok) as (Hg & _).
  destruct (block_facts None c B a Hok Ha Hal) as (Eal & _ & _ & Hbs & _).
  destruct (findBlock (tags c) a) as [i|] eqn:Hf; [|unfold blk_state; by rewrite Hf].
  apply findBlock_holds in Hf as Hh. destruct Hh as (st & Hst & Hi & _).
  destruct (set_member _ (ck_wf _ _ Hok) _ _ _ Hst Hi) as [b Hb]. apply findBlock_holds in Hf as Hh.
  destruct (ck_blocks _ _ Hok a i b Ha Hh Hb) as [Hrd _ _ _]. pose proof (ck_len _ _ Hok i b Hb) as Hl.
  exists b. split_and!; try done.
  - by apply (holds_valid _ _ _ _ Hh).
  - unfold blk_state. rewrite Hf. cbn [mbind option_bind]. by rewrite Hb.
  - lia.
  - intros k Hk. destruct (block_u64 _ a (Z.of_nat k) Hg Ha) as [Hu E]; [lia|]. rewrite Eal in *.
    rewrite <- (Hby _ Hu), (byte_in_block (V := V) _ _ c B a i b _ Hok) by (done || congruence).
    rewrite Eal. f_equal. lia.
Qed.

(** A read takes the permission to write away. *)
Lemma demote_ok c B a i b :
  uptodate c B → is_u64 a → blk_of a = a → findBlock (tags c) a = Some i → blks (tags c) !! i = Some b →
  snooped ReadReq a B c (upd c (InTags i) (clear_status BlkWritable)).
Proof.
  intros [Hok Hby] Ha Hal Hf Hb. pose proof (ck_wf _ _ Hok) as (Hg & _).
  destruct (block_facts None c B a Hok Ha Hal) as (Eal & _ & _ & _ & Hmem & Hblk).
  apply findBlock_holds in Hf as Hh. destruct (ck_blocks _ _ Hok a i b Ha Hh Hb) as [Hrd _ _ _].
  pose proof (holds_valid _ _ _ _ Hh Hb) as Hv.
  assert (isReadable (clear_status BlkWritable b) = isReadable b ∧ isValid (clear_status BlkWritable b) = isValid b ∧
    isDirty (clear_status BlkWritable b) = isDirty b ∧ isWritable (clear_status BlkWritable b) = false) as (E1 & E2 & E3 & E4).
  { unfold isReadable, isValid, isDirty, isWritable. cbn [status clear_status blk_set_status].
    rewrite !ldiff_land_disjoint by done. split_and!; try done.
    cbn zeta. destruct (Z.eqb_spec (Z.land (Z.ldiff (status b) BlkWritable) (Z.lor BlkWritable BlkValid))
      (Z.lor BlkWritable BlkValid)) as [E|]; [|done].
    apply (f_equal (λ z, Z.testbit z 1)) in E. rewrite Z.land_spec, Z.ldiff_spec in E.
    change (Z.testbit BlkWritable 1) with true in E. by rewrite andb_false_r in E. }
  destruct (set_block (V := V) False None None c B a i b (clear_status BlkWritable)) as (Hok' & Hfb & Hby' & Hst);
    try done; try congruence; auto.
  split; [split; [done|]|].
  - intros x Hx. rewrite Hby' by done. destruct (decide _) as [E|E]; [|by apply Hby].
    rewrite <- (Hby x Hx), (byte_in_block (V := V) _ _ c B a i b x Hok), block_offset, E by done. done.
  - intros x Hx. rewrite Hst by done. rewrite Eal.
    destruct (decide (blkAlign (geo (tags c)) x = a)) as [E|E]; rewrite Hmem in E by done.
    + rewrite !decide_True by done. destruct (Hblk x Hx E) as [_ ->]. unfold blk_state. rewrite Hf.
      cbn [mbind option_bind]. rewrite Hb. cbn. by rewrite E3, E4.
    + by rewrite decide_False.
Qed.

(** A request for exclusive access takes the copy away. *)
Lemma revoke_ok cmd c B a i b :
  cmd ≠ ReadReq →
  uptodate c B → is_u64 a → blk_of a = a → findBlock (tags c) a = Some i → blks (tags c) !! i = Some b →
  ∃ c', invalidate c (InTags i) = Some c' ∧ snooped cmd a B c c'.
Proof.
  intros Hc [Hok Hby] Ha Hal Hf Hb.
  destruct (block_facts None c B a Hok Ha Hal) as (Eal & _ & _ & _ & Hmem & _).
  destruct (drop_block (V := V) False None c B a i Hok (or_introl eq_refl) Ha Eal Hf b Hb)
    as (c' & Hinv & [Hok' Hg' Hfb Hout Hin Hpr Hgone Hst]).
  exists c'. split; [done|]. split; [split; [done|]|].
  - intros x Hx. destruct (decide (blk_of x = a)) as [E|E].
    + rewrite Hin by (done || by apply Hmem). done.
    + rewrite Hout; [by apply Hby|done|]. by rewrite Hmem.
  - intros x Hx. destruct (decide (blk_of x = a)) as [E|E]; [|apply Hst; [done|by rewrite Hmem]].
    rewrite decide_False by done. destruct (block_facts None c' B a Hok' Ha Hal) as (_ & _ & _ & _ & _ & Hblk).
    destruct (Hblk x Hx E) as [_ ->]. unfold blk_state. by rewrite Hgone.
Qed.

(** What a request is after it has been snooped by a cache with the block in the
    state [st]: a response with the data if the block is dirty there. *)
Definition after_snoop (cmd : Command) (k a : Z) (r : Request.t) (B : Contents) (st : option (bool * bool))
    (q q' : Packet.t) : Prop :=
  Packet.sharedAsserted q' = Packet.sharedAsserted q || (bool_decide (cmd = ReadReq) && bool_decide (is_Some st)) ∧
  if is_dirty st
  then Packet.cmd q' = MemCmd.responseCommand cmd ∧ Packet.req q' = r ∧ Packet.getAddr q' = Some a ∧
       Packet.getSize q' = Some bs ∧ carries q' B a bs ∧ Packet.memInhibitAsserted q' = true
  else bus_request cmd k a r q' ∧ Packet.memInhibitAsserted q' = Packet.memInhibitAsserted q ∧
       Packet.getPtr q' = Packet.getPtr q.

Lemma snoop_ok cmd k a r q c B :
  coherence_cmd cmd → bus_request cmd k a r q → Request.isUncacheable r = false → is_u64 a → blk_of a = a →
  uptodate c B → (is_dirty (blk_state c a) = true → Packet.memInhibitAsserted q = false) →
  ∃ q' l c', mem_recvAtomic (λ _ _, None) false c q tt = Some (q', l, c', tt) ∧ snooped cmd a B c c' ∧
    after_snoop cmd k a r B (blk_state c a) q q'.
Proof.
  intros Hc Hq Hunc Ha Hal Hup Hdi. pose proof Hq as [Qc Qr Qa Qs Qp Qrt]. pose proof Hup as [Hok Hby].
  destruct (coherence_commands cmd q Hc Qc) as (Hrq & Hrs & Hn & Hnw & Hrd & Hinv & Hne).
  destruct (block_facts None c B a Hok Ha Hal) as (Eal & Ho & Hcbs & _ & Hmem & Hblk).
  pose proof (held_block c B a Hup Ha Hal) as Hheld.
  unfold mem_recvAtomic, snoopAtomic. rewrite Hrs, Qr, Hunc, Qa, bool_decide_eq_false_2 by congruence.
  cbn [orb mbind option_bind]. unfold handleSnoop. rewrite Hrq. cbn [negb mbind option_bind].
  destruct (findBlock (tags c) a) as [i|] eqn:Hf; cbn [mbind option_bind].
  2: { exists q, (c_hitLatency c), c. rewrite Hheld. split_and!; [done| |].
       - split; [done|]. intros x Hx. destruct (decide (blk_of x = a)) as [E|E]; [|done].
         destruct (Hblk x Hx E) as [_ ->]. rewrite Hheld. by destruct (decide _).
       - split; [|done]. by rewrite andb_false_r, orb_false_r. }
  destruct Hheld as (b & Hb & Hv & _ & Hst & Hl & Hbb). rewrite Hb. cbn [mbind option_bind]. rewrite Hv, Hn, Hrd, Hinv.
  cbn [negb]. rewrite andb_true_r. rewrite Hst in *. unfold after_snoop. cbn [is_dirty] in *.
  destruct (bool_decide_reflect (cmd = ReadReq)) as [Er|Er].
  - rewrite (Hne Er). cbn [negb mbind option_bind].
    destruct (assertShared_frame q) as (Fq & Rq & Lq). unfold frame in Fq. injection Fq as Fa Fs Fp.
    unfold lines in Lq. injection Lq as Ls Li.
    assert (bus_request cmd k a r (Packet.assertShared q)) as Hq'.
    { split; [done|done|congruence|congruence|by rewrite Fp|by rewrite Rq]. }
    pose proof (demote_ok c B a i b Hup Ha Hal Hf Hb) as Hsn. rewrite <- Er in Hsn.
    change (c_blkSize (upd c (InTags i) _)) with (c_blkSize c). rewrite Hcbs.
    destruct (isDirty b).
    + rewrite Li, (Hdi eq_refl).
      destruct (supply_ok cmd k a r (Packet.assertShared q) (data b) B Hc Hq' Ho) with (have_exclusive := isWritable b)
        as (q' & Hq'' & Kc & Kr & Ka & Ks & Kcar & Kl); try done; [by rewrite Li, (Hdi eq_refl)|].
      cbn zeta in Hq''. rewrite Hq''. cbn [mbind option_bind]. unfold lines in Kl. injection Kl as Ksh Ki.
      do 3 eexists. split; [reflexivity|]. split_and!; try done. by rewrite Ksh, Ls, orb_true_r.
    + cbn [mbind option_bind]. do 3 eexists. split; [reflexivity|]. split_and!; try done. by rewrite Ls, orb_true_r.
  - cbn [negb mbind option_bind]. rewrite Hcbs.
    destruct (revoke_ok cmd c B a i b Er Hup Ha Hal Hf Hb) as (c' & Hinv' & Hsn).
    destruct (isDirty b).
    + rewrite (Hdi eq_refl).
      destruct (supply_ok cmd k a r q (data b) B Hc Hq Ho (Hdi eq_refl)) with (have_exclusive := isWritable b)
        as (q' & Hq'' & Kc & Kr & Ka & Ks & Kcar & Kl); try done.
      cbn zeta in Hq''. rewrite Hq''. cbn [mbind option_bind]. rewrite Hinv'. cbn [mbind option_bind].
      unfold lines in Kl. injection Kl as Ksh Ki. do 3 eexists. split; [reflexivity|]. split_and!; try done.
      by rewrite Ksh, orb_false_r.
    + cbn [mbind option_bind]. rewrite Hinv'. cbn [mbind option_bind]. do 3 eexists. split; [reflexivity|].
      split_and!; try done. by rewrite orb_false_r.
Qed.

End OneCache.

(** ** Snooping all caches *)

Definition held (cs : list Cache) (j : nat) (x : Z) : option (bool * bool) := c ← cs !! j; blk_state c x.
Definition dirty_at (cs : list Cache) (j : nat) (x : Z) : Prop := is_dirty (held cs j x) = true.

Lemma existsb_agree {A} (f g : A → bool) l : (∀ x, x ∈ l → f x = g x) → existsb f l = existsb g l.
Proof.
  induction l as [|y l IH]; intros H; cbn; [done|]. rewrite (H y) by (by left). f_equal. apply IH. intros. apply H. by right.
Qed.

Lemma held_insert cs i j c x : (i < length cs)%nat →
  held (<[i := c]> cs) j x = if decide (j = i) then blk_state c x else held cs j x.
Proof.
  intros Hi. unfold held. destruct (decide (j = i)) as [->|Hne]; [by rewrite list_lookup_insert_eq|].
  by rewrite list_lookup_insert_ne by done.
Qed.

(** The request after the bus has put it back on its way. *)
Lemma restored bs cmd k a r B q :
  Packet.req q = r → Packet.getAddr q = Some a → Packet.getSize q = Some bs → carries q B a bs →
  let q' := Packet.setDest (Packet.setSrc (Packet.set_cmd q cmd) k) Packet.Broadcast in
  bus_request bs cmd k a r q' ∧ carries q' B a bs ∧ lines q' = lines q.
Proof.
  intros Hr Ha Hs (d & Hp & Hl & Hb) q'.
  destruct (setSrc_frame (Packet.set_cmd q cmd) k) as (F1 & R1 & L1).
  destruct (setDest_frame (Packet.setSrc (Packet.set_cmd q cmd) k) Packet.Broadcast) as (F2 & R2 & L2).
  assert (frame q' = frame q) as F by (unfold q'; rewrite F2, F1; done). unfold frame in F. injection F as Fa Fs Fp.
  split_and!.
  - split; [done|done|congruence|congruence|exists d; split; congruence|]. unfold q'. rewrite R2.
    unfold route in R1. injection R1 as -> _. done.
  - exists d. split_and!; [congruence|done..].
  - unfold q'. by rewrite L2, L1.
Qed.

Lemma response_commands cmd q :
  coherence_cmd cmd → Packet.cmd q = MemCmd.responseCommand cmd →
  Packet.isResponse q = true ∧ Packet.cmd q ≠ cmd.
Proof.
  unfold coherence_cmd, Packet.isResponse. intros Hc ->. rewrite !elem_of_cons in Hc.
  by destruct Hc as [-> |[-> |[-> |[]%elem_of_nil]]].
Qed.

Section Loop.
Context {M : AtomicPort} {BM : ByteMemory M}.
Context (cmd : Command) (k : nat) (a : Z) (r : Request.t) (B : Contents).
Abbreviation bs := (@port_bs _ (@port_view M BM)).
Hypothesis Hc : coherence_cmd cmd.
Hypothesis Hunc : Request.isUncacheable r = false.
Hypothesis Ha : is_u64 a.
Hypothesis Hal : blk_of bs a = a.

(** The request and the response of a snooper, if there has been one. *)
Definition snoop_state (q : Packet.t) (resp : option (Command * Z)) : Prop :=
  bus_request bs cmd (Z.of_nat k) a r q ∧ Packet.memInhibitAsserted q = bool_decide (is_Some resp) ∧
  ∀ rc l, resp = Some (rc, l) → rc = MemCmd.responseCommand cmd ∧ carries q B a bs.

(** Whether one of the caches [js] has the block. *)
Definition shared_by (cs : list Cache) (js : list nat) : bool :=
  existsb (λ j, bool_decide (j ≠ k) && bool_decide (is_Some (held cs j a))) js.

Definition snoop_result (js : list nat) (cs : list Cache) (q : Packet.t) (resp : option (Command * Z))
    (q' : Packet.t) (resp' : option (Command * Z)) (cs' : list Cache) : Prop :=
  snoop_state q' resp' ∧
  Packet.sharedAsserted q' = Packet.sharedAsserted q || (bool_decide (cmd = ReadReq) && shared_by cs js) ∧
  (resp' = None → resp = None ∧ ∀ j, j ∈ js → j ≠ k → ¬ dirty_at cs j a) ∧
  length cs' = length cs ∧ (∀ j, j ∉ js ∨ j = k → cs' !! j = cs !! j) ∧
  ∀ j c, j ∈ js → j ≠ k → cs !! j = Some c → ∃ c', cs' !! j = Some c' ∧ snooped bs cmd a B c c'.

(** One snooper answers or lets the request pass. *)
Lemma snoop_one t j q resp cs (m : port_state) c :
  (j < length cs)%nat → snoop_state q resp → cs !! j = Some c → uptodate bs c B →
  (is_dirty (blk_state c a) = true → resp = None) →
  ∃ q1 l c1, peers t (Z.of_nat j) q (cs, m) = Some (q1, l, (<[j := c1]> cs, m)) ∧ snooped bs cmd a B c c1 ∧
    Packet.sharedAsserted q1 = Packet.sharedAsserted q || (bool_decide (cmd = ReadReq) && bool_decide (is_Some (blk_state c a))) ∧
    if is_dirty (blk_state c a)
    then Packet.isResponse q1 = true ∧ Packet.cmd q1 ≠ cmd ∧ Packet.memInhibitAsserted q1 = true ∧
      let q2 := Packet.setDest (Packet.setSrc (Packet.set_cmd q1 cmd) (Z.of_nat k)) Packet.Broadcast in
      snoop_state q2 (Some (Packet.cmd q1, l)) ∧ Packet.sharedAsserted q2 = Packet.sharedAsserted q1
    else Packet.isResponse q1 = false ∧ snoop_state q1 resp.
Proof.
  intros Hj (Hq & Hi & Hr) Hcj Hup Hd.
  destruct (snoop_ok bs cmd (Z.of_nat k) a r q c B) as (q1 & l & c1 & Hrecv & Hsn & Hsh & Haf); try done.
  { intros Hdy. by rewrite Hi, (Hd Hdy). }
  exists q1, l, c1. split_and!; try done.
  { unfold peers. rewrite (proj2 (Z.eqb_neq _ _)) by lia. rewrite (proj2 (Z.leb_le _ _)) by lia.
    rewrite Nat2Z.id, Hcj. cbn [mbind option_bind]. by rewrite Hrecv. }
  destruct (is_dirty (blk_state c a)).
  - destruct Haf as (Kc & Kr & Ka & Ks & Kcar & Ki). destruct (response_commands cmd q1 Hc Kc) as [Hrs Hne].
    destruct (restored bs cmd (Z.of_nat k) a r B q1 Kr Ka Ks Kcar) as (Hbq & Hcar & Hln).
    unfold lines in Hln. injection Hln as Ls Li. cbn zeta. split_and!; [done..| |done].
    split; [done|]. split; [by rewrite Li, Ki|]. by intros rc l' [= <- <-].
  - destruct Haf as (Hbq & Hi' & Hp). split.
    + by apply (coherence_commands cmd q1 Hc), Hbq.
    + split_and!; [done|congruence|]. intros rc l' E. destruct (Hr rc l' E) as [? (d & Hd' & ?)]. split; [done|].
      exists d. split; [congruence|done].
Qed.

Lemma snoop_loop_ok t js q resp cs (m : port_state) :
  Forall (λ j, (j < length cs)%nat) js → NoDup js → snoop_state q resp →
  (∀ j c, j ∈ js → j ≠ k → cs !! j = Some c → uptodate bs c B) →
  (∀ j j', j ∈ js → j' ∈ js → j ≠ k → j' ≠ k → dirty_at cs j a → dirty_at cs j' a → j = j') →
  (is_Some resp → ∀ j, j ∈ js → j ≠ k → ¬ dirty_at cs j a) →
  ∃ q' resp' cs', snoop_loop peers t (Z.of_nat <$> js) (Z.of_nat (length cs)) cmd (Z.of_nat k) q resp (cs, m)
      = Some (q', resp', (cs', m)) ∧ snoop_result js cs q resp q' resp' cs'.
Proof.
  revert q resp cs. induction js as [|j js IH]; intros q resp cs Hlt Hnd Hst Hup Huni Hno.
  { exists q, resp, cs. split; [done|]. unfold snoop_result. split_and!; try done.
    - by rewrite andb_false_r, orb_false_r.
    - intros E. split; [done|]. intros j []%elem_of_nil.
    - intros j c []%elem_of_nil. }
  apply Forall_cons in Hlt as [Hj Hlt]. apply NoDup_cons in Hnd as [Hnj Hnd].
  assert (Packet.getSrc q = Some (Z.of_nat k)) as Hsrc.
  { destruct Hst as (Hq & _). pose proof (bq_route _ _ _ _ _ _ Hq) as Hrt. unfold route in Hrt. by injection Hrt as ->. }
  cbn [fmap list_fmap snoop_loop]. rewrite (proj2 (Z.eqb_neq _ _)) by lia. rewrite Hsrc. cbn [mbind option_bind].
  destruct (decide (j = k)) as [->|Hjk].
  { rewrite Z.eqb_refl. destruct (IH q resp cs) as (q' & resp' & cs' & Hl & R1 & R2 & R3 & R4 & R5 & R6);
      try done.
    { intros j c Hi. apply Hup. by right. }
    { intros j j' Hi Hi'. apply Huni; by right. }
    { intros Hs j Hi. apply (Hno Hs). by right. }
    exists q', resp', cs'. split; [done|]. unfold snoop_result. split_and!; try done.
    - rewrite R2. unfold shared_by. cbn [existsb].
      by rewrite (bool_decide_eq_false_2 (k ≠ k)) by (intros Hx; by apply Hx).
    - intros E. destruct (R3 E) as [? Hn]. split; [done|]. intros j [->|Hin]%elem_of_cons Hne; [done|by apply Hn].
    - intros j Hor. apply R5. rewrite not_elem_of_cons in Hor. tauto.
    - intros j c [->|Hin]%elem_of_cons Hne; [done|by apply R6]. }
  rewrite (proj2 (Z.eqb_neq _ _)) by lia.
  destruct (lookup_lt_is_Some_2 cs j Hj) as [c Hcj].
  assert (held cs j a = blk_state c a) as Hheld by (unfold held; by rewrite Hcj).
  destruct (snoop_one t j q resp cs m c) as (q1 & l & c1 & Hsend & Hsn & Hsh & Haf); try done.
  { apply (Hup j); [by left|done..]. }
  { intros Hdy. destruct resp as [x|]; [|done]. exfalso.
    apply (Hno ltac:(by eexists) j); [by left|done|]. unfold dirty_at. by rewrite Hheld. }
  rewrite Hsend. cbn [mbind option_bind].
  assert (∀ i x, i ≠ j → held (<[j := c1]> cs) i x = held cs i x) as Hother
    by (intros i x Hne; rewrite held_insert, decide_False by done; done).
  assert (∀ q2 resp2, snoop_state q2 resp2 → Packet.sharedAsserted q2 = Packet.sharedAsserted q1 →
    (is_Some resp2 → is_dirty (blk_state c a) = true ∨ is_Some resp) →
    (resp2 = None → resp = None ∧ is_dirty (blk_state c a) = false) →
    ∃ q' resp' cs', snoop_loop peers t (Z.of_nat <$> js) (Z.of_nat (length cs)) cmd (Z.of_nat k) q2 resp2
      (<[j := c1]> cs, m) = Some (q', resp', (cs', m)) ∧ snoop_result (j :: js) cs q resp q' resp' cs') as Hgo.
  { intros q2 resp2 Hst2 Hs2 Hr2 Hn2. destruct (IH q2 resp2 (<[j := c1]> cs)) as
      (q' & resp' & cs' & Hl & R1 & R2 & R3 & R4 & R5 & R6); try done.
    - by rewrite length_insert.
    - intros i ci Hi Hne Hci. rewrite list_lookup_insert_ne in Hci by (intros ->; done). apply (Hup i); [by right|done..].
    - intros i i' Hi Hi' Hne Hne'. unfold dirty_at. rewrite !Hother by (intros ->; done).
      apply Huni; [by right|by right|done..].
    - intros Hsome i Hi Hne. unfold dirty_at. rewrite Hother by (intros ->; done).
      destruct (Hr2 Hsome) as [Hdy|Hs0]; [|apply (Hno Hs0); [by right|done]]. intros Hdi.
      assert (j = i) as -> by (apply Huni; [by left|by right|done|done|unfold dirty_at; by rewrite Hheld|done]). done.
    - rewrite length_insert in Hl, R4. exists q', resp', cs'. split; [done|]. unfold snoop_result. split_and!; try done.
      + rewrite R2, Hs2, Hsh. unfold shared_by. cbn [existsb]. rewrite Hheld, (bool_decide_eq_true_2 (j ≠ k)) by done. cbn [andb].
        assert (existsb (λ i, bool_decide (i ≠ k) && bool_decide (is_Some (held (<[j:=c1]> cs) i a))) js =
                existsb (λ i, bool_decide (i ≠ k) && bool_decide (is_Some (held cs i a))) js) as ->.
        { apply existsb_agree. intros i Hi. rewrite Hother; [done|]. intros ->. done. }
        by destruct (bool_decide (cmd = ReadReq)), (Packet.sharedAsserted q), (bool_decide (is_Some (blk_state c a))).
      + intros E. destruct (R3 E) as [E2 Hnd']. destruct (Hn2 E2) as [? Hcl]. split; [done|].
        intros i [->|Hi]%elem_of_cons Hne; unfold dirty_at; [by rewrite Hheld, Hcl|].
        specialize (Hnd' i Hi Hne). unfold dirty_at in Hnd'. by rewrite Hother in Hnd' by (intros ->; done).
      + intros i Hor. rewrite not_elem_of_cons in Hor. rewrite R5 by tauto.
        apply list_lookup_insert_ne. intros <-. tauto.
      + intros i ci [->|Hi]%elem_of_cons Hne Hci.
        * rewrite R5 by (by left). rewrite list_lookup_insert_eq by done. exists c1. split; [done|]. congruence.
        * apply (R6 i ci Hi Hne). by rewrite list_lookup_insert_ne by (intros ->; done). }
  destruct (is_dirty (blk_state c a)) eqn:Hdy.
  - destruct Haf as (Hrs & Hne & Hin & Hst2 & Hs2). rewrite Hrs, Hin, bool_decide_eq_false_2 by done. cbn [negb orb].
    assert (resp = None) as ->.
    { destruct resp as [x|]; [|done]. exfalso. apply (Hno ltac:(by eexists) j); [by left|done|]. unfold dirty_at. by rewrite Hheld. }
    apply Hgo; auto. done.
  - destruct Haf as (Hrs & Hst2). rewrite Hrs. apply Hgo; auto.
Qed.

End Loop.

(** ** A transaction on the bus *)

(** The bus connects [n] caches with the memory, to which it sends the requests for
    all addresses that have a byte. *)
Record bus_serves (b : Bus) (n : nat) (B : Contents) : Prop := {
  bv_ok : bus_ok b;
  bv_target : ∀ x, is_u64 x → is_Some (B x) → findPort_ref b x = Some (Z.of_nat n);
  bv_face : Z.of_nat n ∈ interfaces b;
  bv_snoop : ∃ js, js ≡ₚ seq 0 n ∧ snoopPorts b = Z.of_nat <$> js
}.

Lemma bus_serves_config b b' n B :
  bus_serves b n B → bus_ok b' → same_config b b' → bus_serves b' n B.
Proof.
  intros [_ Ht Hf Hs] Hok (E1 & E2 & E3 & _ & E5 & E6 & _). split; [done| |by rewrite E5|by rewrite E6].
  unfold findPort_ref in *. by rewrite E1, E2, E3.
Qed.

Section Transaction.
Context {M : AtomicPort} {BM : ByteMemory M}.
Abbreviation bs := (@port_bs _ (@port_view M BM)).

(** The bus finds the memory for an address with a byte. *)
Lemma find_memory b n B x :
  bus_serves b n B → is_u64 x → is_Some (B x) →
  ∃ b1 b2, findPort b x = Some (Z.of_nat n, b1) ∧ target_port b1 (Z.of_nat n) = Some (Z.of_nat n, b2) ∧
    bus_serves b2 n B.
Proof.
  intros Hb Hx HB. pose proof Hb as [Hok Ht Hf Hs]. pose proof (findPort_cached b x Hok Hx) as Hfp.
  rewrite (Ht x Hx HB) in Hfp. destruct Hfp as (b1 & Hfp & Hok1 & Hc1).
  destruct (target_port_ok b1 (Z.of_nat n) Hok1) as (b2 & Htp & Hok2 & Hc2).
  - unfold defaultId. lia.
  - destruct Hc1 as (_ & _ & _ & _ & -> & _). done.
  - exists b1, b2. split_and!; try done. apply (bus_serves_config b); try done. by eapply same_config_trans.
Qed.

(** What the memory makes of the request after it has been snooped. *)
Lemma memory_answers t cmd (k : nat) a r B q resp (m : port_state) :
  coherence_cmd cmd → is_u64 a → 0 < bs → a + bs <= 2 ^ 64 → snoop_state cmd k a r B q resp → block_request bs q a → port_ok m →
  present (port_byte m) a bs →
  (cmd ≠ UpgradeReq → resp = None → ∀ x, a <= x < a + bs → port_byte m x = B x) →
  ∃ q' l fin m' rl, recvAtomic t q m = Some (q', l, fin, m') ∧
    match resp with
    | Some (rc, l) => if Packet.isResponse q' || negb (bool_decide (Packet.cmd q' = cmd)) then None
                      else Some (Packet.set_cmd q' rc, l)
    | None => Some (q', l)
    end = Some (rl : Packet.t * Z) ∧
    block_response q a rl.1 ∧ (cmd ≠ UpgradeReq → carries rl.1 B a bs) ∧
    (Packet.sharedAsserted q = true ∨ cmd ≠ ReadReq → Packet.sharedAsserted rl.1 = Packet.sharedAsserted q) ∧
    port_ok m' ∧ (∀ x, is_u64 x → ¬ (a <= x < a + bs) ∨ cmd = ReadReq → port_byte m' x = port_byte m x) ∧
    present (port_byte m') a bs.
Proof.
  intros Hc Ha Hbs H64 (Hq & Hi & Hr) Hbr Hm Hpr HB. pose proof Hq as [Qc Qr Qa Qs (d & Qp & Ql) _].
  destruct (coherence_commands cmd q Hc Qc) as (_ & Hrs & _).
  destruct resp as [[rc rl]|].
  - destruct (Hr rc rl eq_refl) as [-> Hcar]. cbn in Hi.
    destruct (port_inhibited t q m a) as (l & fin & m' & Hrecv & Hm' & Hx & Hpr'); try done; [by rewrite Qc|].
    exists q, l, fin, m', (Packet.set_cmd q (MemCmd.responseCommand cmd), rl).
    rewrite Hrs, bool_decide_eq_true_2 by done. split_and!; try done.
    + split; [cbn; by rewrite Qc|done|done].
    + rewrite Qc in Hx. done.
  - cbn in Hi.
    assert (transfer q a bs d) as Ht by (unfold is_u64 in Ha; split_and!; try done; lia).
    assert (cmd ≠ UpgradeReq → ∀ q', carries q' (port_byte m) a bs → carries q' B a bs) as Hcar.
    { intros Hu q' (d' & ? & Hl' & Hb'). exists d'. split_and!; try done. intros n Hn. rewrite Hb' by done.
      apply HB; [done|done|lia]. }
    unfold coherence_cmd in Hc. rewrite !elem_of_cons in Hc. destruct Hc as [Ec|[Ec|[Ec|[]%elem_of_nil]]]; rewrite Ec in *.
    + destruct (port_read t q m a d Hm Qc Ht Hbr Hpr) as (q' & l & fin & m' & Hrecv & Hm' & Hx & Hrs' & Hca & Hsh).
      exists q', l, fin, m', (q', l). split_and!; auto; [intros [?|?]; auto; done|].
      intros n Hn. rewrite Hx by (unfold is_u64 in *; lia). by apply Hpr.
    + destruct (port_own t q m a d Hm Qc Ht Hbr Hpr) as (q' & l & fin & m' & Hrecv & Hm' & Hx & Hpr' & Hrs' & Hca & Hsh).
      exists q', l, fin, m', (q', l). split_and!; auto. intros x Hu [?|?]; [auto|done].
    + destruct (port_upgrade t q m a d Hm Qc Ht Hbr Hpr) as (q' & l & fin & m' & Hrecv & Hm' & Hx & Hpr' & Hrs' & Hsh).
      exists q', l, fin, m', (q', l). split_and!; auto; [done|]. intros x Hu [?|?]; [auto|done].
Qed.

(** The caches after the transaction of the cache [k] for the block at [a]. *)
Definition others_snooped (cmd : Command) (k : nat) (a : Z) (B : Contents) (cs cs' : list Cache) : Prop :=
  length cs' = length cs ∧ cs' !! k = cs !! k ∧
  ∀ j c, j ≠ k → cs !! j = Some c → ∃ c', cs' !! j = Some c' ∧ snooped bs cmd a B c c'.

(** What the other caches and the memory have to be for a transaction. *)
Record bus_ready (k : nat) (a : Z) (b : Bus) (cs : list Cache) (m : port_state) (B : Contents) : Prop := {
  rd_bus : bus_serves b (length cs) B;
  rd_k : (k < length cs)%nat;
  rd_others : ∀ j c, j ≠ k → cs !! j = Some c → uptodate bs c B;
  rd_dirty : ∀ j j', j ≠ k → j' ≠ k → dirty_at cs j a → dirty_at cs j' a → j = j';
  rd_port : port_ok m;
  rd_domain : ∀ x, is_u64 x → is_Some (B x) → is_Some (port_byte m x)
}.

Lemma transaction_ok t cmd k a (b : Bus) cs (m : port_state) B q d :
  coherence_cmd cmd → is_u64 a → blk_of bs a = a → 0 < bs → a + bs <= 2 ^ 64 → bus_ready k a b cs m B →
  Packet.cmd q = cmd → transfer q a bs d → block_request bs q a → Packet.sharedAsserted q = false →
  Packet.getDest q = Some Packet.Broadcast → present B a bs →
  (cmd ≠ UpgradeReq → (∀ j, j ≠ k → ¬ dirty_at cs j a) → ∀ x, a <= x < a + bs → port_byte m x = B x) →
  ∃ q' l fin b' cs' m', @recvAtomic (CoherentPort k) t q (b, (cs, m)) = Some (q', l, fin, (b', (cs', m'))) ∧
    bus_serves b' (length cs) B ∧ block_response q a q' ∧ (cmd ≠ UpgradeReq → carries q' B a bs) ∧
    (cmd ≠ ReadReq → Packet.sharedAsserted q' = false) ∧
    (Packet.sharedAsserted q' = false → cmd = ReadReq → ∀ j, j ≠ k → held cs j a = None) ∧
    others_snooped cmd k a B cs cs' ∧ port_ok m' ∧
    (∀ x, is_u64 x → ¬ (a <= x < a + bs) ∨ cmd = ReadReq → port_byte m' x = port_byte m x) ∧
    present (port_byte m') a bs.
Proof.
  intros Hc Ha Hal Hbs H64 [Hbus Hk Hup Huni Hm Hdom] Qc Ht Hbr Hsh Hdst HpB Hclean.
  pose proof Ht as (Qa & Qs & Qp & Ql & _ & _ & Qi). pose proof Hbus as [_ _ _ Hsnp].
  set (r := Packet.req q). set (q0 := Packet.setSrc q (Z.of_nat k)).
  destruct (setSrc_frame q (Z.of_nat k)) as (F0 & R0 & L0). unfold frame in F0. injection F0 as Fa Fs Fp.
  unfold lines in L0. injection L0 as Ls Li. rewrite Hdst in R0.
  assert (snoop_state (BM := BM) cmd k a r B q0 None) as Hst0.
  { split_and!; [|unfold q0; by rewrite Li|done].
    split; [done|done|unfold q0; congruence|unfold q0; congruence|exists d; split; [unfold q0; congruence|done]|done]. }
  destruct (find_memory b (length cs) B a Hbus Ha) as (b1 & b2 & Hfp & Htp & Hbus2).
  { specialize (HpB 0). rewrite Z.add_0_r in HpB. apply HpB. lia. }
  destruct (bv_snoop _ _ _ Hbus2) as (js & Hjs & Esn).
  assert (∀ j, j ∈ js ↔ (j < length cs)%nat) as Hmem by (intros j; rewrite Hjs, elem_of_seq; lia).
  destruct (snoop_loop_ok (BM := BM) cmd k a r B Hc (br_cacheable _ _ _ Hbr) Ha Hal t js q0 None cs m)
    as (q1 & resp & cs1 & Hloop & Hst1 & Hsh1 & Hres & Hl1 & Hsame & Hsn); try done.
  { apply Forall_forall. intros j Hj. by apply Hmem. }
  { rewrite Hjs. apply NoDup_seq. }
  { intros j c _ Hne Hj. by apply (Hup j). }
  { intros j j' _ _. apply Huni. }
  assert (∀ j, held cs j a ≠ None → j ∈ js) as Hin.
  { intros j Hj. apply Hmem. unfold held in Hj. destruct (cs !! j) eqn:E; [|done].
    by apply lookup_lt_Some in E. }
  assert (block_request bs q1 a) as Hbr1.
  { destruct Hst1 as (Hq1 & _). destruct Hbr as [H1 H2 H3]. pose proof (bq_req _ _ _ _ _ _ Hq1) as Er.
    split; rewrite Er; done. }
  destruct (memory_answers t cmd k a r B q1 resp m Hc Ha Hbs H64 Hst1 Hbr1 Hm)
    as (q2 & l & fin & m' & [q3 l3] & Hrecv & Hfin & Hrs & Hcar & Hsh3 & Hm' & Hx & Hpr').
  { intros n Hn. apply Hdom; [unfold is_u64 in *; lia|]. by apply HpB. }
  { intros Hu Er. apply (Hclean Hu). intros j Hj Hd. destruct (Hres Er) as [_ Hnd]. apply (Hnd j); [|done..].
    apply Hin. unfold dirty_at in Hd. intros E. by rewrite E in Hd. }
  pose proof Hst1 as (Hq1 & _). pose proof Hrs as [Rc Rr Ra]. cbn in Rc, Rr, Ra.
  exists q3, l3, (s64 (t + l3)), b2, cs1, m'. split_and!; try done.
  - cbn [recvAtomic CoherentPort fst snd]. unfold busport_recvAtomic, bus_recvAtomic. fold q0.
    assert (Packet.getDest q0 = Some Packet.Broadcast ∧ Packet.getSrc q0 = Some (Z.of_nat k)) as [-> ->]
      by (unfold q0, route in *; by injection R0 as -> ->).
    cbn [mbind option_bind].
    assert (Packet.isRequest q0 = true) as -> by (by apply (coherence_commands cmd)).
    rewrite Z.eqb_refl. cbn [negb orb].
    assert (Packet.getAddr q0 = Some a) as -> by (unfold q0; congruence). cbn [mbind option_bind].
    rewrite Hfp. cbn [mbind option_bind]. rewrite Htp. cbn [mbind option_bind].
    rewrite Esn. change (Packet.cmd q0) with (Packet.cmd q). rewrite Qc, Hloop.
    cbn [mbind option_bind]. pose proof (bq_route _ _ _ _ _ _ Hq1) as Hrt. unfold route in Hrt. injection Hrt as -> _.
    cbn [mbind option_bind]. rewrite (proj2 (Z.eqb_neq _ _)) by lia. unfold peers at 1. rewrite Hl1, Z.eqb_refl, Hrecv.
    cbn [mbind option_bind]. by rewrite Hfin.
  - split; [rewrite Rc, (bq_cmd _ _ _ _ _ _ Hq1); by rewrite Qc|by rewrite Rr, (bq_req _ _ _ _ _ _ Hq1)|done].
  - intros Hn. cbn in Hsh3. rewrite Hsh3, Hsh1, bool_decide_eq_false_2 by auto. unfold q0. by rewrite Ls, Hsh.
  - intros Hf Ec j Hj. cbn in Hsh3. destruct (Packet.sharedAsserted q1); [rewrite Hsh3 in Hf by auto; done|].
    symmetry in Hsh1. apply orb_false_iff in Hsh1 as [_ E1]. rewrite bool_decide_eq_true_2 in E1 by done. cbn in E1.
    destruct (held cs j a) eqn:Eh; [|done]. exfalso. assert (shared_by k a cs js = true); [|congruence].
    apply existsb_exists. exists j. split; [apply list_elem_of_In, Hin; congruence|].
    rewrite Eh. by rewrite !bool_decide_eq_true_2.
  - split_and!; [done|apply Hsame; by right|]. intros j c Hj Hcj. apply (Hsn j c); try done.
    apply Hmem. by apply lookup_lt_Some in Hcj.
Qed.

(** Nobody snoops a writeback. *)
Lemma snoop_writeback t js target k q resp cs (m : port_state) v dv :
  Forall (λ j, (j < length cs)%nat) js → target = Z.of_nat (length cs) →
  writeback_of q v bs dv → Packet.getSrc q = Some k →
  snoop_loop peers t (Z.of_nat <$> js) target Writeback k q resp (cs, m) = Some (q, resp, (cs, m)).
Proof.
  intros Hjs -> Hwb Hsrc. pose proof (wb_cmd _ _ _ _ Hwb) as Hc. induction js as [|j js IH]; [done|].
  apply Forall_cons in Hjs as [Hj Hjs]. cbn [fmap list_fmap snoop_loop]. rewrite (proj2 (Z.eqb_neq _ _)) by lia.
  rewrite Hsrc. cbn [mbind option_bind]. destruct (Z.of_nat j =? k); [by apply IH|].
  destruct (lookup_lt_is_Some_2 cs j Hj) as [c Hcj].
  assert (Packet.isResponse q = false) as Hr by (unfold Packet.isResponse; by rewrite Hc).
  assert (peers t (Z.of_nat j) q (cs, m) = Some (q, c_hitLatency c, (cs, m))) as ->.
  { unfold peers. rewrite (proj2 (Z.eqb_neq _ _)) by lia. rewrite (proj2 (Z.leb_le _ _)), Nat2Z.id, Hcj by lia.
    cbn [mbind option_bind]. unfold mem_recvAtomic, snoopAtomic.
    rewrite Hr, (bool_decide_eq_true_2 (Packet.cmd q = Writeback)), orb_true_r by done. cbn [mbind option_bind].
    by rewrite list_insert_id. }
  cbn [mbind option_bind]. rewrite Hr. by apply IH.
Qed.

Lemma writeback_transaction t k b cs (m : port_state) B wb v dv :
  bus_serves b (length cs) B → (k < length cs)%nat → port_ok m → writeback_of wb v bs dv →
  present (port_byte m) v bs → is_Some (B v) →
  ∃ q l fin b' m', @recvAtomic (CoherentPort k) t wb (b, (cs, m)) = Some (q, l, fin, (b', (cs, m'))) ∧
    bus_serves b' (length cs) B ∧ port_ok m' ∧
    ∀ x, is_u64 x → port_byte m' x = if decide (v <= x < v + bs) then dv !! Z.to_nat (x - v) else port_byte m x.
Proof.
  intros Hbus Hk Hm Hwb Hpr HB. pose proof Hwb as [Wc Wt Wp Wa Wi Wu Wx Wd].
  set (q0 := Packet.setSrc wb (Z.of_nat k)).
  destruct (setSrc_frame wb (Z.of_nat k)) as (F0 & R0 & L0). unfold frame in F0. injection F0 as Fa Fs Fp.
  unfold lines in L0. injection L0 as Ls Li. rewrite Wd in R0. unfold route in R0. injection R0 as Rs Rd.
  assert (writeback_of q0 v bs dv) as Hwb0.
  { split; try done. destruct Wt as (H1 & H2 & H3 & H4 & H5 & H6 & H7). unfold q0. split_and!; congruence || done. }
  destruct (port_writeback t q0 m v dv Hm Hwb0 Hpr) as (q & l & fin & m' & Hrecv & Hm' & Hx).
  destruct (find_memory b (length cs) B v Hbus (proj1 Wa) HB) as (b1 & b2 & Hfp & Htp & Hbus2).
  exists q, l, (s64 (t + l)), b2, m'. split_and!; try done.
  cbn [recvAtomic CoherentPort fst snd]. unfold busport_recvAtomic, bus_recvAtomic. fold q0 in Rs, Rd |- *.
  rewrite Rs, Rd. cbn [mbind option_bind].
  assert (Packet.isRequest q0 = true) as -> by (unfold Packet.isRequest, q0; cbn; by rewrite Wc).
  rewrite Z.eqb_refl. cbn [negb orb].
  assert (Packet.getAddr q0 = Some v) as -> by (destruct (wb_transfer _ _ _ _ Hwb0) as (-> & _); done).
  cbn [mbind option_bind]. rewrite Hfp. cbn [mbind option_bind]. rewrite Htp. cbn [mbind option_bind].
  destruct (bv_snoop _ _ _ Hbus2) as (js & Hjs & Esn). rewrite Esn, (wb_cmd _ _ _ _ Hwb0).
  rewrite (snoop_writeback t _ _ _ q0 None cs m v dv); try done.
  - cbn [mbind option_bind]. rewrite Rs. cbn [mbind option_bind]. rewrite (proj2 (Z.eqb_neq _ _)) by lia.
    unfold peers. rewrite Z.eqb_refl, Hrecv. done.
  - apply Forall_forall. intros j Hj. rewrite Hjs, elem_of_seq in Hj. lia.
Qed.

End Transaction.

(** ** Coherence *)

Section Coherent.
Context {M : AtomicPort} {BM : ByteMemory M}.
Abbreviation bs := (@port_bs _ (@port_view M BM)).
Abbreviation V := (contents_view bs).

(** The system has the contents [B]: every copy of a block is up to date, the memory
    is where no cache has a dirty copy, at most one cache has a dirty copy, and who
    may write a block has the only copy. *)
Record coherent (b : Bus) (cs : list Cache) (m : port_state) (B : Contents) : Prop := {
  co_bus : bus_serves b (length cs) B;
  co_caches : ∀ j c, cs !! j = Some c → uptodate bs c B;
  co_port : port_ok m;
  co_domain : ∀ x, is_u64 x → is_Some (B x) → is_Some (port_byte m x);
  co_clean : ∀ x, is_u64 x → (∀ j, ¬ dirty_at cs j x) → port_byte m x = B x;
  co_dirty : ∀ x j j', is_u64 x → dirty_at cs j x → dirty_at cs j' x → j = j';
  co_single : ∀ x j j' d, is_u64 x → held cs j x = Some (true, d) → held cs j' x ≠ None → j' = j
}.

(** The state of the requester [k] with cache [c2] and of the others [cs], before it
    is put back together.  [own] says that the others have lost the block [A]. *)
Record requested (k : nat) (A : Z) (own : bool) (b : Bus) (cs : list Cache) (m : port_state) (B : Contents)
    (c2 : Cache) : Prop := {
  rq_bus : bus_serves b (length cs) B;
  rq_k : (k < length cs)%nat;
  rq_others : ∀ j c, j ≠ k → cs !! j = Some c → uptodate bs c B;
  rq_cache : cache_inv (V := V) False None c2 B;
  rq_out : ∀ x, is_u64 x → blk_of bs x ≠ A → cache_byte (V := V) c2 B x = B x;
  rq_in : own = false → ∀ x, is_u64 x → cache_byte (V := V) c2 B x = B x;
  rq_own : own = true → ∀ j x, j ≠ k → is_u64 x → blk_of bs x = A → held cs j x = None;
  rq_present : present B A bs;
  rq_port : port_ok m;
  rq_domain : ∀ x, is_u64 x → is_Some (B x) → is_Some (port_byte m x);
  rq_clean : ∀ x, is_u64 x → (∀ j, j ≠ k → ¬ dirty_at cs j x) → is_dirty (blk_state c2 x) = false →
    port_byte m x = cache_byte (V := V) c2 B x;
  rq_dirty : ∀ x j j', is_u64 x → j ≠ k → j' ≠ k → dirty_at cs j x → dirty_at cs j' x → j = j';
  rq_mine : ∀ x j, is_u64 x → j ≠ k → dirty_at cs j x → is_dirty (blk_state c2 x) = false;
  rq_single : ∀ x j j' d, is_u64 x → j ≠ k → j' ≠ k → held cs j x = Some (true, d) → held cs j' x ≠ None → j' = j;
  rq_theirs : ∀ x j d, is_u64 x → j ≠ k → held cs j x = Some (true, d) → blk_state c2 x = None;
  rq_writer : ∀ x j d, is_u64 x → j ≠ k → blk_state c2 x = Some (true, d) → held cs j x = None
}.

Lemma reassemble k A own b cs (m : port_state) B c2 :
  is_u64 A → blk_of bs A = A → requested k A own b cs m B c2 →
  coherent b (<[k := c2]> cs) m (cache_byte (V := V) c2 B).
Proof.
  intros HA Hal [Hbus Hk Hoth Hinv Hout Hin Hown Hpr Hm Hdom Hcl Hdy Hmine Hsg Hth Hwr].
  set (B' := cache_byte (V := V) c2 B).
  assert (∀ j x, held (<[k := c2]> cs) j x = if decide (j = k) then blk_state c2 x else held cs j x) as Hheld
    by (intros; by apply held_insert).
  assert (present B' A bs) as Hpr'.
  { destruct (uptodate_absorb bs None c2 B Hinv) as [Hinv' Hby'].
    pose proof (ck_wf _ _ Hinv) as (Hg & _). pose proof (ck_bs _ _ Hinv) as Hbs. cbn in Hbs.
    pose proof (blk_of_align bs _ _ _ _ A Hinv HA) as Ea. rewrite Hal in Ea.
    destruct (findBlock (tags c2) A) as [i|] eqn:Hf.
    - apply findBlock_holds in Hf as Hh. destruct Hh as (st & Hst & Hi & _).
      destruct (set_member _ (ck_wf _ _ Hinv) _ _ _ Hst Hi) as [bb Hbb]. apply findBlock_holds in Hf as Hh.
      pose proof (good_present _ _ _ _ _ _ (ck_blocks _ _ Hinv' A i bb HA Hh Hbb)) as Hp. cbn in Hp. by rewrite Ea, Hbs in Hp.
    - intros n Hn. destruct (block_u64 _ A n Hg HA) as [Hu E]; [lia|]. rewrite Ea in *. unfold B'.
      rewrite (absent_bytes (V := V) False None c2 B A) by (done || congruence). by apply Hpr. }
  assert (∀ x, is_u64 x → is_Some (B' x) → is_Some (B x)) as Hsub.
  { intros x Hx Hs. destruct (decide (blk_of bs x = A)) as [E|E]; [|by rewrite <- (Hout x Hx E)].
    pose proof (ck_wf _ _ Hinv) as (Hg & _). pose proof (ck_bs _ _ Hinv) as Hbs. cbn in Hbs.
    destruct (block_arith _ Hg x Hx) as (_ & _ & Hpos & _). unfold blk_of in E.
    pose proof (Z.mod_pos_bound x bs ltac:(lia)). replace x with (A + (x - A)) by lia. apply Hpr. lia. }
  split.
  - rewrite length_insert. destruct Hbus as [? Ht ? ?]. split; try done. intros x Hx Hs. apply Ht; auto.
  - intros j c Hj. apply list_lookup_insert_Some in Hj as [(-> & <- & _)|[Hne Hj]].
    + apply (uptodate_absorb bs None c2 B Hinv).
    + apply (uptodate_change bs c B B' A); try done; [by apply (Hoth j)|by rewrite Hal|by rewrite Hal|].
      destruct own; [right|left; by apply Hin]. specialize (Hown eq_refl j A ltac:(done) HA Hal). unfold held in Hown.
      rewrite Hj in Hown. cbn in Hown. pose proof (held_block bs c B A (Hoth j c ltac:(done) Hj) HA Hal) as Hh.
      destruct (findBlock (tags c) A) as [i|]; [|done]. destruct Hh as (bb & _ & _ & _ & E & _). congruence.
  - done.
  - intros x Hx Hs. apply Hdom; auto.
  - intros x Hx Hnd. apply Hcl; [done| |].
    + intros j Hj. specialize (Hnd j). unfold dirty_at in *. by rewrite Hheld, decide_False in Hnd.
    + specialize (Hnd k). unfold dirty_at in Hnd. rewrite Hheld, decide_True in Hnd by done. by destruct (is_dirty _).
  - intros x j j' Hx. unfold dirty_at. rewrite !Hheld. intros Hj Hj'.
    destruct (decide (j = k)) as [->|Hne], (decide (j' = k)) as [->|Hne']; try done.
    + by rewrite (Hmine x j' Hx Hne' Hj') in Hj.
    + by rewrite (Hmine x j Hx Hne Hj) in Hj'.
    + by apply (Hdy x).
  - intros x j j' d Hx. rewrite !Hheld. intros Hj Hj'.
    destruct (decide (j = k)) as [->|Hne], (decide (j' = k)) as [->|Hne']; try done.
    + by rewrite (Hwr x j' d Hx Hne' Hj) in Hj'.
    + by rewrite (Hth x j d Hx Hne Hj) in Hj'.
    + by apply (Hsg x j j' d).
Qed.

End Coherent.
