(* ===== verification/Multicore.v ===== *)
(** Processors with caches on a bus: coherence.

    Every access of a processor takes its cache through one of three ways, a hit, the
    fetch of an absent block or the fetch of the permission to write, and each keeps
    the system coherent.  So the system answers the requests of all processors, in
    the order in which they are made, as one array of bytes. *)

From S2P Require Import Prelude IntMath Packet CacheBlk Lru Mshr MshrQueue PhysMem CacheCtl CacheInv CacheRefine Hierarchy RangeMap Bus Coherence.

Section Step.
Context {M : AtomicPort} {BM : ByteMemory M}.
Abbreviation bs := (@port_bs _ (@port_view M BM)).
Abbreviation V := (contents_view bs).

(** ** The transition of the system *)

(** The transaction that an access needs, if any, and what the requester has before
    and after it.  [ne] says that the access needs the permission to write, [alone]
    that no other cache has the block. *)
Definition acquires (cmd : option Command) (ne : bool) (alone : Prop) (s s' : option (bool * bool)) : Prop :=
  match cmd with
  | None => ∃ w d d', s = Some (w, d) ∧ s' = Some (w, d') ∧ (ne = true → w = true) ∧ (ne = false → d' = d) ∧
              (d = true → d' = true)
  | Some ReadReq => ne = false ∧ s = None ∧ ∃ w d, s' = Some (w, d) ∧ (w = true → alone) ∧ (d = true → w = true)
  | Some _ => ne = true ∧ ∃ w, s' = Some (w, true)
  end.

(** The states of the blocks of another cache after the transaction. *)
Definition after_transaction (cmd : option Command) (s : option (bool * bool)) : option (bool * bool) :=
  match cmd with
  | None => s
  | Some ReadReq => x ← s; Some (false, x.2)
  | Some _ => None
  end.

Record transition (cmd : option Command) (ne : bool) (k : nat) (A : Z) (cs : list Cache) (m : port_state)
    (B : Contents) (c : Cache) (b' : Bus) (cs' : list Cache) (m' : port_state) (c2 : Cache) : Prop := {
  tr_bus : bus_serves b' (length cs) B;
  tr_length : length cs' = length cs;
  tr_others : ∀ j c', j ≠ k → cs' !! j = Some c' → uptodate bs c' B;
  tr_held : ∀ j x, j ≠ k → is_u64 x →
    held cs' j x = if decide (blk_of bs x = A) then after_transaction cmd (held cs j x) else held cs j x;
  tr_inv : cache_inv (V := V) False None c2 B;
  tr_out : ∀ x, is_u64 x → blk_of bs x ≠ A → cache_byte (V := V) c2 B x = B x;
  tr_in : ne = false → ∀ x, is_u64 x → cache_byte (V := V) c2 B x = B x;
  tr_states : ∀ x, is_u64 x → blk_of bs x ≠ A → blk_state c2 x = blk_state c x ∨
    blk_state c2 x = None ∧ (is_dirty (blk_state c x) = false ∨ port_byte m' x = B x);
  tr_mine : ∀ x, is_u64 x → blk_of bs x = A →
    acquires cmd ne (∀ j, j ≠ k → held cs j x = None) (blk_state c x) (blk_state c2 x);
  tr_port : port_ok m';
  tr_memory : ∀ x, is_u64 x → blk_of bs x ≠ A ∨ cmd = None ∨ cmd = Some ReadReq →
    port_byte m' x = port_byte m x ∨ port_byte m' x = B x;
  tr_domain : ∀ x, is_u64 x → is_Some (B x) → is_Some (port_byte m' x)
}.

Lemma is_dirty_spec s : is_dirty s = true ↔ ∃ w, s = Some (w, true).
Proof. destruct s as [[w []]|]; cbn; naive_solver. Qed.

Lemma after_dirty cmd s : is_dirty (after_transaction cmd s) = true → is_dirty s = true.
Proof. destruct cmd as [[]|]; try done; by destruct s as [[]|]. Qed.

(** A clean block has the bytes behind the cache. *)
Lemma clean_bytes c B x :
  cache_inv (V := V) False None c B → is_u64 x → is_dirty (blk_state c x) = false → cache_byte (V := V) c B x = B x.
Proof.
  intros Hok Hx Hd. pose proof (ck_wf _ _ Hok) as (Hg & _). destruct (findBlock (tags c) x) as [i|] eqn:Hf.
  - apply findBlock_holds in Hf as Hh. destruct Hh as (st & Hst & Hi & _).
    destruct (set_member _ (ck_wf _ _ Hok) _ _ _ Hst Hi) as [b Hb]. apply findBlock_holds in Hf as Hh.
    destruct (ck_blocks _ _ Hok x i b Hx Hh Hb) as [_ _ _ Hc]. unfold blk_state in Hd. rewrite Hf in Hd.
    cbn [mbind option_bind] in Hd. rewrite Hb in Hd. cbn in Hd.
    rewrite (byte_in_block (V := V) _ _ c B x i b x Hok) by done. pose proof (ck_len _ _ Hok i b Hb).
    apply (block_bytes (V := V) (geo (tags c)) B); try done. by apply Hc.
  - unfold cache_byte. by rewrite Hf.
Qed.

Section Transition.
Context (cmd : option Command) (ne : bool) (k : nat) (A : Z) (b : Bus) (cs : list Cache) (m : port_state)
  (B : Contents) (c : Cache) (b' : Bus) (cs' : list Cache) (m' : port_state) (c2 : Cache).
Hypothesis Hcmd : ∀ x, cmd = Some x → coherence_cmd x.
Hypothesis Hco : coherent b cs m B.
Hypothesis Hk : cs !! k = Some c.
Hypothesis Htr : transition cmd ne k A cs m B c b' cs' m' c2.

Lemma held_k x : held cs k x = blk_state c x.
Proof. unfold held. by rewrite Hk. Qed.

(** What others may do with the block of the requester. *)
Lemma owner_alone x j w d :
  is_u64 x → blk_state c x = Some (w, d) → j ≠ k →
  (w = true → held cs j x = None) ∧ (∀ d', held cs j x ≠ Some (true, d')) ∧ (d = true → ¬ dirty_at cs j x).
Proof.
  intros Hx Hs Hj. rewrite <- held_k in Hs. split_and!.
  - intros ->. destruct (held cs j x) eqn:E; [|done]. exfalso. apply Hj.
    apply (co_single _ _ _ _ Hco x k j d Hx Hs). by rewrite E.
  - intros d' E. apply Hj. symmetry. apply (co_single _ _ _ _ Hco x j k d' Hx E). by rewrite Hs.
  - intros -> E. apply Hj. apply (co_dirty _ _ _ _ Hco x j k Hx E). unfold dirty_at. by rewrite Hs.
Qed.

(** The other caches after the transaction, by the command. *)
Lemma acquired x j :
  is_u64 x → blk_of bs x = A → j ≠ k →
  (∀ d, held cs' j x ≠ Some (true, d)) ∧
  (dirty_at cs' j x → is_dirty (blk_state c2 x) = false) ∧
  (∀ d, blk_state c2 x = Some (true, d) → held cs' j x = None).
Proof.
  intros Hx HA Hj. pose proof (tr_held _ _ _ _ _ _ _ _ _ _ _ _ Htr j x Hj Hx) as Hh. rewrite decide_True in Hh by done.
  pose proof (tr_mine _ _ _ _ _ _ _ _ _ _ _ _ Htr x Hx HA) as Hm. unfold dirty_at. rewrite Hh.
  destruct cmd as [cm|]; cbn [acquires after_transaction] in *.
  - assert (cm = ReadReq ∨ cm ≠ ReadReq) as [->|Hn] by (destruct (decide (cm = ReadReq)); auto).
    + destruct Hm as (_ & _ & w & d & -> & Hal & Hd). destruct (held cs j x) as [s|] eqn:E; cbn; [|split_and!; naive_solver].
      split_and!; [done| |].
      * intros _. destruct d; [|done]. by rewrite (Hal (Hd eq_refl) j Hj) in E.
      * intros d' [= -> ->]. by rewrite (Hal eq_refl j Hj) in E.
    + assert (match cm with ReadReq => x ← held cs j x; Some (false, x.2) | _ => None end = None) as -> by (by destruct cm).
      done.
  - destruct Hm as (w & d & d' & Es & -> & Hw & Hd & _). destruct (owner_alone x j w d Hx Es Hj) as (H1 & H2 & H3).
    split_and!; [done| |naive_solver].
    intros Hdy. destruct ne; [by rewrite H1 in Hdy by auto|]. rewrite Hd by done.
    destruct d; [|done]. by destruct (H3 eq_refl).
Qed.

Lemma transition_clean x :
  is_u64 x → (∀ j, j ≠ k → ¬ dirty_at cs' j x) → is_dirty (blk_state c2 x) = false →
  port_byte m' x = cache_byte (V := V) c2 B x.
Proof.
  intros Hx Hoth Hd. rewrite (clean_bytes c2 B x (tr_inv _ _ _ _ _ _ _ _ _ _ _ _ Htr) Hx Hd).
  assert ((blk_of bs x ≠ A ∨ cmd = None ∨ cmd = Some ReadReq) ∧
    (is_dirty (blk_state c x) = false ∨ port_byte m' x = B x) ∧ ∀ j, j ≠ k → ¬ dirty_at cs j x) as (Hcase & Hmine & Hcl).
  { pose proof (tr_held _ _ _ _ _ _ _ _ _ _ _ _ Htr) as Hh. unfold dirty_at in *.
    destruct (decide (blk_of bs x = A)) as [E|E].
    - pose proof (tr_mine _ _ _ _ _ _ _ _ _ _ _ _ Htr x Hx E) as Hm.
      assert (cmd = None ∨ cmd = Some ReadReq ∨ ∃ w, blk_state c2 x = Some (w, true)) as Hc
        by (destruct cmd as [[]|]; cbn in Hm; naive_solver).
      destruct Hc as [Hc|[Hc|[w Hc]]]; [| |by rewrite Hc in Hd].
      + rewrite Hc in Hm, Hh. cbn in Hm. destruct Hm as (w & d & d' & -> & Hs2 & _ & _ & Hdd). rewrite Hs2 in Hd. cbn in *.
        split_and!; [auto|left; destruct d; [by rewrite Hdd in Hd|done]|].
        intros j Hj. specialize (Hoth j Hj). by rewrite Hh, decide_True in Hoth.
      + rewrite Hc in Hm, Hh. destruct Hm as (_ & -> & _). split_and!; [auto|by left|].
        intros j Hj. specialize (Hoth j Hj). rewrite Hh, decide_True in Hoth by done. cbn in Hoth.
        by destruct (held cs j x) as [[]|].
    - split_and!; [by left| |].
      + destruct (tr_states _ _ _ _ _ _ _ _ _ _ _ _ Htr x Hx E) as [Hs|[_ ?]]; [left; congruence|done].
      + intros j Hj. specialize (Hoth j Hj). by rewrite Hh, decide_False in Hoth. }
  destruct Hmine as [Hmine|?]; [|done].
  destruct (tr_memory _ _ _ _ _ _ _ _ _ _ _ _ Htr x Hx Hcase) as [->|?]; [|done].
  apply (co_clean _ _ _ _ Hco x Hx). intros j. destruct (decide (j = k)) as [->|Hj]; [|by apply Hcl].
  unfold dirty_at. by rewrite held_k, Hmine.
Qed.

Lemma transition_coherent :
  is_u64 A → blk_of bs A = A → present B A bs → coherent b' (<[k := c2]> cs') m' (cache_byte (V := V) c2 B).
Proof.
  intros HA Hal Hpr. pose proof Htr as [Tb Tl To Th Ti Tout Tin Ts Tm Tp Tmem Td].
  assert (∀ j x, j ≠ k → is_u64 x → blk_of bs x ≠ A → held cs' j x = held cs j x) as Hout
    by (intros j x Hj Hx E; by rewrite Th, decide_False).
  assert (∀ x, is_u64 x → blk_of bs x ≠ A → blk_state c2 x = blk_state c x ∨ blk_state c2 x = None) as Hst
    by (intros x Hx E; destruct (Ts x Hx E) as [?|[? _]]; auto).
  apply (reassemble k A ne b' cs' m' B c2 HA Hal). split; try done.
  - by rewrite Tl.
  - rewrite Tl. by apply lookup_lt_Some in Hk.
  - intros -> j x Hj Hx E. rewrite Th, decide_True by done. specialize (Tm x Hx E).
    destruct cmd as [[]|]; cbn in *; try done; [by destruct Tm|]. destruct Tm as (w & d & d' & Es & _ & Hw & _).
    apply (owner_alone x j w d Hx Es Hj). auto.
  - apply transition_clean.
  - intros x j j' Hx Hj Hj' Hd Hd'. apply (co_dirty _ _ _ _ Hco x); [done|..]; unfold dirty_at in *;
      rewrite Th in * by done; destruct (decide _); eauto using after_dirty.
  - intros x j Hx Hj Hd. destruct (decide (blk_of bs x = A)) as [E|E]; [by apply (acquired x j)|].
    unfold dirty_at in Hd. rewrite Hout in Hd by done.
    destruct (Hst x Hx E) as [->| ->]; [|done]. destruct (blk_state c x) as [[w []]|] eqn:Es; try done.
    by destruct (owner_alone x j w true Hx Es Hj) as (_ & _ & []).
  - intros x j j' d Hx Hj Hj' Hh Hh'. destruct (decide (blk_of bs x = A)) as [E|E].
    { by destruct (acquired x j Hx E Hj) as (Hn & _); apply Hn in Hh. }
    rewrite Hout in Hh, Hh' by done. by apply (co_single _ _ _ _ Hco x j j' d).
  - intros x j d Hx Hj Hh. destruct (decide (blk_of bs x = A)) as [E|E].
    { by destruct (acquired x j Hx E Hj) as (Hn & _); apply Hn in Hh. }
    rewrite Hout in Hh by done. destruct (Hst x Hx E) as [->|?]; [|done].
    destruct (blk_state c x) as [[w d']|] eqn:Es; [|done]. exfalso.
    destruct (owner_alone x j w d' Hx Es Hj) as (_ & Hn & _). by apply (Hn d).
  - intros x j d Hx Hj Hs. destruct (decide (blk_of bs x = A)) as [E|E]; [by apply (acquired x j Hx E Hj) in Hs|].
    rewrite Hout by done. destruct (Hst x Hx E) as [Es|?]; [|congruence]. rewrite Es in Hs.
    by apply (owner_alone x j true d Hx Hs Hj).
Qed.

End Transition.

(** ** The transaction of a miss *)

(** The addresses of a block are held together. *)
Lemma held_block_eq b cs m B j x A :
  coherent b cs m B → is_u64 A → blk_of bs A = A → is_u64 x → blk_of bs x = A → held cs j x = held cs j A.
Proof.
  intros Hco HA Hal Hx E. unfold held. destruct (cs !! j) as [c|] eqn:Hj; [|done]. cbn [mbind option_bind].
  destruct (co_caches _ _ _ _ Hco j c Hj) as [Hok _]. by apply (block_facts bs None c B A Hok HA Hal).
Qed.

(** The block that a request asks for. *)
Lemma asked_block c B p a :
  cache_inv (V := V) False None c B → asks (geo (tags c)) p a →
  let A := blkAlign (geo (tags c)) a in
  is_u64 A ∧ blk_of bs A = A ∧ 0 < bs ∧ A + bs <= 2 ^ 64 ∧ blk_of bs a = A ∧ blkSize (geo (tags c)) = bs ∧
  (∀ x, is_u64 x → blkAlign (geo (tags c)) x = A ↔ blk_of bs x = A) ∧
  ∀ x, is_u64 x → blk_of bs x = A ↔ A <= x < A + bs.
Proof.
  intros Hok Hq A. pose proof (ck_wf _ _ Hok) as (Hg & _). pose proof (ask_u64 _ _ _ Hq) as Ha.
  pose proof (ck_bs _ _ Hok) as Hbs. cbn in Hbs. destruct (block_range _ Hg a Ha) as (H0 & H64 & _).
  destruct (block_arith _ Hg a Ha) as (_ & Ea & H4 & _). unfold A.
  assert (is_u64 (blkAlign (geo (tags c)) a)) as HA by (unfold is_u64; lia).
  assert (∀ x, is_u64 x → blkAlign (geo (tags c)) x = blk_of bs x) as Hal by (intros; by apply (blk_of_align bs _ _ _ _ _ Hok)).
  split_and!; try done; try lia.
  - rewrite <- Hal by done. apply block_member; try done. lia.
  - by rewrite <- Hal.
  - intros x Hx. by rewrite Hal.
  - intros x Hx. rewrite <- Hal, <- Hbs by done. by apply block_member.
Qed.

Record transacted (cmd : Command) (k : nat) (A : Z) (cs : list Cache) (m : port_state) (B : Contents)
    (q q' : Packet.t) (b' : Bus) (cs' : list Cache) (m' : port_state) : Prop := {
  td_bus : bus_serves b' (length cs) B;
  td_response : block_response q A q';
  td_carries : cmd ≠ UpgradeReq → carries q' B A bs;
  td_shared : cmd ≠ ReadReq → Packet.sharedAsserted q' = false;
  td_alone : Packet.sharedAsserted q' = false → cmd = ReadReq → ∀ j x, j ≠ k → is_u64 x → blk_of bs x = A → held cs j x = None;
  td_length : length cs' = length cs;
  td_k : cs' !! k = cs !! k;
  td_others : ∀ j c', j ≠ k → cs' !! j = Some c' → uptodate bs c' B;
  td_held : ∀ j x, j ≠ k → is_u64 x →
    held cs' j x = if decide (blk_of bs x = A) then after_transaction (Some cmd) (held cs j x) else held cs j x;
  td_port : port_ok m';
  td_memory : ∀ x, is_u64 x → blk_of bs x ≠ A ∨ cmd = ReadReq → port_byte m' x = port_byte m x;
  td_domain : ∀ x, is_u64 x → is_Some (B x) → is_Some (port_byte m' x)
}.

Lemma coherent_transaction t cmd k b cs (m : port_state) B c p a q :
  let A := blkAlign (geo (tags c)) a in
  coherence_cmd cmd → coherent b cs m B → cs !! k = Some c → asks (geo (tags c)) p a → present B A bs →
  downstream (V := V) (geo (tags c)) p a cmd q → (cmd ≠ UpgradeReq → blk_state c a = None) →
  ∃ q' l fin b' cs' m', @recvAtomic (CoherentPort k) t q (b, (cs, m)) = Some (q', l, fin, (b', (cs', m'))) ∧
    transacted cmd k A cs m B q q' b' cs' m'.
Proof.
  intros A Hc Hco Hk Hq Hpr [Qc Qr Qt Qb Qsh Qd] Habs. pose proof (co_caches _ _ _ _ Hco k c Hk) as [Hok _].
  destruct (asked_block c B p a Hok Hq) as (HA & Hal & Hbs & H64 & Ea & _ & _ & Hmem).
  pose proof (ask_u64 _ _ _ Hq) as Ha. pose proof Hco as [Cb Cc Cp Cd Ccl Cdy Cs].
  assert (∀ x, is_u64 x → blk_of bs x = A → blk_state c x = blk_state c a) as Hka.
  { intros x Hx E. pose proof (held_block_eq b cs m B k x A Hco HA Hal Hx E) as H1.
    pose proof (held_block_eq b cs m B k a A Hco HA Hal Ha Ea) as H2. unfold held in H1, H2. rewrite Hk in H1, H2. cbn in *. congruence. }
  assert (bus_ready k A b cs m B) as Hrd.
  { split; try done; [by apply lookup_lt_Some in Hk|by intros j c' _; apply Cc|]. intros j j' _ _. by apply Cdy. }
  assert (cmd ≠ UpgradeReq → (∀ j, j ≠ k → ¬ dirty_at cs j A) → ∀ x, A <= x < A + bs → port_byte m x = B x) as Hclean.
  { intros Hn Hd x Hr. assert (is_u64 x) as Hx by (unfold is_u64 in *; lia). apply Ccl; [done|]. intros j.
    apply (Hmem x Hx) in Hr. unfold dirty_at. destruct (decide (j = k)) as [->|Hj].
    - unfold held. rewrite Hk. cbn [mbind option_bind]. by rewrite Hka, Habs.
    - rewrite (held_block_eq b cs m B j x A) by done. by apply Hd. }
  destruct (transaction_ok t cmd k A b cs m B q _ Hc HA Hal Hbs H64 Hrd Qc Qt Qb Qsh Qd Hpr Hclean) as
    (q' & l & fin & b' & cs' & m' & Hrecv & Hbus & Hresp & Hcar & Hsh & Halone & (Hl & Hck & Hoth) & Hp & Hx & Hpr').
  exists q', l, fin, b', cs', m'. split; [done|].
  assert (∀ j c', j ≠ k → cs' !! j = Some c' → ∃ c0, cs !! j = Some c0 ∧ snooped bs cmd A B c0 c') as Hsn.
  { intros j c' Hj Hc'. destruct (lookup_lt_is_Some_2 cs j) as [c0 Hc0]; [apply lookup_lt_Some in Hc'; lia|].
    destruct (Hoth j c0 Hj Hc0) as (c'' & E & ?). rewrite Hc' in E. injection E as <-. by exists c0. }
  fold A in Hmem. split; try done.
  - intros E1 E2 j x Hj Hu E. rewrite (held_block_eq b cs m B j x A) by done. by apply Halone.
  - intros j c' Hj Hc'. by destruct (Hsn j c' Hj Hc') as (c0 & _ & ? & _).
  - intros j x Hj Hu. unfold held. destruct (cs' !! j) as [c'|] eqn:E'.
    + destruct (Hsn j c' Hj E') as (c0 & -> & _ & Hs). cbn [mbind option_bind]. rewrite Hs by done.
      destruct (decide (blk_of bs x = A)); [|done]. cbn [after_transaction]. destruct (decide (cmd = ReadReq)) as [E0|?]; [by rewrite E0|by destruct cmd].
    + assert (cs !! j = None) as ->; [|by destruct (decide _), cmd].
      apply lookup_ge_None. apply lookup_ge_None in E'. lia.
  - intros x Hu Hor. apply Hx; [done|]. rewrite <- Hmem by done. done.
  - intros x Hu Hs. destruct (decide (blk_of bs x = A)) as [E|E].
    + apply Hmem in E; [|done]. replace x with (A + (x - A)) by lia. apply Hpr'. lia.
    + rewrite Hx; [by apply Cd|done|]. left. by rewrite <- Hmem.
Qed.


(** ** The request of a processor *)

(** What a request leaves as it is. *)
Lemma flat_step_frame c B p B0 p' B' :
  cache_inv (V := V) False None c B → cpu_request bs p → flat_step p B0 p' B' →
  (∀ x, is_u64 x → blk_of bs x ≠ blk_of bs (Packet.addr p) → B' x = B0 x) ∧
  (Packet.needsExclusive p = false → ∀ x, is_u64 x → B' x = B0 x).
Proof.
  intros Hok Hrq (w & d & _ & Hby & Hres). pose proof (ck_wf _ _ Hok) as (Hg & _). pose proof (ck_bs _ _ Hok) as Hbs.
  cbn in Hbs. rewrite <- Hbs in Hrq. split.
  - intros x Hx E. rewrite Hby, decide_False; [done| |done]. intros [_ Hr]. apply E.
    destruct (request_range _ p x Hg Hrq Hr) as [_ Ea].
    by rewrite !(blk_of_align bs _ _ _ _ _ Hok) in Ea by (done || apply Hrq).
  - intros Hn x Hx. rewrite Hby, decide_False; [done| |done]. intros [-> _].
    pose proof (rq_cmd _ _ Hrq) as Hc. unfold Packet.needsExclusive in Hn. rewrite !elem_of_cons in Hc.
    destruct Hc as [E|[E|[E|[E|[E|[]%elem_of_nil]]]]]; rewrite E in *; cbn in *; try done; by destruct Hres.
Qed.

Lemma satisfy_contents X c B p i :
  cache_inv (V := V) False X c B → X = None ∨ X = Some i ∧ must_write p → cpu_request bs p →
  findBlock (tags c) (Packet.addr p) = Some i → (∀ x, is_u64 x → cache_byte (V := V) c B x = B x) →
  ∃ c' p', satisfyCpuSideRequest c p (InTags i) = Some (c', p') ∧ cache_inv (V := V) False None c' B ∧
    Packet.cmd p' = Packet.cmd p ∧ flat_step p B p' (cache_byte (V := V) c' B) ∧ state_step p c c' ∧
    (∀ x, is_u64 x → blk_of bs x ≠ blk_of bs (Packet.addr p) → cache_byte (V := V) c' B x = B x) ∧
    (Packet.needsExclusive p = false → ∀ x, is_u64 x → cache_byte (V := V) c' B x = B x).
Proof.
  intros Hok HX Hrq Hf Hby. pose proof (ck_bs _ _ Hok) as Hbs. cbn in Hbs.
  destruct (satisfy_found (V := V) False X c B p i Hok HX) as (c' & p' & Hs & Hok' & _ & _ & Hc & Hfl & Hst);
    [by rewrite Hbs|done|].
  pose proof (ck_wf _ _ Hok) as (Hg & _).
  assert (flat_step p B p' (cache_byte (V := V) c' B)) as Hfl'.
  { apply (flat_step_transfer (geo (tags c)) p _ (cache_byte (V := V) c B) (cache_byte (V := V) c' B)); try done;
      [by rewrite Hbs|]. intros x Hx. left. split; [done|by apply Hby]. }
  destruct (flat_step_frame c' B p B p' _ Hok' Hrq Hfl') as [Hout Hin]. exists c', p'. by split_and!.
Qed.

(** The request is over. *)
Lemma sys_finish t k p b cs (m : port_state) c r p1 l wbs c2 s1 b' cs' (m' : port_state) B B' :
  cs !! k = Some c → cpu_request bs p → access t c p = Some r →
  (if satisfied r then Some (ac_pkt r, ac_lat r, ac_wbs r, ac_cache r, (b, (cs, m)))
   else @atomic_miss (CoherentPort k) t r (b, (cs, m))) = Some (p1, l, wbs, c2, s1) →
  @send_writebacks (CoherentPort k) t wbs s1 = Some (b', (cs', m')) →
  Packet.cmd p1 = Packet.cmd p → flat_step p B p1 B' →
  ∃ p', sys_access t k p (b, (cs, m)) = Some (p', (b', (<[k := c2]> cs', m'))) ∧ flat_step p B p' B' ∧
    Packet.cmd p' = MemCmd.responseCommand (Packet.cmd p).
Proof.
  intros Hk Hrq Hacc Hmiss Hsend Hc Hfl. destruct (flat_step_response p B B' p1 (rq_cmd _ _ Hrq) Hc Hfl) as (p' & Hr & Hfl' & Hc').
  exists p'. split_and!; try done. unfold sys_access. cbn [fst snd]. rewrite Hk. cbn [mbind option_bind].
  unfold atomicAccess. rewrite (rq_inhibit _ _ Hrq), Hacc. cbn [mbind option_bind].
  destruct (satisfied r); [injection Hmiss as <- <- <- <- <-|rewrite Hmiss]; cbn [mbind option_bind];
    rewrite Hsend; cbn [mbind option_bind]; by rewrite Hr.
Qed.

Definition step_result (t : Z) (k : nat) (p : Packet.t) (s : Bus * (list Cache * port_state)) (B : Contents) : Prop :=
  ∃ p' b' cs' m' B', sys_access t k p s = Some (p', (b', (cs', m'))) ∧ coherent b' cs' m' B' ∧
    length cs' = length s.2.1 ∧ flat_step p B p' B' ∧ Packet.cmd p' = MemCmd.responseCommand (Packet.cmd p).

Section Request.
Context (t : Z) (k : nat) (p : Packet.t) (b : Bus) (cs : list Cache) (m : port_state) (B : Contents) (c : Cache).
Abbreviation A := (blk_of bs (Packet.addr p)).
Hypothesis Hco : coherent b cs m B.
Hypothesis Hk : cs !! k = Some c.
Hypothesis Hrq : cpu_request bs p.
Hypothesis Hpl : plain p.
Hypothesis Hpr : present B A bs.

Lemma req_inv : cache_inv (V := V) False None c B ∧ ∀ x, is_u64 x → cache_byte (V := V) c B x = B x.
Proof. by destruct (co_caches _ _ _ _ Hco k c Hk). Qed.

Lemma req_asks : asks (geo (tags c)) p (Packet.addr p) ∧ blkAlign (geo (tags c)) (Packet.addr p) = A.
Proof.
  destruct req_inv as [Hok _]. split; [|apply (blk_of_align bs _ _ _ _ _ Hok), Hrq].
  apply cpu_asks. by rewrite (ck_bs _ _ Hok).
Qed.

Lemma req_block : is_u64 A ∧ blk_of bs A = A.
Proof.
  destruct req_inv as [Hok _], req_asks as [Hq E]. pose proof (asked_block c B p _ Hok Hq) as Hb. cbn zeta in Hb.
  rewrite E in Hb. by destruct Hb as (? & ? & _).
Qed.

(** A transition of the system is a step. *)
Lemma request_step cmd r p1 l wbs c2 s1 b' cs' m' :
  (∀ x, cmd = Some x → coherence_cmd x) → access t c p = Some r →
  (if satisfied r then Some (ac_pkt r, ac_lat r, ac_wbs r, ac_cache r, (b, (cs, m)))
   else @atomic_miss (CoherentPort k) t r (b, (cs, m))) = Some (p1, l, wbs, c2, s1) →
  @send_writebacks (CoherentPort k) t wbs s1 = Some (b', (cs', m')) →
  Packet.cmd p1 = Packet.cmd p → flat_step p B p1 (cache_byte (V := V) c2 B) →
  transition cmd (Packet.needsExclusive p) k A cs m B c b' cs' m' c2 → step_result t k p (b, (cs, m)) B.
Proof.
  intros Hcm Hacc Hmiss Hsend Hc Hfl Htr. destruct req_block as [HA Hal].
  destruct (sys_finish t k p b cs m c r p1 l wbs c2 s1 b' cs' m' B _ Hk Hrq Hacc Hmiss Hsend Hc Hfl) as (p' & Hs & Hfl' & Hc').
  exists p', b', (<[k := c2]> cs'), m', (cache_byte (V := V) c2 B). split_and!; try done.
  - by eapply transition_coherent.
  - rewrite length_insert. apply Htr.
Qed.

(** The cache has the block and the permission. *)
Lemma sys_hit lat c1 i bl :
  cache_inv (V := V) False None c1 B → same_contents (V := V) c c1 B → findBlock (tags c) (Packet.addr p) = Some i →
  blks (tags c1) !! i = Some bl → Packet.needsExclusive p && negb (isWritable bl) = false →
  access t c p = ('(c, p) ← satisfyCpuSideRequest c1 p (InTags i); Some (mkAccess true (Some (InTags i)) lat [] c p)) →
  step_result t k p (b, (cs, m)) B.
Proof.
  intros Hok1 Hsame Hf Hb Hnw Hacc. destruct req_inv as [Hok Hby]. pose proof Hsame as (Hg1 & Hfb1 & Hby1 & Hst1).
  destruct (satisfy_contents None c1 B p i) as (c2 & p1 & Hs & Hok2 & Hc & Hfl & [Hso Hsi] & Hout & Hin); auto.
  { rewrite Hfb1; [done|apply Hrq]. }
  { intros x Hx. rewrite Hby1; auto. }
  rewrite Hs in Hacc. cbn [mbind option_bind] in Hacc.
  apply (request_step None (mkAccess true (Some (InTags i)) lat [] c2 p1) p1 lat [] c2 (b, (cs, m)) b cs m); try done.
  assert (∀ x, is_u64 x → blkAlign (geo (tags c1)) x = blkAlign (geo (tags c1)) (Packet.addr p) ↔ blk_of bs x = A) as Hal.
  { intros x Hx. by rewrite !(blk_of_align bs _ _ _ _ _ Hok1) by (done || apply Hrq). }
  split; try done; try apply Hco.
  - intros j c' _ Hj. by apply (co_caches _ _ _ _ Hco j).
  - intros j x _ _. by destruct (decide _).
  - intros x Hx E. left. rewrite Hso by (try done; by rewrite Hal). by apply Hst1.
  - intros x Hx E. destruct (Hsi x Hx) as (w & d & d' & E1 & E2 & _ & Hd & Hd'); [by rewrite Hal|].
    exists w, d, d'. rewrite <- Hst1 by done. split_and!; try done. intros Hn.
    rewrite Hn in Hnw. cbn in Hnw. apply negb_false_iff in Hnw. unfold blk_state in E1.
    rewrite (findBlock_block _ (Packet.addr p) x i) in E1; [|apply Hok1|apply Hok1|apply Hrq|done| |by apply Hal].
    + cbn [mbind option_bind] in E1. rewrite Hb in E1. by injection E1 as <- _.
    + rewrite Hfb1; [done|apply Hrq].
  - auto.
Qed.

(** The cache has the block and fetches the permission. *)
Lemma sys_upgrade lat c1 i bl :
  cache_inv (V := V) False None c1 B → same_contents (V := V) c c1 B → findBlock (tags c) (Packet.addr p) = Some i →
  blks (tags c1) !! i = Some bl → isWritable bl = false → Packet.needsExclusive p = true →
  access t c p = Some (mkAccess false (Some (InTags i)) lat [] c1 p) → step_result t k p (b, (cs, m)) B.
Proof.
  intros Hok1 Hsame Hf Hb Hnw Hne Hacc. destruct req_inv as [Hok Hby], req_asks as [Hq Ea].
  pose proof Hsame as (Hg1 & Hfb1 & Hby1 & Hst1). destruct (plain_writes _ p Hrq Hpl Hne) as [Hmw Hll].
  assert (findBlock (tags c1) (Packet.addr p) = Some i) as Hf1 by (rewrite Hfb1; [done|apply Hrq]).
  apply findBlock_holds in Hf1 as Hh1. assert (asks (geo (tags c1)) p (Packet.addr p)) as Hq1 by (by rewrite Hg1).
  destruct (getBusPacket_ok (V := V) False t c1 B p (Packet.addr p) (Some (InTags i)) Hok1 Hq1) as (q & Hbus & Hds).
  { cbn [mbind option_bind get_blk]. rewrite Hb. split_and!; try done. by apply (holds_valid _ _ _ _ Hh1). }
  cbn [mbind option_bind get_blk] in Hds. rewrite Hb, Hll in Hds. pose proof Hds as Hds'. rewrite Hg1 in Hds'.
  destruct (coherent_transaction t UpgradeReq k b cs m B c p (Packet.addr p) q) as (q' & l & fin & b' & cs' & m' & Hrecv & Htd);
    try done; [set_solver|by rewrite Ea|]. rewrite Ea in Htd.
  destruct (@fill_upgrade _ V (CoherentPort k) False t c1 B p (Packet.addr p) i bl lat UpgradeReq q q' l fin
    (b, (cs, m)) (b', (cs', m'))) as (c3 & Hok3 & Hg3 & Hfb3 & Hby3 & Hst3 & _ & Hmiss); try done; [|by left|..].
  { by apply cache_inv_exempt. }
  { rewrite Hg1, Ea. apply Htd. }
  { by apply (td_shared _ _ _ _ _ _ _ _ _ _ _ Htd). }
  destruct (satisfy_contents (Some i) c3 B p i) as (c2 & p1 & Hs & Hok2 & Hc & Hfl & [Hso Hsi] & Hout & Hin); auto.
  { rewrite Hfb3; [done|apply Hrq]. }
  { intros x Hx. rewrite Hby3, Hby1 by done. auto. }
  eapply (request_step (Some UpgradeReq) _ p1 _ [] c2 (b', (cs', m')) b' cs' m' ltac:(set_solver) Hacc); try done.
  { cbn [satisfied]. rewrite Hmiss, Hs. done. }
  assert (∀ x, is_u64 x → blkAlign (geo (tags c)) x = blkAlign (geo (tags c)) (Packet.addr p) ↔ blk_of bs x = A) as Hal.
  { intros x Hx. by rewrite !(blk_of_align bs _ _ _ _ _ Hok) by (done || apply Hrq). }
  rewrite Hg3, Hg1 in *. rewrite Hne. destruct Htd. split; try done.
  - intros x Hx E. left. rewrite Hso by (try done; by rewrite Hal). rewrite Hst3, decide_False by (done || by rewrite Hal).
    by apply Hst1.
  - intros x Hx E. split; [done|]. destruct (Hsi x Hx) as (w & d & d' & _ & -> & Hd & _); [by rewrite Hal|].
    exists w. by rewrite Hd.
  - intros x Hx [?|[?|?]]; [|done..]. left. auto.
Qed.

(** What is replaced is written back. *)
Lemma evict_coherent c1 wbs b' cs' m' :
  let g := geo (tags c) in
  evicts (V := V) g c1 B B (blk_state c) (Packet.addr p) wbs → (k < length cs')%nat →
  bus_serves b' (length cs') B → port_ok m' → (∀ x, is_u64 x → is_Some (B x) → is_Some (port_byte m' x)) →
  ∃ b2 m2, @send_writebacks (CoherentPort k) t wbs (b', (cs', m')) = Some (b2, (cs', m2)) ∧
    bus_serves b2 (length cs') B ∧ port_ok m2 ∧
    (∀ x, is_u64 x → cache_byte (V := V) c1 B x = B x) ∧
    (∀ x, is_u64 x → port_byte m2 x = port_byte m' x ∨ blk_of bs x ≠ A ∧ port_byte m2 x = B x) ∧
    (∀ x, is_u64 x → is_Some (B x) → is_Some (port_byte m2 x)) ∧
    ∀ x, is_u64 x → blk_of bs x ≠ A → blk_state c1 x = blk_state c x ∨
      blk_state c1 x = None ∧ (is_dirty (blk_state c x) = false ∨ port_byte m2 x = B x).
Proof.
  intros g Hev Hkl Hbus Hm Hdom. destruct req_inv as [Hok Hby], req_asks as [_ Ea]. fold g in Ea.
  pose proof (ck_wf _ _ Hok) as (Hg & _). pose proof (ck_bs _ _ Hok) as Hbs. cbn in Hbs. fold g in Hg, Hbs.
  assert (∀ x, is_u64 x → blkAlign g x = blk_of bs x) as Hal by (intros; by apply (blk_of_align bs _ _ _ _ _ Hok)).
  unfold evicts in Hev. rewrite Ea in Hev. destruct Hev as [(-> & Hb & Hs)|(wb & v & dv & -> & Hv & Wb & Hpv & Hva & Hin & Hout & Hs)].
  { exists b', m'. split_and!; auto. intros x Hx E. rewrite <- Hal in E by done.
    destruct (Hs x Hx E) as [?|[? Hd]]; [by left|right]. split; [done|]. left.
    destruct (blk_state c x) as [[w []]|]; try done. by specialize (Hd w). }
  rewrite Hbs in Wb, Hpv. cbn in Hpv. destruct (block_range g Hg v Hv) as (H0 & H64 & _). rewrite Hbs in H64.
  destruct (block_arith g Hg v Hv) as (_ & _ & Hpos & _). rewrite Hbs in Hpos.
  destruct (writeback_transaction t k b' cs' m' B wb (blkAlign g v) dv Hbus Hkl Hm Wb)
    as (q & l & fin & b2 & m2 & Hrecv & Hbus2 & Hm2 & Hx).
  { intros n Hn. apply Hdom; [unfold is_u64; lia|by apply Hpv]. }
  { specialize (Hpv 0). rewrite Z.add_0_r in Hpv. apply Hpv. lia. }
  assert (∀ x, is_u64 x → blkAlign g x = blkAlign g v ↔ blkAlign g v <= x < blkAlign g v + bs) as Hmem
    by (intros x Hu; rewrite <- Hbs; by apply block_member).
  assert (∀ x, is_u64 x → port_byte m2 x = if decide (blkAlign g x = blkAlign g v) then B x else port_byte m' x) as Hx2.
  { intros x Hu. rewrite Hx by done. destruct (decide (blkAlign g x = _)) as [E|E].
    - rewrite decide_True by (by apply Hmem). symmetry. by apply Hin.
    - rewrite decide_False; [done|]. by rewrite <- Hmem. }
  exists b2, m2. cbn [send_writebacks]. rewrite Hrecv. split_and!; try done.
  - intros x Hu. destruct (decide (blkAlign g x = blkAlign g v)) as [E|E]; [|by apply Hout].
    unfold cache_byte. by destruct (Hin x Hu E) as [-> _].
  - intros x Hu. rewrite Hx2, <- Hal by done. destruct (decide _) as [E|E]; [right|by left]. split; [congruence|done].
  - intros x Hu Hsome. rewrite Hx2 by done. destruct (decide _); auto.
  - intros x Hu E. rewrite <- Hal in E by done. destruct (decide (blkAlign g x = blkAlign g v)) as [Ev|Ev].
    + right. split; [unfold blk_state; by destruct (Hin x Hu Ev) as [-> _]|]. right. by rewrite Hx2, decide_True.
    + left. by apply Hs.
Qed.

(** The cache fetches the block. *)
Lemma sys_absent lat s :
  findBlock (tags c) (Packet.addr p) = None →
  access t c p = Some (mkAccess false None lat [] (with_stats c s) p) → step_result t k p (b, (cs, m)) B.
Proof.
  intros Hf Hacc. destruct req_inv as [Hok Hby], req_asks as [Hq Ea]. set (c0 := with_stats c s) in *.
  set (cmd := if Packet.needsExclusive p then ReadExReq else ReadReq).
  assert (cache_inv (V := V) False None c0 B) as Hok0 by (by apply cache_inv_stats).
  destruct (getBusPacket_ok (V := V) False t c0 B p (Packet.addr p) None Hok0 Hq) as (q & Hbus & Hds).
  { by apply (cpu_commands p), (rq_cmd _ _ Hrq). }
  cbn [mbind option_bind] in Hds. change (geo (tags c0)) with (geo (tags c)) in Hds. fold cmd in Hds.
  assert (coherence_cmd cmd ∧ (cmd = ReadReq ∨ cmd = ReadExReq) ∧ cmd ≠ UpgradeReq) as (Hcc & Hcmd & Hnu)
    by (unfold cmd, coherence_cmd; destruct (Packet.needsExclusive p); split_and!; auto; set_solver).
  destruct (coherent_transaction t cmd k b cs m B c p (Packet.addr p) q) as (q' & l & fin & b' & cs' & m' & Hrecv & Htd);
    try done; [by rewrite Ea|intros _; unfold blk_state; by rewrite Hf|]. rewrite Ea in Htd.
  pose proof Htd as [Tb Tr Tc Tsh Tal Tl Tk To Th Tp Tm Td]. destruct (Tc Hnu) as (d & Rp & Rl & Rb).
  pose proof (ck_bs _ _ Hok) as Hbs. cbn in Hbs. pose proof (ck_wf _ _ Hok) as (Hg & _).
  pose proof (ds_cmd _ _ _ _ _ Hds) as Qc.
  destruct (@fill_absent _ V (CoherentPort k) False false t c0 B p (Packet.addr p) lat q q' l fin
    (b, (cs, m)) (b', (cs', m')) d B) as (i & wbs & c1 & _ & Hok1 & Hg1 & Hf1 & Hev & Hst & Hmiss);
    change (geo (tags c0)) with (geo (tags c)); rewrite ?Qc, ?Ea, ?Hbs; auto; try done.
  { intros x Hx E. rewrite <- Ea in *. symmetry. apply (block_bytes (V := V) (geo (tags c)) B); try done; [apply Hrq|congruence]. }
  { intros x Hx _. change (cache_byte c0 B x) with (cache_byte (V := V) c B x). symmetry. by apply Hby. }
  rewrite <- Tl in Tb.
  destruct (evict_coherent c1 wbs b' cs' m' Hev) as (b2 & m2 & Hsend & Hbus2 & Hm2 & Hby1 & Hmem2 & Hdom2 & Hst2); try done.
  { rewrite Tl. by apply lookup_lt_Some in Hk. }
  destruct (satisfy_contents None c1 B p i) as (c2 & p1 & Hs & Hok2 & Hc & Hfl & [Hso Hsi] & Hout & Hin); auto.
  eapply (request_step (Some cmd) _ p1 _ wbs c2 (b', (cs', m')) b2 cs' m2 ltac:(congruence) Hacc); try done.
  { cbn [satisfied]. rewrite Hmiss, Hs. done. }
  assert (∀ x, is_u64 x → blkAlign (geo (tags c)) x = blkAlign (geo (tags c)) (Packet.addr p) ↔ blk_of bs x = A) as Hal.
  { intros x Hx. by rewrite !(blk_of_align bs _ _ _ _ _ Hok) by (done || apply Hrq). }
  change (geo (tags c0)) with (geo (tags c)) in *. rewrite Hg1 in *.
  assert (∀ x, is_u64 x → blk_of bs x = A → blk_state c x = None ∧ blk_state c1 x = blk_state c1 (Packet.addr p)) as Hblk.
  { intros x Hx E. apply Hal in E; [|done]. unfold blk_state. split.
    - destruct (findBlock (tags c) x) as [j|] eqn:Ej; [|done].
      rewrite (findBlock_block (tags c) x (Packet.addr p) j) in Hf; try done; try apply Hok; apply Hrq.
    - rewrite (findBlock_block (tags c1) (Packet.addr p) x i); try done; try apply Hok1; [by rewrite Hf1|apply Hrq|congruence]. }
  split; try done.
  - by rewrite <- Tl.
  - intros x Hx E. rewrite Hso by (try done; by rewrite Hal). by apply Hst2.
  - intros x Hx E. destruct (Hblk x Hx E) as [E0 E1].
    destruct (Hsi x Hx) as (w & dd & d' & S1 & -> & Hd1 & Hd2 & _); [by rewrite Hal|].
    rewrite E0. rewrite E1, Hst in S1. injection S1 as S1 S2. unfold cmd in *. destruct (Packet.needsExclusive p) eqn:Hne.
    + split; [done|]. exists w. destruct (plain_writes _ p Hrq Hpl Hne) as [Hmw _]. by rewrite Hd1.
    + split_and!; [done..|]. exists w, d'. split_and!; [done| |].
      * intros ->. apply negb_true_iff in S1. intros j Hj. by apply Tal.
      * rewrite Hd2 by done. intros ->. apply andb_true_iff in S2 as [S2 _]. congruence.
  - intros x Hx Hor. destruct (Hmem2 x Hx) as [->|[_ ?]]; [|by right]. left. apply Tm; [done|]. naive_solver.
Qed.

End Request.

(** Every request of a processor is answered, and the system stays coherent. *)
Lemma sys_access_ok t k p b cs (m : port_state) B :
  coherent b cs m B → (k < length cs)%nat → cpu_request bs p → plain p →
  present B (blk_of bs (Packet.addr p)) bs → step_result t k p (b, (cs, m)) B.
Proof.
  intros Hco Hkl Hrq Hpl Hpr. destruct (lookup_lt_is_Some_2 cs k Hkl) as [c Hk].
  destruct (req_inv k b cs m B c Hco Hk) as [Hok _].
  destruct (req_asks k p b cs m B c Hco Hk Hrq) as [Hq _].
  destruct (findBlock (tags c) (Packet.addr p)) as [i|] eqn:Hf.
  - destruct (access_found (V := V) False t c B p _ i Hok Hq Hf) as (lat & c1 & bl & Hok1 & Hsame & Hb & _ & _ & Hacc).
    destruct (Packet.needsExclusive p && negb (isWritable bl)) eqn:Hn; [|by apply (sys_hit t k p b cs m B c) with (lat := lat) (c1 := c1) (i := i) (bl := bl)].
    apply andb_true_iff in Hn as [Hne Hw%negb_true_iff]. by apply (sys_upgrade t k p b cs m B c) with (lat := lat) (c1 := c1) (i := i) (bl := bl).
  - destruct (access_absent (V := V) False t c B p _ Hok Hq Hf) as (s & lat & Hacc).
    destruct (cpu_commands p (rq_cmd _ _ Hrq)) as (_ & _ & _ & E). rewrite E in Hacc.
    rewrite bool_decide_eq_false_2 in Hacc by apply Hpl. by apply (sys_absent t k p b cs m B c) with (lat := lat) (s := s).
Qed.

(** ** Sequences of requests *)

(** The requests of the processors in the order in which they are made, each with its
    time and the processor that makes it. *)
Fixpoint sys_run (s : Bus * (list Cache * port_state)) (rs : list (Z * nat * Packet.t))
    : option (list Packet.t * (Bus * (list Cache * port_state))) :=
  match rs with
  | [] => Some ([], s)
  | (t, k, p) :: rs =>
      '(p', s) ← sys_access t k p s;
      '(ps, s) ← sys_run s rs;
      Some (p' :: ps, s)
  end.

(** The requests without the processors that make them. *)
Definition requests_of (rs : list (Z * nat * Packet.t)) : list (Z * Packet.t) := (λ r, (r.1.1, r.2)) <$> rs.

(** A request of one of [n] processors to a block of which every byte exists. *)
Definition sys_request (n : nat) (B : Contents) (r : Z * nat * Packet.t) : Prop :=
  (r.1.2 < n)%nat ∧ cpu_request bs r.2 ∧ plain r.2 ∧ present B (blk_of bs (Packet.addr r.2)) bs.

Lemma sys_run_ok rs b cs (m : port_state) B :
  coherent b cs m B → Forall (sys_request (length cs) B) rs →
  ∃ ps b' cs' m' B', sys_run (b, (cs, m)) rs = Some (ps, (b', (cs', m'))) ∧ coherent b' cs' m' B' ∧
    length cs' = length cs ∧ flat_run B (requests_of rs) ps B'.
Proof.
  revert b cs m B. induction rs as [|[[t k] p] rs IH]; intros b cs m B Hco Hall.
  { exists [], b, cs, m, B. split_and!; try done. by constructor. }
  apply Forall_cons in Hall as [(Hkl & Hrq & Hpl & Hpr) Hall]. cbn [fst snd] in *.
  destruct (sys_access_ok t k p b cs m B Hco Hkl Hrq Hpl Hpr) as (p' & b1 & cs1 & m1 & B1 & Hs & Hco1 & Hl & Hfl & Hc).
  cbn in Hl. destruct (IH b1 cs1 m1 B1 Hco1) as (ps & b2 & cs2 & m2 & B2 & Hrun & Hco2 & Hl2 & Hfr).
  { eapply Forall_impl; [exact Hall|]. intros [[t2 k2] p2] (Hk2 & Hrq2 & Hpl2 & Hpr2). cbn in *.
    split_and!; cbn; [by rewrite Hl|done..|].
    destruct (lookup_lt_is_Some_2 cs k2 Hk2) as [c2 Hc2]. destruct (req_inv k2 b cs m B c2 Hco Hc2) as [Hok _].
    destruct (req_asks k2 p2 b cs m B c2 Hco Hc2 Hrq2) as [Hq2 Ea].
    pose proof (asked_block c2 B p2 _ Hok Hq2) as Hb2. cbn zeta in Hb2. rewrite Ea in Hb2. destruct Hb2 as (HA & _ & _ & H64 & _).
    apply (flat_step_present bs p B p' B1); try done. apply HA. }
  exists (p' :: ps), b2, cs2, m2, B2. cbn [sys_run]. rewrite Hs. cbn [mbind option_bind]. rewrite Hrun.
  split_and!; [done|done|lia|]. by apply (flat_cons t p p' _ ps _ B1).
Qed.

(** New caches are coherent. *)
Lemma coherent_new b ls (m : port_state) :
  Forall (level_ok bs) ls → bus_serves b (length ls) (port_byte m) → port_ok m →
  coherent b (level_new <$> ls) m (port_byte m).
Proof.
  intros Hls Hbus Hm.
  assert (∀ j c, (level_new <$> ls) !! j = Some c → uptodate bs c (port_byte m) ∧ ∀ x, blk_state c x = None) as Hnew.
  { intros j c Hj. apply list_lookup_fmap_Some in Hj as (l & -> & Hl). rewrite Forall_lookup in Hls. specialize (Hls j l Hl).
    pose proof (level_geometry _ _ Hls) as Hg. destruct Hls as (_ & Hn & Hd & Hbs).
    destruct (Cache_new_ok (V := V) (lv_geo l) (lv_cpus l) (lv_mshrs l) (lv_lat l) (lv_max_miss l) (lv_datum l)
      (port_byte m) Hg Hn Hd Hbs I False) as [Hinv Hx].
    split; [by split|]. intros x. unfold blk_state. destruct (findBlock _ x) as [i|] eqn:E; [|done].
    exfalso. apply findBlock_holds in E as (st & _ & _ & Hk). unfold blk_key in Hk.
    destruct (LRU_new_ok (lv_geo l) (lv_cpus l) (lv_datum l) Hg) as (_ & Hbl & _).
    destruct (blks _ !! i) as [bb|] eqn:Hb; [|done]. injection Hk as _ Hv. apply Hbl in Hb as [Hv' _]. congruence. }
  assert (∀ j x, held (level_new <$> ls) j x = None) as Hheld.
  { intros j x. unfold held. destruct ((level_new <$> ls) !! j) as [c|] eqn:E; [|done]. by apply (Hnew j). }
  split; try done.
  - by rewrite length_fmap.
  - intros j c Hj. by apply (Hnew j).
  - intros x j j' _. unfold dirty_at. by rewrite Hheld.
  - intros x j j' d _. by rewrite Hheld.
Qed.

End Step.

(** The byte of a cached copy. *)
Definition cached_byte (c : Cache) (x : Z) : option Z :=
  i ← findBlock (tags c) x; b ← blks (tags c) !! i; data b !! Z.to_nat (extractBlkOffset (geo (tags c)) x).

Lemma cached_uptodate bs c B x :
  uptodate bs c B → is_u64 x → blk_state c x ≠ None → cached_byte c x = B x.
Proof.
  intros [_ Hby] Hx Hs. rewrite <- Hby by done. unfold cached_byte, cache_byte, blk_state in *.
  by destruct (findBlock (tags c) x).
Qed.

(** Any sequence of requests is answered as one array of bytes would, on any bus that
    serves the memory. *)
Lemma multicore_coherent {M : AtomicPort} {BM : ByteMemory M} ls b m rs :
  Forall (level_ok port_bs) ls → bus_serves b (length ls) (port_byte m) → port_ok m →
  Forall (sys_request (length ls) (port_byte m)) rs →
  ∃ ps s' B', sys_run (b, (level_new <$> ls, m)) rs = Some (ps, s') ∧
    flat_run (port_byte m) (requests_of rs) ps B'.
Proof.
  intros Hls Hbus Hm Hrs. pose proof (coherent_new b ls m Hls Hbus Hm) as Hco.
  destruct (sys_run_ok rs b _ m _ Hco) as (ps & b' & cs' & m' & B' & Hrun & _ & _ & Hfr); [by rewrite length_fmap|].
  by exists ps, (b', (cs', m')), B'.
Qed.

(** C7. One writer or many readers.  After any sequence of loads, stores, load-locked and
    unconditional swap requests to parts of blocks - store-conditional and conditional
    swap requests are left out, because a conditional write that fails can leave a block
    clean that differs from the memory - two different caches never hold a block that one of them may write, never both hold it dirty, and always have
    the same byte where both hold it; and the memory behind the bus has that byte too
    unless some cache holds the block dirty. *)
Theorem single_writer {M : AtomicPort} {BM : ByteMemory M} ls b m rs ps b' cs' m' x i j c c' :
  Forall (level_ok port_bs) ls → bus_serves b (length ls) (port_byte m) → port_ok m →
  Forall (sys_request (length ls) (port_byte m)) rs →
  sys_run (b, (level_new <$> ls, m)) rs = Some (ps, (b', (cs', m'))) →
  is_u64 x → i ≠ j → cs' !! i = Some c → cs' !! j = Some c' →
  (∀ d, blk_state c x = Some (true, d) → blk_state c' x = None) ∧
  (is_dirty (blk_state c x) && is_dirty (blk_state c' x) = false) ∧
  (blk_state c x ≠ None → blk_state c' x ≠ None → cached_byte c x = cached_byte c' x) ∧
  (blk_state c x ≠ None → (∀ k ck, cs' !! k = Some ck → is_dirty (blk_state ck x) = false) →
   cached_byte c x = port_byte m' x).
Proof.
  intros Hls Hbus Hm Hrs Hrun Hx Hne Hc Hc'. pose proof (coherent_new b ls m Hls Hbus Hm) as Hco.
  destruct (sys_run_ok rs b _ m _ Hco) as (ps' & b1 & cs1 & m1 & B' & Hrun' & Hco' & _); [by rewrite length_fmap|].
  rewrite Hrun in Hrun'. injection Hrun' as <- <- <- <-. pose proof Hco' as [_ Hup _ _ Hcl Hdy Hsg].
  assert (∀ k ck, cs' !! k = Some ck → held cs' k x = blk_state ck x) as Hh by (intros k ck Hk; unfold held; by rewrite Hk).
  pose proof (Hup i c Hc) as Ui. pose proof (Hup j c' Hc') as Uj. split_and!.
  - intros d Hw. destruct (blk_state c' x) eqn:E; [|done]. exfalso. apply Hne. symmetry.
    apply (Hsg x i j d Hx); [by rewrite (Hh i c)|by rewrite (Hh j c'), E].
  - destruct (is_dirty (blk_state c x)) eqn:E1, (is_dirty (blk_state c' x)) eqn:E2; try done. exfalso. apply Hne.
    apply (Hdy x i j Hx); unfold dirty_at; [by rewrite (Hh i c)|by rewrite (Hh j c')].
  - intros Hi Hj. by rewrite (cached_uptodate _ c B' x Ui Hx Hi), (cached_uptodate _ c' B' x Uj Hx Hj).
  - intros Hi Hclean. rewrite (cached_uptodate _ c B' x Ui Hx Hi). symmetry. apply Hcl; [done|]. intros k.
    unfold dirty_at, held. destruct (cs' !! k) as [ck|] eqn:Ek; [|done]. cbn. by rewrite (Hclean k ck).
Qed.

(** Two processors with a cache each, on a bus with a second-level cache and a kilobyte
    of memory.  The block at 64 is written by the first, read and written by the second,
    and read by the first. *)
Definition demo_traffic : list (Z * nat * Packet.t) :=
  [(10, 0%nat, demo_request WriteReq 68 [1; 2; 3; 4]); (20, 1%nat, demo_request ReadReq 70 [0; 0]);
   (30, 1%nat, demo_request WriteReq 69 [9]); (40, 0%nat, demo_request SwapReq 68 [5; 6]);
   (50, 0%nat, demo_request ReadReq 324 [0]); (60, 0%nat, demo_request ReadReq 580 [0]);
   (70, 1%nat, demo_request ReadReq 68 [0; 0; 0; 0])].

Abbreviation demo_port := (stack 0 (MemoryPort 0 0) [demo_l2]).
Abbreviation demo_bytes := (stack_bytes 0 (MemoryPort_bytes 0 0 64 eq_refl) [demo_l2]).
Definition demo_below : @port_state demo_port := stack_new 0 (M := MemoryPort 0 0) [demo_l2] demo_mem.

Example traffic_answers :
  ('(ps, _) ← @sys_run demo_port (demo_bus, ([level_new demo_l1; level_new demo_l1], demo_below)) demo_traffic;
   Some (map Packet.data ps)) =
  Some [Some [1; 2; 3; 4]; Some [3; 4]; Some [9]; Some [1; 9]; Some [7]; Some [7]; Some [5; 6; 3; 4]].
Proof. vm_compute. reflexivity. Qed.

(** The hypotheses hold for the demonstration. *)
Lemma demo_below_ok :
  @port_ok _ (@port_view _ demo_bytes) demo_below ∧
  ∀ x, @port_byte _ (@port_view _ demo_bytes) demo_below x = mem_byte demo_mem x.
Proof.
  apply (stack_new_ok (BM := MemoryPort_bytes 0 0 64 eq_refl) 0 [demo_l2] demo_mem); [|by split; vm_compute].
  apply Forall_cons_2; [|apply Forall_nil_2]. split_and!; try done. by exists 1, 64, 2, 9.
Qed.

Lemma demo_levels_ok : Forall (level_ok 64) [demo_l1; demo_l1].
Proof. repeat (apply Forall_cons_2; [split_and!; try done; by exists 4, 64, 2, 3|]). apply Forall_nil_2. Qed.

Lemma demo_byte_range x : is_u64 x → is_Some (mem_byte demo_mem x) → 0 <= x <= 1023.
Proof.
  intros Hx Hs. unfold mem_byte in Hs. destruct (decide _) as [Hd|]; [|by destruct Hs]. cbn [start demo_mem] in *.
  apply lookup_lt_is_Some_1 in Hs. cbn [pmem demo_mem] in Hs. rewrite length_replicate in Hs. lia.
Qed.

Lemma demo_bus_serves : bus_serves demo_bus 2 (@port_byte _ (@port_view _ demo_bytes) demo_below).
Proof.
  split; [apply demo_bus_ok| |set_solver|by exists [0%nat; 1%nat]]. intros x Hx. destruct demo_below_ok as [_ ->].
  intros Hs. pose proof (demo_byte_range x Hx Hs) as Hr.
  unfold findPort_ref. assert (value_at (portMap demo_bus) x = Some 2) as ->; [|done].
  apply value_at_spec; [apply demo_bus_ok|done|]. exists (RangeIn 0 1023). split; [set_solver|].
  unfold in_range. cbn. rewrite andb_true_iff, !Z.leb_le. lia.
Qed.

Lemma demo_traffic_ok :
  Forall (sys_request (BM := demo_bytes) 2 (@port_byte _ (@port_view _ demo_bytes) demo_below)) demo_traffic.
Proof.
  assert (geometry_ok demo_geometry) as Hg by (eapply (make_geometry_ok _ 4 64 2 3); done).
  assert (∀ t k c a d, (k < 2)%nat → c ∈ [ReadReq; WriteReq; LoadLockedReq; StoreCondReq; SwapReq] → 0 <= a < 1024 →
    0 < Z.of_nat (length d) <= 8 → a mod 64 + Z.of_nat (length d) <= 64 → plain (demo_request c a d) →
    sys_request (BM := demo_bytes) 2 (@port_byte _ (@port_view _ demo_bytes) demo_below) (t, k, demo_request c a d)) as H.
  { intros t k c a d Hk Hc Ha Hl Hm Hp. destruct (demo_request_served c a d Hc Ha Hl Hm) as (Hrq & _ & Hpr).
    split_and!; [done|exact Hrq|done|]. intros n Hn. destruct demo_below_ok as [_ ->].
    destruct (block_arith demo_geometry Hg a) as (_ & E & _); [unfold is_u64; lia|].
    change (Packet.addr (t, k, demo_request c a d).2) with a. change (blkSize demo_geometry) with 64 in *.
    unfold blk_of. change (@port_bs _ (@port_view _ demo_bytes)) with 64. rewrite <- E. by apply Hpr. }
  repeat (apply Forall_cons_2; [apply H; (set_solver || done || (cbn; lia))|]). apply Forall_nil_2.
Qed.

(** After the first four requests both caches have had the block dirty, and the first
    one owns it. *)
Lemma single_writer_witness :
  ∃ ps b' c c' m', @sys_run demo_port (demo_bus, (level_new <$> [demo_l1; demo_l1], demo_below))
      (take 4 demo_traffic) = Some (ps, (b', ([c; c'], m'))) ∧
    blk_state c 68 = Some (true, true) ∧ blk_state c' 68 = None ∧
    (∀ d, blk_state c 68 = Some (true, d) → blk_state c' 68 = None) ∧
    is_dirty (blk_state c 68) && is_dirty (blk_state c' 68) = false.
Proof.
  assert (is_u64 68 ∧ 0%nat ≠ 1%nat) as [Hx Hn] by done.
  destruct (@sys_run demo_port (demo_bus, (level_new <$> [demo_l1; demo_l1], demo_below))
    (take 4 demo_traffic)) as [[ps [b' [cs' m']]]|] eqn:E; [|vm_compute in E; discriminate E].
  assert (∃ c c', cs' = [c; c'] ∧ blk_state c 68 = Some (true, true) ∧ blk_state c' 68 = None) as (c & c' & -> & H1 & H2).
  { pose proof (f_equal (λ r, match r with Some (_, (_, (cs, _))) => (length cs, (λ c, blk_state c 68) <$> cs) | None => (0%nat, []) end) E) as E'.
    vm_compute in E'. destruct cs' as [|c [|c' [|]]]; try discriminate E'. exists c, c'.
    cbn [fmap list_fmap] in E'. injection E' as E1 E2. split_and!; [reflexivity|symmetry; exact E1|symmetry; exact E2]. }
  exists ps, b', c, c', m'.
  pose proof (single_writer (BM := demo_bytes) [demo_l1; demo_l1] demo_bus demo_below (take 4 demo_traffic)
    ps b' [c; c'] m' 68 0 1 c c') as R.
  specialize (R demo_levels_ok). specialize (R demo_bus_serves). specialize (R (proj1 demo_below_ok)).
  specialize (R (Forall_take _ 4 _ demo_traffic_ok)). specialize (R E).
  specialize (R Hx Hn eq_refl eq_refl).
  split; [reflexivity|]. split; [exact H1|]. split; [exact H2|]. split; [apply R|apply R].
Defined.
