(* ===== verification/Machine.v ===== *)
(** A machine assembled by the code: a bus gets its ports, the devices announce their
    ranges in any order, and the system of caches on it is coherent. *)

From S2P Require Import Prelude IntMath Packet CacheBlk Lru Mshr MshrQueue PhysMem CacheCtl CacheInv CacheRefine Hierarchy RangeMap Bus BusRanges Coherence Multicore.

(** ** What devices answer for their ranges *)

(** [getDeviceAddressRanges] of the two ports of a cache and [getAddressRanges] of the
    memory. *)
Definition mem_side_ranges : list Range * bool := ([], true).
Definition cpu_side_ranges (addrRange : Range) : list Range * bool := ([addrRange], false).
Definition memory_ranges (m : PhysicalMemory) : list Range * bool := ([RangeSize (start m) (u64 (size m))], false).

(** ** Assembling a bus *)

(** [n] ports for devices. *)
Fixpoint get_ports (n : nat) (b : Bus) : option Bus :=
  match n with
  | O => Some b
  | S n => b ← get_ports n b; '(_, b) ← getPort b port_other; Some b
  end.

(** The devices at the ports [ids] announce their ranges one after the other. *)
Fixpoint announce (peer : Z → unit → option (list Range * bool)) (ids : list Z) (b : Bus) : option Bus :=
  match ids with
  | [] => Some b
  | id :: ids => '(b, _) ← recvStatusChange peer (λ _ x, Some x) id b tt; announce peer ids b
  end.

(** Caches at the ports below [n] and a device that answers [below] at the port [n]. *)
Definition devices (n : nat) (below : list Range * bool) (id : Z) (_ : unit) : option (list Range * bool) :=
  if id =? Z.of_nat n then Some below else if (0 <=? id) && (id <? Z.of_nat n) then Some mem_side_ranges else None.

Definition assemble (n : nat) (below : list Range * bool) (ids : list nat) : option Bus :=
  b ← get_ports (S n) (Bus_new false 64);
  announce (devices n below) (Z.of_nat <$> ids) b.

(** ** The bus that has been assembled *)

Lemma get_ports_ok n r bs :
  Z.of_nat n < 32767 → get_ports n (Bus_new r bs) =
    Some (with_ports (Bus_new r bs) (Z.of_nat <$> seq 0 n) false (Z.of_nat n) None None).
Proof.
  induction n as [|n IH]; intros Hn; [done|]. cbn [get_ports]. rewrite IH by lia. cbn [mbind option_bind].
  unfold getPort. cbn [maxId with_ports interfaces].
  assert (wrapS 16 (Z.of_nat n + 1) = Z.of_nat (S n)) as -> 
    by (unfold wrapS; change (2 ^ (16 - 1)) with 32768; change (2 ^ 16) with 65536; rewrite Z.mod_small; lia).
  rewrite (proj2 (Z.ltb_lt _ _)) by lia. cbn [mbind option_bind]. unfold add_interface.
  rewrite bool_decide_eq_false_2.
  - rewrite seq_S, fmap_app. done.
  - rewrite list_elem_of_fmap. intros (k & E & Hk%elem_of_seq). lia.
Qed.

Section Assembled.
Context (n : nat) (rs : list Range).
Hypothesis Hsep : separate rs.

(** The bus when the devices at the ports [ids] have announced their ranges. *)
Record announced (ids : list nat) (b : Bus) : Prop := {
  an_ok : bus_ok b;
  an_faces : interfaces b = Z.of_nat <$> seq 0 (S n);
  an_max : maxId b = Z.of_nat (S n);
  an_in : inRecvStatusChange b = ∅;
  an_default : defaultPort b = false;
  an_map : ∀ x, x ∈ portMap b ↔ n ∈ ids ∧ ∃ r, r ∈ rs ∧ x = (r, Z.of_nat n);
  an_snoop : ∃ js, snoopPorts b = Z.of_nat <$> js ∧ NoDup js ∧ ∀ j, j ∈ js ↔ (j < n)%nat ∧ j ∈ ids
}.

Lemma announce_step ids b k :
  announced ids b → (k <= n)%nat →
  ∃ b', recvStatusChange (devices n (rs, false)) (λ _ x, Some x) (Z.of_nat k) b tt = Some (b', tt) ∧ announced (ids ++ [k]) b'.
Proof.
  intros [Hok Hf Hmx Hin Hdp Hm (js & Hs & Hnd & Hjs)] Hk.
  set (below := (if bool_decide (k = n) then rs else []) : list Range).
  assert (devices n (rs, false) (Z.of_nat k) tt = Some (below, negb (bool_decide (k = n)))) as Hd.
  { unfold devices, below. destruct (decide (k = n)) as [->|Hne].
    - by rewrite Z.eqb_refl, bool_decide_eq_true_2.
    - rewrite (proj2 (Z.eqb_neq _ _)), bool_decide_eq_false_2 by lia.
      by rewrite (proj2 (Z.leb_le _ _)), (proj2 (Z.ltb_lt _ _)) by lia. }
  destruct (recvStatusChange_ok (devices n (rs, false)) (λ _ x, Some x) b (Z.of_nat k) tt below (negb (bool_decide (k = n))))
    as (m' & pc & [] & Hr & Hok' & Hin'); try done.
  - rewrite Hmx. lia.
  - rewrite Hf, list_elem_of_fmap. exists k. split; [done|]. apply elem_of_seq. lia.
  - rewrite Hin. set_solver.
  - intros p b' s. by exists s.
  - unfold below. by destruct (bool_decide _).
  - apply Forall_forall. intros x [_ (r & _ & ->)]%Hm Hne. unfold below. rewrite bool_decide_eq_false_2; [done|].
    intros ->. by apply Hne.
  - eexists. split; [exact Hr|]. split; try done.
    + intros x. cbn [portMap with_ranges]. rewrite Hin', list_elem_of_filter, Hm, elem_of_app, list_elem_of_singleton.
      unfold below. destruct (decide (k = n)) as [->|Hne].
      * rewrite bool_decide_eq_true_2 by done. split; [|naive_solver].
        intros [[Hx (_ & r & _ & ->)]|(r & Hr' & ->)]; [done|]. split; [by right|by exists r].
      * rewrite bool_decide_eq_false_2 by done. split.
        -- intros [[_ [? ?]]|(r & []%elem_of_nil & _)]. auto.
        -- intros [[?|?] (r & Hr' & ->)]; [|done]. left. split; [cbn; lia|]. split; [done|by exists r].
    + exists (filter (λ j, j ≠ k) js ++ if negb (bool_decide (k = n)) then [k] else []). split_and!.
      * cbn. unfold new_snoopers. rewrite Hs, fmap_app. f_equal; [|by destruct (bool_decide _)].
        clear. induction js as [|j js IH]; [done|]. cbn [fmap list_fmap]. rewrite !filter_cons.
        destruct (decide (j ≠ k)), (decide (Z.of_nat j ≠ Z.of_nat k)); try lia; cbn [fmap list_fmap]; by rewrite ?IH.
      * apply NoDup_app. split_and!; [by apply NoDup_filter| |by destruct (bool_decide _); repeat constructor; set_solver].
        intros j [Hne _]%list_elem_of_filter Hj. destruct (bool_decide _); [by apply elem_of_nil in Hj|].
        by apply list_elem_of_singleton in Hj.
      * intros j. rewrite elem_of_app, list_elem_of_filter, Hjs, elem_of_app, list_elem_of_singleton.
        destruct (decide (k = n)) as [->|Hne].
        -- rewrite bool_decide_eq_true_2 by done. cbn. rewrite elem_of_nil. naive_solver lia.
        -- rewrite bool_decide_eq_false_2 by done. cbn. rewrite list_elem_of_singleton. destruct (decide (j = k)); naive_solver lia.
Qed.

Lemma announce_ok ids' ids b :
  announced ids b → Forall (λ k, (k <= n)%nat) ids' →
  ∃ b', announce (devices n (rs, false)) (Z.of_nat <$> ids') b = Some b' ∧ announced (ids ++ ids') b'.
Proof.
  revert ids b. induction ids' as [|k ids' IH]; intros ids b Han Hall; [exists b; by rewrite app_nil_r|].
  apply Forall_cons in Hall as [Hk Hall]. destruct (announce_step ids b k Han Hk) as (b1 & Hr & Han1).
  destruct (IH _ _ Han1 Hall) as (b2 & H2 & Han2). exists b2. cbn [fmap list_fmap announce]. rewrite Hr.
  cbn [mbind option_bind]. split; [done|]. by rewrite <- app_assoc in Han2.
Qed.

(** When all devices have announced their ranges the bus serves what is behind it. *)
Lemma assembled_serves ids B :
  Z.of_nat n < 32766 → Forall (λ k, (k <= n)%nat) ids → (∀ k, (k <= n)%nat → k ∈ ids) →
  (∀ x, is_u64 x → is_Some (B x) → existsb (in_range x) rs = true) →
  ∃ b, assemble n (rs, false) ids = Some b ∧ bus_serves b n B.
Proof.
  intros Hn Hids Hall HB. unfold assemble. rewrite get_ports_ok by lia. cbn [mbind option_bind].
  set (b0 := with_ports _ _ _ _ _ _).
  destruct (announce_ok ids [] b0) as (b & Hb & Han); [|done|].
  { split; try done.
    - split; try done; [split; constructor|]. intros r i []%elem_of_nil.
    - intros x. split; [intros []%elem_of_nil|]. by intros [[]%elem_of_nil _].
    - exists []. split_and!; [done|constructor|]. intros j. split; [intros []%elem_of_nil|]. by intros [_ []%elem_of_nil]. }
  exists b. split; [done|]. destruct Han as [Hok Hf _ _ _ Hm (js & Hs & Hnd & Hjs)]. split; [done| | |].
  - intros x Hx Hs'. specialize (HB x Hx Hs'). apply existsb_exists in HB as (r & Hr%list_elem_of_In & Hin).
    unfold findPort_ref. assert (value_at (portMap b) x = Some (Z.of_nat n)) as ->; [|done].
    apply value_at_spec; [apply Hok|done|]. exists r. split; [|done]. apply Hm. split; [apply Hall; lia|by exists r].
  - rewrite Hf, list_elem_of_fmap. exists n. split; [done|]. apply elem_of_seq. lia.
  - exists js. split; [|done]. apply NoDup_Permutation; [done|apply NoDup_seq|]. intros j. rewrite Hjs, elem_of_seq.
    split; [lia|]. intros Hj. split; [lia|]. apply Hall. lia.
Qed.

End Assembled.

(** C6. A machine that the code assembles is coherent.  A bus is constructed and gets a
    port for each of any number of caches and one for what is behind them; all devices
    announce their ranges, in any order and any number of times; then any sequence of
    loads, stores, load-locked and unconditional swap requests of the processors,
    interleaved in any way, is answered completely, without a failed assertion, a fatal
    error or an address that the bus cannot route, as one array of bytes with the initial
    contents of the memory would answer the requests in that order: no processor ever
    reads a stale copy.  The memory behind may be a hierarchy of caches itself; the
    ranges that it announces do not meet each other and contain all its bytes. *)
Theorem machine_coherent {M : AtomicPort} {BM : ByteMemory M} ls m rs ids traffic :
  Z.of_nat (length ls) < 32766 → Forall (level_ok port_bs) ls → port_ok m → separate rs →
  (∀ x, is_u64 x → is_Some (port_byte m x) → existsb (in_range x) rs = true) →
  Forall (λ k, (k <= length ls)%nat) ids → (∀ k, (k <= length ls)%nat → k ∈ ids) →
  Forall (sys_request (length ls) (port_byte m)) traffic →
  ∃ b ps s' B', assemble (length ls) (rs, false) ids = Some b ∧
    sys_run (b, (level_new <$> ls, m)) traffic = Some (ps, s') ∧ flat_run (port_byte m) (requests_of traffic) ps B'.
Proof.
  intros Hn Hls Hm Hsep Hrs Hids Hall Htr.
  destruct (assembled_serves (length ls) rs Hsep ids (port_byte m) Hn Hids Hall Hrs) as (b & Hb & Hserves).
  destruct (multicore_coherent ls b m traffic Hls Hserves Hm Htr) as (ps & s' & B' & Hrun & Hfr). by exists b, ps, s', B'.
Qed.

(** The machine with two processors, the memory announcing its range before and after
    the caches. *)
Lemma demo_memory_range : memory_ranges demo_mem = ([RangeSize 0 1024], false).
Proof. unfold memory_ranges, size. cbn [pmem demo_mem start]. by rewrite length_replicate. Qed.

Lemma machine_coherent_witness :
  ∃ b ps s' B', assemble 2 (memory_ranges demo_mem) [2; 1; 0; 2]%nat = Some b ∧
    @sys_run demo_port (b, (level_new <$> [demo_l1; demo_l1], demo_below)) demo_traffic = Some (ps, s') ∧
    flat_run (@port_byte _ (@port_view _ demo_bytes) demo_below) (requests_of demo_traffic) ps B'.
Proof.
  rewrite demo_memory_range.
  apply (machine_coherent (BM := demo_bytes) [demo_l1; demo_l1] demo_below [RangeSize 0 1024] [2; 1; 0; 2]%nat demo_traffic).
  - done.
  - apply demo_levels_ok.
  - apply demo_below_ok.
  - by repeat constructor.
  - intros x Hx Hs. destruct demo_below_ok as [_ E]. rewrite E in Hs. apply demo_byte_range in Hs; [|done].
    change (RangeSize 0 1024) with (RangeIn 0 1023). unfold in_range. cbn. rewrite orb_false_r, andb_true_iff, !Z.leb_le. lia.
  - repeat constructor; cbn; lia.
  - intros [|[|[|k]]] Hk; [set_solver..|]. exfalso. change (length [demo_l1; demo_l1]) with 2%nat in Hk. lia.
  - apply demo_traffic_ok.
Defined.
