(* ===== verification/EventQueue.v ===== *)
(** * The event queue

    src/m5/src/sim/eventq.hh, eventq.cc, simulate.cc and sim_events.cc.  The queue
    is a linked list of bins, one for each pair of a time and a priority; the
    events of a bin form a stack.  An event is a cell of a store, a pointer to it
    is its key in the store, and the two link fields of an event are pointers.
    The links of an event that is not on the top of its bin may be stale, so the
    shape of the queue is a predicate on the store ([bins_rep]).

    The queue is proved equivalent to a list that is sorted by time and priority,
    in which a new event goes in front of its equals. *)

From S2P Require Import Prelude Packet.

(** ** Events *)

Module Event.

Record t := mk {
  nextBin : option nat;
  nextInBin : option nat;
  when : Z;
  priority : Z;
  flags : Z
}.

Definition PublicRead : Z := 0x003f.
Definition PublicWrite : Z := 0x001d.
Definition Squashed : Z := 0x0001.
Definition Scheduled : Z := 0x0002.
Definition AutoDelete : Z := 0x0004.
Definition AutoSerialize : Z := 0x0008.
Definition IsExitEvent : Z := 0x0010.
Definition IsMainQueue : Z := 0x0020.
Definition Initialized : Z := 0x7a40.
(** The constant 0xffc0 as a [short]. *)
Definition InitMask : Z := wrapS 16 0xffc0.

Definition Minimum_Pri : Z := -128.
Definition CPU_Switch_Pri : Z := -31.
Definition Default_Pri : Z := 0.
Definition CPU_Tick_Pri : Z := 50.
Definition Sim_Exit_Pri : Z := 100.
Definition Maximum_Pri : Z := 127.

Definition initialized (e : t) : bool := Z.land (flags e) InitMask =? Initialized.
Definition scheduled (e : t) : bool := Flags.isSet (flags e) Scheduled.
Definition squashed (e : t) : bool := Flags.isSet (flags e) Squashed.
Definition isExitEvent (e : t) : bool := Flags.isSet (flags e) IsExitEvent.
Definition autoDelete (e : t) : bool := Flags.isSet (flags e) AutoDelete.

Definition with_links (e : t) (b i : option nat) : t := mk b i (when e) (priority e) (flags e).
Definition with_flags (e : t) (f : Z) : t := mk (nextBin e) (nextInBin e) (when e) (priority e) f.
Definition set_nextBin (p : option nat) (e : t) : t := with_links e p (nextInBin e).
Definition set_nextInBin (p : option nat) (e : t) : t := with_links e (nextBin e) p.
Definition setWhen (w : Z) (e : t) : t := mk (nextBin e) (nextInBin e) w (priority e) (flags e).
Definition set_flags (f : Z) (e : t) : t := with_flags e (Flags.set (flags e) f).
Definition clear_flags (f : Z) (e : t) : t := with_flags e (Flags.clear (flags e) f).

(** The constructor: the time of an event that was never scheduled is unspecified. *)
Definition new (p w : Z) : t := mk None None w p Initialized.

(** The comparison operators of events. *)
Definition lt (l r : t) : bool :=
  (when l <? when r) || ((when l =? when r) && (priority l <? priority r)).
Definition le (l r : t) : bool :=
  (when l <? when r) || ((when l =? when r) && (priority l <=? priority r)).
Definition eq (l r : t) : bool := (when l =? when r) && (priority l =? priority r).
Definition ne (l r : t) : bool := negb (when l =? when r) || negb (priority l =? priority r).

End Event.

Abbreviation Store := (gmap nat Event.t).

(** An assignment through a pointer. *)
Definition upd (h : Store) (p : nat) (f : Event.t → Event.t) : option Store :=
  e ← h !! p; Some (<[p := f e]> h).

Definition insertBefore (h : Store) (event : nat) (curr : option nat)
    : option (Store * option nat) :=
  e ← h !! event;
  match curr with
  | None => Some (<[event := Event.with_links e None None]> h, Some event)
  | Some c =>
      cv ← h !! c;
      if Event.lt e cv then Some (<[event := Event.with_links e (Some c) None]> h, Some event)
      else Some (<[event := Event.with_links e (Event.nextBin cv) (Some c)]> h, Some event)
  end.

(** The search of [removeItem] for the predecessor of the event in its bin. *)
Fixpoint item_walk (fuel : nat) (h : Store) (event curr : nat) (next : option nat)
    : option Store :=
  match next with
  | None => None
  | Some n =>
      nv ← h !! n;
      if (n =? event)%nat then upd h curr (Event.set_nextInBin (Event.nextInBin nv))
      else match fuel with
           | O => None
           | S fuel => item_walk fuel h event n (Event.nextInBin nv)
           end
  end.

Definition removeItem (h : Store) (event top : nat) : option (Store * option nat) :=
  tv ← h !! top;
  if (event =? top)%nat then
    match Event.nextInBin tv with
    | None => Some (h, Event.nextBin tv)
    | Some n => h' ← upd h n (Event.set_nextBin (Event.nextBin tv)); Some (h', Some n)
    end
  else
    h' ← item_walk (base.size h) h event top (Event.nextInBin tv); Some (h', Some top).

(** ** The queue *)

(** The queue [head], whether it is the main queue, the events, the time and
    whether events are traced. *)
Record EvState := mkEv {
  events : Store;
  head : option nat;
  isMain : bool;
  curTick : Z;
  traced : bool
}.

Definition with_events (s : EvState) (h : Store) : EvState :=
  mkEv h (head s) (isMain s) (curTick s) (traced s).
Definition with_queue (s : EvState) (h : Store) (p : option nat) : EvState :=
  mkEv h p (isMain s) (curTick s) (traced s).
Definition with_curTick (s : EvState) (t : Z) : EvState :=
  mkEv (events s) (head s) (isMain s) t (traced s).

Definition EventQueue_new (main tr : bool) (now : Z) : EvState := mkEv ∅ None main now tr.

Definition empty (s : EvState) : bool := match head s with None => true | Some _ => false end.

Definition nextTick (s : EvState) : option Z :=
  hd ← head s; hv ← events s !! hd; Some (Event.when hv).

Definition nextEventTime (s : EvState) : option Z :=
  if empty s then Some (curTick s) else nextTick s.

(** The loop of [insert] and of [remove] over the bins: the last bin before the
    event and the bin after it. *)
Fixpoint bin_walk (fuel : nat) (h : Store) (e : Event.t) (prev : nat) (curr : option nat)
    : option (nat * option nat) :=
  match curr with
  | None => Some (prev, None)
  | Some c =>
      cv ← h !! c;
      if Event.lt cv e then
        match fuel with
        | O => None
        | S fuel => bin_walk fuel h e c (Event.nextBin cv)
        end
      else Some (prev, Some c)
  end.

Definition insert_after (fuel : nat) (h : Store) (event prev : nat) : option Store :=
  e ← h !! event; pv ← h !! prev;
  '(p, c) ← bin_walk fuel h e prev (Event.nextBin pv);
  '(h', top) ← insertBefore h event c;
  upd h' p (Event.set_nextBin top).

Definition insert (h : Store) (hd : option nat) (event : nat) : option (Store * option nat) :=
  e ← h !! event;
  match hd with
  | None => insertBefore h event None
  | Some top =>
      tv ← h !! top;
      if Event.le e tv then insertBefore h event hd
      else h' ← insert_after (base.size h) h event top; Some (h', hd)
  end.

Definition remove_after (fuel : nat) (h : Store) (event prev : nat) : option Store :=
  e ← h !! event; pv ← h !! prev;
  '(p, c) ← bin_walk fuel h e prev (Event.nextBin pv);
  c ← c; cv ← h !! c;
  if Event.ne cv e then None
  else
    '(h', top) ← removeItem h event c;
    upd h' p (Event.set_nextBin top).

Definition remove (h : Store) (hd : option nat) (event : nat) : option (Store * option nat) :=
  top ← hd; tv ← h !! top; e ← h !! event;
  if Event.eq tv e then removeItem h event top
  else h' ← remove_after (base.size h) h event top; Some (h', hd).

(** The destructor and the operator delete. *)
Definition delete_event (h : Store) (event : nat) : option Store :=
  e ← h !! event;
  if Event.scheduled e then None else Some (delete event h).

(** The end of [schedule] and [reschedule]: the flag of the queue. *)
Definition mark_queue (main : bool) (e : Event.t) : Event.t :=
  if main then Event.set_flags Event.IsMainQueue e else Event.clear_flags Event.IsMainQueue e.

Definition schedule (s : EvState) (event : nat) (when : Z) : option EvState :=
  e ← events s !! event;
  if (u64 (curTick s) <=? u64 when) && negb (Event.scheduled e) && Event.initialized e then
    h ← upd (events s) event (Event.setWhen when);
    '(h, hd) ← insert h (head s) event;
    h ← upd h event (λ e, mark_queue (isMain s) (Event.set_flags Event.Scheduled e));
    Some (with_queue s h hd)
  else None.

(** Tracing prints the fields of the event, after it may have been deleted. *)
Definition deschedule (s : EvState) (event : nat) : option EvState :=
  e ← events s !! event;
  if Event.scheduled e && Event.initialized e then
    '(h, hd) ← remove (events s) (head s) event;
    h ← upd h event (λ e, Event.clear_flags Event.Scheduled (Event.clear_flags Event.Squashed e));
    e' ← h !! event;
    h ← (if Event.autoDelete e' then delete_event h event else Some h);
    _ ← (if traced s then h !! event else Some e');
    Some (with_queue s h hd)
  else None.

Definition reschedule (s : EvState) (event : nat) (when : Z) (always : bool) : option EvState :=
  e ← events s !! event;
  if (curTick s <=? when) && (always || Event.scheduled e) && Event.initialized e then
    '(h, hd) ← (if Event.scheduled e then remove (events s) (head s) event
                else Some (events s, head s));
    h ← upd h event (Event.setWhen when);
    '(h, hd) ← insert h hd event;
    h ← upd h event (λ e, mark_queue (isMain s)
                            (Event.set_flags Event.Scheduled (Event.clear_flags Event.Squashed e)));
    Some (with_queue s h hd)
  else None.

(** [setFlags], [clearFlags] and [squash] of an event, the constructor and delete. *)
Definition setFlags (s : EvState) (event : nat) (f : Z) : option EvState :=
  if Flags.noneSet f (Z.lnot Event.PublicWrite)
  then with_events s <$> upd (events s) event (Event.set_flags f) else None.

Definition clearFlags (s : EvState) (event : nat) (f : Z) : option EvState :=
  if Flags.noneSet f (Z.lnot Event.PublicWrite)
  then with_events s <$> upd (events s) event (Event.clear_flags f) else None.

Definition squash (s : EvState) (event : nat) : option EvState :=
  with_events s <$> upd (events s) event (Event.set_flags Event.Squashed).

(** Allocation never returns the address of a live object. *)
Definition Event_new (s : EvState) (event : nat) (p w : Z) : option EvState :=
  match events s !! event with
  | Some _ => None
  | None => Some (with_events s (<[event := Event.new p w]> (events s)))
  end.

Definition Event_delete (s : EvState) (event : nat) : option EvState :=
  with_events s <$> delete_event (events s) event.

(** ** Actions of events

    What the code of an event may do to the queue and to events. *)
Inductive Call :=
  | CNew (event : nat) (p w : Z)
  | CDelete (event : nat)
  | CSchedule (event : nat) (when : Z)
  | CDeschedule (event : nat)
  | CReschedule (event : nat) (when : Z) (always : bool)
  | CSetFlags (event : nat) (f : Z)
  | CClearFlags (event : nat) (f : Z)
  | CSquash (event : nat).

Definition apply_call (s : EvState) (c : Call) : option EvState :=
  match c with
  | CNew e p w => Event_new s e p w
  | CDelete e => Event_delete s e
  | CSchedule e t => schedule s e t
  | CDeschedule e => deschedule s e
  | CReschedule e t a => reschedule s e t a
  | CSetFlags e f => setFlags s e f
  | CClearFlags e f => clearFlags s e f
  | CSquash e => squash s e
  end.

Fixpoint run_calls (s : EvState) (cs : list Call) : option EvState :=
  match cs with
  | [] => Some s
  | c :: cs => s' ← apply_call s c; run_calls s' cs
  end.

(** The virtual function [process]: on a state [X] of the rest of the simulator it
    determines the calls that the action makes. *)
Class EventActions (X : Type) := process : nat → X → EvState → X * list Call.

(** The first event leaves the queue. *)
Definition pop_head (s : EvState) : option (nat * EvState) :=
  event ← head s; hv ← events s !! event;
  h ← upd (events s) event (Event.clear_flags Event.Scheduled);
  match Event.nextInBin hv with
  | Some n =>
      h ← upd h n (Event.set_nextBin (Event.nextBin hv));
      Some (event, with_queue s h (Some n))
  | None => Some (event, with_queue s h (Event.nextBin hv))
  end.

(** The end of [serviceOne]. *)
Definition auto_delete (s : EvState) (event : nat) : option EvState :=
  e ← events s !! event;
  if Event.autoDelete e && negb (Event.scheduled e) then Event_delete s event else Some s.

Section Service.
Context {X : Type} {A : EventActions X}.

Definition serviceOne (x : X) (s : EvState) : option (X * EvState * option nat) :=
  '(event, s) ← pop_head s;
  e ← events s !! event;
  if negb (Event.squashed e) then
    let '(x, cs) := process event x s in
    s ← run_calls s cs;
    e ← events s !! event;
    if Event.isExitEvent e then
      if Event.autoDelete e then None else Some (x, s, Some event)
    else s ← auto_delete s event; Some (x, s, None)
  else
    h ← upd (events s) event (Event.clear_flags Event.Squashed);
    s ← auto_delete (with_events s h) event; Some (x, s, None).


(** [serviceEvents]: it need not end, when events reschedule themselves. *)
Fixpoint serviceEvents (fuel : nat) (when : Z) (x : X) (s : EvState) : option (X * EvState) :=
  if empty s then Some (x, s)
  else
    t ← nextTick s;
    if when <? t then Some (x, s)
    else match fuel with
         | O => None
         | S fuel => '(x, s, _) ← serviceOne x s; serviceEvents fuel when x s
         end.

End Service.

(** ** Walks over the whole queue

    The two nested loops of [dump] and [serialize]: the events in the order in
    which they are printed and saved. *)
Fixpoint bin_events (fuel : nat) (h : Store) (p : option nat) : option (list nat) :=
  match p with
  | None => Some []
  | Some x =>
      e ← h !! x;
      match fuel with
      | O => None
      | S fuel => l ← bin_events fuel h (Event.nextInBin e); Some (x :: l)
      end
  end.

Fixpoint queue_events (fuel : nat) (h : Store) (p : option nat) : option (list nat) :=
  match p with
  | None => Some []
  | Some x =>
      e ← h !! x;
      match fuel with
      | O => None
      | S fuel =>
          b ← bin_events (base.size h) h p;
          l ← queue_events fuel h (Event.nextBin e);
          Some (b ++ l)
      end
  end.

Definition dump_order (s : EvState) : option (list nat) :=
  queue_events (base.size (events s)) (events s) (head s).

(** What a checkpoint says of an event: [_when], [_priority] and [_flags]. *)
Abbreviation Saved := (nat * (Z * Z * Z))%type.

Definition Event_serialize (e : Event.t) : Z * Z * Z :=
  (Event.when e, Event.priority e, Event.flags e).

Definition save_event (h : Store) (x : nat) : option (list Saved) :=
  e ← h !! x;
  Some (if Flags.isSet (Event.flags e) Event.AutoSerialize then [(x, Event_serialize e)] else []).

Definition serialize (s : EvState) : option (list Saved) :=
  l ← dump_order s; ll ← mapM (save_event (events s)) l; Some (concat ll).

(** [Event::unserialize] of the main queue. *)
Definition Event_unserialize (s : EvState) (x : nat) (v : Z * Z * Z) : option EvState :=
  let '(w, p, f) := v in
  e ← events s !! x;
  s ← (if Event.scheduled e then deschedule s x else Some s);
  e ← events s !! x;
  if Event.initialized e then
    let f := Flags.set f Event.Initialized in
    let wasScheduled := Flags.isSet f Event.Scheduled && negb (Flags.isSet f Event.Squashed) in
    let f := Flags.clear f (Z.lor Event.Squashed Event.Scheduled) in
    let s := with_events s (<[x := Event.mk (Event.nextBin e) (Event.nextInBin e) w p f]> (events s)) in
    if wasScheduled then schedule s x w else Some s
  else None.

(** [EventQueue::unserialize]: every event is created, by code that depends on its
    class, and then reads its fields. *)
Fixpoint unserialize (s : EvState) (l : list Saved) : option EvState :=
  match l with
  | [] => Some s
  | (x, v) :: l =>
      s ← Event_new s x Event.Default_Pri 0;
      s ← Event_unserialize s x v;
      unserialize s l
  end.

(** [debugVerify]: the time and priority of the last event and the events seen so
    far, or the result [false]. *)
Abbreviation VerifyState := (Z * Z * gset nat)%type.

Fixpoint verify_bin (fuel : nat) (h : Store) (p : option nat) (st : VerifyState)
    : option (VerifyState + unit) :=
  match p with
  | None => Some (inl st)
  | Some x =>
      e ← h !! x;
      let '(time, priority, seen) := st in
      if Event.when e <? time then Some (inr tt)
      else if (Event.when e =? time) && (Event.priority e <? priority) then Some (inr tt)
      else if bool_decide (x ∈ seen) then Some (inr tt)
      else match fuel with
           | O => None
           | S fuel =>
               verify_bin fuel h (Event.nextInBin e)
                 (Event.when e, Event.priority e, {[ x ]} ∪ seen)
           end
  end.

Fixpoint verify_bins (fuel : nat) (h : Store) (p : option nat) (st : VerifyState) : option bool :=
  match p with
  | None => Some true
  | Some x =>
      e ← h !! x;
      match fuel with
      | O => None
      | S fuel =>
          r ← verify_bin (base.size h) h p st;
          match r with
          | inr _ => Some false
          | inl st => verify_bins fuel h (Event.nextBin e) st
          end
      end
  end.

Definition debugVerify (s : EvState) : option bool :=
  verify_bins (base.size (events s)) (events s) (head s) (0, 0, ∅).

(** ** Keys and bins *)

Abbreviation Key := (Z * Z)%type.
Definition key (e : Event.t) : Key := (Event.when e, Event.priority e).

Definition key_ltb (a b : Key) : bool := (a.1 <? b.1) || ((a.1 =? b.1) && (a.2 <? b.2)).
Definition key_lt (a b : Key) : Prop := a.1 < b.1 ∨ (a.1 = b.1 ∧ a.2 < b.2).

Section Keys.
Implicit Types (a b c : Key) (e f : Event.t).

Lemma key_ltb_spec a b : reflect (key_lt a b) (key_ltb a b).
Proof.
  apply iff_reflect. unfold key_lt, key_ltb.
  rewrite orb_true_iff, andb_true_iff, !Z.ltb_lt, Z.eqb_eq. done.
Qed.

Lemma key_lt_trans a b c : key_lt a b → key_lt b c → key_lt a c.
Proof. unfold key_lt. lia. Qed.

Lemma key_lt_irrefl a : ¬ key_lt a a.
Proof. unfold key_lt. lia. Qed.

Lemma key_total a b : ¬ key_lt a b → ¬ key_lt b a → a = b.
Proof. destruct a, b. unfold key_lt. cbn. intros. f_equal; lia. Qed.

Lemma lt_key e f : Event.lt e f = key_ltb (key e) (key f).
Proof. done. Qed.

Lemma le_key e f : Event.le e f = negb (key_ltb (key f) (key e)).
Proof. unfold Event.le, key_ltb, key. cbn. repeat zcase; cbn; try done; lia. Qed.

Lemma eq_key e f : Event.eq e f = bool_decide (key e = key f).
Proof.
  unfold Event.eq, key. case_bool_decide as Hk.
  - injection Hk as -> ->. by rewrite !Z.eqb_refl.
  - repeat zcase; cbn; try done. destruct Hk. congruence.
Qed.

Lemma ne_key e f : Event.ne e f = negb (bool_decide (key e = key f)).
Proof. rewrite <- eq_key. unfold Event.ne, Event.eq. by rewrite negb_andb. Qed.

End Keys.

Ltac keys :=
  repeat match goal with
  | H : context [key_ltb ?a ?b] |- _ => destruct (key_ltb_spec a b)
  | |- context [key_ltb ?a ?b] => destruct (key_ltb_spec a b)
  end.

(** The bins: for each key the events from the top of the stack. *)
Abbreviation Bins := (list (Key * list nat)).

Definition elems (bs : Bins) : list nat := concat bs.*2.

(** The store has the chain [l] of events of key [k] behind [p]. *)
Fixpoint in_chain (h : Store) (k : Key) (p : option nat) (l : list nat) : Prop :=
  match l with
  | [] => p = None
  | x :: l => p = Some x ∧ ∃ e, h !! x = Some e ∧ key e = k ∧ in_chain h k (Event.nextInBin e) l
  end.

(** The store has the bins [bs] behind [p]: only the top of a bin has a valid
    pointer to the next bin. *)
Fixpoint bins_rep (h : Store) (p : option nat) (bs : Bins) : Prop :=
  match bs with
  | [] => p = None
  | (k, b) :: bs =>
      ∃ x l e, b = x :: l ∧ p = Some x ∧ h !! x = Some e ∧ key e = k ∧
        in_chain h k (Event.nextInBin e) l ∧ bins_rep h (Event.nextBin e) bs
  end.

Definition sorted (bs : Bins) : Prop := StronglySorted key_lt bs.*1.

(** Insertion and removal on bins. *)
Fixpoint bins_insert (k : Key) (x : nat) (bs : Bins) : Bins :=
  match bs with
  | [] => [(k, [x])]
  | (k', b) :: bs' =>
      if key_ltb k' k then (k', b) :: bins_insert k x bs'
      else if key_ltb k k' then (k, [x]) :: bs
      else (k', x :: b) :: bs'
  end.

Fixpoint bins_remove (k : Key) (x : nat) (bs : Bins) : Bins :=
  match bs with
  | [] => []
  | (k', b) :: bs' =>
      if key_ltb k' k then (k', b) :: bins_remove k x bs'
      else match list_erase x b with
           | Some [] => bs'
           | Some b' => (k', b') :: bs'
           | None => bs
           end
  end.

Section Shape.
Implicit Types (h : Store) (bs : Bins) (e : Event.t).

Lemma elems_cons k b bs : elems ((k, b) :: bs) = b ++ elems bs.
Proof. done. Qed.

Lemma in_chain_frame h h' k p l :
  (∀ x e, x ∈ l → h !! x = Some e → ∃ e', h' !! x = Some e' ∧ key e' = key e ∧
     Event.nextInBin e' = Event.nextInBin e) →
  in_chain h k p l → in_chain h' k p l.
Proof.
  revert p. induction l as [|x l IH]; intros p Hf; cbn; [done|].
  intros (-> & e & Hx & Hk & Hc). split; [done|].
  destruct (Hf x e) as (e' & Hx' & Hk' & Hn); [set_solver|done|].
  exists e'. rewrite Hk', Hn. split_and!; [done|done|].
  apply IH; [|done]. intros y e1 Hy. apply Hf. set_solver.
Qed.

Lemma bins_rep_frame h h' p bs :
  (∀ x e, x ∈ elems bs → h !! x = Some e → ∃ e', h' !! x = Some e' ∧ key e' = key e ∧
     Event.nextInBin e' = Event.nextInBin e ∧ Event.nextBin e' = Event.nextBin e) →
  bins_rep h p bs → bins_rep h' p bs.
Proof.
  revert p. induction bs as [|[k b] bs IH]; intros p Hf; cbn; [done|].
  intros (x & l & e & -> & -> & Hx & Hk & Hc & Hb). rewrite elems_cons in Hf.
  destruct (Hf x e) as (e' & Hx' & Hk' & Hn & Hnb); [set_solver|done|].
  exists x, l, e'. rewrite Hk', Hn, Hnb. split_and!; try done.
  - eapply in_chain_frame; [|done]. intros y e1 Hy Hy1.
    destruct (Hf y e1) as (e2 & ? & ? & ? & ?); [set_solver|done|eauto].
  - apply IH; [|done]. intros y e1 Hy Hy1. apply Hf; [set_solver|done].
Qed.

Lemma bins_rep_same h h' p bs :
  (∀ x, x ∈ elems bs → h' !! x = h !! x) → bins_rep h p bs → bins_rep h' p bs.
Proof. intros Hs. apply bins_rep_frame. intros x e Hx He. exists e. by rewrite Hs. Qed.

Lemma in_chain_same h h' k p l :
  (∀ x, x ∈ l → h' !! x = h !! x) → in_chain h k p l → in_chain h' k p l.
Proof. intros Hs. apply in_chain_frame. intros x e Hx He. exists e. by rewrite Hs. Qed.

Lemma in_chain_elem h k p l x : in_chain h k p l → x ∈ l → ∃ e, h !! x = Some e ∧ key e = k.
Proof.
  revert p. induction l as [|y l IH]; intros p; [set_solver|].
  intros (_ & e & Hy & Hk & Hc) Hx. apply elem_of_cons in Hx as [->|Hx]; eauto.
Qed.

Lemma bins_rep_elem h p bs k b x :
  bins_rep h p bs → (k, b) ∈ bs → x ∈ b → ∃ e, h !! x = Some e ∧ key e = k.
Proof.
  revert p. induction bs as [|[k' b'] bs IH]; intros p; [set_solver|].
  intros (y & l & e & -> & _ & Hy & Hk & Hc & Hb) Hin Hx.
  apply elem_of_cons in Hin as [[= -> ->]|Hin]; [|by eapply IH].
  apply elem_of_cons in Hx as [->|Hx]; [eauto|by eapply in_chain_elem].
Qed.

Lemma elems_elem bs x : x ∈ elems bs ↔ ∃ k b, (k, b) ∈ bs ∧ x ∈ b.
Proof.
  induction bs as [|[k b] bs IH]; [set_solver|].
  rewrite elems_cons, elem_of_app, IH. set_solver.
Qed.

Lemma bins_rep_live h p bs x : bins_rep h p bs → x ∈ elems bs → is_Some (h !! x).
Proof.
  intros Hr (k & b & Hb & Hx)%elems_elem. destruct (bins_rep_elem _ _ _ _ _ _ Hr Hb Hx) as (e & ? & _).
  by eexists.
Qed.

(** A chain without repetition is shorter than the store. *)
Lemma live_size h (l : list nat) : NoDup l → (∀ x, x ∈ l → is_Some (h !! x)) → (length l <= base.size h)%nat.
Proof.
  intros Hn Hl. rewrite <- size_dom. rewrite <- (size_list_to_set (C := gset nat) l Hn).
  apply subseteq_size. intros x Hx%elem_of_list_to_set. apply elem_of_dom. by apply Hl.
Qed.

End Shape.

(** What the operations on links leave alone. *)
Definition core (e : Event.t) : Z * Z * Z := (Event.when e, Event.priority e, Event.flags e).
Definition same_core (h h' : Store) : Prop := ∀ x, core <$> h' !! x = core <$> h !! x.

#[export] Instance same_core_preorder : PreOrder same_core.
Proof. split; [done|]. intros h1 h2 h3 H12 H23 x. by rewrite H23, H12. Qed.

Section Insert.
Implicit Types (h : Store) (bs : Bins) (e : Event.t).

Lemma same_core_links h x e b i : h !! x = Some e → same_core h (<[x := Event.with_links e b i]> h).
Proof.
  intros Hx y. destruct (decide (y = x)) as [->|]; [|by rewrite lookup_insert_ne].
  by rewrite lookup_insert_eq, Hx.
Qed.

Lemma upd_eq h x e f : h !! x = Some e → upd h x f = Some (<[x := f e]> h).
Proof. intros Hx. unfold upd. by rewrite Hx. Qed.

Lemma insertBefore_ok h event e c bs :
  h !! event = Some e → event ∉ elems bs → bins_rep h c bs →
  (∀ k b, bs !! 0%nat = Some (k, b) → ¬ key_lt k (key e)) →
  ∃ b i, insertBefore h event c = Some (<[event := Event.with_links e b i]> h, Some event) ∧
    bins_rep (<[event := Event.with_links e b i]> h) (Some event) (bins_insert (key e) event bs).
Proof.
  intros He Hni Hr Hk. unfold insertBefore. rewrite He. cbn [mbind option_bind].
  destruct bs as [|[k b] bs].
  { cbn in Hr. subst c. exists None, None. split; [done|]. cbn.
    exists event, [], (Event.with_links e None None). by rewrite lookup_insert_eq. }
  pose proof (Hk k b eq_refl) as Hkk. rewrite elems_cons in Hni.
  pose proof Hr as (x & l & ev & -> & -> & Hx & Hkx & Hc & Hb). rewrite Hx.
  cbn [mbind option_bind bins_insert]. rewrite lt_key, Hkx.
  destruct (key_ltb_spec k (key e)); [done|].
  assert (event ≠ x ∧ event ∉ l ∧ event ∉ elems bs) as (? & ? & ?) by set_solver.
  destruct (key_ltb_spec (key e) k) as [Hlt|Hnlt].
  - exists (Some x), None. split; [done|]. cbn [bins_rep].
    eexists event, [], _. rewrite lookup_insert_eq. split_and!; try done.
    apply (bins_rep_same h _ _ ((k, x :: l) :: bs)); [|exact Hr]. intros y Hy. apply lookup_insert_ne. set_solver.
  - exists (Event.nextBin ev), (Some x). split; [done|]. cbn [bins_rep].
    pose proof (key_total _ _ Hkk Hnlt) as ->.
    eexists event, (x :: l), _. rewrite lookup_insert_eq. split_and!; try done.
    + cbn [Event.with_links Event.nextInBin in_chain]. split; [done|]. exists ev.
      rewrite lookup_insert_ne by done. split_and!; [done|done|].
      eapply in_chain_same; [|done]. intros y Hy. apply lookup_insert_ne. set_solver.
    + cbn -[bins_rep]. eapply bins_rep_same; [|done]. intros y Hy. apply lookup_insert_ne. set_solver.
Qed.

(** The pointer to the next bin of the first top changes. *)
Lemma bins_rep_relink h x l e k bs q bs' :
  h !! x = Some e → key e = k → in_chain h k (Event.nextInBin e) l → x ∉ l → x ∉ elems bs' →
  bins_rep h q bs' →
  bins_rep (<[x := Event.set_nextBin q e]> h) (Some x) ((k, x :: l) :: bs').
Proof.
  intros Hx Hk Hc Hl Hb Hr. exists x, l, (Event.set_nextBin q e).
  rewrite lookup_insert_eq. split_and!; try done.
  - eapply in_chain_same; [|done]. intros y Hy. apply lookup_insert_ne. set_solver.
  - cbn -[bins_rep]. eapply bins_rep_same; [|done]. intros y Hy. apply lookup_insert_ne. set_solver.
Qed.

Lemma elem_bins_insert k x bs y : y ∈ elems (bins_insert k x bs) ↔ y = x ∨ y ∈ elems bs.
Proof.
  induction bs as [|[k' b] bs IH]; cbn [bins_insert].
  - unfold elems. cbn. set_solver.
  - destruct (key_ltb k' k); [|destruct (key_ltb k k')]; rewrite !elems_cons, !elem_of_app; set_solver.
Qed.

(** The event goes between the first bin and the others. *)
Lemma insert_here h event e x l ex k bs c :
  h !! event = Some e → event ∉ x :: l ++ elems bs → h !! x = Some ex → key ex = k →
  in_chain h k (Event.nextInBin ex) l → bins_rep h c bs → x ∉ l ++ elems bs →
  (∀ k b, bs !! 0%nat = Some (k, b) → ¬ key_lt k (key e)) →
  ∃ h', ('(h', top) ← insertBefore h event c; upd h' x (Event.set_nextBin top)) = Some h' ∧
    bins_rep h' (Some x) ((k, x :: l) :: bins_insert (key e) event bs) ∧
    same_core h h' ∧ ∀ y, y ≠ event → y ≠ x → h' !! y = h !! y.
Proof.
  intros He Hni Hx Hk Hc Hb Hxl Hh.
  assert (event ≠ x ∧ event ∉ l ∧ event ∉ elems bs) as (Hne & Hnl & Hnb) by set_solver.
  assert (x ∉ l ∧ x ∉ elems bs) as [? ?] by set_solver.
  destruct (insertBefore_ok h event e c bs He Hnb Hb Hh) as (b & i & -> & Hrep).
  cbn [mbind option_bind]. erewrite upd_eq by (by rewrite lookup_insert_ne).
  eexists. split; [done|]. split_and!.
  - apply bins_rep_relink; try done; [by rewrite lookup_insert_ne| |].
    + eapply in_chain_same; [|done]. intros y Hy. apply lookup_insert_ne. set_solver.
    + rewrite elem_bins_insert. set_solver.
  - etrans; [exact (same_core_links h event e b i He)|]. apply same_core_links. by rewrite lookup_insert_ne.
  - intros y Hy1 Hy2. by rewrite !lookup_insert_ne.
Qed.

Lemma insert_after_ok fuel h event e k x l bs :
  h !! event = Some e → event ∉ elems ((k, x :: l) :: bs) →
  bins_rep h (Some x) ((k, x :: l) :: bs) → NoDup (elems ((k, x :: l) :: bs)) →
  (length bs <= fuel)%nat →
  ∃ h', insert_after fuel h event x = Some h' ∧
    bins_rep h' (Some x) ((k, x :: l) :: bins_insert (key e) event bs) ∧
    same_core h h' ∧
    ∀ y, y ≠ event → y ∉ elems ((k, x :: l) :: bs) → h' !! y = h !! y.
Proof.
  revert fuel k x l. induction bs as [|[k1 b1] bs IH]; intros fuel k x l He Hni Hr Hnd Hlen;
    destruct Hr as (x' & l' & ex & [= <- <-] & _ & Hx & Hk & Hc & Hb);
    rewrite elems_cons in Hni, Hnd; pose proof Hnd as [Hxl _]%NoDup_cons;
    unfold insert_after; rewrite He; cbn [mbind option_bind]; rewrite Hx; cbn [mbind option_bind].
  { rewrite (Hb : Event.nextBin ex = None).
    destruct (insert_here h event e x l ex k [] None) as (h' & Hi & ? & ? & Hf); try done.
    exists h'. destruct fuel; (split_and!; [exact Hi|done|done|]);
      intros y Hy1 Hy2; (apply Hf; [done|]; rewrite elems_cons in Hy2; set_solver). }
  pose proof Hb as (c & l1 & ec & -> & Hcx & Hcl & Hk1 & Hc1 & Hb1). rewrite Hcx in Hb |- *.
  destruct (key_ltb_spec k1 (key e)) as [Hk1e|Hk1e].
  - destruct fuel as [|fuel]; [cbn in Hlen; lia|].
    apply NoDup_app in Hnd as (_ & Hdis & Hnd). rewrite elems_cons in Hdis, Hni.
    destruct (IH fuel k1 c l1) as (h' & Hi & Hrep & Hcore & Hfr); try done;
      [rewrite elems_cons; set_solver|cbn in Hlen; lia|].
    unfold insert_after in Hi. rewrite He in Hi. cbn [mbind option_bind] in Hi.
    rewrite Hcl in Hi. cbn [mbind option_bind] in Hi. rewrite elems_cons in Hfr.
    cbn [bin_walk bins_insert]. rewrite Hcl. cbn [mbind option_bind]. rewrite lt_key, Hk1.
    destruct (key_ltb_spec k1 (key e)); [|done].
    exists h'. split_and!; [exact Hi| |done|].
    + exists x, l, ex. rewrite (Hfr x) by set_solver. split_and!; try done; [|by rewrite Hcx].
      eapply in_chain_same; [|done]. intros y Hy. apply Hfr; set_solver.
    + intros y Hy1 Hy2. apply Hfr; [done|]. rewrite !elems_cons in Hy2. set_solver.
  - assert (bin_walk fuel h e x (Some c) = Some (x, Some c)) as ->.
    { destruct fuel; cbn [bin_walk]; rewrite Hcl; cbn [mbind option_bind];
        rewrite lt_key, Hk1; by destruct (key_ltb_spec k1 (key e)). }
    destruct (insert_here h event e x l ex k ((k1, c :: l1) :: bs) (Some c))
      as (h' & Hi & ? & ? & Hf); try done; [by intros ? ? [= <- <-]|].
    exists h'. split_and!; [exact Hi|done|done|].
    intros y Hy1 Hy2. apply Hf; [done|]. rewrite elems_cons in Hy2. set_solver.
Qed.

(** The loop over the bins ends within the size of the store. *)
Lemma bins_fuel h p bs : bins_rep h p bs → NoDup (elems bs) → (length bs <= base.size h)%nat.
Proof.
  intros Hr Hn. etrans; [|apply (live_size h (elems bs) Hn)].
  - clear Hn. revert p Hr. induction bs as [|[k b] bs IH]; intros p; [cbn; lia|].
    intros (x & l & e & -> & _ & _ & _ & _ & Hb). rewrite elems_cons, length_app. cbn.
    specialize (IH _ Hb). lia.
  - intros x. by apply bins_rep_live with (p := p).
Qed.

Lemma queue_insert_ok h p event e bs :
  h !! event = Some e → event ∉ elems bs → bins_rep h p bs → NoDup (elems bs) →
  ∃ h' p', insert h p event = Some (h', p') ∧
    bins_rep h' p' (bins_insert (key e) event bs) ∧ same_core h h' ∧
    ∀ y, y ≠ event → y ∉ elems bs → h' !! y = h !! y.
Proof.
  intros He Hni Hr Hnd. unfold insert. rewrite He. cbn [mbind option_bind].
  pose proof (bins_fuel _ _ _ Hr Hnd) as Hfuel.
  destruct bs as [|[k b] bs].
  { destruct (insertBefore_ok h event e p [] He Hni Hr) as (b & i & Hi & Hrep); [done|].
    rewrite (Hr : p = None) in *. do 2 eexists. split_and!; [done|done|by apply same_core_links|].
    intros y Hy _. by apply lookup_insert_ne. }
  pose proof Hr as (x & l & ex & -> & -> & Hx & Hk & _). rewrite Hx. cbn [mbind option_bind].
  rewrite le_key, Hk. destruct (key_ltb_spec k (key e)) as [Hlt|Hnlt]; cbn [negb].
  - destruct (insert_after_ok (base.size h) h event e k x l bs) as (h' & -> & Hrep & Hc & Hf);
      try done; [cbn in Hfuel; lia|].
    cbn [mbind option_bind]. exists h', (Some x). split_and!; try done.
    cbn [bins_insert]. by destruct (key_ltb_spec k (key e)).
  - destruct (insertBefore_ok h event e (Some x) ((k, x :: l) :: bs) He Hni Hr)
      as (b & i & Hi & Hrep); [by intros ? ? [= <- <-]|].
    do 2 eexists. split_and!; [done|done|by apply same_core_links|].
    intros y Hy _. by apply lookup_insert_ne.
Qed.

End Insert.

(** A bin without an event; an empty bin disappears. *)
Definition bin_erase (k : Key) (x : nat) (b : list nat) (bs : Bins) : Bins :=
  match list_erase x b with
  | Some [] => bs
  | Some b' => (k, b') :: bs
  | None => (k, b) :: bs
  end.

Section Remove.
Implicit Types (h : Store) (bs : Bins) (e : Event.t).

Lemma item_walk_ok fuel h event k curr cv l :
  h !! curr = Some cv → in_chain h k (Event.nextInBin cv) l → event ∈ l →
  NoDup (curr :: l) → (length l <= S fuel)%nat →
  ∃ h' cv' l', item_walk fuel h event curr (Event.nextInBin cv) = Some h' ∧
    list_erase event l = Some l' ∧ h' !! curr = Some cv' ∧
    Event.nextBin cv' = Event.nextBin cv ∧ in_chain h' k (Event.nextInBin cv') l' ∧
    same_core h h' ∧ ∀ y, y ∉ curr :: l → h' !! y = h !! y.
Proof.
  revert fuel curr cv. induction l as [|n l IH]; intros fuel curr cv Hcv Hc Hin Hnd Hlen;
    [set_solver|].
  destruct Hc as (Hn & nv & Hnv & Hkn & Hc). rewrite Hn.
  apply NoDup_cons in Hnd as [Hcl Hnd]. pose proof Hnd as [Hnl Hnd']%NoDup_cons.
  cbn [list_erase]. destruct (decide (n = event)) as [->|Hne].
  - exists (<[curr := Event.set_nextInBin (Event.nextInBin nv) cv]> h),
      (Event.set_nextInBin (Event.nextInBin nv) cv), l.
    rewrite lookup_insert_eq. split_and!; try done.
    + destruct fuel; cbn [item_walk]; rewrite Hnv; cbn [mbind option_bind];
        rewrite Nat.eqb_refl; by apply upd_eq.
    + eapply in_chain_same; [|done]. intros y Hy. apply lookup_insert_ne. set_solver.
    + by apply same_core_links.
    + intros y Hy. apply lookup_insert_ne. set_solver.
  - destruct fuel as [|fuel]; [destruct l; [set_solver|cbn in Hlen; lia]|].
    destruct (IH fuel n nv) as (h' & nv' & l' & Hw & He & Hn' & _ & Hc' & Hcore & Hf);
      [done|done|set_solver|done|cbn in Hlen; lia|].
    cbn [item_walk]. rewrite Hnv. cbn [mbind option_bind]. rewrite (proj2 (Nat.eqb_neq n event) Hne).
    rewrite He. exists h', cv, (n :: l'). split_and!; try done.
    + rewrite Hf; [done|set_solver].
    + rewrite Hn. split; [done|]. exists nv'. split_and!; try done.
      pose proof (Hcore n) as Hcn. rewrite Hn', Hnv in Hcn. cbn in Hcn.
      injection Hcn as Hw1 Hw2 _. unfold key in *. congruence.
    + intros y Hy. apply Hf. set_solver.
Qed.

Lemma removeItem_ok h event k x l bs :
  bins_rep h (Some x) ((k, x :: l) :: bs) → NoDup (x :: l ++ elems bs) → event ∈ x :: l →
  ∃ h' p, removeItem h event x = Some (h', p) ∧
    bins_rep h' p (bin_erase k event (x :: l) bs) ∧ same_core h h' ∧
    ∀ y, y ∉ x :: l → h' !! y = h !! y.
Proof.
  intros Hr Hnd Hin. pose proof Hr as (x' & l' & ex & [= <- <-] & _ & Hx & Hk & Hc & Hb).
  unfold removeItem, bin_erase. rewrite Hx. cbn [mbind option_bind list_erase].
  apply NoDup_cons in Hnd as [Hxl Hnd]. apply NoDup_app in Hnd as (Hndl & Hdis & Hndb).
  destruct (decide (x = event)) as [->|Hne].
  - rewrite Nat.eqb_refl. destruct l as [|n l].
    { rewrite (Hc : Event.nextInBin ex = None). exists h, (Event.nextBin ex). done. }
    destruct Hc as (Hn & nv & Hnv & Hkn & Hc). rewrite Hn.
    rewrite (upd_eq _ _ _ _ Hnv). cbn [mbind option_bind].
    apply NoDup_cons in Hndl as [Hnl _].
    do 2 eexists. split_and!; [done| |by apply same_core_links|].
    + apply bins_rep_relink; try done. set_solver.
    + intros y Hy. apply lookup_insert_ne. set_solver.
  - rewrite (proj2 (Nat.eqb_neq event x) (not_eq_sym Hne)).
    destruct (item_walk_ok (base.size h) h event k x ex l) as (h' & ex' & l' & -> & -> & Hx' & Hnb & Hc' & Hcore & Hf);
      try done; [set_solver|constructor; [set_solver|done]| |].
    { transitivity (base.size h); [|lia]. apply live_size; [done|]. intros y Hy.
      destruct (in_chain_elem _ _ _ _ _ Hc Hy) as (e & -> & _). by eexists. }
    cbn [mbind option_bind]. exists h', (Some x). split_and!; try done.
    exists x, l', ex'. split_and!; try done.
    + pose proof (Hcore x) as Hcx. rewrite Hx, Hx' in Hcx. cbn in Hcx.
      injection Hcx as ? ? _. unfold key in *. congruence.
    + rewrite Hnb. eapply bins_rep_same; [|done]. intros y Hy. apply Hf. set_solver.
Qed.

Lemma bins_remove_here k x b bs : bins_remove k x ((k, b) :: bs) = bin_erase k x b bs.
Proof. cbn [bins_remove]. destruct (key_ltb_spec k k) as [[]%key_lt_irrefl|]; done. Qed.

Lemma bins_remove_later k0 b0 k x bs :
  key_lt k0 k → bins_remove k x ((k0, b0) :: bs) = (k0, b0) :: bins_remove k x bs.
Proof. intros Hlt. cbn [bins_remove]. by destruct (key_ltb_spec k0 k). Qed.

Lemma elem_bins_remove k x bs y : y ∈ elems (bins_remove k x bs) → y ∈ elems bs.
Proof.
  induction bs as [|[k' b] bs IH]; cbn [bins_remove]; [done|].
  destruct (key_ltb k' k); [rewrite !elems_cons, !elem_of_app; tauto|].
  destruct (list_erase x b) as [[|z b']|] eqn:E; [|apply list_erase_perm in E|done];
    rewrite !elems_cons, !elem_of_app; [tauto|]. rewrite E. set_solver.
Qed.

(** The key of the head of the bins bounds the keys of the others. *)
Lemma sorted_cons k b bs : sorted ((k, b) :: bs) → sorted bs ∧ ∀ k' b', (k', b') ∈ bs → key_lt k k'.
Proof.
  intros [Hs Hf]%StronglySorted_inv. split; [done|]. rewrite Forall_forall in Hf.
  intros k' b' Hin. apply Hf. apply list_elem_of_fmap. by exists (k', b').
Qed.

Lemma remove_after_ok fuel h event e k x l bs b :
  h !! event = Some e → (key e, b) ∈ bs → event ∈ b →
  bins_rep h (Some x) ((k, x :: l) :: bs) → NoDup (elems ((k, x :: l) :: bs)) →
  sorted ((k, x :: l) :: bs) → (length bs <= fuel)%nat →
  ∃ h', remove_after fuel h event x = Some h' ∧
    bins_rep h' (Some x) ((k, x :: l) :: bins_remove (key e) event bs) ∧
    same_core h h' ∧ ∀ y, y ∉ elems ((k, x :: l) :: bs) → h' !! y = h !! y.
Proof.
  revert fuel k x l. induction bs as [|[k1 b1] bs IH]; intros fuel k x l He Hb0 Hin Hr Hnd Hs Hlen;
    [set_solver|].
  destruct Hr as (x' & l' & ex & [= <- <-] & _ & Hx & Hk & Hc & Hb).
  rewrite !elems_cons in Hnd. pose proof Hnd as (Hnd1 & Hdis & Hnd2)%NoDup_app.
  pose proof Hnd1 as [Hxl _]%NoDup_cons. apply sorted_cons in Hs as [Hs _].
  pose proof (sorted_cons _ _ _ Hs) as [_ Hlt1].
  pose proof Hb as (c & l1 & ec & -> & Hcx & Hcl & Hk1 & Hc1 & Hb1). rewrite Hcx in Hb.
  unfold remove_after. rewrite He. cbn [mbind option_bind]. rewrite Hx. cbn [mbind option_bind].
  rewrite Hcx. apply elem_of_cons in Hb0 as [[= <- ->]|Hb0].
  - assert (bin_walk fuel h e x (Some c) = Some (x, Some c)) as ->.
    { destruct fuel; cbn [bin_walk]; rewrite Hcl; cbn [mbind option_bind]; rewrite lt_key, Hk1;
        destruct (key_ltb_spec (key e) (key e)) as [[]%key_lt_irrefl|]; done. }
    cbn [mbind option_bind]. rewrite Hcl. cbn [mbind option_bind].
    rewrite ne_key, Hk1, bool_decide_eq_true_2 by done. cbn [negb].
    destruct (removeItem_ok h event (key e) c l1 bs) as (h' & p & -> & Hrep & Hcore & Hf); try done.
    cbn [mbind option_bind]. rewrite bins_remove_here.
    erewrite upd_eq by (rewrite Hf; [done|set_solver]). eexists. split_and!; [done| | |].
    + apply bins_rep_relink; try done; [rewrite Hf; [done|set_solver]| |].
      * eapply in_chain_same; [|done]. intros y Hy. apply Hf. set_solver.
      * rewrite <- bins_remove_here. intros Hx'%elem_bins_remove. rewrite elems_cons in Hx'. set_solver.
    + etrans; [exact Hcore|]. apply same_core_links. rewrite Hf; [done|set_solver].
    + intros y Hy. rewrite !elems_cons in Hy. rewrite lookup_insert_ne by set_solver. apply Hf. set_solver.
  - pose proof (Hlt1 _ _ Hb0) as Hlt. destruct fuel as [|fuel]; [cbn in Hlen; lia|].
    destruct (IH fuel k1 c l1) as (h' & Hi & Hrep & Hcore & Hf); try done; [cbn in Hlen; lia|].
    unfold remove_after in Hi. rewrite He in Hi. cbn [mbind option_bind] in Hi.
    rewrite Hcl in Hi. cbn [mbind option_bind] in Hi. rewrite elems_cons in Hf.
    cbn [bin_walk]. rewrite Hcl. cbn [mbind option_bind]. rewrite lt_key, Hk1.
    destruct (key_ltb_spec k1 (key e)); [|done].
    exists h'. rewrite bins_remove_later by done. split_and!; [exact Hi| |done|].
    + exists x, l, ex. rewrite (Hf x) by set_solver. split_and!; try done; [|by rewrite Hcx].
      eapply in_chain_same; [|done]. intros y Hy. apply Hf. set_solver.
    + intros y Hy. apply Hf. rewrite !elems_cons in Hy. set_solver.
Qed.

Lemma queue_remove_ok h p event e bs :
  h !! event = Some e → event ∈ elems bs → bins_rep h p bs → NoDup (elems bs) → sorted bs →
  ∃ h' p', remove h p event = Some (h', p') ∧
    bins_rep h' p' (bins_remove (key e) event bs) ∧ same_core h h' ∧
    ∀ y, y ∉ elems bs → h' !! y = h !! y.
Proof.
  intros He (kb & b & Hb & Hin)%elems_elem Hr Hnd Hs.
  destruct (bins_rep_elem _ _ _ _ _ _ Hr Hb Hin) as (e' & He' & Hkb). simplify_eq.
  pose proof (bins_fuel _ _ _ Hr Hnd) as Hfuel. destruct bs as [|[k b1] bs]; [set_solver|].
  pose proof Hr as (x & l & ex & -> & -> & Hx & Hk & _).
  unfold remove. cbn [mbind option_bind]. rewrite Hx. cbn [mbind option_bind].
  rewrite He. cbn [mbind option_bind]. rewrite eq_key, Hk.
  destruct (sorted_cons _ _ _ Hs) as [_ Hlt]. apply elem_of_cons in Hb as [[= <- ->]|Hb].
  - rewrite bool_decide_eq_true_2 by done.
    destruct (removeItem_ok h event (key e) x l bs) as (h' & p & -> & Hrep & Hcore & Hf); try done.
    exists h', p. rewrite bins_remove_here. split_and!; try done.
    intros y Hy. apply Hf. rewrite elems_cons in Hy. set_solver.
  - specialize (Hlt _ _ Hb). rewrite bool_decide_eq_false_2
      by (intros ->; by apply (key_lt_irrefl (key e))).
    destruct (remove_after_ok (base.size h) h event e k x l bs b) as (h' & -> & Hrep & Hcore & Hf);
      try done; [cbn in Hfuel; lia|].
    cbn [mbind option_bind]. exists h', (Some x). by rewrite bins_remove_later.
Qed.

End Remove.
