(* ===== verification/EventRefine.v ===== *)
(** * The event queue is a sorted list

    The queue of [EventQueue] against a reference machine whose queue is a list
    sorted by time and priority, call by call. *)

From S2P Require Import Prelude Packet EventQueue.

(** ** The reference queue: a sorted list *)

Definition flat (bs : Bins) : list (Key * nat) := '(k, b) ← bs; pair k <$> b.

(** An event goes in front of the first event that is not before it. *)
Fixpoint ref_insert (k : Key) (x : nat) (l : list (Key * nat)) : list (Key * nat) :=
  match l with
  | [] => [(k, x)]
  | (k', y) :: l' => if key_ltb k' k then (k', y) :: ref_insert k x l' else (k, x) :: l
  end.

Fixpoint ref_remove (x : nat) (l : list (Key * nat)) : list (Key * nat) :=
  match l with
  | [] => []
  | (k, y) :: l => if (y =? x)%nat then l else (k, y) :: ref_remove x l
  end.

Section Flat.
Implicit Types (bs : Bins).

Lemma flat_cons k b bs : flat ((k, b) :: bs) = (pair k <$> b) ++ flat bs.
Proof. done. Qed.

Lemma flat_elems bs : (flat bs).*2 = elems bs.
Proof.
  induction bs as [|[k b] bs IH]; [done|]. rewrite flat_cons, fmap_app, IH, elems_cons. f_equal.
  rewrite <- list_fmap_compose. apply list_fmap_id.
Qed.

Lemma ref_insert_skip k x k' b l :
  key_lt k' k → ref_insert k x ((pair k' <$> b) ++ l) = (pair k' <$> b) ++ ref_insert k x l.
Proof.
  intros Hk. induction b as [|y b IH]; [done|]. cbn. rewrite IH. by destruct (key_ltb_spec k' k).
Qed.

Lemma flat_insert k x bs :
  Forall (λ p, p.2 ≠ []) bs → flat (bins_insert k x bs) = ref_insert k x (flat bs).
Proof.
  induction bs as [|[k' b] bs IH]; intros Hne; [done|]. apply Forall_cons in Hne as [Hb Hne].
  cbn [bins_insert]. rewrite flat_cons. destruct (key_ltb_spec k' k) as [Hlt|Hnlt].
  - by rewrite flat_cons, IH, ref_insert_skip.
  - destruct b as [|y b]; [done|]. cbn. destruct (key_ltb_spec k' k); [done|].
    destruct (key_ltb_spec k k') as [|Hnlt']; [done|]. by rewrite (key_total _ _ Hnlt Hnlt').
Qed.

Lemma ref_remove_skip x k' b l :
  x ∉ b → ref_remove x ((pair k' <$> b) ++ l) = (pair k' <$> b) ++ ref_remove x l.
Proof.
  intros Hx. induction b as [|y b IH]; [done|]. cbn.
  rewrite (proj2 (Nat.eqb_neq y x)) by set_solver. rewrite IH by set_solver. done.
Qed.

Lemma ref_remove_erase x k b b' l :
  list_erase x b = Some b' → ref_remove x ((pair k <$> b) ++ l) = (pair k <$> b') ++ l.
Proof.
  revert b'. induction b as [|y b IH]; intros b' E; cbn in E |- *; [done|].
  destruct (decide (y = x)) as [->|Hne]; [injection E as <-; by rewrite Nat.eqb_refl|].
  destruct (list_erase x b) as [b1|]; [|done]. injection E as <-.
  rewrite (proj2 (Nat.eqb_neq y x) Hne). cbn. by rewrite (IH b1).
Qed.

Lemma flat_erase k x b bs : x ∈ b → flat (bin_erase k x b bs) = ref_remove x (flat ((k, b) :: bs)).
Proof.
  intros Hx. unfold bin_erase. destruct (list_erase_Some x b Hx) as [b' E]. rewrite E.
  rewrite flat_cons, (ref_remove_erase x k b b' _ E). by destruct b'.
Qed.

Lemma flat_remove k x b bs :
  (k, b) ∈ bs → x ∈ b → NoDup (elems bs) → sorted bs →
  flat (bins_remove k x bs) = ref_remove x (flat bs).
Proof.
  induction bs as [|[k' b'] bs IH]; [set_solver|]. intros Hb Hx Hnd Hs.
  destruct (sorted_cons _ _ _ Hs) as [Hs' Hlt]. rewrite elems_cons in Hnd.
  apply NoDup_app in Hnd as (_ & Hdis & Hnd). apply elem_of_cons in Hb as [[= <- <-]|Hb].
  - rewrite bins_remove_here. by apply flat_erase.
  - rewrite bins_remove_later by (by eapply Hlt). rewrite !flat_cons, IH by done.
    rewrite ref_remove_skip; [done|]. intros Hin. apply (Hdis x Hin). apply elems_elem. eauto.
Qed.

Lemma ref_insert_perm k x l : ref_insert k x l ≡ₚ (k, x) :: l.
Proof.
  induction l as [|[k' y] l IH]; [done|]. cbn. destruct (key_ltb k' k); [|done].
  rewrite IH. apply Permutation_swap.
Qed.

Lemma ref_remove_perm k x l : (k, x) ∈ l → NoDup l.*2 → l ≡ₚ (k, x) :: ref_remove x l.
Proof.
  induction l as [|[k' y] l IH]; [set_solver|]. intros Hin Hnd. cbn in Hnd |- *.
  apply NoDup_cons in Hnd as [Hy Hnd]. apply elem_of_cons in Hin as [[= <- <-]|Hin].
  - by rewrite Nat.eqb_refl.
  - destruct (Nat.eqb_spec y x) as [->|].
    + destruct Hy. apply list_elem_of_fmap. by exists (k, x).
    + rewrite (IH Hin Hnd) at 1. apply Permutation_swap.
Qed.

Lemma bins_insert_keys k x bs y : y ∈ (bins_insert k x bs).*1 → y = k ∨ y ∈ bs.*1.
Proof.
  induction bs as [|[k' b] bs IH]; cbn [bins_insert]; [set_solver|].
  destruct (key_ltb k' k); [|destruct (key_ltb k k')]; set_solver.
Qed.

Lemma sorted_insert k x bs : sorted bs → sorted (bins_insert k x bs).
Proof.
  unfold sorted. induction bs as [|[k' b] bs IH]; intros Hs; cbn [bins_insert].
  { by repeat constructor. }
  pose proof Hs as [Hs' Hf]%StronglySorted_inv. destruct (key_ltb_spec k' k) as [Hlt|Hnlt].
  - cbn. constructor; [by apply IH|]. apply Forall_forall. intros y [->|Hy]%bins_insert_keys; [done|].
    by eapply Forall_forall in Hf.
  - destruct (key_ltb_spec k k') as [Hlt|Hnlt']; [|done].
    constructor; [done|]. constructor; [done|]. eapply Forall_impl; [exact Hf|].
    intros y. by apply key_lt_trans.
Qed.

Lemma sorted_remove k x bs : sorted bs → sorted (bins_remove k x bs).
Proof.
  unfold sorted. apply StronglySorted_sublist. induction bs as [|[k' b] bs IH]; cbn [bins_remove]; [done|].
  destruct (key_ltb k' k); [cbn; by constructor|].
  destruct (list_erase x b) as [[|z b']|]; [by apply sublist_cons|done|done].
Qed.

Lemma bins_nonempty h p bs : bins_rep h p bs → Forall (λ p, p.2 ≠ []) bs.
Proof.
  revert p. induction bs as [|[k b] bs IH]; intros p; [constructor|].
  intros (x & l & e & -> & _ & _ & _ & _ & Hb). constructor; [done|by eapply IH].
Qed.

End Flat.

(** ** The reference machine *)

Definition strip (e : Event.t) : Event.t := Event.with_links e None None.

Record RefState := mkRef {
  r_events : Store;
  r_list : list (Key * nat);
  r_main : bool;
  r_now : Z;
  r_traced : bool
}.

Definition ref_with (r : RefState) (h : Store) (l : list (Key * nat)) : RefState :=
  mkRef h l (r_main r) (r_now r) (r_traced r).

Definition ref_schedule (r : RefState) (event : nat) (when : Z) : option RefState :=
  e ← r_events r !! event;
  if (u64 (r_now r) <=? u64 when) && negb (Event.scheduled e) && Event.initialized e then
    let e' := Event.setWhen when e in
    Some (ref_with r (<[event := mark_queue (r_main r) (Event.set_flags Event.Scheduled e')]> (r_events r))
            (ref_insert (key e') event (r_list r)))
  else None.

Definition ref_deschedule (r : RefState) (event : nat) : option RefState :=
  e ← r_events r !! event;
  if Event.scheduled e && Event.initialized e && negb (Event.autoDelete e && r_traced r) then
    let e' := Event.clear_flags Event.Scheduled (Event.clear_flags Event.Squashed e) in
    Some (ref_with r (if Event.autoDelete e then delete event (r_events r)
                      else <[event := e']> (r_events r))
            (ref_remove event (r_list r)))
  else None.

Definition ref_reschedule (r : RefState) (event : nat) (when : Z) (always : bool) : option RefState :=
  e ← r_events r !! event;
  if (r_now r <=? when) && (always || Event.scheduled e) && Event.initialized e then
    let e' := Event.setWhen when e in
    Some (ref_with r
            (<[event := mark_queue (r_main r)
                          (Event.set_flags Event.Scheduled (Event.clear_flags Event.Squashed e'))]> (r_events r))
            (ref_insert (key e') event (ref_remove event (r_list r))))
  else None.

(** The calls that change an event but not the queue. *)
Definition ref_modify (r : RefState) (event : nat) (ok : bool) (f : Event.t → Event.t) : option RefState :=
  if ok then e ← r_events r !! event; Some (ref_with r (<[event := f e]> (r_events r)) (r_list r)) else None.

Definition ref_call (r : RefState) (c : Call) : option RefState :=
  match c with
  | CNew e p w =>
      match r_events r !! e with
      | Some _ => None
      | None => Some (ref_with r (<[e := Event.new p w]> (r_events r)) (r_list r))
      end
  | CDelete e =>
      v ← r_events r !! e;
      if Event.scheduled v then None else Some (ref_with r (delete e (r_events r)) (r_list r))
  | CSchedule e t => ref_schedule r e t
  | CDeschedule e => ref_deschedule r e
  | CReschedule e t a => ref_reschedule r e t a
  | CSetFlags e f => ref_modify r e (Flags.noneSet f (Z.lnot Event.PublicWrite)) (Event.set_flags f)
  | CClearFlags e f => ref_modify r e (Flags.noneSet f (Z.lnot Event.PublicWrite)) (Event.clear_flags f)
  | CSquash e => ref_modify r e true (Event.set_flags Event.Squashed)
  end.

Fixpoint ref_run (r : RefState) (cs : list Call) : option RefState :=
  match cs with
  | [] => Some r
  | c :: cs => r' ← ref_call r c; ref_run r' cs
  end.

(** ** The invariant *)

Record ev_ok (s : EvState) (bs : Bins) : Prop := {
  ok_rep : bins_rep (events s) (head s) bs;
  ok_sorted : sorted bs;
  ok_nodup : NoDup (elems bs);
  ok_flag : ∀ x e, events s !! x = Some e → Event.scheduled e = true ↔ x ∈ elems bs
}.

Definition abs (s : EvState) (bs : Bins) : RefState :=
  mkRef (strip <$> events s) (flat bs) (isMain s) (curTick s) (traced s).

(** The two machines agree: both refuse, or both succeed in related states. *)
Definition agree (os : option EvState) (or : option RefState) : Prop :=
  match os, or with
  | Some s, Some r => ∃ bs, ev_ok s bs ∧ r = abs s bs
  | None, None => True
  | _, _ => False
  end.

Section FlagBits.
Implicit Types (e : Event.t).

Lemma scheduled_bit e : Event.scheduled e = Z.testbit (Event.flags e) 1.
Proof. apply (testbit_flag _ 1). lia. Qed.

Lemma autoDelete_bit e : Event.autoDelete e = Z.testbit (Event.flags e) 2.
Proof. apply (testbit_flag _ 2). lia. Qed.

Lemma scheduled_set_other f e : Z.testbit f 1 = false → Event.scheduled (Event.set_flags f e) = Event.scheduled e.
Proof.
  intros Hf. rewrite !scheduled_bit. cbn -[Z.testbit]. unfold Flags.set.
  by rewrite Z.lor_spec, Hf, orb_false_r.
Qed.

Lemma scheduled_clear_other f e : Z.testbit f 1 = false → Event.scheduled (Event.clear_flags f e) = Event.scheduled e.
Proof.
  intros Hf. rewrite !scheduled_bit. cbn -[Z.testbit]. unfold Flags.clear.
  by rewrite Z.ldiff_spec, Hf, andb_true_r.
Qed.

Lemma scheduled_set e : Event.scheduled (Event.set_flags Event.Scheduled e) = true.
Proof. rewrite scheduled_bit. cbn -[Z.testbit]. unfold Flags.set. rewrite Z.lor_spec. apply orb_true_r. Qed.

Lemma scheduled_clear e : Event.scheduled (Event.clear_flags Event.Scheduled e) = false.
Proof. rewrite scheduled_bit. cbn -[Z.testbit]. unfold Flags.clear. rewrite Z.ldiff_spec. apply andb_false_r. Qed.

Lemma scheduled_mark m e : Event.scheduled (mark_queue m e) = Event.scheduled e.
Proof. destruct m; cbn; [by apply scheduled_set_other|by apply scheduled_clear_other]. Qed.

Lemma public_write f : Flags.noneSet f (Z.lnot Event.PublicWrite) = true → Z.testbit f 1 = false.
Proof.
  intros Hf. apply Z.eqb_eq in Hf.
  assert (Z.testbit (Z.land f (Z.lnot Event.PublicWrite)) 1 = false) as Hb by (by rewrite Hf).
  rewrite Z.land_spec in Hb. replace (Z.testbit (Z.lnot Event.PublicWrite) 1) with true in Hb by done.
  by rewrite andb_true_r in Hb.
Qed.

Lemma autoDelete_clear f e : Z.testbit f 2 = false → Event.autoDelete (Event.clear_flags f e) = Event.autoDelete e.
Proof.
  intros Hf. rewrite !autoDelete_bit. cbn -[Z.testbit]. unfold Flags.clear.
  by rewrite Z.ldiff_spec, Hf, andb_true_r.
Qed.

Lemma core_scheduled e e' : core e' = core e → Event.scheduled e' = Event.scheduled e.
Proof. unfold Event.scheduled. by intros [= _ _ ->]. Qed.

Lemma core_strip e e' : core e' = core e → strip e' = strip e.
Proof. intros [= H1 H2 H3]. unfold strip, Event.with_links. by rewrite H1, H2, H3. Qed.

Lemma core_key e e' : core e' = core e → key e' = key e.
Proof. unfold key. by intros [= -> -> _]. Qed.

End FlagBits.

Section Simulation.
Implicit Types (s : EvState) (bs : Bins) (e : Event.t).

Lemma same_core_lookup h h' x e :
  same_core h h' → h !! x = Some e → ∃ e', h' !! x = Some e' ∧ core e' = core e.
Proof.
  intros Hc Hx. specialize (Hc x). rewrite Hx in Hc. destruct (h' !! x) as [e'|]; [|done].
  exists e'. by apply (inj Some) in Hc.
Qed.

Lemma same_core_lookup_r h h' x e' :
  same_core h h' → h' !! x = Some e' → ∃ e, h !! x = Some e ∧ core e' = core e.
Proof.
  intros Hc Hx. specialize (Hc x). rewrite Hx in Hc. destruct (h !! x) as [e|]; [|done].
  exists e. by apply (inj Some) in Hc.
Qed.

Lemma same_core_strip h h' : same_core h h' → strip <$> h' = strip <$> h.
Proof.
  intros Hc. apply map_eq. intros x. rewrite !lookup_fmap. specialize (Hc x).
  destruct (h !! x) as [e|], (h' !! x) as [e'|]; try done. apply (inj Some) in Hc.
  cbn. f_equal. by apply core_strip.
Qed.

Lemma scheduled_in s bs x e :
  ev_ok s bs → events s !! x = Some e → Event.scheduled e = false → x ∉ elems bs.
Proof. intros Hok Hx Hs Hin. apply (ok_flag _ _ Hok x e Hx) in Hin. congruence. Qed.

(** A change of the flags of an event that keeps [Scheduled]. *)
Lemma ev_ok_modify s bs x e (f : Event.t → Event.t) :
  ev_ok s bs → events s !! x = Some e → Event.scheduled (f e) = Event.scheduled e →
  key (f e) = key e → Event.nextBin (f e) = Event.nextBin e →
  Event.nextInBin (f e) = Event.nextInBin e →
  ev_ok (with_events s (<[x := f e]> (events s))) bs.
Proof.
  intros [Hr Hs Hn Hf] Hx Hsch Hk H1 H2. constructor; cbn; try done.
  - eapply bins_rep_frame; [|exact Hr]. intros y ey Hy Hey.
    destruct (decide (y = x)) as [->|]; [|rewrite lookup_insert_ne by done; by exists ey].
    rewrite lookup_insert_eq. rewrite Hx in Hey. injection Hey as <-. by exists (f e).
  - intros y ey. destruct (decide (y = x)) as [->|]; [|rewrite lookup_insert_ne by done; apply Hf].
    rewrite lookup_insert_eq. intros [= <-]. rewrite Hsch. by apply Hf.
Qed.

(** An event outside of the queue may change at will. *)
Lemma ev_ok_outside s bs x h :
  ev_ok s bs → x ∉ elems bs → (∀ y, y ≠ x → h !! y = events s !! y) →
  (∀ e, h !! x = Some e → Event.scheduled e = false) → ev_ok (with_events s h) bs.
Proof.
  intros [Hr Hs Hn Hf] Hx Hh He. constructor; cbn; try done.
  - eapply bins_rep_same; [|exact Hr]. intros y Hy. apply Hh. set_solver.
  - intros y ey Hy. destruct (decide (y = x)) as [->|Hne].
    + rewrite (He ey Hy). split; [done|]. intros Hin. done.
    + rewrite Hh in Hy by done. by apply Hf.
Qed.

(** The tail of [schedule] and [reschedule]. *)
Definition enqueue (s : EvState) (h : Store) (p : option nat) (event : nat) (when : Z)
    (f : Event.t → Event.t) : option EvState :=
  h ← upd h event (Event.setWhen when);
  '(h, hd) ← insert h p event;
  h ← upd h event f;
  Some (with_queue s h hd).

Lemma enqueue_ok s h p bs event e when f :
  h !! event = Some e → event ∉ elems bs → bins_rep h p bs → sorted bs → NoDup (elems bs) →
  (∀ x ex, h !! x = Some ex → x ≠ event → Event.scheduled ex = true ↔ x ∈ elems bs) →
  (∀ e, Event.scheduled (f e) = true) →
  (∀ e, key (f e) = key e ∧ Event.nextBin (f e) = Event.nextBin e ∧
        Event.nextInBin (f e) = Event.nextInBin e ∧ strip (f e) = f (strip e)) →
  ∃ s', enqueue s h p event when f = Some s' ∧
    ev_ok s' (bins_insert (key (Event.setWhen when e)) event bs) ∧
    abs s' (bins_insert (key (Event.setWhen when e)) event bs) =
      mkRef (<[event := f (Event.setWhen when (strip e))]> (strip <$> h))
        (ref_insert (key (Event.setWhen when e)) event (flat bs)) (isMain s) (curTick s) (traced s).
Proof.
  intros He Hni Hr Hs Hn Hf Hfs Hfk. unfold enqueue. rewrite (upd_eq _ _ _ _ He).
  cbn [mbind option_bind]. set (e1 := Event.setWhen when e). set (h1 := <[event := e1]> h).
  assert (h1 !! event = Some e1) as He1 by apply lookup_insert_eq.
  assert (bins_rep h1 p bs) as Hr1.
  { eapply bins_rep_same; [|exact Hr]. intros y Hy. apply lookup_insert_ne. set_solver. }
  destruct (queue_insert_ok h1 p event e1 bs He1 Hni Hr1 Hn) as (h2 & p2 & -> & Hr2 & Hc & _).
  cbn [mbind option_bind]. destruct (same_core_lookup _ _ _ _ Hc He1) as (e2 & He2 & Hc2).
  rewrite (upd_eq _ _ _ _ He2). cbn [mbind option_bind]. eexists. split; [done|].
  destruct (Hfk e2) as (Hk2 & Hb2 & Hi2 & Hs2). split.
  - constructor; cbn.
    + eapply bins_rep_frame; [|exact Hr2]. intros y ey Hy Hey.
      destruct (decide (y = event)) as [->|]; [|rewrite lookup_insert_ne by done; by exists ey].
      rewrite lookup_insert_eq. rewrite He2 in Hey. injection Hey as <-. by exists (f e2).
    + by apply sorted_insert.
    + rewrite <- flat_elems, flat_insert, ref_insert_perm by (by eapply bins_nonempty).
      cbn. rewrite flat_elems. by constructor.
    + intros x ex. rewrite elem_bins_insert. destruct (decide (x = event)) as [->|Hne].
      * rewrite lookup_insert_eq. intros [= <-]. rewrite Hfs. tauto.
      * rewrite lookup_insert_ne by done. intros Hx.
        destruct (same_core_lookup_r _ _ _ _ Hc Hx) as (ex0 & Hx0 & Hcx).
        rewrite (core_scheduled _ _ Hcx). unfold h1 in Hx0. rewrite lookup_insert_ne in Hx0 by done.
        rewrite (Hf x ex0 Hx0 Hne). tauto.
  - unfold abs. cbn. f_equal; [|by apply flat_insert; eapply bins_nonempty].
    rewrite fmap_insert, (same_core_strip _ _ Hc). unfold h1. rewrite fmap_insert, insert_insert_eq.
    by rewrite Hs2, (core_strip _ _ Hc2).
Qed.

(** A scheduled event is found and taken out. *)
Lemma dequeue_ok s bs x e :
  ev_ok s bs → events s !! x = Some e → Event.scheduled e = true →
  ∃ h p e', remove (events s) (head s) x = Some (h, p) ∧ h !! x = Some e' ∧ core e' = core e ∧
    same_core (events s) h ∧
    ∃ bs', bins_rep h p bs' ∧ sorted bs' ∧ NoDup (elems bs') ∧ x ∉ elems bs' ∧
      (∀ y, y ≠ x → y ∈ elems bs' ↔ y ∈ elems bs) ∧ flat bs' = ref_remove x (flat bs).
Proof.
  intros [Hr Hs Hn Hf] Hx Hsch. pose proof (proj1 (Hf x e Hx) Hsch) as Hin.
  destruct (queue_remove_ok (events s) (head s) x e bs Hx Hin Hr Hn Hs) as (h & p & -> & Hr' & Hc & _).
  destruct (same_core_lookup _ _ _ _ Hc Hx) as (e' & He' & Hc').
  exists h, p, e'. split_and!; [done..|]. exists (bins_remove (key e) x bs).
  apply elems_elem in Hin as (k & b & Hb & Hxb).
  destruct (bins_rep_elem _ _ _ _ _ _ Hr Hb Hxb) as (e1 & He1 & Hk). simplify_eq.
  pose proof (flat_remove _ _ _ _ Hb Hxb Hn Hs) as Hfl.
  assert (elems bs ≡ₚ x :: elems (bins_remove (key e) x bs)) as Hp.
  { rewrite <- !flat_elems, Hfl. change (x :: (ref_remove x (flat bs)).*2)
      with (((key e, x) :: ref_remove x (flat bs)).*2). f_equiv. apply ref_remove_perm.
    - unfold flat. apply list_elem_of_bind. exists (key e, b). split; [|done].
      apply list_elem_of_fmap. by exists x.
    - by rewrite flat_elems. }
  pose proof Hn as Hn'. rewrite Hp in Hn'. apply NoDup_cons in Hn' as [Hnx Hn'].
  split_and!; try done; [by apply sorted_remove|]. intros y Hy. rewrite Hp. set_solver.
Qed.

Lemma abs_lookup s bs x : r_events (abs s bs) !! x = strip <$> events s !! x.
Proof. apply lookup_fmap. Qed.

Lemma schedule_agree s bs x t :
  ev_ok s bs → agree (schedule s x t) (ref_schedule (abs s bs) x t).
Proof.
  intros Hok. unfold schedule, ref_schedule. rewrite abs_lookup.
  destruct (events s !! x) as [e|] eqn:Hx; cbn [fmap option_fmap option_map mbind option_bind]; [|done].
  change (Event.scheduled (strip e)) with (Event.scheduled e).
  change (Event.initialized (strip e)) with (Event.initialized e). cbn [abs r_now].
  destruct (_ && _ && _) eqn:Hg; [|done]. zbool.
  pose proof (scheduled_in _ _ _ _ Hok Hx ltac:(done)) as Hni. destruct Hok as [Hr Hs Hn Hf].
  destruct (enqueue_ok s (events s) (head s) bs x e t
    (λ e, mark_queue (isMain s) (Event.set_flags Event.Scheduled e))) as (s' & Hq & Hok' & Habs);
    try done; [intros; by apply Hf|intros; rewrite scheduled_mark; apply scheduled_set
              |intros; by destruct (isMain s)|].
  unfold enqueue in Hq. rewrite Hq. eexists. split; [done|]. by rewrite Habs.
Qed.

Lemma deschedule_agree s bs x :
  ev_ok s bs → agree (deschedule s x) (ref_deschedule (abs s bs) x).
Proof.
  intros Hok. unfold deschedule, ref_deschedule. rewrite abs_lookup.
  destruct (events s !! x) as [e|] eqn:Hx; cbn [fmap option_fmap option_map mbind option_bind]; [|done].
  change (Event.scheduled (strip e)) with (Event.scheduled e).
  change (Event.autoDelete (strip e)) with (Event.autoDelete e).
  change (Event.initialized (strip e)) with (Event.initialized e). cbn [abs r_traced].
  destruct (Event.scheduled e && Event.initialized e) eqn:Hg; cbn [andb]; [|done]. zbool.
  destruct (dequeue_ok s bs x e Hok Hx ltac:(done))
    as (h & p & e' & -> & He' & Hc' & Hcore & bs' & Hr & Hs & Hn & Hnx & Hel & Hfl).
  cbn [mbind option_bind]. rewrite (upd_eq _ _ _ _ He'). cbn [mbind option_bind].
  rewrite lookup_insert_eq. cbn [mbind option_bind].
  assert (Event.autoDelete e' = Event.autoDelete e) as Had
    by (unfold Event.autoDelete; by injection Hc' as _ _ ->).
  rewrite !autoDelete_clear, Had by done.
  assert (∀ h1, (∀ y, y ≠ x → h1 !! y = h !! y) →
      (∀ e, h1 !! x = Some e → Event.scheduled e = false) → ev_ok (with_queue s h1 p) bs') as Hgo.
  { intros h1 Hh1 Hx1. constructor; cbn; try done.
    - eapply bins_rep_same; [|exact Hr]. intros y Hy. apply Hh1. set_solver.
    - intros y ey Hy. destruct (decide (y = x)) as [->|Hne]; [by rewrite (Hx1 _ Hy)|].
      rewrite Hh1 in Hy by done. destruct (same_core_lookup_r _ _ _ _ Hcore Hy) as (e0 & He0 & Hc0).
      rewrite (core_scheduled _ _ Hc0), (ok_flag _ _ Hok y e0 He0). by rewrite Hel. }
  destruct (Event.autoDelete e) eqn:Ead; cbn [andb negb mbind option_bind].
  - unfold delete_event. rewrite lookup_insert_eq. cbn [mbind option_bind].
    rewrite scheduled_clear. rewrite delete_insert_eq. cbn [mbind option_bind].
    destruct (traced s); [by rewrite lookup_delete_eq|]. cbn [negb].
    exists bs'. split; [apply Hgo; [intros; by apply lookup_delete_ne|by rewrite lookup_delete_eq]|].
    unfold abs, ref_with. cbn. by rewrite Hfl, fin_maps.fmap_delete, (same_core_strip _ _ Hcore).
  - rewrite lookup_insert_eq. replace (if traced s then _ else _)
      with (Some (Event.clear_flags Event.Scheduled (Event.clear_flags Event.Squashed e'))) by (by destruct (traced s)).
    cbn [mbind option_bind]. exists bs'. split.
    + apply Hgo; [intros; by apply lookup_insert_ne|].
      rewrite lookup_insert_eq. intros ? [= <-]. apply scheduled_clear.
    + unfold abs, ref_with. cbn. rewrite Hfl, fmap_insert, (same_core_strip _ _ Hcore).
      do 2 f_equal. unfold strip, Event.clear_flags, Event.with_flags, Event.with_links. cbn.
      by injection Hc' as -> -> ->.
Qed.

Lemma ref_remove_absent x (l : list (Key * nat)) : x ∉ l.*2 → ref_remove x l = l.
Proof.
  induction l as [|[k y] l IH]; intros Hx; [done|]. cbn in *.
  rewrite (proj2 (Nat.eqb_neq y x)) by set_solver. by rewrite IH by set_solver.
Qed.

Lemma reschedule_agree s bs x t a :
  ev_ok s bs → agree (reschedule s x t a) (ref_reschedule (abs s bs) x t a).
Proof.
  intros Hok. unfold reschedule, ref_reschedule. rewrite abs_lookup.
  destruct (events s !! x) as [e|] eqn:Hx; cbn [fmap option_fmap option_map mbind option_bind]; [|done].
  change (Event.scheduled (strip e)) with (Event.scheduled e).
  change (Event.initialized (strip e)) with (Event.initialized e). cbn [abs r_now].
  destruct (_ && _ && _) eqn:Hg; [|done].
  set (f := λ e, mark_queue (isMain s) (Event.set_flags Event.Scheduled (Event.clear_flags Event.Squashed e))).
  assert (∀ h p bs0 e0, h !! x = Some e0 → core e0 = core e → same_core (events s) h →
    x ∉ elems bs0 → bins_rep h p bs0 → sorted bs0 → NoDup (elems bs0) →
    (∀ y, y ≠ x → y ∈ elems bs0 ↔ y ∈ elems bs) → flat bs0 = ref_remove x (flat bs) →
    agree (enqueue s h p x t f)
      (Some (ref_with (abs s bs) (<[x := f (Event.setWhen t (strip e))]> (r_events (abs s bs)))
         (ref_insert (key (Event.setWhen t (strip e))) x (ref_remove x (r_list (abs s bs))))))) as Hgo.
  { intros h p bs0 e0 He0 Hc0 Hcore Hni Hr Hs Hn Hel Hfl.
    destruct (enqueue_ok s h p bs0 x e0 t f) as (s' & Hq & Hok' & Habs); try done.
    - intros y ey Hy Hne. destruct (same_core_lookup_r _ _ _ _ Hcore Hy) as (e1 & He1 & Hc1).
      rewrite (core_scheduled _ _ Hc1), (ok_flag _ _ Hok y e1 He1). by rewrite Hel.
    - intros. unfold f. rewrite scheduled_mark. apply scheduled_set.
    - intros. unfold f. by destruct (isMain s).
    - rewrite Hq. eexists. split; [done|]. rewrite Habs. unfold ref_with, abs. cbn -[f].
      rewrite Hfl, (same_core_strip _ _ Hcore). injection Hc0 as H1 H2 H3.
      unfold key, strip, Event.setWhen, Event.with_links. cbn -[f]. by rewrite H2, H3. }
  destruct (Event.scheduled e) eqn:Hsch.
  - destruct (dequeue_ok s bs x e Hok Hx Hsch)
      as (h & p & e' & -> & He' & Hc' & Hcore & bs' & Hr & Hs & Hn & Hnx & Hel & Hfl).
    cbn [mbind option_bind]. by apply (Hgo h p bs' e').
  - cbn [mbind option_bind]. pose proof (scheduled_in _ _ _ _ Hok Hx Hsch) as Hni.
    pose proof Hok as [Hr Hs Hn Hf]. apply (Hgo (events s) (head s) bs e); try done.
    symmetry. apply ref_remove_absent. by rewrite flat_elems.
Qed.

Lemma modify_agree s bs x ok (f : Event.t → Event.t) :
  ev_ok s bs → (ok = true → ∀ e, Event.scheduled (f e) = Event.scheduled e) →
  (∀ e, key (f e) = key e ∧ Event.nextBin (f e) = Event.nextBin e ∧
        Event.nextInBin (f e) = Event.nextInBin e ∧ strip (f e) = f (strip e)) →
  agree (if ok then with_events s <$> upd (events s) x f else None) (ref_modify (abs s bs) x ok f).
Proof.
  intros Hok Hs Hf. unfold ref_modify. destruct ok; [|done]. rewrite abs_lookup. unfold upd.
  destruct (events s !! x) as [e|] eqn:Hx; cbn [fmap option_fmap option_map mbind option_bind]; [|done].
  destruct (Hf e) as (Hk & H1 & H2 & H3). exists bs. split; [by apply ev_ok_modify; auto|].
  unfold abs, ref_with. cbn. by rewrite fmap_insert, H3.
Qed.

Lemma call_agree s bs c : ev_ok s bs → agree (apply_call s c) (ref_call (abs s bs) c).
Proof.
  intros Hok. destruct c as [x p w|x|x t|x|x t a|x f|x f|x]; cbn [apply_call ref_call].
  - unfold Event_new. rewrite abs_lookup.
    destruct (events s !! x) as [e|] eqn:Hx; cbn [fmap option_fmap option_map]; [done|].
    exists bs. split; [|unfold abs, ref_with; cbn; by rewrite fmap_insert].
    apply (ev_ok_outside s bs x); [done| |intros; by apply lookup_insert_ne|].
    + intros Hin. destruct (bins_rep_live _ _ _ _ (ok_rep _ _ Hok) Hin). congruence.
    + rewrite lookup_insert_eq. by intros ? [= <-].
  - unfold Event_delete, delete_event. rewrite abs_lookup.
    destruct (events s !! x) as [e|] eqn:Hx; cbn [fmap option_fmap option_map mbind option_bind]; [|done].
    change (Event.scheduled (strip e)) with (Event.scheduled e).
    destruct (Event.scheduled e) eqn:Hs; cbn; [done|]. exists bs.
    split; [|unfold abs, ref_with; cbn; by rewrite fin_maps.fmap_delete].
    apply (ev_ok_outside s bs x); [done|by eapply scheduled_in|intros; by apply lookup_delete_ne|].
    by rewrite lookup_delete_eq.
  - by apply schedule_agree.
  - by apply deschedule_agree.
  - by apply reschedule_agree.
  - apply modify_agree; [done| |done]. intros Hf e. apply scheduled_set_other. by apply public_write.
  - apply modify_agree; [done| |done]. intros Hf e. apply scheduled_clear_other. by apply public_write.
  - apply (modify_agree s bs x true); [done| |done]. intros _ e. by apply scheduled_set_other.
Qed.

Lemma run_agree s bs cs : ev_ok s bs → agree (run_calls s cs) (ref_run (abs s bs) cs).
Proof.
  revert s bs. induction cs as [|c cs IH]; intros s bs Hok; cbn; [by exists bs|].
  pose proof (call_agree s bs c Hok) as Ha.
  destruct (apply_call s c) as [s'|], (ref_call (abs s bs) c) as [r'|]; try done.
  destruct Ha as (bs' & Hok' & ->). by apply IH.
Qed.

Lemma EventQueue_new_ok m tr now : ev_ok (EventQueue_new m tr now) [].
Proof. constructor; cbn; [done|constructor|constructor|by intros]. Qed.

End Simulation.

(** ** The order of the queue *)

Section Order.
Implicit Types (h : Store) (bs : Bins).

Lemma bin_events_ok fuel h k p l :
  in_chain h k p l → (length l <= fuel)%nat → bin_events fuel h p = Some l.
Proof.
  revert fuel p. induction l as [|x l IH]; intros fuel p; cbn [in_chain length].
  - intros -> _. by destruct fuel.
  - intros (-> & e & Hx & _ & Hc) Hl. destruct fuel as [|fuel]; [lia|].
    cbn [bin_events]. rewrite Hx. cbn [mbind option_bind]. rewrite (IH fuel) by (done || lia). done.
Qed.

Lemma bins_rep_chain h p k b bs : bins_rep h p ((k, b) :: bs) → in_chain h k p b.
Proof. intros (x & l & e & -> & -> & Hx & Hk & Hc & _). split; [done|]. eauto. Qed.

Lemma bin_size h p k b bs :
  bins_rep h p ((k, b) :: bs) → NoDup (elems ((k, b) :: bs)) → (length b <= base.size h)%nat.
Proof.
  intros Hr Hn. rewrite elems_cons in Hn. apply NoDup_app in Hn as (Hn & _ & _).
  apply live_size; [done|]. intros x Hx.
  eapply bins_rep_live; [exact Hr|]. rewrite elems_cons. set_solver.
Qed.

Lemma queue_events_ok fuel h p bs :
  bins_rep h p bs → NoDup (elems bs) → (length bs <= fuel)%nat →
  queue_events fuel h p = Some (elems bs).
Proof.
  revert fuel p. induction bs as [|[k b] bs IH]; intros fuel p Hr Hn Hl.
  { rewrite (Hr : p = None). by destruct fuel. }
  pose proof (bins_rep_chain _ _ _ _ _ Hr) as Hc. pose proof (bin_size _ _ _ _ _ Hr Hn) as Hb.
  destruct Hr as (x & l & e & -> & -> & Hx & Hk & _ & Hr). cbn [length] in Hl.
  destruct fuel as [|fuel]; [lia|]. cbn [queue_events]. rewrite Hx. cbn [mbind option_bind].
  rewrite (bin_events_ok _ _ _ _ _ Hc Hb). cbn [mbind option_bind]. rewrite elems_cons in Hn |- *.
  apply NoDup_app in Hn as (_ & _ & Hn). rewrite (IH fuel) by (done || lia). done.
Qed.

Lemma dump_order_ok s bs : ev_ok s bs → dump_order s = Some (flat bs).*2.
Proof.
  intros [Hr Hs Hn _]. rewrite flat_elems. apply queue_events_ok; [done|done|by eapply bins_fuel].
Qed.

Lemma verify_bin_ok fuel h k p l k0 seen :
  in_chain h k p l → NoDup l → (∀ x, x ∈ l → x ∉ seen) → ¬ key_lt k k0 → (length l <= fuel)%nat →
  l ≠ [] →
  verify_bin fuel h p (k0, seen) = Some (inl (k, list_to_set l ∪ seen)).
Proof.
  revert fuel p k0 seen. induction l as [|x l IH]; intros fuel p k0 seen Hc Hn Hd Hk Hl Hne; [done|].
  destruct Hc as (-> & e & Hx & Hke & Hc). apply NoDup_cons in Hn as [Hxl Hn].
  destruct fuel as [|fuel]; [cbn in Hl; lia|]. destruct k0 as [time prio].
  cbn [verify_bin]. rewrite Hx. cbn [mbind option_bind].
  assert (Event.when e <? time = false ∧ (Event.when e =? time) && (Event.priority e <? prio) = false)
    as [-> ->]. { subst k. unfold key_lt, key in Hk. cbn in Hk. repeat zcase; cbn; split; lia || done. }
  rewrite bool_decide_eq_false_2 by set_solver.
  change (Event.when e, Event.priority e) with (key e). rewrite Hke.
  destruct l as [|y l].
  - rewrite (Hc : Event.nextInBin e = None). cbn.
    replace (verify_bin fuel h None (k, {[x]} ∪ seen)) with (Some (inl (k, {[x]} ∪ seen)) : option (VerifyState + unit))
      by (by destruct fuel).
    do 3 f_equal. set_solver.
  - rewrite (IH fuel); [|done|done|set_solver|apply key_lt_irrefl|cbn in Hl |- *; lia|done].
    do 3 f_equal. cbn [list_to_set]. set_solver.
Qed.

Lemma verify_bins_ok fuel h p bs k0 seen :
  bins_rep h p bs → sorted bs → NoDup (elems bs) → (∀ x, x ∈ elems bs → x ∉ seen) →
  (∀ k b, bs !! 0%nat = Some (k, b) → ¬ key_lt k k0) → (length bs <= fuel)%nat →
  verify_bins fuel h p (k0, seen) = Some true.
Proof.
  revert fuel p k0 seen. induction bs as [|[k b] bs IH]; intros fuel p k0 seen Hr Hs Hn Hd Hk Hl.
  { rewrite (Hr : p = None). by destruct fuel. }
  pose proof (bins_rep_chain _ _ _ _ _ Hr) as Hc. pose proof (bin_size _ _ _ _ _ Hr Hn) as Hb.
  destruct (sorted_cons _ _ _ Hs) as [Hs' Hlt]. rewrite elems_cons in Hn, Hd.
  apply NoDup_app in Hn as (Hnb & Hdis & Hn).
  destruct Hr as (x & l & e & -> & -> & Hx & Hke & _ & Hr). cbn [length] in Hl.
  destruct fuel as [|fuel]; [lia|]. cbn [verify_bins]. rewrite Hx. cbn [mbind option_bind].
  erewrite (verify_bin_ok _ h k _ (x :: l) k0 seen); [|done|done|set_solver|by eapply Hk|done|done].
  cbn [mbind option_bind]. apply IH; try done; [| |lia].
  - intros y Hy. rewrite not_elem_of_union, elem_of_list_to_set.
    split; [intros Hyl; by apply (Hdis y)|apply Hd, elem_of_app; by right].
  - intros k1 b1 H1. apply list_elem_of_lookup_2 in H1. intros Hbad.
    apply (key_lt_irrefl k). eapply key_lt_trans; [by eapply Hlt|done].
Qed.

End Order.

(** C11. The queue of bins behaves as a sorted list.  Every sequence of calls on a new
    queue succeeds exactly if it succeeds on the reference machine, in which an event
    is inserted in front of the first event that is not before it; the events then
    have the same fields and the walk over the bins gives the list. *)
Theorem event_queue_equivalence m tr now cs :
  (λ s, (strip <$> events s, dump_order s)) <$> run_calls (EventQueue_new m tr now) cs =
  (λ r, (r_events r, Some (r_list r).*2)) <$> ref_run (mkRef ∅ [] m now tr) cs.
Proof.
  pose proof (run_agree _ _ cs (EventQueue_new_ok m tr now)) as Ha.
  replace (abs (EventQueue_new m tr now) []) with (mkRef ∅ [] m now tr) in Ha
    by (unfold abs; cbn; by rewrite fmap_empty).
  destruct (run_calls _ cs) as [s|], (ref_run _ cs) as [r|]; try done.
  destruct Ha as (bs & Hok & ->). cbn. by rewrite (dump_order_ok s bs Hok).
Qed.

Section Invariant.
Implicit Types (bs : Bins).

Lemma reach_ok m tr now cs s :
  run_calls (EventQueue_new m tr now) cs = Some s → ∃ bs, ev_ok s bs.
Proof.
  intros Hr. pose proof (run_agree _ _ cs (EventQueue_new_ok m tr now)) as Ha. rewrite Hr in Ha.
  destruct (ref_run _ cs) as [r|]; [|done]. destruct Ha as (bs & Hok & _). by exists bs.
Qed.

Lemma flat_key h p bs k x :
  bins_rep h p bs → (k, x) ∈ flat bs → ∃ e, h !! x = Some e ∧ key e = k.
Proof.
  intros Hr Hin. unfold flat in Hin. apply list_elem_of_bind in Hin as ([k' b] & Hin & Hb).
  apply list_elem_of_fmap in Hin as (y & [= -> ->] & Hy). by eapply bins_rep_elem.
Qed.

Lemma flat_sorted bs : sorted bs → StronglySorted (λ a b, ¬ key_lt b.1 a.1) (flat bs).
Proof.
  induction bs as [|[k b] bs IH]; intros Hs; [constructor|].
  destruct (sorted_cons _ _ _ Hs) as [Hs' Hlt]. rewrite flat_cons.
  induction b as [|x b IHb]; [by apply IH|]. cbn. constructor.
  - apply IHb. unfold sorted in Hs |- *. done.
  - apply Forall_forall. intros [k' y] Hin. cbn. apply elem_of_app in Hin as [Hin|Hin].
    + apply list_elem_of_fmap in Hin as (z & [= -> ->] & _). apply key_lt_irrefl.
    + unfold flat in Hin. apply list_elem_of_bind in Hin as ([k1 b1] & Hin & Hb).
      apply list_elem_of_fmap in Hin as (z & [= -> ->] & _).
      intros Hbad. apply (key_lt_irrefl k). eapply key_lt_trans; [by eapply Hlt|done].
Qed.

End Invariant.

(** The order of the queue on pointers. *)
Definition not_after (h : Store) (x y : nat) : Prop :=
  ∀ e f, h !! x = Some e → h !! y = Some f → Event.lt f e = false.

(** In every reachable state the walk over the queue ends, meets every scheduled
    event exactly once and nothing else, and meets them in the order of their times
    and priorities. *)
Theorem event_queue_invariant m tr now cs s :
  run_calls (EventQueue_new m tr now) cs = Some s →
  ∃ l, dump_order s = Some l ∧ NoDup l ∧
    (∀ x, x ∈ l ↔ ∃ e, events s !! x = Some e ∧ Event.scheduled e = true) ∧
    StronglySorted (not_after (events s)) l.
Proof.
  intros (bs & Hok)%reach_ok. exists (elems bs).
  rewrite (dump_order_ok s bs Hok), flat_elems. destruct Hok as [Hr Hs Hn Hf].
  split_and!; [done|done| |].
  - intros x. split.
    + intros Hx. destruct (bins_rep_live _ _ _ _ Hr Hx) as [e He]. exists e. split; [done|]. by apply (Hf x e).
    + intros (e & He & Hs'). by apply (Hf x e).
  - rewrite <- flat_elems. pose proof (flat_sorted bs Hs) as Hso.
    assert (∀ a, a ∈ flat bs → ∃ e, events s !! a.2 = Some e ∧ key e = a.1) as Hk
      by (intros [k x] Hin; by eapply flat_key).
    induction (flat bs) as [|[k x] l IH]; [constructor|].
    apply StronglySorted_inv in Hso as [Hso Hx]. cbn. constructor; [apply IH; set_solver|].
    apply Forall_forall. intros y ([k' y'] & -> & Hy)%list_elem_of_fmap e f He Hef.
    destruct (Hk (k, x)) as (e' & He' & Hke); [set_solver|].
    destruct (Hk (k', y')) as (f' & Hf' & Hkf); [set_solver|]. cbn in *. simplify_eq.
    rewrite lt_key. rewrite Forall_forall in Hx. specialize (Hx _ Hy). cbn in Hx.
    by destruct (key_ltb_spec (key f) (key e)).
Qed.

(** What the self-check of the queue says in a reachable state: it ends, and it
    accepts the queue, except that it rejects every queue whose first event has the
    time 0 and a negative priority (or a negative time), since it starts from time 0
    and priority 0. *)
Theorem debugVerify_spec m tr now cs s :
  run_calls (EventQueue_new m tr now) cs = Some s →
  ∃ l, dump_order s = Some l ∧
    debugVerify s = Some (match l with
                          | [] => true
                          | x :: _ => match events s !! x with
                                      | Some e => negb (key_ltb (key e) (0, 0))
                                      | None => true
                                      end
                          end).
Proof.
  intros (bs & Hok)%reach_ok. exists (elems bs).
  rewrite (dump_order_ok s bs Hok), flat_elems. split; [done|]. destruct Hok as [Hr Hs Hn _].
  pose proof (bins_fuel _ _ _ Hr Hn) as Hfuel. unfold debugVerify.
  destruct bs as [|[k b] bs]; [by eapply verify_bins_ok|].
  pose proof Hr as (x & l & e & -> & Hhd & Hx & Hk & _). rewrite elems_cons. cbn [app].
  rewrite Hx, Hk. destruct (key_ltb_spec k (0, 0)) as [Hbad|Hgood]; cbn [negb].
  - rewrite Hhd. destruct (base.size (events s)) as [|n] eqn:En; [cbn in Hfuel; lia|].
    cbn [verify_bins]. rewrite Hx, En. cbn [mbind option_bind verify_bin]. rewrite Hx.
    cbn [mbind option_bind]. unfold key_lt in Hbad. rewrite <- Hk in Hbad. cbn in Hbad.
    destruct (Z.ltb_spec (Event.when e) 0) as [|H0]; [done|].
    destruct (Z.eqb_spec (Event.when e) 0); [|lia]. cbn [andb].
    destruct (Z.ltb_spec (Event.priority e) 0); [done|lia].
  - eapply verify_bins_ok; try done. by intros ? ? [= <- <-].
Qed.

(** A queue with events of the same time and of different times. *)
Definition demo_calls : list Call :=
  [CNew 1 0 0; CNew 2 0 0; CNew 3 50 0; CNew 4 0 0; CSchedule 1 10; CSchedule 3 10; CSchedule 2 10;
   CSchedule 4 5; CReschedule 4 20 false; CDeschedule 4; CReschedule 4 7 true].

Definition demo_queue : EvState := default (EventQueue_new true false 0)
  (run_calls (EventQueue_new true false 0) demo_calls).

Lemma demo_run : run_calls (EventQueue_new true false 0) demo_calls = Some demo_queue.
Proof. vm_compute. reflexivity. Qed.

Lemma event_queue_invariant_witness :
  dump_order demo_queue = Some [4; 2; 1; 3]%nat ∧
  ∃ l, dump_order demo_queue = Some l ∧ NoDup l ∧
    (∀ x, x ∈ l ↔ ∃ e, events demo_queue !! x = Some e ∧ Event.scheduled e = true) ∧
    StronglySorted (not_after (events demo_queue)) l.
Proof.
  split; [vm_compute; reflexivity|].
  exact (event_queue_invariant true false 0 demo_calls demo_queue demo_run).
Defined.

(** A correct queue that the self-check rejects. *)
Definition early_calls : list Call := [CNew 1 Event.CPU_Switch_Pri 0; CSchedule 1 0].
Definition early_queue : EvState := default (EventQueue_new true false 0)
  (run_calls (EventQueue_new true false 0) early_calls).

Lemma debugVerify_spec_witness :
  debugVerify demo_queue = Some true ∧ debugVerify early_queue = Some false ∧
  ∃ l, dump_order early_queue = Some l ∧
    debugVerify early_queue =
      Some (match l with
            | [] => true
            | x :: _ => match events early_queue !! x with
                        | Some e => negb (key_ltb (key e) (0, 0))
                        | None => true
                        end
            end).
Proof.
  split_and!; [vm_compute; reflexivity|vm_compute; reflexivity|].
  apply (debugVerify_spec true false 0 early_calls early_queue). vm_compute. reflexivity.
Defined.

(** ** Checkpoints *)

(** Whether an event survives a checkpoint in the queue. *)
Definition kept (h : Store) (x : nat) : bool :=
  match h !! x with
  | Some e => Flags.isSet (Event.flags e) Event.AutoSerialize && negb (Event.squashed e)
  | None => false
  end.

(** An event that can be scheduled again now. *)
Definition restorable (now : Z) (e : Event.t) : Prop :=
  Event.initialized e = true ∧ Event.scheduled e = true ∧ 0 <= now <= Event.when e ∧ Event.when e < 2 ^ 63.

Section Checkpoint.
Implicit Types (s : EvState) (bs : Bins) (e : Event.t).

Lemma initialized_restored f :
  Z.land f Event.InitMask = Event.Initialized →
  Z.land (Flags.clear (Flags.set f Event.Initialized) (Z.lor Event.Squashed Event.Scheduled))
    Event.InitMask = Event.Initialized.
Proof.
  intros Hf. unfold Flags.clear, Flags.set.
  set (c := Z.lor Event.Squashed Event.Scheduled).
  assert (∀ x, Z.land (Z.ldiff x c) Event.InitMask = Z.land x Event.InitMask) as ->.
  { intros x. apply Z.bits_inj'. intros i Hi. rewrite !Z.land_spec, Z.ldiff_spec.
    destruct (Z.testbit x i); cbn [andb]; [|done].
    replace Event.InitMask with (Z.ldiff Event.InitMask c) at 2 by done.
    rewrite Z.ldiff_spec. apply andb_comm. }
  by rewrite Z.land_lor_distr_l, Hf.
Qed.

Lemma restored_flags f k :
  0 <= k < 6 → Flags.isSet (Flags.set f Event.Initialized) (2 ^ k) = Flags.isSet f (2 ^ k).
Proof.
  intros Hk. rewrite !testbit_flag by lia. unfold Flags.set. rewrite Z.lor_spec.
  replace (Z.testbit Event.Initialized k) with false; [apply orb_false_r|].
  assert (k = 0 ∨ k = 1 ∨ k = 2 ∨ k = 3 ∨ k = 4 ∨ k = 5) as Hc by lia.
  by repeat destruct Hc as [->|Hc]; subst.
Qed.

(** One event of a checkpoint. *)
Lemma restore_event s bs x e :
  ev_ok s bs → events s !! x = None → restorable (curTick s) e →
  ∃ s' bs', (s1 ← Event_new s x Event.Default_Pri 0; Event_unserialize s1 x (Event_serialize e)) = Some s' ∧
    ev_ok s' bs' ∧ curTick s' = curTick s ∧ dom (events s') = {[ x ]} ∪ dom (events s) ∧
    flat bs' = (if Event.squashed e then flat bs else ref_insert (key e) x (flat bs)).
Proof.
  intros Hok Hx (Hi & Hsch & Hnow & Hw). unfold Event_new. rewrite Hx. cbn [mbind option_bind].
  unfold Event_unserialize, Event_serialize. cbn [with_events events]. rewrite lookup_insert_eq.
  cbn [mbind option_bind]. replace (Event.scheduled (Event.new Event.Default_Pri 0)) with false by done.
  cbn [mbind option_bind with_events events]. rewrite lookup_insert_eq. cbn [mbind option_bind].
  replace (Event.initialized (Event.new Event.Default_Pri 0)) with true by done.
  change Event.Scheduled with (2 ^ 1) at 1. change Event.Squashed with (2 ^ 0) at 1.
  rewrite !restored_flags by lia. change (Flags.isSet (Event.flags e) (2 ^ 1)) with (Event.scheduled e).
  change (Flags.isSet (Event.flags e) (2 ^ 0)) with (Event.squashed e). rewrite Hsch.
  rewrite insert_insert_eq. cbn [andb Event.new Event.nextBin Event.nextInBin].
  set (f := Flags.clear _ _). set (e1 := Event.mk None None (Event.when e) (Event.priority e) f).
  assert (Event.scheduled e1 = false) as Hs1.
  { rewrite scheduled_bit. unfold e1, f, Flags.clear. cbn [Event.flags]. rewrite Z.ldiff_spec. apply andb_false_r. }
  assert (x ∉ elems bs) as Hni.
  { intros Hin. destruct (bins_rep_live _ _ _ _ (ok_rep _ _ Hok) Hin). congruence. }
  set (s1 := with_events s (<[x := e1]> (events s))).
  assert (ev_ok s1 bs) as Hok1.
  { apply (ev_ok_outside s bs x); [done|done|intros; by apply lookup_insert_ne|].
    rewrite lookup_insert_eq. by intros ? [= <-]. }
  destruct (Event.squashed e); cbn [negb].
  { exists s1, bs. split_and!; try done. cbn. by rewrite dom_insert_L. }
  assert (Event.initialized e1 = true) as Hi1.
  { apply Z.eqb_eq. apply Z.eqb_eq in Hi. by apply initialized_restored. }
  pose proof (schedule_agree s1 bs x (Event.when e) Hok1) as Ha. unfold ref_schedule in Ha.
  rewrite abs_lookup, (lookup_insert_eq _ _ _ : events s1 !! x = Some e1) in Ha. cbn [fmap option_fmap option_map mbind option_bind] in Ha.
  change (Event.scheduled (strip e1)) with (Event.scheduled e1) in Ha.
  change (Event.initialized (strip e1)) with (Event.initialized e1) in Ha.
  rewrite Hs1, Hi1 in Ha. cbn [abs r_now curTick with_events s1] in Ha.
  rewrite !u64_small in Ha by ilia. rewrite (proj2 (Z.leb_le _ _)) in Ha by lia. cbn [andb negb] in Ha.
  destruct (schedule s1 x (Event.when e)) as [s'|] eqn:Es; [|done]. destruct Ha as (bs' & Hok' & Habs).
  exists s', bs'. unfold ref_with, abs in Habs. cbn in Habs. injection Habs as Hev Hfl _ Hnow' _.
  split_and!; [exact Es|done|done| |by rewrite <- Hfl].
  apply (f_equal dom) in Hev. rewrite dom_insert_L, !dom_fmap_L in Hev.
  rewrite <- Hev. unfold s1. cbn. rewrite dom_insert_L. set_solver.
Qed.

(** All events of a checkpoint, in order. *)
Lemma restore_events s bs (l : list (nat * Event.t)) :
  ev_ok s bs → NoDup l.*1 → (∀ x, x ∈ l.*1 → events s !! x = None) →
  Forall (λ p, restorable (curTick s) p.2) l →
  ∃ s' bs', unserialize s (prod_map id Event_serialize <$> l) = Some s' ∧ ev_ok s' bs' ∧
    flat bs' = foldl (λ acc p, ref_insert (key p.2) p.1 acc) (flat bs)
                 (filter (λ p, Event.squashed p.2 = false) l).
Proof.
  revert s bs. induction l as [|[x e] l IH]; intros s bs Hok Hn Hfr Hre; [by exists s, bs|].
  cbn [fmap list_fmap fst] in Hn, Hfr. apply NoDup_cons in Hn as [Hx Hn].
  apply Forall_cons in Hre as [He Hre].
  destruct (restore_event s bs x e) as (s1 & bs1 & Hs1 & Hok1 & Ht & Hdom & Hfl); [done|set_solver|done|].
  destruct (IH s1 bs1) as (s' & bs' & Hs' & Hok' & Hfl'); [done|done| |by rewrite Ht|].
  { intros y Hy. apply not_elem_of_dom. rewrite Hdom, not_elem_of_union, not_elem_of_singleton.
    split; [set_solver|]. apply not_elem_of_dom, Hfr. set_solver. }
  exists s', bs'. cbn [fmap list_fmap prod_map fst snd id unserialize].
  destruct (Event_new s x Event.Default_Pri 0) as [s0|]; [|done]. cbn [mbind option_bind] in Hs1 |- *.
  rewrite Hs1. cbn [mbind option_bind]. split_and!; [done|done|]. rewrite Hfl', Hfl, filter_cons. cbn.
  destruct (Event.squashed e); [rewrite decide_False by done|rewrite decide_True by done]; done.
Qed.

(** Inserting a sorted list from its front reverses every bin. *)
Lemma ref_insert_end (acc : list (Key * nat)) k x l :
  Forall (λ p, key_lt p.1 k) acc → (∀ p, p ∈ l → ¬ key_lt p.1 k) →
  ref_insert k x (acc ++ l) = acc ++ (k, x) :: l.
Proof.
  induction acc as [|[k' y] acc IH]; intros Ha Hl; cbn [app ref_insert].
  - destruct l as [|[k' y] l]; [done|]. cbn. destruct (key_ltb_spec k' k) as [Hlt|]; [|done].
    destruct (Hl (k', y)); [set_solver|done].
  - apply Forall_cons in Ha as [Hk Ha]. cbn in Hk. destruct (key_ltb_spec k' k); [|done].
    by rewrite IH.
Qed.

Lemma foldl_insert_bin acc k b l :
  Forall (λ p, key_lt p.1 k) acc → (∀ p : Key * nat, p ∈ l → p.1 = k) →
  foldl (λ acc (p : Key * nat), ref_insert p.1 p.2 acc) (acc ++ l) (pair k <$> b) =
  acc ++ (pair k <$> reverse b) ++ l.
Proof.
  revert l. induction b as [|x b IH]; intros l Ha Hl; [done|]. cbn [fmap list_fmap foldl fst snd].
  rewrite ref_insert_end; [|done|intros p Hp; rewrite (Hl p Hp); apply key_lt_irrefl].
  rewrite IH; [|done|set_solver]. rewrite reverse_cons, fmap_app, <- !app_assoc. done.
Qed.

Lemma foldl_insert_flat acc bs :
  sorted bs → (∀ k b, (k, b) ∈ bs → Forall (λ p, key_lt p.1 k) acc) →
  foldl (λ acc (p : Key * nat), ref_insert p.1 p.2 acc) acc (flat bs) =
  acc ++ flat (prod_map id reverse <$> bs).
Proof.
  revert acc. induction bs as [|[k b] bs IH]; intros acc Hs Ha; [by rewrite app_nil_r|].
  destruct (sorted_cons _ _ _ Hs) as [Hs' Hlt]. rewrite flat_cons, foldl_app.
  pose proof (foldl_insert_bin acc k b []) as Hb. rewrite app_nil_r in Hb.
  rewrite Hb by (set_solver || (apply (Ha k b); set_solver)). rewrite app_nil_r.
  rewrite IH; [by rewrite <- app_assoc|done|]. intros k' b' Hin. apply Forall_app. split.
  - apply (Ha k' b'). set_solver.
  - apply Forall_forall. intros p (y & -> & _)%list_elem_of_fmap. cbn. by eapply Hlt.
Qed.

(** The events of a checkpoint. *)
Definition saved (h : Store) (x : nat) : option (nat * Event.t) :=
  e ← h !! x; if Flags.isSet (Event.flags e) Event.AutoSerialize then Some (x, e) else None.

Lemma save_events h (xs : list nat) :
  (∀ x, x ∈ xs → is_Some (h !! x)) →
  ∃ ll, mapM (save_event h) xs = Some ll ∧
    concat ll = prod_map id Event_serialize <$> omap (saved h) xs.
Proof.
  induction xs as [|x xs IH]; intros Hl; [by exists []|].
  destruct IH as (ll & Hll & Hc); [set_solver|]. destruct (Hl x) as [e He]; [set_solver|].
  eexists (_ :: ll). split.
  - apply mapM_Some. constructor; [|by apply mapM_Some]. unfold save_event. by rewrite He.
  - cbn [concat omap list_omap]. unfold saved at 1. rewrite He, Hc. cbn [mbind option_bind].
    by destruct (Flags.isSet _ _).
Qed.

Lemma kept_flat h (fl : list (Key * nat)) :
  (∀ k x, (k, x) ∈ fl → ∃ e, h !! x = Some e ∧ key e = k) →
  (λ p, (key p.2, p.1)) <$> filter (λ p, Event.squashed p.2 = false) (omap (saved h) fl.*2) =
  filter (λ p, kept h p.2 = true) fl.
Proof.
  induction fl as [|[k x] fl IH]; intros Hk; [done|]. cbn [fmap list_fmap omap list_omap snd].
  destruct (Hk k x) as (e & He & Hke); [set_solver|]. rewrite (filter_cons _ (k, x)). cbn [snd].
  rewrite <- IH by set_solver. unfold saved at 1, kept. rewrite He. cbn [mbind option_bind].
  destruct (Flags.isSet _ _); cbn [andb]; [|by rewrite decide_False]. rewrite filter_cons. cbn [snd].
  destruct (Event.squashed e); cbn [negb]; [by rewrite !decide_False|].
  rewrite !decide_True by done. cbn. by rewrite Hke.
Qed.

Lemma flat_filter (P : nat → Prop) `{∀ x, Decision (P x)} bs :
  filter (λ p, P p.2) (flat bs) = flat ((λ p, (p.1, filter P p.2)) <$> bs).
Proof.
  induction bs as [|[k b] bs IH]; [done|]. cbn [fmap list_fmap fst snd].
  rewrite !flat_cons, filter_app, IH. f_equal. induction b as [|x b IHb]; [done|].
  cbn [fmap list_fmap]. rewrite !filter_cons. cbn [snd]. rewrite IHb. by destruct (decide (P x)).
Qed.

Lemma kept_bins h p bs :
  bins_rep h p bs →
  (λ p, (key p.2, p.1)) <$> filter (λ p, Event.squashed p.2 = false) (omap (saved h) (elems bs)) =
  flat ((λ p, (p.1, filter (λ x, kept h x = true) p.2)) <$> bs).
Proof.
  intros Hr. rewrite <- flat_elems, kept_flat by (intros k x; by apply flat_key with (p := p)).
  rewrite <- (flat_filter (λ x, kept h x = true)). by apply list_filter_iff.
Qed.

Lemma omap_saved_fst h xs : (omap (saved h) xs).*1 `sublist_of` xs.
Proof.
  induction xs as [|x xs IH]; [done|]. cbn [omap list_omap]. unfold saved at 1.
  destruct (h !! x) as [e|]; cbn [mbind option_bind]; [|by apply sublist_cons].
  destruct (Flags.isSet _ _); [by apply sublist_skip|by apply sublist_cons].
Qed.

Lemma foldl_insert_keys (l : list (nat * Event.t)) acc :
  foldl (λ acc p, ref_insert (key p.2) p.1 acc) acc l =
  foldl (λ acc (p : Key * nat), ref_insert p.1 p.2 acc) acc ((λ p, (key p.2, p.1)) <$> l).
Proof. revert acc. induction l as [|p l IH]; intros acc; [done|]. apply IH. Qed.

End Checkpoint.

(** A checkpoint of the main queue whose events can be scheduled again is saved
    and restored without an error; the restored queue has the saved events that were
    not squashed, at the same times and priorities, but the events of each time and
    priority in the opposite order. *)
Theorem checkpoint_order s bs tr :
  ev_ok s bs →
  (∀ x e, x ∈ elems bs → events s !! x = Some e → restorable (curTick s) e) →
  dump_order s = Some (concat bs.*2) ∧
  ∃ ck s', serialize s = Some ck ∧ unserialize (EventQueue_new true tr (curTick s)) ck = Some s' ∧
    dump_order s' = Some (concat ((λ p, reverse (filter (λ x, kept (events s) x = true) p.2)) <$> bs)).
Proof.
  intros Hok Hre. pose proof Hok as [Hr Hs Hn _].
  pose proof (dump_order_ok s bs Hok) as Hd. pose proof (flat_elems bs) as Hfe.
  split; [by rewrite Hd, Hfe|].
  destruct (save_events (events s) (elems bs)) as (ll & Hm & Hll); [intros x; by eapply bins_rep_live|].
  assert (serialize s = Some (concat ll)) as ->
    by (unfold serialize; rewrite Hd, Hfe; unfold mbind at 1, option_bind at 1; by rewrite Hm).
  rewrite Hll. set (l := omap (saved (events s)) (elems bs)).
  destruct (restore_events (EventQueue_new true tr (curTick s)) [] l) as (s' & bs' & Hs' & Hok' & Hfl);
    [apply EventQueue_new_ok| |done| |].
  { eapply sublist_NoDup; [exact Hn|apply omap_saved_fst]. }
  { apply Forall_forall. intros [x e] Hin. cbn. apply list_elem_of_omap in Hin as (y & Hy & Hsv).
    unfold saved in Hsv. destruct (events s !! y) as [ey|] eqn:Hey; cbn in Hsv; [|done].
    destruct (Flags.isSet _ _); [|done]. injection Hsv as <- <-. by eapply Hre. }
  do 2 eexists. split; [done|]. split; [exact Hs'|]. rewrite (dump_order_ok s' bs' Hok'), Hfl.
  rewrite foldl_insert_keys. unfold l. rewrite (kept_bins _ _ _ Hr), foldl_insert_flat; [| |by intros].
  - cbn [app flat mbind list_bind]. rewrite flat_elems. unfold elems. do 2 f_equal.
    rewrite <- !list_fmap_compose. apply list_fmap_ext. by intros i [k b] _.
  - unfold sorted. by rewrite <- list_fmap_compose.
Qed.

(** Three simultaneous events, saved and restored. *)
Definition saved_calls : list Call :=
  [CNew 1 0 0; CNew 2 0 0; CNew 3 0 0; CSetFlags 1 Event.AutoSerialize; CSetFlags 2 Event.AutoSerialize;
   CSetFlags 3 Event.AutoSerialize; CSchedule 1 10; CSchedule 2 10; CSchedule 3 4].
Definition saved_queue : EvState := default (EventQueue_new true false 0)
  (run_calls (EventQueue_new true false 0) saved_calls).
Definition saved_bins : Bins := [((4, 0), [3%nat]); ((10, 0), [2; 1]%nat)].

Lemma saved_queue_ok : ev_ok saved_queue saved_bins.
Proof.
  constructor.
  - cbn. do 3 eexists. split_and!; try (vm_compute; reflexivity).
    do 3 eexists. split_and!; try (vm_compute; reflexivity).
    cbn. split; [vm_compute; reflexivity|]. eexists. split_and!; vm_compute; reflexivity.
  - unfold sorted. repeat constructor.
  - repeat constructor; set_solver.
  - intros x e. destruct (decide (x ∈ elems saved_bins)) as [Hin|Hni].
    + intros He. split; [done|]. intros _. repeat (apply elem_of_cons in Hin as [->|Hin]);
        [..|by apply elem_of_nil in Hin]; vm_compute in He; by injection He as <-.
    + intros He. exfalso. apply Hni. change (elems saved_bins) with [3; 2; 1]%nat.
      assert (x ∈ dom (events saved_queue)) as Hd by (apply elem_of_dom; by eexists).
      replace (dom (events saved_queue)) with ({[3; 2; 1]} : gset nat)%nat in Hd by (vm_compute; reflexivity).
      set_solver.
Qed.

Lemma checkpoint_order_witness :
  dump_order saved_queue = Some [3; 2; 1]%nat ∧
  ∃ ck s', serialize saved_queue = Some ck ∧
    unserialize (EventQueue_new true false (curTick saved_queue)) ck = Some s' ∧
    dump_order s' = Some (concat
      ((λ p, reverse (filter (λ x, kept (events saved_queue) x = true) p.2)) <$> saved_bins)).
Proof.
  apply (checkpoint_order saved_queue saved_bins false saved_queue_ok).
  intros x e Hx He. repeat (apply elem_of_cons in Hx as [->|Hx]); [..|by apply elem_of_nil in Hx];
    vm_compute in He; injection He as <-; by vm_compute.
Defined.
