(* ===== verification/Simulate.v ===== *)
(** * The main loop of the simulator

    src/m5/src/sim/simulate.cc and sim_events.cc: events that end the simulation
    and the loop that services the main event queue.  The loop is proved safe for
    all actions of events that schedule at legal times, and it is proved to end
    for actions that schedule only for later ticks. *)

From S2P Require Import Prelude Packet EventQueue EventRefine.

(** The signal handlers of the host that set the asynchronous flags tested at the
    end of an iteration are outside of the model. *)

(** ** Exit events *)

(** The constructor of [SimLoopExitEvent]. *)
Definition SimLoopExitEvent_new (s : EvState) (event : nat) : option EvState :=
  s ← Event_new s event Event.Sim_Exit_Pri 0;
  setFlags s event Event.IsExitEvent.

(** [exitSimLoop] as calls on the queue. *)
Definition exitSimLoop (event : nat) (now : Z) : list Call :=
  [CNew event Event.Sim_Exit_Pri 0; CSetFlags event Event.IsExitEvent; CSchedule event now].

(** [SimLoopExitEvent::process] for an event of the main queue: it ends the
    simulation by its flag and may repeat itself. *)
Definition SimLoopExitEvent_process (this : nat) (repeat : Z) (s : EvState) : list Call :=
  if truthy repeat then [CSchedule this (s64 (curTick s + repeat))] else [].

(** [CountedExitEvent::process] and [CountedDrainEvent::process] on their counter. *)
Definition CountedExitEvent_process (fresh : nat) (downCounter : Z) (s : EvState) : Z * list Call :=
  let d := downCounter - 1 in
  (d, if d =? 0 then exitSimLoop fresh (curTick s) else []).

(** ** The loop *)

(** The tick at which [simulate] stops.  The sum is computed in 64 bits; the code
    tests its sign to detect an overflow. *)
Definition simulate_limit (now num_cycles : Z) : option Z :=
  if num_cycles <? 0 then None
  else if s64 (now + num_cycles) <? 0 then Some MaxTick
  else Some (s64 (now + num_cycles)).

Section Simulate.
Context {X : Type} {A : EventActions X}.

(** One iteration: the time moves to the first event, which is serviced. *)
Definition sim_iter (x : X) (s : EvState) : option (X * EvState * option nat) :=
  if empty s then None
  else
    t ← nextTick s;
    if curTick s <=? t then serviceOne x (with_curTick s t) else None.

Fixpoint sim_loop (fuel : nat) (x : X) (s : EvState) : option (X * EvState * nat) :=
  match fuel with
  | O => None
  | S fuel =>
      '(x, s, r) ← sim_iter x s;
      match r with
      | Some exit_event => Some (x, s, exit_event)
      | None => sim_loop fuel x s
      end
  end.

(** The class of the exit event is not tested: only the constructor of
    [SimLoopExitEvent] sets [IsExitEvent]. *)
Definition simulate (fuel : nat) (x : X) (s : EvState) (limit_event : nat) (num_cycles : Z)
    : option (X * EvState * nat) :=
  t ← simulate_limit (curTick s) num_cycles;
  s ← SimLoopExitEvent_new s limit_event;
  s ← schedule s limit_event t;
  '(x, s, se_event) ← sim_loop fuel x s;
  if (se_event =? limit_event)%nat then Some (x, s, se_event)
  else
    e ← events s !! limit_event;
    if Event.scheduled e then s ← squash s limit_event; Some (x, s, se_event) else None.

End Simulate.

(** ** The first event *)

Section Pop.
Implicit Types (s : EvState) (bs : Bins).

Lemma head_ok s bs k x l :
  ev_ok s bs → flat bs = (k, x) :: l →
  ∃ b bs' e, bs = (k, x :: b) :: bs' ∧ l = (pair k <$> b) ++ flat bs' ∧ head s = Some x ∧
    events s !! x = Some e ∧ key e = k ∧ in_chain (events s) k (Event.nextInBin e) b ∧
    bins_rep (events s) (Event.nextBin e) bs'.
Proof.
  intros [Hr _ _ _] Hfl. destruct bs as [|[k' b'] bs']; [done|].
  destruct Hr as (y & b & e & -> & Hh & Hx & Hk & Hc & Hb). rewrite flat_cons in Hfl.
  cbn in Hfl. injection Hfl as <- <- <-. by exists b, bs', e.
Qed.

Lemma nextTick_ok s bs k x l : ev_ok s bs → flat bs = (k, x) :: l → nextTick s = Some k.1.
Proof.
  intros Hok Hfl. destruct (head_ok _ _ _ _ _ Hok Hfl) as (b & bs' & e & _ & _ & Hh & Hx & Hk & _).
  unfold nextTick. rewrite Hh. cbn [mbind option_bind]. rewrite Hx. cbn. by rewrite <- Hk.
Qed.

Lemma empty_ok s bs : ev_ok s bs → empty s = match flat bs with [] => true | _ => false end.
Proof.
  intros [Hr _ _ _]. unfold empty. destruct bs as [|[k b] bs]; [by rewrite (Hr : head s = None)|].
  by destruct Hr as (x & l & e & -> & -> & _).
Qed.

(** The state after [pop_head] on the reference machine. *)
Definition ref_pop (r : RefState) (x : nat) (e : Event.t) (l : list (Key * nat)) : RefState :=
  ref_with r (<[x := Event.clear_flags Event.Scheduled e]> (r_events r)) l.

Lemma pop_head_ok s bs k x l :
  ev_ok s bs → flat bs = (k, x) :: l →
  ∃ s' bs' e, pop_head s = Some (x, s') ∧ ev_ok s' bs' ∧ events s !! x = Some e ∧ key e = k ∧
    abs s' bs' = ref_pop (abs s bs) x (strip e) l.
Proof.
  intros Hok Hfl. destruct (head_ok _ _ _ _ _ Hok Hfl) as (b & bs1 & e & -> & -> & Hh & Hx & Hk & Hc & Hb).
  destruct Hok as [_ Hs Hn Hf]. rewrite elems_cons in Hn, Hf. cbn [app] in Hn, Hf.
  pose proof Hn as [Hxb Hn1]%NoDup_cons. pose proof Hn1 as (Hnb & Hdis & Hn2)%NoDup_app.
  destruct (sorted_cons _ _ _ Hs) as [Hs1 _].
  assert (x ∉ b ∧ x ∉ elems bs1) as [Hxb1 Hxb2] by set_solver.
  unfold pop_head. rewrite Hh. cbn [mbind option_bind]. rewrite Hx. cbn [mbind option_bind].
  rewrite (upd_eq _ _ _ _ Hx). cbn [mbind option_bind].
  set (h1 := <[x := Event.clear_flags Event.Scheduled e]> (events s)).
  assert (∀ y, y ≠ x → h1 !! y = events s !! y) as Hh1 by (intros; by apply lookup_insert_ne).
  assert (∀ h y ey, same_core h1 h → h !! y = Some ey →
            Event.scheduled ey = true ↔ y ∈ b ++ elems bs1) as Hflag.
  { intros h y ey Hcore Hy. destruct (same_core_lookup_r _ _ _ _ Hcore Hy) as (e1 & He1 & Hc1).
    rewrite (core_scheduled _ _ Hc1). destruct (decide (y = x)) as [->|Hne].
    - unfold h1 in He1. rewrite lookup_insert_eq in He1. injection He1 as <-.
      rewrite scheduled_clear. split; [done|]. set_solver.
    - rewrite Hh1 in He1 by done. rewrite (Hf y e1 He1). set_solver. }
  assert (strip <$> h1 = <[x := Event.clear_flags Event.Scheduled (strip e)]> (strip <$> events s)) as Hst
    by (unfold h1; by rewrite fmap_insert).
  destruct b as [|n b].
  - rewrite (Hc : Event.nextInBin e = None). exists (with_queue s h1 (Event.nextBin e)), bs1, e.
    split_and!; [done| |done|done|by unfold abs, ref_pop, ref_with; cbn; rewrite Hst].
    constructor; cbn; try done; [|by intros; eapply Hflag].
    eapply bins_rep_same; [|exact Hb]. intros y Hy. apply Hh1. set_solver.
  - destruct Hc as (Hnx & nv & Hnv & Hkn & Hc). rewrite Hnx.
    assert (h1 !! n = Some nv) as Hnv1 by (rewrite Hh1; [done|set_solver]).
    rewrite (upd_eq _ _ _ _ Hnv1). cbn [mbind option_bind].
    pose proof (same_core_links h1 n nv (Event.nextBin e) (Event.nextInBin nv) Hnv1) as Hcore.
    change (Event.with_links nv (Event.nextBin e) (Event.nextInBin nv))
      with (Event.set_nextBin (Event.nextBin e) nv) in Hcore.
    eexists (with_queue s _ (Some n)), ((k, n :: b) :: bs1), e.
    split_and!; [done| |done|done|].
    + constructor; cbn -[bins_rep]; try done.
      * apply NoDup_cons in Hnb as [Hnb _]. apply bins_rep_relink; try done; [|set_solver|].
        -- eapply in_chain_same; [|exact Hc]. intros y Hy. apply Hh1. set_solver.
        -- eapply bins_rep_same; [|exact Hb]. intros y Hy. apply Hh1. set_solver.
      * intros y ey Hy. by apply (Hflag _ y ey Hcore).
    + unfold abs, ref_pop, ref_with. cbn. by rewrite (same_core_strip _ _ Hcore), Hst.
Qed.

End Pop.

(** ** Time *)

(** A call that schedules an event for a time that the type represents. *)
Definition call_wf (c : Call) : Prop :=
  match c with
  | CSchedule _ t => 0 <= t < 2 ^ 63
  | CReschedule _ t _ => t < 2 ^ 63
  | _ => True
  end.

(** No event is in the past. *)
Definition on_time (r : RefState) : Prop :=
  0 <= r_now r < 2 ^ 63 ∧ Forall (λ p, r_now r <= p.1.1 < 2 ^ 63) (r_list r).

Section Calls.
Implicit Types (r : RefState) (l : list (Key * nat)) (P : Key * nat → Prop).

Lemma ref_insert_Forall P k x l : P (k, x) → Forall P l → Forall P (ref_insert k x l).
Proof. intros Hk Hl. rewrite ref_insert_perm. by constructor. Qed.

Lemma ref_remove_sublist x l : ref_remove x l `sublist_of` l.
Proof.
  induction l as [|[k y] l IH]; [done|]. cbn.
  destruct (y =? x)%nat; [by apply sublist_cons|by apply sublist_skip].
Qed.

Lemma ref_remove_Forall P x l : Forall P l → Forall P (ref_remove x l).
Proof.
  intros Hl. apply Forall_forall. intros p Hp. rewrite Forall_forall in Hl. apply Hl.
  by eapply elem_of_sublist; [|apply ref_remove_sublist].
Qed.

Lemma ref_call_now r c r' : ref_call r c = Some r' → r_now r' = r_now r.
Proof.
  intros Hc. destruct c; cbn in Hc; unfold ref_schedule, ref_deschedule, ref_reschedule, ref_modify in Hc;
    by repeat (progress simplify_option_eq || case_match).
Qed.

Lemma on_time_call r c r' : ref_call r c = Some r' → call_wf c → on_time r → on_time r'.
Proof.
  intros Hc Hw [Hn Hl]. split; [by rewrite (ref_call_now _ _ _ Hc)|].
  rewrite (ref_call_now _ _ _ Hc).
  destruct c as [x p w|x|x t|x|x t a|x f|x f|x]; cbn in Hc, Hw;
    unfold ref_schedule, ref_deschedule, ref_reschedule, ref_modify in Hc;
    repeat (progress simplify_option_eq || case_match); try done; cbn; zbool;
    try (apply ref_insert_Forall); try (by apply ref_remove_Forall); try done; cbn.
  match goal with H : u64 _ <= u64 _ |- _ => rewrite !u64_small in H by ilia end. lia.
Qed.

Lemma on_time_run r cs r' : ref_run r cs = Some r' → Forall call_wf cs → on_time r → on_time r' ∧ r_now r' = r_now r.
Proof.
  revert r. induction cs as [|c cs IH]; intros r Hr Hw Ht; cbn in Hr; [by injection Hr as <-|].
  apply Forall_cons in Hw as [Hc Hw]. destruct (ref_call r c) as [r1|] eqn:E; [|done].
  destruct (IH r1 Hr Hw) as [? ->]; [by eapply on_time_call|]. split; [done|].
  by eapply ref_call_now.
Qed.

End Calls.

Lemma run_calls_app s cs ds : run_calls s (cs ++ ds) = (s' ← run_calls s cs; run_calls s' ds).
Proof.
  revert s. induction cs as [|c cs IH]; intros s; cbn; [done|].
  destruct (apply_call s c); cbn; [apply IH|done].
Qed.

(** The end of [serviceOne] is a call of delete, if anything. *)
Lemma auto_delete_calls s ev s' :
  auto_delete s ev = Some s' → ∃ d, run_calls s d = Some s' ∧ ∀ c, c ∈ d → c = CDelete ev.
Proof.
  unfold auto_delete. destruct (events s !! ev) as [e|]; cbn [mbind option_bind]; [|done].
  destruct (_ && _); intros Hd.
  - exists [CDelete ev]. cbn. rewrite Hd. cbn. split; [done|set_solver].
  - exists []. cbn. split; [done|set_solver].
Qed.

Section Safety.
Context {X : Type} {A : EventActions X}.
Implicit Types (s : EvState) (x : X).

(** Servicing an event takes it from the queue and then makes calls: those of its
    action and those that clear and delete it. *)
Lemma serviceOne_calls x s x' s' r :
  serviceOne x s = Some (x', s', r) →
  ∃ ev s1 cs, pop_head s = Some (ev, s1) ∧ run_calls s1 cs = Some s' ∧
    ∀ c, c ∈ cs → c ∈ (process ev x s1).2 ∨ c = CDelete ev ∨ c = CClearFlags ev Event.Squashed.
Proof.
  unfold serviceOne. destruct (pop_head s) as [[ev s1]|]; cbn [mbind option_bind]; [|done].
  intros Hs. exists ev, s1. destruct (events s1 !! ev) as [e|] eqn:He; cbn [mbind option_bind] in Hs; [|done].
  destruct (negb (Event.squashed e)).
  - destruct (process ev x s1) as [x1 cs] eqn:Ep. cbn [snd].
    destruct (run_calls s1 cs) as [s2|] eqn:Ec; cbn [mbind option_bind] in Hs; [|done].
    destruct (events s2 !! ev) as [e2|]; cbn [mbind option_bind] in Hs; [|done].
    destruct (Event.isExitEvent e2).
    { destruct (Event.autoDelete e2); [done|]. injection Hs as <- <- <-. exists cs. eauto. }
    destruct (auto_delete s2 ev) as [s3|] eqn:Ed; cbn in Hs; [|done]. injection Hs as <- <- <-.
    destruct (auto_delete_calls _ _ _ Ed) as (d & Hd & Hin). exists (cs ++ d).
    rewrite run_calls_app, Ec. cbn. split_and!; [done..|]. intros c [Hc|Hc]%elem_of_app; auto.
  - destruct (upd (events s1) ev _) as [h|] eqn:Eu; cbn [mbind option_bind] in Hs; [|done].
    destruct (auto_delete _ ev) as [s3|] eqn:Ed; cbn in Hs; [|done]. injection Hs as <- <- <-.
    destruct (auto_delete_calls _ _ _ Ed) as (d & Hd & Hin). exists (CClearFlags ev Event.Squashed :: d).
    split_and!; [done| |]; [|intros c [->|Hc]%elem_of_cons; auto].
    cbn. unfold clearFlags. replace (Flags.noneSet _ _) with true by done. by rewrite Eu.
Qed.

(** The actions schedule at legal times. *)
Definition timely : Prop := ∀ ev x s, Forall call_wf (process ev x s).2.

(** What the simulator can do: calls from outside of the loop, and iterations. *)
Inductive sim_reach (m tr : bool) (now : Z) : EvState → Prop :=
  | reach_new : sim_reach m tr now (EventQueue_new m tr now)
  | reach_calls s cs s' :
      sim_reach m tr now s → Forall call_wf cs → run_calls s cs = Some s' → sim_reach m tr now s'
  | reach_iter s x x' s' r :
      sim_reach m tr now s → sim_iter x s = Some (x', s', r) → sim_reach m tr now s'.

Lemma with_curTick_ok s bs t : ev_ok s bs → ev_ok (with_curTick s t) bs.
Proof. by intros [? ? ? ?]. Qed.

(** One service on the reference machine. *)
Lemma serviceOne_on_time x s bs k ev l x' s' r :
  timely → ev_ok s bs → flat bs = (k, ev) :: l → curTick s = k.1 → on_time (abs s bs) →
  serviceOne x s = Some (x', s', r) →
  ∃ bs', ev_ok s' bs' ∧ on_time (abs s' bs') ∧ curTick s' = k.1.
Proof.
  intros Htm Hok Hfl Hk [H0 Hl] Hs.
  destruct (serviceOne_calls _ _ _ _ _ Hs) as (ev' & s1 & cs & Hp & Hc & Hcs).
  destruct (pop_head_ok _ _ _ _ _ Hok Hfl) as (s1' & bs1 & e & Hp' & Hok1 & _ & _ & Habs).
  rewrite Hp' in Hp. injection Hp as <- <-.
  pose proof (run_agree _ _ cs Hok1) as Ha. rewrite Hc in Ha.
  destruct (ref_run (abs s1' bs1) cs) as [r'|] eqn:Er; [|done]. destruct Ha as (bs' & Hok' & ->).
  assert (on_time (abs s1' bs1)) as Ht1.
  { rewrite Habs. split; [done|]. cbn in Hl |- *. rewrite Hfl in Hl. by apply Forall_cons in Hl as [_ ?]. }
  destruct (on_time_run _ _ _ Er) as [Ht' Hn]; [|done|].
  { apply Forall_forall. intros c Hin. destruct (Hcs c Hin) as [Hin'|[->| ->]]; [|done|done].
    specialize (Htm ev x s1'). rewrite Forall_forall in Htm. by apply Htm. }
  exists bs'. split_and!; [done|done|]. cbn in Hn. rewrite Hn.
  assert (r_now (abs s1' bs1) = r_now (abs s bs)) as Hn1 by (by rewrite Habs). cbn in Hn1. congruence.
Qed.

Lemma sim_iter_ok x s bs x' s' r :
  timely → ev_ok s bs → on_time (abs s bs) → sim_iter x s = Some (x', s', r) →
  ∃ bs', ev_ok s' bs' ∧ on_time (abs s' bs') ∧ curTick s <= curTick s' ∧ nextTick s = Some (curTick s').
Proof.
  intros Htm Hok [H0 Hl] Hs. unfold sim_iter in Hs. rewrite (empty_ok s bs Hok) in Hs.
  destruct (flat bs) as [|[k ev] l] eqn:Hfl; [done|].
  rewrite (nextTick_ok _ _ _ _ _ Hok Hfl) in Hs |- *. cbn [mbind option_bind] in Hs.
  destruct (Z.leb_spec (curTick s) k.1); [|done]. cbn [abs r_list r_now] in Hl, H0. rewrite Hfl in Hl.
  pose proof (with_curTick_ok s bs k.1 Hok) as Hok1.
  assert (on_time (abs (with_curTick s k.1) bs)) as Ht1.
  { pose proof Hl as [Hkk _]%Forall_cons. cbn in Hkk. split; [cbn; lia|]. cbn. rewrite Hfl.
    destruct Hok as [_ Hso _ _]. pose proof (flat_sorted bs Hso) as Hss. rewrite Hfl in Hss.
    apply StronglySorted_inv in Hss as [_ Hge]. apply Forall_cons. split; [cbn; lia|].
    apply Forall_cons in Hl as [_ Hl]. rewrite Forall_forall in Hge, Hl |- *. intros p Hin.
    specialize (Hge p Hin). specialize (Hl p Hin). unfold key_lt in Hge. cbn in *. lia. }
  destruct (serviceOne_on_time _ _ _ _ _ _ _ _ _ Htm Hok1 Hfl eq_refl Ht1 Hs) as (bs' & ? & ? & Hk).
  exists bs'. split_and!; [done|done|lia|by rewrite Hk].
Qed.

Lemma sim_reach_ok m tr now s :
  timely → 0 <= now < 2 ^ 63 → sim_reach m tr now s → ∃ bs, ev_ok s bs ∧ on_time (abs s bs).
Proof.
  intros Htm Hnow. induction 1 as [|s cs s' _ (bs & Hok & Ht) Hw Hc|s x x' s' r _ (bs & Hok & Ht) Hi].
  - exists []. split; [apply EventQueue_new_ok|]. split; [done|constructor].
  - pose proof (run_agree _ _ cs Hok) as Ha. rewrite Hc in Ha.
    destruct (ref_run (abs s bs) cs) as [r'|] eqn:Er; [|done]. destruct Ha as (bs' & Hok' & ->).
    destruct (on_time_run _ _ _ Er Hw Ht). by exists bs'.
  - destruct (sim_iter_ok _ _ _ _ _ _ Htm Hok Ht Hi) as (bs' & ? & ? & _). by exists bs'.
Qed.

End Safety.

(** If the actions of events schedule only at representable times, then in every
    state that the simulator reaches the queue is empty or its first event is not in
    the past, so that the assertion of the main loop holds, and an iteration moves
    the time forward to the time of that event, never back. *)
Theorem simulation_time {X} {A : EventActions X} m tr now (s : EvState) :
  timely → 0 <= now < 2 ^ 63 → sim_reach m tr now s →
  (empty s = true ∨ ∃ t, nextTick s = Some t ∧ curTick s <= t) ∧
  ∀ x x' s' r, sim_iter x s = Some (x', s', r) →
    curTick s <= curTick s' ∧ nextTick s = Some (curTick s').
Proof.
  intros Htm Hnow Hr. destruct (sim_reach_ok _ _ _ _ Htm Hnow Hr) as (bs & Hok & Ht). split.
  - rewrite (empty_ok s bs Hok). destruct (flat bs) as [|[k ev] l] eqn:Hfl; [by left|right].
    exists k.1. split; [by eapply nextTick_ok|]. destruct Ht as [_ Hl]. cbn in Hl.
    rewrite Hfl in Hl. apply Forall_cons in Hl as [? _]. cbn in *. lia.
  - intros x x' s' r Hi. destruct (sim_iter_ok _ _ _ _ _ _ Htm Hok Ht Hi) as (bs' & _ & _ & ? & ?). done.
Qed.

(** ** The loop ends *)

Definition call_event (c : Call) : nat :=
  match c with
  | CNew e _ _ | CDelete e | CSchedule e _ | CDeschedule e | CReschedule e _ _
  | CSetFlags e _ | CClearFlags e _ | CSquash e => e
  end.

Definition call_later (now : Z) (c : Call) : Prop :=
  match c with
  | CSchedule _ t | CReschedule _ t _ => now < t
  | _ => True
  end.

(** All events are initialized. *)
Definition init_ok (r : RefState) : Prop := map_Forall (λ _ e, Event.initialized e = true) (r_events r).

(** The event that ends the simulation at the tick [T] is in the queue. *)
Definition limit_ok (lim : nat) (T : Z) (r : RefState) : Prop :=
  ((T, Event.Sim_Exit_Pri), lim) ∈ r_list r ∧
  ∃ e, r_events r !! lim = Some e ∧ Event.squashed e = false ∧ Event.isExitEvent e = true ∧
       Event.autoDelete e = false.

(** No exit event is deleted automatically. *)
Definition exit_ok (h : Store) : Prop :=
  map_Forall (λ _ e, Event.isExitEvent e = true → Event.autoDelete e = false) h.

(** The number of events at a tick. *)
Definition count_at (t : Z) (l : list (Key * nat)) : nat := length (filter (λ p, p.1.1 = t) l).

Section Progress.
Implicit Types (r : RefState) (l : list (Key * nat)).

Lemma initialized_set f e :
  Z.land f Event.InitMask = 0 → Event.initialized (Event.set_flags f e) = Event.initialized e.
Proof.
  intros Hf. unfold Event.initialized, Event.set_flags, Flags.set. cbn [Event.flags Event.with_flags].
  by rewrite Z.land_lor_distr_l, Hf, Z.lor_0_r.
Qed.

Lemma initialized_clear f e :
  Z.land f Event.InitMask = 0 → Event.initialized (Event.clear_flags f e) = Event.initialized e.
Proof.
  intros Hf. unfold Event.initialized, Event.clear_flags, Flags.clear. cbn [Event.flags Event.with_flags].
  replace (Z.land (Z.ldiff (Event.flags e) f) Event.InitMask) with (Z.land (Event.flags e) Event.InitMask); [done|].
  apply Z.bits_inj'. intros i Hi. rewrite !Z.land_spec, Z.ldiff_spec.
  apply (f_equal (λ z, Z.testbit z i)) in Hf. rewrite Z.land_spec, Z.bits_0 in Hf.
  destruct (Z.testbit (Event.flags e) i), (Z.testbit f i), (Z.testbit Event.InitMask i); done.
Qed.

Lemma public_init f : Flags.noneSet f (Z.lnot Event.PublicWrite) = true → Z.land f Event.InitMask = 0.
Proof.
  intros Hf. apply Z.eqb_eq in Hf.
  replace Event.InitMask with (Z.land (Z.lnot Event.PublicWrite) Event.InitMask) by done.
  by rewrite Z.land_assoc, Hf.
Qed.

Lemma initialized_mark m e : Event.initialized (mark_queue m e) = Event.initialized e.
Proof. destruct m; cbn; [by apply initialized_set|by apply initialized_clear]. Qed.

Lemma initialized_setWhen t e : Event.initialized (Event.setWhen t e) = Event.initialized e.
Proof. done. Qed.

Lemma init_ok_call r c r' : ref_call r c = Some r' → init_ok r → init_ok r'.
Proof.
  intros Hc Hi. assert (∀ x e, r_events r !! x = Some e → Event.initialized e = true) as Hi' by (intros; by eapply Hi).
  destruct c as [x p w|x|x t|x|x t a|x f|x f|x]; cbn in Hc;
    unfold ref_schedule, ref_deschedule, ref_reschedule, ref_modify in Hc;
    repeat (progress simplify_option_eq || case_match); unfold init_ok; cbn [ref_with r_events];
    try (by apply map_Forall_delete); apply map_Forall_insert_2; try done;
    rewrite ?initialized_mark; rewrite ?initialized_set by (done || by apply public_init);
    rewrite ?initialized_clear by (done || by apply public_init);
    rewrite ?initialized_setWhen; by eapply Hi'.
Qed.

Lemma exit_ok_strip h : exit_ok (strip <$> h) ↔ exit_ok h.
Proof. unfold exit_ok. by rewrite map_Forall_fmap. Qed.

(** Flags other than those of an exit event and of automatic deletion. *)
Definition plain_flag (f : Z) : Prop := Z.testbit f 2 = false ∧ Z.testbit f 4 = false.

Lemma exit_bit e : Event.isExitEvent e = Z.testbit (Event.flags e) 4.
Proof. apply (testbit_flag _ 4). lia. Qed.

Lemma exit_set f e : plain_flag f → Event.isExitEvent (Event.set_flags f e) = Event.isExitEvent e ∧
  Event.autoDelete (Event.set_flags f e) = Event.autoDelete e.
Proof.
  intros [H2 H4]. rewrite !exit_bit, !autoDelete_bit. cbn -[Z.testbit]. unfold Flags.set.
  by rewrite !Z.lor_spec, H2, H4, !orb_false_r.
Qed.

Lemma exit_clear f e : plain_flag f → Event.isExitEvent (Event.clear_flags f e) = Event.isExitEvent e ∧
  Event.autoDelete (Event.clear_flags f e) = Event.autoDelete e.
Proof.
  intros [H2 H4]. rewrite !exit_bit, !autoDelete_bit. cbn -[Z.testbit]. unfold Flags.clear.
  by rewrite !Z.ldiff_spec, H2, H4, !andb_true_r.
Qed.

Lemma exit_mark m e : Event.isExitEvent (mark_queue m e) = Event.isExitEvent e ∧
  Event.autoDelete (mark_queue m e) = Event.autoDelete e.
Proof. destruct m; cbn; [by apply exit_set|by apply exit_clear]. Qed.

Lemma exit_modify h x e e' :
  exit_ok h → h !! x = Some e →
  Event.isExitEvent e' = Event.isExitEvent e ∧ Event.autoDelete e' = Event.autoDelete e →
  exit_ok (<[x := e']> h).
Proof. intros Hh Hx [H1 H2]. apply map_Forall_insert_2; [|done]. rewrite H1, H2. by apply (Hh x). Qed.

(** The calls that finish a serviced event. *)
Lemma exit_ok_finish r c r' ev :
  ref_call r c = Some r' → c = CDelete ev ∨ c = CClearFlags ev Event.Squashed →
  exit_ok (r_events r) → exit_ok (r_events r').
Proof.
  intros Hc [->| ->] Hr; cbn in Hc; unfold ref_modify in Hc;
    repeat (progress simplify_option_eq || case_match).
  - by apply map_Forall_delete.
  - eapply exit_modify; [done|done|by apply exit_clear].
Qed.

Lemma exit_ok_finish_run r cs r' ev :
  ref_run r cs = Some r' → Forall (λ c, c = CDelete ev ∨ c = CClearFlags ev Event.Squashed) cs →
  exit_ok (r_events r) → exit_ok (r_events r').
Proof.
  revert r. induction cs as [|c cs IH]; intros r Hr Hw He; cbn in Hr; [by injection Hr as <-|].
  apply Forall_cons in Hw as [Hc Hw]. destruct (ref_call r c) as [r1|] eqn:E; [|done].
  apply (IH r1); [done|done|by eapply exit_ok_finish].
Qed.

Lemma count_at_sublist t l l' : l' `sublist_of` l → (count_at t l' <= count_at t l)%nat.
Proof.
  unfold count_at. induction 1 as [|p l l' Hs IH|p l l' Hs IH]; [done| |]; rewrite !filter_cons;
    destruct (decide _); cbn; lia.
Qed.

Lemma count_at_insert t k x l : k.1 ≠ t → count_at t (ref_insert k x l) = count_at t l.
Proof.
  intros Hk. unfold count_at. rewrite (ref_insert_perm k x l), filter_cons.
  by rewrite decide_False.
Qed.

Lemma count_call r c r' :
  ref_call r c = Some r' → call_later (r_now r) c →
  (count_at (r_now r) (r_list r') <= count_at (r_now r) (r_list r))%nat.
Proof.
  intros Hc Hl. destruct c as [x p w|x|x t|x|x t a|x f|x f|x]; cbn in Hc, Hl;
    unfold ref_schedule, ref_deschedule, ref_reschedule, ref_modify in Hc;
    repeat (progress simplify_option_eq || case_match); cbn [ref_with r_list]; try done;
    rewrite ?count_at_insert by (cbn; lia); try done; apply count_at_sublist, ref_remove_sublist.
Qed.

Lemma ref_remove_other k x y l : (k, y) ∈ l → x ≠ y → (k, y) ∈ ref_remove x l.
Proof.
  intros Hin Hne. induction l as [|[k' z] l IH]; [set_solver|]. cbn.
  apply elem_of_cons in Hin as [[= <- <-]|Hin].
  - rewrite (proj2 (Nat.eqb_neq y x)) by done. set_solver.
  - destruct (z =? x)%nat; [done|]. set_solver.
Qed.

Lemma limit_call lim T r c r' :
  ref_call r c = Some r' → call_event c ≠ lim → limit_ok lim T r → limit_ok lim T r'.
Proof.
  intros Hc Hne [Hin (e & He & Hf)].
  assert (∀ k x l, k ∈ l → k ∈ ref_insert (x.1) (x.2) l) as Hins
    by (intros k x l Hk; rewrite ref_insert_perm; by apply elem_of_cons; right).
  split; [|exists e; split; [|done]];
    destruct c as [x p w|x|x t|x|x t a|x f|x f|x]; cbn in Hc, Hne;
    unfold ref_schedule, ref_deschedule, ref_reschedule, ref_modify in Hc;
    repeat (progress simplify_option_eq || case_match); cbn [ref_with r_list r_events]; try done;
    try (by rewrite lookup_insert_ne); try (by rewrite lookup_delete_ne);
    try (apply (Hins _ (_, _))); try done; by apply ref_remove_other.
Qed.

(** What a run of calls that leave the limit alone keeps. *)
Lemma calm_run lim T r cs r' :
  ref_run r cs = Some r' →
  Forall (λ c, call_event c ≠ lim ∧ call_wf c ∧ call_later (r_now r) c) cs →
  on_time r → init_ok r → limit_ok lim T r →
  on_time r' ∧ init_ok r' ∧ limit_ok lim T r' ∧ r_now r' = r_now r ∧
  (count_at (r_now r) (r_list r') <= count_at (r_now r) (r_list r))%nat.
Proof.
  revert r. induction cs as [|c cs IH]; intros r Hr Hw Ht Hi Hl; cbn in Hr; [injection Hr as <-; split_and!; done || lia|].
  apply Forall_cons in Hw as [(Hne & Hc & Hlt) Hw]. destruct (ref_call r c) as [r1|] eqn:E; [|done].
  pose proof (ref_call_now _ _ _ E) as Hn. pose proof (count_call _ _ _ E Hlt) as Hcnt.
  destruct (IH r1 Hr) as (? & ? & ? & Hn' & Hc'); rewrite ?Hn in *;
    [done|by eapply on_time_call|by eapply init_ok_call|by eapply limit_call|].
  split_and!; try done; congruence || lia.
Qed.

End Progress.

Section Termination.
Context {X : Type} {A : EventActions X}.
Implicit Types (s : EvState) (x : X).

(** Actions that may be simulated up to the tick [T]: their calls succeed, schedule
    only for later ticks and do not use the event that ends the simulation; an
    exit event is not deleted automatically. *)
Record calm (lim : nat) (T : Z) : Prop := {
  calm_calls : ∀ ev x s bs, ev_ok s bs → init_ok (abs s bs) → on_time (abs s bs) → exit_ok (events s) →
    curTick s <= T → is_Some (events s !! ev) → ev ≠ lim →
    Forall (λ c, call_event c ≠ lim ∧ call_wf c ∧ call_later (curTick s) c) (process ev x s).2 ∧
    ∃ s', run_calls s (process ev x s).2 = Some s' ∧ is_Some (events s' !! ev) ∧ exit_ok (events s');
  calm_limit : ∀ x s, (process lim x s).2 = []
}.

(** The state of the loop. *)
Definition loop_ok (lim : nat) (T : Z) (s : EvState) (bs : Bins) : Prop :=
  ev_ok s bs ∧ on_time (abs s bs) ∧ init_ok (abs s bs) ∧ limit_ok lim T (abs s bs) ∧ exit_ok (events s).

Lemma abs_event s bs ev e0 : r_events (abs s bs) !! ev = Some e0 → ∃ e, events s !! ev = Some e ∧ strip e = e0.
Proof. rewrite abs_lookup. destruct (events s !! ev) as [e|]; [|done]. intros [= <-]. by exists e. Qed.

Lemma limit_event lim T s bs :
  limit_ok lim T (abs s bs) →
  ∃ e, events s !! lim = Some e ∧ Event.squashed e = false ∧ Event.isExitEvent e = true ∧ Event.autoDelete e = false.
Proof. intros (_ & e0 & He0 & Hf). destruct (abs_event _ _ _ _ He0) as (e & He & <-). by exists e. Qed.

Lemma auto_delete_total s ev : is_Some (events s !! ev) → is_Some (auto_delete s ev).
Proof.
  intros [e He]. unfold auto_delete. rewrite He. cbn.
  destruct (Event.autoDelete e && negb (Event.scheduled e)) eqn:E; [|by eexists].
  zbool. unfold Event_delete, delete_event. rewrite He. cbn.
  match goal with H : Event.scheduled e = false |- _ => rewrite H end. by eexists.
Qed.

(** After the calls of a serviced event, the state is again a state of the loop. *)
Lemma loop_calls lim T s bs cs s' :
  loop_ok lim T s bs → run_calls s cs = Some s' → exit_ok (events s') →
  Forall (λ c, call_event c ≠ lim ∧ call_wf c ∧ call_later (curTick s) c) cs →
  ∃ bs', loop_ok lim T s' bs' ∧ curTick s' = curTick s ∧
    (count_at (curTick s) (flat bs') <= count_at (curTick s) (flat bs))%nat.
Proof.
  intros (Hok & Ht & Hi & Hl & _) Hc He Hw. pose proof (run_agree _ _ cs Hok) as Ha. rewrite Hc in Ha.
  destruct (ref_run (abs s bs) cs) as [r'|] eqn:Er; [|done]. destruct Ha as (bs' & Hok' & ->).
  destruct (calm_run _ _ _ _ _ Er Hw Ht Hi Hl) as (? & ? & ? & ? & ?). by exists bs'.
Qed.

(** Taking out an event other than the limit. *)
Lemma loop_pop lim T s bs k ev l :
  loop_ok lim T s bs → flat bs = (k, ev) :: l → ev ≠ lim →
  ∃ s1 bs1, pop_head s = Some (ev, s1) ∧ loop_ok lim T s1 bs1 ∧ flat bs1 = l ∧
    curTick s1 = curTick s ∧ is_Some (events s1 !! ev).
Proof.
  intros (Hok & [Hn Ht] & Hi & Hl & Hx) Hfl Hne.
  destruct (pop_head_ok _ _ _ _ _ Hok Hfl) as (s1 & bs1 & e & Hp & Hok1 & He & Hk & Habs).
  exists s1, bs1. split; [done|]. unfold loop_ok. rewrite Habs. cbn in Ht. rewrite Hfl in Ht.
  assert (flat bs1 = l) as Hfl1 by exact (f_equal r_list Habs). split_and!; try done.
  - split; [done|]. by apply Forall_cons in Ht as [_ ?].
  - apply map_Forall_insert_2; [|done]. rewrite initialized_clear by done.
    eapply (Hi ev). rewrite abs_lookup, He. done.
  - destruct Hl as [Hin (e0 & He0 & Hf)]. split.
    + cbn in Hin |- *. rewrite Hfl in Hin. apply elem_of_cons in Hin as [[= _ ?]|Hin]; [done|done].
    + exists e0. cbn. rewrite lookup_insert_ne by done. done.
  - apply exit_ok_strip. change (strip <$> events s1) with (r_events (abs s1 bs1)). rewrite Habs. cbn.
    eapply exit_modify; [by apply exit_ok_strip|by rewrite lookup_fmap, He|by apply exit_clear].
  - exact (f_equal r_now Habs).
  - assert (is_Some (r_events (abs s1 bs1) !! ev)) as [e1 He1].
    { rewrite Habs. cbn. rewrite lookup_insert_eq. by eexists. }
    destruct (abs_event _ _ _ _ He1) as (e2 & -> & _). by eexists.
Qed.

Lemma exit_finish s bs cs s' ev :
  ev_ok s bs → run_calls s cs = Some s' →
  Forall (λ c, c = CDelete ev ∨ c = CClearFlags ev Event.Squashed) cs →
  exit_ok (events s) → exit_ok (events s').
Proof.
  intros Hok Hc Hw He. pose proof (run_agree _ _ cs Hok) as Ha. rewrite Hc in Ha.
  destruct (ref_run (abs s bs) cs) as [r'|] eqn:Er; [|done]. destruct Ha as (bs' & _ & ->).
  apply exit_ok_strip. eapply (exit_ok_finish_run _ _ _ _ Er Hw). by apply exit_ok_strip.
Qed.

(** Servicing an event other than the limit. *)
Lemma service_other lim T x s bs k ev l :
  calm lim T → loop_ok lim T s bs → flat bs = (k, ev) :: l → ev ≠ lim → curTick s <= T →
  ∃ x' s' r bs', serviceOne x s = Some (x', s', r) ∧ r ≠ Some lim ∧ loop_ok lim T s' bs' ∧
    curTick s' = curTick s ∧ (count_at (curTick s) (flat bs') <= count_at (curTick s) l)%nat.
Proof.
  intros Hcalm Hlo Hfl Hne HT.
  destruct (loop_pop _ _ _ _ _ _ _ Hlo Hfl Hne) as (s1 & bs1 & Hp & Hlo1 & Hfl1 & Hn1 & [e1 He1]).
  assert (∃ x' s' r cs, serviceOne x s = Some (x', s', r) ∧ r ≠ Some lim ∧ run_calls s1 cs = Some s' ∧
    exit_ok (events s') ∧ Forall (λ c, call_event c ≠ lim ∧ call_wf c ∧ call_later (curTick s1) c) cs)
    as (x' & s' & r & cs & Hs & Hr & Hc & Hxs & Hw).
  { pose proof Hlo1 as (Hok1 & Ht1 & Hi1 & _ & Hx1).
    unfold serviceOne. rewrite Hp. cbn [mbind option_bind]. rewrite He1. cbn [mbind option_bind].
    destruct (Event.squashed e1); cbn [negb].
    - rewrite (upd_eq _ _ _ _ He1). cbn [mbind option_bind].
      edestruct (auto_delete_total (with_events s1 (<[ev := Event.clear_flags Event.Squashed e1]> (events s1))) ev)
        as [s3 Hd]; [cbn; rewrite lookup_insert_eq; by eexists|].
      rewrite Hd. destruct (auto_delete_calls _ _ _ Hd) as (d & Hd' & Hin).
      assert (run_calls s1 (CClearFlags ev Event.Squashed :: d) = Some s3) as Hrun.
      { cbn. unfold clearFlags. replace (Flags.noneSet _ _) with true by done. by rewrite (upd_eq _ _ _ _ He1). }
      do 3 eexists. exists (CClearFlags ev Event.Squashed :: d). split_and!; [done|done|done| |].
      + eapply exit_finish; [exact Hok1|exact Hrun| |done]. constructor; [by right|].
        apply Forall_forall. intros c Hc. left. by apply Hin.
      + constructor; [done|]. apply Forall_forall. by intros c ->%Hin.
    - destruct (calm_calls _ _ Hcalm ev x s1 bs1) as (Hw & s2 & Hrun & [e2 He2] & Hx2);
        [done|done|done|done|by rewrite Hn1|by eexists|done|].
      destruct (process ev x s1) as [x1 cs]. cbn [snd] in *. rewrite Hrun. cbn [mbind option_bind].
      rewrite He2. cbn [mbind option_bind]. destruct (Event.isExitEvent e2) eqn:Hex.
      + rewrite (Hx2 _ _ He2) by done. do 4 eexists. split_and!; [done|congruence|done|done|done].
      + destruct (auto_delete_total s2 ev) as [s3 Hd]; [by eexists|]. rewrite Hd.
        destruct (auto_delete_calls _ _ _ Hd) as (d & Hd' & Hin).
        pose proof (run_agree _ _ cs Hok1) as Ha2. rewrite Hrun in Ha2.
        destruct (ref_run _ cs) as [r2|]; [|done]. destruct Ha2 as (bs2 & Hok2 & _).
        do 3 eexists. exists (cs ++ d). split_and!; [done|done|by rewrite run_calls_app, Hrun| |].
        * eapply exit_finish; [exact Hok2|exact Hd'| |done]. apply Forall_forall. intros c Hc. left. by apply Hin.
        * apply Forall_app. split; [done|]. apply Forall_forall. by intros c ->%Hin. }
  destruct (loop_calls _ _ _ _ _ _ Hlo1 Hc Hxs Hw) as (bs' & Hlo' & Hn' & Hcnt).
  exists x', s', r, bs'. rewrite Hn1, Hfl1 in *. split_and!; try done; congruence.
Qed.

(** Servicing the limit ends the loop. *)
Lemma service_limit lim T x s bs k l :
  calm lim T → loop_ok lim T s bs → flat bs = (k, lim) :: l →
  ∃ x' s', serviceOne x s = Some (x', s', Some lim) ∧ curTick s' = curTick s.
Proof.
  intros Hcalm (Hok & _ & _ & Hl & _) Hfl.
  destruct (pop_head_ok _ _ _ _ _ Hok Hfl) as (s1 & bs1 & e & Hp & _ & He & _ & Habs).
  destruct (limit_event _ _ _ _ Hl) as (e' & He' & Hsq & Hex & Had).
  rewrite He in He'. injection He' as <-.
  assert (r_events (abs s1 bs1) !! lim = Some (Event.clear_flags Event.Scheduled (strip e))) as He1
    by (rewrite Habs; apply lookup_insert_eq).
  destruct (abs_event _ _ _ _ He1) as (e1 & Hs1 & Hst).
  assert (Event.flags e1 = Flags.clear (Event.flags e) (2 ^ 1)) as Hf1
    by exact (f_equal Event.flags Hst).
  unfold serviceOne. rewrite Hp. cbn [mbind option_bind]. rewrite Hs1. cbn [mbind option_bind].
  unfold Event.squashed, Event.isExitEvent, Event.autoDelete in *.
  change Event.Squashed with (2 ^ 0) in *. change Event.IsExitEvent with (2 ^ 4) in *.
  change Event.AutoDelete with (2 ^ 2) in *.
  rewrite Hf1, isSet_clear, Hsq by lia. cbn [negb andb].
  pose proof (calm_limit _ _ Hcalm x s1) as Hcs. destruct (process lim x s1) as [x1 cs]. cbn in Hcs. subst cs.
  cbn [run_calls mbind option_bind]. rewrite Hs1. cbn [mbind option_bind].
  rewrite Hf1, !isSet_clear, Hex, Had by lia. cbn. do 2 eexists. split; [done|].
  exact (f_equal r_now Habs).
Qed.

(** One iteration: it ends the simulation at the limit or before, or it makes progress. *)
Lemma sim_iter_total lim T x s bs :
  calm lim T → loop_ok lim T s bs →
  ∃ x' s' r, sim_iter x s = Some (x', s', r) ∧ curTick s <= curTick s' <= T ∧
    (r = Some lim ∧ curTick s' = T ∨
     r ≠ Some lim ∧ ∃ bs', loop_ok lim T s' bs' ∧
       (curTick s < curTick s' ∨ curTick s' = curTick s ∧
          (count_at (curTick s) (flat bs') < count_at (curTick s) (flat bs))%nat)).
Proof.
  intros Hcalm Hlo. pose proof Hlo as (Hok & [Hn Ht] & Hi & Hl & Hx). pose proof Hl as [Hin _].
  unfold sim_iter. rewrite (empty_ok s bs Hok). cbn in Ht, Hin.
  destruct (flat bs) as [|[k ev] l] eqn:Hfl; [set_solver|].
  rewrite (nextTick_ok _ _ _ _ _ Hok Hfl). cbn [mbind option_bind].
  pose proof Ht as [Hk _]%Forall_cons. cbn in Hk, Hn. rewrite (proj2 (Z.leb_le _ _)) by lia.
  pose proof (flat_sorted bs (ok_sorted _ _ Hok)) as Hss. rewrite Hfl in Hss.
  apply StronglySorted_inv in Hss as [_ Hge]. rewrite Forall_forall in Hge.
  assert (k.1 <= T) as HkT.
  { apply elem_of_cons in Hin as [[= <- _]|Hin]; [cbn; lia|].
    specialize (Hge _ Hin). unfold key_lt in Hge. cbn in Hge. lia. }
  assert (loop_ok lim T (with_curTick s k.1) bs) as Hlo1.
  { split_and!; [by apply with_curTick_ok| |done|done|done]. split; [cbn; lia|]. cbn. rewrite Hfl.
    apply Forall_cons in Ht as [_ Ht]. apply Forall_cons. split; [cbn; lia|].
    rewrite Forall_forall in Ht |- *. intros p Hp. specialize (Ht p Hp). specialize (Hge p Hp).
    unfold key_lt in Hge. cbn in *. lia. }
  destruct (decide (ev = lim)) as [->|Hne].
  - destruct (service_limit _ _ x _ _ _ _ Hcalm Hlo1 Hfl) as (x' & s' & -> & Hn'). cbn in Hn'.
    exists x', s', (Some lim). assert (k.1 = T) as HkT'.
    { apply elem_of_cons in Hin as [[= <-]|Hin]; [done|]. exfalso.
      pose proof (ok_nodup _ _ Hok) as Hnd. rewrite <- flat_elems, Hfl in Hnd. cbn in Hnd.
      apply NoDup_cons in Hnd as [Hnd _]. apply Hnd. apply list_elem_of_fmap. by eexists (_, lim). }
    split_and!; [done|lia|lia|left; split; [done|lia]].
  - destruct (service_other _ _ x _ _ _ _ _ Hcalm Hlo1 Hfl Hne) as (x' & s' & r & bs' & -> & Hr & Hlo' & Hn' & Hcnt);
      [cbn; lia|]. cbn in Hn', Hcnt. exists x', s', r. split_and!; [done|lia|lia|right]. split; [done|].
    exists bs'. split; [done|]. destruct (decide (curTick s = k.1)) as [Heq|]; [right|left; lia].
    rewrite Heq. split; [lia|]. unfold count_at in *. rewrite filter_cons, decide_True by done. cbn. lia.
Qed.

Lemma sim_loop_ends lim T x s bs :
  calm lim T → loop_ok lim T s bs →
  ∃ fuel x' s' e, sim_loop fuel x s = Some (x', s', e) ∧ curTick s' <= T ∧
    (e = lim ∧ curTick s' = T ∨ e ≠ lim ∧ ∃ bs', loop_ok lim T s' bs').
Proof.
  intros Hcalm. remember (Z.to_nat (T - curTick s)) as n eqn:En.
  remember (count_at (curTick s) (flat bs)) as m eqn:Em. revert m s bs x En Em.
  induction n as [n IHn] using lt_wf_ind. intros m. induction m as [m IHm] using lt_wf_ind.
  intros s bs x -> -> Hlo.
  destruct (sim_iter_total lim T x s bs Hcalm Hlo) as (x' & s' & r & Hi & Hn & Hr).
  destruct r as [e|].
  { exists 1%nat, x', s', e. cbn. rewrite Hi. cbn. split_and!; [done|lia|].
    destruct Hr as [[[= ->] ?]|[? (bs' & ? & _)]]; [by left|right]. split; [congruence|by exists bs']. }
  destruct Hr as [[? _]|(_ & bs' & Hlo' & Hp)]; [done|].
  assert (∃ fuel x1 s1 e, sim_loop fuel x' s' = Some (x1, s1, e) ∧ curTick s1 <= T ∧
    (e = lim ∧ curTick s1 = T ∨ e ≠ lim ∧ ∃ bs', loop_ok lim T s1 bs')) as (fuel & x1 & s1 & e & Hf & ? & ?).
  { destruct Hp as [Hlt|[Heq Hcnt]].
    - eapply (IHn (Z.to_nat (T - curTick s'))); [lia|done|done|done].
    - eapply (IHm (count_at (curTick s') (flat bs'))); [by rewrite Heq|by rewrite Heq|done|done]. }
  exists (S fuel), x1, s1, e. cbn. rewrite Hi. cbn. done.
Qed.

(** The limit enters the queue. *)
Lemma start_limit lim T s bs :
  ev_ok s bs → on_time (abs s bs) → init_ok (abs s bs) → exit_ok (events s) → events s !! lim = None →
  curTick s <= T < 2 ^ 63 →
  ∃ s' bs', (s1 ← SimLoopExitEvent_new s lim; schedule s1 lim T) = Some s' ∧ loop_ok lim T s' bs' ∧
    curTick s' = curTick s.
Proof.
  intros Hok Ht Hi Hx Hlim HT. pose proof Ht as [Hnow _]. cbn in Hnow.
  set (cs := [CNew lim Event.Sim_Exit_Pri 0; CSetFlags lim Event.IsExitEvent; CSchedule lim T]).
  pose proof (run_agree _ _ cs Hok) as Ha.
  assert (∃ r', ref_run (abs s bs) cs = Some r' ∧ limit_ok lim T r' ∧ exit_ok (r_events r')) as (r' & Er & Hl' & Hx').
  { cbn [cs ref_run ref_call]. rewrite abs_lookup, Hlim. cbn [fmap option_fmap option_map mbind option_bind].
    unfold ref_modify. replace (Flags.noneSet _ _) with true by done. cbn [ref_with r_events].
    rewrite lookup_insert_eq. cbn [mbind option_bind]. unfold ref_schedule. cbn [ref_with r_events r_now abs].
    rewrite lookup_insert_eq. cbn [mbind option_bind]. rewrite !u64_small by ilia.
    rewrite (proj2 (Z.leb_le _ _)) by lia. eexists. split; [done|]. split; [split|].
    - cbn [ref_with r_list]. rewrite ref_insert_perm. apply elem_of_cons. by left.
    - cbn [ref_with r_events r_main]. rewrite lookup_insert_eq. eexists. split; [done|].
      cbn [abs r_main]. by destruct (isMain s).
    - cbn [ref_with r_events r_main abs]. rewrite !insert_insert_eq.
      apply map_Forall_insert_2; [by destruct (isMain s)|by apply exit_ok_strip]. }
  rewrite Er in Ha. destruct (run_calls s cs) as [s'|] eqn:Es; [|done]. destruct Ha as (bs' & Hok' & ->).
  exists s', bs'. destruct (on_time_run _ _ _ Er) as [Ht' Hn'];
    [repeat constructor; cbn; lia|done|]. split_and!; [|unfold loop_ok; split_and!; [done|done| |done|by apply exit_ok_strip]|exact Hn'].
  - cbn in Es. unfold SimLoopExitEvent_new. destruct (Event_new s lim _ _) as [s1|]; cbn in Es |- *; [|done].
    destruct (setFlags s1 lim _) as [s2|]; cbn in Es |- *; [|done].
    destruct (schedule s2 lim T) as [s3|]; cbn in Es |- *; [|done]. done.
  - clear -Er Hi. revert Er Hi. generalize cs, (abs s bs). induction cs0 as [|c cs0 IH]; intros r Er Hi; cbn in Er.
    + by injection Er as <-.
    + destruct (ref_call r c) as [r1|] eqn:E; [|done]. apply (IH r1); [done|by eapply init_ok_call].
Qed.

End Termination.

(** C12. If the actions of events succeed and schedule only for later ticks, the main
    loop ends: from every state with no event in the past, [simulate] returns an
    exit event, at the latest at the limit and exactly there if it is the event
    that marks the limit. *)
Theorem simulation_ends {X} {A : EventActions X} x s bs lim num_cycles T :
  ev_ok s bs → on_time (abs s bs) → init_ok (abs s bs) → exit_ok (events s) → events s !! lim = None →
  is_s64 num_cycles → simulate_limit (curTick s) num_cycles = Some T → calm lim T →
  ∃ fuel x' s' e, simulate fuel x s lim num_cycles = Some (x', s', e) ∧
    curTick s' <= T ∧ (e = lim → curTick s' = T).
Proof.
  intros Hok Ht Hi Hx Hlim Hnum HT Hcalm. pose proof Ht as [Hnow _]. cbn in Hnow.
  assert (curTick s <= T < 2 ^ 63) as HTb.
  { unfold simulate_limit in HT. destruct (Z.ltb_spec num_cycles 0); [done|].
    destruct (Z.ltb_spec (s64 (curTick s + num_cycles)) 0); injection HT as <-; [change MaxTick with (2 ^ 63 - 1); lia|].
    ilia. }
  destruct (start_limit lim T s bs Hok Ht Hi Hx Hlim HTb) as (s1 & bs1 & Hs1 & Hlo1 & Hn1).
  destruct (sim_loop_ends lim T x s1 bs1 Hcalm Hlo1) as (fuel & x' & s2 & e & Hl & Hn2 & He).
  exists fuel, x'. unfold simulate. rewrite HT. cbn [mbind option_bind].
  destruct (SimLoopExitEvent_new s lim) as [s0|]; cbn [mbind option_bind] in Hs1 |- *; [|done].
  rewrite Hs1. cbn [mbind option_bind]. rewrite Hl. cbn [mbind option_bind].
  destruct He as [[-> He]|(He & bs2 & Hok2 & _ & _ & Hl2 & _)].
  { rewrite Nat.eqb_refl. by exists s2, lim. }
  rewrite (proj2 (Nat.eqb_neq e lim) He). destruct (limit_event _ _ _ _ Hl2) as (le & Hle & _).
  rewrite Hle. cbn [mbind option_bind]. destruct Hl2 as [Hin _].
  rewrite (proj2 (ok_flag _ _ Hok2 lim le Hle)); [|rewrite <- flat_elems; apply list_elem_of_fmap; by eexists (_, lim)].
  unfold squash. rewrite (upd_eq _ _ _ _ Hle). cbn. by do 2 eexists.
Qed.


(** ** A periodic event *)

(** Event 1 repeats itself every 7 ticks; other events do nothing. *)
#[export] Instance Periodic : EventActions unit := λ ev x s,
  (x, if (ev =? 1)%nat then [CReschedule 1 (s64 (curTick s + 7)) true] else []).

Lemma periodic_calm : calm 9 100.
Proof.
  constructor; [|done]. intros ev x s bs Hok Hi [Hn Ht] Hx HT [e He] Hne. unfold process, Periodic.
  cbn [snd]. destruct (Nat.eqb_spec ev 1) as [->|]; [|split; [constructor|exists s; by split_and!; [| |]]].
  cbn in Hn. rewrite s64_small by ilia.
  split; [repeat constructor; cbn in *; lia|].
  pose proof (call_agree s bs (CReschedule 1 (curTick s + 7) true) Hok) as Ha.
  cbn [apply_call ref_call] in Ha. unfold ref_reschedule in Ha. rewrite abs_lookup, He in Ha.
  cbn [fmap option_fmap option_map mbind option_bind abs r_now] in Ha.
  assert (Event.initialized (strip e) = true) as Hini by (apply (Hi 1%nat); by rewrite abs_lookup, He).
  rewrite Hini, (proj2 (Z.leb_le _ _)) in Ha by lia. cbn [andb orb] in Ha.
  cbn [run_calls apply_call]. destruct (reschedule s 1 (curTick s + 7) true) as [s'|]; [|done].
  destruct Ha as (bs' & _ & Habs). apply (f_equal r_events) in Habs. cbn [ref_with r_events r_main] in Habs.
  exists s'. split_and!; [done| |].
  - apply (f_equal (λ h, h !! 1%nat)) in Habs. rewrite lookup_insert_eq in Habs.
    destruct (abs_event s' bs' 1%nat _ (eq_sym Habs)) as (e' & -> & _). by eexists.
  - apply exit_ok_strip. change (strip <$> events s') with (r_events (abs s' bs')). rewrite <- Habs.
    eapply exit_modify; [by apply exit_ok_strip|by rewrite abs_lookup, He|].
    destruct (exit_mark (r_main (abs s bs)) (Event.set_flags Event.Scheduled (Event.clear_flags Event.Squashed
      (Event.setWhen (curTick s + 7) (strip e))))) as [-> ->].
    destruct (exit_set Event.Scheduled (Event.clear_flags Event.Squashed
      (Event.setWhen (curTick s + 7) (strip e)))) as [-> ->]; [done|].
    exact (exit_clear Event.Squashed (Event.setWhen (curTick s + 7) (strip e)) (conj eq_refl eq_refl)).
Qed.

(** The main queue with the periodic event. *)
Definition ticking : EvState := default (EventQueue_new true false 0)
  (run_calls (EventQueue_new true false 0) [CNew 1 0 0; CSchedule 1 3]).
Definition ticking_bins : Bins := [((3, 0), [1%nat])].

Lemma ticking_ok : ev_ok ticking ticking_bins.
Proof.
  constructor.
  - cbn. do 3 eexists. split_and!; vm_compute; reflexivity.
  - unfold sorted. repeat constructor.
  - repeat constructor. set_solver.
  - intros x e He. change (elems ticking_bins) with [1%nat].
    replace (events ticking) with ({[1%nat := Event.mk None None 3 0 0x7a62]} : Store) in He
      by (vm_compute; reflexivity).
    apply lookup_singleton_Some in He as [<- <-]. split; [set_solver|done].
Qed.

Lemma ticking_events : events ticking = {[1%nat := Event.mk None None 3 0 0x7a62]}.
Proof. vm_compute. reflexivity. Qed.

Lemma ticking_flags : init_ok (abs ticking ticking_bins) ∧ exit_ok (events ticking).
Proof.
  unfold init_ok, exit_ok, abs. cbn [r_events]. rewrite ticking_events, map_fmap_singleton.
  by rewrite !map_Forall_singleton.
Qed.

Lemma simulation_ends_witness :
  simulate 20 tt ticking 9 100 ≠ None ∧
  ∃ fuel x' s' e, simulate fuel tt ticking 9 100 = Some (x', s', e) ∧
    curTick s' <= 100 ∧ (e = 9%nat → curTick s' = 100).
Proof.
  split; [by vm_compute|].
  apply (simulation_ends tt ticking ticking_bins 9 100 100 ticking_ok);
    [|apply ticking_flags|apply ticking_flags|done|done|done|apply periodic_calm].
  split; [by vm_compute|]. repeat constructor; by vm_compute.
Defined.

Lemma periodic_timely : timely.
Proof.
  intros ev x s. unfold process, Periodic. cbn [snd]. destruct (ev =? 1)%nat; [|constructor].
  repeat constructor. cbn. pose proof (s64_range (curTick s + 7)). ilia.
Qed.

Lemma ticking_reach : sim_reach true false 0 ticking.
Proof.
  eapply (reach_calls _ _ _ _ [CNew 1 0 0; CSchedule 1 3]); [apply reach_new| |vm_compute; reflexivity].
  repeat constructor; cbn; lia.
Qed.

Lemma simulation_time_witness :
  (empty ticking = true ∨ ∃ t, nextTick ticking = Some t ∧ curTick ticking <= t) ∧
  ∀ x x' s' r, sim_iter x ticking = Some (x', s', r) →
    curTick ticking <= curTick s' ∧ nextTick ticking = Some (curTick s').
Proof. apply (simulation_time true false 0 ticking periodic_timely); [lia|apply ticking_reach]. Defined.

(** ** A time that wrapped around *)

(** The assertion of [schedule] compares the times as unsigned numbers, so that it
    accepts every negative time: the event is then in the past, and the assertion
    of the main loop fails when it becomes the first event. *)
Lemma schedule_accepts_negative s bs x e t :
  ev_ok s bs → events s !! x = Some e → Event.scheduled e = false → Event.initialized e = true →
  0 <= curTick s < 2 ^ 63 → - 2 ^ 63 <= t < 0 → is_Some (schedule s x t).
Proof.
  intros Hok Hx Hs Hi Hn Ht. pose proof (schedule_agree s bs x t Hok) as Ha.
  unfold ref_schedule in Ha. rewrite abs_lookup, Hx in Ha.
  cbn [fmap option_fmap option_map mbind option_bind abs r_now] in Ha.
  change (Event.scheduled (strip e)) with (Event.scheduled e) in Ha.
  change (Event.initialized (strip e)) with (Event.initialized e) in Ha.
  rewrite Hs, Hi, (proj2 (Z.leb_le _ _)) in Ha by ilia. cbn [andb negb] in Ha.
  destruct (schedule s x t); [by eexists|done].
Qed.

Example negative_time_stops_the_loop :
  (s ← run_calls (EventQueue_new true false 5) [CNew 1 0 0; CSchedule 1 (-3)];
   Some (nextTick s, sim_iter tt s)) = Some (Some (-3), None).
Proof. vm_compute. reflexivity. Qed.
