(* ===== verification/BranchPred.v ===== *)
(** The direction predictors of the out-of-order processor: saturating counters
    ([src/m5/src/cpu/o3/sat_counter.hh]), the local predictor
    ([src/m5/src/cpu/pred/2bit_local.hh], [2bit_local.cc]) and the tournament
    predictor ([tournament.hh], [tournament.cc]).

    A table is a list, its index an [unsigned].  [None] stands for [fatal], a
    failed [assert], an access outside a table and a shift by more than the
    width of the shifted type.  The [void *] that a predictor hands out with
    each prediction is an [option BPHistory], [None] being the null pointer.
    What the branch unit relies on is the type class [DirectionPredictor]. *)

From S2P Require Import Prelude IntMath.

(** ** Shifts and tables *)

(** [1 << bits] at [int] *)
Definition shl1 (bits : Z) : option Z := if bits <? 31 then Some (Z.shiftl 1 bits) else None.

(** [(addr >> sh) & mask], an [Addr] shifted and masked by an [unsigned] *)
Definition addr_bits (addr sh mask : Z) : option Z :=
  if sh <? 64 then Some (Z.land (Z.shiftr addr sh) mask) else None.

Definition vec_get {A} (v : list A) (i : Z) : option A := v !! Z.to_nat i.

Definition vec_upd {A} (f : A → A) (i : Z) (v : list A) : option (list A) :=
  x ← vec_get v i; Some (<[Z.to_nat i := f x]> v).

Definition check (b : bool) : option unit := if b then Some tt else None.

(** ** Saturating counters *)

Module SatCounter.

Record t := mk { initialVal : Z; maxVal : Z; counter : Z }.

(** The default constructor leaves [maxVal] as it finds it. *)
Definition SatCounter_default (found : Z) : t := mk 0 found 0.

Definition SatCounter_bits (bits : Z) : option t := m ← shl1 bits; Some (mk 0 (u8 (m - 1)) 0).

(** The constructor with an initial value stores into [initialVal] what
    [initialVal] held before. *)
Definition SatCounter_initial (found bits initial_val : Z) : option t :=
  m ← shl1 bits;
  let maxVal := u8 (m - 1) in
  if maxVal <? initial_val then None else Some (mk found maxVal initial_val).

Definition setBits (bits : Z) (c : t) : option t :=
  m ← shl1 bits; Some (mk (initialVal c) (u8 (m - 1)) (counter c)).

Definition reset (c : t) : t := mk (initialVal c) (maxVal c) (initialVal c).

Definition increment (c : t) : t :=
  if counter c <? maxVal c then mk (initialVal c) (maxVal c) (u8 (counter c + 1)) else c.

Definition decrement (c : t) : t :=
  if counter c >? 0 then mk (initialVal c) (maxVal c) (u8 (counter c - 1)) else c.

Definition read (c : t) : Z := counter c.

(** A counter of a table whose counters have [bits] bits. *)
Record ok (bits : Z) (c : t) : Prop := {
  ok_init : initialVal c = 0;
  ok_max : maxVal c = u8 (2 ^ bits - 1);
  ok_range : 0 <= counter c <= maxVal c
}.

Definition train (taken : bool) (c : t) : t := if taken then increment c else decrement c.

Lemma train_fun b : train b = if b then increment else decrement.
Proof. by destruct b. Qed.

Lemma ok_max_range bits c : ok bits c → 0 <= maxVal c < 256.
Proof. intros H. rewrite (ok_max _ _ H). ilia. Qed.

Lemma train_counter bits b c : ok bits c →
  counter (train b c) = if b then Z.min (counter c + 1) (maxVal c) else Z.max (counter c - 1) 0.
Proof.
  intros H. pose proof (ok_range _ _ H) as Hr. pose proof (ok_max_range _ _ H).
  destruct b; cbn; unfold increment, decrement.
  - zcase; cbn; [|lia]. ilia.
  - rewrite Z.gtb_ltb. zcase; cbn; [|lia]. ilia.
Qed.

Lemma train_max b c : maxVal (train b c) = maxVal c.
Proof. destruct b; cbn; unfold increment, decrement; by case_match. Qed.

Lemma train_ok bits b c : ok bits c → ok bits (train b c).
Proof.
  intros H. split; [|rewrite train_max; apply H|].
  - rewrite <- (ok_init _ _ H). destruct b; cbn; unfold increment, decrement; by case_match.
  - rewrite (train_counter bits), train_max by done.
    pose proof (ok_range _ _ H) as Hr. pose proof (ok_max_range _ _ H). destruct b; lia.
Qed.

Lemma reset_ok bits c : ok bits c → ok bits (reset c).
Proof.
  intros H. pose proof (ok_max_range _ _ H) as Hm. destruct H as [Hi Hx Hr].
  split; cbn; [done..|]. rewrite Hi. lia.
Qed.

Lemma setBits_default bits found :
  0 <= bits < 31 → setBits bits (SatCounter_default found) = Some (mk 0 (u8 (2 ^ bits - 1)) 0).
Proof.
  intros Hb. unfold setBits, shl1. rewrite (proj2 (Z.ltb_lt bits 31)) by lia.
  cbn. by rewrite Z.shiftl_1_l.
Qed.

Lemma new_ok bits : ok bits (mk 0 (u8 (2 ^ bits - 1)) 0).
Proof. split; cbn; [done..|]. ilia. Qed.

End SatCounter.

(** [ctrs.resize(n)] followed by [setBits(bits)] of each counter *)
Definition ctr_table (found : Z) (n : nat) (bits : Z) : option (list SatCounter.t) :=
  mapM (SatCounter.setBits bits) (replicate n (SatCounter.SatCounter_default found)).

(** A table of [2 ^ k] counters of [bits] bits. *)
Definition table_ok (k bits : Z) (v : list SatCounter.t) : Prop :=
  length v = Z.to_nat (2 ^ k) ∧ Forall (SatCounter.ok bits) v.

Section Tables.

Lemma shl1_Some bits : 0 <= bits < 31 → shl1 bits = Some (2 ^ bits).
Proof.
  intros Hb. unfold shl1. rewrite (proj2 (Z.ltb_lt bits 31)) by lia. by rewrite Z.shiftl_1_l.
Qed.

Lemma addr_bits_Some addr sh k :
  0 <= k → sh < 64 → addr_bits addr sh (2 ^ k - 1) = Some (Z.shiftr addr sh mod 2 ^ k).
Proof.
  intros Hk Hs. unfold addr_bits. rewrite (proj2 (Z.ltb_lt sh 64)) by lia.
  by rewrite land_ones_mod.
Qed.

Lemma vec_get_Some {A} (v : list A) i k :
  length v = Z.to_nat (2 ^ k) → 0 <= i < 2 ^ k → ∃ x, vec_get v i = Some x.
Proof. intros Hl Hi. apply lookup_lt_is_Some. lia. Qed.

Lemma vec_upd_Some {A} (f : A → A) v i k :
  length v = Z.to_nat (2 ^ k) → 0 <= i < 2 ^ k →
  ∃ x, vec_get v i = Some x ∧ vec_upd f i v = Some (<[Z.to_nat i := f x]> v).
Proof.
  intros Hl Hi. destruct (vec_get_Some v i k Hl Hi) as [x Hx].
  exists x. split; [done|]. unfold vec_upd. by rewrite Hx.
Qed.

Lemma table_train k bits v i (b : bool) :
  table_ok k bits v → 0 <= i < 2 ^ k →
  ∃ v', vec_upd (if b then SatCounter.increment else SatCounter.decrement) i v = Some v' ∧
        table_ok k bits v'.
Proof.
  intros [Hl Hf] Hi.
  destruct (vec_upd_Some (SatCounter.train b) v i k Hl Hi) as (c & Hc & E).
  exists (<[Z.to_nat i := SatCounter.train b c]> v). split; [by destruct b|].
  split; [by rewrite length_insert|]. apply Forall_insert; [done|].
  apply SatCounter.train_ok. by eapply Forall_lookup_1.
Qed.

Lemma ctr_table_Some found k bits :
  0 <= bits < 31 → ∃ v, ctr_table found (Z.to_nat (2 ^ k)) bits = Some v ∧ table_ok k bits v.
Proof.
  intros Hb. unfold ctr_table, table_ok.
  exists (replicate (Z.to_nat (2 ^ k)) (SatCounter.mk 0 (u8 (2 ^ bits - 1)) 0)).
  rewrite length_replicate. split_and!; [|done|].
  - induction (Z.to_nat (2 ^ k)) as [|n IH]; [done|].
    cbn [replicate mapM]. rewrite SatCounter.setBits_default by done. cbn [mbind option_bind].
    by rewrite IH.
  - apply Forall_replicate, SatCounter.new_ok.
Qed.

Lemma shl1_inv bits m : 0 <= bits → shl1 bits = Some m → bits < 31 ∧ m = 2 ^ bits.
Proof.
  intros Hb. unfold shl1. zcase; [|done]. intros [= <-]. by rewrite Z.shiftl_1_l.
Qed.

(** A table that could be built has counters of fewer than 31 bits. *)
Lemma ctr_table_inv found k bits v :
  0 <= k → 0 <= bits → ctr_table found (Z.to_nat (2 ^ k)) bits = Some v → bits < 31 ∧ table_ok k bits v.
Proof.
  intros Hk Hb E. assert (bits < 31) as Hlt.
  { destruct (Z_lt_le_dec bits 31); [done|]. exfalso. revert E. unfold ctr_table.
    assert (Z.to_nat (2 ^ k) ≠ 0%nat) as Hne by lia.
    destruct (Z.to_nat (2 ^ k)) as [|n]; [done|]. cbn [replicate mapM].
    unfold SatCounter.setBits, shl1. by rewrite (proj2 (Z.ltb_ge bits 31)). }
  split; [done|]. destruct (ctr_table_Some found k bits) as (w & Ew & Hw); [done|].
  rewrite E in Ew. by injection Ew as ->.
Qed.

Lemma power_of_two_32 n :
  is_u32 n → isPowerOf2 32 n = true → ∃ k, 0 <= k < 32 ∧ n = 2 ^ k.
Proof. intros Hn. apply isPowerOf2_spec; [lia|done]. Qed.

End Tables.

(** ** What a prediction records *)

(** [TournamentBP::BPHistory]; [globalUsed] is not set for an unconditional
    branch, which is [None]. *)
Record BPHistory := mkBPHistory {
  bh_globalHistory : Z;
  localPredTaken : bool;
  globalPredTaken : bool;
  globalUsed : option bool
}.

(** What the branch unit needs of a direction predictor: its four calls, an
    invariant, the histories that can be given back to it and the sizes it was
    built with.  In a state that satisfies the invariant no call fails, calls
    keep the invariant, the sizes and the outstanding histories, and squashing a prediction that nothing followed
    restores the predictor exactly. *)
Class DirectionPredictor (P : Type) := {
  bp_lookup : P → Z → option (bool * option BPHistory * P);
  bp_uncond : P → option BPHistory * P;
  bp_update : P → Z → bool → option BPHistory → option P;
  bp_squash : P → option BPHistory → option P;
  bp_wf : P → Prop;
  bp_hist : P → option BPHistory → Prop;
  bp_config : P → list Z;
  bp_keeps : P → P → Prop := λ p p', bp_wf p' ∧ bp_config p' = bp_config p ∧ ∀ h, bp_hist p h → bp_hist p' h;
  bp_lookup_ok : ∀ p pc, bp_wf p → ∃ b h p',
    bp_lookup p pc = Some (b, h, p') ∧ bp_keeps p p' ∧ bp_hist p' h ∧ bp_squash p' h = Some p;
  bp_uncond_ok : ∀ p, bp_wf p → ∃ h p',
    bp_uncond p = (h, p') ∧ bp_keeps p p' ∧ bp_hist p' h ∧ bp_squash p' h = Some p;
  bp_update_ok : ∀ p pc b h, bp_wf p → bp_hist p h → ∃ p', bp_update p pc b h = Some p' ∧ bp_keeps p p';
  bp_squash_ok : ∀ p h, bp_wf p → bp_hist p h → ∃ p', bp_squash p h = Some p' ∧ bp_keeps p p'
}.

Section Keeps.
Context `{DirectionPredictor P}.

Lemma bp_keeps_refl p : bp_wf p → bp_keeps p p.
Proof. intros Hw. split; [done|]. by split. Qed.

Lemma bp_keeps_trans p1 p2 p3 : bp_keeps p1 p2 → bp_keeps p2 p3 → bp_keeps p1 p3.
Proof.
  intros (_ & Hc1 & Hh1) (Hw2 & Hc2 & Hh2). split; [done|]. split; [by rewrite Hc2|].
  intros h Hh. by apply Hh2, Hh1.
Qed.

Lemma bp_keeps_config p1 p2 : bp_keeps p1 p2 → bp_config p2 = bp_config p1.
Proof. by intros (_ & Hc & _). Qed.

End Keeps.

(** ** The local predictor *)

Module LocalBP.

Record t := mk {
  localCtrs : list SatCounter.t;
  localPredictorSize : Z;
  localPredictorSets : Z;
  localCtrBits : Z;
  instShiftAmt : Z;
  indexMask : Z
}.

(** [LocalBP::LocalBP]; [found] is what the storage of the counters held. *)
Definition LocalBP_new (found size bits shift : Z) : option t :=
  _ ← check (isPowerOf2 32 size);
  _ ← check (negb (bits =? 0));
  let sets := size / bits in
  _ ← check (isPowerOf2 32 sets);
  ctrs ← ctr_table found (Z.to_nat sets) bits;
  Some (mk ctrs size sets bits shift (u32 (sets - 1))).

Definition with_ctrs (p : t) (ctrs : list SatCounter.t) : t :=
  mk ctrs (localPredictorSize p) (localPredictorSets p) (localCtrBits p) (instShiftAmt p) (indexMask p).

Definition reset (p : t) : t := with_ctrs p (SatCounter.reset <$> localCtrs p).

Definition getLocalIndex (p : t) (branch_addr : Z) : option Z :=
  addr_bits branch_addr (instShiftAmt p) (indexMask p).

(** [count >> (localCtrBits - 1)] as a truth value *)
Definition getPrediction (p : t) (count : Z) : option bool :=
  let sh := u32 (localCtrBits p - 1) in
  if sh <? 32 then Some (truthy (Z.shiftr count sh)) else None.

Definition lookup (p : t) (branch_addr : Z) : option bool :=
  i ← getLocalIndex p branch_addr;
  c ← vec_get (localCtrs p) i;
  getPrediction p (SatCounter.read c).

Definition update (p : t) (branch_addr : Z) (taken : bool) (bp_history : option BPHistory) : option t :=
  _ ← check (bool_decide (bp_history = None));
  i ← getLocalIndex p branch_addr;
  ctrs ← vec_upd (if taken then SatCounter.increment else SatCounter.decrement) i (localCtrs p);
  Some (with_ctrs p ctrs).

Definition squash (p : t) (bp_history : option BPHistory) : option t :=
  _ ← check (bool_decide (bp_history = None)); Some p.

Record wf_at (k : Z) (p : t) : Prop := {
  wf_k : 0 <= k < 32;
  wf_sets : localPredictorSets p = 2 ^ k;
  wf_mask : indexMask p = 2 ^ k - 1;
  wf_bits : 1 <= localCtrBits p < 31;
  wf_shift : instShiftAmt p < 64;
  wf_ctrs : table_ok k (localCtrBits p) (localCtrs p)
}.

Definition wf (p : t) : Prop := ∃ k, wf_at k p.

Definition config (p : t) : list Z :=
  [localPredictorSize p; localPredictorSets p; localCtrBits p; instShiftAmt p; indexMask p].

Lemma LocalBP_new_wf found size bits shift p :
  is_u32 size → is_u32 bits → 0 <= shift < 64 →
  LocalBP_new found size bits shift = Some p → wf p.
Proof.
  intros Hs Hb Hh. unfold LocalBP_new. obind []. unfold check at 1.
  destruct (Z.eqb_spec bits 0) as [|Hb0]; [done|]. cbn [negb mbind option_bind].
  unfold check at 1. destruct (isPowerOf2 32 (size / bits)) eqn:E2; [cbn [mbind option_bind]|done].
  apply power_of_two_32 in E2 as (k & Hk & Ek);
    [|unfold is_u32 in *; pose proof (Z.div_le_upper_bound size bits size); nia].
  rewrite Ek. obind [ctrs|] E3. intros [= <-].
  apply ctr_table_inv in E3 as [Hb1 Hv]; [|unfold is_u32 in *; lia..].
  assert (is_u32 (2 ^ k - 1)) as Hu.
  { unfold is_u32. pose proof (Z.pow_lt_mono_r 2 k 32). lia. }
  exists k. split; cbn; [done..|by rewrite u32_small|unfold is_u32 in *; lia|lia|done].
Qed.

(** In a well-formed predictor the table lookups succeed. *)
Section Total.
Context (p : t) (k : Z) (Hw : wf_at k p).

Definition index (pc : Z) : Z := Z.shiftr pc (instShiftAmt p) mod 2 ^ k.

Lemma local_idx_range pc : 0 <= index pc < 2 ^ k.
Proof using Hw. unfold index. pose proof (wf_k _ _ Hw). apply Z.mod_pos_bound. lia. Qed.

Lemma getLocalIndex_Some pc : getLocalIndex p pc = Some (index pc).
Proof using Hw.
  unfold getLocalIndex. rewrite (wf_mask _ _ Hw).
  apply addr_bits_Some; [apply Hw|apply Hw].
Qed.

Lemma getPrediction_Some c :
  0 <= c → getPrediction p c = Some (2 ^ (localCtrBits p - 1) <=? c).
Proof using Hw.
  intros Hc. unfold getPrediction. pose proof (wf_bits _ _ Hw) as Hb.
  rewrite u32_small by ilia. rewrite (proj2 (Z.ltb_lt _ 32)) by lia. f_equal. unfold truthy.
  rewrite Z.shiftr_div_pow2 by lia. pose proof (Z.pow_pos_nonneg 2 (localCtrBits p - 1)).
  zcase; zcase; cbn; [|done|done|]; [|].
  - apply Z.div_small_iff in e; lia.
  - rewrite Z.div_small in n by lia. done.
Qed.

Lemma local_update_Some pc b : ∃ p', update p pc b None = Some p' ∧ wf_at k p' ∧ config p' = config p ∧
  ∃ c, vec_get (localCtrs p) (index pc) = Some c ∧ SatCounter.ok (localCtrBits p) c ∧
       localCtrs p' = <[Z.to_nat (index pc) := SatCounter.train b c]> (localCtrs p).
Proof using Hw.
  unfold update. rewrite bool_decide_true by done. cbn [check mbind option_bind].
  rewrite getLocalIndex_Some. cbn [mbind option_bind].
  destruct (wf_ctrs _ _ Hw) as [Hl Hf].
  destruct (vec_upd_Some (SatCounter.train b) _ _ k Hl (local_idx_range pc)) as (c & Hc & E).
  pose proof (table_train k _ _ _ b (wf_ctrs _ _ Hw) (local_idx_range pc)) as (v & Ev & Hv).
  assert (v = <[Z.to_nat (index pc):=SatCounter.train b c]> (localCtrs p)) as ->
    by (rewrite <- SatCounter.train_fun, E in Ev; by injection Ev).
  exists (with_ctrs p (<[Z.to_nat (index pc):=SatCounter.train b c]> (localCtrs p))). split_and!.
  - by rewrite Ev.
  - destruct Hw. by split.
  - done.
  - exists c. split_and!; [done|by eapply Forall_lookup_1|done].
Qed.

Lemma local_lookup_Some pc : ∃ c, vec_get (localCtrs p) (index pc) = Some c ∧
  SatCounter.ok (localCtrBits p) c ∧
  lookup p pc = Some (2 ^ (localCtrBits p - 1) <=? SatCounter.counter c).
Proof using Hw.
  unfold lookup. rewrite getLocalIndex_Some. cbn [mbind option_bind].
  destruct (wf_ctrs _ _ Hw) as [Hl Hf].
  destruct (vec_get_Some _ _ k Hl (local_idx_range pc)) as [c Hc]. rewrite Hc. cbn [mbind option_bind].
  assert (SatCounter.ok (localCtrBits p) c) as Hok by by eapply Forall_lookup_1.
  exists c. split_and!; [done..|]. apply getPrediction_Some.
  pose proof (SatCounter.ok_range _ _ Hok). unfold SatCounter.read. lia.
Qed.

Lemma reset_wf : wf_at k (reset p).
Proof using Hw.
  destruct Hw as [? ? ? ? ? [Hl Hf]]. split; cbn; [done..|]. split; [by rewrite length_fmap|].
  apply Forall_fmap. eapply Forall_impl; [done|]. intros c. apply SatCounter.reset_ok.
Qed.

End Total.

(** The local predictor as a direction predictor: it keeps no history, so its
    histories are null. *)
#[global] Program Instance local_direction : DirectionPredictor t := {
  bp_lookup p pc := b ← lookup p pc; Some (b, None, p);
  bp_uncond p := (None, p);
  bp_update := update;
  bp_squash := squash;
  bp_wf := wf;
  bp_hist _ h := h = None;
  bp_config p := config p
}.
Next Obligation.
  intros p pc [k Hw]. destruct (local_lookup_Some p k Hw pc) as (c & _ & _ & ->). cbn.
  eexists _, _, _. split_and!; [done|by exists k|done..].
Qed.
Next Obligation.
  intros p Hw. eexists _, _. by split_and!.
Qed.
Next Obligation.
  intros p pc b h [k Hw] ->. destruct (local_update_Some p k Hw pc b) as (p' & -> & Hw' & Hcf & _).
  exists p'. split; [done|]. split; [by exists k|done].
Qed.
Next Obligation.
  intros p h Hw ->. exists p. split; [done|]. by split.
Qed.

End LocalBP.

(** ** The tournament predictor *)

(** [floorPow2] at [unsigned] *)
Definition floorPow2_32 (n : Z) : option Z := (λ l, u32 (Z.shiftl 1 l)) <$> floorLog2 n.

Module TournamentBP.

Record t := mk {
  localCtrs : list SatCounter.t;
  localPredictorSize : Z;
  localPredictorMask : Z;
  localCtrBits : Z;
  localHistoryTable : list Z;
  localHistoryTableSize : Z;
  localHistoryBits : Z;
  localHistoryMask : Z;
  globalCtrs : list SatCounter.t;
  globalPredictorSize : Z;
  globalCtrBits : Z;
  globalHistory : Z;
  globalHistoryBits : Z;
  globalHistoryMask : Z;
  choiceCtrs : list SatCounter.t;
  choicePredictorSize : Z;
  choiceCtrBits : Z;
  instShiftAmt : Z;
  threshold : Z
}.

(** A power of two that a loop over an [int] can count to. *)
Definition table_size (n : Z) : option nat :=
  _ ← check (isPowerOf2 32 n); _ ← check (n <? 2 ^ 31); Some (Z.to_nat n).

(** [TournamentBP::TournamentBP] with the parameters in the order of its
    definition; the size of the choice predictor is that of the global
    predictor, whatever [choiceSize] is. *)
Definition TournamentBP_new (found localSize localBits tableSize histBits globalSize globalBits
    globalHistBits choiceSize choiceBits shift : Z) : option t :=
  n ← table_size localSize;
  locals ← ctr_table found n localBits;
  pow ← floorPow2_32 localSize;
  m ← table_size tableSize;
  lmask ← shl1 histBits;
  g ← table_size globalSize;
  globals ← ctr_table found g globalBits;
  gmask ← shl1 globalHistBits;
  c ← table_size globalSize;
  choices ← ctr_table found c choiceBits;
  th ← shl1 (u32 (localBits - 1));
  Some (mk locals localSize (u32 (pow - 1)) localBits
           (replicate m 0) tableSize histBits (lmask - 1)
           globals globalSize globalBits 0 globalHistBits (gmask - 1)
           choices globalSize choiceBits shift (th - 1)).

Definition set_globalHistory (p : t) (h : Z) : t :=
  mk (localCtrs p) (localPredictorSize p) (localPredictorMask p) (localCtrBits p)
     (localHistoryTable p) (localHistoryTableSize p) (localHistoryBits p) (localHistoryMask p)
     (globalCtrs p) (globalPredictorSize p) (globalCtrBits p)
     h (globalHistoryBits p) (globalHistoryMask p)
     (choiceCtrs p) (choicePredictorSize p) (choiceCtrBits p) (instShiftAmt p) (threshold p).

Definition set_tables (p : t) (locals globals choices : list SatCounter.t) (hists : list Z) : t :=
  mk locals (localPredictorSize p) (localPredictorMask p) (localCtrBits p)
     hists (localHistoryTableSize p) (localHistoryBits p) (localHistoryMask p)
     globals (globalPredictorSize p) (globalCtrBits p)
     (globalHistory p) (globalHistoryBits p) (globalHistoryMask p)
     choices (choicePredictorSize p) (choiceCtrBits p) (instShiftAmt p) (threshold p).

Definition calcLocHistIdx (p : t) (branch_addr : Z) : option Z :=
  addr_bits branch_addr (instShiftAmt p) (u32 (localHistoryTableSize p - 1)).

Definition updateGlobalHistTaken (p : t) : t :=
  let h := Z.lor (u32 (Z.shiftl (globalHistory p) 1)) 1 in
  set_globalHistory p (Z.land h (globalHistoryMask p)).

Definition updateGlobalHistNotTaken (p : t) : t :=
  let h := u32 (Z.shiftl (globalHistory p) 1) in
  set_globalHistory p (Z.land h (globalHistoryMask p)).

(** [updateLocalHistTaken] and [updateLocalHistNotTaken] on the table *)
Definition updateLocalHistTaken (i : Z) (v : list Z) : option (list Z) :=
  vec_upd (λ h, Z.lor (u32 (Z.shiftl h 1)) 1) i v.

Definition updateLocalHistNotTaken (i : Z) (v : list Z) : option (list Z) :=
  vec_upd (λ h, u32 (Z.shiftl h 1)) i v.

Definition lookup (p : t) (branch_addr : Z) : option (bool * option BPHistory * t) :=
  local_history_idx ← calcLocHistIdx p branch_addr;
  hist ← vec_get (localHistoryTable p) local_history_idx;
  let local_predictor_idx := Z.land hist (localPredictorMask p) in
  lc ← vec_get (localCtrs p) local_predictor_idx;
  let local_prediction := threshold p <? SatCounter.read lc in
  gc ← vec_get (globalCtrs p) (globalHistory p);
  let global_prediction := threshold p <? SatCounter.read gc in
  cc ← vec_get (choiceCtrs p) (globalHistory p);
  let choice_prediction := threshold p <? SatCounter.read cc in
  let history := mkBPHistory (globalHistory p) local_prediction global_prediction (Some choice_prediction) in
  _ ← check ((globalHistory p <? globalPredictorSize p) &&
             (local_history_idx <? localHistoryTableSize p) &&
             (local_predictor_idx <? localPredictorSize p));
  if choice_prediction then
    if global_prediction then Some (true, Some history, updateGlobalHistTaken p)
    else Some (false, Some history, updateGlobalHistNotTaken p)
  else
    if local_prediction then Some (true, Some history, updateGlobalHistTaken p)
    else Some (false, Some history, updateGlobalHistNotTaken p).

Definition uncondBr (p : t) : option BPHistory * t :=
  (Some (mkBPHistory (globalHistory p) true true None), updateGlobalHistTaken p).

(** The choice predictor learns which of the two predictions was right. *)
Definition update_choice (p : t) (taken : bool) (bp_history : option BPHistory) : option (list SatCounter.t) :=
  match bp_history with
  | None => Some (choiceCtrs p)
  | Some h =>
      if eqb (localPredTaken h) (globalPredTaken h) then Some (choiceCtrs p)
      else if eqb (localPredTaken h) taken
      then vec_upd SatCounter.decrement (globalHistory p) (choiceCtrs p)
      else if eqb (globalPredTaken h) taken
      then vec_upd SatCounter.increment (globalHistory p) (choiceCtrs p)
      else Some (choiceCtrs p)
  end.

Definition update (p : t) (branch_addr : Z) (taken : bool) (bp_history : option BPHistory) : option t :=
  local_history_idx ← calcLocHistIdx p branch_addr;
  local_predictor_hist ← vec_get (localHistoryTable p) local_history_idx;
  let local_predictor_idx := Z.land local_predictor_hist (localPredictorMask p) in
  choices ← update_choice p taken bp_history;
  _ ← check ((globalHistory p <? globalPredictorSize p) &&
             (local_history_idx <? localHistoryTableSize p) &&
             (local_predictor_idx <? localPredictorSize p));
  if taken then
    locals ← vec_upd SatCounter.increment local_predictor_idx (localCtrs p);
    globals ← vec_upd SatCounter.increment (globalHistory p) (globalCtrs p);
    hists ← updateLocalHistTaken local_history_idx (localHistoryTable p);
    Some (set_tables p locals globals choices hists)
  else
    locals ← vec_upd SatCounter.decrement local_predictor_idx (localCtrs p);
    globals ← vec_upd SatCounter.decrement (globalHistory p) (globalCtrs p);
    hists ← updateLocalHistNotTaken local_history_idx (localHistoryTable p);
    Some (set_tables p locals globals choices hists).

Definition squash (p : t) (bp_history : option BPHistory) : option t :=
  h ← bp_history; Some (set_globalHistory p (bh_globalHistory h)).

Definition readGlobalHist (p : t) : Z := globalHistory p.

(** Tables of [2 ^ kl] local counters, [2 ^ kh] local histories and [2 ^ kg]
    global and choice counters; the global history has [b] bits, which fit the
    global table. *)
Record wf_at (kl kh kg b : Z) (p : t) : Prop := {
  wf_k : 0 <= kl < 31 ∧ 0 <= kh < 31 ∧ 0 <= kg < 31 ∧ 0 <= b <= kg;
  wf_shift : instShiftAmt p < 64;
  wf_lmask : localPredictorSize p = 2 ^ kl ∧ localPredictorMask p = 2 ^ kl - 1;
  wf_table : localHistoryTableSize p = 2 ^ kh ∧ length (localHistoryTable p) = Z.to_nat (2 ^ kh);
  wf_gsize : globalPredictorSize p = 2 ^ kg ∧ globalHistoryMask p = 2 ^ b - 1;
  wf_ghist : 0 <= globalHistory p < 2 ^ b;
  wf_locals : table_ok kl (localCtrBits p) (localCtrs p);
  wf_globals : table_ok kg (globalCtrBits p) (globalCtrs p);
  wf_choices : table_ok kg (choiceCtrBits p) (choiceCtrs p)
}.

Definition wf (p : t) : Prop := ∃ kl kh kg b, wf_at kl kh kg b p.

Definition config (p : t) : list Z :=
  [localPredictorSize p; localPredictorMask p; localCtrBits p; localHistoryTableSize p;
   globalPredictorSize p; globalCtrBits p; globalHistoryMask p; choiceCtrBits p; instShiftAmt p; threshold p].

(** A history of this predictor: the register it saved fits its mask. *)
Definition hist_ok (p : t) (h : option BPHistory) : Prop :=
  ∃ r, h = Some r ∧ 0 <= bh_globalHistory r <= globalHistoryMask p.

Lemma table_size_inv n m : is_u32 n → table_size n = Some m → ∃ k, 0 <= k < 31 ∧ n = 2 ^ k ∧ m = Z.to_nat (2 ^ k).
Proof.
  intros Hn. unfold table_size, check.
  destruct (isPowerOf2 32 n) eqn:E; [|done]. cbn [mbind option_bind]. zcase; [|done]. intros [= <-].
  apply power_of_two_32 in E as (k & Hk & ->); [|done]. exists k. split_and!; [lia| |done..].
  apply (Z.pow_lt_mono_r_iff 2); lia.
Qed.

(** The constructor does not check that the global history fits the table. *)
Lemma TournamentBP_new_wf found ls lb ts hb gs gb ghb cs cb shift p :
  Forall is_u32 [ls; lb; ts; hb; gs; gb; ghb; cb] → shift < 64 → 2 ^ ghb <= gs →
  TournamentBP_new found ls lb ts hb gs gb ghb cs cb shift = Some p → wf p.
Proof.
  intros HF Hs Hfit. unfold is_u32 in HF. repeat apply Forall_cons_1 in HF as [? HF].
  unfold TournamentBP_new.
  obind [n|] E1. apply table_size_inv in E1 as (kl & Hkl & -> & ->); [|done].
  obind [locals|] E2. apply ctr_table_inv in E2 as [Hlb Hls]; [|lia..].
  obind [pow|] E3. obind [m|] E4. apply table_size_inv in E4 as (kh & Hkh & -> & ->); [|done].
  obind [lmask|]. obind [g|] E5. apply table_size_inv in E5 as (kg & Hkg & -> & ->); [|done].
  obind [globals|] E6. apply ctr_table_inv in E6 as [Hgb Hgs]; [|lia..].
  obind [gmask|] E7. apply shl1_inv in E7 as [Hghb ->]; [|lia]. cbn [mbind option_bind].
  obind [choices|] E8. apply ctr_table_inv in E8 as [Hcb Hcs]; [|lia..].
  obind [th|]. intros [= <-].
  revert E3. unfold floorPow2_32. rewrite floorLog2_spec by lia. intros [= <-].
  rewrite Z.log2_pow2, Z.shiftl_1_l by lia.
  pose proof (Z.pow_lt_mono_r 2 kl 32). pose proof (Z.pow_pos_nonneg 2 ghb).
  rewrite (u32_small (2 ^ kl)), u32_small by (unfold is_u32; lia).
  exists kl, kh, kg, ghb. split; cbn; try done.
  - split_and!; try lia. apply (Z.pow_le_mono_r_iff 2); lia.
  - by rewrite length_replicate.
  - lia.
Qed.

Section Total.
Context (p : t) (kl kh kg b : Z) (Hw : wf_at kl kh kg b p).

Lemma global_index : 0 <= globalHistory p < 2 ^ kg.
Proof using Hw.
  destruct (wf_k _ _ _ _ _ Hw) as (_ & _ & _ & Hb). pose proof (wf_ghist _ _ _ _ _ Hw).
  pose proof (Z.pow_le_mono_r 2 b kg). lia.
Qed.

Lemma set_globalHistory_wf h : 0 <= h <= globalHistoryMask p → wf_at kl kh kg b (set_globalHistory p h).
Proof using Hw.
  intros Hh. destruct (wf_gsize _ _ _ _ _ Hw) as [_ Hm].
  destruct Hw. split; cbn; try done. lia.
Qed.

Lemma history_masked x : 0 <= Z.land x (globalHistoryMask p) <= globalHistoryMask p.
Proof using Hw.
  destruct (wf_gsize _ _ _ _ _ Hw) as [_ ->]. destruct (wf_k _ _ _ _ _ Hw) as (_ & _ & _ & Hb).
  rewrite land_ones_mod by lia. pose proof (Z.mod_pos_bound x (2 ^ b)). lia.
Qed.

Lemma set_masked_keeps x : let p' := set_globalHistory p (Z.land x (globalHistoryMask p)) in
  wf p' ∧ config p' = config p ∧ ∀ h, hist_ok p h → hist_ok p' h.
Proof using Hw.
  split; [|done]. exists kl, kh, kg, b. apply set_globalHistory_wf, history_masked.
Qed.

Definition index (pc : Z) : Z := Z.shiftr pc (instShiftAmt p) mod 2 ^ kh.

Lemma hist_idx_range pc : 0 <= index pc < 2 ^ kh.
Proof using Hw. unfold index. pose proof (wf_k _ _ _ _ _ Hw). apply Z.mod_pos_bound. lia. Qed.

Lemma calcLocHistIdx_Some pc : calcLocHistIdx p pc = Some (index pc).
Proof using Hw.
  unfold calcLocHistIdx. destruct (wf_table _ _ _ _ _ Hw) as [-> _].
  destruct (wf_k _ _ _ _ _ Hw) as (_ & Hh & _). rewrite u32_small.
  - apply addr_bits_Some; [lia|apply Hw].
  - unfold is_u32. pose proof (Z.pow_lt_mono_r 2 kh 32). lia.
Qed.

Lemma local_index_range h : 0 <= Z.land h (localPredictorMask p) < 2 ^ kl.
Proof using Hw.
  destruct (wf_lmask _ _ _ _ _ Hw) as [_ ->]. destruct (wf_k _ _ _ _ _ Hw) as (Hl & _).
  rewrite land_ones_mod by lia. apply Z.mod_pos_bound. lia.
Qed.

(** The assertion of [lookup] and [update]. *)
Lemma indices_checked pc h :
  check ((globalHistory p <? globalPredictorSize p) &&
         (index pc <? localHistoryTableSize p) &&
         (Z.land h (localPredictorMask p) <? localPredictorSize p)) = Some tt.
Proof using Hw.
  pose proof (local_index_range h). pose proof (hist_idx_range pc). pose proof global_index.
  destruct (wf_lmask _ _ _ _ _ Hw) as [-> _]. destruct (wf_table _ _ _ _ _ Hw) as [-> _].
  destruct (wf_gsize _ _ _ _ _ Hw) as [-> _]. unfold check. do 3 (zcase; [|lia]). done.
Qed.

Lemma tournament_lookup_Some pc : ∃ (taken : bool) r, lookup p pc =
  Some (taken, Some r, if taken then updateGlobalHistTaken p else updateGlobalHistNotTaken p) ∧
  bh_globalHistory r = globalHistory p.
Proof using Hw.
  unfold lookup. rewrite calcLocHistIdx_Some. cbn [mbind option_bind].
  destruct (vec_get_Some _ _ _ (proj2 (wf_table _ _ _ _ _ Hw)) (hist_idx_range pc)) as [h ->].
  cbn [mbind option_bind].
  destruct (vec_get_Some _ _ _ (proj1 (wf_locals _ _ _ _ _ Hw)) (local_index_range h)) as [lc ->].
  destruct (vec_get_Some _ _ _ (proj1 (wf_globals _ _ _ _ _ Hw)) global_index) as [gc ->].
  destruct (vec_get_Some _ _ _ (proj1 (wf_choices _ _ _ _ _ Hw)) global_index) as [cc ->].
  cbn [mbind option_bind]. rewrite indices_checked. cbn [mbind option_bind].
  repeat case_match; [exists true|exists false|exists true|exists false]; eexists; by split.
Qed.

Lemma update_choice_Some taken h : ∃ v, update_choice p taken h = Some v ∧ table_ok kg (choiceCtrBits p) v.
Proof using Hw.
  pose proof (wf_choices _ _ _ _ _ Hw) as Hc. unfold update_choice.
  repeat case_match; try by eexists.
  - apply (table_train _ _ _ _ false Hc global_index).
  - apply (table_train _ _ _ _ true Hc global_index).
Qed.

Lemma tournament_update_Some pc taken h : ∃ p', update p pc taken h = Some p' ∧ wf_at kl kh kg b p' ∧
  globalHistory p' = globalHistory p ∧ config p' = config p.
Proof using Hw.
  destruct (wf_table _ _ _ _ _ Hw) as [Ht Hl].
  unfold update. rewrite calcLocHistIdx_Some. cbn [mbind option_bind].
  destruct (vec_get_Some _ _ _ Hl (hist_idx_range pc)) as [lh Hlh]. rewrite Hlh. cbn [mbind option_bind].
  destruct (update_choice_Some taken h) as (choices & -> & Hch). cbn [mbind option_bind].
  rewrite indices_checked. cbn [mbind option_bind].
  pose proof (table_train _ _ _ _ taken (wf_locals _ _ _ _ _ Hw) (local_index_range lh)) as (locals & El & Hls).
  pose proof (table_train _ _ _ _ taken (wf_globals _ _ _ _ _ Hw) global_index) as (globals & Eg & Hgs).
  unfold updateLocalHistTaken, updateLocalHistNotTaken.
  destruct taken; rewrite El, Eg; cbn [mbind option_bind]; unfold vec_upd; rewrite Hlh;
    eexists; (split; [done|]); (split; [|done]); destruct Hw; split; cbn; try done;
    (split; [done|]; by rewrite length_insert).
Qed.

End Total.

#[global] Program Instance tournament_direction : DirectionPredictor t := {
  bp_lookup := lookup;
  bp_uncond := uncondBr;
  bp_update := update;
  bp_squash := squash;
  bp_wf := wf;
  bp_hist := hist_ok;
  bp_config := config
}.
Next Obligation.
  intros p pc (kl & kh & kg & b & Hw). destruct (tournament_lookup_Some p _ _ _ _ Hw pc) as (taken & r & -> & Hr).
  eexists _, _, _. split; [done|]. split; [destruct taken; by apply (set_masked_keeps p kl kh kg b)|].
  pose proof (wf_ghist _ _ _ _ _ Hw). destruct (wf_gsize _ _ _ _ _ Hw) as [_ Hm]. split.
  - exists r. split; [done|]. rewrite Hr. destruct taken; cbn; lia.
  - cbn. rewrite Hr. by destruct taken, p.
Qed.
Next Obligation.
  intros p (kl & kh & kg & b & Hw). eexists _, _. split; [done|].
  split; [by apply (set_masked_keeps p kl kh kg b)|].
  pose proof (wf_ghist _ _ _ _ _ Hw). destruct (wf_gsize _ _ _ _ _ Hw) as [_ Hm]. split.
  - eexists. split; [done|]. cbn. lia.
  - cbn. by destruct p.
Qed.
Next Obligation.
  intros p pc taken h (kl & kh & kg & b & Hw) _.
  destruct (tournament_update_Some p _ _ _ _ Hw pc taken h) as (p' & -> & Hw' & _ & Hm).
  exists p'. split; [done|]. split; [by exists kl, kh, kg, b|]. split; [done|].
  intros h' (r & -> & Hr). exists r. injection Hm as _ _ _ _ _ _ Hm _ _ _. by rewrite Hm.
Qed.
Next Obligation.
  intros p h (kl & kh & kg & b & Hw) (r & -> & Hr). eexists. split; [done|]. split; [|done].
  exists kl, kh, kg, b. by apply set_globalHistory_wf.
Qed.

End TournamentBP.

(** ** What the local predictor learns *)

Section Learning.
Import LocalBP.

(** A sequence of resolved branches, oldest first. *)
Fixpoint train_run (p : t) (l : list (Z * bool)) : option t :=
  match l with
  | [] => Some p
  | (pc, taken) :: l => p' ← update p pc taken None; train_run p' l
  end.

(** How many of them train the counter of [pc], and that those went [b]. *)
Definition same_counter (p : t) (pc a : Z) : bool := bool_decide (getLocalIndex p a = getLocalIndex p pc).

Definition trainings (p : t) (pc : Z) (l : list (Z * bool)) : Z :=
  Z.of_nat (length (filter (λ x, same_counter p pc x.1 = true) l)).

Definition all_go (p : t) (pc : Z) (b : bool) (l : list (Z * bool)) : bool :=
  forallb (λ x, negb (same_counter p pc x.1) || eqb x.2 b) l.

Lemma train_run_Some k p l : wf_at k p → ∃ p', train_run p l = Some p' ∧ wf_at k p' ∧
  instShiftAmt p' = instShiftAmt p ∧ localCtrBits p' = localCtrBits p.
Proof.
  revert p. induction l as [|[pc b] l IH]; intros p Hw; [by exists p|]. cbn [train_run].
  destruct (local_update_Some p k Hw pc b) as (p1 & -> & Hw1 & [= _ _ Hb Hs _] & _).
  destruct (IH p1 Hw1) as (p2 & E & Hw2 & Hs2 & Hb2). exists p2. by rewrite Hs2, Hb2.
Qed.

(** Training does not change which counters branches use. *)
Lemma update_same_counter p a o h p1 pc : update p a o h = Some p1 →
  (∀ x, same_counter p1 pc x = same_counter p pc x) ∧
  (∀ l, trainings p1 pc l = trainings p pc l) ∧ (∀ b l, all_go p1 pc b l = all_go p pc b l).
Proof.
  intros E. assert (∀ x, same_counter p1 pc x = same_counter p pc x) as Hsc.
  { revert E. unfold update. obind []. obind [i|]. obind [v|]. by intros [= <-]. }
  split_and!; [done| |].
  - intros l. unfold trainings. do 2 f_equal. apply list_filter_iff. intros x. by rewrite Hsc.
  - intros b l. unfold all_go. induction l as [|x l IH]; [done|]. cbn. by rewrite Hsc, IH.
Qed.

Lemma same_counter_index k p pc a :
  wf_at k p → same_counter p pc a = true ↔ Z.to_nat (index p k a) = Z.to_nat (index p k pc).
Proof.
  intros Hw. unfold same_counter. rewrite bool_decide_eq_true, !(getLocalIndex_Some p k Hw).
  pose proof (local_idx_range p k Hw a). pose proof (local_idx_range p k Hw pc).
  split; [by intros [= ->]|]. intros. f_equal. lia.
Qed.

(** Where the counter of [pc] gets to when all that train it go [b]. *)
Lemma train_run_counter k p l p' pc b c c' :
  wf_at k p → all_go p pc b l = true → train_run p l = Some p' →
  vec_get (localCtrs p) (index p k pc) = Some c → vec_get (localCtrs p') (index p k pc) = Some c' →
  if b then Z.min (SatCounter.counter c + trainings p pc l) (SatCounter.maxVal c) <= SatCounter.counter c'
  else SatCounter.counter c' <= Z.max (SatCounter.counter c - trainings p pc l) 0.
Proof.
  revert p c. induction l as [|[a o] l IH]; intros p c Hw Hgo Hrun Hc Hc'.
  { injection Hrun as <-. rewrite Hc in Hc'. injection Hc' as <-. unfold trainings. cbn.
    destruct (wf_ctrs _ _ Hw) as [_ Hf]. pose proof (Forall_lookup_1 _ _ _ _ Hf Hc) as Hok.
    pose proof (SatCounter.ok_range _ _ Hok). destruct b; lia. }
  cbn [train_run] in Hrun. destruct (local_update_Some p k Hw a o) as (p1 & E & Hw1 & [= _ _ Hb Hs _] & ca & Hca & Hok & Hl).
  rewrite E in Hrun. cbn [mbind option_bind] in Hrun.
  destruct (update_same_counter _ _ _ _ _ pc E) as (_ & Ht & Hg).
  assert (index p1 k pc = index p k pc) as Hix by (unfold index; by rewrite Hs).
  cbn in Hgo. apply andb_true_iff in Hgo as [Ho Hgo].
  specialize (IH p1). rewrite Hix, Ht, Hg, Hl in IH. pose proof (SatCounter.ok_range _ _ Hok).
  unfold trainings in *. rewrite filter_cons. cbn [fst].
  destruct (decide (same_counter p pc a = true)) as [Hs1|Hs1].
  - rewrite Hs1 in Ho. apply eqb_prop in Ho. cbn in Ho. subst o. apply (same_counter_index k) in Hs1; [|done].
    unfold vec_get in *. rewrite Hs1 in *. rewrite Hca in Hc. injection Hc as <-.
    specialize (IH (SatCounter.train b ca) Hw1 Hgo Hrun).
    rewrite list_lookup_insert_eq in IH by by eapply lookup_lt_Some. specialize (IH eq_refl Hc').
    rewrite (SatCounter.train_counter (localCtrBits p)), SatCounter.train_max in IH by done.
    cbn [length]. destruct b; lia.
  - apply IH; [done..| |done]. unfold vec_get. rewrite list_lookup_insert_ne; [done|].
    intros Heq. by apply Hs1, (same_counter_index k).
Qed.

Lemma train_run_app p l1 l2 : train_run p (l1 ++ l2) = p1 ← train_run p l1; train_run p1 l2.
Proof.
  revert p. induction l1 as [|[a o] l1 IH]; intros p; [done|]. cbn [app train_run].
  destruct (update p a o None); cbn [mbind option_bind]; [apply IH|done].
Qed.

Lemma LocalBP_new_bits found size bits shift p : LocalBP_new found size bits shift = Some p → localCtrBits p = bits.
Proof. unfold LocalBP_new. obind []. obind []. obind []. obind [v|]. by intros [= <-]. Qed.

(** The run before the last trainings does not matter to which branches train
    the counter of [pc]. *)
Lemma train_run_same p l p1 pc : train_run p l = Some p1 →
  (∀ b l', all_go p1 pc b l' = all_go p pc b l') ∧ (∀ l', trainings p1 pc l' = trainings p pc l').
Proof.
  revert p. induction l as [|[a o] l IH]; intros p E; [by injection E as <-|].
  cbn [train_run] in E. destruct (update p a o None) as [p2|] eqn:E2; [|done].
  destruct (update_same_counter _ _ _ _ _ pc E2) as (_ & Ht & Hg).
  destruct (IH p2 E) as [Hg2 Ht2]. split; intros; [by rewrite Hg2|by rewrite Ht2].
Qed.

(** The local predictor learns a branch that has settled: whatever branches
    were resolved before, once the branches that share its counter of [bits]
    bits have gone the same way [2 ^ (bits - 1)] times, with any others in
    between, the predictor predicts that way. *)
Theorem local_predictor_learns found size bits shift p0 before recent pc b :
  is_u32 size → 1 <= bits <= 8 → 0 <= shift < 64 →
  LocalBP_new found size bits shift = Some p0 →
  all_go p0 pc b recent = true → 2 ^ (bits - 1) <= trainings p0 pc recent →
  ∃ p, train_run p0 (before ++ recent) = Some p ∧ lookup p pc = Some b.
Proof.
  intros Hsz Hb Hsh Hnew Hgo Hn.
  pose proof (LocalBP_new_bits _ _ _ _ _ Hnew) as Hbits.
  apply LocalBP_new_wf in Hnew as [k Hw0]; [|done|ilia|done].
  destruct (train_run_Some k p0 before Hw0) as (p1 & E1 & Hw1 & Hs1 & Hb1).
  destruct (train_run_Some k p1 recent Hw1) as (p & E & Hw & Hs & Hbp).
  exists p. rewrite train_run_app, E1. cbn [mbind option_bind]. split; [done|].
  destruct (local_lookup_Some p1 k Hw1 pc) as (c1 & Hc1 & Hok1 & _).
  destruct (local_lookup_Some p k Hw pc) as (c & Hc & Hok & ->).
  assert (index p k pc = index p1 k pc) as Hix by (unfold index; by rewrite Hs). rewrite Hix in Hc.
  destruct (train_run_same _ _ _ pc E1) as [Hg Ht]. rewrite <- Hg in Hgo. rewrite <- Ht in Hn.
  pose proof (train_run_counter k p1 recent p pc b c1 c Hw1 Hgo E Hc1 Hc) as Hcount.
  pose proof (SatCounter.ok_range _ _ Hok1) as Hr1. pose proof (SatCounter.ok_max _ _ Hok1) as Hm1.
  rewrite Hbp, Hb1, Hbits in *. f_equal.
  assert (2 ^ bits = 2 * 2 ^ (bits - 1)) as Hpow.
  { rewrite <- Z.pow_succ_r by lia. f_equal. lia. }
  assert (2 ^ bits <= 2 ^ 8) by (apply Z.pow_le_mono_r; lia).
  assert (u8 (2 ^ bits - 1) = 2 ^ bits - 1) as Hu by ilia. rewrite Hu in Hm1.
  destruct b; zcase; try done; lia.
Qed.

Lemma local_predictor_learns_witness :
  ∃ p0, LocalBP_new 77 2048 2 2 = Some p0 ∧
  ∃ p, train_run p0 ([(0x1000, true); (0x1000, true); (0x1000, true)] ++ [(0x1000, false); (0x1004, true); (0x2000, false)]) = Some p
    ∧ lookup p 0x1000 = Some false.
Proof.
  destruct (LocalBP_new 77 2048 2 2) as [p0|] eqn:E.
  - exists p0. split; [done|]. eapply (local_predictor_learns 77 2048 2 2); try done; try lia.
    + vm_compute in E. injection E as <-. vm_compute. reflexivity.
    + vm_compute in E. injection E as <-. vm_compute. done.
  - vm_compute in E. discriminate E.
Defined.

End Learning.
