(* ===== verification/BranchTargets.v ===== *)
(** Where branches go: the branch target buffer
    ([src/m5/src/cpu/pred/btb.hh], [btb.cc]) and the return address stack
    ([ras.hh], [ras.cc]).  As in the direction predictors, [None] stands for
    [fatal], a failed [assert] and an access outside a table. *)

From S2P Require Import Prelude IntMath BranchPred.

(** ** The branch target buffer *)

Module BTB.

Record BTBEntry := mkBTBEntry { tag : Z; target : Z; tid : Z; valid_ : bool }.

Record t := mk {
  btb : list BTBEntry;
  numEntries : Z;
  idxMask : Z;
  tagBits : Z;
  tagMask : Z;
  instShiftAmt : Z;
  tagShiftAmt : Z
}.

(** The constructor of an entry leaves the thread as it finds it. *)
Definition BTBEntry_new (found : Z) : BTBEntry := mkBTBEntry 0 0 found false.

Definition invalidate (e : BTBEntry) : BTBEntry := mkBTBEntry (tag e) (target e) (tid e) false.

Definition DefaultBTB_new (found entries bits shift : Z) : option t :=
  _ ← check (isPowerOf2 32 entries);
  let v := replicate (Z.to_nat entries) (BTBEntry_new found) in
  m ← shl1 bits;
  l ← floorLog2 entries;
  Some (mk (invalidate <$> v) entries (u32 (entries - 1)) bits (m - 1) shift (u32 (shift + l))).

Definition with_btb (b : t) (v : list BTBEntry) : t :=
  mk v (numEntries b) (idxMask b) (tagBits b) (tagMask b) (instShiftAmt b) (tagShiftAmt b).

Definition reset (b : t) : t := with_btb b (invalidate <$> btb b).

Definition getIndex (b : t) (inst_PC : Z) : option Z := addr_bits inst_PC (instShiftAmt b) (idxMask b).

Definition getTag (b : t) (inst_PC : Z) : option Z := addr_bits inst_PC (tagShiftAmt b) (tagMask b).

(** The entry that both [valid] and [lookup] test, and the test. *)
Definition probe (b : t) (inst_PC thread : Z) : option (BTBEntry * bool) :=
  btb_idx ← getIndex b inst_PC;
  inst_tag ← getTag b inst_PC;
  _ ← check (btb_idx <? numEntries b);
  e ← vec_get (btb b) btb_idx;
  Some (e, valid_ e && (inst_tag =? tag e) && (tid e =? thread)).

Definition valid (b : t) (inst_PC thread : Z) : option bool :=
  '(_, hit) ← probe b inst_PC thread; Some hit.

Definition lookup (b : t) (inst_PC thread : Z) : option Z :=
  '(e, hit) ← probe b inst_PC thread; Some (if hit : bool then target e else 0).

Definition update (b : t) (inst_PC tgt thread : Z) : option t :=
  btb_idx ← getIndex b inst_PC;
  _ ← check (btb_idx <? numEntries b);
  inst_tag ← getTag b inst_PC;
  v ← vec_upd (λ _, mkBTBEntry inst_tag tgt thread true) btb_idx (btb b);
  Some (with_btb b v).

Record wf_at (k : Z) (b : t) : Prop := {
  wf_k : 0 <= k < 32;
  wf_size : numEntries b = 2 ^ k ∧ length (btb b) = Z.to_nat (2 ^ k);
  wf_mask : idxMask b = 2 ^ k - 1;
  wf_shift : instShiftAmt b < 64 ∧ tagShiftAmt b < 64
}.

Definition wf (b : t) : Prop := ∃ k, wf_at k b.

Lemma DefaultBTB_new_wf found entries bits shift b :
  is_u32 entries → is_u32 bits → 0 <= shift → shift + Z.log2 entries < 64 →
  DefaultBTB_new found entries bits shift = Some b →
  wf b ∧ ∀ i e, btb b !! i = Some e → valid_ e = false.
Proof.
  intros He Hb Hs Hlt. unfold DefaultBTB_new, check.
  destruct (isPowerOf2 32 entries) eqn:E; [|done]. cbn [mbind option_bind].
  apply power_of_two_32 in E as (k & Hk & ->); [|done].
  obind [m|]. unfold is_u32 in *. rewrite floorLog2_spec by lia. cbn [mbind option_bind].
  rewrite Z.log2_pow2 in * by lia. intros [= <-]. split.
  - exists k. split; cbn; [done| |apply u32_small; ilia|split; [lia|]].
    + by rewrite length_fmap, length_replicate.
    + rewrite u32_small; ilia.
  - cbn. intros i e. rewrite list_lookup_fmap, fmap_Some. by intros (e0 & _ & ->).
Qed.

Section Total.
Context (b : t) (k : Z) (Hw : wf_at k b).

Definition index (pc : Z) : Z := Z.shiftr pc (instShiftAmt b) mod 2 ^ k.
Definition tag_of (pc : Z) : Z := Z.land (Z.shiftr pc (tagShiftAmt b)) (tagMask b).

Lemma btb_idx_range pc : 0 <= index pc < 2 ^ k.
Proof using Hw. unfold index. pose proof (wf_k _ _ Hw). apply Z.mod_pos_bound. lia. Qed.

Lemma getIndex_Some pc : getIndex b pc = Some (index pc).
Proof using Hw.
  unfold getIndex. rewrite (wf_mask _ _ Hw).
  apply addr_bits_Some; [apply (wf_k _ _ Hw)|apply (wf_shift _ _ Hw)].
Qed.

Lemma getTag_Some pc : getTag b pc = Some (tag_of pc).
Proof using Hw.
  unfold getTag, addr_bits. destruct (wf_shift _ _ Hw). by rewrite (proj2 (Z.ltb_lt _ 64)).
Qed.

Lemma index_checked pc : check (index pc <? numEntries b) = Some tt.
Proof using Hw.
  destruct (wf_size _ _ Hw) as [-> _]. pose proof (btb_idx_range pc). unfold check. zcase; [done|lia].
Qed.

Lemma probe_Some pc th : ∃ e, vec_get (btb b) (index pc) = Some e ∧
  probe b pc th = Some (e, valid_ e && (tag_of pc =? tag e) && (tid e =? th)).
Proof using Hw.
  destruct (vec_get_Some _ _ k (proj2 (wf_size _ _ Hw)) (btb_idx_range pc)) as [e He].
  exists e. split; [done|]. unfold probe. rewrite getIndex_Some, getTag_Some. cbn [mbind option_bind].
  rewrite index_checked, He. done.
Qed.

Lemma btb_update_Some pc tgt th : let v := <[Z.to_nat (index pc) := mkBTBEntry (tag_of pc) tgt th true]> (btb b) in
  update b pc tgt th = Some (with_btb b v) ∧ wf_at k (with_btb b v).
Proof using Hw.
  destruct (vec_upd_Some (λ _, mkBTBEntry (tag_of pc) tgt th true) _ _ k (proj2 (wf_size _ _ Hw)) (btb_idx_range pc))
    as (e & He & E).
  unfold update. rewrite getIndex_Some, getTag_Some. cbn [mbind option_bind].
  rewrite index_checked. cbn [mbind option_bind]. rewrite E. split; [done|].
  destruct Hw as [? [? ?] ? ?]. split; cbn; [done| |done..]. by rewrite length_insert.
Qed.

End Total.

(** Updates [(pc, target, thread)], oldest first. *)
Fixpoint update_run (b : t) (l : list (Z * Z * Z)) : option t :=
  match l with
  | [] => Some b
  | (pc, tgt, th) :: l => b' ← update b pc tgt th; update_run b' l
  end.

(** What a lookup should find: the target of the last update of the entry, if
    it was for the same tag and thread. *)
Definition last_target (b : t) (l : list (Z * Z * Z)) (pc th : Z) : option Z :=
  u ← head (filter (λ u, getIndex b u.1.1 = getIndex b pc) (rev l));
  if bool_decide (getTag b u.1.1 = getTag b pc) && (u.2 =? th) then Some u.1.2 else None.

Lemma update_run_snoc b l pc tgt th :
  update_run b (l ++ [(pc, tgt, th)]) = b' ← update_run b l; update b' pc tgt th.
Proof.
  revert b. induction l as [|[[p g] h] l IH]; intros b; cbn [app update_run].
  - cbn [mbind option_bind]. by destruct (update b pc tgt th).
  - destruct (update b p g h); cbn [mbind option_bind]; [apply IH|done].
Qed.

Lemma update_run_Some k b l : wf_at k b → ∃ v, update_run b l = Some (with_btb b v) ∧ wf_at k (with_btb b v).
Proof.
  revert b. induction l as [|[[p g] h] l IH]; intros b Hw.
  - exists (btb b). cbn. destruct b. by split.
  - cbn [update_run]. destruct (btb_update_Some b k Hw p g h) as [-> Hw1]. cbn [mbind option_bind].
    destruct (IH _ Hw1) as (v & E & Hv). by exists v.
Qed.

Lemma last_target_snoc k b l p g h pc th : wf_at k b →
  last_target b (l ++ [(p, g, h)]) pc th =
  if decide (index b k p = index b k pc)
  then if (tag_of b p =? tag_of b pc) && (h =? th) then Some g else None
  else last_target b l pc th.
Proof.
  intros Hw. unfold last_target. rewrite rev_app_distr. cbn [rev app].
  rewrite filter_cons. cbn [fst snd]. rewrite !(getIndex_Some b k Hw).
  destruct (decide (index b k p = index b k pc)) as [Hi|Hi].
  - rewrite decide_True by (by rewrite Hi). cbn.
    rewrite !(getTag_Some b k Hw).
    destruct (Z.eqb_spec (tag_of b p) (tag_of b pc)) as [->|Ht]; [by rewrite bool_decide_true|].
    rewrite bool_decide_false; [done|]. by intros [= ?].
  - rewrite decide_False by (by intros [= ?]). done.
Qed.

Lemma update_run_probe k b l pc th : wf_at k b →
  (∀ i e, btb b !! i = Some e → valid_ e = false) →
  ∃ b' e, update_run b l = Some b' ∧
    probe b' pc th = Some (e, bool_decide (is_Some (last_target b l pc th))) ∧
    (∀ g, last_target b l pc th = Some g → target e = g).
Proof.
  intros Hw Hinv. induction l as [|[[p g] h] l IH] using rev_ind.
  - destruct (probe_Some b k Hw pc th) as (e & He & Hp).
    exists b, e. split_and!; [done| |done]. rewrite Hp. by rewrite (Hinv _ _ He).
  - rewrite update_run_snoc. destruct IH as (b' & e & E & Hp & Ht).
    destruct (update_run_Some k b l Hw) as (v & E' & Hv). rewrite E in *. injection E' as ->.
    cbn [mbind option_bind]. rewrite (last_target_snoc k) by done.
    destruct (btb_update_Some _ k Hv p g h) as [-> Hw1].
    destruct (probe_Some _ k Hw1 pc th) as (e1 & He1 & Hp1). exists (with_btb (with_btb b v)
      (<[Z.to_nat (index (with_btb b v) k p) := mkBTBEntry (tag_of (with_btb b v) p) g h true]> (btb (with_btb b v)))), e1.
    split; [done|]. rewrite Hp1. cbn in He1. change (index _ k pc) with (index b k pc) in He1.
    change (index _ k p) with (index b k p) in He1. unfold vec_get in He1.
    pose proof (btb_idx_range b k Hw p). pose proof (btb_idx_range b k Hw pc).
    destruct (decide (index b k p = index b k pc)) as [Hi|Hi].
    + rewrite Hi, list_lookup_insert_eq in He1.
      2:{ destruct (wf_size _ _ Hv) as [_ Hl]. cbn in Hl. rewrite Hl. lia. }
      injection He1 as <-. cbn [tag tid valid_ target andb].
      rewrite (Z.eqb_sym (tag_of b p)). change (tag_of _ pc) with (tag_of b pc).
      change (tag_of _ p) with (tag_of b p). destruct (_ && _); split; [done|by intros ? [= ->]|done..].
    + rewrite list_lookup_insert_ne in He1 by lia.
      destruct (probe_Some _ k Hv pc th) as (e0 & He0 & Hp0).
      unfold vec_get in He0. cbn in He0. change (index _ k pc) with (index b k pc) in He0.
      rewrite He1 in He0. injection He0 as <-. rewrite Hp0 in Hp. injection Hp as -> <-. by split.
Qed.

(** The branch target buffer forgets only what it overwrites: after any
    updates of a new buffer, [valid] holds exactly when the last update that
    used the entry of the address was for the same tag and thread, and
    [lookup] then returns the target of that update and 0 otherwise; no call
    fails. *)
Theorem btb_last_update found entries bits shift b0 l pc th :
  is_u32 entries → is_u32 bits → 0 <= shift → shift + Z.log2 entries < 64 →
  DefaultBTB_new found entries bits shift = Some b0 →
  ∃ b, update_run b0 l = Some b ∧
    valid b pc th = Some (bool_decide (is_Some (last_target b0 l pc th))) ∧
    lookup b pc th = Some (default 0 (last_target b0 l pc th)).
Proof.
  intros He Hb Hs Hlt Hnew. destruct (DefaultBTB_new_wf _ _ _ _ _ He Hb Hs Hlt Hnew) as [[k Hw] Hinv].
  destruct (update_run_probe k b0 l pc th Hw Hinv) as (b & e & E & Hp & Ht).
  exists b. split; [done|]. unfold valid, lookup. rewrite Hp. cbn [mbind option_bind]. split; [done|].
  destruct (last_target b0 l pc th) as [g|]; [by rewrite (Ht g eq_refl)|done].
Qed.

(** Two addresses of one entry and tag in two threads. *)
Lemma btb_last_update_witness :
  ∃ b0, DefaultBTB_new 9 16 16 2 = Some b0 ∧ ∃ b,
    update_run b0 [(0x1000, 0x2000, 0); (0x1004, 0x3000, 0); (0x1040, 0x4000, 1)] = Some b ∧
    valid b 0x1004 0 = Some true ∧ lookup b 0x1004 0 = Some 0x3000 ∧ valid b 0x1000 0 = Some false.
Proof.
  destruct (DefaultBTB_new 9 16 16 2) as [b0|] eqn:E; [|discriminate E].
  exists b0. split; [reflexivity|].
  destruct (btb_last_update 9 16 16 2 b0 [(0x1000, 0x2000, 0); (0x1004, 0x3000, 0); (0x1040, 0x4000, 1)] 0x1004 0)
    as (b & Hr & Hv & Hl); try done.
  destruct (btb_last_update 9 16 16 2 b0 [(0x1000, 0x2000, 0); (0x1004, 0x3000, 0); (0x1040, 0x4000, 1)] 0x1000 0)
    as (b' & Hr' & Hv' & _); try done.
  exists b. rewrite Hr in Hr'. injection Hr' as <-. injection E as <-.
  split_and!; [done|by rewrite Hv|by rewrite Hl|by rewrite Hv'].
Defined.

End BTB.

(** ** The return address stack *)

Module RAS.

Record t := mk { addrStack : list Z; numEntries : Z; usedEntries : Z; tos : Z }.

Definition init (n : Z) : t := mk (replicate (Z.to_nat n) 0) n 0 0.

Definition reset (r : t) : t := mk (replicate (Z.to_nat (numEntries r)) 0) (numEntries r) 0 0.

Definition top (r : t) : option Z := vec_get (addrStack r) (tos r).

Definition topIdx (r : t) : Z := tos r.

Definition incrTos (r : t) : t :=
  let i := u32 (tos r + 1) in
  mk (addrStack r) (numEntries r) (usedEntries r) (if i =? numEntries r then 0 else i).

Definition decrTos (r : t) : t :=
  mk (addrStack r) (numEntries r) (usedEntries r)
     (if tos r =? 0 then u32 (numEntries r - 1) else tos r - 1).

Definition push (r : t) (return_addr : Z) : option t :=
  let r := incrTos r in
  v ← vec_upd (λ _, return_addr) (tos r) (addrStack r);
  Some (mk v (numEntries r)
           (if usedEntries r =? numEntries r then usedEntries r else u32 (usedEntries r + 1)) (tos r)).

Definition pop (r : t) : t :=
  decrTos (mk (addrStack r) (numEntries r)
              (if usedEntries r >? 0 then usedEntries r - 1 else usedEntries r) (tos r)).

Definition restore (r : t) (top_entry_idx restored_target : Z) : option t :=
  v ← vec_upd (λ _, restored_target) top_entry_idx (addrStack r);
  Some (mk v (numEntries r) (usedEntries r) top_entry_idx).

Definition empty (r : t) : bool := usedEntries r =? 0.

Definition full (r : t) : bool := usedEntries r =? numEntries r.

Record wf (r : t) : Prop := {
  wf_num : 0 < numEntries r < 2 ^ 32;
  wf_len : length (addrStack r) = Z.to_nat (numEntries r);
  wf_tos : 0 <= tos r < numEntries r;
  wf_used : 0 <= usedEntries r <= numEntries r
}.

(** The cell [i] below, or above, the top, going round the array. *)
Definition cell_below (n top i : Z) : Z := if i <=? top then top - i else top - i + n.
Definition height (n top j : Z) : Z := if top <=? j then j - top else j - top + n.

Lemma init_wf n : 0 < n < 2 ^ 32 → wf (init n).
Proof. intros Hn. split; cbn; try lia. by rewrite length_replicate. Qed.

Lemma top_Some r : wf r → ∃ a, top r = Some a.
Proof. intros [Hn Hl Ht _]. apply lookup_lt_is_Some. lia. Qed.

Definition next_top (r : t) : Z := if tos r + 1 =? numEntries r then 0 else tos r + 1.

Lemma next_top_cases r :
  tos r + 1 = numEntries r ∧ next_top r = 0 ∨ tos r + 1 ≠ numEntries r ∧ next_top r = tos r + 1.
Proof. unfold next_top. zcase; [by left|by right]. Qed.

Lemma push_Some r a : wf r →
  push r a = Some (mk (<[Z.to_nat (next_top r) := a]> (addrStack r)) (numEntries r)
                      (Z.min (usedEntries r + 1) (numEntries r)) (next_top r)).
Proof.
  intros [Hn Hl Ht Hu]. unfold push, incrTos, vec_upd, vec_get. cbn [tos addrStack usedEntries numEntries].
  rewrite (u32_small (tos r + 1)) by (unfold is_u32; lia). fold (next_top r).
  destruct (lookup_lt_is_Some_2 (addrStack r) (Z.to_nat (next_top r))) as [x ->].
  { unfold next_top. zcase; lia. }
  cbn [mbind option_bind]. do 2 f_equal. zcase; [lia|]. rewrite u32_small by (unfold is_u32; lia). lia.
Qed.

Lemma push_wf r a : wf r → ∃ r', push r a = Some r' ∧ wf r'.
Proof.
  intros Hw. rewrite push_Some by done. eexists. split; [done|].
  destruct Hw as [Hn Hl Ht Hu]. split; cbn [numEntries addrStack tos usedEntries]; [done|by rewrite length_insert| |lia].
  unfold next_top. zcase; lia.
Qed.

Lemma pop_eq r : wf r →
  pop r = mk (addrStack r) (numEntries r) (Z.max (usedEntries r - 1) 0)
             (if tos r =? 0 then numEntries r - 1 else tos r - 1).
Proof.
  intros [Hn Hl Ht Hu]. unfold pop, decrTos. cbn. f_equal.
  - rewrite Z.gtb_ltb. zcase; lia.
  - by rewrite u32_small by (unfold is_u32; lia).
Qed.

Lemma pop_wf r : wf r → wf (pop r).
Proof.
  intros Hw. rewrite pop_eq by done. destruct Hw as [Hn Hl Ht Hu].
  split; cbn; [done..| |lia]. zcase; lia.
Qed.

Lemma restore_wf r i a : wf r → 0 <= i < numEntries r → ∃ r', restore r i a = Some r' ∧ wf r' ∧ numEntries r' = numEntries r.
Proof.
  intros [Hn Hl Ht Hu] Hi. unfold restore, vec_upd, vec_get.
  destruct (lookup_lt_is_Some_2 (addrStack r) (Z.to_nat i)) as [x ->]; [lia|].
  eexists. split; [done|]. split; [|done]. split; cbn; [done|by rewrite length_insert|done..].
Qed.

(** *** A bounded stack *)

Inductive op := Push (a : Z) | Pop.

Definition step (r : t) (o : op) : option t :=
  match o with Push a => push r a | Pop => Some (pop r) end.

Fixpoint run (r : t) (l : list op) : option t :=
  match l with [] => Some r | o :: l => r' ← step r o; run r' l end.

(** The stack that the array stands for: it holds the last [n] addresses. *)
Definition astep (n : nat) (s : list Z) (o : op) : list Z :=
  match o with Push a => take n (a :: s) | Pop => tail s end.

Definition refines (s : list Z) (r : t) : Prop :=
  wf r ∧ usedEntries r = Z.of_nat (length s) ∧
  ∀ i a, s !! i = Some a →
    addrStack r !! Z.to_nat (cell_below (numEntries r) (tos r) (Z.of_nat i)) = Some a.

Lemma refines_push s r a : refines s r →
  ∃ r', push r a = Some r' ∧ numEntries r' = numEntries r ∧ refines (take (Z.to_nat (numEntries r)) (a :: s)) r'.
Proof.
  intros (Hw & Hu & Hs). pose proof (push_Some r a Hw) as E. destruct (push_wf r a Hw) as (r' & E' & Hw').
  exists r'. split; [done|]. rewrite E in E'. injection E' as <-. split; [done|]. split; [done|].
  destruct Hw as [Hn Hl Ht Hr]. cbn [usedEntries addrStack numEntries tos]. split.
  - rewrite length_take. cbn [length]. lia.
  - intros i x. rewrite lookup_take_Some. intros [Hx Hlt]. unfold next_top. destruct i as [|i].
    + injection Hx as ->. replace (cell_below _ _ _) with (if tos r + 1 =? numEntries r then 0 else tos r + 1).
      * apply list_lookup_insert_eq. zcase; lia.
      * unfold cell_below. repeat (zcase; try lia).
    + cbn in Hx. apply Hs in Hx as Hx'.
      replace (cell_below _ _ (Z.of_nat (S i))) with (cell_below (numEntries r) (tos r) (Z.of_nat i)).
      * rewrite list_lookup_insert_ne; [done|]. unfold cell_below. repeat (zcase; try lia).
      * unfold cell_below. repeat (zcase; try lia).
Qed.

Lemma refines_pop s r : refines s r → refines (tail s) (pop r) ∧ numEntries (pop r) = numEntries r.
Proof.
  intros (Hw & Hu & Hs). split; [|by rewrite pop_eq]. split; [by apply pop_wf|]. rewrite pop_eq by done.
  cbn [usedEntries addrStack numEntries tos]. destruct Hw as [Hn Hl Ht Hr]. split.
  - destruct s; cbn [length tail] in *; lia.
  - intros i x Hx. destruct s as [|y s]; [done|].
    assert (i < length s)%nat by (by eapply lookup_lt_Some). cbn [length] in Hu.
    rewrite <- (Hs (S i) x Hx). f_equal. unfold cell_below. f_equal. repeat (zcase; try lia).
Qed.

(** C33. The return address stack refines a stack of at most [n] addresses that
    forgets its oldest when it overflows: after any pushes and pops no access
    is out of range, [empty] and [full] are right, and the top is the top of
    the abstract stack whenever that is not empty; so calls nested at most [n]
    deep predict every return. *)
Theorem ras_refines_stack n l :
  0 < n < 2 ^ 32 →
  ∃ r, run (init n) l = Some r ∧
    let s := fold_left (astep (Z.to_nat n)) l [] in
    empty r = bool_decide (s = []) ∧ full r = (Z.of_nat (length s) =? n) ∧
    ∀ a s', s = a :: s' → top r = Some a.
Proof.
  intros Hn.
  assert (∀ r s, refines s r → numEntries r = n →
    ∃ r', run r l = Some r' ∧ refines (fold_left (astep (Z.to_nat n)) l s) r' ∧ numEntries r' = n) as Hrun.
  { induction l as [|[a|] l IH]; intros r s Hr Hnum; [by exists r| |]; cbn [run step fold_left astep].
    - destruct (refines_push s r a Hr) as (r1 & -> & Hn1 & Hr1). rewrite Hnum in *. by apply IH.
    - destruct (refines_pop s r Hr) as [Hr1 Hn1]. rewrite Hnum in *. by apply IH. }
  destruct (Hrun (init n) []) as (r & E & (Hw & Hu & Hs) & Hnum); [|done|].
  { split; [by apply init_wf|]. by split. }
  exists r. split; [done|]. cbn. unfold empty, full. rewrite Hu, Hnum. split_and!; [|done|].
  - destruct (fold_left _ _ _); [done|]. cbn [length]. zcase; [lia|]. done.
  - intros a s' Es. rewrite Es in Hs. rewrite <- (Hs 0%nat a eq_refl). unfold top, vec_get.
    unfold cell_below. destruct Hw. zcase; [|lia]. do 2 f_equal. lia.
Qed.

Lemma ras_refines_stack_witness : ∃ r, run (init 2) [Push 1; Push 2; Push 3; Pop] = Some r ∧ top r = Some 2.
Proof.
  destruct (ras_refines_stack 2 [Push 1; Push 2; Push 3; Pop]) as (r & E & _ & _ & Ht); [lia|].
  exists r. split; [done|]. by apply (Ht 2 []).
Defined.

(** *** Undoing speculation *)

(** [r'] is [r] but for the used count and for the [m] cells above the top. *)
Definition agree (m : Z) (r r' : t) : Prop :=
  numEntries r' = numEntries r ∧ tos r' = tos r ∧ length (addrStack r') = length (addrStack r) ∧
  ∀ j, 0 <= j < numEntries r → numEntries r <= m ∨ 1 <= height (numEntries r) (tos r) j <= m ∨
    addrStack r' !! Z.to_nat j = addrStack r !! Z.to_nat j.

Lemma agree_refl r : agree 0 r r.
Proof. split_and!; [done..|]. intros j Hj. by right; right. Qed.

Lemma agree_used m r r' u : agree m r r' → agree m r (mk (addrStack r') (numEntries r') u (tos r')).
Proof. done. Qed.

(** A call that is popped again has cost the cell above the top. *)
Lemma agree_push_pop m r a r1 r2 : 0 <= m →
  wf r → wf r2 → push r a = Some r1 → agree m r1 r2 → agree (m + 1) r (pop r2).
Proof.
  intros Hm Hw Hw2 E (Hn & Ht & Hl & Hc). pose proof (push_Some r a Hw) as E1. rewrite E in E1.
  injection E1 as ->. cbn [numEntries tos addrStack] in *. rewrite pop_eq by done.
  pose proof (next_top_cases r) as Hi.
  destruct Hw as [Hnum Hlen Htos Hu]. rewrite length_insert in Hl. split_and!; cbn [numEntries tos addrStack]; [done| |done|].
  - rewrite Ht, Hn. repeat (zcase; try lia).
  - intros j Hj. destruct (Hc j Hj) as [Hx|[Hx|Hx]]; [by left; lia| |].
    + revert Hx. unfold height. repeat (zcase; try lia).
    + destruct (decide (Z.to_nat j = Z.to_nat (next_top r))) as [Hjt|Hjt].
      * revert Hjt. unfold height. repeat (zcase; try lia).
      * right. right. rewrite Hx. by apply list_lookup_insert_ne.
Qed.

(** A return that is put back restores its cell. *)
Lemma agree_pop_restore m r a r2 : 0 <= m →
  wf r → wf r2 → top r = Some a → agree m (pop r) r2 →
  ∃ r3, restore r2 (tos r) a = Some r3 ∧ wf r3 ∧ agree (Z.max 0 (m - 1)) r r3.
Proof.
  intros Hm Hw Hw2 Htop. rewrite pop_eq by done. intros (Hn & Ht & Hl & Hc).
  cbn [numEntries tos addrStack] in *.
  destruct (restore_wf r2 (tos r) a Hw2) as (r3 & E & Hw3 & Hn3); [rewrite Hn; apply Hw|].
  exists r3. split; [done|]. split; [done|]. split; [congruence|].
  revert E; unfold restore, vec_upd; destruct (vec_get _ _) as [x|] eqn:Ex; [|done];
       intros [= <-]; cbn [numEntries tos addrStack].
  split; [done|]. split; [by rewrite length_insert|].
  - destruct Hw as [Hnum Hlen Htos Hu]. intros j Hj.
    destruct (decide (Z.to_nat (tos r) = Z.to_nat j)) as [Hjt|Hjt].
    + right. right. rewrite Hjt, list_lookup_insert_eq; [|rewrite Hl; lia].
      by rewrite <- Hjt.
    + rewrite list_lookup_insert_ne by done. destruct (Hc j Hj) as [Hx|[Hx|Hx]]; [| |by right; right].
      * destruct (decide (numEntries r <= m - 1)); [left; lia|]. right. left.
        unfold height. repeat (zcase; try lia).
      * right. left. revert Hx. unfold height. repeat (zcase; try lia).
Qed.

End RAS.
