(* ===== verification/BPredUnit.v ===== *)
(** The branch prediction unit of the out-of-order processor,
    [src/m5/src/cpu/o3/bpred_unit.hh] and [bpred_unit_impl.hh]: predictions with
    their history, commits, squashes and corrections of mispredicted branches.
    The size of an instruction and whether the instruction set has a delay slot
    are parameters; threads are numbered from 0.  [None] stands for [fatal],
    [panic], a failed [assert] and an access outside a table or an array. *)

From S2P Require Import Prelude IntMath BranchPred BranchTargets.

(** ** The selected direction predictor *)

Inductive predictor :=
  | Local (p : LocalBP.t)
  | Tournament (p : TournamentBP.t).

Definition BPUncond (p : predictor) : option BPHistory * predictor :=
  match p with
  | Local _ => (None, p)
  | Tournament q => let '(h, q') := TournamentBP.uncondBr q in (h, Tournament q')
  end.

Definition BPSquash (p : predictor) (bp_history : option BPHistory) : option predictor :=
  match p with
  | Local q => q' ← LocalBP.squash q bp_history; Some (Local q')
  | Tournament q => q' ← TournamentBP.squash q bp_history; Some (Tournament q')
  end.

Definition BPLookup (p : predictor) (inst_PC : Z) : option (bool * option BPHistory * predictor) :=
  match p with
  | Local q => b ← LocalBP.lookup q inst_PC; Some (b, None, p)
  | Tournament q => '(b, h, q') ← TournamentBP.lookup q inst_PC; Some (b, h, Tournament q')
  end.

Definition BPUpdate (p : predictor) (inst_PC : Z) (taken : bool) (bp_history : option BPHistory) : option predictor :=
  match p with
  | Local q => q' ← LocalBP.update q inst_PC taken bp_history; Some (Local q')
  | Tournament q => q' ← TournamentBP.update q inst_PC taken bp_history; Some (Tournament q')
  end.

(** ** Instructions, records and the state *)

(** What the unit asks of an instruction. *)
Record DynInst := mkDynInst {
  isUncondCtrl : bool;
  isReturn : bool;
  isCall : bool;
  inst_seqNum : Z
}.

Record PredictorHistory := mkPredictorHistory {
  seqNum : Z;
  PC : Z;
  RASTarget : Z;
  RASIndex : Z;
  ph_tid : Z;
  predTaken : bool;
  usedRAS : bool;
  wasCall : bool;
  bpHistory : option BPHistory
}.

Definition PredictorHistory_new (seq_num inst_PC : Z) (pred_taken : bool) (bp_history : option BPHistory)
    (tid : Z) : PredictorHistory :=
  mkPredictorHistory seq_num inst_PC 0 0 tid pred_taken false false bp_history.

Definition record_return (h : PredictorHistory) (idx target : Z) : PredictorHistory :=
  mkPredictorHistory (seqNum h) (PC h) target idx (ph_tid h) (predTaken h) true (wasCall h) (bpHistory h).

Definition record_call (h : PredictorHistory) : PredictorHistory :=
  mkPredictorHistory (seqNum h) (PC h) (RASTarget h) (RASIndex h) (ph_tid h) (predTaken h) (usedRAS h) true (bpHistory h).

Record Stats := mkStats {
  lookups : Z; condPredicted : Z; condIncorrect : Z; BTBLookups : Z; BTBHits : Z; st_usedRAS : Z; RASIncorrect : Z
}.

Inductive stat := SLookups | SCondPredicted | SCondIncorrect | SBTBLookups | SBTBHits | SUsedRAS | SRASIncorrect.

(** [++] on a statistic *)
Definition bump (c : stat) (s : Stats) : Stats :=
  let '(mkStats a b d e f g h) := s in
  match c with
  | SLookups => mkStats (a + 1) b d e f g h
  | SCondPredicted => mkStats a (b + 1) d e f g h
  | SCondIncorrect => mkStats a b (d + 1) e f g h
  | SBTBLookups => mkStats a b d (e + 1) f g h
  | SBTBHits => mkStats a b d e (f + 1) g h
  | SUsedRAS => mkStats a b d e f (g + 1) h
  | SRASIncorrect => mkStats a b d e f g (h + 1)
  end.

Record t := mk {
  bp : predictor;
  BTB_ : BTB.t;
  RAS_ : list RAS.t;
  predHist : list (list PredictorHistory);
  stats : Stats
}.

(** The parameters of the processor that the unit reads. *)
Record Params := mkParams {
  predType : string;
  p_localPredictorSize : Z; p_localCtrBits : Z; p_localHistoryTableSize : Z; p_localHistoryBits : Z;
  p_globalPredictorSize : Z; p_globalHistoryBits : Z; p_globalCtrBits : Z;
  p_choicePredictorSize : Z; p_choiceCtrBits : Z;
  p_BTBEntries : Z; p_BTBTagSize : Z; p_RASSize : Z; p_instShiftAmt : Z
}.

(** The defaults of [src/m5/src/cpu/o3/O3CPU.py]. *)
Definition O3CPU_params : Params :=
  mkParams "tournament" 2048 2 2048 11 8192 13 2 8192 2 4096 16 16 2.

(** The predictor that the constructor sets up; the arguments of the tournament
    predictor are passed by position. *)
Definition select_predictor (found : Z) (ps : Params) : option predictor :=
  if decide (predType ps = "local"%string) then
    q ← LocalBP.LocalBP_new found (p_localPredictorSize ps) (p_localCtrBits ps) (p_instShiftAmt ps);
    Some (Local q)
  else if decide (predType ps = "tournament"%string) then
    q ← TournamentBP.TournamentBP_new found
          (p_localPredictorSize ps) (p_localCtrBits ps) (p_localHistoryTableSize ps) (p_localHistoryBits ps)
          (p_globalPredictorSize ps) (p_globalHistoryBits ps) (p_globalCtrBits ps)
          (p_choicePredictorSize ps) (p_choiceCtrBits ps) (p_instShiftAmt ps);
    Some (Tournament q)
  else None.

Definition BPredUnit_new (found : Z) (ps : Params) (maxThreads : nat) : option t :=
  b ← BTB.DefaultBTB_new found (p_BTBEntries ps) (p_BTBTagSize ps) (p_instShiftAmt ps);
  p ← select_predictor found ps;
  Some (mk p b (replicate maxThreads (RAS.init (p_RASSize ps))) (replicate maxThreads [])
           (mkStats 0 0 0 0 0 0 0)).

(** ** The operations *)

Section Unit.
(** [sizeof(MachInst)] and [ISA_HAS_DELAY_SLOT] *)
Context (mach_inst_size : Z) (delay_slot : bool).

Definition ras_pc (pc : Z) : Z := u64 (pc + (if delay_slot then 2 * mach_inst_size else mach_inst_size)).

(** The direction of the branch: what is predicted, what the predictor has
    recorded, and the predictor afterwards. *)
Definition predict_direction (p : predictor) (inst : DynInst) (pc : Z) (s : Stats) :
    option (bool * option BPHistory * predictor * Stats) :=
  if isUncondCtrl inst then let '(h, p') := BPUncond p in Some (true, h, p', s)
  else '(b, h, p') ← BPLookup p pc; Some (b, h, p', bump SCondPredicted s).

(** The target of the branch from the return address stack or the branch target
    buffer: the prediction, the target, the completed record, the stack. *)
Definition predict_target (b : BTB.t) (r : RAS.t) (inst : DynInst) (pc tid : Z) (record : PredictorHistory)
    (s : Stats) : option (bool * Z * PredictorHistory * RAS.t * Stats) :=
  if isReturn inst then
    target ← RAS.top r;
    let record := record_return record (RAS.topIdx r) target in
    _ ← check (RASIndex record <? 16);
    Some (true, target, record, RAS.pop r, bump SUsedRAS s)
  else
    let s := bump SBTBLookups s in
    '(r, record) ← (if isCall inst then r' ← RAS.push r (ras_pc pc); Some (r', record_call record)
                    else Some (r, record));
    hit ← BTB.valid b pc tid;
    if hit : bool then target ← BTB.lookup b pc tid; Some (true, target, record, r, bump SBTBHits s)
    else Some (false, pc, record, r, s).

(** [predict] returns the prediction and the predicted PC. *)
Definition predict (u : t) (inst : DynInst) (pc : Z) (tid : nat) : option (bool * Z * t) :=
  hist ← predHist u !! tid;
  r ← RAS_ u !! tid;
  '(pred_taken, bp_history, p, s) ← predict_direction (bp u) inst pc (bump SLookups (stats u));
  let record := PredictorHistory_new (inst_seqNum inst) pc pred_taken bp_history (Z.of_nat tid) in
  '(pred_taken, target, record, r, s) ←
    (if pred_taken : bool then predict_target (BTB_ u) r inst pc (Z.of_nat tid) record s
     else Some (false, pc, record, r, s));
  Some (pred_taken, target, mk p (BTB_ u) (<[tid := r]> (RAS_ u)) (<[tid := record :: hist]> (predHist u)) s).

(** The loop of [update] over the history, oldest record first. *)
Fixpoint update_loop (done_sn : Z) (p : predictor) (back : list PredictorHistory) :
    option (predictor * list PredictorHistory) :=
  match back with
  | [] => Some (p, [])
  | h :: back' =>
      if seqNum h <=? done_sn then
        p' ← BPUpdate p (PC h) (predTaken h) (bpHistory h); update_loop done_sn p' back'
      else Some (p, back)
  end.

Definition update (u : t) (done_sn : Z) (tid : nat) : option t :=
  hist ← predHist u !! tid;
  '(p, back) ← update_loop done_sn (bp u) (rev hist);
  Some (mk p (BTB_ u) (RAS_ u) (<[tid := rev back]> (predHist u)) (stats u)).

(** What squashing a record does to the return address stack. *)
Definition squash_ras (r : RAS.t) (h : PredictorHistory) : option RAS.t :=
  if usedRAS h then RAS.restore r (RASIndex h) (RASTarget h)
  else if wasCall h then Some (RAS.pop r)
  else Some r.

(** The loop of [squash] over the history, newest record first. *)
Fixpoint squash_loop (squashed_sn : Z) (p : predictor) (r : RAS.t) (hist : list PredictorHistory) :
    option (predictor * RAS.t * list PredictorHistory) :=
  match hist with
  | [] => Some (p, r, [])
  | h :: hist' =>
      if seqNum h >? squashed_sn then
        r' ← squash_ras r h;
        p' ← BPSquash p (bpHistory h);
        squash_loop squashed_sn p' r' hist'
      else Some (p, r, hist)
  end.

Definition squash (u : t) (squashed_sn : Z) (tid : nat) : option t :=
  hist ← predHist u !! tid;
  r ← RAS_ u !! tid;
  '(p, r, hist) ← squash_loop squashed_sn (bp u) r hist;
  Some (mk p (BTB_ u) (<[tid := r]> (RAS_ u)) (<[tid := hist]> (predHist u)) (stats u)).

(** [squash] with the correct target and direction of a mispredicted branch. *)
Definition squash_mispredict (u : t) (squashed_sn corr_target : Z) (actually_taken : bool) (tid : nat) : option t :=
  let u := mk (bp u) (BTB_ u) (RAS_ u) (predHist u) (bump SCondIncorrect (stats u)) in
  u ← squash u squashed_sn tid;
  hist ← predHist u !! tid;
  match hist with
  | [] => Some u
  | h :: hist' =>
      _ ← check (seqNum h =? squashed_sn);
      let s := if usedRAS h then bump SRASIncorrect (stats u) else stats u in
      p ← BPUpdate (bp u) (PC h) actually_taken (bpHistory h);
      b ← BTB.update (BTB_ u) (PC h) corr_target (Z.of_nat tid);
      Some (mk p b (RAS_ u) (<[tid := hist']> (predHist u)) s)
  end.

(** [squash(0, i)] for every thread *)
Definition switchOut (u : t) : option t :=
  foldl (λ o i, u ← o; squash u 0 i) (Some u) (seq 0 (length (predHist u))).

Definition takeOverFrom (u : t) : t := u.

Definition BTBValid (u : t) (inst_PC : Z) : option bool := BTB.valid (BTB_ u) inst_PC 0.
Definition BTBLookup (u : t) (inst_PC : Z) : option Z := BTB.lookup (BTB_ u) inst_PC 0.
Definition BTBUpdate (u : t) (inst_PC target_PC : Z) : option t :=
  b ← BTB.update (BTB_ u) inst_PC target_PC 0;
  Some (mk (bp u) b (RAS_ u) (predHist u) (stats u)).

End Unit.

(** ** The selected predictor is a direction predictor *)

Ltac unfold_calls :=
  unfold BPLookup, BPUncond, BPUpdate, BPSquash;
  cbn [bp_lookup bp_uncond bp_update bp_squash bp_wf bp_hist bp_config
       LocalBP.local_direction TournamentBP.tournament_direction] in *.

#[global] Program Instance predictor_direction : DirectionPredictor predictor := {
  bp_lookup := BPLookup;
  bp_uncond := BPUncond;
  bp_update := BPUpdate;
  bp_squash := BPSquash;
  bp_wf p := match p with Local q => bp_wf q | Tournament q => bp_wf q end;
  bp_hist p h := match p with Local q => bp_hist q h | Tournament q => bp_hist q h end;
  bp_config p := match p with Local q => 0 :: bp_config q | Tournament q => 1 :: bp_config q end
}.
Next Obligation.
  intros [q|q] pc Hw; destruct (bp_lookup_ok q pc Hw) as (b & h & q' & E & (Hw' & Hc & Hk) & Hh & Hs); unfold_calls.
  - destruct (LocalBP.lookup q pc) as [b'|]; [|done]. injection E as -> <- <-.
    eexists _, _, (Local q). split_and!; done.
  - rewrite E. eexists _, _, (Tournament q'). split_and!; [done|done|by rewrite Hc|done|done|]. by rewrite Hs.
Qed.
Next Obligation.
  intros [q|q] Hw; destruct (bp_uncond_ok q Hw) as (h & q' & E & (Hw' & Hc & Hk) & Hh & Hs); unfold_calls.
  - injection E as <- <-. eexists _, (Local q). split_and!; done.
  - rewrite E. eexists _, (Tournament _). split_and!; [done|done|by rewrite Hc|done|done|]. by rewrite Hs.
Qed.
Next Obligation.
  intros [q|q] pc b h Hw Hh; destruct (bp_update_ok q pc b h Hw Hh) as (q' & E & Hw' & Hc & Hk); unfold_calls; rewrite E.
  - exists (Local q'). split_and!; [done|done|by rewrite Hc|done].
  - exists (Tournament q'). split_and!; [done|done|by rewrite Hc|done].
Qed.
Next Obligation.
  intros [q|q] h Hw Hh; destruct (bp_squash_ok q h Hw Hh) as (q' & E & Hw' & Hc & Hk); unfold_calls; rewrite E.
  - exists (Local q'). split_and!; [done|done|by rewrite Hc|done].
  - exists (Tournament q'). split_and!; [done|done|by rewrite Hc|done].
Qed.

Lemma BPLookup_tournament q pc :
  BPLookup (Tournament q) pc = '(b, h, q') ← TournamentBP.lookup q pc; Some (b, h, Tournament q').
Proof. done. Qed.

Lemma BPUpdate_tournament q pc taken h :
  BPUpdate (Tournament q) pc taken h = q' ← TournamentBP.update q pc taken h; Some (Tournament q').
Proof. done. Qed.

#[global] Opaque BPUncond BPLookup BPUpdate BPSquash.

(** ** The invariant *)

(** A record that the predictor and a stack of [n] entries can take back. *)
Definition record_ok (n : Z) (p : predictor) (h : PredictorHistory) : Prop :=
  bp_hist p (bpHistory h) ∧ (usedRAS h = true → 0 <= RASIndex h < n).

Record wf (n : Z) (u : t) : Prop := {
  wf_bp : bp_wf (bp u);
  wf_btb : BTB.wf (BTB_ u);
  wf_num : 0 < n <= 16;
  wf_threads : length (RAS_ u) = length (predHist u);
  wf_ras : Forall (λ r, RAS.wf r ∧ RAS.numEntries r = n) (RAS_ u);
  wf_hist : Forall (Forall (record_ok n (bp u))) (predHist u)
}.

(** How many cells above the top are lost once a record is squashed, when [m]
    were lost by the squashes of the records after it. *)
Definition lost_cells (m : Z) (h : PredictorHistory) : Z :=
  if usedRAS h then Z.max 0 (m - 1) else if wasCall h then m + 1 else m.

(** Squashing [h] takes a stack that agrees with [r'] to one that agrees with [r]. *)
Definition undoes (h : PredictorHistory) (r r' : RAS.t) : Prop :=
  ∀ m r2, 0 <= m → RAS.wf r2 → RAS.agree m r' r2 →
    ∃ r3, squash_ras r2 h = Some r3 ∧ RAS.wf r3 ∧ RAS.agree (lost_cells m h) r r3.

Lemma undoes_nothing h r : usedRAS h = false → wasCall h = false → undoes h r r.
Proof.
  intros Hu Hc m r2 Hm Hw Ha. exists r2. unfold squash_ras, lost_cells. by rewrite Hu, Hc.
Qed.

Lemma lost_cells_nonneg m h : 0 <= m → 0 <= lost_cells m h.
Proof. unfold lost_cells. repeat case_match; lia. Qed.

Lemma record_ok_keeps n p p' h : bp_keeps p p' → record_ok n p h → record_ok n p' h.
Proof. intros (_ & _ & Hk) [Hh Hr]. split; [by apply Hk|done]. Qed.

Lemma records_keep n p p' (l : list (list PredictorHistory)) :
  bp_keeps p p' → Forall (Forall (record_ok n p)) l → Forall (Forall (record_ok n p')) l.
Proof.
  intros Hk Hl. eapply Forall_impl; [done|]. intros k Hf. eapply Forall_impl; [done|].
  intros h. by apply record_ok_keeps.
Qed.

Section UnitFacts.
Context (mach_inst_size : Z) (delay_slot : bool).
Notation predict_target := (predict_target mach_inst_size delay_slot).
Notation predict := (predict mach_inst_size delay_slot).

Lemma predict_direction_ok p inst pc s : bp_wf p → ∃ b h p' s',
  predict_direction p inst pc s = Some (b, h, p', s') ∧
  bp_keeps p p' ∧ bp_hist p' h ∧ bp_squash p' h = Some p.
Proof.
  intros Hw. unfold predict_direction. destruct (isUncondCtrl inst).
  - destruct (bp_uncond_ok p Hw) as (h & p' & E & Hrest). cbn in E. rewrite E. by eexists _, _, _, _.
  - destruct (bp_lookup_ok p pc Hw) as (b & h & p' & E & Hrest). cbn in E. rewrite E. by eexists _, _, _, _.
Qed.

(** The stack after the branch, and what its record remembers. *)
Definition target_ok (n : Z) (r : RAS.t) (rec rec' : PredictorHistory) (r' : RAS.t) : Prop :=
  RAS.wf r' ∧ RAS.numEntries r' = n ∧ (usedRAS rec' = true → 0 <= RASIndex rec' < n) ∧
  seqNum rec' = seqNum rec ∧ PC rec' = PC rec ∧ predTaken rec' = predTaken rec ∧
  bpHistory rec' = bpHistory rec ∧ undoes rec' r r'.

Lemma target_ok_refl n r rec :
  RAS.wf r → RAS.numEntries r = n → usedRAS rec = false → wasCall rec = false → target_ok n r rec rec r.
Proof.
  intros Hw Hn Hu Hc. unfold target_ok. rewrite Hu. split_and!; try done. by apply undoes_nothing.
Qed.

Lemma call_ok n r rec a : RAS.wf r → RAS.numEntries r = n → usedRAS rec = false →
  ∃ r', RAS.push r a = Some r' ∧ target_ok n r rec (record_call rec) r'.
Proof.
  intros Hw Hn Hu. destruct (RAS.push_wf r a Hw) as (r' & E & Hw'). exists r'. split; [done|].
  unfold target_ok. cbn. rewrite Hu. split_and!; try done.
  - rewrite RAS.push_Some in E by done. by injection E as <-.
  - intros m r2 Hm Hw2 Ha. exists (RAS.pop r2). unfold squash_ras, lost_cells. cbn. rewrite Hu.
    split_and!; [done|by apply RAS.pop_wf|by eapply RAS.agree_push_pop].
Qed.

Lemma return_ok n r rec a : RAS.wf r → RAS.numEntries r = n → RAS.top r = Some a →
  target_ok n r rec (record_return rec (RAS.topIdx r) a) (RAS.pop r).
Proof.
  intros Hw Hn Ht. unfold target_ok. cbn. split_and!; try done.
  - by apply RAS.pop_wf.
  - intros _. rewrite <- Hn. apply (RAS.wf_tos _ Hw).
  - intros m r2 Hm Hw2 Ha. unfold squash_ras, lost_cells. cbn. by apply RAS.agree_pop_restore.
Qed.

Lemma btb_Some b pc th : BTB.wf b → ∃ hit g, BTB.valid b pc th = Some hit ∧ BTB.lookup b pc th = Some g.
Proof.
  intros [k Hw]. unfold BTB.valid, BTB.lookup.
  destruct (BTB.probe_Some b k Hw pc th) as (e & _ & ->). by eexists _, _.
Qed.

Lemma predict_target_ok n b r inst pc th rec s :
  BTB.wf b → RAS.wf r → RAS.numEntries r = n → n <= 16 → usedRAS rec = false → wasCall rec = false →
  ∃ tk g rec' r' s', predict_target b r inst pc th rec s = Some (tk, g, rec', r', s') ∧ target_ok n r rec rec' r'.
Proof.
  intros Hb Hr Hn Hle Hu Hc. unfold predict_target. destruct (isReturn inst).
  - destruct (RAS.top_Some r Hr) as [a Ha]. rewrite Ha. cbn [mbind option_bind].
    pose proof (RAS.wf_tos _ Hr). unfold check. rewrite (proj2 (Z.ltb_lt _ 16)) by (cbn; unfold RAS.topIdx; lia).
    eexists _, _, _, _, _. split; [done|]. by apply return_ok.
  - destruct (btb_Some b pc th Hb) as (hit & g & Ev & El).
    assert (∃ r' rec', (if isCall inst then r' ← RAS.push r (ras_pc mach_inst_size delay_slot pc); Some (r', record_call rec)
                        else Some (r, rec)) = Some (r', rec') ∧ target_ok n r rec rec' r') as (r' & rec' & -> & Hok).
    { destruct (isCall inst).
      - destruct (call_ok n r rec (ras_pc mach_inst_size delay_slot pc)) as (r' & -> & Hok); [done..|]. by eexists _, _.
      - eexists _, _. split; [done|]. by apply target_ok_refl. }
    cbn [mbind option_bind]. rewrite Ev, El. cbn [mbind option_bind].
    destruct hit; by eexists _, _, _, _, _.
Qed.

(** A thread of the unit has its stack and its history. *)
Lemma thread_state n u tid : wf n u → (tid < length (predHist u))%nat →
  ∃ hist r, predHist u !! tid = Some hist ∧ RAS_ u !! tid = Some r ∧
            RAS.wf r ∧ RAS.numEntries r = n ∧ Forall (record_ok n (bp u)) hist.
Proof.
  intros Hw Ht. destruct (lookup_lt_is_Some_2 (predHist u) tid Ht) as [hist Hh].
  destruct (lookup_lt_is_Some_2 (RAS_ u) tid) as [r Hr]; [by rewrite (wf_threads _ _ Hw)|].
  destruct (Forall_lookup_1 _ _ _ _ (wf_ras _ _ Hw) Hr) as [Hrw Hrn].
  exists hist, r. split_and!; [done..|]. by apply (Forall_lookup_1 _ _ _ _ (wf_hist _ _ Hw) Hh).
Qed.

(** Replacing the state of one thread keeps the invariant. *)
Lemma thread_update_wf n u tid p b r hist s :
  wf n u → bp_keeps (bp u) p → BTB.wf b → RAS.wf r → RAS.numEntries r = n → Forall (record_ok n p) hist →
  wf n (mk p b (<[tid := r]> (RAS_ u)) (<[tid := hist]> (predHist u)) s).
Proof.
  intros Hw Hk Hb Hr Hn Hh. split; cbn.
  - apply Hk.
  - done.
  - apply Hw.
  - rewrite !length_insert. apply Hw.
  - apply Forall_insert; [apply Hw|done].
  - apply Forall_insert; [|done]. eapply records_keep; [done|apply Hw].
Qed.

(** A prediction: what changes, and that squashing its record takes it back. *)
Lemma predict_ok n u inst pc tid hist r :
  wf n u → predHist u !! tid = Some hist → RAS_ u !! tid = Some r →
  ∃ tk g rec r' p' s',
    let u' := mk p' (BTB_ u) (<[tid := r']> (RAS_ u)) (<[tid := rec :: hist]> (predHist u)) s' in
    predict u inst pc tid = Some (tk, g, u') ∧ wf n u' ∧ bp_config p' = bp_config (bp u) ∧
    seqNum rec = inst_seqNum inst ∧ RAS.wf r' ∧ RAS.numEntries r' = n ∧
    bp_squash p' (bpHistory rec) = Some (bp u) ∧ undoes rec r r' ∧ PC rec = pc ∧
    ∃ s0, predict_direction (bp u) inst pc (bump SLookups (stats u)) = Some (predTaken rec, bpHistory rec, p', s0).
Proof.
  intros Hw Hh Hr.
  destruct (thread_state n u tid Hw) as (hist0 & r0 & Hh0 & Hr0 & Hrw & Hrn & Hrec); [by eapply lookup_lt_Some|].
  rewrite Hh in Hh0. injection Hh0 as <-. rewrite Hr in Hr0. injection Hr0 as <-.
  unfold predict. rewrite Hh, Hr. cbn [mbind option_bind].
  destruct (predict_direction_ok (bp u) inst pc (bump SLookups (stats u)) (wf_bp _ _ Hw))
    as (b & h & p' & s' & Ed & Hk & Hhist & Hsq). rewrite Ed. cbn [mbind option_bind].
  set (rec := PredictorHistory_new _ _ _ _ _).
  assert (∃ tk g rec' r' s2, (if b then predict_target (BTB_ u) r inst pc (Z.of_nat tid) rec s' else Some (false, pc, rec, r, s'))
     = Some (tk, g, rec', r', s2) ∧ target_ok n r rec rec' r')
    as (tk & g & rec' & r' & s2 & -> & Hrw' & Hrn' & Hidx & Hseq & Hpc & Htk & Hbh & Hun).
  { destruct b; [|eexists _, _, _, _, _; split; [done|]; by apply target_ok_refl].
    apply predict_target_ok; try done; [apply (wf_btb _ _ Hw)|apply (wf_num _ _ Hw)]. }
  exists tk, g, rec', r', p', s2. cbn [mbind option_bind]. split; [done|]. split.
  { apply thread_update_wf; try done; [apply (wf_btb _ _ Hw)|]. constructor.
    - split; [by rewrite Hbh|done].
    - eapply Forall_impl; [done|]. intros h'. by apply record_ok_keeps. }
  split; [apply Hk|]. rewrite Hseq, Hbh, Hpc, Htk. split_and!; try done. by exists s'.
Qed.

(** Committing: the oldest records up to [done_sn] train the predictor. *)
Lemma update_loop_ok n sn p back : bp_wf p → Forall (record_ok n p) back →
  ∃ p' rest, update_loop sn p back = Some (p', rest) ∧ bp_keeps p p' ∧ rest `suffix_of` back.
Proof.
  revert p. induction back as [|h back IH]; intros p Hw Hf; cbn [update_loop].
  - exists p, []. split; [done|]. split; [by apply bp_keeps_refl|done].
  - apply Forall_cons in Hf as [Hh Hf].
    zcase; [|exists p, (h :: back); split; [done|]; split; [by apply bp_keeps_refl|done]].
    destruct (bp_update_ok p (PC h) (predTaken h) (bpHistory h) Hw) as (p1 & E & Hk1); [apply Hh|].
    cbn in E. rewrite E. cbn [mbind option_bind].
    destruct (IH p1) as (p' & rest & E' & Hk' & Hs); [apply Hk1| |].
    { eapply Forall_impl; [done|]. intros h'. by apply record_ok_keeps. }
    exists p', rest. split; [done|]. split; [by eapply bp_keeps_trans|by apply suffix_cons_r].
Qed.

(** The records that squashing removes, and what is left. *)
Lemma squash_loop_ok n sn p r hist :
  bp_wf p → RAS.wf r → RAS.numEntries r = n → Forall (record_ok n p) hist →
  ∃ p' r' dropped rest, squash_loop sn p r hist = Some (p', r', rest) ∧
    bp_keeps p p' ∧ RAS.wf r' ∧ RAS.numEntries r' = n ∧ hist = dropped ++ rest ∧
    Forall (λ h, sn < seqNum h) dropped ∧ (∀ h, head rest = Some h → seqNum h <= sn).
Proof.
  revert p r. induction hist as [|h hist IH]; intros p r Hw Hr Hn Hf; cbn [squash_loop].
  { exists p, r, [], []. split; [done|]. split; [by apply bp_keeps_refl|]. by split_and!. }
  apply Forall_cons in Hf as [Hh Hf]. rewrite Z.gtb_ltb. zcase.
  2:{ exists p, r, [], (h :: hist). split; [done|]. split; [by apply bp_keeps_refl|].
      split_and!; try done. by intros ? [= <-]. }
  assert (∃ r1, squash_ras r h = Some r1 ∧ RAS.wf r1 ∧ RAS.numEntries r1 = n) as (r1 & -> & Hr1 & Hn1).
  { unfold squash_ras. destruct Hh as [_ Hi]. destruct (usedRAS h).
    - destruct (RAS.restore_wf r (RASIndex h) (RASTarget h) Hr) as (r1 & E & Hr1 & Hn1); [rewrite Hn; by apply Hi|].
      exists r1. split_and!; [done..|congruence].
    - destruct (wasCall h); eexists; split_and!; try done; by apply RAS.pop_wf. }
  destruct (bp_squash_ok p (bpHistory h) Hw) as (p1 & E & Hk1); [apply Hh|].
  cbn [mbind option_bind]. cbn in E. rewrite E. cbn [mbind option_bind].
  destruct (IH p1 r1) as (p' & r' & dropped & rest & E' & Hk' & Hrw & Hrn & -> & Hd & Hrest); [apply Hk1|done..| |].
  { eapply Forall_impl; [done|]. intros h'. by apply record_ok_keeps. }
  exists p', r', (h :: dropped), rest. split; [done|]. split; [by eapply bp_keeps_trans|].
  split_and!; try done. by constructor.
Qed.

Lemma update_ok n u sn tid hist : wf n u → predHist u !! tid = Some hist →
  ∃ p rest, let u' := mk p (BTB_ u) (RAS_ u) (<[tid := rest]> (predHist u)) (stats u) in
    update u sn tid = Some u' ∧ wf n u' ∧ bp_config p = bp_config (bp u) ∧ rest `sublist_of` hist.
Proof.
  intros Hw Hh. unfold update. rewrite Hh. cbn [mbind option_bind].
  pose proof (Forall_lookup_1 _ _ _ _ (wf_hist _ _ Hw) Hh) as Hf.
  destruct (update_loop_ok n sn (bp u) (rev hist) (wf_bp _ _ Hw)) as (p & back & E & Hk & [k Hs]).
  { by apply Forall_rev. }
  rewrite E. cbn [mbind option_bind]. exists p, (rev back). cbn zeta.
  assert (hist = rev back ++ rev k) as Hsplit by (by rewrite <- rev_app_distr, <- Hs, rev_involutive).
  split; [done|]. split.
  - destruct Hw as [? ? ? ? ? Hhist]. split; cbn; try done; [apply Hk|by rewrite length_insert|].
    apply Forall_insert; [by eapply records_keep|]. eapply Forall_impl; [|intros h; by apply record_ok_keeps].
    rewrite Hsplit in Hf. by apply Forall_app in Hf as [Hf _].
  - split; [by apply bp_keeps_config|]. rewrite Hsplit. apply sublist_inserts_r. done.
Qed.

Lemma unit_squash_ok n u sn tid hist r : wf n u → predHist u !! tid = Some hist → RAS_ u !! tid = Some r →
  ∃ p r' dropped rest,
    let u' := mk p (BTB_ u) (<[tid := r']> (RAS_ u)) (<[tid := rest]> (predHist u)) (stats u) in
    squash u sn tid = Some u' ∧ wf n u' ∧ bp_config p = bp_config (bp u) ∧ hist = dropped ++ rest ∧
    Forall (λ h, sn < seqNum h) dropped ∧ (∀ h, head rest = Some h → seqNum h <= sn).
Proof.
  intros Hw Hh Hr. unfold squash. rewrite Hh, Hr. cbn [mbind option_bind].
  pose proof (Forall_lookup_1 _ _ _ _ (wf_hist _ _ Hw) Hh) as Hf.
  destruct (Forall_lookup_1 _ _ _ _ (wf_ras _ _ Hw) Hr) as [Hrw Hrn].
  destruct (squash_loop_ok n sn (bp u) r hist (wf_bp _ _ Hw) Hrw Hrn Hf)
    as (p & r' & dropped & rest & -> & Hk & Hrw' & Hrn' & Hsplit & Hd & Hrest).
  exists p, r', dropped, rest. cbn [mbind option_bind]. split; [done|]. split.
  - apply thread_update_wf; try done; [apply (wf_btb _ _ Hw)|].
    eapply Forall_impl; [|intros h; by apply record_ok_keeps].
    rewrite Hsplit in Hf. by apply Forall_app in Hf as [_ Hf].
  - split; [by apply bp_keeps_config|done].
Qed.

(** The branch that was mispredicted is still in the history, or the history
    has nothing as old as it. *)
Definition correctable (sn : Z) (hist : list PredictorHistory) : Prop :=
  (∃ h, h ∈ hist ∧ seqNum h = sn) ∨ Forall (λ h, sn < seqNum h) hist.

(** Records are in program order, newest first. *)
Definition in_order (hist : list PredictorHistory) : Prop := StronglySorted (λ a b, seqNum b < seqNum a) hist.

Lemma correctable_front sn dropped h rest :
  in_order (dropped ++ h :: rest) → correctable sn (dropped ++ h :: rest) →
  Forall (λ h, sn < seqNum h) dropped → seqNum h <= sn → seqNum h = sn.
Proof.
  unfold in_order. intros Hs [(x & Hx & Hsn)|Hall] Hd Hle.
  - rewrite Forall_forall in Hd. apply elem_of_app in Hx as [Hx|Hx].
    + apply Hd in Hx. lia.
    + apply StronglySorted_app_1_r, StronglySorted_inv in Hs as [_ Hs]. rewrite Forall_forall in Hs.
      apply elem_of_cons in Hx as [->|Hx]; [done|]. apply Hs in Hx. lia.
  - apply Forall_app in Hall as [_ Hall]. apply Forall_cons in Hall as [Hlt _]. lia.
Qed.

(** The correction of the youngest branch of the history. *)
Lemma correction_ok n u tid h rest target taken s :
  wf n u → predHist u !! tid = Some (h :: rest) →
  ∃ p b, BPUpdate (bp u) (PC h) taken (bpHistory h) = Some p ∧
    BTB.update (BTB_ u) (PC h) target (Z.of_nat tid) = Some b ∧
    bp_config p = bp_config (bp u) ∧ wf n (mk p b (RAS_ u) (<[tid := rest]> (predHist u)) s).
Proof.
  intros Hw Hh.
  destruct (thread_state n u tid Hw) as (hist0 & r & Hh0 & Hr & Hrw & Hrn & Hf); [by eapply lookup_lt_Some|].
  rewrite Hh in Hh0. injection Hh0 as <-. apply Forall_cons in Hf as [Hrec Hf].
  destruct (bp_update_ok (bp u) (PC h) taken (bpHistory h) (wf_bp _ _ Hw) (proj1 Hrec)) as (p & E & Hk).
  destruct (wf_btb _ _ Hw) as [k Hbw].
  destruct (BTB.btb_update_Some (BTB_ u) k Hbw (PC h) target (Z.of_nat tid)) as [Eb Hbw'].
  eexists p, _. split; [done|]. split; [done|]. split; [by apply bp_keeps_config|].
  rewrite <- (list_insert_id (RAS_ u) tid r Hr). apply thread_update_wf; try done; [by exists k|].
  eapply Forall_impl; [done|]. intros h'. by apply record_ok_keeps.
Qed.

Lemma mispredict_ok n u sn target taken tid hist :
  wf n u → predHist u !! tid = Some hist → in_order hist → correctable sn hist →
  ∃ p b r rest s, let u' := mk p b (<[tid := r]> (RAS_ u)) (<[tid := rest]> (predHist u)) s in
    squash_mispredict u sn target taken tid = Some u' ∧ wf n u' ∧ bp_config p = bp_config (bp u) ∧
    rest `sublist_of` hist.
Proof.
  intros Hw Hh Hord Hcor. unfold squash_mispredict.
  set (u0 := mk (bp u) (BTB_ u) (RAS_ u) (predHist u) (bump SCondIncorrect (stats u))).
  assert (wf n u0) as Hw0 by (destruct Hw; by split).
  destruct (thread_state n u0 tid Hw0) as (hist0 & r0 & Hh0 & Hr0 & _); [by eapply lookup_lt_Some|].
  cbn in Hh0. rewrite Hh in Hh0. injection Hh0 as <-.
  destruct (unit_squash_ok n u0 sn tid hist r0 Hw0 Hh Hr0) as (p & r & dropped & rest & -> & Hw1 & Hc1 & -> & Hd & Hrest).
  subst u0. cbn [mbind option_bind predHist RAS_ BTB_ bp stats] in *.
  pose proof (list_lookup_insert_eq (predHist u) tid rest (lookup_lt_Some _ _ _ Hh)) as Hh1.
  rewrite Hh1. cbn [mbind option_bind]. destruct rest as [|h rest].
  { eexists _, _, _, _, _. split; [done|]. split; [done|]. split; [done|]. apply sublist_nil_l. }
  rewrite (correctable_front sn dropped h rest); try done; [|by apply Hrest].
  unfold check. rewrite Z.eqb_refl. cbn [mbind option_bind].
  destruct (correction_ok n _ tid h rest target taken
              (if usedRAS h then bump SRASIncorrect (bump SCondIncorrect (stats u)) else bump SCondIncorrect (stats u))
              Hw1 Hh1) as (p2 & b2 & E2 & Eb & Hc2 & Hw2).
  cbn [predHist RAS_ BTB_ bp stats] in *. rewrite E2. cbn [mbind option_bind]. rewrite Eb. cbn [mbind option_bind].
  rewrite list_insert_insert_eq in *.
  eexists p2, b2, r, rest, _. split; [done|]. split; [done|]. split; [by rewrite Hc2|].
  apply sublist_inserts_l, sublist_cons. done.
Qed.

End UnitFacts.
