(* ===== verification/BPredRun.v ===== *)
(** Runs of the branch prediction unit: that no call of the processor makes it
    fail, that squashing takes speculation back, and what it learns wrongly. *)

From S2P Require Import Prelude IntMath BranchPred BranchTargets BPredUnit.

(** Parameters that the processor can be built with.  The constructors check
    that sizes are powers of two; that the global history fits its table, that
    the return address stack has at most 16 entries and that shifts are smaller
    than an address is left to the configuration. *)
Record params_ok (ps : Params) : Prop := {
  po_u32 : Forall is_u32 [p_localPredictorSize ps; p_localCtrBits ps; p_localHistoryTableSize ps; p_localHistoryBits ps;
                          p_globalPredictorSize ps; p_globalHistoryBits ps; p_globalCtrBits ps; p_choiceCtrBits ps;
                          p_BTBEntries ps; p_BTBTagSize ps];
  po_shift : 0 <= p_instShiftAmt ps ∧ p_instShiftAmt ps + Z.log2 (p_BTBEntries ps) < 64;
  po_ras : 1 <= p_RASSize ps <= 16;
  po_history : predType ps = "tournament"%string → 2 ^ p_globalCtrBits ps <= p_globalPredictorSize ps
}.

Lemma select_predictor_wf found ps p : params_ok ps → select_predictor found ps = Some p → bp_wf p.
Proof.
  intros [HF [Hs Hb] _ Hg]. unfold is_u32 in HF. repeat apply Forall_cons_1 in HF as [? HF].
  pose proof (Z.log2_nonneg (p_BTBEntries ps)). unfold select_predictor. case_decide.
  - obind [q|] E. intros [= <-]. apply LocalBP.LocalBP_new_wf in E; [done|done|done|lia].
  - case_decide; [|done]. obind [q|] E. intros [= <-].
    apply TournamentBP.TournamentBP_new_wf in E; [done| |lia|by apply Hg].
    rewrite !Forall_cons, Forall_nil. unfold is_u32. split_and!; lia || done.
Qed.

Lemma BPredUnit_new_wf found ps threads u :
  params_ok ps → BPredUnit_new found ps threads = Some u →
  wf (p_RASSize ps) u ∧ predHist u = replicate threads [].
Proof.
  intros Hok. unfold BPredUnit_new. obind [b|] Eb. obind [p|] Ep. intros [= <-]. split; [|done].
  pose proof (po_ras _ Hok) as Hr. split; cbn.
  - by eapply select_predictor_wf.
  - destruct Hok as [HF [Hs Hb] _ _]. unfold is_u32 in HF. repeat apply Forall_cons_1 in HF as [? HF].
    by apply BTB.DefaultBTB_new_wf in Eb as [Hw _].
  - lia.
  - by rewrite !length_replicate.
  - apply Forall_replicate. split; [apply RAS.init_wf; lia|done].
  - by apply Forall_replicate.
Qed.

(** ** Calls of the processor *)

Inductive op :=
  | Predict (inst : DynInst) (pc : Z) (tid : nat)
  | Commit (done_sn : Z) (tid : nat)
  | Squash (squashed_sn : Z) (tid : nat)
  | Mispredict (squashed_sn corr_target : Z) (actually_taken : bool) (tid : nat)
  | SwitchOut.

Section Runs.
Context (mach_inst_size : Z) (delay_slot : bool).
Notation predict := (predict mach_inst_size delay_slot).

Definition step (u : t) (o : op) : option t :=
  match o with
  | Predict inst pc tid => '(_, _, u') ← predict u inst pc tid; Some u'
  | Commit sn tid => update u sn tid
  | Squash sn tid => squash u sn tid
  | Mispredict sn target taken tid => squash_mispredict u sn target taken tid
  | SwitchOut => switchOut u
  end.

(** The processor fetches in program order, and corrects a branch that it has
    not committed. *)
Definition legal (u : t) (o : op) : Prop :=
  match o with
  | Predict inst _ tid => ∃ hist, predHist u !! tid = Some hist ∧ Forall (λ h, seqNum h < inst_seqNum inst) hist
  | Commit _ tid | Squash _ tid => (tid < length (predHist u))%nat
  | Mispredict sn _ _ tid => ∃ hist, predHist u !! tid = Some hist ∧ correctable sn hist
  | SwitchOut => True
  end.

Inductive reach (ps : Params) (threads : nat) : t → Prop :=
  | reach_new found u : BPredUnit_new found ps threads = Some u → reach ps threads u
  | reach_step u o u' : reach ps threads u → legal u o → step u o = Some u' → reach ps threads u'.

(** What every reachable state satisfies. *)
Definition inv (n : Z) (u : t) : Prop := wf n u ∧ Forall in_order (predHist u).

(** A call of the processor returns, keeps the invariant and the number of
    threads, and does not change the sizes of the predictor. *)
Definition good_step (n : Z) (u : t) (o : option t) : Prop :=
  ∃ u', o = Some u' ∧ inv n u' ∧ bp_config (bp u') = bp_config (bp u) ∧ length (predHist u') = length (predHist u).

Lemma in_order_sublist l k : l `sublist_of` k → in_order k → in_order l.
Proof. apply StronglySorted_sublist. Qed.

Lemma histories_insert u tid hist hist' :
  Forall in_order (predHist u) → predHist u !! tid = Some hist → hist' `sublist_of` hist →
  Forall in_order (<[tid := hist']> (predHist u)).
Proof.
  intros Hf Hh Hs. apply Forall_insert; [done|]. eapply in_order_sublist; [done|].
  by apply (Forall_lookup_1 _ _ _ _ Hf Hh).
Qed.

Lemma squash_good n u sn tid : inv n u → (tid < length (predHist u))%nat → good_step n u (squash u sn tid).
Proof.
  intros [Hw Ho] Ht. destruct (thread_state n u tid Hw Ht) as (hist & r & Hh & Hr & _).
  destruct (unit_squash_ok n u sn tid hist r Hw Hh Hr) as (p & r' & dropped & rest & -> & Hw' & Hc & Hsplit & _).
  eexists. split; [done|]. split; [split; [done|]|].
  - cbn. eapply histories_insert; [done..|]. rewrite Hsplit. by apply sublist_inserts_l.
  - split; [done|]. cbn. by rewrite length_insert.
Qed.

Lemma squashes_good n u l : inv n u → Forall (λ i, i < length (predHist u))%nat l →
  good_step n u (foldl (λ o i, u ← o; squash u 0 i) (Some u) l).
Proof.
  revert u. induction l as [|i l IH]; intros u Hi Hf; cbn [foldl mbind option_bind]; [by exists u|].
  apply Forall_cons in Hf as [Hlt Hf]. destruct (squash_good n u 0 i Hi Hlt) as (u1 & -> & Hi1 & Hc1 & Hl1).
  destruct (IH u1 Hi1) as (u2 & E & Hi2 & Hc2 & Hl2); [by rewrite Hl1|].
  exists u2. split; [done|]. by rewrite Hc2, Hl2.
Qed.

Lemma step_good n u o : inv n u → legal u o → good_step n u (step u o).
Proof.
  intros Hi Hl. destruct Hi as [Hw Ho]. destruct o as [inst pc tid|sn tid|sn tid|sn target taken tid|]; cbn [step legal] in *.
  - destruct Hl as (hist & Hh & Hlt).
    destruct (thread_state n u tid Hw) as (hist0 & r & Hh0 & Hr & _); [by eapply lookup_lt_Some|].
    destruct (predict_ok mach_inst_size delay_slot n u inst pc tid hist r Hw Hh Hr)
      as (tk & g & rec & r' & p' & s' & -> & Hw' & Hc & Hseq & _).
    eexists. split; [done|]. split; [split; [done|]|]; cbn; [|by rewrite length_insert].
    apply Forall_insert; [done|]. constructor; [by apply (Forall_lookup_1 _ _ _ _ Ho Hh)|]. by rewrite Hseq.
  - destruct (lookup_lt_is_Some_2 _ _ Hl) as [hist Hh].
    destruct (update_ok n u sn tid hist Hw Hh) as (p & rest & -> & Hw' & Hc & Hs).
    eexists. split; [done|]. split; [split; [done|]|]; cbn; [|by rewrite length_insert].
    by eapply histories_insert.
  - by apply squash_good.
  - destruct Hl as (hist & Hh & Hcor).
    destruct (mispredict_ok n u sn target taken tid hist Hw Hh) as (p & b & r & rest & s & -> & Hw' & Hc & Hs);
      [by apply (Forall_lookup_1 _ _ _ _ Ho Hh)|done|].
    eexists. split; [done|]. split; [split; [done|]|]; cbn; [|by rewrite length_insert].
    by eapply histories_insert.
  - apply squashes_good; [done|]. apply Forall_forall. intros i Hi. apply elem_of_seq in Hi. lia.
Qed.

Lemma reach_inv ps threads u : params_ok ps → reach ps threads u → inv (p_RASSize ps) u.
Proof.
  intros Hok. induction 1 as [found u E|u o u' Hr IH Hl E].
  - destruct (BPredUnit_new_wf found ps threads u Hok E) as [Hw Hh]. split; [done|].
    rewrite Hh. apply Forall_replicate. constructor.
  - destruct (step_good _ u o IH Hl) as (u1 & E1 & Hi & _). rewrite E in E1. by injection E1 as ->.
Qed.

(** C28. The branch unit never fails: when the constructors accept the parameters,
    the return address stack has at most 16 entries, the global history fits its
    table and the shifts are smaller than an address, in every reachable state
    every call of the processor returns (predictions in program order, commits,
    squashes, corrections of a branch that is still in the history, switching
    out): no table is indexed out of range and no assertion fails. Records stay in
    program order and the return address stacks well formed. *)
Theorem bpred_never_fails ps threads u :
  params_ok ps → reach ps threads u →
  (∀ o, legal u o → ∃ u', step u o = Some u') ∧
  Forall in_order (predHist u) ∧ Forall RAS.wf (RAS_ u).
Proof.
  intros Hok Hr. pose proof (reach_inv ps threads u Hok Hr) as Hi. split_and!.
  - intros o Hl. destruct (step_good _ u o Hi Hl) as (u' & E & _). by exists u'.
  - apply Hi.
  - eapply Forall_impl; [apply Hi|]. by intros r [Hw _].
Qed.

(** ** Speculation *)

(** Predictions of consecutive branches of one thread. *)
Fixpoint predict_run (u : t) (l : list (DynInst * Z)) (tid : nat) : option t :=
  match l with
  | [] => Some u
  | (inst, pc) :: l => '(_, _, u') ← predict u inst pc tid; predict_run u' l tid
  end.

(** Squashing a run of predictions gets back to the predictor and, but for lost
    cells, to the stack before it. *)
Lemma predict_run_undone n u l tid hist r :
  wf n u → predHist u !! tid = Some hist → RAS_ u !! tid = Some r →
  ∃ recs r' p' s', predict_run u l tid =
      Some (mk p' (BTB_ u) (<[tid := r']> (RAS_ u)) (<[tid := recs ++ hist]> (predHist u)) s') ∧
    length recs = length l ∧
    ∀ sn, Forall (λ x, sn < inst_seqNum x.1) l →
      ∃ r2, RAS.wf r2 ∧ RAS.agree (fold_left lost_cells recs 0) r r2 ∧ 0 <= fold_left lost_cells recs 0 ∧
        ∀ rest, squash_loop sn p' r' (recs ++ rest) = squash_loop sn (bp u) r2 rest.
Proof.
  revert u hist r. induction l as [|[inst pc] l IH]; intros u hist r Hw Hh Hr.
  { exists [], r, (bp u), (stats u). split.
    { cbn [predict_run app]. rewrite !list_insert_id by done. by destruct u. }
    split; [done|]. intros sn _. exists r. split_and!; [|apply RAS.agree_refl|done|done].
    by apply (Forall_lookup_1 _ _ _ _ (wf_ras _ _ Hw) Hr). }
  cbn [predict_run].
  destruct (predict_ok mach_inst_size delay_slot n u inst pc tid hist r Hw Hh Hr)
    as (tk & g & rec & r1 & p1 & s1 & -> & Hw1 & _ & Hseq & _ & _ & Hsq & Hun & _).
  cbn [mbind option_bind].
  pose proof (list_lookup_insert_eq _ _ (rec :: hist) (lookup_lt_Some _ _ _ Hh)) as Hh1.
  pose proof (list_lookup_insert_eq _ _ r1 (lookup_lt_Some _ _ _ Hr)) as Hr1.
  destruct (IH _ _ _ Hw1 Hh1 Hr1) as (recs & r' & p' & s' & -> & Hlen & Hundo).
  cbn [BTB_ RAS_ predHist bp] in *. rewrite !list_insert_insert_eq.
  exists (recs ++ [rec]), r', p', s'. rewrite <- app_assoc. split; [done|].
  split; [rewrite length_app; cbn; lia|].
  intros sn Hsn. apply Forall_cons in Hsn as [Hlt Hsn]. destruct (Hundo sn Hsn) as (r2 & Hw2 & Ha & Hm & Hloop).
  destruct (Hun _ r2 Hm Hw2 Ha) as (r3 & E3 & Hw3 & Ha3).
  exists r3. rewrite fold_left_app. cbn [fold_left]. split_and!; [done..|by apply lost_cells_nonneg|].
  intros rest. rewrite <- app_assoc, Hloop. cbn [app squash_loop]. rewrite Hseq.
  cbn [fst] in Hlt. rewrite (proj2 (Z.gtb_lt _ _)) by done. rewrite E3. cbn [mbind option_bind].
  cbn in Hsq. by rewrite Hsq.
Qed.

Lemma squash_loop_older sn p r hist :
  Forall (λ h, seqNum h <= sn) hist → squash_loop sn p r hist = Some (p, r, hist).
Proof.
  intros Hf. destruct hist as [|h hist]; [done|]. apply Forall_cons in Hf as [Hle _].
  cbn [squash_loop]. rewrite Z.gtb_ltb. zcase; [lia|done].
Qed.

(** C27. Squashing takes speculation back: after any predictions of a thread in
    a reachable state, squashing them restores the direction predictor with
    its global history, the branch target buffer and the histories exactly,
    and the top of the return address stack with every entry except the ones
    just above the top that speculative calls have overwritten ([lost_cells]
    counts them); the count of used entries is not restored, stacks of other
    threads are untouched. *)
Theorem speculation_undone ps threads u tid l sn hist r :
  params_ok ps → reach ps threads u →
  predHist u !! tid = Some hist → RAS_ u !! tid = Some r →
  Forall (λ h, seqNum h <= sn) hist → Forall (λ x, sn < inst_seqNum x.1) l →
  ∃ recs u' u'' r'',
    predict_run u l tid = Some u' ∧ predHist u' = <[tid := recs ++ hist]> (predHist u) ∧
    length recs = length l ∧ squash u' sn tid = Some u'' ∧
    bp u'' = bp u ∧ BTB_ u'' = BTB_ u ∧ predHist u'' = predHist u ∧
    RAS_ u'' = <[tid := r'']> (RAS_ u) ∧ RAS.agree (fold_left lost_cells recs 0) r r''.
Proof.
  intros Hok Hreach Hh Hr Hold Hnew. destruct (reach_inv ps threads u Hok Hreach) as [Hw _].
  destruct (predict_run_undone _ u l tid hist r Hw Hh Hr) as (recs & r' & p' & s' & E & Hlen & Hundo).
  destruct (Hundo sn Hnew) as (r2 & _ & Ha & _ & Hloop).
  eexists recs, _, _, r2. split; [done|]. split; [done|]. split; [done|]. unfold squash.
  cbn [predHist RAS_ BTB_ bp stats].
  rewrite !list_lookup_insert_eq by (by eapply lookup_lt_Some). cbn [mbind option_bind].
  rewrite Hloop, squash_loop_older by done. split; [done|]. cbn [predHist RAS_ BTB_ bp].
  rewrite !list_insert_insert_eq, (list_insert_id (predHist u)) by done. done.
Qed.

(** ** What the unit gets wrong *)

Lemma reach_config ps threads u : params_ok ps → reach ps threads u →
  ∃ found u0, BPredUnit_new found ps threads = Some u0 ∧ bp_config (bp u) = bp_config (bp u0).
Proof.
  intros Hok. induction 1 as [found u E|u o u' Hr (found & u0 & E0 & Hc) Hl E]; [by exists found, u|].
  destruct (step_good _ u o (reach_inv ps threads u Hok Hr) Hl) as (u1 & E1 & _ & Hc1 & _).
  rewrite E in E1. injection E1 as <-. exists found, u0. by rewrite Hc1.
Qed.

(** The sizes of a tournament predictor that the unit has built. *)
Lemma unit_tournament_config found ps threads u0 q :
  Forall is_u32 [p_globalCtrBits ps; p_globalHistoryBits ps] →
  BPredUnit_new found ps threads = Some u0 → bp u0 = Tournament q →
  TournamentBP.globalCtrBits q = p_globalHistoryBits ps ∧ TournamentBP.globalHistoryMask q = 2 ^ p_globalCtrBits ps - 1.
Proof.
  intros HF. unfold is_u32 in HF. repeat apply Forall_cons_1 in HF as [? HF].
  unfold BPredUnit_new. obind [b|]. obind [p|] E. intros [= <-]. cbn [bp]. intros ->. revert E.
  unfold select_predictor. case_decide; [by obind [q'|]|]. case_decide; [|done]. obind [q'|] E. intros [= <-].
  revert E. unfold TournamentBP.TournamentBP_new.
  obind [n1|]. obind [locals|]. obind [pow|]. obind [m|]. obind [lm|]. obind [g|]. obind [globals|].
  obind [gm|] Eg. apply shl1_inv in Eg as [_ ->]; [|lia].
  cbn [mbind option_bind]. obind [choices|]. obind [th|]. by intros [= <-].
Qed.

Lemma reach_tournament ps threads u q : params_ok ps → reach ps threads u → bp u = Tournament q →
  TournamentBP.globalCtrBits q = p_globalHistoryBits ps ∧
  ∃ kl kh kg, TournamentBP.wf_at kl kh kg (p_globalCtrBits ps) q.
Proof.
  intros Hok Hreach Hq. destruct (reach_inv ps threads u Hok Hreach) as [Hw _].
  destruct (reach_config ps threads u Hok Hreach) as (found & u0 & E0 & Hc).
  rewrite Hq in Hc. destruct (bp u0) as [q0|q0] eqn:Hq0; [done|].
  assert (Forall is_u32 [p_globalCtrBits ps; p_globalHistoryBits ps]) as HF.
  { destruct Hok as [HF _ _ _]. unfold is_u32 in *. repeat apply Forall_cons_1 in HF as [? HF].
    rewrite !Forall_cons, Forall_nil. done. }
  destruct (unit_tournament_config found ps threads u0 q0 HF E0 Hq0) as [Hg Hm].
  cbn in Hc. injection Hc as _ _ _ _ _ Hcg Hcm _ _ _. split; [congruence|].
  pose proof (wf_bp _ _ Hw) as Hwq. rewrite Hq in Hwq. destruct Hwq as (kl & kh & kg & b & Hwq).
  exists kl, kh, kg. destruct (TournamentBP.wf_gsize _ _ _ _ _ Hwq) as [_ Hmb].
  destruct (TournamentBP.wf_k _ _ _ _ _ Hwq) as (_ & _ & _ & Hb).
  apply Forall_cons_1 in HF as [Hu _]. unfold is_u32 in Hu.
  assert (b = p_globalCtrBits ps) as <-; [|done]. apply (Z.pow_inj_r 2); [lia..|].
  rewrite Hcm, Hm in Hmb. lia.
Qed.

(** The parameters of the tournament predictor are exchanged: its
    constructor takes the bits of the global counters before those of the
    global history, the branch unit passes them the other way round.  So in
    every reachable state the global history has only [globalCtrBits] bits,
    which leaves all but [2 ^ globalCtrBits] entries of the global and choice
    tables unused, and the global counters saturate at [2 ^ globalHistoryBits - 1]
    cut to 8 bits. *)
Theorem tournament_parameters_swapped ps threads u q :
  params_ok ps → reach ps threads u → bp u = Tournament q →
  TournamentBP.globalHistoryMask q = 2 ^ p_globalCtrBits ps - 1 ∧
  0 <= TournamentBP.globalHistory q < 2 ^ p_globalCtrBits ps ∧
  Forall (λ c, SatCounter.maxVal c = u8 (2 ^ p_globalHistoryBits ps - 1)) (TournamentBP.globalCtrs q).
Proof.
  intros Hok Hreach Hq. destruct (reach_tournament ps threads u q Hok Hreach Hq) as (Hg & kl & kh & kg & Hw).
  split; [apply Hw|]. split; [apply Hw|].
  eapply Forall_impl; [apply (TournamentBP.wf_globals _ _ _ _ _ Hw)|].
  intros c Hcok. by rewrite (SatCounter.ok_max _ _ Hcok), Hg.
Qed.

(** A correct prediction is trained as a wrong one: when the direction
    predictor says taken but the branch target buffer has no target, the unit
    predicts not taken; if that was right, so that the branch commits without a
    correction, the predictor is nevertheless trained as taken. *)
Theorem btb_miss_trains_taken ps threads u inst pc tid p h :
  params_ok ps → reach ps threads u →
  isUncondCtrl inst = false → isReturn inst = false → predHist u !! tid = Some [] →
  BPLookup (bp u) pc = Some (true, h, p) → BTB.valid (BTB_ u) pc (Z.of_nat tid) = Some false →
  ∃ u' u'' p'', predict u inst pc tid = Some (false, pc, u') ∧
    update u' (inst_seqNum inst) tid = Some u'' ∧ predHist u'' !! tid = Some [] ∧
    bp u'' = p'' ∧ BPUpdate p pc true h = Some p''.
Proof.
  intros Hok Hreach Hc Hnr Hh El Ev. destruct (reach_inv ps threads u Hok Hreach) as [Hw _].
  destruct (thread_state _ u tid Hw) as (hist & r & Hh' & Hr & Hrw & Hrn & _); [by eapply lookup_lt_Some|].
  destruct (bp_lookup_ok (bp u) pc (wf_bp _ _ Hw)) as (b1 & h1 & p1 & El1 & Hk & Hhist & _).
  cbn in El1. rewrite El in El1. injection El1 as <- <- <-.
  destruct (bp_update_ok p pc true h (proj1 Hk) Hhist) as (p'' & Eu & _). cbn in Eu.
  unfold BPredUnit.predict, predict_direction, predict_target. rewrite Hh, Hr, Hc, El, Hnr. cbn [mbind option_bind].
  assert (∃ r' rec, (if isCall inst
      then r' ← RAS.push r (ras_pc mach_inst_size delay_slot pc);
           Some (r', record_call (PredictorHistory_new (inst_seqNum inst) pc true h (Z.of_nat tid)))
      else Some (r, PredictorHistory_new (inst_seqNum inst) pc true h (Z.of_nat tid))) = Some (r', rec) ∧
      seqNum rec = inst_seqNum inst ∧ PC rec = pc ∧ predTaken rec = true ∧ bpHistory rec = h)
    as (r' & rec & -> & Hseq & Hpc & Htk & Hbh).
  { destruct (isCall inst); [|by eexists _, _].
    destruct (RAS.push_wf r (ras_pc mach_inst_size delay_slot pc) Hrw) as (r' & -> & _). by eexists _, _. }
  cbn [mbind option_bind]. rewrite Ev. cbn [mbind option_bind].
  eexists _, _, p''. split; [done|]. unfold update. cbn [predHist RAS_ BTB_ bp stats].
  rewrite list_lookup_insert_eq by (by eapply lookup_lt_Some). cbn [mbind option_bind rev app update_loop].
  rewrite Hseq, Z.leb_refl, Hpc, Htk, Hbh, Eu. cbn [mbind option_bind update_loop rev].
  split; [done|]. cbn [predHist bp]. split; [|done].
  rewrite list_insert_insert_eq. apply list_lookup_insert_eq. by eapply lookup_lt_Some.
Qed.

Lemma masked_odd x m : 1 <= m → Z.odd (Z.land x (2 ^ m - 1)) = Z.odd x.
Proof.
  intros Hm. rewrite <- !Z.bit0_odd, Z.land_spec.
  replace (2 ^ m - 1) with (Z.ones m) by (rewrite Z.ones_equiv; lia).
  rewrite Z.ones_spec_low by lia. apply andb_true_r.
Qed.

(** The bit that a prediction shifts into the global history. *)
Lemma shifted_bit kl kh kg b q (taken : bool) :
  TournamentBP.wf_at kl kh kg b q → 1 <= b →
  Z.odd (TournamentBP.globalHistory
    (if taken then TournamentBP.updateGlobalHistTaken q else TournamentBP.updateGlobalHistNotTaken q)) = taken.
Proof.
  intros Hw Hb. destruct (TournamentBP.wf_gsize _ _ _ _ _ Hw) as [_ Hm].
  assert (Z.odd (u32 (Z.shiftl (TournamentBP.globalHistory q) 1)) = false) as Hs.
  { unfold u32, wrapU. rewrite Z.shiftl_mul_pow2 by lia. rewrite <- Z.bit0_odd, Z.mod_pow2_bits_low by lia.
    rewrite Z.bit0_odd, Z.odd_mul. by rewrite andb_false_r. }
  destruct taken; cbn [TournamentBP.globalHistory TournamentBP.updateGlobalHistTaken
    TournamentBP.updateGlobalHistNotTaken TournamentBP.set_globalHistory]; rewrite Hm, masked_odd by done.
  - rewrite <- Z.bit0_odd, Z.lor_spec, !Z.bit0_odd. by rewrite orb_true_r.
  - done.
Qed.

(** The global history keeps the direction that was mispredicted: when a
    conditional branch is corrected, its own prediction is not squashed and the
    update does not touch the global history, so its youngest bit still is the
    predicted direction and not the actual one. *)
Theorem mispredict_keeps_wrong_history ps threads u q inst pc tid target hist :
  params_ok ps → 1 <= p_globalCtrBits ps → reach ps threads u → bp u = Tournament q →
  isUncondCtrl inst = false →
  predHist u !! tid = Some hist → Forall (λ h, seqNum h < inst_seqNum inst) hist →
  ∃ tk g rec u1 u2 q2, predict u inst pc tid = Some (tk, g, u1) ∧ predHist u1 !! tid = Some (rec :: hist) ∧
    squash_mispredict u1 (inst_seqNum inst) target (negb (predTaken rec)) tid = Some u2 ∧
    bp u2 = Tournament q2 ∧ predHist u2 !! tid = Some hist ∧
    Z.odd (TournamentBP.globalHistory q2) = predTaken rec.
Proof.
  intros Hok Hbits Hreach Hq Hcond Hh Hold.
  destruct (reach_inv ps threads u Hok Hreach) as [Hw Hord].
  destruct (thread_state _ u tid Hw) as (hist0 & r & Hh0 & Hr & _); [by eapply lookup_lt_Some|].
  destruct (predict_ok mach_inst_size delay_slot _ u inst pc tid hist r Hw Hh Hr)
    as (tk & g & rec & r1 & p1 & s1 & Ep & Hw1 & _ & Hseq & _ & _ & _ & _ & Hpc & s0 & Ed).
  pose proof (list_lookup_insert_eq _ _ (rec :: hist) (lookup_lt_Some _ _ _ Hh)) as Hh1.
  pose proof (list_lookup_insert_eq _ _ r1 (lookup_lt_Some _ _ _ Hr)) as Hr1.
  destruct (reach_tournament ps threads u q Hok Hreach Hq) as (_ & kl & kh & kg & Hwq).
  unfold predict_direction in Ed. rewrite Hcond, Hq, BPLookup_tournament in Ed.
  destruct (TournamentBP.tournament_lookup_Some q _ _ _ _ Hwq pc) as (taken & rh & El & _). rewrite El in Ed.
  cbn [mbind option_bind] in Ed. injection Ed as Etk Ebh <- _.
  set (q1 := if taken then _ else _) in *.
  assert (TournamentBP.wf_at kl kh kg (p_globalCtrBits ps) q1) as Hwq1.
  { destruct taken; eapply TournamentBP.set_globalHistory_wf, TournamentBP.history_masked; done. }
  destruct (TournamentBP.tournament_update_Some q1 _ _ _ _ Hwq1 pc (negb taken) (Some rh)) as (q2 & Eu & _ & Hgh & _).
  destruct (wf_btb _ _ Hw) as [k Hbw].
  destruct (BTB.btb_update_Some (BTB_ u) k Hbw pc target (Z.of_nat tid)) as [Eb _].
  eexists tk, g, rec, _, _, q2. split; [done|]. split; [done|].
  unfold squash_mispredict, squash. cbn [predHist RAS_ BTB_ bp stats]. rewrite Hh1, Hr1. cbn [mbind option_bind].
  rewrite squash_loop_older.
  2:{ constructor; [lia|]. eapply Forall_impl; [done|]. cbn. lia. }
  cbn [mbind option_bind predHist RAS_ BTB_ bp stats]. rewrite !list_insert_insert_eq, Hh1. cbn [mbind option_bind].
  unfold check. rewrite Hseq, Z.eqb_refl. cbn [mbind option_bind].
  rewrite Hpc, <- Etk, <- Ebh, BPUpdate_tournament, Eu. cbn [mbind option_bind]. rewrite Eb. cbn [mbind option_bind].
  split; [done|]. cbn [bp predHist]. split; [done|]. split.
  - rewrite list_insert_insert_eq. apply list_lookup_insert_eq. by eapply lookup_lt_Some.
  - rewrite Hgh. by apply (shifted_bit kl kh kg (p_globalCtrBits ps)).
Qed.

(** ** Checked runs *)

Definition legalb (u : t) (o : op) : bool :=
  match o with
  | Predict inst _ tid =>
      match predHist u !! tid with Some hist => forallb (λ h, seqNum h <? inst_seqNum inst) hist | None => false end
  | Commit _ tid | Squash _ tid => bool_decide (tid < length (predHist u))%nat
  | Mispredict sn _ _ tid =>
      match predHist u !! tid with
      | Some hist => existsb (λ h, seqNum h =? sn) hist || forallb (λ h, sn <? seqNum h) hist
      | None => false
      end
  | SwitchOut => true
  end.

Lemma legalb_legal u o : legalb u o = true → legal u o.
Proof.
  destruct o as [inst pc tid|sn tid|sn tid|sn target taken tid|]; cbn [legalb legal].
  - destruct (predHist u !! tid) as [hist|]; [|done]. intros H. exists hist. split; [done|].
    apply Forall_forall. intros h Hh. rewrite forallb_forall in H.
    apply Z.ltb_lt, H. by apply list_elem_of_In.
  - apply bool_decide_eq_true_1.
  - apply bool_decide_eq_true_1.
  - destruct (predHist u !! tid) as [hist|]; [|done]. intros H. exists hist. split; [done|].
    apply orb_true_iff in H as [H|H].
    + left. apply existsb_exists in H as (h & Hh & E). exists h. split; [by apply list_elem_of_In|lia].
    + right. apply Forall_forall. intros h Hh. rewrite forallb_forall in H.
      apply Z.ltb_lt, H. by apply list_elem_of_In.
  - done.
Qed.

Fixpoint run_checked (u : t) (l : list op) : option t :=
  match l with
  | [] => Some u
  | o :: l => if legalb u o then u' ← step u o; run_checked u' l else None
  end.

Definition run_new (found : Z) (ps : Params) (threads : nat) (l : list op) : option t :=
  u ← BPredUnit_new found ps threads; run_checked u l.

Lemma run_reach found ps threads l u : run_new found ps threads l = Some u → reach ps threads u.
Proof.
  unfold run_new. obind [u0|] E. apply reach_new in E. revert u0 E.
  induction l as [|o l IH]; intros u0 Hr E; [by injection E as <-|].
  cbn [run_checked] in E. destruct (legalb u0 o) eqn:Hl; [|done]. apply legalb_legal in Hl.
  destruct (step u0 o) as [u1|] eqn:E1; [|done]. apply (IH u1); [|done]. by eapply reach_step.
Qed.

(** A run whose last state passes a test. *)
Lemma run_new_test (P : t → bool) found ps threads l :
  match run_new found ps threads l with Some u => P u | None => false end = true →
  ∃ u, reach ps threads u ∧ P u = true.
Proof.
  destruct (run_new found ps threads l) as [u|] eqn:E; [|done]. exists u. split; [by eapply run_reach|done].
Qed.

End Runs.

(** ** Examples *)

(** A small tournament predictor with two threads. *)
Definition small_params : Params := mkParams "tournament" 8 2 8 3 8 3 2 8 2 16 16 4 2.

Definition cond_at (sn : Z) : DynInst := mkDynInst false false false sn.
Definition call_at (sn : Z) : DynInst := mkDynInst true false true sn.
Definition return_at (sn : Z) : DynInst := mkDynInst true true false sn.

(** A call, a conditional branch that is corrected and a committed return. *)
Definition sample_ops : list op :=
  [Predict (call_at 1) 0x100 0; Mispredict 1 0x200 true 0; Predict (cond_at 2) 0x204 0; Predict (cond_at 3) 0x208 0;
   Mispredict 2 0x240 true 0; Predict (return_at 5) 0x244 0; Predict (call_at 6) 0x400 1; Commit 5 0].

Ltac params_ok_tac :=
  split; [repeat (apply Forall_cons; split; [done|]); by apply Forall_nil|done|done|done].

Lemma small_params_ok : params_ok small_params.
Proof. params_ok_tac. Qed.

Lemma bpred_never_fails_witness :
  ∃ u, reach 4 false small_params 2 u ∧ ∃ u', step 4 false u (Predict (cond_at 7) 0x204 0) = Some u'.
Proof.
  destruct (run_new_test 4 false (λ u, legalb u (Predict (cond_at 7) 0x204 0)) 3 small_params 2 sample_ops)
    as (u & Hr & Hl); [vm_compute; reflexivity|].
  exists u. split; [done|].
  by apply (bpred_never_fails 4 false small_params 2 u small_params_ok Hr), legalb_legal.
Defined.

(** The state of the first thread, for the tests below. *)
Definition thread0_is (f : list PredictorHistory → RAS.t → bool) (u : t) : bool :=
  match predHist u !! 0%nat, RAS_ u !! 0%nat with Some hist, Some r => f hist r | _, _ => false end.

Definition spec_path : list (DynInst * Z) :=
  [(return_at 11, 0x500); (call_at 12, 0x600); (cond_at 13, 0x700); (call_at 14, 0x800)].

Lemma speculation_undone_witness :
  ∃ u u' u'', predict_run 4 false u spec_path 0 = Some u' ∧ squash u' 10 0 = Some u'' ∧ bp u'' = bp u.
Proof.
  destruct (run_new_test 4 false (thread0_is (λ hist _, forallb (λ h, seqNum h <=? 10) hist)) 3 small_params 2
      (sample_ops ++ [Predict (cond_at 9) 0x30c 0])) as (u & Hr & Hp); [vm_compute; reflexivity|].
  unfold thread0_is in Hp. destruct (predHist u !! 0%nat) as [hist|] eqn:Hh; [|done].
  destruct (RAS_ u !! 0%nat) as [r|] eqn:Hras; [|done].
  destruct (speculation_undone 4 false small_params 2 u 0 spec_path 10 hist r)
    as (recs & u' & u'' & r'' & E1 & _ & _ & E2 & Hbp & _); try done.
  - apply small_params_ok.
  - apply Forall_forall. intros h Hin. rewrite forallb_forall in Hp. apply Z.leb_le, Hp. by apply list_elem_of_In.
  - repeat (apply Forall_cons; split; [done|]). by apply Forall_nil.
  - by exists u, u', u''.
Defined.

(** The defaults of the processor: a global history of 2 bits out of 13, and
    8-bit counters in place of 2-bit ones. *)
Lemma tournament_parameters_swapped_witness :
  ∃ u q, reach 4 false O3CPU_params 1 u ∧ bp u = Tournament q ∧
    TournamentBP.globalHistoryMask q = 3 ∧ Forall (λ c, SatCounter.maxVal c = 255) (TournamentBP.globalCtrs q).
Proof.
  destruct (run_new_test 4 false (λ u, match bp u with Tournament _ => true | Local _ => false end) 3 O3CPU_params 1
      [Predict (cond_at 1) 0x100 0]) as (u & Hr & Hp); [vm_compute; reflexivity|].
  destruct (bp u) as [|q] eqn:Hq; [done|]. exists u, q. split; [done|]. split; [done|].
  destruct (tournament_parameters_swapped 4 false O3CPU_params 1 u q) as (Hm & _ & Hf); try done.
  params_ok_tac.
Defined.

(** A branch that the counters have learnt is taken, and no target for it. *)
Lemma btb_miss_trains_taken_witness :
  ∃ u p h u' u'' p'', BPLookup (bp u) 0x20c = Some (true, h, p) ∧
    predict 4 false u (cond_at 20) 0x20c 0 = Some (false, 0x20c, u') ∧
    update u' 20 0 = Some u'' ∧ bp u'' = p'' ∧ BPUpdate p 0x20c true h = Some p''.
Proof.
  set (ps := mkParams "local" 8 2 8 3 8 3 2 8 2 16 16 4 2).
  destruct (run_new_test 4 false (λ u, thread0_is (λ hist _, bool_decide (length hist = 0%nat)) u &&
      match BPLookup (bp u) 0x20c, BTB.valid (BTB_ u) 0x20c 0 with Some (true, _, _), Some false => true | _, _ => false end)
      3 ps 1 [Predict (cond_at 1) 0x100c 0; Mispredict 1 0x240 true 0; Predict (cond_at 2) 0x100c 0; Mispredict 2 0x240 true 0])
    as (u & Hr & Hp); [vm_compute; reflexivity|].
  apply andb_true_iff in Hp as [Hh Hp]. unfold thread0_is in Hh.
  destruct (predHist u !! 0%nat) as [[|]|] eqn:Hhist; [|by destruct (RAS_ u !! 0%nat)|done].
  destruct (BPLookup (bp u) 0x20c) as [[[[] h] p]|] eqn:El; [|done..].
  destruct (BTB.valid (BTB_ u) 0x20c 0) as [[]|] eqn:Ev; [done| |done].
  destruct (btb_miss_trains_taken 4 false ps 1 u (cond_at 20) 0x20c 0 p h) as (u' & u'' & p'' & Ep & Eu & _ & Hb & Hu);
    try done; [params_ok_tac|].
  by exists u, p, h, u', u'', p''.
Defined.

Lemma mispredict_keeps_wrong_history_witness :
  ∃ u1 u2 q2 rec hist, predHist u1 !! 0%nat = Some (rec :: hist) ∧
    squash_mispredict u1 30 0x900 (negb (predTaken rec)) 0 = Some u2 ∧
    bp u2 = Tournament q2 ∧ Z.odd (TournamentBP.globalHistory q2) = predTaken rec.
Proof.
  destruct (run_new_test 4 false (λ u, thread0_is (λ hist _, forallb (λ h, seqNum h <? 30) hist) u &&
      match bp u with Tournament _ => true | Local _ => false end) 3 small_params 2 sample_ops)
    as (u & Hr & Hp); [vm_compute; reflexivity|].
  apply andb_true_iff in Hp as [Hh Hp]. unfold thread0_is in Hh.
  destruct (predHist u !! 0%nat) as [hist|] eqn:Hhist; [|done].
  destruct (RAS_ u !! 0%nat); [|done]. destruct (bp u) as [|q] eqn:Hq; [done|].
  destruct (mispredict_keeps_wrong_history 4 false small_params 2 u q (cond_at 30) 0x204 0 0x900 hist)
    as (tk & g & rec & u1 & u2 & q2 & _ & H1 & H2 & H3 & _ & H4); try done.
  - apply small_params_ok.
  - apply Forall_forall. intros h Hin. rewrite forallb_forall in Hh. apply Z.ltb_lt, Hh. by apply list_elem_of_In.
  - by exists u1, u2, q2, rec, hist.
Defined.
