(* ===== verification/StoreSet.v ===== *)
(** The store set predictor of the out-of-order processor,
    [src/m5/src/cpu/o3/store_set.hh] and [store_set.cc]: which store a memory
    instruction is expected to depend on.  A failed assertion and an access
    outside of a table are [None], and so is a loop that does not end. *)

From S2P Require Import Prelude IntMath.

Record StoreSet := mkStoreSet {
  SSIT : list Z;
  validSSIT : list bool;
  LFST : list Z;
  validLFST : list bool;
  storeList : list (Z * Z);
  SSITSize : Z;
  LFSTSize : Z;
  indexMask : Z;
  offsetBits : Z
}.

Definition set_ssit (s : StoreSet) (t : list Z) (v : list bool) : StoreSet :=
  mkStoreSet t v (LFST s) (validLFST s) (storeList s) (SSITSize s) (LFSTSize s) (indexMask s) (offsetBits s).
Definition set_lfst (s : StoreSet) (t : list Z) (v : list bool) : StoreSet :=
  mkStoreSet (SSIT s) (validSSIT s) t v (storeList s) (SSITSize s) (LFSTSize s) (indexMask s) (offsetBits s).
Definition set_list (s : StoreSet) (l : list (Z * Z)) : StoreSet :=
  mkStoreSet (SSIT s) (validSSIT s) (LFST s) (validLFST s) l (SSITSize s) (LFSTSize s) (indexMask s) (offsetBits s).

(** [std::vector::resize] keeps what is there. *)
Definition resize {A} (l : list A) (n : Z) (x : A) : list A :=
  take (Z.to_nat n) l ++ replicate (Z.to_nat n - length l) x.

(** [init], on what an object that was just made, or used before, holds. *)
Definition init (s : StoreSet) (ssit_size lfst_size : Z) : StoreSet :=
  mkStoreSet (resize (SSIT s) ssit_size 0) (replicate (Z.to_nat ssit_size) false)
    (replicate (Z.to_nat lfst_size) 0) (replicate (Z.to_nat lfst_size) false) (storeList s)
    ssit_size lfst_size (ssit_size - 1) 2.

Definition empty_set : StoreSet := mkStoreSet [] [] [] [] [] 0 0 0 0.

Definition StoreSet_new (ssit_size lfst_size : Z) : option StoreSet :=
  if isPowerOf2 32 ssit_size && isPowerOf2 32 lfst_size then Some (init empty_set ssit_size lfst_size) else None.

Definition calcIndex (s : StoreSet) (PC : Z) : Z := Z.land (Z.shiftr PC (offsetBits s)) (indexMask s).
Definition calcSSID (s : StoreSet) (PC : Z) : Z := Z.lxor PC (Z.shiftr PC 10) mod LFSTSize s.

(** Reading a table at an [int] index. *)
Definition at_ {A} (l : list A) (i : Z) : option A := if i <? 0 then None else l !! Z.to_nat i.

(** [assert(new_set < LFSTSize)] and its like *)
Definition in_lfst (s : StoreSet) (id : Z) : bool := (0 <=? id) && (id <? LFSTSize s).
Definition in_ssit (s : StoreSet) (i : Z) : bool := i <? SSITSize s.

Definition put_ssit (s : StoreSet) (i id : Z) : StoreSet :=
  set_ssit s (<[Z.to_nat i := id]> (SSIT s)) (<[Z.to_nat i := true]> (validSSIT s)).

Definition violation (s : StoreSet) (store_PC load_PC : Z) : option StoreSet :=
  let load_index := calcIndex s load_PC in
  let store_index := calcIndex s store_PC in
  if in_ssit s load_index && in_ssit s store_index then
    vl ← at_ (validSSIT s) load_index;
    vs ← at_ (validSSIT s) store_index;
    match vl, vs with
    | false, false =>
        let new_set := calcSSID s load_PC in
        if in_lfst s new_set then Some (put_ssit (put_ssit s load_index new_set) store_index new_set) else None
    | true, false =>
        load_SSID ← at_ (SSIT s) load_index;
        if in_lfst s load_SSID then Some (put_ssit s store_index load_SSID) else None
    | false, true =>
        store_SSID ← at_ (SSIT s) store_index;
        Some (put_ssit s load_index store_SSID)
    | true, true =>
        load_SSID ← at_ (SSIT s) load_index;
        store_SSID ← at_ (SSIT s) store_index;
        if in_lfst s load_SSID && in_lfst s store_SSID then
          if load_SSID <? store_SSID then Some (set_ssit s (<[Z.to_nat store_index := load_SSID]> (SSIT s)) (validSSIT s))
          else Some (set_ssit s (<[Z.to_nat load_index := store_SSID]> (SSIT s)) (validSSIT s))
        else None
    end
  else None.

Definition insertLoad (s : StoreSet) (load_PC load_seq_num : Z) : StoreSet := s.

(** [storeList] is ordered from the youngest to the oldest. *)
Fixpoint list_put (l : list (Z * Z)) (q id : Z) : list (Z * Z) :=
  match l with
  | [] => [(q, id)]
  | (q', id') :: l => if q' <? q then (q, id) :: (q', id') :: l
                      else if q' =? q then (q, id) :: l
                      else (q', id') :: list_put l q id
  end.

Definition insertStore (s : StoreSet) (store_PC q : Z) : option StoreSet :=
  let index := calcIndex s store_PC in
  if in_ssit s index then
    v ← at_ (validSSIT s) index;
    if (v : bool) then
      id ← at_ (SSIT s) index;
      if in_lfst s id then
        Some (set_list (set_lfst s (<[Z.to_nat id := q]> (LFST s)) (<[Z.to_nat id := true]> (validLFST s)))
                (list_put (storeList s) q id))
      else None
    else Some s
  else None.

Definition checkInst (s : StoreSet) (PC : Z) : option Z :=
  let index := calcIndex s PC in
  if in_ssit s index then
    v ← at_ (validSSIT s) index;
    if (v : bool) then
      id ← at_ (SSIT s) index;
      if in_lfst s id then
        w ← at_ (validLFST s) id;
        if (w : bool) then at_ (LFST s) id else Some 0
      else None
    else Some 0
  else None.

Definition issued (s : StoreSet) (issued_PC q : Z) (is_store : bool) : option StoreSet :=
  if is_store then
    let index := calcIndex s issued_PC in
    if in_ssit s index then
      let s := set_list s (filter (λ x, x.1 ≠ q) (storeList s)) in
      v ← at_ (validSSIT s) index;
      if (v : bool) then
        id ← at_ (SSIT s) index;
        if in_lfst s id then
          w ← at_ (validLFST s) id;
          x ← at_ (LFST s) id;
          if w && (x =? q) then Some (set_lfst s (LFST s) (<[Z.to_nat id := false]> (validLFST s))) else Some s
        else None
      else Some s
    else None
  else Some s.

(** The first element is looked at again unless it is erased. *)
Fixpoint squash_loop (fuel : nat) (s : StoreSet) (n : Z) : option StoreSet :=
  match storeList s with
  | [] => Some s
  | (q, idx) :: l =>
      match fuel with
      | O => None
      | S fuel =>
          if q <=? n then Some s
          else
            x ← at_ (LFST s) idx;
            w ← at_ (validLFST s) idx;
            if n <? x then
              squash_loop fuel (set_list (if (w : bool) then set_lfst s (LFST s) (<[Z.to_nat idx := false]> (validLFST s)) else s) l) n
            else squash_loop fuel s n
      end
  end.

(** A turn that erases shortens the list; one that does not is repeated for
    ever, so more turns than elements make no difference. *)
Definition squash (s : StoreSet) (n : Z) : option StoreSet := squash_loop (length (storeList s)) s n.

Definition clear (s : StoreSet) : StoreSet :=
  mkStoreSet (SSIT s) (replicate (Z.to_nat (SSITSize s)) false) (LFST s) (replicate (Z.to_nat (LFSTSize s)) false) []
    (SSITSize s) (LFSTSize s) (indexMask s) (offsetBits s).

(** ** Runs *)

Inductive set_op :=
  | OpViolation (store_PC load_PC : Z)
  | OpInsert (store_PC q : Z)
  | OpIssued (PC q : Z) (is_store : bool)
  | OpSquash (n : Z)
  | OpClear.

(** The state and the youngest store that was inserted. *)
Definition set_step (st : StoreSet * Z) (o : set_op) : option (StoreSet * Z) :=
  let '(s, last) := st in
  match o with
  | OpViolation a b => s ← violation s a b; Some (s, last)
  | OpInsert a q => s ← insertStore s a q; Some (s, q)
  | OpIssued a q b => s ← issued s a q b; Some (s, last)
  | OpSquash n => s ← squash s n; Some (s, last)
  | OpClear => Some (clear s, last)
  end.

(** Stores are inserted in the order of their sequence numbers. *)
Fixpoint in_order (last : Z) (ops : list set_op) : bool :=
  match ops with
  | [] => true
  | OpInsert _ q :: ops => (last <? q) && in_order q ops
  | _ :: ops => in_order last ops
  end.

Definition set_run (st : StoreSet * Z) (ops : list set_op) : option (StoreSet * Z) :=
  foldl (λ o x, st ← o; set_step st x) (Some st) ops.

(** ** The invariant *)

Record sinv (s : StoreSet) (last : Z) : Prop := {
  si_size : ∃ k, 0 <= k < 31 ∧ SSITSize s = 2 ^ k;
  si_lfst : 0 < LFSTSize s;
  si_mask : indexMask s = SSITSize s - 1;
  si_len1 : Z.of_nat (length (SSIT s)) = SSITSize s;
  si_len2 : Z.of_nat (length (validSSIT s)) = SSITSize s;
  si_len3 : Z.of_nat (length (LFST s)) = LFSTSize s;
  si_len4 : Z.of_nat (length (validLFST s)) = LFSTSize s;
  si_ids : ∀ i id, validSSIT s !! i = Some true → SSIT s !! i = Some id → 0 <= id < LFSTSize s;
  si_list : ∀ q id, (q, id) ∈ storeList s → q <= last ∧ 0 <= id ∧ ∃ x, LFST s !! Z.to_nat id = Some x ∧ q <= x;
  si_sorted : StronglySorted (λ x y, y.1 < x.1) (storeList s)
}.

Section Steps.
Context (s : StoreSet) (last : Z) (Hs : sinv s last).

Lemma index_range PC : 0 <= calcIndex s PC < SSITSize s.
Proof.
  destruct (si_size _ _ Hs) as (k & Hk & E). unfold calcIndex. rewrite (si_mask _ _ Hs), E.
  rewrite land_ones_mod by lia. apply Z.mod_pos_bound. lia.
Qed.

Lemma in_ssit_index PC : in_ssit s (calcIndex s PC) = true.
Proof. apply Z.ltb_lt. apply index_range. Qed.

Lemma at_lookup {A} (l : list A) i : 0 <= i → at_ l i = l !! Z.to_nat i.
Proof. intros Hi. unfold at_. by rewrite (proj2 (Z.ltb_ge i 0)). Qed.

Lemma at_table {A} (l : list A) n i : Z.of_nat (length l) = n → 0 <= i < n → ∃ x, at_ l i = Some x ∧ l !! Z.to_nat i = Some x.
Proof.
  intros Hl Hi. rewrite at_lookup by lia. destruct (lookup_lt_is_Some_2 l (Z.to_nat i)) as [x Hx]; [lia|]. by exists x.
Qed.

(** The set of an instruction, if it has one. *)
Lemma index_entries PC : ∃ v id, at_ (validSSIT s) (calcIndex s PC) = Some v ∧ at_ (SSIT s) (calcIndex s PC) = Some id ∧
  (v = true → 0 <= id < LFSTSize s).
Proof.
  pose proof (index_range PC) as Hi.
  destruct (at_table (validSSIT s) _ _ (si_len2 _ _ Hs) Hi) as (v & Ev & Ev').
  destruct (at_table (SSIT s) _ _ (si_len1 _ _ Hs) Hi) as (id & Ei & Ei').
  exists v, id. split_and!; [done|done|]. intros ->. by eapply (si_ids _ _ Hs).
Qed.

Lemma in_lfst_true id : 0 <= id < LFSTSize s → in_lfst s id = true.
Proof. intros Hi. unfold in_lfst. rewrite (proj2 (Z.leb_le _ _)), (proj2 (Z.ltb_lt _ _)) by lia. done. Qed.

Lemma set_ssit_inv i id v : 0 <= i → 0 <= id < LFSTSize s → (v = true ∨ v = false ∧ validSSIT s !! Z.to_nat i = Some true) →
  sinv (set_ssit s (<[Z.to_nat i := id]> (SSIT s)) (if (v : bool) then <[Z.to_nat i := true]> (validSSIT s) else validSSIT s)) last.
Proof.
  intros Hi Hid Hv. destruct Hs as [A B C D E F G H I J]. cbn in *.
  split; cbn; try done; rewrite ?length_insert; try done.
  - destruct v; by rewrite ?length_insert.
  - intros j x Hj Hx. apply list_lookup_insert_Some in Hx as [(_ & <- & _)|[Hne Hx]]; [done|].
    eapply H; [|exact Hx]. destruct v; [|done]. by rewrite list_lookup_insert_ne in Hj.
Qed.

Lemma put_ssit_inv i id : 0 <= i → 0 <= id < LFSTSize s → sinv (put_ssit s i id) last.
Proof. intros Hi Hid. apply (set_ssit_inv i id true); auto. Qed.

(** After a violation both instructions are in one set. *)
Definition same_set (s' : StoreSet) (a b : Z) : Prop :=
  ∃ id, 0 <= id < LFSTSize s' ∧ at_ (validSSIT s') (calcIndex s' a) = Some true ∧ at_ (SSIT s') (calcIndex s' a) = Some id ∧
    at_ (validSSIT s') (calcIndex s' b) = Some true ∧ at_ (SSIT s') (calcIndex s' b) = Some id.

Lemma lookup_put {A} (l : list A) n i j x : Z.of_nat (length l) = n → 0 <= i < n → 0 <= j →
  at_ (<[Z.to_nat i := x]> l) j = if decide (i = j) then Some x else at_ l j.
Proof.
  intros Hl Hi Hj. rewrite !at_lookup by done. destruct (decide (i = j)) as [->|Hne].
  - apply list_lookup_insert_eq. lia.
  - apply list_lookup_insert_ne. lia.
Qed.

End Steps.

Lemma list_put_young l q id : (∀ x, x ∈ l → x.1 < q) → list_put l q id = (q, id) :: l.
Proof.
  destruct l as [|[q' id'] l]; [done|]. intros Hl. cbn. pose proof (Hl (q', id') ltac:(left)) as H. cbn in H.
  by rewrite (proj2 (Z.ltb_lt _ _)).
Qed.

Lemma sorted_filter {A} (R : A → A → Prop) (P : A → Prop) `{∀ x, Decision (P x)} l :
  StronglySorted R l → StronglySorted R (filter P l).
Proof.
  induction 1 as [|x l Hl IH Hx]; [constructor|]. rewrite filter_cons. destruct (decide (P x)); [|done].
  constructor; [done|]. rewrite Forall_forall in *. intros y [_ Hy]%list_elem_of_filter. by apply Hx.
Qed.

Lemma filter_all {A} (P : A → Prop) `{∀ x, Decision (P x)} l : Forall P l → filter P l = l.
Proof. induction 1 as [|x l Hx _ IH]; [done|]. by rewrite filter_cons, decide_True, IH. Qed.

Ltac put_solve := split_and!; try done; try lia; repeat case_decide; congruence.

Section Operations.
Context (s : StoreSet) (last : Z) (Hs : sinv s last).

Lemma violation_ok a b : ∃ s', violation s a b = Some s' ∧ sinv s' last ∧ same_set s' a b.
Proof.
  pose proof (index_range s last Hs a) as Ha. pose proof (index_range s last Hs b) as Hb.
  destruct (index_entries s last Hs a) as (va & ia & Eva & Eia & Hia).
  destruct (index_entries s last Hs b) as (vb & ib & Evb & Eib & Hib).
  pose proof (si_len1 _ _ Hs) as L1. pose proof (si_len2 _ _ Hs) as L2. pose proof (si_lfst _ _ Hs) as Hl.
  unfold violation. rewrite !(in_ssit_index s last Hs), Eva, Evb. cbn [andb mbind option_bind].
  destruct vb, va; rewrite ?Eia, ?Eib; cbn [mbind option_bind].
  - specialize (Hia eq_refl). specialize (Hib eq_refl). rewrite !in_lfst_true by done. cbn [andb].
    destruct (ib <? ia); eexists; (split; [done|split]).
    + apply (set_ssit_inv s last Hs _ _ false); [lia|done|]. right. split; [done|]. by rewrite <- at_lookup by lia.
    + exists ib. cbn [set_ssit LFSTSize validSSIT SSIT]. change (calcIndex (set_ssit s _ _)) with (calcIndex s).
      rewrite !(lookup_put _ (SSITSize s)) by (done || lia). put_solve.
    + apply (set_ssit_inv s last Hs _ _ false); [lia|done|]. right. split; [done|]. by rewrite <- at_lookup by lia.
    + exists ia. cbn [set_ssit LFSTSize validSSIT SSIT]. change (calcIndex (set_ssit s _ _)) with (calcIndex s).
      rewrite !(lookup_put _ (SSITSize s)) by (done || lia). put_solve.
  - specialize (Hib eq_refl). rewrite in_lfst_true by done. eexists. split; [done|].
    split; [apply put_ssit_inv; [done|lia|done]|]. exists ib.
    cbn [put_ssit set_ssit LFSTSize validSSIT SSIT]. change (calcIndex (put_ssit s _ _)) with (calcIndex s).
    rewrite !(lookup_put _ (SSITSize s)) by (done || lia). put_solve.
  - specialize (Hia eq_refl). eexists. split; [done|].
    split; [apply put_ssit_inv; [done|lia|done]|]. exists ia.
    cbn [put_ssit set_ssit LFSTSize validSSIT SSIT]. change (calcIndex (put_ssit s _ _)) with (calcIndex s).
    rewrite !(lookup_put _ (SSITSize s)) by (done || lia). put_solve.
  - assert (0 <= calcSSID s b < LFSTSize s) as Hid by (apply Z.mod_pos_bound; lia).
    rewrite in_lfst_true by done. eexists. split; [done|].
    assert (sinv (put_ssit s (calcIndex s b) (calcSSID s b)) last) as H1 by (apply put_ssit_inv; [done|lia|done]).
    split; [apply put_ssit_inv; [done|lia|done]|]. exists (calcSSID s b).
    cbn [put_ssit set_ssit LFSTSize validSSIT SSIT]. change (calcIndex (put_ssit (put_ssit s _ _) _ _)) with (calcIndex s).
    rewrite !(lookup_put _ (SSITSize s)) by (rewrite ?length_insert; done || lia). put_solve.
Qed.

Lemma insertStore_ok a q : last < q → ∃ s', insertStore s a q = Some s' ∧ sinv s' q ∧
  (∀ b, same_set s a b → checkInst s' b = Some q).
Proof.
  intros Hq. destruct (index_entries s last Hs a) as (v & id & Ev & Ei & Hid).
  unfold insertStore. rewrite (in_ssit_index s last Hs), Ev. cbn [mbind option_bind].
  pose proof Hs as [A B C D E F G H I J]. destruct v.
  2:{ exists s. split_and!; [done| |].
      - split; try done. intros q' id' Hin. destruct (I q' id' Hin) as (? & ? & ?). split_and!; try done. lia.
      - intros b (id' & _ & Hv & _). congruence. }
  rewrite Ei. cbn [mbind option_bind]. specialize (Hid eq_refl). rewrite in_lfst_true by done.
  eexists. split; [reflexivity|]. split.
  - assert (list_put (storeList s) q id = (q, id) :: storeList s) as El.
    { apply list_put_young. intros [q' id'] Hin. destruct (I q' id' Hin) as [? _]. cbn. lia. }
    split; cbn [set_list set_lfst SSIT validSSIT LFST validLFST storeList SSITSize LFSTSize indexMask]; rewrite ?length_insert, ?El; try done.
    + intros q' id' [[= -> ->]|Hin]%elem_of_cons.
      * split_and!; [lia|lia|]. exists q. split; [|lia]. apply list_lookup_insert_eq. lia.
      * destruct (I q' id' Hin) as (H1 & H2 & x & Hx & Hle). split_and!; [lia|done|].
        destruct (decide (id = id')) as [->|Hne].
        -- exists q. split; [apply list_lookup_insert_eq; lia|lia].
        -- exists x. split; [|done]. rewrite list_lookup_insert_ne by lia. done.
    + constructor; [done|]. apply Forall_forall. intros [q' id'] Hin. destruct (I q' id' Hin). cbn. lia.
  - intros b (id' & Hid' & _ & Ei' & Hvb & Eib). rewrite Ei in Ei'. injection Ei' as <-. unfold checkInst.
    change (calcIndex (set_list _ _) b) with (calcIndex s b). change (in_ssit (set_list _ _)) with (in_ssit s).
    rewrite (in_ssit_index s last Hs). cbn [set_list set_lfst validSSIT SSIT validLFST LFST].
    rewrite Hvb, Eib. cbn [mbind option_bind]. change (in_lfst (set_list _ _)) with (in_lfst s). rewrite in_lfst_true by done.
    rewrite !(lookup_put _ (LFSTSize s)) by (done || lia). rewrite !decide_True by done. done.
Qed.

Lemma issued_ok a q b : ∃ s', issued s a q b = Some s' ∧ sinv s' last.
Proof.
  unfold issued. destruct b; [|by exists s]. rewrite (in_ssit_index s last Hs).
  set (s1 := set_list s _). assert (sinv s1 last) as Hs1.
  { destruct Hs as [A B C D E F G H I J]. split; cbn; try done.
    - intros q' id' [_ Hin]%list_elem_of_filter. by apply I.
    - by apply sorted_filter. }
  destruct (index_entries s last Hs a) as (v & id & Ev & Ei & Hid).
  change (validSSIT s1) with (validSSIT s). change (SSIT s1) with (SSIT s). rewrite Ev. cbn [mbind option_bind].
  destruct v; [|by exists s1]. rewrite Ei. cbn [mbind option_bind]. specialize (Hid eq_refl).
  rewrite (in_lfst_true s1 id Hid).
  destruct (at_table (validLFST s1) _ id (si_len4 _ _ Hs1) Hid) as (w & -> & _).
  destruct (at_table (LFST s1) _ id (si_len3 _ _ Hs1) Hid) as (x & -> & _). cbn [mbind option_bind].
  destruct (w && _); [|by exists s1]. eexists. split; [done|].
  destruct Hs1 as [A B C D E F G H I J]. split; cbn; rewrite ?length_insert; done.
Qed.

Lemma clear_ok : sinv (clear s) last.
Proof.
  destruct Hs as [A B C D E F G H I J]. split; cbn; rewrite ?length_replicate; try done.
  - destruct A as (k & Hk & ->). lia.
  - lia.
  - intros i id Hi. apply lookup_replicate in Hi as [? _]. done.
  - intros q id Hin. set_solver.
  - constructor.
Qed.

End Operations.

Lemma set_squash_loop_ok n last fuel s : sinv s last → (length (storeList s) <= fuel)%nat →
  ∃ s', squash_loop fuel s n = Some s' ∧ sinv s' last ∧ storeList s' = filter (λ x, x.1 <= n) (storeList s) ∧
    SSIT s' = SSIT s ∧ validSSIT s' = validSSIT s.
Proof.
  revert s. induction fuel as [|fuel IH]; intros s Hs Hf; destruct (storeList s) as [|[q id] l] eqn:El; cbn [length] in Hf;
    try lia; cbn [squash_loop]; rewrite El; try (exists s; by rewrite El).
  pose proof Hs as [A B C D E F G H I J]. rewrite El in J. apply StronglySorted_inv in J as [J Hall].
  destruct (Z.leb_spec q n) as [Hle|Hgt].
  - exists s. split_and!; try done. rewrite El. symmetry. apply filter_all. apply Forall_cons. split; [done|].
    eapply Forall_impl; [exact Hall|]. cbn. lia.
  - destruct (I q id) as (Hq & Hid & x & Hx & Hqx); [rewrite El; left|]. pose proof (lookup_lt_Some _ _ _ Hx) as Hlt.
    rewrite !at_lookup, Hx by done. destruct (lookup_lt_is_Some_2 (validLFST s) (Z.to_nat id)) as [w Hw]; [lia|].
    rewrite Hw. cbn [mbind option_bind]. rewrite (proj2 (Z.ltb_lt n x)) by lia.
    set (s1 := set_list _ l). assert (sinv s1 last ∧ storeList s1 = l ∧ SSIT s1 = SSIT s ∧ validSSIT s1 = validSSIT s) as (Hs1 & E1 & E2 & E3).
    { assert (∀ q' id', (q', id') ∈ l → (q', id') ∈ storeList s) as Hin by (intros; rewrite El; by right).
      split_and!; [|by destruct w|by destruct w|by destruct w].
      destruct w; split; cbn; rewrite ?length_insert; try done; intros; by apply I, Hin. }
    destruct (IH s1 Hs1) as (s' & -> & Hs' & El' & Ea & Eb); [rewrite E1; lia|].
    exists s'. split_and!; [done|done| |congruence|congruence]. rewrite El', E1, filter_cons, decide_False by (cbn; lia). done.
Qed.

Lemma set_step_ok o s last : sinv s last → in_order last [o] = true →
  ∃ s' last', set_step (s, last) o = Some (s', last') ∧ sinv s' last' ∧
    (∀ ops, in_order last (o :: ops) = true → in_order last' ops = true).
Proof.
  intros Hs Ho. destruct o as [a b|a q|a q b|n|]; cbn [set_step].
  - destruct (violation_ok s last Hs a b) as (s' & -> & Hs' & _). by exists s', last.
  - cbn in Ho. destruct (insertStore_ok s last Hs a q) as (s' & -> & Hs' & _); [lia|]. exists s', q.
    split_and!; [done|done|]. cbn. intros ops [_ Hops]%andb_true_iff. done.
  - destruct (issued_ok s last Hs a q b) as (s' & -> & Hs'). by exists s', last.
  - unfold squash. destruct (set_squash_loop_ok n last _ s Hs (le_n _)) as (s' & -> & Hs' & _). by exists s', last.
  - exists (clear s), last. split_and!; [done|by apply clear_ok|done].
Qed.

Lemma set_run_ok ops s last : sinv s last → in_order last ops = true →
  ∃ s' last', set_run (s, last) ops = Some (s', last') ∧ sinv s' last'.
Proof.
  revert s last. induction ops as [|o ops IH]; intros s last Hs Ho; [by exists s, last|].
  destruct (set_step_ok o s last Hs) as (s1 & l1 & E & Hs1 & Hn).
  { destruct o; cbn in *; try done. apply andb_true_iff in Ho as [-> _]. done. }
  destruct (IH s1 l1 Hs1 (Hn ops Ho)) as (s2 & l2 & E2 & Hs2). exists s2, l2. split; [|done].
  unfold set_run in *. cbn [foldl mbind option_bind]. by rewrite E.
Qed.

Lemma init_sinv k m : 0 <= k < 31 → 0 < m → sinv (init empty_set (2 ^ k) m) 0.
Proof.
  intros Hk Hm. assert (0 < 2 ^ k) by lia. split; cbn; unfold resize; rewrite ?take_nil, ?length_app, ?length_replicate; cbn [length]; try lia; try done.
  - by exists k.
  - intros i id Hi. apply lookup_replicate in Hi as [? _]. done.
  - intros q id Hin. set_solver.
  - constructor.
Qed.

(** C34. The predictor always returns. Whatever violations, stores, issues,
    squashes and resets the processor reports, with stores in the order of their
    sequence numbers, no assertion fails, no access leaves a table and every
    squash ends; a squash leaves of the stores it knows exactly those that are
    not younger than the number it is given. *)
Theorem store_sets_return k m ops n : 0 <= k < 31 → 0 < m → in_order 0 ops = true →
  ∃ s last s', set_run (init empty_set (2 ^ k) m, 0) ops = Some (s, last) ∧ squash s n = Some s' ∧
    storeList s' = filter (λ x, x.1 <= n) (storeList s).
Proof.
  intros Hk Hm Ho. destruct (set_run_ok ops _ 0 (init_sinv k m Hk Hm) Ho) as (s & last & E & Hs).
  destruct (set_squash_loop_ok n last _ s Hs (le_n _)) as (s' & E' & _ & El & _). by exists s, last, s'.
Qed.

(** C35. The predictor learns from a violation. In every state that the processor
    can bring it to, after a violation between a load and a store the next
    instance of the store makes the load wait for it. *)
Theorem store_set_learns k m ops store_PC load_PC q : 0 <= k < 31 → 0 < m → in_order 0 ops = true →
  ∃ s last, set_run (init empty_set (2 ^ k) m, 0) ops = Some (s, last) ∧
    (last < q → ∃ s1 s2, violation s store_PC load_PC = Some s1 ∧ insertStore s1 store_PC q = Some s2 ∧
       checkInst s2 load_PC = Some q).
Proof.
  intros Hk Hm Ho. destruct (set_run_ok ops _ 0 (init_sinv k m Hk Hm) Ho) as (s & last & E & Hs).
  exists s, last. split; [done|]. intros Hq.
  destruct (violation_ok s last Hs store_PC load_PC) as (s1 & E1 & Hs1 & Hset).
  destruct (insertStore_ok s1 last Hs1 store_PC q Hq) as (s2 & E2 & _ & Hc). exists s1, s2. split_and!; [done|done|]. by apply Hc.
Qed.

(** A store that is inserted after a younger one of its set makes a squash
    between them go round for ever. *)
Lemma squash_stuck s q id l n x w : storeList s = (q, id) :: l → n < q → at_ (LFST s) id = Some x → x <= n →
  at_ (validLFST s) id = Some w → ∀ fuel, squash_loop fuel s n = None.
Proof.
  intros El Hq Hx Hle Hw fuel. induction fuel as [|fuel IH]; cbn [squash_loop]; rewrite El; [done|].
  rewrite (proj2 (Z.leb_gt q n)), Hx by done. cbn [mbind option_bind]. rewrite Hw. cbn [mbind option_bind].
  by rewrite (proj2 (Z.ltb_ge n x)).
Qed.

(** ** Witnesses *)

Definition demo_set_ops : list set_op :=
  [OpViolation 0x1000 0x2004; OpInsert 0x1000 5; OpInsert 0x1000 7; OpIssued 0x1000 5 true; OpInsert 0x3000 8].

Lemma store_sets_return_witness : ∃ s last s', set_run (init empty_set (2 ^ 10) 1024, 0) demo_set_ops = Some (s, last) ∧
  squash s 6 = Some s' ∧ storeList s' = filter (λ x, x.1 <= 6) (storeList s).
Proof. apply (store_sets_return 10 1024 demo_set_ops 6); [lia|lia|reflexivity]. Defined.

Lemma store_set_learns_witness : ∃ s last, set_run (init empty_set (2 ^ 10) 1024, 0) demo_set_ops = Some (s, last) ∧
  (last < 9 → ∃ s1 s2, violation s 0x3000 0x2004 = Some s1 ∧ insertStore s1 0x3000 9 = Some s2 ∧ checkInst s2 0x2004 = Some 9).
Proof. apply (store_set_learns 10 1024 demo_set_ops 0x3000 0x2004 9); [lia|lia|reflexivity]. Defined.
